(* ===== verification/_CoqProject ===== *)
-Q . S2P
Prelude.v
Sort.v
E820.v
Memblock.v
MemblockRegions.v
MemblockFree.v
MemblockGrow.v
MemblockQuery.v
MemblockPages.v
MemblockCases.v
BootMemory.v
Range.v
Initrd.v
LibMath.v
Ctype.v
Kstrtox.v
LibBits.v
StringMem.v
Memmove.v
LibString.v
LibStringSpec.v
Strscpy.v
Cmdline.v
NextArg.v
Initramfs.v
GenInitCpio.v
GenInitCpioMain.v
CpioFormat.v
InitramfsSafety.v
CpioRead.v
CpioWrite.v
CpioArchive.v
GenInitCpioText.v
CpioCases.v
Klist.v
RbTree.v
RbTreeShape.v
RbTreeInsert.v
RbTreeErase.v
RbTreeDelete.v
RbTreeSpec.v
RbTreeCached.v
Timerqueue.v
Hrtimer.v
HrtimerInv.v
HrtimerQueue.v
HrtimerOps.v
HrtimerRun.v
HrtimerTop.v
KconfigExpr.v
KconfigValue.v
KconfigTransform.v
KconfigEq.v
KconfigDups.v
KconfigMenu.v
Vsprintf.v
VsprintfNumber.v
VsprintfText.v
VsprintfSpec.v
VsprintfDecode.v
VsprintfTop.v
