(* ===== verification/Prelude.v ===== *)
(** * A verification library for the minimal x86-32 kernel build

    The program is a Linux kernel reduced to what is needed to boot a 32-bit
    x86 machine into one user program. The sources are under src/minified;
    file names below are relative to it. This library models the parts whose
    behaviour is a matter of computation, as opposed to hardware: how the
    kernel finds out what memory there is and hands it out before the page
    allocator runs, the library routines that all other code relies on, the
    kernel command line, the unpacking of the initial file system, the timers
    and the search trees that keep them in order, and the two host programs of
    the build whose output decides what is built and what the kernel starts
    with.

    ** The parts and how they fit together

    At boot the firmware hands over a table of memory ranges (e820). The
    table is cleaned up, and its usable entries are registered with memblock,
    the allocator of early boot, which keeps two sorted lists of regions,
    memory and reserved. Everything allocated before the page allocator runs
    is a reservation in memblock; at the end the rest is given to the page
    allocator in naturally aligned blocks. The kernel command line is searched
    for a few options by the early code and later cut into arguments. The
    initial file system is a cpio archive that the host program gen_init_cpio
    writes and that the kernel unpacks into its root file system. What is
    compiled at all is decided by the Kconfig tool from expressions over
    three-valued symbols. When the machine runs, what is to happen at a time
    in the future is a high resolution timer: each clock has a queue of them
    in the order of expiry, the queue is a red-black tree with its leftmost
    node at hand, and the tick runs what has expired.

    ** Conventions

    Integers are [Z], and each width has its wrap-around as a function
    ([u8], [u16], [u32], [u64], [s32], [s64] below); [unsigned long], pointers
    and [phys_addr_t] are 32 bits wide, as in the build. Code that can stop
    the machine ([BUG_ON]), fault on an address, or loop returns an
    [outcome]: [Ok], [Bug] or [NoFuel]. (The [panic] of [reserve_initrd] is a
    result of its own, [None], since a theorem says when it happens.) A theorem that a function returns
    [Ok] therefore says that it neither faults nor runs out of fuel. Error
    codes of the C code are values ([result], or a negative number). Strings
    are lists of bytes; the routines that walk through memory by address work
    on a map from addresses to bytes, where an access outside the map is a
    fault.

    Loops are structural where they can be. Where they are not, the fuel is
    computed from the arguments, from a bound that the theorems then show to
    be enough: the length of the list or the number of mapped bytes plus one
    for scans; the sum of the lengths of the two lists for the walks of
    memblock; [size] of the expressions for the rewriting of Kconfig; eight
    actions for each byte of a piece of the archive; the length of the format
    and the nesting of its arguments for [vsnprintf]; the number of nodes plus
    one for a walk in a tree and for running the timers of a queue, and 33 for
    the bits of the set of active queues.

    ** The files

    - [Prelude]: machine integers, outcomes, rounding, bit scans, tactics and
      the lemmas on lists shared by the other files.
    - [Sort]: lib/sort.c, the heap sort. It returns a sorted permutation.
    - [E820]: arch/x86/kernel/e820.c. The table and the operations on it; each
      operation changes the type of exactly the addresses it is asked to, and
      [e820__update_table] (the sanitiser) produces the sorted, disjoint table
      whose type at an address is the highest type the old table gave it.
    - [Memblock]: mm/memblock.c, the data and the operations.
      [MemblockRegions]: what the operations on one list do, as operations on
      a partial map from addresses to flags, proved against an interface
      ([DoublerOk]) for growing the array. [MemblockFree]: the walk over the
      free ranges, the search for a free area. [MemblockGrow]: doubling an
      array meets that interface; the theorems about [memblock_add],
      [memblock_remove], [memblock_reserve], [memblock_phys_free] and the
      allocator, which fail exactly where they have to: an operation with
      [-ENOMEM] only when its array is full and no area for a larger one is
      free, an allocation only when no admissible block is. [MemblockQuery], [MemblockPages]: queries, trimming, the
      hand-over to the page allocator. [MemblockCases]: a concrete machine,
      and the states in which the code goes wrong.
    - [BootMemory]: the way from the firmware's table to the memory list of
      memblock, composed from the two components.
    - [Range]: kernel/range.c and the table of mapped ranges of
      arch/x86/mm/init.c, built on [Sort]; the table answers exactly for the
      ranges that were added. [Initrd]: arch/x86/kernel/setup.c, reserving and
      moving the image of the boot loader, built on memblock and that table.
    - [LibMath], [LibBits]: lib/math, lib/find_bit.c and lib/bitmap.c.
    - [Ctype], [Kstrtox]: lib/ctype.c and lib/kstrtox.c.
    - [StringMem]: memory as a map from addresses to bytes. [Memmove]:
      arch/x86/lib/memcpy_32.c, instruction by instruction. [LibString]: the
      string functions of lib/string.c and arch/x86/lib/string_32.c;
      [LibStringSpec] and [Strscpy] prove them against lists.
    - [Cmdline], [NextArg]: lib/cmdline.c and arch/x86/lib/cmdline.c.
    - [Vsprintf]: lib/vsprintf.c, from the decoder of the format to the
      digits. [VsprintfText] is the specification, the text a format and its
      arguments stand for; [VsprintfNumber], [VsprintfSpec],
      [VsprintfDecode] and [VsprintfTop] show that [vsnprintf] writes the
      prefix of that text that fits, never writes outside the buffer, and
      returns the full length; [VsprintfTop] composes it with [Kstrtox].
    - [KconfigExpr], [KconfigValue]: scripts/kconfig/expr.c, rewriting and
      evaluation of expressions. [KconfigTransform], [KconfigEq],
      [KconfigDups]: the rewriting functions return and keep the value.
      [KconfigMenu]: the dependencies that menu.c builds from them.
    - [Initramfs]: init/initramfs.c and the choice of a decompressor in
      lib/decompress.c. The statics of the file are the record [machine], the
      states [cpio_state], and each [do_...] function is an action on the
      machine. The file system is the class [Vfs]; the decompressors are an
      argument, and so is [Overrun], what is found when the name of a member is
      read on past the bytes collected. [InitramfsSafety]: in every reachable
      state what is collected fits its buffer and the next action does not
      fault, except on a name without a terminator; and unpacking returns on
      every input, given that such a name is a string after all. There a write
      may fail or take nothing; the class [VfsWrites] says that it takes no
      more than it is given and is not interrupted twice in a row. For what
      whole archives do, [VfsOk] says that a write makes progress.
    - [GenInitCpio], [GenInitCpioMain]: usr/gen_init_cpio.c, the writing of
      members, and the reading of the list with the conversions of [sscanf]
      that it uses. Files and environment variables are arguments.
    - [CpioFormat]: the format of a member. [CpioRead]: the reader on a
      sequence of members, in one piece or cut anywhere. [CpioWrite]: what the
      writer appends for an entry. [CpioArchive]: archives of lists of
      entries, plain and compressed. [GenInitCpioText]: from the text of the
      list to the calls on the root file system. [CpioCases]: a file system
      that records its calls, and inputs that the programs do not expect.
    - [Klist]: include/linux/list.h, circular doubly linked lists. Any
      sequence of operations on any number of lists that share the memory
      refines the operations on lists of addresses.
    - [RbTree]: lib/rbtree.c and include/linux/rbtree_augmented.h, the nodes
      in a map from addresses to [rb_node]; the callbacks of an augmented tree
      are arguments. The mirrored halves of the loops are one definition with
      a [side]. [RbTreeShape]: a tree with a hole, what the map holds for it,
      and the rules for the writes. [RbTreeInsert], [RbTreeErase],
      [RbTreeDelete], [RbTreeSpec]: insertion, the colours after a removal,
      the removal, the successor. [RbTreeCached]: the trees with a leftmost
      node and the walk that finds the place of a new node; whatever the
      callbacks do, the tree stays a balanced search tree with exactly the
      nodes it should have.
    - [Timerqueue]: lib/timerqueue.c; sequences of its operations refine
      sequences of operations on a list that is sorted by the time of expiry.
    - [Hrtimer]: kernel/time/hrtimer.c with include/linux/hrtimer.h. The eight
      clock bases, their queues and the timers are the record [hstate]; the
      times the hardware tells are arguments. [HrtimerInv]: the invariant that
      ties bases, queues, timers and the bits of active bases together, and
      the search for the next event. [HrtimerQueue], [HrtimerOps]: putting
      into and taking from a queue, starting and cancelling. [HrtimerRun]:
      running the expired timers, against the class [HrtimerCallback] of what
      the function of a timer may do. [HrtimerTop]: the tick, the soft
      interrupt, the waking of a sleeping task as an instance of that class,
      and the steps of the whole.

    ** What the theorems show

    For each component: that its operations return without faults for every
    input that satisfies the stated invariant, that they preserve the
    invariant, and what they compute, in terms of an abstract view (a map, a
    set of addresses, a text, a value). Where two components interact the
    theorem is about the composition: firmware table to memblock, archive
    writer to archive reader, number printing to number parsing, expression
    rewriting to menu dependencies, trees to queues to timers: every state that
    is reached by the operations of the timers and the ticks satisfies the
    invariant, a tick leaves no expired timer behind, and the next event that
    is computed is the earliest of all timers. Where the code does not do what
    it means to, a theorem or an example exhibits the states ([E820],
    [MemblockCases], [Initrd], [KconfigDups], [CpioCases]).

    ** Not modelled

    - Code that programs hardware (interrupt controllers, page tables, the
      processor's registers, clock chips, consoles) has its effect in the
      hardware.
    - Process management, the scheduler, locking, the page and slab
      allocators, the page cache and the virtual file system work on shared,
      reference-counted object graphs under locks and RCU; a shallow
      embedding would need a model of that concurrency first.
    - The timer wheel of kernel/time/timer.c. Of the high resolution timers,
      the waiting of a task in [do_nanosleep], which is a call
      of the scheduler, and the reading of clocks; of the trees, the find and
      add helper nobody calls and the macros that generate callbacks. The
      timers are modelled for one processor, without CONFIG_HIGH_RES_TIMERS,
      as in the build. Of include/linux/list.h, the lists with a single pointer
      in the head (hlist).
    - Code generated by the build, and code for configurations that are
      switched off.
    - Of init/initramfs.c, finding and freeing the memory of the archive; of
      gen_init_cpio, its command line and errors of standard output. The
      rounds of [cpio_replace_env] are not bounded by the code; the model
      gives up after 4096.
    - Within the modelled files: debugging output, the dump functions, stubs
      with empty bodies, and functions that only pass their arguments on to
      hardware or to unmodelled parts. *)

From Stdlib Require Export ZArith Lia Sorted.
From stdpp Require Export base tactics list_numbers numbers option sets.
From stdpp Require Export list.

#[global] Open Scope Z_scope.

(** ** Machine integers

    C integers are kept as [Z]; the wrap-around of each width is written out
    with one of the functions below.  The build is a 32-bit x86 kernel, so
    [unsigned long], [size_t] and [phys_addr_t] are all 32 bits wide. *)

Definition u8 (x : Z) : Z := x mod 2 ^ 8.
Definition u16 (x : Z) : Z := x mod 2 ^ 16.
Definition u32 (x : Z) : Z := x mod 2 ^ 32.
Definition u64 (x : Z) : Z := x mod 2 ^ 64.
Definition s32 (x : Z) : Z := (x + 2 ^ 31) mod 2 ^ 32 - 2 ^ 31.
Definition s64 (x : Z) : Z := (x + 2 ^ 63) mod 2 ^ 64 - 2 ^ 63.

(** Pages of 4096 bytes (include/linux/pfn.h). *)
Definition PAGE_SHIFT : Z := 12.
Definition PAGE_SIZE : Z := 4096.
Definition PFN_UP (x : Z) : Z := Z.shiftr (u32 (x + PAGE_SIZE - 1)) PAGE_SHIFT.
Definition PFN_DOWN (x : Z) : Z := Z.shiftr x PAGE_SHIFT.

(** The number of the lowest set bit ([bsf]; [undef] is what it leaves for
    [0], where its result is undefined). *)
Definition __ffs (undef word : Z) : Z := if word =? 0 then undef else Z.log2 (Z.land word (- word)).

Definition U32_MAX : Z := 2 ^ 32 - 1.
Definition U64_MAX : Z := 2 ^ 64 - 1.

Lemma u32_small x : 0 <= x < 2 ^ 32 -> u32 x = x.
Proof. apply Z.mod_small. Qed.

Lemma u64_small x : 0 <= x < 2 ^ 64 -> u64 x = x.
Proof. apply Z.mod_small. Qed.

Lemma s32_small x : - 2 ^ 31 <= x < 2 ^ 31 -> s32 x = x.
Proof. intros. unfold s32. rewrite Z.mod_small; lia. Qed.

Lemma s64_small x : - 2 ^ 63 <= x < 2 ^ 63 -> s64 x = x.
Proof. intros. unfold s64. rewrite Z.mod_small; lia. Qed.

Lemma u32_range x : 0 <= u32 x < 2 ^ 32.
Proof. apply Z.mod_pos_bound. lia. Qed.

Lemma u64_range x : 0 <= u64 x < 2 ^ 64.
Proof. apply Z.mod_pos_bound. lia. Qed.

Lemma u8_range x : 0 <= u8 x < 2 ^ 8.
Proof. apply Z.mod_pos_bound. lia. Qed.

Lemma u32_idemp x : u32 (u32 x) = u32 x.
Proof. apply Z.mod_mod. lia. Qed.

(** [width] discharges the side conditions of the four [_small] lemmas. *)
Create Rewrite HintDb width.
#[export] Hint Rewrite u32_small u64_small s32_small s64_small using lia : width.

Ltac width := autorewrite with width.
Ltac width_in H := autorewrite with width in H.

(** ** Outcomes

    [BUG_ON] stops the machine and a loop is modelled with fuel; both are
    results of their own, so that a theorem that an operation returns is a
    theorem that neither happens. *)

Inductive outcome (A : Type) : Type :=
  | Ok (a : A)
  | Bug
  | NoFuel.
Arguments Ok {A} _.
Arguments Bug {A}.
Arguments NoFuel {A}.

#[export] Instance outcome_ret : MRet outcome := fun A a => Ok a.
#[export] Instance outcome_bind : MBind outcome := fun A B f m =>
  match m with Ok a => f a | Bug => Bug | NoFuel => NoFuel end.

(** [BUG_ON(c)]. *)
Definition BUG_ON (c : bool) : outcome unit := if c then Bug else Ok tt.

Lemma bind_Ok {A B} (f : A -> outcome B) a : (Ok a ≫= f) = f a.
Proof. reflexivity. Qed.

Lemma bind_Ok_inv {A B} (m : outcome A) (f : A -> outcome B) b :
  (m ≫= f) = Ok b -> exists a, m = Ok a /\ f a = Ok b.
Proof. destruct m; cbn; naive_solver. Qed.

(** The result of a C function that returns [0] or a negative error number,
    with what it stored through its pointer argument. *)
Inductive result (A : Type) : Type :=
  | Err (e : Z)
  | Val (a : A).
Arguments Err {A} _.
Arguments Val {A} _.

(** ** Errno values (include/uapi/asm-generic/errno-base.h) *)

Definition EIO : Z := 5.
Definition E2BIG : Z := 7.
Definition EBADF : Z := 9.
Definition ENOMEM : Z := 12.
Definition EBUSY : Z := 16.
Definition EINVAL : Z := 22.
Definition EMFILE : Z := 24.
Definition ENOSPC : Z := 28.
Definition ERANGE : Z := 34.

(** ** Case analysis on the comparisons of the code *)

(** Splits on the first comparison that guards an [if] or [match] of the
    goal, keeping its equation for [lia]. *)
Ltac case_cmp :=
  match goal with
  | |- context [if ?b then _ else _] => destruct b eqn:?
  end.

Ltac case_cmp_in H :=
  match type of H with
  | context [if ?b then _ else _] => destruct b eqn:?
  end.

(** Arithmetic with booleans counted as [0] and [1]. *)
Ltac lia_b2z :=
  repeat (cbn [Z.b2z]; match goal with |- context [Z.b2z ?b] => destruct b eqn:? end);
  cbn [Z.b2z] in *; lia.

(** Splits the conjunctions that are written in the goal, and not the ones
    inside the definitions it mentions. *)
Ltac csplit := repeat match goal with |- _ /\ _ => split end.

(** ** Powers of two and the rounding macros of include/linux/math.h

    [round_up(x, y)] and [round_down(x, y)] work on masks, so they mean what
    their names say only when [y] is a power of two. *)

Definition round_up (x y : Z) : Z := u32 (Z.lor (u32 (x - 1)) (u32 (y - 1)) + 1).
Definition round_down (x y : Z) : Z := Z.land x (U32_MAX - u32 (y - 1)).

(** [is_pow2 y k]: [y] is [2^k] and fits in 32 bits. *)
Definition is_pow2 (y k : Z) : Prop := 0 <= k < 32 /\ y = 2 ^ k.

Lemma lor_ones_low x k : 0 <= k -> Z.lor x (Z.ones k) = x - x mod 2 ^ k + 2 ^ k - 1.
Proof.
  intros Hk.
  assert (Hhi : Z.lor x (Z.ones k) = Z.lor (2 ^ k * (x / 2 ^ k)) (Z.ones k)).
  { apply Z.bits_inj'. intros i Hi. rewrite !Z.lor_spec, (Z.mul_comm (2 ^ k)).
    destruct (Z.lt_ge_cases i k).
    - by rewrite Z.ones_spec_low, !orb_true_r by lia.
    - rewrite Z.ones_spec_high, !orb_false_r, Z.mul_pow2_bits, Z.div_pow2_bits by lia.
      f_equal. lia. }
  assert (Hd : Z.land (2 ^ k * (x / 2 ^ k)) (Z.ones k) = 0).
  { by rewrite Z.land_ones, Z.mul_comm, Z.mod_mul by lia. }
  pose proof (Z.add_lor_land (2 ^ k * (x / 2 ^ k)) (Z.ones k)).
  pose proof (Z.div_mod x (2 ^ k)). rewrite Z.ones_equiv in *. lia.
Qed.

Lemma land_lnot_ones x k : 0 <= k -> Z.land x (Z.lnot (Z.ones k)) = x - x mod 2 ^ k.
Proof.
  intros Hk. rewrite <- Z.ldiff_land, Z.ldiff_ones_r by lia.
  rewrite Z.shiftl_mul_pow2, Z.shiftr_div_pow2 by lia.
  pose proof (Z.div_mod x (2 ^ k)). lia.
Qed.

Lemma pow2_u32 y k : is_pow2 y k -> 1 <= y < 2 ^ 32 /\ y - 1 = Z.ones k.
Proof.
  intros [Hk ->]. rewrite Z.ones_equiv.
  pose proof (Z.pow_lt_mono_r 2 k 32). lia.
Qed.

Lemma round_down_spec x y k :
  is_pow2 y k -> 0 <= x < 2 ^ 32 -> round_down x y = x - x mod y.
Proof.
  intros Hy Hx. destruct (pow2_u32 _ _ Hy) as [Hr Ho]. destruct Hy as [Hk ->].
  unfold round_down, U32_MAX. rewrite u32_small by lia. rewrite Ho.
  rewrite <- land_lnot_ones by lia. apply Z.bits_inj'. intros i Hi.
  rewrite !Z.land_spec. destruct (Z.lt_ge_cases i 32).
  - f_equal. replace (2 ^ 32 - 1 - Z.ones k) with (Z.lnot (Z.ones k) + 2 ^ 32 * 1)
      by (rewrite Z.lnot_eq_pred_opp || unfold Z.lnot; lia).
    rewrite <- (Z.mod_pow2_bits_low _ 32) by lia.
    rewrite (Z.mul_comm (2 ^ 32)), Z_mod_plus_full, Z.mod_pow2_bits_low by lia. done.
  - replace (Z.testbit x i) with false; [done|].
    symmetry. destruct (decide (x = 0)) as [->|]; [apply Z.bits_0|].
    apply Z.bits_above_log2; [lia|]. apply Z.lt_le_trans with 32; [|lia].
    apply Z.log2_lt_pow2; lia.
Qed.

(** [round_up] reaches the next multiple, or wraps to [0] past [2^32]. *)
Lemma round_up_spec x y k :
  is_pow2 y k -> 0 < x < 2 ^ 32 ->
  round_up x y = u32 (x - 1 - (x - 1) mod y + y).
Proof.
  intros Hy Hx. destruct (pow2_u32 _ _ Hy) as [Hr Ho]. destruct Hy as [Hk Hy].
  unfold round_up. rewrite (u32_small (x - 1)), (u32_small (y - 1)) by lia.
  rewrite Ho, lor_ones_low by lia. subst y. f_equal. lia.
Qed.

(** The greatest multiple below. *)
Lemma round_down_max x y k :
  is_pow2 y k -> 0 <= x < 2 ^ 32 ->
  (y | round_down x y) /\ 0 <= round_down x y <= x /\
  forall z, (y | z) -> z <= x -> z <= round_down x y.
Proof.
  intros Hy Hx. rewrite (round_down_spec x y k) by done.
  assert (Hp : 0 < y) by (destruct Hy as [? ->]; lia).
  pose proof (Z.div_mod x y ltac:(lia)). pose proof (Z.mod_pos_bound x y Hp).
  assert (0 <= x / y) by (apply Z.div_pos; lia).
  replace (x - x mod y) with (x / y * y) by lia. split; [by exists (x / y)|].
  split; [nia|]. intros z [q ->] Hz. apply Z.mul_le_mono_nonneg_r; [lia|].
  apply Z.div_le_lower_bound; lia.
Qed.

(** The least multiple above, unless it does not fit. *)
Lemma round_up_min x y k :
  is_pow2 y k -> 0 < x < 2 ^ 32 ->
  (round_up x y = 0 /\ forall z, (y | z) -> x <= z -> 2 ^ 32 <= z) \/
  ((y | round_up x y) /\ x <= round_up x y < 2 ^ 32 /\ forall z, (y | z) -> x <= z -> round_up x y <= z).
Proof.
  intros Hy Hx. rewrite (round_up_spec x y k) by done.
  assert (Hp : 0 < y <= 2 ^ 31).
  { destruct Hy as [Hk ->]. split; [lia|]. apply Z.pow_le_mono_r; lia. }
  assert (Hdiv : (y | 2 ^ 32)).
  { destruct Hy as [Hk ->]. exists (2 ^ (32 - k)). rewrite <- Z.pow_add_r by lia. f_equal. lia. }
  pose proof (Z.div_mod (x - 1) y ltac:(lia)). pose proof (Z.mod_pos_bound (x - 1) y ltac:(lia)).
  assert (0 <= (x - 1) / y) by (apply Z.div_pos; lia).
  replace (x - 1 - (x - 1) mod y + y) with (((x - 1) / y + 1) * y) by lia.
  set (m := ((x - 1) / y + 1) * y) in *.
  assert (Hm : x <= m /\ forall z, (y | z) -> x <= z -> m <= z).
  { unfold m. split; [lia|]. intros z [q ->] Hz. apply Z.mul_le_mono_nonneg_r; [lia|].
    enough ((x - 1) / y < q) by lia. apply Z.div_lt_upper_bound; lia. }
  destruct Hm as [Hm1 Hm2]. assert (Hle : m <= 2 ^ 32) by (apply Hm2; [done|lia]).
  destruct (decide (m = 2 ^ 32)) as [E|E].
  - left. rewrite E. split; [done|]. intros z Hz Hxz. rewrite <- E. by apply Hm2.
  - right. rewrite u32_small by lia. split; [by exists ((x - 1) / y + 1)|]. split; [lia|done].
Qed.

(** ** The lowest set bit

    [x & -x] isolates it; a positive number is [2^t * (2q + 1)] with [t] its
    index. *)

Lemma low_bit_split x : 0 < x -> exists t q, 0 <= t /\ 0 <= q /\ x = 2 ^ t * (2 * q + 1).
Proof.
  intros Hx. destruct x as [|p|p]; [lia| |lia]. clear Hx. induction p as [p _|p IH|].
  - exists 0, (Z.pos p). lia.
  - destruct IH as (t & q & Ht & Hq & E). exists (t + 1), q.
    rewrite Z.pow_add_r by lia. split_and!; [lia..|]. rewrite Pos2Z.inj_xO. lia.
  - exists 0, 0. lia.
Qed.

Lemma testbit_pow2_odd t q i :
  0 <= t -> 0 <= i ->
  Z.testbit (2 ^ t * (2 * q + 1)) i =
  (if i <? t then false else if i =? t then true else Z.testbit q (i - t - 1)).
Proof.
  intros Ht Hi. rewrite Z.mul_comm. repeat case_cmp.
  - rewrite Z.mul_pow2_bits_low by lia. done.
  - rewrite Z.mul_pow2_bits by lia. replace (i - t) with 0 by lia. apply Z.testbit_odd_0.
  - rewrite Z.mul_pow2_bits by lia.
    rewrite <- (Z.testbit_odd_succ q) by lia. f_equal. lia.
Qed.

Lemma land_neg_low_bit x t q :
  0 <= t -> 0 <= q -> x = 2 ^ t * (2 * q + 1) -> x < 2 ^ 32 -> Z.land x (u32 (- x)) = 2 ^ t.
Proof.
  intros Ht Hq Hx Hlt. apply Z.bits_inj'. intros i Hi. rewrite Z.land_spec, Z.pow2_bits_eqb by lia.
  assert (Ht32 : t < 32) by (apply (Z.pow_lt_mono_r_iff 2); nia).
  destruct (Z.lt_ge_cases i 32).
  - unfold u32. rewrite Z.mod_pow2_bits_low by lia.
    replace (- x) with (2 ^ t * (2 * Z.lnot q + 1)) by (unfold Z.lnot; lia).
    rewrite Hx, !testbit_pow2_odd by lia. repeat case_cmp; try lia.
    rewrite Z.lnot_spec, andb_negb_r by lia. lia.
  - unfold u32. rewrite (Z.mod_pow2_bits_high _ 32), andb_false_r by lia. lia.
Qed.

(** [__ffs] of a word that is not 0 is the index of its lowest set bit. *)
Lemma ffs_spec undef x :
  0 < x < 2 ^ 32 ->
  exists t q, __ffs undef x = t /\ 0 <= t < 32 /\ 0 <= q /\ x = 2 ^ t * (2 * q + 1).
Proof.
  intros Hx. destruct (low_bit_split x) as (t & q & Ht & Hq & E); [lia|]. exists t, q.
  assert (Ht32 : t < 32) by (apply (Z.pow_lt_mono_r_iff 2); nia).
  split; [|lia]. unfold __ffs. rewrite (proj2 (Z.eqb_neq _ _)) by lia.
  replace (Z.land x (- x)) with (2 ^ t); [by apply Z.log2_pow2|].
  rewrite <- (land_neg_low_bit x t q) by (done || lia). apply Z.bits_inj'. intros i Hi.
  rewrite !Z.land_spec. unfold u32. destruct (Z.lt_ge_cases i 32).
  - by rewrite Z.mod_pow2_bits_low by lia.
  - pose proof (Z.pow_le_mono_r 2 32 i). rewrite (Z.bits_above_log2 x i); [done|lia|].
    apply Z.log2_lt_pow2; lia.
Qed.

Lemma ffs_testbit undef x :
  0 < x < 2 ^ 32 -> 0 <= __ffs undef x < 32 /\ Z.testbit x (__ffs undef x) = true /\
    forall i, 0 <= i < __ffs undef x -> Z.testbit x i = false.
Proof.
  intros Hx. destruct (ffs_spec undef x Hx) as (t & q & -> & Ht & _ & ->). split; [done|]. split.
  - rewrite testbit_pow2_odd by lia. by rewrite Z.ltb_irrefl, Z.eqb_refl.
  - intros i Hi. rewrite testbit_pow2_odd by lia. by rewrite (proj2 (Z.ltb_lt _ _)) by lia.
Qed.

Lemma ffs_unique undef x t :
  0 < x < 2 ^ 32 -> 0 <= t -> Z.testbit x t = true -> (forall i, 0 <= i < t -> Z.testbit x i = false) ->
  __ffs undef x = t.
Proof.
  intros Hx Ht Hb Hlow. destruct (ffs_testbit undef x Hx) as (H0 & H1 & H2).
  destruct (Z.lt_trichotomy (__ffs undef x) t) as [H|[H|H]]; [|done|].
  - rewrite Hlow in H1; [done|lia].
  - rewrite H2 in Hb; [done|lia].
Qed.

Lemma land_pow2_testbit x t : 0 <= t -> Z.land x (2 ^ t) = if Z.testbit x t then 2 ^ t else 0.
Proof.
  intros Ht. apply Z.bits_inj'. intros i Hi. rewrite Z.land_spec, Z.pow2_bits_eqb by lia.
  destruct (Z.eqb_spec t i) as [->|Hne].
  - destruct (Z.testbit x i); rewrite ?Z.bits_0, ?Z.pow2_bits_true by lia; done.
  - rewrite andb_false_r. destruct (Z.testbit x t); [|by rewrite Z.bits_0].
    by rewrite Z.pow2_bits_false by lia.
Qed.

Lemma lor_disjoint x y : 0 <= x < 2 ^ 32 -> Z.lor x (y * 2 ^ 32) = x + y * 2 ^ 32.
Proof.
  intros Hx. rewrite <- Z.add_lor_land. enough (Z.land x (y * 2 ^ 32) = 0) by lia.
  apply Z.bits_inj'. intros n Hn. rewrite Z.land_spec, Z.bits_0.
  destruct (Z.lt_ge_cases n 32).
  - by rewrite Z.mul_pow2_bits_low, andb_false_r by lia.
  - rewrite (Z.bits_above_log2 x n); [done|lia|].
    destruct (Z.eq_dec x 0) as [->|]; [cbn; lia|]. apply Z.log2_lt_pow2; [lia|].
    apply (Z.lt_le_trans _ (2 ^ 32)); [lia|]. apply Z.pow_le_mono_r; lia.
Qed.

Lemma s32_u32 x : - 2 ^ 31 <= x < 2 ^ 31 -> s32 (u32 x) = x.
Proof. intros H. unfold s32, u32. rewrite Zplus_mod_idemp_l, Z.mod_small; lia. Qed.

(** ** Lists *)

Section lists.
Context {A : Type}.
Implicit Types l k : list A.

Lemma app_cons_snoc l x k : l ++ x :: k = (l ++ [x]) ++ k.
Proof. by rewrite <- app_assoc. Qed.

Lemma length_snoc l x : length (l ++ [x]) = S (length l).
Proof. rewrite length_app. cbn. lia. Qed.

Lemma take_pre l k : take (length l) (l ++ k) = l.
Proof. apply take_app_length. Qed.

Lemma drop_pre l k : drop (length l) (l ++ k) = k.
Proof. apply drop_app_length. Qed.

Lemma drop_S_pre l x k : drop (S (length l)) (l ++ x :: k) = k.
Proof. rewrite app_cons_snoc, <- (length_snoc l x). apply drop_app_length. Qed.

Lemma lookup_pre l x k : (l ++ x :: k) !! length l = Some x.
Proof. by apply list_lookup_middle. Qed.

Lemma lookup_total_pre `{!Inhabited A} l x k : (l ++ x :: k) !!! length l = x.
Proof. by apply list_lookup_total_middle. Qed.

Lemma lookup_end l : l !! length l = None.
Proof. by apply lookup_ge_None_2. Qed.

Lemma insert_pre l x y k : <[length l := y]> (l ++ x :: k) = l ++ y :: k.
Proof. rewrite <- (Nat.add_0_r (length l)). by rewrite insert_app_r. Qed.

Lemma sorted_app (R : relation A) l k :
  StronglySorted R (l ++ k) <->
  StronglySorted R l /\ StronglySorted R k /\
  (forall r s, r ∈ l -> s ∈ k -> R r s).
Proof.
  induction l as [|r l IH]; cbn.
  - split; [intros H; split_and!; [constructor|done|by intros ? ? ?%not_elem_of_nil]|by intros (_ & ? & _)].
  - split.
    + intros [H [Hb1 Hb2]%Forall_app]%StronglySorted_inv. apply IH in H as (H1 & H2 & H3).
      rewrite Forall_forall in Hb2. split_and!; [by constructor|done|].
      intros r' s [->|Hr]%elem_of_cons Hs; auto.
    + intros ([H1 Hb]%StronglySorted_inv & H2 & H3). constructor.
      * apply IH. split_and!; [done..|]. intros r' s Hr. apply H3. by right.
      * apply Forall_app. split; [done|]. apply Forall_forall. intros s Hs. apply H3; [left|done].
Qed.
End lists.

Create Rewrite HintDb pre.
#[export] Hint Rewrite @take_pre @drop_pre @drop_S_pre @lookup_pre @lookup_end @insert_pre : pre.
