(* ===== verification/Sort.v ===== *)
(** * Heap sort (lib/sort.c)

    [sort_r] sorts an array of [num] elements of [size] bytes in place.  The
    array is the list of its elements; the byte offsets [a], [b], [c], [d],
    [n] of the code are kept as they are, and an access at offset [off] is an
    access to element [off / size].  An access outside the array is the
    outcome [Bug], so that the correctness theorem is a memory-safety theorem
    too.  Exchanging two elements is one step of the model: the byte-wise and
    word-wise swap routines of the file exchange the two elements' bytes. *)

From S2P Require Import Prelude.


(** ** What a comparison function must promise

    The test the code makes is [cmp(x, y) >= 0]; sorting needs it to be total
    and transitive, and nothing about how ties are broken. *)

Class CmpFunc {A : Type} (cmp : A -> A -> Z) : Prop := {
  cmp_total x y : 0 <= cmp x y \/ 0 <= cmp y x;
  cmp_trans x y z : 0 <= cmp x y -> 0 <= cmp y z -> 0 <= cmp x z;
}.

(** ** The code *)

Section code.
Context {A : Type} (cmp : A -> A -> Z).

(** The element at byte offset [off] of the array. *)
Definition load (size : Z) (l : list A) (off : Z) : outcome A :=
  match l !! Z.to_nat (off / size) with Some x => Ok x | None => Bug end.

Definition do_swap (size : Z) (l : list A) (a b : Z) : outcome (list A) :=
  x ← load size l a; y ← load size l b;
  Ok (<[Z.to_nat (b / size) := x]> (<[Z.to_nat (a / size) := y]> l)).

Definition do_cmp (size : Z) (l : list A) (a b : Z) : outcome Z :=
  x ← load size l a; y ← load size l b; Ok (cmp x y).

(** The offset of the parent of the element at offset [i]; [lsbit] is the
    lowest set bit of [size], so the masking subtracts [size] once more
    exactly when the element number is even. *)
Definition parent (i lsbit size : Z) : Z :=
  let i := u32 (i - size) in
  let i := u32 (i - Z.land size (u32 (- Z.land i lsbit))) in
  i / 2.

(** [for (b = a; c = 2*b + size, (d = c + size) < n;)]: walk down to a leaf
    along the larger children; the result is [(b, c, d)]. *)
Fixpoint descend (fuel : nat) (size : Z) (l : list A) (n b : Z) : outcome (Z * Z * Z) :=
  match fuel with
  | O => NoFuel
  | S fuel =>
      let c := u32 (2 * b + size) in
      let d := u32 (c + size) in
      if d <? n then
        r ← do_cmp size l c d;
        descend fuel size l n (if r >=? 0 then c else d)
      else Ok (b, c, d)
  end.

(** [while (b != a && do_cmp(base + a, base + b) >= 0) b = parent(b)]. *)
Fixpoint climb (fuel : nat) (size lsbit : Z) (l : list A) (a b : Z) : outcome Z :=
  match fuel with
  | O => NoFuel
  | S fuel =>
      if b =? a then Ok b
      else
        r ← do_cmp size l a b;
        if r >=? 0 then climb fuel size lsbit l a (parent b lsbit size) else Ok b
  end.

(** [while (b != a) { b = parent(b); do_swap(base + b, base + c); }]. *)
Fixpoint shift (fuel : nat) (size lsbit : Z) (l : list A) (a b c : Z) : outcome (list A) :=
  match fuel with
  | O => NoFuel
  | S fuel =>
      if b =? a then Ok l
      else
        let b := parent b lsbit size in
        l ← do_swap size l b c;
        shift fuel size lsbit l a b c
  end.

(** One turn of the outer loop after [a] and [n] have been updated. *)
Definition sift (size lsbit : Z) (l : list A) (a n : Z) : outcome (list A) :=
  let fuel := S (length l) in
  '(b, c, d) ← descend fuel size l n a;
  let b := if d =? n then c else b in
  b ← climb fuel size lsbit l a b;
  shift fuel size lsbit l a b b.

Fixpoint sort_loop (fuel : nat) (size lsbit : Z) (l : list A) (a n : Z) : outcome (list A) :=
  match fuel with
  | O => NoFuel
  | S fuel =>
      if negb (a =? 0) then
        let a := u32 (a - size) in
        l ← sift size lsbit l a n;
        sort_loop fuel size lsbit l a n
      else
        let n := u32 (n - size) in
        if negb (n =? 0) then
          l ← do_swap size l 0 n;
          l ← sift size lsbit l a n;
          sort_loop fuel size lsbit l a n
        else Ok l
  end.

(** The fuel counts the turns of the outer loop: [num / 2] to build the heap,
    [num] to empty it. *)
Definition sort_r (l : list A) (num size : Z) : outcome (list A) :=
  let n := u32 (num * size) in
  let a := u32 (num / 2 * size) in
  let lsbit := Z.land size (u32 (- size)) in
  if a =? 0 then Ok l
  else sort_loop (2 * length l) size lsbit l a n.

Definition sort (l : list A) (num size : Z) : outcome (list A) := sort_r l num size.

End code.

Example sort_ex : sort Z.sub [5; 3; 9; 1; 3; 7; 2; 8] 8 12 = Ok [1; 2; 3; 3; 5; 7; 8; 9].
Proof. reflexivity. Qed.

(** ** Offsets are element numbers *)

(** Node [k]'s parent in the implicit binary heap. *)
Definition hpar (k : nat) : nat := ((k - 1) / 2)%nat.

Lemma hpar_child p k : (0 < k)%nat -> hpar k = p <-> (k = 2 * p + 1 \/ k = 2 * p + 2)%nat.
Proof.
  unfold hpar. intros Hk. pose proof (Nat.div_mod_eq (k - 1) 2).
  pose proof (Nat.mod_upper_bound (k - 1) 2). lia.
Qed.

Lemma hpar_lt k : (0 < k)%nat -> (hpar k < k)%nat.
Proof. intros Hk. destruct (proj1 (hpar_child (hpar k) k Hk) eq_refl); lia. Qed.

Section offsets.
Context {A : Type} (cmp : A -> A -> Z) (size : Z).
Hypothesis (Hsize : 0 < size).
Implicit Types (l : list A) (i j k : nat).

(** The byte offset of element [i]. *)
Definition off (i : nat) : Z := Z.of_nat i * size.

Lemma off_inj i j : off i = off j -> i = j.
Proof. unfold off. nia. Qed.

Lemma off_lt i j : off i < off j <-> (i < j)%nat.
Proof. unfold off. nia. Qed.

Lemma off_nonneg i : 0 <= off i.
Proof. unfold off. nia. Qed.

Lemma off_div i : Z.to_nat (off i / size) = i.
Proof. unfold off. rewrite Z.div_mul by lia. lia. Qed.

Lemma load_off l i x : l !! i = Some x -> load size l (off i) = Ok x.
Proof. intros H. unfold load. by rewrite off_div, H. Qed.

Lemma do_cmp_off l i j x y :
  l !! i = Some x -> l !! j = Some y -> do_cmp cmp size l (off i) (off j) = Ok (cmp x y).
Proof. intros Hx Hy. unfold do_cmp. by erewrite !load_off by done. Qed.

Lemma do_swap_off l i j x y :
  l !! i = Some x -> l !! j = Some y ->
  do_swap size l (off i) (off j) = Ok (<[j := x]> (<[i := y]> l)).
Proof. intros Hx Hy. unfold do_swap. erewrite !load_off by done. cbn. by rewrite !off_div. Qed.

Lemma parent_off k :
  size < 2 ^ 32 -> (0 < k)%nat -> off k < 2 ^ 32 ->
  parent (off k) (Z.land size (u32 (- size))) size = off (hpar k).
Proof.
  intros Hs Hk Hlt. destruct (low_bit_split size Hsize) as (t & q & Ht & Hq & Eq).
  rewrite (land_neg_low_bit size t q) by done. unfold parent.
  unfold off, hpar in *. rewrite Nat2Z.inj_div.
  assert (Hk' : Z.of_nat k = Z.of_nat (k - 1) + 1) by lia.
  rewrite Hk' in *. remember (Z.of_nat (k - 1)) as j. assert (Hj0 : 0 <= j) by lia.
  assert (Hjs : 0 <= j * size /\ j * size + size < 2 ^ 32) by (clear - Hlt Hsize Hj0; nia).
  replace ((j + 1) * size - size) with (j * size) by lia. rewrite (u32_small (j * size)) by lia.
  assert (Ht32 : t < 32) by (apply (Z.pow_lt_mono_r_iff 2); nia).
  rewrite land_pow2_testbit by done.
  assert (Hb : Z.testbit (j * size) t = Z.odd j).
  { rewrite Eq. replace (j * (2 ^ t * (2 * q + 1))) with ((j * (1 + 2 * q)) * 2 ^ t) by lia.
    rewrite Z.mul_pow2_bits by lia.
    rewrite Z.sub_diag, Z.bit0_odd, Z.odd_mul, Z.odd_add_mul_2. apply andb_true_r. }
  assert (Hmask : Z.land size (u32 (- 2 ^ t)) = size).
  { replace (u32 (- 2 ^ t)) with (U32_MAX - u32 (2 ^ t - 1)).
    - pose proof (round_down_spec size (2 ^ t) t) as Hr. unfold round_down in Hr.
      rewrite Hr by (unfold is_pow2; lia). rewrite Eq at 2.
      rewrite (Z.mul_comm (2 ^ t)), Z.mod_mul by lia. lia.
    - pose proof (Z.pow_lt_mono_r 2 t 32). unfold u32, U32_MAX.
      rewrite (Z.mod_small (2 ^ t - 1)) by lia.
      rewrite <- (Z_mod_plus_full (- 2 ^ t) 1), Z.mod_small by lia. lia. }
  pose proof (Z.div_mod j 2) as Hdm. rewrite Zmod_odd in Hdm. rewrite Hb.
  change (Z.of_nat 2) with 2. destruct (Z.odd j) eqn:Hodd.
  - rewrite Hmask. assert (Hj1 : 1 <= j) by lia.
    assert (Hjs1 : size <= j * size) by (clear - Hj1 Hsize; nia). rewrite u32_small by lia.
    replace (j * size - size) with ((j / 2 * size) * 2) by lia. apply Z.div_mul. lia.
  - change (u32 (- 0)) with 0. rewrite Z.land_0_r, Z.sub_0_r, u32_small by lia.
    replace (j * size) with ((j / 2 * size) * 2) by lia. apply Z.div_mul. lia.
Qed.

End offsets.

(** ** Ancestors in the heap *)

Inductive anc (x : nat) : nat -> Prop :=
  | anc_refl : anc x x
  | anc_step y : (0 < y)%nat -> anc x (hpar y) -> anc x y.

#[export] Hint Constructors anc : core.

Lemma anc_le x y : anc x y -> (x <= y)%nat.
Proof. induction 1 as [|y Hy _ IH]; [done|]. pose proof (hpar_lt y Hy). lia. Qed.

Lemma anc_trans x y z : anc x y -> anc y z -> anc x z.
Proof. induction 2; eauto. Qed.

Lemma anc_parent x y : anc x y -> x <> y -> (0 < y)%nat /\ anc x (hpar y).
Proof. destruct 1; naive_solver. Qed.

#[export] Instance anc_dec x y : Decision (anc x y).
Proof.
  induction y as [y IH] using lt_wf_rec.
  destruct (decide (x = y)) as [->|Hne]; [left; auto|].
  destruct (decide (0 < y)%nat) as [Hy|Hy].
  - destruct (IH (hpar y) (hpar_lt y Hy)) as [Ha|Ha]; [left; auto|right].
    intros H. by destruct (anc_parent _ _ H Hne).
  - right. intros H. by destruct (anc_parent _ _ H Hne).
Defined.

(** The ancestors of a node form a chain. *)
Lemma anc_chain x y c : anc x c -> anc y c -> anc x y \/ anc y x.
Proof.
  intros Hx. revert y. induction Hx as [|c Hc Hx IH]; intros y Hy; [by right|].
  destruct (decide (y = c)) as [->|Hne]; [left; eauto|].
  destruct (anc_parent _ _ Hy Hne) as [_ Hy']. eauto.
Qed.

Lemma anc_sibling x y c :
  anc x c -> anc y c -> (0 < x)%nat -> (0 < y)%nat -> hpar x = hpar y -> x = y.
Proof.
  intros Hx Hy Hx0 Hy0 Hp.
  destruct (decide (x = y)) as [|Hne]; [done|exfalso].
  pose proof (hpar_lt x Hx0). pose proof (hpar_lt y Hy0).
  destruct (anc_chain _ _ _ Hx Hy) as [H1|H1];
    destruct (anc_parent _ _ H1 ltac:(done)) as [_ H2]; apply anc_le in H2; lia.
Qed.

(** Below an ancestor other than the node itself there is a next one. *)
Lemma anc_next p c : anc p c -> p <> c -> exists q, (0 < q)%nat /\ hpar q = p /\ anc q c.
Proof.
  induction 1 as [|c Hc Hp IH]; [done|]. intros Hne.
  destruct (decide (p = hpar c)) as [->|Hne']; [exists c; auto|].
  destruct (IH Hne') as (q & ? & ? & ?). exists q. eauto.
Qed.

(** ** One turn of the outer loop restores the heap *)

Section heap.
Context {A : Type} (cmp : A -> A -> Z) `{!CmpFunc cmp} (size : Z).
Hypothesis (Hsize : 0 < size < 2 ^ 32).

(** [ge x y] is the test the code makes, [cmp(x, y) >= 0]. *)
Definition ge (x y : A) : Prop := 0 <= cmp x y.

Implicit Types (l m : list A) (a b c k n : nat).

Local Abbreviation off := (off size).
Local Abbreviation lsbit := (Z.land size (u32 (- size))).

(** [gei l i j]: elements [i] and [j] exist and the first is not smaller. *)
Definition gei l (i j : nat) : Prop := exists x y, l !! i = Some x /\ l !! j = Some y /\ ge x y.

(** The array offsets stay far enough from the end of the address space for
    [2 * b + 2 * size] not to wrap. *)
Definition fits l : Prop := off (length l) < 2 ^ 31.

(** The heap order holds below every parent [>= a], inside the first [n]. *)
Definition heap l (a n : nat) : Prop :=
  forall k, (0 < k < n)%nat -> (a <= hpar k)%nat -> gei l (hpar k) k.

Lemma gei_trans l i j k : gei l i j -> gei l j k -> gei l i k.
Proof. intros (x & y & ? & ? & ?) (y' & z & ? & ? & ?). simplify_eq. exists x, z.
  split_and!; [done..|]. unfold ge in *. by eapply cmp_trans.
Qed.

Lemma gei_refl l i : (i < length l)%nat -> gei l i i.
Proof.
  intros [x Hx]%lookup_lt_is_Some. exists x, x. split_and!; [done..|].
  by destruct (cmp_total x x).
Qed.

Lemma gei_cases l i j : (i < length l)%nat -> (j < length l)%nat ->
  exists x y, l !! i = Some x /\ l !! j = Some y /\
    ((cmp x y >= 0 /\ gei l i j) \/ (cmp x y < 0 /\ gei l j i)).
Proof.
  intros [x Hx]%lookup_lt_is_Some [y Hy]%lookup_lt_is_Some. exists x, y. split_and!; [done..|].
  destruct (Z.le_gt_cases 0 (cmp x y)).
  - left. split; [lia|]. exists x, y. done.
  - right. split; [lia|]. exists y, x. split_and!; [done..|].
    unfold ge. destruct (cmp_total x y); [lia|done].
Qed.

(** A path from [a] that takes the larger child at every step. *)
Inductive mpath l (n a : nat) : nat -> Prop :=
  | mpath_refl : mpath l n a a
  | mpath_step k : (0 < k < n)%nat -> mpath l n a (hpar k) ->
      (forall k', (0 < k' < n)%nat -> hpar k' = hpar k -> gei l k k') -> mpath l n a k.

Lemma mpath_anc l n a k : mpath l n a k -> anc a k.
Proof. induction 1; [done|]. apply anc_step; [lia|done]. Qed.

Lemma mpath_lt l n a k : (a < n)%nat -> mpath l n a k -> (k < n)%nat.
Proof. intros ?. destruct 1; lia. Qed.

Lemma descend_ok l n a fuel b :
  fits l -> (n <= length l)%nat -> mpath l n a b -> (b < n)%nat -> (n - b < fuel)%nat ->
  exists b', descend cmp fuel size l (off n) (off b)
             = Ok (off b', off (2 * b' + 1), off (2 * b' + 2)) /\
    mpath l n a b' /\ (b' < n)%nat /\ (n <= 2 * b' + 2)%nat.
Proof.
  intros Hfit Hn. revert b. induction fuel as [|fuel IH]; intros b Hp Hb Hfuel; [lia|].
  cbn [descend]. unfold fits in Hfit.
  assert (Hon : off n <= off (length l)) by (unfold Sort.off; nia).
  assert (Hob : off b < off n) by (unfold Sort.off; nia).
  assert (Hobs : size <= off n) by (unfold Sort.off; nia).
  assert (Hob0 : 0 <= off b) by (unfold Sort.off; nia).
  assert (Hob1 : off b + size <= off n) by (unfold Sort.off; nia).
  assert (Ec : u32 (2 * off b + size) = off (2 * b + 1)).
  { rewrite u32_small by lia. unfold Sort.off. lia. }
  assert (Ed : u32 (off (2 * b + 1) + size) = off (2 * b + 2)).
  { rewrite <- Ec, (u32_small (2 * off b + size)), u32_small by lia. unfold Sort.off. lia. }
  rewrite Ec, Ed. destruct (Z.ltb_spec (off (2 * b + 2)) (off n)) as [Hlt|Hge].
  2:{ exists b. split_and!; [done..|]. assert (~ off (2 * b + 2) < off n) by lia.
      unfold Sort.off in *. nia. }
  apply off_lt in Hlt; [|lia].
  destruct (gei_cases l (2 * b + 1) (2 * b + 2)) as (x & y & Hx & Hy & Hcase); [lia..|].
  erewrite do_cmp_off by (done || lia). cbn [mbind outcome_bind].
  assert (Hch : forall k, (0 < k)%nat -> hpar k = b <-> (k = 2 * b + 1 \/ k = 2 * b + 2)%nat)
    by (intros; by apply hpar_child).
  destruct Hcase as [[Hc Hg]|[Hc Hg]].
  - rewrite (proj2 (Z.geb_le _ _)) by lia. apply IH; [|lia..].
    apply mpath_step; [lia| |].
    + by rewrite (proj2 (Hch (2 * b + 1)%nat ltac:(lia)) (or_introl eq_refl)).
    + intros k' Hk'. rewrite (proj2 (Hch (2 * b + 1)%nat ltac:(lia)) (or_introl eq_refl)).
      intros Hk''. apply Hch in Hk'' as [->| ->]; [apply gei_refl; lia|done|lia].
  - rewrite Z.geb_leb, (proj2 (Z.leb_gt _ _)) by lia. apply IH; [|lia..].
    apply mpath_step; [lia| |].
    + by rewrite (proj2 (Hch (2 * b + 2)%nat ltac:(lia)) (or_intror eq_refl)).
    + intros k' Hk'. rewrite (proj2 (Hch (2 * b + 2)%nat ltac:(lia)) (or_intror eq_refl)).
      intros Hk''. apply Hch in Hk'' as [->| ->]; [done|apply gei_refl; lia|lia].
Qed.

(** The end of the descent, with the lone last child taken into account, is a
    leaf of the heap. *)
Lemma leaf_ok l n a b :
  (n <= length l)%nat -> mpath l n a b -> (b < n <= 2 * b + 2)%nat ->
  exists c, (if off (2 * b + 2) =? off n then off (2 * b + 1) else off b) = off c /\
    mpath l n a c /\ (c < n)%nat /\ forall k, (0 < k < n)%nat -> hpar k <> c.
Proof.
  intros Hn Hp Hb. destruct (Z.eqb_spec (off (2 * b + 2)) (off n)) as [Heq|Hne].
  - apply off_inj in Heq; [|lia]. exists (2 * b + 1)%nat.
    assert (Hpar : hpar (2 * b + 1) = b) by (apply hpar_child; lia).
    split_and!; [done| |lia|intros k Hk; rewrite hpar_child by lia; lia].
    apply mpath_step; [lia|by rewrite Hpar|]. rewrite Hpar. intros k' Hk'.
    rewrite hpar_child by lia. intros [->| ->]; [apply gei_refl; lia|lia].
  - assert (2 * b + 2 <> n)%nat by congruence. exists b.
    split_and!; [done..|lia|]. intros k Hk. rewrite hpar_child by lia. lia.
Qed.

(** [covers_children l a n b]: element [a] is not smaller than the children of [b]. *)
Definition over_children l (a n b : nat) : Prop :=
  forall k, (0 < k < n)%nat -> hpar k = b -> gei l a k.

Lemma climb_ok l n a fuel b :
  fits l -> (n <= length l)%nat -> (a < n)%nat -> mpath l n a b -> (b < n)%nat ->
  over_children l a n b -> (b < fuel)%nat ->
  exists b', climb cmp fuel size lsbit l (off a) (off b) = Ok (off b') /\
    mpath l n a b' /\ (b' < n)%nat /\ over_children l a n b' /\
    (b' <> a -> gei l b' a).
Proof.
  intros Hfit Hn Ha. revert b. induction fuel as [|fuel IH]; intros b Hp Hb Hch Hfuel; [lia|].
  cbn [climb]. unfold fits in Hfit.
  destruct (Z.eqb_spec (off b) (off a)) as [Heq|Hne].
  { apply off_inj in Heq as ->; [|lia]. exists a. split_and!; done. }
  assert (Hne' : b <> a) by congruence.
  destruct (gei_cases l a b) as (x & y & Hx & Hy & Hcase); [lia..|].
  erewrite do_cmp_off by (done || lia). cbn [mbind outcome_bind].
  destruct Hcase as [[Hc Hg]|[Hc Hg]].
  - rewrite (proj2 (Z.geb_le _ _)) by lia. destruct Hp as [|b Hb0 Hp Hbest]; [done|].
    assert (Hob : off b < off (length l)) by (apply off_lt; lia).
    pose proof (hpar_lt b ltac:(lia)). rewrite parent_off by lia.
    apply IH; [done|lia| |lia].
    intros k Hk Hkp. eapply gei_trans; [exact Hg|]. eauto.
  - rewrite Z.geb_leb, (proj2 (Z.leb_gt _ _)) by lia. exists b. split_and!; auto.
Qed.

(** After the [shift] loop the elements of the path from [a] to [c] have moved
    one step up and the element of [a] is at [c]. *)
Definition shifted l m (a c : nat) : Prop :=
  length m = length l /\ m !! c = l !! a /\
  (forall k, anc a k -> anc k c -> k <> a -> m !! hpar k = l !! k) /\
  (forall k, ~ (anc a k /\ anc k c) -> m !! k = l !! k).

Lemma shift_step l m b c :
  shifted l m b c -> (0 < b)%nat -> anc b c -> (c < length l)%nat ->
  exists x y, m !! hpar b = Some y /\ m !! c = Some x /\
    shifted l (<[c := y]> (<[hpar b := x]> m)) (hpar b) c.
Proof.
  intros (Hlen & Hc & Hpath & Hout) Hb Hanc Hcl. pose proof (hpar_lt b Hb).
  pose proof (anc_le _ _ Hanc).
  assert (Hnp : ~ (anc b (hpar b) /\ anc (hpar b) c)) by (intros [H1%anc_le _]; lia).
  destruct (lookup_lt_is_Some_2 m (hpar b)) as [y Hy]; [lia|].
  destruct (lookup_lt_is_Some_2 m c) as [x Hx]; [lia|].
  exists x, y. split_and!; [done..|]. split_and!.
  - by rewrite !length_insert.
  - rewrite list_lookup_insert_eq by (rewrite length_insert; lia). by rewrite <- Hy, Hout.
  - intros k Hak Hkc Hka. destruct (anc_parent _ _ Hak ltac:(done)) as [Hk0 Hak'].
    pose proof (anc_le _ _ Hak'). pose proof (hpar_lt k Hk0). pose proof (anc_le _ _ Hkc).
    rewrite list_lookup_insert_ne by lia.
    destruct (decide (hpar k = hpar b)) as [E|Hne].
    + rewrite (anc_sibling k b c) in * by done.
      rewrite list_lookup_insert_eq by lia. by rewrite <- Hx, Hc.
    + rewrite list_lookup_insert_ne by done. apply Hpath; [|done|].
      * destruct (anc_chain _ _ _ Hkc Hanc) as [Hkb|]; [|done].
        destruct (decide (k = b)) as [->|]; [done|].
        destruct (anc_parent _ _ Hkb ltac:(done)) as [_ Hle%anc_le]. lia.
      * intros ->. done.
  - intros k Hk.
    rewrite list_lookup_insert_ne by (intros <-; apply Hk; split; [|done]; eauto using anc_trans).
    rewrite list_lookup_insert_ne.
    + apply Hout. intros [H1 H2]. apply Hk. split; [|done]. eapply anc_trans; [|exact H1]. auto.
    + intros <-. apply Hk. split; [done|]. eapply anc_trans; [|exact Hanc]. auto.
Qed.

Lemma shift_ok l m a b c fuel :
  fits l -> shifted l m b c -> anc a b -> anc b c -> (c < length l)%nat -> (b < fuel)%nat ->
  exists m', shift fuel size lsbit m (off a) (off b) (off c) = Ok m' /\
    shifted l m' a c /\ m' ≡ₚ m.
Proof.
  intros Hfit Hs Hab Hbc Hcl. unfold fits in Hfit.
  revert m b Hs Hab Hbc. induction fuel as [|fuel IH]; intros m b Hs Hab Hbc Hfuel; [lia|].
  cbn [shift]. destruct (Z.eqb_spec (off b) (off a)) as [Heq|Hne].
  { apply off_inj in Heq as ->; [|lia]. by exists m. }
  assert (Hne' : a <> b) by congruence.
  destruct (anc_parent _ _ Hab Hne') as [Hb0 Hap]. pose proof (anc_le _ _ Hbc).
  assert (Hob : off b < off (length l)) by (apply off_lt; lia).
  rewrite parent_off by lia.
  destruct (shift_step l m b c) as (x & y & Hy & Hx & Hs'); [done..|].
  erewrite do_swap_off by (done || lia). cbn [mbind outcome_bind].
  pose proof (hpar_lt b Hb0).
  destruct (IH _ _ Hs' Hap) as (m' & E & Hm' & Hperm); [|lia|].
  { eapply anc_trans; [|exact Hbc]. auto. }
  exists m'. split_and!; [done..|]. rewrite Hperm.
  by apply Permutation_insert_swap.
Qed.

(** Every position of a shifted list holds an element of the old list, from
    the same side of any bound above [c]. *)
Lemma shifted_source l m a c n k :
  shifted l m a c -> anc a c -> (c < n)%nat -> (k < n)%nat ->
  exists j, (j < n)%nat /\ m !! k = l !! j.
Proof.
  intros (_ & Hc & Hpath & Hout) Hac Hcn Hkn. pose proof (anc_le _ _ Hac).
  destruct (decide (k = c)) as [->|Hkc]; [exists a; split; [lia|done]|].
  destruct (decide (anc a k /\ anc k c)) as [[Hak Hkc']|Hn]; [|exists k; split; auto].
  destruct (anc_next k c) as (q & Hq & <- & Hqc); [done..|].
  exists q. pose proof (anc_le _ _ Hqc). split; [lia|]. apply Hpath; [|done|].
  - by apply anc_step.
  - apply anc_le in Hak. pose proof (hpar_lt q Hq). lia.
Qed.

Lemma heap_shifted l m a c n :
  (n <= length l)%nat -> (c < n)%nat -> heap l (S a) n -> shifted l m a c ->
  mpath l n a c -> over_children l a n c -> (c <> a -> gei l c a) -> heap m a n.
Proof.
  intros Hn Hcn Hheap (Hlen & Hc & Hpath & Hout) Hmp Hover Hstop k Hk Hak.
  pose proof (mpath_anc _ _ _ _ Hmp) as Hac.
  assert (Hbest : forall q, anc a q -> anc q c -> q <> a ->
    forall k', (0 < k' < n)%nat -> hpar k' = hpar q -> gei l q k').
  { clear - Hmp. induction Hmp as [|c Hc Hmp IH Hb]; intros q Hq Hqc Hne.
    - apply anc_le in Hq, Hqc. lia.
    - destruct (decide (q = c)) as [->|Hqc']; [done|].
      destruct (anc_parent _ _ Hqc Hqc') as [_ ?]. by apply IH. }
  pose proof (hpar_lt k ltac:(lia)) as Hpk. remember (hpar k) as p eqn:Hp.
  unfold gei. destruct (decide (anc a p /\ anc p c)) as [[Hap Hpc]|Hnp].
  - destruct (decide (p = c)) as [->|Hpc'].
    + rewrite Hc, (Hout k); [apply (Hover k); congruence|]. intros [_ Hkc%anc_le]. lia.
    + destruct (anc_next p c Hpc Hpc') as (q & Hq0 & Hqp & Hqc).
      assert (Haq : anc a q) by (apply anc_step; [done|by rewrite Hqp]).
      assert (Hqa : q <> a) by (apply anc_le in Hap; pose proof (hpar_lt q Hq0); lia).
      pose proof (anc_le _ _ Hqc).
      assert (Ep : m !! p = l !! q) by (rewrite <- Hqp; by apply Hpath). rewrite Ep.
      destruct (decide (k = q)) as [->|Hkq].
      * destruct (decide (q = c)) as [->|Hqc']; [rewrite Hc; by apply Hstop|].
        destruct (anc_next q c Hqc Hqc') as (r & Hr0 & <- & Hrc).
        pose proof (anc_le _ _ Hrc). pose proof (hpar_lt r Hr0). apply anc_le in Haq as ?.
        rewrite (Hpath r); [|by apply anc_step|done|lia]. apply Hheap; lia.
      * rewrite (Hout k); [apply Hbest; [done..|lia|congruence]|].
        intros [_ Hkc]. apply Hkq. apply (anc_sibling k q c); [done..|lia|done|congruence].
  - assert (Hpa : p <> a) by (intros ->; apply Hnp; auto).
    rewrite (Hout p) by done. rewrite (Hout k); [subst p; apply Hheap; lia|].
    intros [Hak' Hkc]. apply Hnp. destruct (anc_parent _ _ Hak') as [? ?]; [lia|].
    rewrite <- Hp in *. split; [done|]. eapply anc_trans; [|exact Hkc].
    apply anc_step; [lia|]. rewrite <- Hp. auto.
Qed.

Lemma sift_ok l a n :
  fits l -> (n <= length l)%nat -> (a < n)%nat -> heap l (S a) n ->
  exists m, sift cmp size lsbit l (off a) (off n) = Ok m /\ heap m a n /\ m ≡ₚ l /\
    (forall k, (n <= k)%nat -> m !! k = l !! k) /\
    (forall k, (k < n)%nat -> exists j, (j < n)%nat /\ m !! k = l !! j).
Proof.
  intros Hfit Hn Ha Hheap. unfold sift.
  destruct (descend_ok l n a (S (length l)) a) as (b & -> & Hmp & Hb & Hleaf);
    [done..|constructor|lia|lia|]. cbn [mbind outcome_bind].
  destruct (leaf_ok l n a b) as (c & -> & Hmc & Hcn & Hcl); [done|done|lia|].
  destruct (climb_ok l n a (S (length l)) c) as (d & -> & Hmd & Hdn & Hover & Hstop);
    [done..| |lia|]; [intros k Hk Hkc; by destruct (Hcl k)|]. cbn [mbind outcome_bind].
  pose proof (mpath_anc _ _ _ _ Hmd) as Had.
  destruct (shift_ok l l a d d (S (length l))) as (m & -> & Hs & Hperm); [done| |done|auto|lia|lia|].
  { split_and!; [done..| |done]. intros k Hk1 Hk2 Hk3. apply anc_le in Hk1, Hk2. lia. }
  exists m. split_and!; [done|by eapply heap_shifted|done| |].
  - intros k Hk. apply Hs. intros [_ Hk'%anc_le]. lia.
  - intros k Hk. by eapply shifted_source.
Qed.

(** Positions from [n] on hold their final, sorted elements. *)
Definition top l (n : nat) : Prop :=
  forall i j, (i < j)%nat -> (n <= j < length l)%nat -> gei l j i.

Lemma heap_root l n k : heap l 0 n -> (n <= length l)%nat -> (k < n)%nat -> gei l 0 k.
Proof.
  intros Hh Hn. induction k as [k IH] using lt_wf_ind. intros Hk.
  destruct (decide (k = 0)%nat) as [->|Hk0]; [apply gei_refl; lia|].
  pose proof (hpar_lt k ltac:(lia)). eapply gei_trans; [apply (IH (hpar k)); lia|].
  apply Hh; lia.
Qed.

(** Building the heap: the turns with [a > 0]. *)
Lemma build_ok l a fuel :
  fits l -> (a <= length l)%nat -> heap l a (length l) ->
  exists m, sort_loop cmp (a + fuel) size lsbit l (off a) (off (length l))
            = sort_loop cmp fuel size lsbit m (off 0) (off (length l)) /\
    heap m 0 (length l) /\ m ≡ₚ l.
Proof.
  revert l. induction a as [|a IH]; intros l Hfit Ha Hheap; [by exists l|].
  cbn [Nat.add sort_loop]. unfold fits in Hfit.
  assert (Hoa : off (S a) <= off (length l)) by (unfold Sort.off; nia).
  assert (Hos : off (S a) - size = off a) by (unfold Sort.off; lia).
  pose proof (off_nonneg size ltac:(lia) a).
  destruct (Z.eqb_spec (off (S a)) 0) as [|_]; [lia|]. cbn [negb].
  rewrite Hos, (u32_small (off a)) by lia.
  destruct (sift_ok l a (length l)) as (m & -> & Hh & Hperm & _); [done|lia|lia|done|].
  cbn [mbind outcome_bind]. rewrite <- (Permutation_length Hperm).
  destruct (IH m) as (m' & E & Hh' & Hperm');
    [unfold fits; by rewrite (Permutation_length Hperm)|rewrite (Permutation_length Hperm); lia
    |by rewrite (Permutation_length Hperm)|].
  exists m'. split_and!; [done..|]. by rewrite Hperm'.
Qed.

Lemma drain_swap l n x y :
  (0 < n < length l)%nat -> heap l 0 (S n) -> top l (S n) ->
  l !! 0%nat = Some x -> l !! n = Some y ->
  let l1 := <[n := x]> (<[0%nat := y]> l) in heap l1 1 n /\ top l1 n.
Proof.
  intros Hn Hheap Htop Hx Hy l1.
  assert (E0 : l1 !! 0%nat = l !! n) by
    (unfold l1; rewrite list_lookup_insert_ne, list_lookup_insert_eq by lia; done).
  assert (En : l1 !! n = l !! 0%nat) by
    (unfold l1; rewrite list_lookup_insert_eq by (rewrite length_insert; lia); done).
  assert (Eo : forall k, k <> 0%nat -> k <> n -> l1 !! k = l !! k) by
    (intros; unfold l1; rewrite !list_lookup_insert_ne by lia; done).
  assert (El : length l1 = length l) by (unfold l1; by rewrite !length_insert).
  assert (Hsrc : forall k, (k < n)%nat -> exists k', (0 < k' <= n)%nat /\ l1 !! k = l !! k').
  { intros k Hk. destruct (decide (k = 0)%nat) as [->|]; [exists n|exists k]; (split; [lia|]); auto.
    apply Eo; lia. }
  split.
  - intros k Hk Hp. pose proof (hpar_lt k ltac:(lia)). unfold gei.
    rewrite !Eo by lia. apply Hheap; lia.
  - intros i j Hij Hj. unfold gei. destruct (decide (j = n)) as [->|Hjn].
    + rewrite En. destruct (Hsrc i) as (i' & Hi' & ->); [lia|]. apply heap_root with (S n); [done|lia..].
    + rewrite (Eo j) by lia. destruct (decide (i < n)%nat) as [Hin|Hin].
      * destruct (Hsrc i Hin) as (i' & Hi' & ->). apply Htop; lia.
      * destruct (decide (i = n)) as [->|]; [rewrite En|rewrite Eo by lia]; apply Htop; lia.
Qed.

(** Emptying the heap: the turns with [a = 0]. *)
Lemma drain_ok l n fuel :
  fits l -> (n < length l)%nat -> heap l 0 (S n) -> top l (S n) -> (n < fuel)%nat ->
  exists m, sort_loop cmp fuel size lsbit l (off 0) (off (S n)) = Ok m /\ top m 1 /\ m ≡ₚ l.
Proof.
  intros Hfit Hn Hheap Htop Hfuel. revert l fuel Hfit Hn Hheap Htop Hfuel.
  induction n as [|n IH]; intros l [|fuel] Hfit Hn Hheap Htop Hfuel; try lia; cbn [sort_loop];
    change (off 0) with 0; cbn [Z.eqb negb]; unfold fits in Hfit.
  - replace (off 1 - size) with 0 by (unfold Sort.off; lia). change (u32 0) with 0.
    by exists l.
  - assert (Hon : off (S (S n)) - size = off (S n)) by (unfold Sort.off; lia).
    assert (Hosn : off (S n) < off (length l)) by (apply off_lt; lia).
    pose proof (off_nonneg size ltac:(lia) n).
    assert (Hos1 : off (S n) = off n + size) by (unfold Sort.off; lia).
    rewrite Hon, (u32_small (off (S n))) by lia.
    destruct (Z.eqb_spec (off (S n)) 0) as [|_]; [lia|]. cbn [negb].
    destruct (lookup_lt_is_Some_2 l 0) as [x Hx]; [lia|].
    destruct (lookup_lt_is_Some_2 l (S n)) as [y Hy]; [lia|].
    change 0 with (off 0). erewrite do_swap_off by (done || lia). cbn [mbind outcome_bind].
    destruct (drain_swap l (S n) x y) as [Hh1 Ht1]; [lia|done..|].
    set (l1 := <[S n := x]> (<[0%nat := y]> l)) in *.
    assert (Hl1 : length l1 = length l) by (unfold l1; by rewrite !length_insert).
    assert (Hp1 : l1 ≡ₚ l) by (by apply Permutation_insert_swap).
    destruct (sift_ok l1 0 (S n)) as (m & -> & Hh & Hperm & Hsame & Hsrc);
      [unfold fits; by rewrite Hl1|lia|lia|done|]. cbn [mbind outcome_bind].
    pose proof (Permutation_length Hperm) as Hlm.
    destruct (IH m fuel) as (m' & E & Ht & Hpm'); [unfold fits; by rewrite Hlm, Hl1|lia|done| |lia|].
    + intros i j Hij Hj. unfold gei. rewrite (Hsame j) by lia.
      destruct (decide (i < S n)%nat) as [Hi|Hi].
      * destruct (Hsrc i Hi) as (i' & Hi' & ->). apply Ht1; lia.
      * rewrite Hsame by lia. apply Ht1; lia.
    + exists m'. split_and!; [done..|]. by rewrite Hpm', Hperm.
Qed.

Lemma top_sorted l : top l 1 -> StronglySorted (fun x y => 0 <= cmp y x) l.
Proof.
  intros Ht. induction l as [|x l IH]; constructor.
  - apply IH. intros i j Hij Hj.
    destruct (Ht (S i) (S j)) as (y & z & ? & ? & ?); [lia|cbn; lia|]. by exists y, z.
  - apply Forall_lookup. intros i y Hi. pose proof (lookup_lt_Some _ _ _ Hi).
    destruct (Ht 0%nat (S i)) as (y' & x' & Hy' & Hx' & Hg); [lia|cbn; lia|].
    change (l !! i = Some y') in Hy'. change (Some x = Some x') in Hx'.
    simplify_eq. exact Hg.
Qed.

Lemma sort_r_ok l :
  fits l ->
  exists m, sort_r cmp l (Z.of_nat (length l)) size = Ok m /\ m ≡ₚ l /\
    StronglySorted (fun x y => 0 <= cmp y x) m.
Proof.
  intros Hfit. unfold sort_r.
  pose proof (off_nonneg size ltac:(lia) (length l)). unfold fits in Hfit.
  assert (Ea : Z.of_nat (length l) / 2 * size = off (length l / 2)).
  { unfold Sort.off. rewrite Nat2Z.inj_div. done. }
  assert (Hhalf : (length l / 2 <= length l)%nat) by (apply Nat.Div0.div_le_upper_bound; lia).
  assert (Hle : off (length l / 2) <= off (length l)) by (unfold Sort.off; nia).
  pose proof (off_nonneg size ltac:(lia) (length l / 2)).
  fold (off (length l)).
  rewrite Ea, (u32_small (off (length l))), (u32_small (off (length l / 2))) by lia.
  destruct (Z.eqb_spec (off (length l / 2)) 0) as [Hz|Hnz].
  - assert (Hl : (length l / 2 = 0)%nat) by (unfold Sort.off in Hz; nia).
    apply Nat.div_small_iff in Hl; [|lia].
    exists l. split_and!; [done..|]. apply top_sorted. intros i j. lia.
  - pose proof (Nat.div_mod_eq (length l) 2). pose proof (Nat.mod_upper_bound (length l) 2).
    assert (Hl0 : (length l / 2 <> 0)%nat) by (intros E; rewrite E in Hnz; done).
    destruct (build_ok l (length l / 2) (2 * length l - length l / 2)) as (m & E & Hh & Hp);
      [done..| |].
    { intros k Hk Hpk. exfalso. destruct (proj1 (hpar_child (hpar k) k ltac:(lia)) eq_refl); lia. }
    rewrite Nat.add_sub_assoc, Nat.add_comm, Nat.add_sub in E by lia. rewrite E.
    pose proof (Permutation_length Hp) as Hlm.
    destruct (drain_ok m (length l - 1) (2 * length l - length l / 2)) as (m' & E' & Ht & Hp').
    + unfold fits. by rewrite Hlm.
    + lia.
    + by replace (S (length l - 1)) with (length l) by lia.
    + intros i j. lia.
    + lia.
    + replace (S (length l - 1)) with (length l) in E' by lia.
      exists m'. split_and!; [done|by rewrite Hp'|by apply top_sorted].
Qed.

End heap.

(** C1. [sort] returns, without an access outside the array, a permutation of
    its input in which no element is smaller than an earlier one, for every
    comparison function that is total and transitive and every array that does
    not reach across half the address space. *)
Theorem sort_correct {A} (cmp : A -> A -> Z) `{!CmpFunc cmp} (l : list A) (size : Z) :
  0 < size -> Z.of_nat (length l) * size < 2 ^ 31 ->
  exists m, sort cmp l (Z.of_nat (length l)) size = Ok m /\ m ≡ₚ l /\
    StronglySorted (fun x y => 0 <= cmp y x) m.
Proof.
  intros Hs Hfit. destruct l as [|x l]; [exists []; split_and!; [done..|constructor]|].
  apply (sort_r_ok cmp size); [cbn in Hfit; nia|done].
Qed.

#[export] Instance Zsub_cmp : CmpFunc Z.sub.
Proof. constructor; intros; lia. Qed.

Lemma sort_correct_witness :
  exists m, sort Z.sub [5; 3; 9; 1] 4 4 = Ok m /\ m ≡ₚ [5; 3; 9; 1] /\
    StronglySorted (fun x y => 0 <= y - x) m.
Proof. apply (sort_correct Z.sub [5; 3; 9; 1] 4); vm_compute; reflexivity. Defined.
