(* ===== verification/E820.v ===== *)
(** * The firmware memory map (arch/x86/kernel/e820.c)

    The table the BIOS hands over, as a list of entries; [nr_entries] is its
    length and [E820_MAX_ENTRIES] the capacity of the array in the source.
    Slots past [nr_entries] are never read by the code and are not modelled.
    Addresses and sizes are 64-bit and wrap. *)

From S2P Require Import Prelude Sort.

Record e820_entry := E820Entry { addr : Z; size : Z; type : Z }.

#[export] Instance e820_entry_inhabited : Inhabited e820_entry := populate (E820Entry 0 0 0).
#[export] Instance e820_entry_eq_dec : EqDecision e820_entry.
Proof. solve_decision. Defined.

Record e820_table := E820Table { entries : list e820_entry }.

Definition nr_entries (t : e820_table) : Z := Z.of_nat (length (entries t)).

Definition E820_TYPE_RAM : Z := 1.
Definition E820_TYPE_RESERVED : Z := 2.
Definition E820_TYPE_PRAM : Z := 12.
Definition E820_TYPE_RESERVED_KERN : Z := 128.
Definition E820_TYPE_SOFT_RESERVED : Z := 0xefffffff.

(** [E820_MAX_ENTRIES_ZEROPAGE + 3 * MAX_NUMNODES], with one node. *)
Definition E820_MAX_ENTRIES : Z := 128 + 3 * 1.

(** ** Queries *)

(** The loop over the entries; [start] moves up as entries cover it. *)
Fixpoint mapped_all_loop (es : list e820_entry) (start end_ ty : Z) : option e820_entry :=
  match es with
  | [] => None
  | e :: es =>
      if negb (ty =? 0) && negb (type e =? ty) then mapped_all_loop es start end_ ty
      else if (addr e >=? end_) || (u64 (addr e + size e) <=? start)
      then mapped_all_loop es start end_ ty
      else
        let start := if addr e <=? start then u64 (addr e + size e) else start in
        if start >=? end_ then Some e else mapped_all_loop es start end_ ty
  end.

Definition __e820__mapped_all (t : e820_table) (start end_ ty : Z) : option e820_entry :=
  mapped_all_loop (entries t) start end_ ty.

Definition e820__mapped_all (t : e820_table) (start end_ ty : Z) : bool :=
  match __e820__mapped_all t start end_ ty with Some _ => true | None => false end.

Definition MAX_GAP_END : Z := 0x100000000.

(** [while (--i >= 0)] walks the entries from the last one; the result is
    [(gapstart, gapsize, found)]. *)
Fixpoint search_gap_loop (es_rev : list e820_entry) (last gapstart gapsize : Z) (found : bool) :
    Z * Z * bool :=
  match es_rev with
  | [] => (gapstart, gapsize, found)
  | e :: es =>
      let start := addr e in
      let end_ := u64 (start + size e) in
      let '(gapstart, gapsize, found) :=
        if last >? end_ then
          let gap := u32 (last - end_) in
          if gap >=? gapsize then (u32 end_, gap, true) else (gapstart, gapsize, found)
        else (gapstart, gapsize, found) in
      search_gap_loop es (if start <? last then start else last) gapstart gapsize found
  end.

Definition e820_search_gap (t : e820_table) (gapstart gapsize : Z) : Z * Z * bool :=
  search_gap_loop (rev (entries t)) MAX_GAP_END gapstart gapsize false.

(** The value stored in [pci_mem_start]. *)
Definition e820__setup_pci_gap (t : e820_table) : Z :=
  let '(gapstart, _, found) := e820_search_gap t 0 0x400000 in
  if found then gapstart else 0x10000000.

Definition MAX_ARCH_PFN : Z := 2 ^ (32 - PAGE_SHIFT).

Fixpoint end_pfn_loop (es : list e820_entry) (limit_pfn ty last_pfn : Z) : Z :=
  match es with
  | [] => last_pfn
  | e :: es =>
      if negb (type e =? ty) then end_pfn_loop es limit_pfn ty last_pfn
      else
        let start_pfn := u32 (Z.shiftr (addr e) PAGE_SHIFT) in
        let end_pfn := u32 (Z.shiftr (u64 (addr e + size e)) PAGE_SHIFT) in
        if start_pfn >=? limit_pfn then end_pfn_loop es limit_pfn ty last_pfn
        else if end_pfn >? limit_pfn then limit_pfn
        else end_pfn_loop es limit_pfn ty (if end_pfn >? last_pfn then end_pfn else last_pfn)
  end.

Definition e820_end_pfn (t : e820_table) (limit_pfn ty : Z) : Z :=
  let last_pfn := end_pfn_loop (entries t) limit_pfn ty 0 in
  if last_pfn >? MAX_ARCH_PFN then MAX_ARCH_PFN else last_pfn.

Definition e820__end_of_ram_pfn (t : e820_table) : Z := e820_end_pfn t MAX_ARCH_PFN E820_TYPE_RAM.
Definition e820__end_of_low_ram_pfn (t : e820_table) : Z :=
  e820_end_pfn t (u32 (Z.shiftl 1 (32 - PAGE_SHIFT))) E820_TYPE_RAM.

(** ** Adding ranges *)

(** A full table ignores the range (the code logs an error). *)
Definition __e820__range_add (t : e820_table) (start sz ty : Z) : e820_table :=
  if nr_entries t >=? E820_MAX_ENTRIES then t
  else E820Table (entries t ++ [E820Entry start sz ty]).

Definition e820__range_add := __e820__range_add.

(** The firmware's own table has the same fields. *)
Definition boot_e820_entry := e820_entry.

Fixpoint __append_e820_table (t : e820_table) (es : list boot_e820_entry) : Z * e820_table :=
  match es with
  | [] => (0, t)
  | e :: es =>
      let start := addr e in
      let sz := size e in
      let end_ := u64 (start + sz - 1) in
      if (start >? end_) && negb (sz =? 0) then (-1, t)
      else __append_e820_table (e820__range_add t start sz (type e)) es
  end.

Definition append_e820_table (t : e820_table) (es : list boot_e820_entry) : Z * e820_table :=
  if Z.of_nat (length es) <? 2 then (-1, t) else __append_e820_table t es.

(** ** Changing and removing ranges

    Both loops run while [i < nr_entries] and may append entries, which they
    then visit too. *)

Definition set_entry (t : e820_table) (i : nat) (e : e820_entry) : e820_table :=
  E820Table (<[i := e]> (entries t)).

(** One turn of the loop of [__e820__range_update]: the new table and the
    amount added to [real_updated_size]. *)
Definition range_update_step (t : e820_table) (i : nat) (e : e820_entry)
    (start sz end_ old_type new_type : Z) : e820_table * Z :=
  if negb (type e =? old_type) then (t, 0)
  else
    let entry_end := u64 (addr e + size e) in
    if (addr e >=? start) && (entry_end <=? end_) then
      (set_entry t i (E820Entry (addr e) (size e) new_type), size e)
    else if (addr e <? start) && (entry_end >? end_) then
      let t := __e820__range_add t start sz new_type in
      let t := __e820__range_add t end_ (u64 (entry_end - end_)) (type e) in
      (set_entry t i (E820Entry (addr e) (u64 (start - addr e)) (type e)), sz)
    else
      let final_start := Z.max start (addr e) in
      let final_end := Z.min end_ entry_end in
      if final_start >=? final_end then (t, 0)
      else
        let t := __e820__range_add t final_start (u64 (final_end - final_start)) new_type in
        let esz := u64 (size e - (final_end - final_start)) in
        (set_entry t i (E820Entry (if addr e <? final_start then addr e else final_end)
                                  esz (type e)),
         u64 (final_end - final_start)).

Fixpoint range_update_loop (fuel : nat) (t : e820_table) (i : nat)
    (start sz end_ old_type new_type real : Z) : outcome (Z * e820_table) :=
  match fuel with
  | O => NoFuel
  | S fuel =>
      match entries t !! i with
      | None => Ok (real, t)
      | Some e =>
          let '(t, d) := range_update_step t i e start sz end_ old_type new_type in
          range_update_loop fuel t (S i) start sz end_ old_type new_type (u64 (real + d))
      end
  end.

(** Clamps a range so that its end does not wrap. *)
Definition clamp_size (start sz : Z) : Z :=
  if sz >? U64_MAX - start then U64_MAX - start else sz.

(** The table never outgrows its array, which bounds the turns of the loop. *)
Definition loop_fuel (t : e820_table) : nat := S (Z.to_nat E820_MAX_ENTRIES + length (entries t)).

Definition __e820__range_update (t : e820_table) (start sz old_type new_type : Z) :
    outcome (Z * e820_table) :=
  BUG_ON (old_type =? new_type);;
  let sz := clamp_size start sz in
  let end_ := u64 (start + sz) in
  range_update_loop (loop_fuel t) t 0 start sz end_ old_type new_type 0.

Definition e820__range_update := __e820__range_update.

Definition range_remove_step (t : e820_table) (i : nat) (e : e820_entry)
    (start sz end_ old_type : Z) (check_type : bool) : e820_table * Z :=
  if check_type && negb (type e =? old_type) then (t, 0)
  else
    let entry_end := u64 (addr e + size e) in
    if (addr e >=? start) && (entry_end <=? end_) then
      (set_entry t i (E820Entry 0 0 0), size e)
    else if (addr e <? start) && (entry_end >? end_) then
      let t := e820__range_add t end_ (u64 (entry_end - end_)) (type e) in
      (set_entry t i (E820Entry (addr e) (u64 (start - addr e)) (type e)), sz)
    else
      let final_start := Z.max start (addr e) in
      let final_end := Z.min end_ entry_end in
      if final_start >=? final_end then (t, 0)
      else
        let esz := u64 (size e - (final_end - final_start)) in
        (set_entry t i (E820Entry (if addr e <? final_start then addr e else final_end)
                                  esz (type e)),
         u64 (final_end - final_start)).

Fixpoint range_remove_loop (fuel : nat) (t : e820_table) (i : nat)
    (start sz end_ old_type : Z) (check_type : bool) (real : Z) : outcome (Z * e820_table) :=
  match fuel with
  | O => NoFuel
  | S fuel =>
      match entries t !! i with
      | None => Ok (real, t)
      | Some e =>
          let '(t, d) := range_remove_step t i e start sz end_ old_type check_type in
          range_remove_loop fuel t (S i) start sz end_ old_type check_type (u64 (real + d))
      end
  end.

Definition e820__range_remove (t : e820_table) (start sz old_type : Z) (check_type : bool) :
    outcome (Z * e820_table) :=
  let sz := clamp_size start sz in
  let end_ := u64 (start + sz) in
  range_remove_loop (loop_fuel t) t 0 start sz end_ old_type check_type 0.

(** ** Sanitizing the table *)

(** [cp_entry] is the number of the entry the member points to. *)
Record change_member := ChangeMember { cp_entry : nat; cp_addr : Z }.

#[export] Instance change_member_eq_dec : EqDecision change_member.
Proof. solve_decision. Defined.

Definition cpcompare (es : list e820_entry) (ap bp : change_member) : Z :=
  if negb (cp_addr ap =? cp_addr bp) then (if cp_addr ap >? cp_addr bp then 1 else -1)
  else Z.b2z (negb (cp_addr ap =? addr (es !!! cp_entry ap)))
       - Z.b2z (negb (cp_addr bp =? addr (es !!! cp_entry bp))).

Definition e820_nomerge (ty : Z) : bool :=
  (ty =? E820_TYPE_PRAM) || (ty =? E820_TYPE_SOFT_RESERVED).

(** The start and the end of every entry that is not empty, from entry [i] on. *)
Fixpoint change_points (i : nat) (es : list e820_entry) : list change_member :=
  match es with
  | [] => []
  | e :: es =>
      (if negb (size e =? 0)
       then [ChangeMember i (addr e); ChangeMember i (u64 (addr e + size e))] else [])
      ++ change_points (S i) es
  end.

(** The state of the sweep: the overlap list, the finished entries
    [new_entries[0 .. new_nr_entries)], the slot [new_entries[new_nr_entries]]
    being filled, and the type and address of the run it describes. *)
Record sweep := Sweep {
  overlap_list : list nat;
  new_entries : list e820_entry;
  new_slot : e820_entry;
  last_type : Z;
  last_addr : Z;
}.

(** [for (i = 0; i < overlap_entries; i++) if (overlap_list[i] == entry)
    overlap_list[i] = overlap_list[overlap_entries-1]; overlap_entries--]. *)
Definition overlap_remove (ov : list nat) (i : nat) : outcome (list nat) :=
  match list.last ov with
  | None => Bug
  | Some l => Ok (removelast (map (fun j => if Nat.eqb j i then l else j) ov))
  end.

(** The largest type on the overlap list. *)
Definition overlap_type (es : list e820_entry) (ov : list nat) : Z :=
  fold_left (fun cur j => if type (es !!! j) >? cur then type (es !!! j) else cur) ov 0.

(** One change point; [inr] means that [new_entries] is full ([break]). *)
Definition sweep_step (es : list e820_entry) (s : sweep) (cp : change_member) :
    outcome (sweep + list e820_entry) :=
  ov ← (if cp_addr cp =? addr (es !!! cp_entry cp)
        then Ok (overlap_list s ++ [cp_entry cp])
        else overlap_remove (overlap_list s) (cp_entry cp));
  let current_type := overlap_type es ov in
  if negb (current_type =? last_type s) || e820_nomerge current_type then
    let sz := u64 (cp_addr cp - last_addr s) in
    let slot := if last_type s =? 0 then new_slot s
                else E820Entry (addr (new_slot s)) sz (type (new_slot s)) in
    let emit := negb (last_type s =? 0) && negb (sz =? 0) in
    let new := if emit then new_entries s ++ [slot] else new_entries s in
    if emit && (Z.of_nat (length new) >=? E820_MAX_ENTRIES) then Ok (inr new)
    else if negb (current_type =? 0) then
      Ok (inl (Sweep ov new (E820Entry (cp_addr cp) (size slot) current_type)
                     current_type (cp_addr cp)))
    else Ok (inl (Sweep ov new slot current_type (last_addr s)))
  else Ok (inl (Sweep ov (new_entries s) (new_slot s) (last_type s) (last_addr s))).

Fixpoint sweep_loop (es : list e820_entry) (s : sweep) (cps : list change_member) :
    outcome (list e820_entry) :=
  match cps with
  | [] => Ok (new_entries s)
  | cp :: cps =>
      r ← sweep_step es s cp;
      match r with
      | inl s => sweep_loop es s cps
      | inr new => Ok new
      end
  end.

(** The size of a pointer, the element [change_point] is sorted by. *)
Definition sizeof_ptr : Z := 4.

Definition e820__update_table (t : e820_table) : outcome (Z * e820_table) :=
  let es := entries t in
  if nr_entries t <? 2 then Ok (-1, t)
  else
    BUG_ON (nr_entries t >? E820_MAX_ENTRIES);;
    if existsb (fun e => u64 (addr e + size e) <? addr e) es then Ok (-1, t)
    else
      let cps := change_points 0 es in
      cps ← sort (cpcompare es) cps (Z.of_nat (length cps)) sizeof_ptr;
      new ← sweep_loop es (Sweep [] [] (E820Entry 0 0 0) 0 0) cps;
      Ok (0, E820Table new).

Example update_table_ex :
  e820__update_table (E820Table
    [E820Entry 0x100000 0x7ee0000 1; E820Entry 0 0x9fc00 1;
     E820Entry 0x9fc00 0x400 2; E820Entry 0xf0000 0x20000 2; E820Entry 0x7fe0000 0x1000 1])
  = Ok (0, E820Table
    [E820Entry 0 0x9fc00 1; E820Entry 0x9fc00 0x400 2; E820Entry 0xf0000 0x20000 2;
     E820Entry 0x110000 0x7ed1000 1]).
Proof. vm_compute. reflexivity. Qed.

(** ** What a table says about an address *)

Definition covers (e : e820_entry) (a : Z) : Prop := addr e <= a < addr e + size e.

(** Some entry of type [ty] covers [a]. *)
Definition typed (es : list e820_entry) (ty a : Z) : Prop :=
  Exists (fun e => type e = ty /\ covers e a) es.

#[export] Instance covers_dec e a : Decision (covers e a).
Proof. unfold covers. apply _. Defined.
#[export] Instance typed_dec es ty a : Decision (typed es ty a).
Proof. unfold typed. apply _. Defined.

(** Fields in range, and the end of the range does not wrap. *)
Definition entry_wf (e : e820_entry) : Prop := 0 <= addr e /\ 0 <= size e /\ addr e + size e < 2 ^ 64.

Definition table_wf (t : e820_table) : Prop :=
  Forall entry_wf (entries t) /\ nr_entries t <= E820_MAX_ENTRIES.

#[export] Instance table_wf_dec t : Decision (table_wf t).
Proof. unfold table_wf, entry_wf. apply _. Defined.

Lemma typed_app es1 es2 ty a : typed (es1 ++ es2) ty a <-> typed es1 ty a \/ typed es2 ty a.
Proof. apply Exists_app. Qed.

Lemma typed_cons e es ty a :
  typed (e :: es) ty a <-> (type e = ty /\ covers e a) \/ typed es ty a.
Proof. apply Exists_cons. Qed.

Lemma typed_nil ty a : typed [] ty a <-> False.
Proof. apply Exists_nil. Qed.

(** Replacing one entry and appending others: the rest of the table is a
    common context of the two sides. *)
Lemma typed_replace (es : list e820_entry) i e e' adds :
  es !! i = Some e ->
  exists C : Z -> Z -> Prop,
    (forall ty a, typed es ty a <-> typed [e] ty a \/ C ty a) /\
    (forall ty a, typed (<[i := e']> es ++ adds) ty a <-> typed (e' :: adds) ty a \/ C ty a).
Proof.
  intros Hi. apply list_elem_of_split_length in Hi as (l1 & l2 & -> & ->).
  exists (typed (l1 ++ l2)).
  rewrite (insert_app_r_alt _ _ (length l1)), Nat.sub_diag by lia. cbn [insert list_insert].
  split; intros ty a; rewrite !typed_app, !typed_cons, ?typed_nil; tauto.
Qed.

Create Rewrite HintDb typed.
#[export] Hint Rewrite typed_app typed_cons typed_nil : typed.

(** ** [__e820__range_update] and [e820__range_remove] *)

Section range.
Context (start sz : Z).
Hypothesis (Hstart : 0 <= start) (Hsz : 0 <= sz) (Hend : start + sz < 2 ^ 64).

Local Abbreviation inside a := (start <= a < start + sz).

(** [__e820__range_add] appends the range unless the table is full. *)
Lemma range_add_prefix t s z ty :
  exists adds, entries (__e820__range_add t s z ty) = entries t ++ adds /\
    (forall P : e820_entry -> Prop, P (E820Entry s z ty) -> Forall P adds) /\
    (nr_entries (__e820__range_add t s z ty) < E820_MAX_ENTRIES -> adds = [E820Entry s z ty]) /\
    nr_entries t <= nr_entries (__e820__range_add t s z ty) /\
    (nr_entries t <= E820_MAX_ENTRIES ->
     nr_entries (__e820__range_add t s z ty) <= E820_MAX_ENTRIES).
Proof.
  unfold __e820__range_add, nr_entries. case_cmp.
  - exists []. rewrite app_nil_r. csplit; [done|by constructor|lia..].
  - exists [E820Entry s z ty]. cbn. rewrite length_app. cbn.
    csplit; [done|intros ? ?; by apply Forall_singleton|done|lia..].
Qed.

(** The part of an entry inside the range. *)
Definition overlap (e : e820_entry) : Z :=
  Z.max 0 (Z.min (start + sz) (addr e + size e) - Z.max start (addr e)).

(** A step of either loop replaces entry [i] and appends entries. *)
Definition step_shape (t t' : e820_table) (i : nat) (e' : e820_entry) (adds : list e820_entry) : Prop :=
  entries t' = <[i := e']> (entries t) ++ adds /\
  nr_entries t' <= E820_MAX_ENTRIES /\ entry_wf e' /\ Forall entry_wf adds.

(** [es] against [es'] in which part of the entries of type [old] inside the
    range has become [new]. *)
Definition updated (old new : Z) (P Q : Z -> Z -> Prop) : Prop := forall a,
  (~ inside a -> forall ty, P ty a <-> Q ty a) /\
  (inside a -> (forall ty, ty <> old -> ty <> new -> P ty a <-> Q ty a) /\
               (P old a \/ P new a <-> Q old a \/ Q new a)).

Lemma updated_refl old new P : updated old new P P.
Proof. intros a. tauto. Qed.

Lemma updated_trans old new P Q R : updated old new P Q -> updated old new Q R -> updated old new P R.
Proof.
  intros H1 H2 a. destruct (H1 a) as [H1o H1i], (H2 a) as [H2o H2i]. split.
  - intros Ha ty. by rewrite H1o, H2o.
  - intros Ha. destruct (H1i Ha) as [H1t H1u], (H2i Ha) as [H2t H2u].
    split; [intros; by rewrite H1t, H2t|by rewrite H1u].
Qed.

Lemma or_swap4 (A B C D : Prop) : (A \/ B) \/ (C \/ D) <-> (A \/ C) \/ (B \/ D).
Proof. tauto. Qed.

(** A change to one entry lifts to the table. *)
Lemma updated_entry old new (es : list e820_entry) i e e' adds :
  es !! i = Some e ->
  updated old new (typed [e]) (typed (e' :: adds)) ->
  updated old new (typed es) (typed (<[i := e']> es ++ adds)).
Proof.
  intros Hi Hu a. destruct (Hu a) as [Ho Hin].
  destruct (typed_replace es i e e' adds Hi) as (C & HP & HQ). clear Hi Hu.
  split.
  - intros Ha ty. rewrite HP, HQ, (Ho Ha ty). tauto.
  - intros Ha. destruct (Hin Ha) as [Ht Hon]. split.
    + intros ty H1 H2. rewrite HP, HQ, (Ht ty H1 H2). tauto.
    + rewrite !HP, !HQ. rewrite (or_swap4 (typed [e] old a)), (or_swap4 (typed (e' :: adds) old a)).
      by rewrite Hon.
Qed.

(** The types a loop acts on are given by a test [sel]; an entry is settled
    when it is not selected or has no address inside the range. *)
Definition settled (sel : Z -> bool) (e : e820_entry) : Prop :=
  sel (type e) = true -> forall a, covers e a -> ~ inside a.

Lemma settled_ne old e : type e <> old -> settled (Z.eqb old) e.
Proof. intros ? ?. lia. Qed.

Lemma step_shape_id t i e :
  entries t !! i = Some e -> table_wf t -> step_shape t t i e [].
Proof.
  intros Hi [Hwf Hnr]. split; [|split; [done|split; [by eapply Forall_lookup_1|done]]].
  by rewrite list_insert_id, app_nil_r.
Qed.

Lemma step_shape_set t t1 i e e' adds :
  entries t !! i = Some e -> nr_entries t1 <= E820_MAX_ENTRIES ->
  entries t1 = entries t ++ adds -> entry_wf e' -> Forall entry_wf adds ->
  step_shape t (set_entry t1 i e') i e' adds.
Proof.
  intros Hi Hnr Ht1 He' Hadds. pose proof (lookup_lt_Some _ _ _ Hi). split; [|split; [|done]].
  - cbn. by rewrite Ht1, insert_app_l.
  - unfold nr_entries in *. cbn. by rewrite length_insert.
Qed.

Lemma set_entry_nr t i e : nr_entries (set_entry t i e) = nr_entries t.
Proof. unfold nr_entries. cbn. by rewrite length_insert. Qed.

Ltac solve_wf := unfold entry_wf; cbn [addr size type]; lia.

(** Closes goals about [typed] on explicit entries. *)
Ltac solve_typed :=
  intros ?; split; [intros ? ?|intros ?; split; [intros ? ? ?|]];
  autorewrite with typed; unfold covers; cbn [addr size type];
  (split; intros; destruct_or?; destruct_and?; subst; try lia; intuition lia).

(** The entry overlaps one end of the range. *)
Lemma range_update_partial t i e old new x fs fe :
  entries t !! i = Some e -> table_wf t -> type e = old -> old <> new ->
  fs = Z.max start (addr e) -> fe = Z.min (start + sz) (addr e + size e) -> fs < fe ->
  (addr e < fs /\ fe = addr e + size e /\ x = addr e) \/ (fs = addr e /\ x = fe) ->
  let t1 := __e820__range_add t fs (u64 (fe - fs)) new in
  exists e' adds, 
    step_shape t (set_entry t1 i (E820Entry x (u64 (size e - (fe - fs))) (type e))) i e' adds /\
    settled (Z.eqb old) e' /\ Forall (settled (Z.eqb old)) adds /\ u64 (fe - fs) = overlap e /\
    (nr_entries (set_entry t1 i (E820Entry x (u64 (size e - (fe - fs))) (type e)))
       < E820_MAX_ENTRIES -> updated old new (typed [e]) (typed (e' :: adds))).
Proof.
  intros Hi Hwf Hty Hne Hfs Hfe Hlt Hx t1.
  pose proof (Forall_lookup_1 _ _ _ _ (proj1 Hwf) Hi) as (Ha & Hs & He).
  destruct (range_add_prefix t fs (u64 (fe - fs)) new) as (ad & E & F & A & M & N);
    pose proof (F (settled (Z.eqb old))) as S.
  fold t1 in E, A, M, N. rewrite (u64_small (fe - fs)) in * by lia.
  rewrite (u64_small (size e - (fe - fs))) by lia.
  exists (E820Entry x (size e - (fe - fs)) (type e)), ad. csplit.
  - apply (step_shape_set t _ i e); [done|apply N, Hwf|done|solve_wf|apply F; solve_wf].
  - intros _ a. unfold covers. cbn. lia.
  - apply S, settled_ne. done.
  - unfold overlap. lia.
  - rewrite set_entry_nr. intros Hlt'. rewrite A by lia. solve_typed.
Qed.

Lemma range_update_step_ok t i e old new t' d :
  old <> new -> entries t !! i = Some e -> table_wf t ->
  range_update_step t i e start sz (start + sz) old new = (t', d) ->
  exists e' adds, step_shape t t' i e' adds /\ settled (Z.eqb old) e' /\ Forall (settled (Z.eqb old)) adds /\
    d = (if type e =? old then overlap e else 0) /\
    (nr_entries t' < E820_MAX_ENTRIES -> updated old new (typed [e]) (typed (e' :: adds))).
Proof.
  intros Hne Hi Hwf. pose proof (Forall_lookup_1 _ _ _ _ (proj1 Hwf) Hi) as (Ha & Hs & He).
  unfold range_update_step. rewrite (u64_small (addr e + size e)) by lia.
  destruct (Z.eqb_spec (type e) old) as [Hty|Hty]; cbn [negb].
  2:{ intros [= <- <-]. exists e, []. csplit; [by apply step_shape_id|by apply settled_ne|done|done|].
      intros _. apply updated_refl. }
  repeat case_cmp; intros [= <- <-].
  - exists (E820Entry (addr e) (size e) new), [].
    csplit; [|by apply settled_ne|done|unfold overlap; lia|intros _; solve_typed].
    apply (step_shape_set t t i e); [done|apply Hwf|by rewrite app_nil_r|solve_wf|done].
  - set (t1 := __e820__range_add t start sz new).
    set (t2 := __e820__range_add t1 (start + sz) (u64 (addr e + size e - (start + sz))) (type e)).
    destruct (range_add_prefix t start sz new) as (ad1 & E1 & F1 & A1 & M1 & N1); pose proof (F1 (settled (Z.eqb old))) as S1.
    destruct (range_add_prefix t1 (start + sz) (u64 (addr e + size e - (start + sz))) (type e))
      as (ad2 & E2 & F2 & A2 & M2 & N2).
    fold t1 in E1, N1, A1, M1. fold t2 in E2, N2, A2, M2. rewrite u64_small in F2, A2 by lia.
    pose proof (F2 (settled (Z.eqb old))) as S2.
    exists (E820Entry (addr e) (start - addr e) (type e)), (ad1 ++ ad2).
    rewrite (u64_small (start - addr e)) by lia. csplit.
    + apply (step_shape_set t t2 i e); [done|apply N2, N1, Hwf| |solve_wf|].
      * by rewrite E2, E1, app_assoc.
      * apply Forall_app. split; [apply F1|apply F2]; solve_wf.
    + intros _ a. unfold covers. cbn. lia.
    + apply Forall_app. split; [by apply S1, settled_ne|apply S2].
      intros _ a. unfold covers. cbn. lia.
    + unfold overlap. lia.
    + rewrite set_entry_nr. intros Hlt. rewrite A1, A2 by lia. solve_typed.
  - exists e, []. csplit; [by apply step_shape_id|intros _ a; unfold covers; lia|done|unfold overlap; lia|].
    intros _. apply updated_refl.
  - apply range_update_partial; done || lia.
  - apply range_update_partial; done || lia.
Qed.

(** The total size of the selected entries inside the range. *)
Definition amount (sel : Z -> bool) (es : list e820_entry) : Z :=
  foldr (fun e n => (if sel (type e) then overlap e else 0) + n) 0 es.

Lemma amount_app sel es1 es2 : amount sel (es1 ++ es2) = amount sel es1 + amount sel es2.
Proof. unfold amount. induction es1 as [|e es1 IH]; cbn; [done|]. rewrite IH. lia. Qed.

Lemma settled_overlap sel e : settled sel e -> sel (type e) = true -> overlap e = 0.
Proof.
  intros Hs Ht. unfold overlap. specialize (Hs Ht (Z.max start (addr e))). unfold covers in Hs. lia.
Qed.

Lemma amount_settled sel es : Forall (settled sel) es -> amount sel es = 0.
Proof.
  unfold amount. induction 1 as [|e es He _ IH]; cbn; [done|]. rewrite IH.
  case_cmp; [|done]. by rewrite (settled_overlap sel).
Qed.

(** The entries before and after a step's entry. *)
Lemma step_take_drop t t' i e e' adds :
  entries t !! i = Some e -> step_shape t t' i e' adds ->
  take (S i) (entries t') = take i (entries t) ++ [e'] /\
  drop (S i) (entries t') = drop (S i) (entries t) ++ adds /\
  (length (entries t) <= length (entries t'))%nat.
Proof.
  intros Hi (-> & _ & _ & _). pose proof (lookup_lt_Some _ _ _ Hi).
  rewrite length_app, length_insert, take_app_le, drop_app_le by (rewrite length_insert; lia).
  csplit; [|by rewrite drop_insert_lt by lia|lia].
  erewrite take_S_r by (apply list_lookup_insert_eq; lia). by rewrite take_insert_ge by lia.
Qed.

Lemma step_wf t t' i e' adds : table_wf t -> step_shape t t' i e' adds -> table_wf t'.
Proof.
  intros [Hwf Hnr] (E & Hnr' & He' & Hadds). split; [|done].
  rewrite E. apply Forall_app. split; [by apply Forall_insert|done].
Qed.

Lemma range_update_loop_ok old new fuel t i real :
  old <> new -> table_wf t -> (i <= length (entries t))%nat -> 0 <= real < 2 ^ 64 ->
  Forall (settled (Z.eqb old)) (take i (entries t)) ->
  (Z.to_nat E820_MAX_ENTRIES < i + fuel)%nat ->
  exists r t', range_update_loop fuel t i start sz (start + sz) old new real = Ok (r, t') /\
    table_wf t' /\ Forall (settled (Z.eqb old)) (entries t') /\ nr_entries t <= nr_entries t' /\
    (nr_entries t' < E820_MAX_ENTRIES -> updated old new (typed (entries t)) (typed (entries t'))) /\
    r = u64 (real + amount (Z.eqb old) (drop i (entries t))).
Proof.
  intros Hne. revert t i real. induction fuel as [|fuel IH]; intros t i real Hwf Hi Hreal Hset Hfuel.
  { destruct Hwf as [_ Hnr]. unfold nr_entries in Hnr. lia. }
  cbn [range_update_loop]. destruct (entries t !! i) as [e|] eqn:Hlook.
  2:{ apply lookup_ge_None in Hlook. exists real, t.
      rewrite take_ge in Hset by lia. rewrite drop_ge by lia.
      csplit; [done..|intros _; apply updated_refl|cbn; rewrite u64_small; lia]. }
  destruct (range_update_step t i e start sz (start + sz) old new) as [t1 d] eqn:Hstep.
  destruct (range_update_step_ok t i e old new t1 d) as (e' & adds & Hsh & Hse & Hsa & -> & Hup);
    [done..|].
  destruct (step_take_drop t t1 i e e' adds) as (Et & Ed & Hlen); [done..|].
  pose proof (lookup_lt_Some _ _ _ Hlook).
  destruct (IH t1 (S i) (u64 (real + (if type e =? old then overlap e else 0))))
    as (r & t' & E & Hwf' & Hset' & Hnr & Hup' & Hr);
    [by eapply step_wf|lia|apply u64_range| |lia|].
  { rewrite Et. apply Forall_app. split; [done|by apply Forall_singleton]. }
  exists r, t'. csplit; [done..| | |].
  - unfold nr_entries in *. lia.
  - intros Hlt. eapply updated_trans; [|by apply Hup'].
    destruct Hsh as (-> & _). apply updated_entry with e; [done|]. apply Hup. lia.
  - rewrite Hr, Ed, amount_app, (amount_settled _ adds) by done.
    rewrite (drop_S _ _ _ Hlook), (Z.eqb_sym (type e)). cbn [amount foldr].
    fold (amount (Z.eqb old) (drop (S i) (entries t))).
    unfold u64. rewrite Zplus_mod_idemp_l. f_equal. lia.
Qed.

(** [es] against [es'] from which part of the selected entries inside the
    range is gone. *)
Definition removed (sel : Z -> bool) (P Q : Z -> Z -> Prop) : Prop := forall ty a,
  (Q ty a -> P ty a) /\ (P ty a -> Q ty a \/ (inside a /\ sel ty = true)).

Lemma removed_refl sel P : removed sel P P.
Proof. intros ty a. tauto. Qed.

Lemma removed_trans sel P Q R : removed sel P Q -> removed sel Q R -> removed sel P R.
Proof. intros H1 H2 ty a. specialize (H1 ty a). specialize (H2 ty a). tauto. Qed.

Lemma removed_entry sel (es : list e820_entry) i e e' adds :
  es !! i = Some e -> removed sel (typed [e]) (typed (e' :: adds)) ->
  removed sel (typed es) (typed (<[i := e']> es ++ adds)).
Proof.
  intros Hi Hu ty a. destruct (typed_replace es i e e' adds Hi) as (C & HP & HQ).
  rewrite HP, HQ. specialize (Hu ty a). tauto.
Qed.

(** What [check_type] makes of [old_type]. *)
Definition remove_sel (check_type : bool) (old ty : Z) : bool := negb check_type || (ty =? old).

Ltac solve_removed :=
  intros ty a; autorewrite with typed; unfold covers; cbn [addr size type];
  split; intros; destruct_or?; destruct_and?; subst; try done; try lia;
  match goal with E : ?s ?x = true |- context [?s ?x] => rewrite E end; lia.

Lemma range_remove_step_ok t i e old check t' d :
  entries t !! i = Some e -> table_wf t ->
  range_remove_step t i e start sz (start + sz) old check = (t', d) ->
  let sel := remove_sel check old in
  exists e' adds, step_shape t t' i e' adds /\ settled sel e' /\ Forall (settled sel) adds /\
    d = (if sel (type e) then overlap e else 0) /\
    (nr_entries t' < E820_MAX_ENTRIES -> removed sel (typed [e]) (typed (e' :: adds))).
Proof.
  intros Hi Hwf Hstep sel. revert Hstep.
  pose proof (Forall_lookup_1 _ _ _ _ (proj1 Hwf) Hi) as (Ha & Hs & He).
  unfold range_remove_step. rewrite (u64_small (addr e + size e)) by lia.
  assert (Esel : sel (type e) = negb (check && negb (type e =? old))).
  { unfold sel, remove_sel. by destruct check, (type e =? old). }
  destruct (check && negb (type e =? old)); cbn [negb] in Esel; rewrite Esel.
  { intros [= <- <-]. exists e, []. csplit; [by apply step_shape_id| |done|done|].
    - intros H. congruence.
    - intros _. apply removed_refl. }
  assert (Hset : forall e', (forall a, covers e' a -> ~ inside a) -> settled sel e') by (by intros ?? _).
  clearbody sel. repeat case_cmp; intros [= <- <-].
  - exists (E820Entry 0 0 0), [].
    csplit; [|apply Hset; intros a; unfold covers; cbn; lia|done|unfold overlap; lia
            |intros _; solve_removed].
    apply (step_shape_set t t i e); [done|apply Hwf|by rewrite app_nil_r|solve_wf|done].
  - destruct (range_add_prefix t (start + sz) (u64 (addr e + size e - (start + sz))) (type e))
      as (ad & E & F & A & M & N).
    rewrite u64_small in * by lia. exists (E820Entry (addr e) (start - addr e) (type e)), ad.
    rewrite (u64_small (start - addr e)) by lia. csplit.
    + apply (step_shape_set t _ i e); [done|apply N, Hwf|done|solve_wf|apply F; solve_wf].
    + apply Hset. intros a. unfold covers. cbn. lia.
    + apply F, Hset. intros a. unfold covers. cbn. lia.
    + unfold overlap. lia.
    + rewrite set_entry_nr. intros Hlt. unfold e820__range_add in Hlt. rewrite A by lia.
      solve_removed.
  - exists e, []. csplit; [by apply step_shape_id|apply Hset; intros a; unfold covers; lia
                          |done|unfold overlap; lia|].
    intros _. apply removed_refl.
  - rewrite !u64_small by lia. eexists (E820Entry (addr e) _ (type e)), []. csplit;
      [apply (step_shape_set t t i e); [done|apply Hwf|by rewrite app_nil_r|solve_wf|done]
      |apply Hset; intros a; unfold covers; cbn; lia|done|unfold overlap; lia
      |intros _; solve_removed].
  - rewrite !u64_small by lia. eexists (E820Entry _ _ (type e)), []. csplit;
      [apply (step_shape_set t t i e); [done|apply Hwf|by rewrite app_nil_r|solve_wf|done]
      |apply Hset; intros a; unfold covers; cbn; lia|done|unfold overlap; lia
      |intros _; solve_removed].
Qed.

Lemma range_remove_loop_ok old check fuel t i real :
  let sel := remove_sel check old in
  table_wf t -> (i <= length (entries t))%nat -> 0 <= real < 2 ^ 64 ->
  Forall (settled sel) (take i (entries t)) ->
  (Z.to_nat E820_MAX_ENTRIES < i + fuel)%nat ->
  exists r t', range_remove_loop fuel t i start sz (start + sz) old check real = Ok (r, t') /\
    table_wf t' /\ Forall (settled sel) (entries t') /\ nr_entries t <= nr_entries t' /\
    (nr_entries t' < E820_MAX_ENTRIES -> removed sel (typed (entries t)) (typed (entries t'))) /\
    r = u64 (real + amount sel (drop i (entries t))).
Proof.
  intros sel. revert t i real. induction fuel as [|fuel IH]; intros t i real Hwf Hi Hreal Hset Hfuel.
  { destruct Hwf as [_ Hnr]. unfold nr_entries in Hnr. lia. }
  cbn [range_remove_loop]. destruct (entries t !! i) as [e|] eqn:Hlook.
  2:{ apply lookup_ge_None in Hlook. exists real, t.
      rewrite take_ge in Hset by lia. rewrite drop_ge by lia.
      csplit; [done..|intros _; apply removed_refl|cbn; rewrite u64_small; lia]. }
  destruct (range_remove_step t i e start sz (start + sz) old check) as [t1 d] eqn:Hstep.
  destruct (range_remove_step_ok t i e old check t1 d) as (e' & adds & Hsh & Hse & Hsa & -> & Hup);
    [done..|]. fold sel in Hsa, Hup, Hse |- *.
  destruct (step_take_drop t t1 i e e' adds) as (Et & Ed & Hlen); [done..|].
  pose proof (lookup_lt_Some _ _ _ Hlook).
  destruct (IH t1 (S i) (u64 (real + (if sel (type e) then overlap e else 0))))
    as (r & t' & E & Hwf' & Hset' & Hnr & Hup' & Hr);
    [by eapply step_wf|lia|apply u64_range| |lia|].
  { rewrite Et. apply Forall_app. split; [done|by apply Forall_singleton]. }
  exists r, t'. csplit; [done..| | |].
  - unfold nr_entries in *. lia.
  - intros Hlt. eapply removed_trans; [|by apply Hup'].
    destruct Hsh as (-> & _). apply removed_entry with e; [done|]. apply Hup. lia.
  - rewrite Hr, Ed, amount_app, (amount_settled _ adds) by done.
    rewrite (drop_S _ _ _ Hlook). cbn [amount foldr]. fold (amount sel (drop (S i) (entries t))).
    unfold u64. rewrite Zplus_mod_idemp_l. f_equal. lia.
Qed.

End range.

Lemma clamp_size_ok start sz :
  0 <= start < 2 ^ 64 -> 0 <= sz < 2 ^ 64 ->
  0 <= clamp_size start sz /\ start + clamp_size start sz < 2 ^ 64.
Proof. intros. unfold clamp_size, U64_MAX. case_cmp; lia. Qed.

(** No selected type is left inside the range of a settled table. *)
Lemma settled_typed start sz sel es ty a :
  Forall (settled start sz sel) es -> sel ty = true -> start <= a < start + sz -> ~ typed es ty a.
Proof.
  intros Hset Hsel Ha (e & He & <- & Hc)%Exists_exists.
  rewrite Forall_forall in Hset. by apply (Hset e He Hsel a).
Qed.

(** C2. On a table of at most 131 entries, each of which ends below [2^64], and
    for an old type other than the new one (else it is a [BUG_ON]),
    [e820__range_update] returns, leaves no address of the (clamped) range with
    the old type, and returns the number of bytes changed; and when the array
    has room for the split entries, every address outside the range keeps its
    types and inside the range exactly the old type has become the new one. An
    entry that ends at exactly [2^64] is excluded: its end is computed as 0, and
    it would be changed as a whole. *)
Theorem range_update_spec t start sz old new :
  table_wf t -> 0 <= start < 2 ^ 64 -> 0 <= sz < 2 ^ 64 -> old <> new ->
  let sz' := clamp_size start sz in
  exists t', e820__range_update t start sz old new
             = Ok (u64 (amount start sz' (Z.eqb old) (entries t)), t') /\
    table_wf t' /\
    (forall a, start <= a < start + sz' -> ~ typed (entries t') old a) /\
    (nr_entries t' < E820_MAX_ENTRIES -> forall ty a,
       typed (entries t') ty a <->
       if (start <=? a) && (a <? start + sz') && ((ty =? old) || (ty =? new))
       then ty = new /\ (typed (entries t) old a \/ typed (entries t) new a)
       else typed (entries t) ty a).
Proof.
  intros Hwf Hst Hsz Hne sz'. destruct (clamp_size_ok start sz Hst Hsz) as [Hsz' Hend].
  fold sz' in Hsz', Hend. unfold e820__range_update, __e820__range_update, BUG_ON.
  rewrite (proj2 (Z.eqb_neq old new)) by done. cbn [mbind outcome_bind]. fold sz'.
  rewrite (u64_small (start + sz')) by lia.
  destruct (range_update_loop_ok start sz' ltac:(lia) ltac:(lia) ltac:(lia) old new
              (loop_fuel t) t 0 0) as (r & t' & -> & Hwf' & Hset & _ & Hup & ->);
    [done..|lia|lia|constructor|unfold loop_fuel; lia|].
  assert (Hold : forall a, start <= a < start + sz' -> ~ typed (entries t') old a).
  { intros a Ha. apply (settled_typed start sz' (Z.eqb old)); [done|apply Z.eqb_refl|done]. }
  exists t'. csplit; [done..|]. intros Hlt ty a. destruct (Hup Hlt a) as [Hout Hin]. case_cmp.
  - specialize (Hold a ltac:(lia)). destruct (Hin ltac:(lia)) as [_ Hon]. rewrite Hon.
    destruct (Z.eqb_spec ty old) as [->|?]; [split; [done|intros [? _]; lia]|].
    assert (ty = new) as -> by lia. tauto.
  - destruct (decide (start <= a < start + sz')) as [Ha|Ha].
    + symmetry. apply Hin; lia.
    + symmetry. by apply Hout.
Qed.

(** [e820__range_remove] terminates on every table, leaves no address of
    the (clamped) range with the removed type, and returns the number of bytes
    removed; and when the array has room for the split entries nothing else
    changes. *)
Theorem range_remove_spec t start sz old check :
  table_wf t -> 0 <= start < 2 ^ 64 -> 0 <= sz < 2 ^ 64 ->
  let sz' := clamp_size start sz in
  let sel := remove_sel check old in
  exists t', e820__range_remove t start sz old check
             = Ok (u64 (amount start sz' sel (entries t)), t') /\
    table_wf t' /\
    (forall ty a, sel ty = true -> start <= a < start + sz' -> ~ typed (entries t') ty a) /\
    (nr_entries t' < E820_MAX_ENTRIES -> forall ty a,
       typed (entries t') ty a <->
       typed (entries t) ty a /\ ~ (start <= a < start + sz' /\ sel ty = true)).
Proof.
  intros Hwf Hst Hsz sz' sel. destruct (clamp_size_ok start sz Hst Hsz) as [Hsz' Hend].
  fold sz' in Hsz', Hend. unfold e820__range_remove. fold sz'.
  rewrite (u64_small (start + sz')) by lia.
  destruct (range_remove_loop_ok start sz' ltac:(lia) ltac:(lia) ltac:(lia) old check
              (loop_fuel t) t 0 0) as (r & t' & -> & Hwf' & Hset & _ & Hup & ->);
    [done..|lia|lia|constructor|unfold loop_fuel; lia|].
  assert (Hold : forall ty a, sel ty = true -> start <= a < start + sz' -> ~ typed (entries t') ty a).
  { intros ty a Hs Ha. by apply (settled_typed start sz' sel). }
  exists t'. csplit; [done..|]. intros Hlt ty a. destruct (Hup Hlt ty a) as [H1 H2].
  fold sel in H2. split; [|tauto]. intros Hty. split; [by apply H1|].
  intros [Ha Hs]. by apply (Hold ty a).
Qed.

(** A machine with 128 MB: low memory, a BIOS hole and the rest. *)
Definition pc_table : e820_table := E820Table
  [E820Entry 0 0x9fc00 1; E820Entry 0x9fc00 0x400 2; E820Entry 0xf0000 0x10000 2;
   E820Entry 0x100000 0x7ee0000 1; E820Entry 0x7fe0000 0x20000 2].

Lemma pc_table_wf : table_wf pc_table.
Proof. by apply (bool_decide_unpack _). Qed.

Lemma range_update_spec_witness :
  exists t', e820__range_update pc_table 0 4096 E820_TYPE_RAM E820_TYPE_RESERVED = Ok (4096, t') /\
    typed (entries t') E820_TYPE_RESERVED 0 /\ ~ typed (entries t') E820_TYPE_RAM 0.
Proof.
  destruct (range_update_spec pc_table 0 4096 E820_TYPE_RAM E820_TYPE_RESERVED)
    as (t' & E & _ & Hno & _); [apply pc_table_wf|done|done|done|].
  exists t'. vm_compute in E. injection E as <-. split; [reflexivity|]. split.
  - by apply (bool_decide_unpack _).
  - apply Hno. done.
Defined.

(** An entry that ends at exactly [2^64], which [append_e820_table] accepts, is
    changed although it is outside the range. *)
Lemma range_update_end_wraps :
  let e := E820Entry (2 ^ 64 - 4096) 4096 E820_TYPE_RAM in
  __append_e820_table (E820Table []) [e] = (0, E820Table [e]) /\
  e820__range_update (E820Table [e]) 0 4096 E820_TYPE_RAM E820_TYPE_RESERVED =
    Ok (4096, E820Table [E820Entry (2 ^ 64 - 4096) 4096 E820_TYPE_RESERVED]).
Proof. split; vm_compute; reflexivity. Qed.

Lemma range_remove_spec_witness :
  exists t', e820__range_remove pc_table 0xa0000 0x60000 E820_TYPE_RAM true = Ok (0, t') /\
    t' = pc_table /\ ~ typed (entries t') E820_TYPE_RAM 0xa0000.
Proof.
  destruct (range_remove_spec pc_table 0xa0000 0x60000 E820_TYPE_RAM true)
    as (t' & E & _ & Hno & _); [apply pc_table_wf|done|done|].
  exists t'. vm_compute in E. injection E as <-. split; [reflexivity|]. split; [reflexivity|].
  by apply Hno.
Defined.

(** ** [e820__mapped_all] *)

(** Entries in address order, without overlaps. *)
Definition in_order (es : list e820_entry) : Prop :=
  StronglySorted (fun e f => addr e + size e <= addr f) es.

(** The entries the query looks at: all of them for type [0]. *)
Definition matches (ty : Z) (e : e820_entry) : Prop := ty = 0 \/ type e = ty.

Definition all_mapped (es : list e820_entry) (start end_ ty : Z) : Prop :=
  forall a, start <= a < end_ -> Exists (fun e => matches ty e /\ covers e a) es.

Lemma all_mapped_cons e es start end_ ty :
  (forall a, start <= a < end_ -> matches ty e -> ~ covers e a) ->
  all_mapped (e :: es) start end_ ty <-> all_mapped es start end_ ty.
Proof.
  intros Hno. unfold all_mapped. split; intros H a Ha; specialize (H a Ha).
  - apply Exists_cons in H as [[Hm Hc]|]; [|done]. by destruct (Hno a Ha Hm).
  - by apply Exists_cons_tl.
Qed.

Lemma mapped_all_loop_ok es start end_ ty :
  Forall entry_wf es -> in_order es -> start < end_ ->
  is_Some (mapped_all_loop es start end_ ty) <-> all_mapped es start end_ ty.
Proof.
  intros Hwf Hord. revert start.
  induction Hord as [|e es Hord IH Hhd]; intros start Hlt; cbn [mapped_all_loop].
  { split; [intros [? [=]]|]. intros H. exfalso.
    apply (Exists_nil (fun e => matches ty e /\ covers e start)), H. lia. }
  apply Forall_cons_1 in Hwf as [(Ha & Hs & He) Hwf].
  rewrite (u64_small (addr e + size e)) by lia.
  case_cmp; [|case_cmp].
  - rewrite all_mapped_cons; [by apply IH|]. intros a _ Hm. unfold matches in Hm. lia.
  - rewrite all_mapped_cons; [by apply IH|]. intros a Ha' _. unfold covers. lia.
  - assert (Hmatch : matches ty e) by (unfold matches; lia).
    destruct (Z.leb_spec (addr e) start) as [Hle|Hgt].
    + case_cmp.
      * split; [intros _|by eauto]. intros a Ha'. apply Exists_cons_hd. split; [done|].
        unfold covers. lia.
      * rewrite IH by (done || lia). split; intros H a Ha'.
        -- destruct (decide (a < addr e + size e)).
           ++ apply Exists_cons_hd. split; [done|]. unfold covers. lia.
           ++ apply Exists_cons_tl, H. lia.
        -- specialize (H a ltac:(lia)). apply Exists_cons in H as [[_ Hc]|]; [|done].
           unfold covers in Hc. lia.
    + case_cmp; [lia|]. rewrite IH by (done || lia).
      split; intros H; exfalso; specialize (H start ltac:(lia)).
      * apply Exists_exists in H as (f & Hf & _ & Hc). rewrite Forall_forall in Hhd.
        specialize (Hhd f Hf). unfold covers in Hc. lia.
      * apply Exists_cons in H as [[_ Hc]|H]; [unfold covers in Hc; lia|].
        apply Exists_exists in H as (f & Hf & _ & Hc). rewrite Forall_forall in Hhd.
        specialize (Hhd f Hf). unfold covers in Hc. lia.
Qed.

(** On a table in address order [e820__mapped_all] answers whether every
    address of a non-empty range is covered by entries of the given type. *)
Theorem mapped_all_spec t start end_ ty :
  Forall entry_wf (entries t) -> in_order (entries t) -> start < end_ ->
  e820__mapped_all t start end_ ty = true <-> all_mapped (entries t) start end_ ty.
Proof.
  intros Hwf Hord Hlt. rewrite <- mapped_all_loop_ok by done.
  unfold e820__mapped_all, __e820__mapped_all. case_match; [|split; [done|intros [? [=]]]].
  split; [by eauto|done].
Qed.

Lemma mapped_all_spec_witness : all_mapped (entries pc_table) 0 0xa0000 0.
Proof.
  apply (mapped_all_spec pc_table 0 0xa0000 0).
  - apply pc_table_wf.
  - unfold in_order, pc_table. cbn [entries]. repeat constructor; cbn; lia.
  - lia.
  - vm_compute. reflexivity.
Defined.

(** ** [e820__update_table] *)

(** What a list of entries that may overlap says about an address: the
    largest of the types given to it, [0] when there is none. *)
Definition type_at (es : list e820_entry) (a : Z) : Z :=
  fold_right (fun e m => if bool_decide (covers e a) then Z.max (type e) m else m) 0 es.

(** [m] is the largest element of [S], or [0]. *)
Definition is_max (S : Z -> Prop) (m : Z) : Prop :=
  0 <= m /\ (forall t, S t -> t <= m) /\ (m = 0 \/ S m).

Lemma is_max_unique S S' m m' :
  (forall t, S t <-> S' t) -> is_max S m -> is_max S' m' -> m = m'.
Proof.
  intros HS (H0 & Hle & Hin) (H0' & Hle' & Hin').
  destruct Hin as [->|Hin], Hin' as [->|Hin']; [done| | |].
  - apply HS, Hle in Hin'. lia.
  - apply HS, Hle' in Hin. lia.
  - pose proof (Hle' m (proj1 (HS m) Hin)). pose proof (Hle m' (proj2 (HS m') Hin')). lia.
Qed.

Lemma type_at_max es a : is_max (fun t => typed es t a) (type_at es a).
Proof.
  induction es as [|e es (H0 & Hle & Hin)]; cbn [type_at fold_right].
  { split_and!; [lia| |by left]. intros t Ht. by apply typed_nil in Ht. }
  change (fold_right _ 0 es) with (type_at es a).
  destruct (bool_decide_reflect (covers e a)) as [Hc|Hc]; split_and!.
  - lia.
  - intros t [[<- _]|Ht]%typed_cons; [lia|]. apply Hle in Ht. lia.
  - rewrite typed_cons. destruct (Z.max_spec (type e) (type_at es a)) as [[? ->]|[? ->]];
      [|by eauto]. destruct Hin; eauto.
  - lia.
  - intros t [[_ ?]|Ht]%typed_cons; [done|]. by apply Hle.
  - rewrite typed_cons. destruct Hin; eauto.
Qed.

Lemma typed_none es t a : (forall e, e ∈ es -> ~ covers e a) -> typed es t a <-> False.
Proof.
  intros H. split; [|done]. intros (e & He & _ & Hc)%Exists_exists. exact (H e He Hc).
Qed.

Lemma type_at_none es a : (forall e, e ∈ es -> ~ covers e a) -> type_at es a = 0.
Proof.
  intros H. apply (is_max_unique (fun t => typed es t a) (fun _ => False)).
  - intros t. by apply typed_none.
  - apply type_at_max.
  - by split_and!; [|intros|left].
Qed.

Lemma type_at_app_l es es' a :
  (forall e, e ∈ es' -> ~ covers e a) -> type_at (es ++ es') a = type_at es a.
Proof.
  intros H. eapply is_max_unique; [|apply type_at_max..].
  intros t. cbn. rewrite typed_app, (typed_none es') by done. tauto.
Qed.

Lemma type_at_snoc es e a :
  (forall f, f ∈ es -> ~ covers f a) -> covers e a -> 0 <= type e ->
  type_at (es ++ [e]) a = type e.
Proof.
  intros H Hc H0. eapply (is_max_unique _ (fun t => type e = t)); [|apply type_at_max|].
  - intros t. cbn. rewrite typed_app, typed_cons, typed_nil, typed_none by done. tauto.
  - split_and!; [done|intros; lia|by right].
Qed.

Lemma overlap_type_max es ov :
  is_max (fun t => exists j, j ∈ ov /\ type (es !!! j) = t) (overlap_type es ov).
Proof.
  induction ov as [|j ov IH] using rev_ind; unfold overlap_type.
  { split_and!; [done| |by left]. intros t (j & Hj & _). by apply not_elem_of_nil in Hj. }
  rewrite fold_left_app. cbn [fold_left]. fold (overlap_type es ov).
  destruct IH as (H0 & Hle & Hin). split_and!.
  - case_cmp; lia.
  - intros t (k & Hk & <-). apply elem_of_app in Hk as [Hk| ->%list_elem_of_singleton].
    + specialize (Hle _ (ex_intro _ k (conj Hk eq_refl))). case_cmp; lia.
    + case_cmp; lia.
  - case_cmp.
    + right. exists j. split; [set_solver|done].
    + destruct Hin as [->|(k & Hk & <-)]; [by left|right]. exists k. split; [set_solver|done].
Qed.

Lemma overlap_remove_ok ov i :
  NoDup ov -> i ∈ ov ->
  exists ov', overlap_remove ov i = Ok ov' /\ NoDup ov' /\ (forall j, j ∈ ov' <-> j ∈ ov /\ j <> i).
Proof.
  intros Hnd Hi. destruct ov as [|z l _] using rev_ind; [by apply not_elem_of_nil in Hi|].
  unfold overlap_remove. rewrite last_snoc, map_app. cbn [map]. rewrite removelast_last.
  eexists. split; [reflexivity|]. apply NoDup_app in Hnd as (Hl & Hz & _).
  assert (Hid : forall l, i ∉ l -> map (fun j => if Nat.eqb j i then z else j) l = l).
  { clear. induction l as [|x l IH]; intros H; [done|]. cbn.
    rewrite (proj2 (Nat.eqb_neq x i)) by set_solver. by rewrite IH by set_solver. }
  apply elem_of_app in Hi as [Hi| ->%list_elem_of_singleton].
  - apply list_elem_of_split in Hi as (a & b & ->).
    apply NoDup_app in Hl as (Ha & Hab & (Hib & Hb)%NoDup_cons).
    assert (i ∉ a) by (intros ?; eapply Hab; [done|left]).
    rewrite map_app. cbn [map]. rewrite Nat.eqb_refl, !Hid by done. split.
    + apply NoDup_app. split_and!; [done| |apply NoDup_cons; set_solver]. set_solver.
    + intros j. set_solver.
  - assert (z ∉ l) by (intros ?; eapply Hz; [done|left]).
    rewrite Hid by done. split; [done|]. set_solver.
Qed.

Section sweep.
Context (es : list e820_entry) (Hwf : Forall entry_wf es).

Lemma cpcompare_le p q : 0 <= cpcompare es q p -> cp_addr p <= cp_addr q.
Proof. unfold cpcompare. case_cmp; [case_cmp; lia|lia]. Qed.

#[local] Instance cpcompare_cmp : CmpFunc (cpcompare es).
Proof.
  constructor; intros *; unfold cpcompare.
  - repeat case_cmp; lia.
  - intros H1 H2. repeat case_cmp_in H1; repeat case_cmp_in H2; repeat case_cmp; lia.
Qed.

Definition start_of (i : nat) : change_member := ChangeMember i (addr (es !!! i)).
Definition end_of (i : nat) : change_member :=
  ChangeMember i (addr (es !!! i) + size (es !!! i)).
Definition live (i : nat) : Prop := (i < length es)%nat /\ 0 < size (es !!! i).

Definition is_point (cp : change_member) : Prop :=
  live (cp_entry cp) /\ (cp = start_of (cp_entry cp) \/ cp = end_of (cp_entry cp)).

Lemma change_points_ok pre l :
  es = pre ++ l ->
  NoDup (change_points (length pre) l) /\
  forall cp, cp ∈ change_points (length pre) l <->
    (length pre <= cp_entry cp)%nat /\ is_point cp.
Proof.
  revert pre. induction l as [|e l IH]; intros pre Hes; cbn [change_points].
  { split; [constructor|]. intros cp. rewrite app_nil_r in Hes. subst pre.
    unfold is_point, live. split; [by intros ?%not_elem_of_nil|lia]. }
  specialize (IH (pre ++ [e])). rewrite length_app in IH. cbn [length] in IH.
  rewrite Nat.add_1_r in IH. destruct IH as [Hnd Hel]; [by rewrite <- app_assoc|].
  assert (He : es !!! length pre = e) by (by rewrite Hes, list_lookup_total_middle).
  assert (Hl : (length pre < length es)%nat) by (rewrite Hes, length_app; cbn; lia).
  assert (Hewf : entry_wf e) by (rewrite Hes, Forall_app, Forall_cons in Hwf; tauto).
  destruct Hewf as (Ha & Hs & Hb). rewrite (u64_small (addr e + size e)) by lia.
  assert (Hstep : forall cp, (length pre <= cp_entry cp)%nat /\ is_point cp <->
    (0 < size e /\ (cp = ChangeMember (length pre) (addr e) \/
                    cp = ChangeMember (length pre) (addr e + size e))) \/
    ((S (length pre) <= cp_entry cp)%nat /\ is_point cp)).
  { intros [i a]. unfold is_point, live, start_of, end_of. cbn [cp_entry].
    destruct (decide (i = length pre)) as [->|Hne].
    - rewrite He. intuition lia.
    - split; [intros [? ?]; right; split; [lia|done]|].
      intros [[_ [[=]|[=]]]|?]; [done..|]. split; [lia|tauto]. }
  destruct (Z.eqb_spec (size e) 0) as [H0|H0]; cbn [negb app].
  - split; [done|]. intros cp. rewrite Hel, Hstep. split; [tauto|]. intros [[? _]|?]; [lia|done].
  - split.
    + rewrite !NoDup_cons, !elem_of_cons, !Hel. cbn [cp_entry]. split_and!; [|lia|done].
      intros [[= ?]|?]; lia.
    + intros cp. rewrite !elem_of_cons, Hel, Hstep. split; [|tauto].
      intros [?|[?|?]]; [left|left|by right]; split; auto; lia.
Qed.

(** [R] holds the change points still to come at address [x], [ov] the
    entries that are open there. *)
Record pending (x : Z) (R : list change_member) : Prop := {
  pd_nodup : NoDup R;
  pd_sorted : StronglySorted (fun p q => 0 <= cpcompare es q p) R;
  pd_ge cp : cp ∈ R -> x <= cp_addr cp;
  pd_point cp : cp ∈ R -> is_point cp;
  pd_start i : live i -> start_of i ∉ R -> addr (es !!! i) <= x;
  pd_end i : live i -> end_of i ∉ R -> addr (es !!! i) + size (es !!! i) <= x;
}.

Definition ov_ok (R : list change_member) (ov : list nat) : Prop :=
  NoDup ov /\ forall i, i ∈ ov <-> live i /\ (start_of i ∉ R) /\ end_of i ∈ R.

Lemma typed_live t a :
  typed es t a <-> (exists i, live i /\ type (es !!! i) = t /\ covers (es !!! i) a).
Proof.
  unfold typed. rewrite Exists_exists. split.
  - intros (e & (i & Hi)%list_elem_of_lookup & Ht & Hc). exists i.
    rewrite (list_lookup_total_correct _ _ _ Hi). split_and!; [|done..]. split.
    + by apply lookup_lt_Some in Hi.
    + rewrite (list_lookup_total_correct _ _ _ Hi). unfold covers in Hc. lia.
  - intros (i & [Hi _] & Ht & Hc). eauto using list_elem_of_lookup_total_2.
Qed.

(** Up to the next change point the open entries are the ones that cover. *)
Lemma type_between x y R ov a :
  pending x R -> ov_ok R ov -> (forall cp, cp ∈ R -> y <= cp_addr cp) -> x <= a < y ->
  type_at es a = overlap_type es ov.
Proof.
  intros HP [_ Hov] Hy Ha. eapply is_max_unique; [|apply type_at_max|apply overlap_type_max].
  intros t. cbn. rewrite typed_live. unfold covers. split.
  - intros (i & Hi & Ht & Hc). exists i. split; [|done]. apply Hov. split_and!; [done| |].
    + intros Hin. apply Hy in Hin. cbn in Hin. lia.
    + destruct (decide (end_of i ∈ R)) as [|Hn]; [done|]. pose proof (pd_end _ _ HP i Hi Hn). lia.
  - intros (i & (Hi & Hs & He)%Hov & Ht). exists i. split_and!; [done..| |].
    + pose proof (pd_start _ _ HP i Hi Hs). lia.
    + apply Hy in He. cbn in He. lia.
Qed.

(** What the step does to the overlap list. *)
Definition ov_step (ov : list nat) (cp : change_member) : outcome (list nat) :=
  if cp_addr cp =? addr (es !!! cp_entry cp)
  then Ok (ov ++ [cp_entry cp]) else overlap_remove ov (cp_entry cp).

Lemma pending_next x cp R : pending x (cp :: R) -> pending (cp_addr cp) R.
Proof.
  intros [Hnd Hs Hge Hpt Hst Hen]. apply NoDup_cons in Hnd as [Hni Hnd].
  apply StronglySorted_inv in Hs as [Hs Hhd]. rewrite Forall_forall in Hhd.
  assert (Hx : x <= cp_addr cp) by (apply Hge; left).
  split; [done|done| | | |].
  - intros q Hq. by apply cpcompare_le, Hhd.
  - intros q Hq. apply Hpt. by right.
  - intros i Hi Hn. destruct (decide (start_of i = cp)) as [<-|]; [done|].
    etransitivity; [apply (Hst i Hi)|done]. set_solver.
  - intros i Hi Hn. destruct (decide (end_of i = cp)) as [<-|]; [done|].
    etransitivity; [apply (Hen i Hi)|done]. set_solver.
Qed.

Lemma ov_step_start x i R ov :
  pending x (start_of i :: R) -> ov_ok (start_of i :: R) ov -> live i ->
  ov_step ov (start_of i) = Ok (ov ++ [i]) /\ ov_ok R (ov ++ [i]).
Proof.
  intros HP [Hnd Hov] Hi. unfold ov_step. cbn [start_of cp_addr cp_entry].
  rewrite Z.eqb_refl. split; [done|]. split.
  { apply NoDup_app. split_and!; [done| |apply NoDup_singleton].
    intros j Hj ->%list_elem_of_singleton. apply Hov in Hj. set_solver. }
  pose proof (pd_nodup _ _ HP) as [Hni _]%NoDup_cons.
  assert (Hends : forall j, end_of j ∈ start_of i :: R <-> end_of j ∈ R).
  { intros j. rewrite elem_of_cons. split; [|tauto]. intros [[= -> Heq]|]; [|done].
    destruct Hi. lia. }
  assert (Hei : end_of i ∈ R).
  { apply Hends. destruct (decide (end_of i ∈ start_of i :: R)) as [|Hn]; [done|].
    pose proof (pd_end _ _ HP i Hi Hn). pose proof (pd_ge _ _ HP (start_of i)) as Hge.
    cbn in Hge. destruct Hi. specialize (Hge ltac:(left)). lia. }
  intros j. rewrite elem_of_app, list_elem_of_singleton, Hov, Hends, not_elem_of_cons.
  destruct (decide (j = i)) as [->|Hne]; [tauto|].
  assert (start_of j <> start_of i) by (intros [= ]; done). tauto.
Qed.

Lemma ov_step_end x i R ov :
  pending x (end_of i :: R) -> ov_ok (end_of i :: R) ov -> live i ->
  exists ov', ov_step ov (end_of i) = Ok ov' /\ ov_ok R ov' /\ (forall j, j ∈ ov' -> j ∈ ov).
Proof.
  intros HP [Hnd Hov] Hi. pose proof Hi as [_ Hsz].
  pose proof (pd_nodup _ _ HP) as [Hni _]%NoDup_cons.
  assert (Hsi : start_of i ∉ end_of i :: R).
  { intros [Heq|Hin]%elem_of_cons; [injection Heq; lia|].
    pose proof (pd_sorted _ _ HP) as [_ Hhd]%StronglySorted_inv. rewrite Forall_forall in Hhd.
    specialize (Hhd _ Hin). apply cpcompare_le in Hhd. cbn in Hhd. lia. }
  destruct (overlap_remove_ok ov i) as (ov' & E & Hnd' & Hel); [done| |].
  { apply Hov. split_and!; [done..|]. left. }
  exists ov'. unfold ov_step. cbn [end_of cp_addr cp_entry].
  rewrite (proj2 (Z.eqb_neq _ _)) by lia. split_and!; [done|split; [done|]|by intros j [? _]%Hel].
  intros j. rewrite Hel, Hov, not_elem_of_cons, elem_of_cons.
  destruct (decide (j = i)) as [->|Hne]; [tauto|].
  assert (end_of j <> end_of i) by (intros [= ]; done).
  assert (start_of j <> end_of i) by (intros [= ]; done). tauto.
Qed.

Lemma overlap_type_snoc ov i :
  overlap_type es (ov ++ [i]) = Z.max (overlap_type es ov) (type (es !!! i)).
Proof. unfold overlap_type. rewrite fold_left_app. cbn [fold_left]. case_cmp; lia. Qed.

Lemma overlap_type_mono ov ov' :
  (forall j, j ∈ ov -> j ∈ ov') -> overlap_type es ov <= overlap_type es ov'.
Proof.
  intros Hsub. destruct (overlap_type_max es ov') as (H0 & Hle & _).
  destruct (overlap_type_max es ov) as (_ & _ & [->|(j & Hj & <-)]); eauto.
Qed.

Lemma type_at_ge i a : live i -> covers (es !!! i) a -> type (es !!! i) <= type_at es a.
Proof. intros Hi Hc. apply type_at_max, typed_live. eauto. Qed.

Lemma type_at_le a m :
  0 <= m -> (forall i, live i -> covers (es !!! i) a -> type (es !!! i) <= m) -> type_at es a <= m.
Proof.
  intros H0 H. destruct (type_at_max es a) as (_ & _ & [->|(i & Hi & <- & Hc)%typed_live]); eauto.
Qed.

(** A step that changes the type changes it for good: starts come before ends
    at the same address, so the type the address gets in the end differs. *)
Lemma ov_step_ok x cp R ov :
  pending x (cp :: R) -> ov_ok (cp :: R) ov ->
  exists ov', ov_step ov cp = Ok ov' /\ ov_ok R ov' /\
    (overlap_type es ov' <> overlap_type es ov -> type_at es (cp_addr cp) <> overlap_type es ov).
Proof.
  intros HP Hov. destruct (pd_point _ _ HP cp ltac:(left)) as [Hi [Ecp|Ecp]];
    set (i := cp_entry cp) in *; clearbody i; subst cp.
  - destruct (ov_step_start x i R ov) as [E Hov']; [done..|].
    exists (ov ++ [i]). split_and!; [done..|]. rewrite overlap_type_snoc. intros Hne.
    pose proof (type_at_ge i (cp_addr (start_of i)) Hi) as Hge.
    unfold covers in Hge. cbn in *. destruct Hi. lia.
  - destruct (ov_step_end x i R ov) as (ov' & E & Hov' & Hsub); [done..|].
    exists ov'. split_and!; [done..|]. intros Hne. pose proof (overlap_type_mono _ _ Hsub).
    enough (type_at es (cp_addr (end_of i)) <= overlap_type es ov') by lia.
    destruct (overlap_type_max es ov') as (H0 & Hle & _). apply type_at_le; [done|].
    intros j Hj [Hc1 Hc2]. apply Hle. exists j. split; [|done]. apply Hov'.
    pose proof (pending_next _ _ _ HP) as HP'. split_and!; [done| |].
    + intros Hin. pose proof (pd_sorted _ _ HP) as [_ Hhd]%StronglySorted_inv.
      rewrite Forall_forall in Hhd. specialize (Hhd _ Hin). destruct Hi as [_ Hi].
      pose proof (pd_ge _ _ HP' _ Hin) as Hge. revert Hhd. unfold cpcompare. cbn in *.
      rewrite Z.eqb_refl, (proj2 (Z.eqb_neq _ (addr (es !!! i)))) by lia.
      repeat case_cmp; cbn; lia.
    + destruct (decide (end_of j ∈ R)) as [|Hn]; [done|]. pose proof (pd_end _ _ HP' j Hj Hn). lia.
Qed.

(** The entries of [F] describe the table exactly below [L], as maximal runs:
    an entry ends where the type changes, unless its type is never merged. *)
Record tiles (L : Z) (F : list e820_entry) : Prop := {
  tl_order : in_order F;
  tl_entry e : e ∈ F -> 0 <= addr e /\ 0 < size e /\ 0 < type e /\ addr e + size e <= L;
  tl_type a : a < L -> type_at F a = type_at es a;
  tl_run e : e ∈ F -> e820_nomerge (type e) = true \/ type_at es (addr e + size e) <> type e;
}.

(** The address up to which the finished entries describe the table. *)
Definition done_to (x : Z) (s : sweep) : Z := if last_type s =? 0 then x else last_addr s.

Record swept (x : Z) (s : sweep) : Prop := {
  sw_type : last_type s = overlap_type es (overlap_list s);
  sw_slot : last_type s <> 0 -> addr (new_slot s) = last_addr s /\ type (new_slot s) = last_type s;
  sw_to : 0 <= done_to x s <= x;
  sw_tiles : tiles (done_to x s) (new_entries s);
  sw_run a : done_to x s <= a < x -> type_at es a = last_type s;
  sw_nr : Z.of_nat (length (new_entries s)) < E820_MAX_ENTRIES;
}.

Lemma tiles_beyond L F a : tiles L F -> L <= a -> type_at F a = 0.
Proof. intros HT Ha. apply type_at_none. intros e He. pose proof (tl_entry _ _ HT e He). unfold covers. lia. Qed.

(** Nothing is mapped between [L] and [x]. *)
Lemma tiles_skip L x F :
  tiles L F -> L <= x -> (forall a, L <= a < x -> type_at es a = 0) -> tiles x F.
Proof.
  intros HT Hle H0. split; [apply (tl_order _ _ HT)| | |apply (tl_run _ _ HT)].
  - intros e He. pose proof (tl_entry _ _ HT e He). lia.
  - intros a Ha. destruct (decide (a < L)); [by apply (tl_type _ _ HT)|].
    rewrite (tiles_beyond L F a), H0 by (done || lia). done.
Qed.

Lemma in_order_snoc F e :
  in_order F -> (forall f, f ∈ F -> addr f + size f <= addr e) -> in_order (F ++ [e]).
Proof.
  unfold in_order. induction 1 as [|f F Hs IH Hhd]; intros He; cbn; [repeat constructor|].
  constructor; [apply IH; intros; apply He; by right|].
  rewrite Forall_app, Forall_singleton. split; [done|]. apply He. left.
Qed.

Lemma tiles_emit L x F ty :
  tiles L F -> 0 <= L < x -> 0 < ty -> (forall a, L <= a < x -> type_at es a = ty) ->
  e820_nomerge ty = true \/ type_at es x <> ty -> tiles x (F ++ [E820Entry L (x - L) ty]).
Proof.
  intros HT Hlt Hty Hrun Hend. set (e := E820Entry L (x - L) ty).
  assert (Hel : forall f, f ∈ F ++ [e] -> f ∈ F \/ f = e) by set_solver.
  split.
  - apply in_order_snoc; [apply (tl_order _ _ HT)|]. intros f Hf. by apply (tl_entry _ _ HT f).
  - intros f [Hf| ->]%Hel; [pose proof (tl_entry _ _ HT f Hf); lia|cbn; lia].
  - intros a Ha. destruct (decide (a < L)) as [HaL|HaL].
    + rewrite type_at_app_l; [by apply (tl_type _ _ HT)|].
      intros f ->%list_elem_of_singleton. unfold covers. cbn. lia.
    + rewrite type_at_snoc, Hrun; [done|lia| |unfold covers; cbn; lia|cbn; lia].
      intros f Hf. pose proof (tl_entry _ _ HT f Hf). unfold covers. lia.
  - intros f [Hf| ->]%Hel; [by apply (tl_run _ _ HT)|]. unfold e; cbn [addr size type].
    by rewrite Zplus_minus.
Qed.

(** Moving on to the next change point. *)
Lemma swept_advance x y R s :
  pending x R -> ov_ok R (overlap_list s) -> (forall cp, cp ∈ R -> y <= cp_addr cp) -> x <= y ->
  swept x s -> swept y s.
Proof.
  intros HP Hov Hy Hle [Ht Hsl Hto HT Hrun Hnr].
  assert (Hb : forall a, x <= a < y -> type_at es a = last_type s).
  { intros a Ha. rewrite Ht. by apply (type_between x y R). }
  unfold done_to in *. destruct (Z.eqb_spec (last_type s) 0) as [E|E]; split;
    unfold done_to; rewrite ?E, ?(proj2 (Z.eqb_neq _ _) E); cbn [Z.eqb]; try done; try lia.
  - rewrite E in Hb. by apply (tiles_skip x).
  - intros a Ha. destruct (decide (a < x)); [apply Hrun|apply Hb]; lia.
Qed.

(** Closing the run that ends at [y], if there is one. *)
Lemma swept_close y s :
  swept y s -> y < 2 ^ 64 ->
  (last_type s <> 0 -> e820_nomerge (last_type s) = true \/ type_at es y <> last_type s) ->
  let sz := u64 (y - last_addr s) in
  let slot := if last_type s =? 0 then new_slot s
              else E820Entry (addr (new_slot s)) sz (type (new_slot s)) in
  let emit := negb (last_type s =? 0) && negb (sz =? 0) in
  tiles y (if emit then new_entries s ++ [slot] else new_entries s).
Proof.
  intros [Ht Hsl Hto HT Hrun _] Hy Hend. cbn zeta. unfold done_to in *.
  destruct (Z.eqb_spec (last_type s) 0) as [E|E]; cbn [negb andb]; [done|].
  rewrite u64_small by lia. destruct (Hsl E) as [-> ->].
  destruct (Z.eqb_spec (y - last_addr s) 0) as [E'|E']; cbn [negb].
  - by replace y with (last_addr s) by lia.
  - destruct (overlap_type_max es (overlap_list s)) as (H0 & _).
    apply tiles_emit; [done|lia|lia|done|auto].
Qed.

Definition step_ok (y : Z) (R : list change_member) (r : sweep + list e820_entry) : Prop :=
  match r with
  | inl s => ov_ok R (overlap_list s) /\ swept y s
  | inr new => tiles y new /\ Z.of_nat (length new) = E820_MAX_ENTRIES
  end.

Lemma sweep_step_ok x cp R s :
  pending x (cp :: R) -> ov_ok (cp :: R) (overlap_list s) -> swept (cp_addr cp) s ->
  cp_addr cp < 2 ^ 64 ->
  exists r, sweep_step es s cp = Ok r /\ step_ok (cp_addr cp) R r.
Proof.
  intros HP Hov HS Hy. destruct (ov_step_ok x cp R _ HP Hov) as (ov' & E & Hov' & Hchg).
  unfold sweep_step. fold (ov_step (overlap_list s) cp). rewrite E. cbn [mbind outcome_bind].
  set (y := cp_addr cp) in *. clearbody y. rewrite <- (sw_type _ _ HS) in Hchg.
  destruct (Z.eqb_spec (overlap_type es ov') (last_type s)) as [Es|Es];
    [destruct (e820_nomerge (overlap_type es ov')) eqn:En|]; cbn [negb orb].
  2:{ eexists. split; [reflexivity|]. split; [done|]. destruct HS. by split. }
  all: assert (HT := swept_close y s HS Hy); cbn zeta in HT;
    match type of HT with ?A -> _ => assert (HA : A) by (rewrite <- ?Es; auto) end;
    specialize (HT HA); clear HA.
  all: pose proof (sw_nr _ _ HS) as Hnr; pose proof (sw_to _ _ HS) as Hto.
  all: set (slot := if last_type s =? 0 then _ else _) in *;
    set (emit := negb (last_type s =? 0) && _) in *.
  all: assert (Hlen : forall b : bool, Z.of_nat (length (if b then new_entries s ++ [slot] else new_entries s))
         = Z.of_nat (length (new_entries s)) + Z.b2z b)
         by (intros []; rewrite ?length_app; cbn; lia).
  all: destruct (emit && _) eqn:Hfull; [eexists; split; [reflexivity|]; split; [done|];
         rewrite Hlen in *; destruct emit; cbn in *; lia|].
  all: destruct (Z.eqb_spec (overlap_type es ov') 0) as [E0|E0]; cbn [negb];
    (eexists; split; [reflexivity|]; split; [done|]).
  all: split; cbn [last_type overlap_list new_entries new_slot last_addr addr type]; unfold done_to;
    cbn [last_type last_addr]; rewrite ?E0, ?(proj2 (Z.eqb_neq _ _) E0); cbn [Z.eqb]; try done; try lia.
  all: rewrite Hlen in *; destruct emit; cbn in *; lia.
Qed.

Lemma point_bounds cp : is_point cp -> 0 <= cp_addr cp < 2 ^ 64.
Proof.
  destruct cp as [i a]. intros [[Hi Hsz] Hcp]. cbn [cp_entry] in *.
  assert (entry_wf (es !!! i)) as (H0 & H1 & H2).
  { by apply (Forall_lookup_total_1 entry_wf). }
  destruct Hcp as [E|E]; injection E as ->; cbn; lia.
Qed.

Lemma sweep_loop_ok R x s :
  pending x R -> ov_ok R (overlap_list s) -> swept x s ->
  exists F L, sweep_loop es s R = Ok F /\ tiles L F /\
    Z.of_nat (length F) <= E820_MAX_ENTRIES /\
    (Z.of_nat (length F) < E820_MAX_ENTRIES -> forall a, type_at F a = type_at es a).
Proof.
  revert x s. induction R as [|cp R IH]; intros x s HP Hov HS; cbn [sweep_loop].
  - exists (new_entries s), (done_to x s). pose proof HS as [Ht _ Hto HT _ Hnr].
    split_and!; [done..|lia|]. intros _ a.
    destruct (decide (a < done_to x s)) as [Ha|Ha]; [by apply (tl_type _ _ HT)|].
    assert (E : last_type s = 0).
    { rewrite Ht. destruct Hov as [_ Hov]. destruct (overlap_list s) as [|i ov]; [done|].
      destruct (proj1 (Hov i)) as (_ & _ & []%not_elem_of_nil). left. }
    unfold done_to in *. rewrite E in *. cbn [Z.eqb] in *.
    rewrite (tiles_beyond _ _ a HT), (type_between x (a + 1) [] (overlap_list s)), <- Ht;
      try done; [by intros ? ?%not_elem_of_nil|lia|lia].
  - pose proof (point_bounds cp (pd_point _ _ HP cp ltac:(left))) as Hb.
    assert (Hy : forall q, q ∈ cp :: R -> cp_addr cp <= cp_addr q).
    { intros q [->|Hq]%elem_of_cons; [done|]. by apply (pd_ge _ _ (pending_next _ _ _ HP)). }
    assert (HS' : swept (cp_addr cp) s).
    { apply (swept_advance x _ (cp :: R)); [done..| |done]. apply (pd_ge _ _ HP). left. }
    destruct (sweep_step_ok x cp R s HP Hov HS') as (r & E & Hr); [lia|].
    rewrite E. cbn [mbind outcome_bind]. destruct r as [s'|new].
    + destruct Hr as [Hov' HS'']. by apply (IH (cp_addr cp)); [apply (pending_next x)|..].
    + destruct Hr as [HT Hl]. exists new, (cp_addr cp). split_and!; [done..|lia|lia].
Qed.

Lemma sort_points cps :
  Z.of_nat (length cps) < 2 ^ 16 ->
  exists R, sort (cpcompare es) cps (Z.of_nat (length cps)) sizeof_ptr = Ok R /\ R ≡ₚ cps /\
    StronglySorted (fun p q => 0 <= cpcompare es q p) R.
Proof.
  intros Hlt. destruct cps as [|cp cps]; [exists []; split_and!; [done..|constructor]|].
  apply (sort_r_ok (cpcompare es) sizeof_ptr); [done|].
  unfold fits, sizeof_ptr, off. lia.
Qed.

Lemma change_points_length i l : (length (change_points i l) <= 2 * length l)%nat.
Proof.
  revert i. induction l as [|e l IH]; intros i; cbn; [done|]. specialize (IH (S i)).
  rewrite length_app. case_cmp; cbn; lia.
Qed.

Lemma sweep_all_ok :
  Z.of_nat (length es) <= E820_MAX_ENTRIES ->
  exists R F L,
    sort (cpcompare es) (change_points 0 es) (Z.of_nat (length (change_points 0 es))) sizeof_ptr = Ok R /\
    sweep_loop es (Sweep [] [] (E820Entry 0 0 0) 0 0) R = Ok F /\ tiles L F /\
    Z.of_nat (length F) <= E820_MAX_ENTRIES /\
    (Z.of_nat (length F) < E820_MAX_ENTRIES -> forall a, type_at F a = type_at es a).
Proof.
  intros Hnr. pose proof (change_points_length 0 es). unfold E820_MAX_ENTRIES in Hnr.
  destruct (sort_points (change_points 0 es)) as (R & E & HR & Hs); [lia|].
  destruct (change_points_ok [] es eq_refl) as [Hnd Hel]. cbn [length] in *.
  assert (HelR : forall cp, cp ∈ R <-> is_point cp).
  { intros cp. rewrite HR, Hel. intuition lia. }
  destruct (sweep_loop_ok R 0 (Sweep [] [] (E820Entry 0 0 0) 0 0)) as (F & L & EF & HF).
  - split; [by rewrite HR|done| |by intros cp ?%HelR| |].
    + intros cp Hcp. by apply point_bounds, HelR.
    + intros i Hi []. apply HelR. split; [done|by left].
    + intros i Hi []. apply HelR. split; [done|by right].
  - split; [constructor|]. intros i. rewrite !HelR. split; [by intros ?%not_elem_of_nil|].
    intros (Hi & [] & _). split; [done|by left].
  - split; cbn; [done..| |lia|done]. split; try (by intros ? ?%not_elem_of_nil); [constructor|].
    intros a Ha. symmetry. apply type_at_none. intros e He [? _].
    destruct (Forall_forall entry_wf es) as [Hf _]. destruct (Hf Hwf e He). lia.
  - exists R, F, L. split_and!; [done..| | |]; apply HF.
Qed.
End sweep.

(** What the sweep leaves in the table. *)
Lemma update_table_ok t :
  table_wf t -> 2 <= nr_entries t ->
  exists F L, e820__update_table t = Ok (0, E820Table F) /\ tiles (entries t) L F /\
    Z.of_nat (length F) <= E820_MAX_ENTRIES /\
    (Z.of_nat (length F) < E820_MAX_ENTRIES -> forall a, type_at F a = type_at (entries t) a).
Proof.
  intros [Hwf Hnr] H2. unfold e820__update_table.
  rewrite (proj2 (Z.ltb_ge _ _)) by lia. unfold BUG_ON.
  replace (nr_entries t >? E820_MAX_ENTRIES) with false by lia. cbn [mbind outcome_bind].
  replace (existsb _ _) with false.
  - destruct (sweep_all_ok (entries t) Hwf Hnr) as (R & F & L & -> & E & HT & Hle & Hall).
    cbn [mbind outcome_bind]. rewrite E. by exists F, L.
  - symmetry. apply not_true_iff_false. rewrite existsb_exists. intros (e & He & Hlt).
    apply list_elem_of_In in He. rewrite Forall_forall in Hwf. destruct (Hwf e He) as (? & ? & ?).
    rewrite u64_small in Hlt by lia. lia.
Qed.

(** C3. [e820__update_table] turns any table of 2 to [E820_MAX_ENTRIES]
    entries that do not wrap into one in address order, without overlaps or
    empty entries, that gives every address the largest of the types the old
    table gave it; its entries are maximal runs unless their type is never
    merged. Only when the new table is full can the tail be missing, and even
    then everything below the end of its last entry is exact. *)
Theorem update_table_spec t :
  table_wf t -> 2 <= nr_entries t ->
  exists t', e820__update_table t = Ok (0, t') /\
    in_order (entries t') /\
    (forall e, e ∈ entries t' -> 0 < size e /\ 0 < type e) /\
    nr_entries t' <= E820_MAX_ENTRIES /\
    (nr_entries t' < E820_MAX_ENTRIES ->
       forall a, type_at (entries t') a = type_at (entries t) a) /\
    (forall e, e ∈ entries t' ->
       (forall a, a < addr e + size e -> type_at (entries t') a = type_at (entries t) a) /\
       (e820_nomerge (type e) = true \/ type_at (entries t) (addr e + size e) <> type e)).
Proof.
  intros Hwf H2. destruct (update_table_ok t Hwf H2) as (F & L & E & HT & Hle & Hall).
  exists (E820Table F). unfold nr_entries in *. cbn [entries]. split_and!; try done.
  - apply (tl_order _ _ _ HT).
  - intros e He. pose proof (tl_entry _ _ _ HT e He). lia.
  - intros e He. pose proof (tl_entry _ _ _ HT e He). split; [|by apply (tl_run _ _ _ HT)].
    intros a Ha. apply (tl_type _ _ _ HT). lia.
Qed.

(** [e820__update_table] refuses, and leaves alone, a table with fewer
    than two entries or with an entry that wraps around. *)
Theorem update_table_error t :
  nr_entries t < 2 \/
    (nr_entries t <= E820_MAX_ENTRIES /\ exists e, e ∈ entries t /\
       0 <= addr e < 2 ^ 64 /\ 0 <= size e < 2 ^ 64 /\ 2 ^ 64 <= addr e + size e) ->
  e820__update_table t = Ok (-1, t).
Proof.
  unfold e820__update_table. intros [H|(Hnr & e & He & Ha & Hs & Hov)].
  - by rewrite (proj2 (Z.ltb_lt _ _)) by done.
  - destruct (Z.ltb_spec (nr_entries t) 2) as [|H2]; [done|]. unfold BUG_ON.
    replace (nr_entries t >? E820_MAX_ENTRIES) with false by lia. cbn [mbind outcome_bind].
    replace (existsb _ _) with true; [done|]. symmetry. apply existsb_exists.
    exists e. split; [by apply list_elem_of_In|]. unfold u64. apply Z.ltb_lt.
    rewrite <- (Z_mod_plus_full _ (-1)), Z.mod_small; lia.
Qed.

(** An unsorted firmware table with overlaps, as in [update_table_ex]. *)
Definition firmware_table : e820_table := E820Table
  [E820Entry 0x100000 0x7ee0000 1; E820Entry 0 0x9fc00 1;
   E820Entry 0x9fc00 0x400 2; E820Entry 0xf0000 0x20000 2; E820Entry 0x7fe0000 0x1000 1].

Lemma update_table_spec_witness :
  exists t', e820__update_table firmware_table = Ok (0, t') /\
    type_at (entries t') 0x108000 = 2 /\ type_at (entries t') 0x7fe0fff = 1.
Proof.
  destruct (update_table_spec firmware_table) as (t' & E & _ & _ & _ & Hall & _).
  - by apply (bool_decide_unpack _).
  - done.
  - exists t'. split; [exact E|]. vm_compute in E. injection E as <-.
    rewrite !Hall by done. by vm_compute.
Defined.

Lemma update_table_error_witness :
  e820__update_table (E820Table [E820Entry 0 4096 1; E820Entry (2 ^ 64 - 1) 4096 1])
  = Ok (-1, E820Table [E820Entry 0 4096 1; E820Entry (2 ^ 64 - 1) 4096 1]).
Proof.
  apply update_table_error. right. split; [done|]. exists (E820Entry (2 ^ 64 - 1) 4096 1).
  split_and!; [set_solver|done..].
Defined.
