(* ===== verification/Memblock.v ===== *)
(** * mm/memblock.c: the early boot allocator, the code

    Two lists of regions, [memory] and [reserved], kept sorted and merged by
    address. This file holds the data and the operations; [MemblockRegions]
    proves what the operations that change a list do, [MemblockFree] what the
    walks over the free ranges and the allocator built on them do.

    A [memblock_type] holds the regions in use ([regions[0 .. cnt)], so [cnt]
    is a length); the slots beyond are never read. The array of regions is
    either the static one of the kernel image ([array = None]) or lies at a
    physical address. Physical addresses are 32 bits wide and every sum is
    wrapped. There is one memory node, so [memblock_get_region_node] is [0]
    and [movable_node_is_enabled()] is [false].

    [memblock_double_array] calls [memblock_reserve] and [memblock_free],
    which may call it again: the operations that may grow an array take the
    doubling function as an argument, and [double_array_n] ties the knot. *)

From S2P Require Import Prelude.

(** ** Data *)

Definition PHYS_ADDR_MAX : Z := 2 ^ 32 - 1.

Definition MEMBLOCK_NONE : Z := 0.
Definition MEMBLOCK_HOTPLUG : Z := 1.
Definition MEMBLOCK_MIRROR : Z := 2.
Definition MEMBLOCK_NOMAP : Z := 4.
Definition MEMBLOCK_DRIVER_MANAGED : Z := 8.

Definition MEMBLOCK_ALLOC_ANYWHERE : Z := 2 ^ 32 - 1.
Definition MEMBLOCK_ALLOC_ACCESSIBLE : Z := 0.
Definition MEMBLOCK_ALLOC_NOLEAKTRACE : Z := 1.
Definition NUMA_NO_NODE : Z := -1.
Definition MAX_NUMNODES : Z := 1.
Definition INIT_MEMBLOCK_REGIONS : Z := 128.

(** [sizeof(struct memblock_region)]: three 32-bit words. *)
Definition sizeof_region : Z := 12.

Record memblock_region := Region { r_base : Z; r_size : Z; r_flags : Z }.

#[export] Instance memblock_region_eq_dec : EqDecision memblock_region.
Proof. solve_decision. Defined.
#[export] Instance memblock_region_inhabited : Inhabited memblock_region := populate (Region 0 0 0).

Record memblock_type := MbType {
  regions : list memblock_region;
  max_regions : Z;
  total_size : Z;
  array : option Z;
}.

Definition cnt (t : memblock_type) : Z := Z.of_nat (length (regions t)).

(** [type == &memblock.memory] or [type == &memblock.reserved]. *)
Inductive which := Memory | Reserved.

Record memblock := Memblock {
  bottom_up : bool;
  current_limit : Z;
  memory : memblock_type;
  reserved : memblock_type;
  memblock_can_resize : bool;
  memblock_memory_in_slab : bool;
  memblock_reserved_in_slab : bool;
  system_has_some_mirror : bool;
}.

(** The initial value: one empty region in each list. *)
Definition init_type : memblock_type := MbType [Region 0 0 0] INIT_MEMBLOCK_REGIONS 0 None.
Definition init_memblock : memblock :=
  Memblock false MEMBLOCK_ALLOC_ANYWHERE init_type init_type false false false false.

Definition get_type (w : which) (mb : memblock) : memblock_type :=
  match w with Memory => memory mb | Reserved => reserved mb end.

Definition set_type (w : which) (t : memblock_type) (mb : memblock) : memblock :=
  match w with
  | Memory => Memblock (bottom_up mb) (current_limit mb) t (reserved mb) (memblock_can_resize mb)
                (memblock_memory_in_slab mb) (memblock_reserved_in_slab mb) (system_has_some_mirror mb)
  | Reserved => Memblock (bottom_up mb) (current_limit mb) (memory mb) t (memblock_can_resize mb)
                (memblock_memory_in_slab mb) (memblock_reserved_in_slab mb) (system_has_some_mirror mb)
  end.

Definition in_slab (w : which) (mb : memblock) : bool :=
  match w with Memory => memblock_memory_in_slab mb | Reserved => memblock_reserved_in_slab mb end.

Definition set_in_slab (w : which) (b : bool) (mb : memblock) : memblock :=
  match w with
  | Memory => Memblock (bottom_up mb) (current_limit mb) (memory mb) (reserved mb)
                (memblock_can_resize mb) b (memblock_reserved_in_slab mb) (system_has_some_mirror mb)
  | Reserved => Memblock (bottom_up mb) (current_limit mb) (memory mb) (reserved mb)
                (memblock_can_resize mb) (memblock_memory_in_slab mb) b (system_has_some_mirror mb)
  end.

Definition with_regions (rs : list memblock_region) (total : Z) (t : memblock_type) : memblock_type :=
  MbType rs (max_regions t) total (array t).

(** ** Small helpers *)

Definition choose_memblock_flags (mb : memblock) : Z :=
  if system_has_some_mirror mb then MEMBLOCK_MIRROR else MEMBLOCK_NONE.

(** The new value of [*size], which is also the result. *)
Definition memblock_cap_size (base size : Z) : Z := Z.min size (u32 (PHYS_ADDR_MAX - base)).

Definition memblock_addrs_overlap (base1 size1 base2 size2 : Z) : bool :=
  (base1 <? u32 (base2 + size2)) && (base2 <? u32 (base1 + size1)).

Definition r_end (r : memblock_region) : Z := u32 (r_base r + r_size r).

Definition has_flag (m : memblock_region) (f : Z) : bool := negb (Z.land (r_flags m) f =? 0).
Definition memblock_is_hotpluggable (m : memblock_region) : bool := has_flag m MEMBLOCK_HOTPLUG.
Definition memblock_is_mirror (m : memblock_region) : bool := has_flag m MEMBLOCK_MIRROR.
Definition memblock_is_nomap (m : memblock_region) : bool := has_flag m MEMBLOCK_NOMAP.
Definition memblock_is_driver_managed (m : memblock_region) : bool := has_flag m MEMBLOCK_DRIVER_MANAGED.

Definition memblock_get_region_node (m : memblock_region) : Z := 0.
Definition movable_node_is_enabled : bool := false.

(** The index of the first region that overlaps, [cnt] when there is none. *)
Fixpoint overlaps_loop (rs : list memblock_region) (base size : Z) : nat :=
  match rs with
  | [] => 0
  | r :: rs =>
      if memblock_addrs_overlap base size (r_base r) (r_size r) then 0
      else S (overlaps_loop rs base size)
  end.

Definition memblock_overlaps_region (t : memblock_type) (base size : Z) : bool :=
  let size := memblock_cap_size base size in
  Z.of_nat (overlaps_loop (regions t) base size) <? cnt t.

(** ** Changing one list *)

Definition memblock_remove_region (t : memblock_type) (r : nat) : memblock_type :=
  let total := u32 (total_size t - r_size (regions t !!! r)) in
  match take r (regions t) ++ drop (S r) (regions t) with
  | [] => with_regions [Region 0 0 0] total t
  | rs => with_regions rs total t
  end.

Fixpoint merge_loop (fuel : nat) (t : memblock_type) (i : nat) : outcome memblock_type :=
  match fuel with
  | O => NoFuel
  | S fuel =>
      if Z.of_nat i <? cnt t - 1 then
        let this := regions t !!! i in
        let next := regions t !!! S i in
        if negb (r_end this =? r_base next) ||
           negb (memblock_get_region_node this =? memblock_get_region_node next) ||
           negb (r_flags this =? r_flags next)
        then
          BUG_ON (r_end this >? r_base next);;
          merge_loop fuel t (S i)
        else
          let this := Region (r_base this) (u32 (r_size this + r_size next)) (r_flags this) in
          let rs := take i (regions t) ++ this :: drop (S (S i)) (regions t) in
          merge_loop fuel (with_regions rs (total_size t) t) i
      else Ok t
  end.

Definition memblock_merge_regions (t : memblock_type) : outcome memblock_type :=
  merge_loop (S (length (regions t))) t 0.

Definition memblock_insert_region (t : memblock_type) (idx : nat) (base size nid flags : Z) :
    outcome memblock_type :=
  BUG_ON (cnt t >=? max_regions t);;
  Ok (with_regions (take idx (regions t) ++ Region base size flags :: drop idx (regions t))
                   (u32 (total_size t + size)) t).

(** The loop over the regions in [memblock_add_range]: counts the gaps of
    [base, end) between the regions and, when [insert] is set, fills them.
    The result is the list, and [idx], [base] and [nr_new] after the loop. *)
Fixpoint add_loop (fuel : nat) (insert : bool) (t : memblock_type) (idx : nat)
    (base end_ nid flags nr_new : Z) : outcome (memblock_type * nat * Z * Z) :=
  match fuel with
  | O => NoFuel
  | S fuel =>
      match regions t !! idx with
      | None => Ok (t, idx, base, nr_new)
      | Some rgn =>
          let rbase := r_base rgn in
          let rend := r_end rgn in
          if rbase >=? end_ then Ok (t, idx, base, nr_new)
          else if rend <=? base then add_loop fuel insert t (S idx) base end_ nid flags nr_new
          else if rbase >? base then
            '(t, idx) ← (if insert then
                           t ← memblock_insert_region t idx base (u32 (rbase - base)) nid flags;
                           Ok (t, S idx)
                         else Ok (t, idx));
            add_loop fuel insert t (S idx) (Z.min rend end_) end_ nid flags (nr_new + 1)
          else add_loop fuel insert t (S idx) (Z.min rend end_) end_ nid flags nr_new
      end
  end.

(** One pass from [repeat:] to the test of [nr_new]. *)
Definition add_pass (insert : bool) (t : memblock_type) (base end_ nid flags : Z) :
    outcome (memblock_type * Z) :=
  '(t, idx, base, nr_new) ← add_loop (S (length (regions t))) insert t 0 base end_ nid flags 0;
  if base <? end_ then
    t ← (if insert then memblock_insert_region t idx base (u32 (end_ - base)) nid flags else Ok t);
    Ok (t, nr_new + 1)
  else Ok (t, nr_new).

(** A function that doubles the array of a list, given the area that is about
    to be added to it. *)
Definition doubler : Type := which -> Z -> Z -> memblock -> outcome (Z * memblock).

(** [while (type->cnt + extra > type->max) if (memblock_double_array(...) < 0)
    return -ENOMEM]. *)
Fixpoint grow_loop (dbl : doubler) (fuel : nat) (w : which) (extra base size : Z) (mb : memblock) :
    outcome (Z * memblock) :=
  match fuel with
  | O => NoFuel
  | S fuel =>
      if cnt (get_type w mb) + extra >? max_regions (get_type w mb) then
        '(ret, mb) ← dbl w base size mb;
        if ret <? 0 then Ok (- ENOMEM, mb) else grow_loop dbl fuel w extra base size mb
      else Ok (0, mb)
  end.

(** [max] doubles each time and an [unsigned long] holds it. *)
Definition grow_fuel : nat := 40.

Definition memblock_add_range (dbl : doubler) (w : which) (base size nid flags : Z) (mb : memblock) :
    outcome (Z * memblock) :=
  let t := get_type w mb in
  let size := memblock_cap_size base size in
  let end_ := u32 (base + size) in
  if size =? 0 then Ok (0, mb)
  else if r_size (regions t !!! 0%nat) =? 0 then
    Ok (0, set_type w (with_regions (<[0%nat := Region base size flags]> (regions t)) size t) mb)
  else
    '(_, nr_new) ← add_pass false t base end_ nid flags;
    if nr_new =? 0 then Ok (0, mb)
    else
      '(ret, mb) ← grow_loop dbl grow_fuel w nr_new base size mb;
      if ret <? 0 then Ok (ret, mb)
      else
        '(t, nr_new) ← add_pass true (get_type w mb) base end_ nid flags;
        if nr_new =? 0 then Ok (0, set_type w t mb)
        else
          t ← memblock_merge_regions t;
          Ok (0, set_type w t mb).

Definition memblock_add_node (dbl : doubler) (base size nid flags : Z) (mb : memblock) :=
  memblock_add_range dbl Memory base size nid flags mb.
Definition memblock_add (dbl : doubler) (base size : Z) (mb : memblock) :=
  memblock_add_range dbl Memory base size MAX_NUMNODES 0 mb.
Definition memblock_reserve (dbl : doubler) (base size : Z) (mb : memblock) :=
  memblock_add_range dbl Reserved base size MAX_NUMNODES 0 mb.

(** The loop over the regions in [memblock_isolate_range]. *)
Fixpoint isolate_loop (fuel : nat) (t : memblock_type) (idx : nat) (base end_ : Z)
    (start_rgn end_rgn : nat) : outcome (memblock_type * nat * nat) :=
  match fuel with
  | O => NoFuel
  | S fuel =>
      match regions t !! idx with
      | None => Ok (t, start_rgn, end_rgn)
      | Some rgn =>
          let rbase := r_base rgn in
          let rend := r_end rgn in
          if rbase >=? end_ then Ok (t, start_rgn, end_rgn)
          else if rend <=? base then isolate_loop fuel t (S idx) base end_ start_rgn end_rgn
          else if rbase <? base then
            let cut := u32 (base - rbase) in
            let rgn' := Region base (u32 (r_size rgn - cut)) (r_flags rgn) in
            let t := with_regions (<[idx := rgn']> (regions t)) (u32 (total_size t - cut)) t in
            t ← memblock_insert_region t idx rbase cut (memblock_get_region_node rgn') (r_flags rgn');
            isolate_loop fuel t (S idx) base end_ start_rgn end_rgn
          else if rend >? end_ then
            let cut := u32 (end_ - rbase) in
            let rgn' := Region end_ (u32 (r_size rgn - cut)) (r_flags rgn) in
            let t := with_regions (<[idx := rgn']> (regions t)) (u32 (total_size t - cut)) t in
            t ← memblock_insert_region t idx rbase cut (memblock_get_region_node rgn') (r_flags rgn');
            isolate_loop fuel t idx base end_ start_rgn end_rgn
          else
            isolate_loop fuel t (S idx) base end_
              (if (end_rgn =? 0)%nat then idx else start_rgn) (S idx)
      end
  end.

(** The result is the return value, and [start_rgn] and [end_rgn]. *)
Definition memblock_isolate_range (dbl : doubler) (w : which) (base size : Z) (mb : memblock) :
    outcome (Z * memblock * nat * nat) :=
  let size := memblock_cap_size base size in
  let end_ := u32 (base + size) in
  if size =? 0 then Ok (0, mb, 0%nat, 0%nat)
  else
    '(ret, mb) ← grow_loop dbl grow_fuel w 2 base size mb;
    if ret <? 0 then Ok (ret, mb, 0%nat, 0%nat)
    else
      let t := get_type w mb in
      '(t, start_rgn, end_rgn) ← isolate_loop (length (regions t) + 4) t 0 base end_ 0 0;
      Ok (0, set_type w t mb, start_rgn, end_rgn).

(** [for (i = end_rgn - 1; i >= start_rgn; i--)], [n] steps from [i] down. *)
Fixpoint remove_loop (n : nat) (t : memblock_type) (start_rgn : nat) : memblock_type :=
  match n with
  | O => t
  | S n => remove_loop n (memblock_remove_region t (start_rgn + n)) start_rgn
  end.

Definition memblock_remove_range (dbl : doubler) (w : which) (base size : Z) (mb : memblock) :
    outcome (Z * memblock) :=
  '(ret, mb, start_rgn, end_rgn) ← memblock_isolate_range dbl w base size mb;
  if negb (ret =? 0) then Ok (ret, mb)
  else Ok (0, set_type w (remove_loop (end_rgn - start_rgn) (get_type w mb) start_rgn) mb).

Definition memblock_remove (dbl : doubler) (base size : Z) (mb : memblock) :=
  memblock_remove_range dbl Memory base size mb.
Definition memblock_phys_free (dbl : doubler) (base size : Z) (mb : memblock) :=
  memblock_remove_range dbl Reserved base size mb.

(** ** Walking the free ranges *)

(** [&type->regions[i]]. *)
Definition region_at (t : memblock_type) (i : Z) : memblock_region := regions t !!! Z.to_nat i.

Definition should_skip_region (is_memory : bool) (m : memblock_region) (nid flags : Z) : bool :=
  let m_nid := memblock_get_region_node m in
  if negb is_memory then false
  else if negb (nid =? NUMA_NO_NODE) && negb (nid =? m_nid) then true
  else if movable_node_is_enabled && memblock_is_hotpluggable m &&
          (Z.land flags MEMBLOCK_HOTPLUG =? 0) then true
  else if negb (Z.land flags MEMBLOCK_MIRROR =? 0) && negb (memblock_is_mirror m) then true
  else if (Z.land flags MEMBLOCK_NOMAP =? 0) && memblock_is_nomap m then true
  else if (Z.land flags MEMBLOCK_DRIVER_MANAGED =? 0) && memblock_is_driver_managed m then true
  else false.

Definition ULLONG_MAX : Z := 2 ^ 64 - 1.

(** [*idx] packs the two indices: [(u32)idx_a | (u64)idx_b << 32]. *)
Definition pack_idx (idx_a idx_b : Z) : Z := Z.lor (u32 idx_a) (u64 (Z.shiftl (u64 idx_b) 32)).
Definition idx_a_of (idx : Z) : Z := s32 (Z.land idx 0xffffffff).
Definition idx_b_of (idx : Z) : Z := s32 (u32 (Z.shiftr idx 32)).

(** The gap before region [idx_b] of [type_b]. *)
Definition gap_start (type_b : memblock_type) (idx_b : Z) : Z :=
  if negb (idx_b =? 0) then r_end (region_at type_b (idx_b - 1)) else 0.
Definition gap_end (type_b : memblock_type) (idx_b : Z) : Z :=
  if idx_b <? cnt type_b then r_base (region_at type_b idx_b) else PHYS_ADDR_MAX.

(** The inner loop of [__next_mem_range]: [idx_b] where it stops and, when it
    found a range, the new [*idx], [*out_start] and [*out_end]. *)
Fixpoint next_b_loop (fuel : nat) (type_b : memblock_type) (m_start m_end idx_a idx_b : Z) :
    outcome (Z * option (Z * Z * Z)) :=
  match fuel with
  | O => NoFuel
  | S fuel =>
      if idx_b <? cnt type_b + 1 then
        let r_start := gap_start type_b idx_b in
        let r_end := gap_end type_b idx_b in
        if r_start >=? m_end then Ok (idx_b, None)
        else if m_start <? r_end then
          let idx := if m_end <=? r_end then pack_idx (idx_a + 1) idx_b
                     else pack_idx idx_a (idx_b + 1) in
          Ok (idx_b, Some (idx, Z.max m_start r_start, Z.min m_end r_end))
        else next_b_loop fuel type_b m_start m_end idx_a (idx_b + 1)
      else Ok (idx_b, None)
  end.

(** The outer loop. [type_b = None] stands for a [NULL] pointer. *)
Fixpoint next_a_loop (fuel : nat) (is_memory : bool) (nid flags : Z)
    (type_a : memblock_type) (type_b : option memblock_type) (idx_a idx_b : Z) :
    outcome (Z * Z * Z) :=
  match fuel with
  | O => NoFuel
  | S fuel =>
      if idx_a <? cnt type_a then
        let m := region_at type_a idx_a in
        let m_start := r_base m in
        let m_end := r_end m in
        if should_skip_region is_memory m nid flags
        then next_a_loop fuel is_memory nid flags type_a type_b (idx_a + 1) idx_b
        else
          match type_b with
          | None => Ok (pack_idx (idx_a + 1) idx_b, m_start, m_end)
          | Some tb =>
              '(idx_b, found) ← next_b_loop (length (regions tb) + 2) tb m_start m_end idx_a idx_b;
              match found with
              | Some out => Ok out
              | None => next_a_loop fuel is_memory nid flags type_a type_b (idx_a + 1) idx_b
              end
          end
      else Ok (ULLONG_MAX, 0, 0)
  end.

(** The result is [*idx], [*out_start] and [*out_end]; the last two are not
    written (here [0]) when [*idx] is [ULLONG_MAX]. *)
Definition __next_mem_range (is_memory : bool) (nid flags : Z)
    (type_a : memblock_type) (type_b : option memblock_type) (idx : Z) : outcome (Z * Z * Z) :=
  let nid := if nid =? MAX_NUMNODES then NUMA_NO_NODE else nid in
  next_a_loop (length (regions type_a) + 1) is_memory nid flags type_a type_b
    (idx_a_of idx) (idx_b_of idx).

Fixpoint next_b_loop_rev (fuel : nat) (type_b : memblock_type) (m_start m_end idx_a idx_b : Z) :
    outcome (Z * option (Z * Z * Z)) :=
  match fuel with
  | O => NoFuel
  | S fuel =>
      if idx_b >=? 0 then
        let r_start := gap_start type_b idx_b in
        let r_end := gap_end type_b idx_b in
        if r_end <=? m_start then Ok (idx_b, None)
        else if m_end >? r_start then
          let idx := if m_start >=? r_start then pack_idx (idx_a - 1) idx_b
                     else pack_idx idx_a (idx_b - 1) in
          Ok (idx_b, Some (idx, Z.max m_start r_start, Z.min m_end r_end))
        else next_b_loop_rev fuel type_b m_start m_end idx_a (idx_b - 1)
      else Ok (idx_b, None)
  end.

Fixpoint next_a_loop_rev (fuel : nat) (is_memory : bool) (nid flags : Z)
    (type_a : memblock_type) (type_b : option memblock_type) (idx_a idx_b : Z) :
    outcome (Z * Z * Z) :=
  match fuel with
  | O => NoFuel
  | S fuel =>
      if idx_a >=? 0 then
        let m := region_at type_a idx_a in
        let m_start := r_base m in
        let m_end := r_end m in
        if should_skip_region is_memory m nid flags
        then next_a_loop_rev fuel is_memory nid flags type_a type_b (idx_a - 1) idx_b
        else
          match type_b with
          | None => Ok (pack_idx (idx_a - 1) idx_b, m_start, m_end)
          | Some tb =>
              '(idx_b, found) ← next_b_loop_rev (length (regions tb) + 2) tb m_start m_end idx_a idx_b;
              match found with
              | Some out => Ok out
              | None => next_a_loop_rev fuel is_memory nid flags type_a type_b (idx_a - 1) idx_b
              end
          end
      else Ok (ULLONG_MAX, 0, 0)
  end.

Definition __next_mem_range_rev (is_memory : bool) (nid flags : Z)
    (type_a : memblock_type) (type_b : option memblock_type) (idx : Z) : outcome (Z * Z * Z) :=
  let nid := if nid =? MAX_NUMNODES then NUMA_NO_NODE else nid in
  let '(idx_a, idx_b) :=
    if idx =? ULLONG_MAX
    then (cnt type_a - 1, match type_b with Some tb => cnt tb | None => 0 end)
    else (idx_a_of idx, idx_b_of idx) in
  next_a_loop_rev (length (regions type_a) + 1) is_memory nid flags type_a type_b idx_a idx_b.

(** The loop of [__for_each_mem_range] and [__for_each_mem_range_rev]: [next]
    advances [i], the body sees a range and goes on ([inl]) or leaves the
    function ([inr]). *)
Fixpoint for_each_range {A R : Type} (fuel : nat) (next : Z -> outcome (Z * Z * Z))
    (body : Z -> Z -> A -> outcome (A + R)) (i : Z) (acc : A) : outcome (A + R) :=
  match fuel with
  | O => NoFuel
  | S fuel =>
      '(i, p_start, p_end) ← next i;
      if i =? ULLONG_MAX then Ok (inl acc)
      else
        r ← body p_start p_end acc;
        match r with
        | inl acc => for_each_range fuel next body i acc
        | inr r => Ok (inr r)
        end
  end.

(** Every step of the walk moves one of the two indices. *)
Definition walk_fuel (mb : memblock) : nat :=
  length (regions (memory mb)) + length (regions (reserved mb)) + 3.

Definition for_each_free_mem_range {A R : Type} (mb : memblock) (nid flags : Z)
    (body : Z -> Z -> A -> outcome (A + R)) (acc : A) : outcome (A + R) :=
  for_each_range (walk_fuel mb)
    (__next_mem_range true nid flags (memory mb) (Some (reserved mb))) body 0 acc.

Definition for_each_free_mem_range_reverse {A R : Type} (mb : memblock) (nid flags : Z)
    (body : Z -> Z -> A -> outcome (A + R)) (acc : A) : outcome (A + R) :=
  for_each_range (walk_fuel mb)
    (__next_mem_range_rev true nid flags (memory mb) (Some (reserved mb))) body ULLONG_MAX acc.

(** ** Finding a free area *)

(** [clamp(val, lo, hi)] of include/linux/minmax.h. *)
Definition clamp (val lo hi : Z) : Z := Z.min (Z.max val lo) hi.

Definition bottom_up_body (start end_ size align this_start this_end : Z) (_ : unit) :
    outcome (unit + Z) :=
  let this_start := clamp this_start start end_ in
  let this_end := clamp this_end start end_ in
  let cand := round_up this_start align in
  if (cand <? this_end) && (u32 (this_end - cand) >=? size) then Ok (inr cand) else Ok (inl tt).

Definition found_or_zero (r : unit + Z) : outcome Z :=
  match r with inl _ => Ok 0 | inr cand => Ok cand end.

Definition __memblock_find_range_bottom_up (mb : memblock) (start end_ size align nid flags : Z) :
    outcome Z :=
  r ← for_each_free_mem_range mb nid flags (bottom_up_body start end_ size align) tt;
  found_or_zero r.

Definition top_down_body (start end_ size align this_start this_end : Z) (_ : unit) :
    outcome (unit + Z) :=
  let this_start := clamp this_start start end_ in
  let this_end := clamp this_end start end_ in
  if this_end <? size then Ok (inl tt)
  else
    let cand := round_down (u32 (this_end - size)) align in
    if cand >=? this_start then Ok (inr cand) else Ok (inl tt).

Definition __memblock_find_range_top_down (mb : memblock) (start end_ size align nid flags : Z) :
    outcome Z :=
  r ← for_each_free_mem_range_reverse mb nid flags (top_down_body start end_ size align) tt;
  found_or_zero r.

Definition memblock_find_in_range_node (mb : memblock) (size align start end_ nid flags : Z) :
    outcome Z :=
  let end_ := if (end_ =? MEMBLOCK_ALLOC_ACCESSIBLE) || (end_ =? MEMBLOCK_ALLOC_NOLEAKTRACE)
              then current_limit mb else end_ in
  let start := Z.max start PAGE_SIZE in
  let end_ := Z.max start end_ in
  if bottom_up mb then __memblock_find_range_bottom_up mb start end_ size align nid flags
  else __memblock_find_range_top_down mb start end_ size align nid flags.

(** [goto again] is taken at most once: the second time the flag is clear. *)
Definition memblock_find_in_range (mb : memblock) (start end_ size align : Z) : outcome Z :=
  let flags := choose_memblock_flags mb in
  ret ← memblock_find_in_range_node mb size align start end_ NUMA_NO_NODE flags;
  if (ret =? 0) && negb (Z.land flags MEMBLOCK_MIRROR =? 0) then
    memblock_find_in_range_node mb size align start end_ NUMA_NO_NODE
      (Z.ldiff flags MEMBLOCK_MIRROR)
  else Ok ret.

(** ** Doubling an array *)

Definition PAGE_ALIGN (x : Z) : Z := Z.land (u32 (x + (PAGE_SIZE - 1))) (U32_MAX - (PAGE_SIZE - 1)).

Section slab.
(** The slab allocator: whether it is up, and the physical address of a new
    object, [0] when there is none. Before it is up [kmalloc] is not called. *)
Context (slab_is_available : bool) (kmalloc : Z -> Z).

Definition memblock_double_array (dbl : doubler) (w : which) (new_area_start new_area_size : Z)
    (mb : memblock) : outcome (Z * memblock) :=
  let t := get_type w mb in
  if negb (memblock_can_resize mb) then Ok (-1, mb)
  else
    let old_size := u32 (max_regions t * sizeof_region) in
    let new_size := u32 (Z.shiftl old_size 1) in
    let old_alloc_size := PAGE_ALIGN old_size in
    let new_alloc_size := PAGE_ALIGN new_size in
    addr ← (if slab_is_available then Ok (kmalloc new_size)
            else
              let '(new_area_start, new_area_size) :=
                match w with Reserved => (new_area_start, new_area_size) | Memory => (0, 0) end in
              addr ← memblock_find_in_range mb (u32 (new_area_start + new_area_size))
                       (current_limit mb) new_alloc_size PAGE_SIZE;
              if (addr =? 0) && negb (new_area_size =? 0) then
                memblock_find_in_range mb 0 (Z.min new_area_start (current_limit mb))
                  new_alloc_size PAGE_SIZE
              else Ok addr);
    if addr =? 0 then Ok (-1, mb)
    else
      let old_array := array t in
      let mb := set_type w (MbType (regions t) (u32 (Z.shiftl (max_regions t) 1))
                                   (total_size t) (Some addr)) mb in
      mb ← (if in_slab w mb then Ok mb
            else match old_array with
                 | None => Ok mb
                 | Some old =>
                     '(_, mb) ← memblock_phys_free dbl old old_alloc_size mb;
                     Ok mb
                 end);
      mb ← (if slab_is_available then Ok mb
            else
              '(ret, mb) ← memblock_reserve dbl addr new_alloc_size mb;
              BUG_ON (negb (ret =? 0));;
              Ok mb);
      Ok (0, set_in_slab w slab_is_available mb).

(** The call nesting is bounded: see [MemblockRegions]. *)
Fixpoint double_array_n (n : nat) : doubler :=
  match n with
  | O => fun _ _ _ _ => NoFuel
  | S n => memblock_double_array (double_array_n n)
  end.

(** ** Allocating *)

Context (kzalloc_node : Z -> Z) (SMP_CACHE_BYTES : Z).

(** One attempt: [found && !memblock_reserve(found, size)]. *)
Definition find_and_reserve (dbl : doubler) (size align start end_ nid flags : Z) (mb : memblock) :
    outcome (Z * memblock) :=
  found ← memblock_find_in_range_node mb size align start end_ nid flags;
  if found =? 0 then Ok (0, mb)
  else
    '(ret, mb) ← memblock_reserve dbl found size mb;
    Ok (if ret =? 0 then found else 0, mb).

(** From [again:] to the test of [MEMBLOCK_MIRROR]. *)
Definition alloc_attempt (dbl : doubler) (size align start end_ nid : Z) (exact_nid : bool)
    (flags : Z) (mb : memblock) : outcome (Z * memblock) :=
  '(found, mb) ← find_and_reserve dbl size align start end_ nid flags mb;
  if negb (found =? 0) then Ok (found, mb)
  else if negb (nid =? NUMA_NO_NODE) && negb exact_nid
  then find_and_reserve dbl size align start end_ NUMA_NO_NODE flags mb
  else Ok (0, mb).

Definition memblock_alloc_range_nid (dbl : doubler) (size align start end_ nid : Z)
    (exact_nid : bool) (mb : memblock) : outcome (Z * memblock) :=
  let flags := choose_memblock_flags mb in
  let nid := if nid =? MAX_NUMNODES then NUMA_NO_NODE else nid in
  let align := if align =? 0 then SMP_CACHE_BYTES else align in
  '(found, mb) ← alloc_attempt dbl size align start end_ nid exact_nid flags mb;
  if negb (found =? 0) then Ok (found, mb)
  else if negb (Z.land flags MEMBLOCK_MIRROR =? 0)
  then alloc_attempt dbl size align start end_ nid exact_nid (Z.ldiff flags MEMBLOCK_MIRROR) mb
  else Ok (0, mb).

Definition memblock_phys_alloc_range (dbl : doubler) (size align start end_ : Z) (mb : memblock) :=
  memblock_alloc_range_nid dbl size align start end_ NUMA_NO_NODE false mb.

(** The physical address behind the pointer, [0] for [NULL]. *)
Definition memblock_alloc_internal (dbl : doubler) (size align min_addr max_addr nid : Z)
    (exact_nid : bool) (mb : memblock) : outcome (Z * memblock) :=
  if slab_is_available then Ok (kzalloc_node size, mb)
  else
    let max_addr := if max_addr >? current_limit mb then current_limit mb else max_addr in
    '(alloc, mb) ← memblock_alloc_range_nid dbl size align min_addr max_addr nid exact_nid mb;
    if (alloc =? 0) && negb (min_addr =? 0)
    then memblock_alloc_range_nid dbl size align 0 max_addr nid exact_nid mb
    else Ok (alloc, mb).

(** The three entry points only differ in [exact_nid]; clearing the new block
    is outside the model. *)
Definition memblock_alloc_exact_nid_raw (dbl : doubler) (size align min_addr max_addr nid : Z) mb :=
  memblock_alloc_internal dbl size align min_addr max_addr nid true mb.
Definition memblock_alloc_try_nid_raw (dbl : doubler) (size align min_addr max_addr nid : Z) mb :=
  memblock_alloc_internal dbl size align min_addr max_addr nid false mb.
Definition memblock_alloc_try_nid (dbl : doubler) (size align min_addr max_addr nid : Z) mb :=
  memblock_alloc_internal dbl size align min_addr max_addr nid false mb.
End slab.

(** [memblock_free]: [None] is the [NULL] pointer. *)
Definition memblock_free (dbl : doubler) (ptr : option Z) (size : Z) (mb : memblock) :
    outcome memblock :=
  match ptr with
  | None => Ok mb
  | Some pa => '(_, mb) ← memblock_phys_free dbl pa size mb; Ok mb
  end.

(** ** Queries *)

Definition memblock_start_of_DRAM (mb : memblock) : Z := r_base (regions (memory mb) !!! 0%nat).
Definition memblock_end_of_DRAM (mb : memblock) : Z := r_end (region_at (memory mb) (cnt (memory mb) - 1)).

(** [do ... while (left < right)]; [-1] when no region holds [addr]. *)
Fixpoint search_loop (fuel : nat) (t : memblock_type) (addr left right : Z) : outcome Z :=
  match fuel with
  | O => NoFuel
  | S fuel =>
      let mid := u32 (right + left) / 2 in
      let again left right := if left <? right then search_loop fuel t addr left right else Ok (-1) in
      if addr <? r_base (region_at t mid) then again left mid
      else if addr >=? r_end (region_at t mid) then again (mid + 1) right
      else Ok mid
  end.

Definition memblock_search (t : memblock_type) (addr : Z) : outcome Z :=
  search_loop (S (length (regions t))) t addr 0 (cnt t).

Definition memblock_is_region_memory (mb : memblock) (base size : Z) : outcome bool :=
  idx ← memblock_search (memory mb) base;
  let end_ := u32 (base + memblock_cap_size base size) in
  if idx =? -1 then Ok false
  else Ok (r_end (region_at (memory mb) idx) >=? end_).

Definition memblock_is_region_reserved (mb : memblock) (base size : Z) : bool :=
  memblock_overlaps_region (reserved mb) base size.

(** ** Trimming, limits *)

(** [for_each_mem_region(r)]: a removal steps [r] back, so the index stays. *)
Fixpoint trim_loop (fuel : nat) (align : Z) (t : memblock_type) (i : nat) : outcome memblock_type :=
  match fuel with
  | O => NoFuel
  | S fuel =>
      match regions t !! i with
      | None => Ok t
      | Some r =>
          let orig_start := r_base r in
          let orig_end := r_end r in
          let start := round_up orig_start align in
          let end_ := round_down orig_end align in
          if (start =? orig_start) && (end_ =? orig_end) then trim_loop fuel align t (S i)
          else if start <? end_ then
            trim_loop fuel align
              (with_regions (<[i := Region start (u32 (end_ - start)) (r_flags r)]> (regions t))
                            (total_size t) t) (S i)
          else trim_loop fuel align (memblock_remove_region t i) i
      end
  end.

Definition memblock_trim_memory (align : Z) (mb : memblock) : outcome memblock :=
  t ← trim_loop (length (regions (memory mb)) + 2) align (memory mb) 0;
  Ok (set_type Memory t mb).

Definition memblock_set_current_limit (limit : Z) (mb : memblock) : memblock :=
  Memblock (bottom_up mb) limit (memory mb) (reserved mb) (memblock_can_resize mb)
    (memblock_memory_in_slab mb) (memblock_reserved_in_slab mb) (system_has_some_mirror mb).

Definition memblock_get_current_limit (mb : memblock) : Z := current_limit mb.

Definition memblock_allow_resize (mb : memblock) : memblock :=
  Memblock (bottom_up mb) (current_limit mb) (memory mb) (reserved mb) true
    (memblock_memory_in_slab mb) (memblock_reserved_in_slab mb) (system_has_some_mirror mb).

(** [__next_mem_pfn_range]: the next region from [*idx + 1] on that holds a
    whole page; [None] stands for [*idx = -1]. *)
Fixpoint next_pfn_loop (fuel : nat) (t : memblock_type) (idx nid : Z) : outcome (option (Z * Z * Z)) :=
  match fuel with
  | O => NoFuel
  | S fuel =>
      let idx := idx + 1 in
      if idx <? cnt t then
        let r := region_at t idx in
        if PFN_UP (r_base r) >=? PFN_DOWN (r_end r) then next_pfn_loop fuel t idx nid
        else if (nid =? MAX_NUMNODES) || (nid =? memblock_get_region_node r)
        then Ok (Some (idx, PFN_UP (r_base r), PFN_DOWN (r_end r)))
        else next_pfn_loop fuel t idx nid
      else Ok None
  end.

Definition __next_mem_pfn_range (mb : memblock) (idx nid : Z) : outcome (option (Z * Z * Z)) :=
  next_pfn_loop (S (length (regions (memory mb)))) (memory mb) idx nid.

(** ** Handing the free memory to the page allocator *)

(** What the page allocator is told: [reserve_bootmem_region(start, end)] and
    [memblock_free_pages(pfn_to_page(pfn), pfn, order)]. *)
Inductive page_event :=
  | ReserveBootmem (start end_ : Z)
  | FreePages (pfn order : Z).

Definition MAX_ORDER : Z := 11.

(** [while (start + (1UL << order) > end) order--]. *)
Fixpoint fit_order (fuel : nat) (start end_ order : Z) : outcome Z :=
  match fuel with
  | O => NoFuel
  | S fuel =>
      if u32 (start + Z.shiftl 1 order) >? end_ then fit_order fuel start end_ (order - 1)
      else Ok order
  end.

Section pages.
(** What the processor's [bsf] leaves in its destination when the source is
    [0]; the highest page frame below the limit of low memory. *)
Context (ffs_of_zero max_low_pfn : Z).

Fixpoint free_pages_loop (fuel : nat) (start end_ : Z) : outcome (list page_event) :=
  match fuel with
  | O => NoFuel
  | S fuel =>
      if start <? end_ then
        let order := Z.min (MAX_ORDER - 1) (__ffs ffs_of_zero start) in
        order ← fit_order (Z.to_nat MAX_ORDER) start end_ order;
        rest ← free_pages_loop fuel (u32 (start + Z.shiftl 1 order)) end_;
        Ok (FreePages start order :: rest)
      else Ok []
  end.

Definition __free_pages_memory (start end_ : Z) : outcome (list page_event) :=
  free_pages_loop (S (Z.to_nat (end_ - start))) start end_.

Definition __free_memory_core (start end_ : Z) : outcome (Z * list page_event) :=
  let start_pfn := PFN_UP start in
  let end_pfn := Z.min (PFN_DOWN end_) max_low_pfn in
  if start_pfn >=? end_pfn then Ok (0, [])
  else
    evs ← __free_pages_memory start_pfn end_pfn;
    Ok (u32 (end_pfn - start_pfn), evs).

Definition reserve_body (start end_ : Z) (evs : list page_event) :
    outcome (list page_event + unit) := Ok (inl (evs ++ [ReserveBootmem start end_])).

Definition memmap_init_reserved_pages (mb : memblock) : outcome (list page_event) :=
  r ← for_each_range (walk_fuel mb)
        (__next_mem_range false NUMA_NO_NODE MEMBLOCK_NONE (reserved mb) None) reserve_body 0 [];
  match r with
  | inl evs =>
      Ok (evs ++ map (fun region => ReserveBootmem (r_base region) (r_end region))
                     (base.filter (fun region => memblock_is_nomap region = true)
                                  (regions (memory mb))))
  | inr _ => Bug
  end.

Definition free_body (start end_ : Z) (acc : Z * list page_event) :
    outcome ((Z * list page_event) + unit) :=
  '(n, evs) ← __free_memory_core start end_;
  Ok (inl (u32 (fst acc + n), snd acc ++ evs)).

(** The page count and everything the page allocator was told. *)
Definition free_low_memory_core_early (mb : memblock) : outcome (Z * list page_event) :=
  evs ← memmap_init_reserved_pages mb;
  r ← for_each_free_mem_range mb NUMA_NO_NODE MEMBLOCK_NONE free_body (0, evs);
  match r with inl acc => Ok acc | inr _ => Bug end.

(** [free_unused_memmap] returns at once and [reset_all_zones_managed_pages]
    is empty; the count is added to [totalram_pages]. *)
Definition memblock_free_all (mb : memblock) (totalram_pages : Z) : outcome (Z * list page_event) :=
  '(pages, evs) ← free_low_memory_core_early mb;
  Ok (totalram_pages + pages, evs).

(** [memblock_free_late]: page by page, past memblock. *)
Fixpoint free_late_loop (fuel : nat) (cursor end_ : Z) : outcome (list page_event) :=
  match fuel with
  | O => NoFuel
  | S fuel =>
      if cursor <? end_ then
        rest ← free_late_loop fuel (u32 (cursor + 1)) end_;
        Ok (FreePages cursor 0 :: rest)
      else Ok []
  end.

Definition memblock_free_late (base size totalram_pages : Z) : outcome (Z * list page_event) :=
  let cursor := PFN_UP base in
  let end_ := PFN_DOWN (u32 (base + size)) in
  evs ← free_late_loop (S (Z.to_nat (end_ - cursor))) cursor end_;
  Ok (totalram_pages + Z.of_nat (length evs), evs).
End pages.
