(* ===== verification/MemblockRegions.v ===== *)
(** * mm/memblock.c: what the operations on a list of regions do

    A list of regions is a partial map from addresses to flags ([lookup]).
    The invariant [wf] says that the regions are non-empty, in address order
    and disjoint and that they fit the array; a list without memory holds the
    one empty region the code puts there. [total_ok] says that [total_size] is
    the sum of the sizes.
    Under it [memblock_add_range] is the union of maps that prefers what is
    there, [memblock_remove_range] deletes a range of keys, and neither runs
    into a [BUG_ON]. *)

From S2P Require Import Prelude Memblock.

(** ** The map a list stands for, and the invariant *)

Definition rcovers (r : memblock_region) (a : Z) : Prop := r_base r <= a < r_base r + r_size r.

#[export] Instance rcovers_dec r a : Decision (rcovers r a).
Proof. unfold rcovers. apply _. Defined.

Fixpoint lookup (rs : list memblock_region) (a : Z) : option Z :=
  match rs with
  | [] => None
  | r :: rs => if decide (rcovers r a) then Some (r_flags r) else lookup rs a
  end.

Definition region_ok (r : memblock_region) : Prop :=
  0 <= r_base r /\ 0 < r_size r /\ r_base r + r_size r <= PHYS_ADDR_MAX.

Definition before (r s : memblock_region) : Prop := r_base r + r_size r <= r_base s.

Definition good (rs : list memblock_region) : Prop := Forall region_ok rs /\ StronglySorted before rs.

Fixpoint sum (rs : list memblock_region) : Z :=
  match rs with [] => 0 | r :: rs => r_size r + sum rs end.

Definition nothing : list memblock_region := [Region 0 0 0].

Record wf (t : memblock_type) : Prop := {
  wf_regions : regions t = nothing \/ (regions t <> [] /\ good (regions t));
  wf_max : cnt t <= max_regions t;
  wf_max2 : 4 <= max_regions t <= 2 ^ 27;
}.

(** The bookkeeping of [total_size], which the code only reads in [WARN_ON]. *)
Definition total_ok (t : memblock_type) : Prop := total_size t = sum (regions t).

(** No two neighbours could be one region. *)
Fixpoint merged (rs : list memblock_region) : Prop :=
  match rs with
  | r :: ((s :: _) as rs') => ~ (r_base r + r_size r = r_base s /\ r_flags r = r_flags s) /\ merged rs'
  | _ => True
  end.

Create HintDb memblock.
#[export] Hint Unfold region_ok before rcovers : memblock.

(** ** Facts about good lists *)

Lemma good_nil : good [].
Proof. split; constructor. Qed.

Lemma good_cons r rs : good (r :: rs) <-> region_ok r /\ Forall (before r) rs /\ good rs.
Proof.
  unfold good. rewrite Forall_cons. split.
  - intros [[Hr Hrs] [Hs Hb]%StronglySorted_inv]. done.
  - intros (Hr & Hb & Hrs & Hs). split; [done|]. by constructor.
Qed.

Lemma good_app rs ss :
  good (rs ++ ss) <-> good rs /\ good ss /\ (forall r s, r ∈ rs -> s ∈ ss -> before r s).
Proof. unfold good. rewrite Forall_app, sorted_app. tauto. Qed.

Lemma good_ok rs r : good rs -> r ∈ rs -> region_ok r.
Proof. intros [H _]. rewrite Forall_forall in H. auto. Qed.

Lemma r_end_ok r : region_ok r -> r_end r = r_base r + r_size r.
Proof. intros (? & ? & ?). unfold r_end, PHYS_ADDR_MAX in *. apply u32_small. lia. Qed.

Lemma lookup_app rs ss a :
  lookup (rs ++ ss) a = match lookup rs a with Some f => Some f | None => lookup ss a end.
Proof. induction rs as [|r rs IH]; cbn; [done|]. by destruct (decide _). Qed.

Lemma lookup_None rs a : lookup rs a = None <-> (forall r, r ∈ rs -> ~ rcovers r a).
Proof.
  induction rs as [|r rs IH]; cbn.
  - split; [by intros _ ? ?%not_elem_of_nil|done].
  - destruct (decide (rcovers r a)) as [Hc|Hc].
    + split; [done|]. intros H. exfalso. apply (H r); [left|done].
    + rewrite IH. split; [intros H r' [->|?]%elem_of_cons; auto|intros H r' Hr; apply H; by right].
Qed.

Lemma lookup_Some rs a f : lookup rs a = Some f -> exists r, r ∈ rs /\ rcovers r a /\ r_flags r = f.
Proof.
  induction rs as [|r rs IH]; cbn; [done|]. destruct (decide (rcovers r a)).
  - intros [= <-]. exists r. split; [left|done].
  - intros (s & Hs & H)%IH. exists s. split; [by right|done].
Qed.

(** In a good list the flags of an address are those of its only region. *)
Lemma lookup_elem rs r a : good rs -> r ∈ rs -> rcovers r a -> lookup rs a = Some (r_flags r).
Proof.
  intros Hg Hr Hc. apply list_elem_of_split in Hr as (l1 & l2 & ->).
  apply good_app in Hg as (_ & _ & Hb). rewrite lookup_app. cbn.
  replace (lookup l1 a) with (@None Z); [by rewrite decide_True|].
  symmetry. apply lookup_None. intros s Hs Hcs. specialize (Hb s r Hs ltac:(left)).
  unfold before, rcovers in *. lia.
Qed.

Lemma sum_app rs ss : sum (rs ++ ss) = sum rs + sum ss.
Proof. induction rs; cbn; lia. Qed.

Lemma sum_le rs lo : good rs -> (forall r, r ∈ rs -> lo <= r_base r) -> 0 <= lo <= PHYS_ADDR_MAX ->
  0 <= sum rs <= PHYS_ADDR_MAX - lo.
Proof.
  revert lo. induction rs as [|r rs IH]; intros lo Hg Hlo H0; cbn; [lia|].
  apply good_cons in Hg as ((? & ? & ?) & Hb & Hg). rewrite Forall_forall in Hb.
  specialize (IH (r_base r + r_size r) Hg Hb ltac:(lia)). specialize (Hlo r ltac:(left)). lia.
Qed.

Lemma sum_small rs : good rs -> 0 <= sum rs < 2 ^ 32.
Proof.
  intros Hg. assert (0 <= sum rs <= PHYS_ADDR_MAX - 0); [|unfold PHYS_ADDR_MAX in *; lia].
  apply sum_le; [done| |unfold PHYS_ADDR_MAX; lia]. intros r Hr. by apply (good_ok _ _ Hg).
Qed.

Lemma lookup_nothing a : lookup nothing a = None.
Proof. apply lookup_None. intros r ->%list_elem_of_singleton. unfold rcovers. cbn. lia. Qed.

(** ** [memblock_merge_regions] *)

(** Merging as a pass over the list: [r] is the region being built. *)
Fixpoint merge_from (r : memblock_region) (rs : list memblock_region) : list memblock_region :=
  match rs with
  | [] => [r]
  | s :: rs =>
      if (r_base r + r_size r =? r_base s) && (r_flags r =? r_flags s)
      then merge_from (Region (r_base r) (r_size r + r_size s) (r_flags r)) rs
      else r :: merge_from s rs
  end.

Definition glue (r s : memblock_region) : memblock_region :=
  Region (r_base r) (r_size r + r_size s) (r_flags r).

Lemma good_glue r s rs :
  good (r :: s :: rs) -> r_base r + r_size r = r_base s -> good (glue r s :: rs).
Proof.
  rewrite !good_cons. intros ((? & ? & ?) & Hb & (? & ? & ?) & Hb' & Hg) E.
  csplit; [unfold region_ok, glue; cbn; lia| |done].
  eapply Forall_impl; [exact Hb'|]. unfold before, glue. cbn. lia.
Qed.

Lemma lookup_glue r s rs a :
  0 < r_size r -> 0 < r_size s -> r_base r + r_size r = r_base s -> r_flags r = r_flags s ->
  lookup (glue r s :: rs) a = lookup (r :: s :: rs) a.
Proof.
  intros Hr Hs E Ef. cbn. unfold rcovers. cbn.
  repeat destruct (decide _); try lia; congruence.
Qed.

Lemma merge_from_head r rs :
  exists n ss, merge_from r rs = Region (r_base r) n (r_flags r) :: ss.
Proof.
  revert r. induction rs as [|s rs IH]; intros [b n f]; cbn [merge_from r_base r_size r_flags]; [by eauto|].
  destruct (_ && _); [apply IH|by eauto].
Qed.

Lemma good_ge r rs u : good (r :: rs) -> u ∈ r :: rs -> r_base r <= r_base u.
Proof.
  intros ((_ & ? & _) & Hb & _)%good_cons [->|Hu]%elem_of_cons; [done|].
  rewrite Forall_forall in Hb. specialize (Hb u Hu). unfold before in Hb. lia.
Qed.

(** What merging keeps and what it achieves. *)
Definition merges (rs ms : list memblock_region) : Prop :=
  good ms /\ merged ms /\ sum ms = sum rs /\ (length ms <= length rs)%nat /\
  forall a, lookup ms a = lookup rs a.

Lemma merge_from_spec r rs : good (r :: rs) -> merges (r :: rs) (merge_from r rs).
Proof.
  revert r. induction rs as [|s rs IH]; intros r Hg; cbn [merge_from].
  { by unfold merges; csplit. }
  destruct (_ && _) eqn:E.
  - apply andb_true_iff in E as [E%Z.eqb_eq Ef%Z.eqb_eq]. fold (glue r s).
    destruct (IH (glue r s)) as (H1 & H2 & H3 & H4 & H5); [by apply good_glue|].
    unfold merges. csplit; [done..|cbn in *; lia|cbn in *; lia|].
    apply good_cons in Hg as ((_ & ? & _) & _ & [(_ & ? & _) _]%good_cons).
    intros a. rewrite H5. by apply lookup_glue.
  - apply good_cons in Hg as (Hr & [Hbs _]%Forall_cons & Hg).
    destruct (IH s Hg) as (H1 & H2 & H3 & H4 & H5). unfold merges. csplit.
    + apply good_cons. csplit; [done| |done]. apply Forall_forall. intros u Hu.
      destruct (merge_from_head s rs) as (n & ss & Em). rewrite Em in *.
      pose proof (good_ge _ _ u H1 Hu) as Hge. unfold before in *. cbn in Hge. lia.
    + destruct (merge_from_head s rs) as (n & ss & Em). rewrite Em in *. cbn [merged].
      split; [|done]. cbn. lia.
    + cbn in *. lia.
    + cbn in *. lia.
    + intros a. cbn. rewrite H5. done.
Qed.

Lemma merge_loop_ok fuel t pre r rs :
  regions t = pre ++ r :: rs -> good (regions t) -> (length rs < fuel)%nat ->
  merge_loop fuel t (length pre) =
    Ok (with_regions (pre ++ merge_from r rs) (total_size t) t).
Proof.
  revert t pre r rs. induction fuel as [|fuel IH]; intros t pre r rs Ht Hg Hf; [lia|].
  cbn [merge_loop]. unfold cnt. rewrite Ht, length_app, lookup_total_pre.
  destruct rs as [|s rs]; cbn [length] in *.
  { rewrite (proj2 (Z.ltb_ge _ _)) by lia. destruct t. cbn in *. by subst. }
  rewrite (proj2 (Z.ltb_lt _ _)) by lia.
  assert (Hg' : good (r :: s :: rs)) by (rewrite Ht in Hg; by apply good_app in Hg as (_ & ? & _)).
  pose proof Hg' as (Hr & [Hbs _]%Forall_cons & [Hs Hgs]%good_cons)%good_cons.
  rewrite (app_cons_snoc pre r (s :: rs)), <- (length_snoc pre r), lookup_total_pre, drop_S_pre.
  rewrite (r_end_ok r Hr), !Z.eqb_refl. cbn [negb merge_from]. rewrite orb_false_r.
  rewrite <- negb_andb. destruct (_ && _) eqn:E; cbn [negb].
  - apply andb_true_iff in E as [E%Z.eqb_eq Ef%Z.eqb_eq].
    assert (Hgl : good (glue r s :: rs)) by (by apply good_glue).
    pose proof Hgl as [(_ & _ & Hm) _]%good_cons. cbn in Hm.
    destruct Hr as (? & ? & ?), Hs as (? & ? & ?). unfold PHYS_ADDR_MAX in *.
    rewrite (u32_small (r_size r + r_size s)) by lia. fold (glue r s).
    rewrite <- app_cons_snoc, take_pre.
    rewrite (IH _ pre (glue r s) rs); cbn [with_regions regions]; [done|done| |lia].
    rewrite Ht in Hg. apply good_app in Hg as (Hp & _ & Hb). apply good_app. csplit; [done..|].
    intros p u Hp' [->|Hu]%elem_of_cons; [apply (Hb p r)|apply (Hb p u)]; set_solver.
  - unfold before in Hbs. rewrite Z.gtb_ltb, (proj2 (Z.ltb_ge _ _)) by lia.
    cbn [mbind outcome_bind BUG_ON].
    rewrite (IH t (pre ++ [r]) s rs); [by rewrite <- app_assoc| |done|lia].
    by rewrite <- app_cons_snoc.
Qed.

(** The merge never finds two regions out of order. *)
Lemma merge_regions_ok t :
  regions t <> [] -> good (regions t) ->
  exists ms, memblock_merge_regions t = Ok (with_regions ms (total_size t) t) /\ ms <> [] /\
    merges (regions t) ms.
Proof.
  intros Hne Hg. destruct (regions t) as [|r rs] eqn:E; [done|].
  exists (merge_from r rs). unfold memblock_merge_regions.
  pose proof (merge_loop_ok (S (length (regions t))) t [] r rs) as H. cbn [app length] in H.
  rewrite H; [|by rewrite E..|rewrite E; cbn; lia]. csplit; [done| |by apply merge_from_spec].
  destruct (merge_from_head r rs) as (n & ss & ->). done.
Qed.

(** ** [memblock_add_range] *)

Section add.
Context (end_ flags : Z).

(** The new region for a gap, if there is one. *)
Definition gap (base upto : Z) : list memblock_region :=
  if base <? upto then [Region base (upto - base) flags] else [].

(** The list with the gaps of [base, end_) between its regions filled. *)
Fixpoint fill (rs : list memblock_region) (base : Z) : list memblock_region :=
  match rs with
  | [] => gap base end_
  | r :: rs' =>
      if r_base r >=? end_ then gap base end_ ++ rs
      else if r_base r + r_size r <=? base then r :: fill rs' base
      else gap base (r_base r) ++ r :: fill rs' (Z.min (r_base r + r_size r) end_)
  end.

Fixpoint gaps (rs : list memblock_region) (base : Z) : Z :=
  match rs with
  | [] => Z.b2z (base <? end_)
  | r :: rs' =>
      if r_base r >=? end_ then Z.b2z (base <? end_)
      else if r_base r + r_size r <=? base then gaps rs' base
      else Z.b2z (base <? r_base r) + gaps rs' (Z.min (r_base r + r_size r) end_)
  end.

Lemma gap_length base upto : Z.of_nat (length (gap base upto)) = Z.b2z (base <? upto).
Proof. unfold gap. by destruct (base <? upto). Qed.

Lemma gaps_nonneg rs base : 0 <= gaps rs base.
Proof.
  revert base. induction rs as [|r rs IH]; intros base; cbn [gaps]; [by destruct (_ <? _)|].
  repeat case_cmp; [by destruct (_ <? _)|done|].
  specialize (IH (Z.min (r_base r + r_size r) end_)). destruct (base <? r_base r); cbn; lia.
Qed.

Lemma fill_length rs base : Z.of_nat (length (fill rs base)) = Z.of_nat (length rs) + gaps rs base.
Proof.
  revert base. induction rs as [|r rs IH]; intros base; cbn [fill gaps]; [by rewrite gap_length|].
  repeat case_cmp.
  - rewrite length_app, Nat2Z.inj_add, gap_length. lia.
  - cbn [length]. specialize (IH base). lia.
  - rewrite length_app. cbn [length].
    specialize (IH (Z.min (r_base r + r_size r) end_)). pose proof (gap_length base (r_base r)). lia.
Qed.

(** Nothing outside [base, end_) is touched. *)
Lemma fill_elem rs base r :
  r ∈ fill rs base -> r ∈ rs \/ (base <= r_base r /\ r_base r < r_base r + r_size r <= end_).
Proof.
  revert base. induction rs as [|s rs IH]; intros base; cbn [fill].
  - unfold gap. case_cmp; [|by intros ?%not_elem_of_nil].
    intros ->%list_elem_of_singleton. right. cbn. lia.
  - repeat case_cmp.
    + rewrite elem_of_app. intros [H|H]; [|by left]. revert H. unfold gap.
      case_cmp; [|by intros ?%not_elem_of_nil]. intros ->%list_elem_of_singleton. right. cbn. lia.
    + rewrite !elem_of_cons. intros [->|H%IH]; naive_solver.
    + rewrite elem_of_app, elem_of_cons. intros [H|[->|H]].
      * revert H. unfold gap. case_cmp; [|by intros ?%not_elem_of_nil].
        intros ->%list_elem_of_singleton. right. cbn. lia.
      * left. left.
      * apply IH in H as [H|H]; [left; by right|]. right. lia.
Qed.

Lemma gap_good base upto :
  0 <= base -> upto <= PHYS_ADDR_MAX -> good (gap base upto).
Proof.
  intros H0 Hle. unfold gap. case_cmp; [|apply good_nil].
  apply good_cons. csplit; [unfold region_ok; cbn; lia|constructor|apply good_nil].
Qed.

Lemma gap_before base upto r s : r ∈ gap base upto -> upto <= r_base s -> before r s.
Proof.
  unfold gap. case_cmp; [|by intros ?%not_elem_of_nil].
  intros ->%list_elem_of_singleton Hle. unfold before. cbn. lia.
Qed.

Lemma fill_good rs base :
  good rs -> 0 <= base -> end_ <= PHYS_ADDR_MAX -> good (fill rs base).
Proof.
  intros Hg H0 Hend. revert base H0. induction rs as [|r rs IH]; intros base H0; cbn [fill].
  { by apply gap_good. }
  apply good_cons in Hg as (Hr & Hb & Hg). specialize (IH Hg).
  pose proof Hr as (? & ? & ?). rewrite Forall_forall in Hb. repeat case_cmp.
  - apply good_app. csplit; [by apply gap_good| |].
    + apply good_cons. by rewrite Forall_forall.
    + intros g s Hgp Hs. apply (gap_before base end_); [done|].
      enough (r_base r <= r_base s) by lia. apply (good_ge r rs); [|done].
      apply good_cons. by rewrite Forall_forall.
  - apply good_cons. csplit; [done| |by apply IH]. apply Forall_forall.
    intros s [Hs|Hs]%fill_elem; [by apply Hb|unfold before; lia].
  - assert (Hcons : good (r :: fill rs (Z.min (r_base r + r_size r) end_))).
    { apply good_cons. csplit; [done| |apply IH; lia]. apply Forall_forall.
      intros s [Hs|Hs]%fill_elem; [by apply Hb|unfold before; lia]. }
    apply good_app. csplit; [apply gap_good; unfold PHYS_ADDR_MAX in *; lia|done|].
    intros g s Hgp Hs. apply (gap_before base (r_base r)); [done|]. by apply (good_ge _ _ _ Hcons).
Qed.

Lemma lookup_gap base upto a :
  lookup (gap base upto) a = if decide (base <= a < upto) then Some flags else None.
Proof.
  unfold gap. case_cmp; cbn; unfold rcovers; cbn; repeat destruct (decide _); done || lia.
Qed.

(** The union of maps: what is there stays, the rest of the range is added. *)
Definition union_range (old : option Z) (base a : Z) : option Z :=
  match old with
  | Some f => Some f
  | None => if decide (base <= a < end_) then Some flags else None
  end.

Lemma fill_lookup rs base a :
  good rs -> lookup (fill rs base) a = union_range (lookup rs a) base a.
Proof.
  intros Hg. revert base. induction rs as [|r rs IH]; intros base; cbn [fill].
  { apply lookup_gap. }
  pose proof Hg as ((? & ? & ?) & Hb & Hg')%good_cons. specialize (IH Hg').
  case_cmp; [|case_cmp]; unfold union_range in *.
  - rewrite lookup_app, lookup_gap. destruct (decide (base <= a < end_)); [|by destruct (lookup (r :: rs) a)].
    replace (lookup (r :: rs) a) with (@None Z); [done|]. symmetry. apply lookup_None.
    intros s Hs Hc. pose proof (good_ge _ _ s Hg Hs). unfold rcovers in Hc. lia.
  - cbn [lookup]. rewrite IH. by destruct (decide (rcovers r a)).
  - rewrite lookup_app, lookup_gap. cbn [lookup]. rewrite IH.
    destruct (decide (base <= a < r_base r)).
    + replace (if decide (rcovers r a) then _ else lookup rs a) with (@None Z).
      { by rewrite decide_True by lia. }
      symmetry. rewrite decide_False by (unfold rcovers; lia). apply lookup_None.
      intros s Hs Hc. pose proof (good_ge r rs s Hg). unfold rcovers in Hc.
      pose proof (good_ge r rs s Hg ltac:(by right)). lia.
    + unfold rcovers. destruct (decide (r_base r <= a < r_base r + r_size r)); [done|].
      destruct (lookup rs a); [done|]. repeat destruct (decide _); done || lia.
Qed.
End add.

Lemma with_regions_id t : with_regions (regions t) (total_size t) t = t.
Proof. by destruct t. Qed.

(** What follows the loop in [add_pass]. *)
Definition add_tail (insert : bool) (end_ nid flags : Z) (s : memblock_type * nat * Z * Z) :
    outcome (memblock_type * Z) :=
  let '(t, idx, base, nr_new) := s in
  if base <? end_ then
    t ← (if insert then memblock_insert_region t idx base (u32 (end_ - base)) nid flags else Ok t);
    Ok (t, nr_new + 1)
  else Ok (t, nr_new).

Lemma add_count_ok fuel t pre rs base end_ nid flags nr :
  regions t = pre ++ rs -> good rs -> (length rs < fuel)%nat ->
  (s ← add_loop fuel false t (length pre) base end_ nid flags nr; add_tail false end_ nid flags s)
  = Ok (t, nr + gaps end_ rs base).
Proof.
  intros Ht Hg. revert fuel pre base nr Ht.
  induction rs as [|r rs IH]; intros [|fuel] pre base nr Ht Hf; cbn [length] in Hf; try lia;
    cbn [add_loop gaps]; rewrite Ht.
  { rewrite app_nil_r, lookup_end. cbn. case_cmp; cbn; do 2 f_equal; lia. }
  pose proof Hg as (Hr & _ & Hg')%good_cons.
  rewrite lookup_pre, (r_end_ok r Hr). case_cmp; [cbn; case_cmp; cbn; do 2 f_equal; lia|].
  assert (Ht' : regions t = (pre ++ [r]) ++ rs) by (by rewrite <- app_cons_snoc).
  case_cmp; [|case_cmp; [rewrite bind_Ok; cbn beta iota|]]; rewrite <- (length_snoc pre r).
  - apply IH; [done..|lia].
  - rewrite IH by (done || lia). do 2 f_equal. replace (base <? r_base r) with true by lia. cbn. lia.
  - rewrite IH by (done || lia). do 2 f_equal. replace (base <? r_base r) with false by lia. cbn. lia.
Qed.

Lemma u32_add_l a b : u32 (u32 a + b) = u32 (a + b).
Proof. unfold u32. by rewrite Zplus_mod_idemp_l. Qed.

Lemma u32_sub_l a b : u32 (u32 a - b) = u32 (a - b).
Proof. unfold u32. by rewrite Zminus_mod_idemp_l. Qed.

Lemma insert_region_ok t pre rs base size nid flags :
  regions t = pre ++ rs -> cnt t < max_regions t ->
  memblock_insert_region t (length pre) base size nid flags =
  Ok (with_regions (pre ++ Region base size flags :: rs) (u32 (total_size t + size)) t).
Proof.
  intros Ht Hlt. unfold memblock_insert_region, BUG_ON.
  rewrite Z.geb_leb, (proj2 (Z.leb_gt _ _)) by lia. cbn [mbind outcome_bind].
  by rewrite Ht, take_pre, drop_pre.
Qed.

(** [t] with its regions replaced and [total_size] adjusted by [d]. *)
Definition adjusted (t t' : memblock_type) (rs : list memblock_region) (d : Z) : Prop :=
  regions t' = rs /\
  (total_size t = u32 (total_size t) -> total_size t' = u32 (total_size t + d)) /\
  max_regions t' = max_regions t /\ array t' = array t.

Lemma adjusted_refl t rs : regions t = rs -> adjusted t t rs 0.
Proof. intros <-. unfold adjusted. csplit; try done. by rewrite Z.add_0_r. Qed.

Lemma adjusted_trans t t' t'' rs rs' d d' d'' :
  adjusted t t' rs d -> adjusted t' t'' rs' d' -> d'' = d + d' -> adjusted t t'' rs' d''.
Proof.
  intros (_ & E1 & M1 & A1) (E2 & E3 & M2 & A2) ->. unfold adjusted. csplit; [done| |congruence..].
  intros E. specialize (E1 E). rewrite E3, E1, u32_add_l; [f_equal; lia|].
  rewrite E1. by rewrite u32_idemp.
Qed.

Lemma insert_adjusted t pre rs base size nid flags :
  regions t = pre ++ rs -> cnt t < max_regions t ->
  exists t', memblock_insert_region t (length pre) base size nid flags = Ok t' /\
    adjusted t t' (pre ++ Region base size flags :: rs) size.
Proof.
  intros Ht Hlt. rewrite (insert_region_ok t pre rs) by done. eexists. split; [done|].
  unfold adjusted. by csplit.
Qed.

(** Filling one gap: nothing happens when there is none. *)
Lemma tail_insert_ok t pre rs base end_ nid flags nr :
  regions t = pre ++ rs -> 0 <= base -> end_ <= PHYS_ADDR_MAX ->
  cnt t + Z.b2z (base <? end_) <= max_regions t ->
  exists t', add_tail true end_ nid flags (t, length pre, base, nr) = Ok (t', nr + Z.b2z (base <? end_)) /\
    adjusted t t' (pre ++ gap flags base end_ ++ rs) (sum (gap flags base end_)).
Proof.
  intros Ht H0 Hend Hmax. cbn [add_tail]. unfold gap. case_cmp; cbn [Z.b2z] in *.
  - unfold PHYS_ADDR_MAX in *. rewrite u32_small by lia.
    destruct (insert_adjusted t pre rs base (end_ - base) nid flags) as (t' & E & Ha); [done|lia|].
    rewrite E. exists t'. split; [done|]. cbn. by rewrite Z.add_0_r.
  - exists t. rewrite Z.add_0_r. split; [done|]. by apply adjusted_refl.
Qed.

Lemma add_insert_ok fuel t pre rs base end_ nid flags nr :
  regions t = pre ++ rs -> good rs -> (length rs < fuel)%nat ->
  0 <= base -> end_ <= PHYS_ADDR_MAX -> cnt t + gaps end_ rs base <= max_regions t ->
  exists t',
    (s ← add_loop fuel true t (length pre) base end_ nid flags nr; add_tail true end_ nid flags s)
    = Ok (t', nr + gaps end_ rs base) /\
    adjusted t t' (pre ++ fill end_ flags rs base) (sum (fill end_ flags rs base) - sum rs).
Proof.
  intros Ht Hg. revert fuel t pre base nr Ht.
  induction rs as [|r rs IH]; intros [|fuel] t pre base nr Ht Hf H0 Hend Hmax;
    cbn [length] in Hf; try lia; cbn [add_loop gaps fill] in *; rewrite Ht.
  { rewrite app_nil_r, lookup_end, bind_Ok. rewrite Z.sub_0_r.
    destruct (tail_insert_ok t pre [] base end_ nid flags nr) as (t' & E & Ha); [done..|].
    rewrite app_nil_r in Ha. eauto. }
  pose proof Hg as (Hr & _ & Hg')%good_cons. pose proof Hr as (? & ? & ?).
  rewrite lookup_pre, (r_end_ok r Hr). case_cmp.
  { rewrite bind_Ok, sum_app, Z.add_simpl_r. by apply tail_insert_ok. }
  assert (Ht' : regions t = (pre ++ [r]) ++ rs) by (by rewrite <- app_cons_snoc).
  case_cmp; [|case_cmp].
  - rewrite <- (length_snoc pre r), (app_cons_snoc pre r (fill _ _ _ _)). cbn [sum].
    replace (r_size r + _ - _) with (sum (fill end_ flags rs base) - sum rs) by lia.
    apply IH; [done..|lia|done|done|done].
  - replace (base <? r_base r) with true in * by lia. cbn [Z.b2z] in *. unfold gap at 1 2.
    replace (base <? r_base r) with true by lia. unfold PHYS_ADDR_MAX in *.
    rewrite (u32_small (r_base r - base)) by lia.
    pose proof (gaps_nonneg end_ rs (Z.min (r_base r + r_size r) end_)).
    destruct (insert_adjusted t pre (r :: rs) base (r_base r - base) nid flags) as (t1 & E1 & Ha1);
      [done|lia|]. rewrite E1, !bind_Ok. cbn beta iota.
    pose proof Ha1 as (R1 & _ & M1 & _). set (g := Region base (r_base r - base) flags) in *.
    destruct (IH Hg' fuel t1 ((pre ++ [g]) ++ [r]) (Z.min (r_base r + r_size r) end_) (nr + 1))
      as (t' & E & Ha); [by rewrite <- !app_cons_snoc|lia|lia|done| |].
    { unfold cnt in *. rewrite R1, M1. rewrite Ht in Hmax. rewrite length_app in *. cbn in *. lia. }
    rewrite !length_snoc in E. rewrite E. exists t'. split; [do 2 f_equal; lia|].
    cbn [app]. rewrite (app_cons_snoc pre g), (app_cons_snoc (pre ++ [g])).
    eapply adjusted_trans; [exact Ha1|exact Ha|]. cbn [sum]. unfold g. cbn. lia.
  - replace (base <? r_base r) with false in * by lia. cbn [Z.b2z] in *. unfold gap at 1 2.
    replace (base <? r_base r) with false by lia. cbn [app sum].
    rewrite <- (length_snoc pre r), (app_cons_snoc pre r (fill _ _ _ _)).
    replace (r_size r + _ - _) with (sum (fill end_ flags rs (Z.min (r_base r + r_size r) end_)) - sum rs) by lia.
    rewrite Z.add_0_l in *. apply IH; [done..|lia|unfold PHYS_ADDR_MAX in *; lia|done|done].
Qed.

Lemma add_pass_count t base end_ nid flags :
  good (regions t) -> add_pass false t base end_ nid flags = Ok (t, gaps end_ (regions t) base).
Proof. intros Hg. apply (add_count_ok _ t [] (regions t)); [done..|lia]. Qed.

Lemma add_pass_insert t base end_ nid flags :
  good (regions t) -> 0 <= base -> end_ <= PHYS_ADDR_MAX ->
  cnt t + gaps end_ (regions t) base <= max_regions t ->
  exists t', add_pass true t base end_ nid flags = Ok (t', gaps end_ (regions t) base) /\
    adjusted t t' (fill end_ flags (regions t) base)
      (sum (fill end_ flags (regions t) base) - sum (regions t)).
Proof. intros. apply (add_insert_ok _ t [] (regions t)); done || lia. Qed.

(** ** [memblock_isolate_range] and [memblock_remove_range] *)

(** The same map, cut into regions in another way. *)
Record recut (t t' : memblock_type) : Prop := {
  rc_adjusted : adjusted t t' (regions t') 0;
  rc_good : good (regions t) -> good (regions t');
  rc_sum : sum (regions t') = sum (regions t);
  rc_lookup a : lookup (regions t') a = lookup (regions t) a;
}.

Lemma recut_refl t : recut t t.
Proof. split; try done. by apply adjusted_refl. Qed.

Lemma recut_trans t t' t'' : recut t t' -> recut t' t'' -> recut t t''.
Proof.
  intros [H1 H2 H3 H4] [K1 K2 K3 K4]. split; [|auto|congruence|intros; congruence].
  by eapply adjusted_trans.
Qed.

(** The two parts of a region cut at [x]. *)
Definition lower (r : memblock_region) (x : Z) := Region (r_base r) (x - r_base r) (r_flags r).
Definition upper (r : memblock_region) (x : Z) := Region x (r_base r + r_size r - x) (r_flags r).

Lemma cut_glue r x : r = glue (lower r x) (upper r x).
Proof. destruct r as [b n f]. unfold glue, lower, upper. cbn. f_equal. lia. Qed.

Lemma good_cut pre r rs x :
  r_base r < x < r_base r + r_size r ->
  good (pre ++ r :: rs) -> good (pre ++ lower r x :: upper r x :: rs).
Proof.
  intros Hx (Hp & Hrs & Hb)%good_app. pose proof Hrs as ((? & ? & ?) & Hbr & Hg)%good_cons.
  apply good_app. csplit; [done| |].
  - rewrite !good_cons, Forall_cons. csplit; try done.
    + unfold region_ok. cbn. lia.
    + unfold before. cbn. lia.
    + eapply Forall_impl; [exact Hbr|]. unfold before. cbn. lia.
    + unfold region_ok. cbn. lia.
    + eapply Forall_impl; [exact Hbr|]. unfold before. cbn. lia.
  - intros p s Hp' Hs. pose proof (Hb p r Hp' ltac:(left)) as Hpr.
    rewrite !elem_of_cons in Hs. destruct Hs as [->|[->|Hs]].
    + exact Hpr.
    + unfold before in *. cbn. lia.
    + apply Hb; [done|]. by right.
Qed.

Lemma cut_ok t pre r rs x nid :
  regions t = pre ++ r :: rs -> r_base r < x < r_base r + r_size r -> region_ok r ->
  cnt t < max_regions t ->
  let cut := u32 (x - r_base r) in
  let rgn' := Region x (u32 (r_size r - cut)) (r_flags r) in
  let t1 := with_regions (<[length pre := rgn']> (regions t)) (u32 (total_size t - cut)) t in
  exists t2, memblock_insert_region t1 (length pre) (r_base r) cut nid (r_flags rgn') = Ok t2 /\
    recut t t2 /\ regions t2 = pre ++ lower r x :: upper r x :: rs /\ cnt t2 = cnt t + 1.
Proof.
  intros Ht Hx (? & ? & ?) Hlt. cbn zeta. unfold PHYS_ADDR_MAX in *.
  rewrite (u32_small (x - r_base r)), (u32_small (r_size r - (x - r_base r))) by lia.
  rewrite Ht, insert_pre. cbn [r_flags].
  set (t1 := with_regions _ _ _).
  assert (Hup : Region x (r_size r - (x - r_base r)) (r_flags r) = upper r x)
    by (unfold upper; f_equal; lia).
  rewrite (insert_region_ok t1 pre (upper r x :: rs)).
  - eexists. split; [reflexivity|]. unfold cnt. rewrite Ht. cbn [with_regions regions].
    csplit; [|done|rewrite !length_app; cbn; lia]. split; cbn [with_regions regions].
    + unfold adjusted. cbn. csplit; try done. intros _. rewrite u32_add_l. f_equal. lia.
    + rewrite Ht. by apply good_cut.
    + rewrite Ht, !sum_app. cbn. lia.
    + intros a. rewrite Ht, !lookup_app.
      rewrite <- (lookup_glue (lower r x) (upper r x)), <- (cut_glue r x); cbn; done || lia.
  - unfold t1. cbn. by rewrite Hup.
  - unfold t1, cnt in *. cbn. rewrite Ht in Hlt. rewrite length_app in *. cbn in *. lia.
Qed.

(** The regions below, inside and above the range. *)
Record isolated (base end_ : Z) (t : memblock_type) (A B C : list memblock_region)
    (start_rgn end_rgn : nat) : Prop := {
  iso_regions : regions t = A ++ B ++ C;
  iso_below r : r ∈ A -> r_base r + r_size r <= base;
  iso_inside r : r ∈ B -> base <= r_base r /\ r_base r + r_size r <= end_;
  iso_index : (B = [] /\ start_rgn = 0%nat /\ end_rgn = 0%nat) \/
              (B <> [] /\ start_rgn = length A /\ end_rgn = (length A + length B)%nat);
}.

Section isolate.
Context (base end_ : Z) (Hlt : base < end_).

(** The loop with the regions of [C] to go; [bl] and [br] say that one of
    them may still straddle the start or the end of the range. *)
Record iso_state (t : memblock_type) (A B C : list memblock_region) (bl br : bool) (s e : nat) : Prop := {
  is_iso : isolated base end_ t A B C s e;
  is_good : good (regions t);
  is_left r : bl = false -> r ∈ C -> base <= r_base r;
  is_right r : br = false -> r ∈ C -> r_base r + r_size r <= end_ \/ end_ <= r_base r;
}.

Definition iso_result (t : memblock_type) (n : Z) (res : outcome (memblock_type * nat * nat)) : Prop :=
  exists t' A B C s e, res = Ok (t', s, e) /\ recut t t' /\ isolated base end_ t' A B C s e /\
    (forall r, r ∈ C -> end_ <= r_base r) /\ cnt t' <= cnt t + n.

Lemma iso_result_recut t t2 n res :
  recut t t2 -> cnt t2 = cnt t + 1 -> iso_result t2 n res -> iso_result t (1 + n) res.
Proof.
  intros Hrc Hc (t' & A & B & C & s & e & E & Hrc' & HI & HC & Hn).
  exists t', A, B, C, s, e. csplit; [done|by eapply recut_trans|done|done|lia].
Qed.

Lemma iso_rest t A B r C bl br s e :
  iso_state t A B (r :: C) bl br s e ->
  regions t = (A ++ B) ++ r :: C /\ good (r :: C) /\ region_ok r /\
  (forall u, u ∈ C -> r_base r + r_size r <= r_base u) /\
  (r_base r < base \/ r_base r + r_size r <= base -> B = []).
Proof.
  intros [[Ht HA HB _] Hg _ _]. rewrite app_assoc in Ht. rewrite Ht in Hg.
  apply good_app in Hg as (Hgb & Hgr & Hbb). pose proof Hgr as (Hr & Hb & _)%good_cons.
  rewrite Forall_forall in Hb. csplit; [done..|].
  intros Hc. destruct B as [|b B]; [done|exfalso]. destruct (HB b ltac:(left)).
  assert (Hb' : b ∈ A ++ b :: B) by set_solver. specialize (Hbb b r Hb' ltac:(left)).
  destruct (good_ok _ _ Hgb Hb'), Hr. unfold before in Hbb. lia.
Qed.

Lemma iso_skip t A r C bl br s e :
  iso_state t A [] (r :: C) bl br s e -> r_base r + r_size r <= base ->
  iso_state t (A ++ [r]) [] C bl br s e.
Proof.
  intros [[Ht HA HB Hidx] Hg Hl Hr] Hle. split; [split|done| |].
  - by rewrite Ht, <- app_assoc.
  - intros u [Hu| ->%list_elem_of_singleton]%elem_of_app; [by apply HA|done].
  - done.
  - left. destruct Hidx as [?|[]]; [done|congruence].
  - intros u E Hu. apply Hl; [done|by right].
  - intros u E Hu. apply Hr; [done|by right].
Qed.

Lemma iso_cut_start t t2 A r C br s e :
  iso_state t A [] (r :: C) true br s e -> r_base r < base < r_base r + r_size r ->
  recut t t2 -> regions t2 = A ++ lower r base :: upper r base :: C ->
  iso_state t2 (A ++ [lower r base]) [] (upper r base :: C) false br s e.
Proof.
  intros HS Hx Hrc R2. destruct (iso_rest _ _ _ _ _ _ _ _ _ HS) as (_ & _ & _ & Hb & _).
  destruct HS as [[Ht HA HB Hidx] Hg Hl Hr]. split; [split|by apply (rc_good _ _ Hrc)| |].
  - by rewrite R2, <- app_assoc.
  - intros u [Hu| ->%list_elem_of_singleton]%elem_of_app; [by apply HA|cbn; lia].
  - done.
  - left. destruct Hidx as [?|[]]; [done|congruence].
  - intros u _ [->|Hu]%elem_of_cons; [cbn; lia|]. specialize (Hb u Hu). lia.
  - intros u E [->|Hu]%elem_of_cons; [|apply Hr; [done|by right]].
    destruct (Hr r E ltac:(left)); cbn; lia.
Qed.

Lemma iso_cut_end t t2 A B r C bl s e :
  iso_state t A B (r :: C) bl true s e -> base <= r_base r -> r_base r < end_ < r_base r + r_size r ->
  recut t t2 -> regions t2 = (A ++ B) ++ lower r end_ :: upper r end_ :: C ->
  iso_state t2 A B (lower r end_ :: upper r end_ :: C) bl false s e.
Proof.
  intros HS Hle Hx Hrc R2. destruct (iso_rest _ _ _ _ _ _ _ _ _ HS) as (_ & _ & _ & Hb & _).
  destruct HS as [[Ht HA HB Hidx] Hg Hl Hr]. split; [split|by apply (rc_good _ _ Hrc)| |]; try done.
  - by rewrite R2, <- app_assoc.
  - intros u E. rewrite !elem_of_cons. intros [->|[->|Hu]]; cbn; [lia|lia|]. apply Hl; [done|by right].
  - intros u _. rewrite !elem_of_cons. intros [->|[->|Hu]]; cbn; [lia|lia|]. specialize (Hb u Hu). lia.
Qed.

Lemma iso_take t A B r C bl br s e :
  iso_state t A B (r :: C) bl br s e -> base <= r_base r -> r_base r + r_size r <= end_ ->
  iso_state t A (B ++ [r]) C bl br (if (e =? 0)%nat then length (A ++ B) else s) (S (length (A ++ B))).
Proof.
  intros [[Ht HA HB Hidx] Hg Hl Hr] Hle Hle'. split; [split|done| |].
  - by rewrite Ht, <- !app_assoc.
  - done.
  - intros u [Hu| ->%list_elem_of_singleton]%elem_of_app; [by apply HB|done].
  - right. rewrite length_snoc, length_app.
    destruct Hidx as [(-> & -> & ->)|(HBne & -> & ->)]; cbn.
    + csplit; [done|lia|lia].
    + csplit; [by destruct B| |lia]. destruct B; [done|].
      by rewrite (proj2 (Nat.eqb_neq _ _)) by (cbn; lia).
  - intros u E Hu. apply Hl; [done|by right].
  - intros u E Hu. apply Hr; [done|by right].
Qed.

Lemma isolate_loop_ok fuel t A B C bl br s e :
  iso_state t A B C bl br s e ->
  cnt t + Z.b2z bl + Z.b2z br <= max_regions t ->
  (length C + Nat.b2n bl + 2 * Nat.b2n br < fuel)%nat ->
  iso_result t (Z.b2z bl + Z.b2z br) (isolate_loop fuel t (length (A ++ B)) base end_ s e).
Proof.
  revert t A B C bl br s e. induction fuel as [|fuel IH]; intros t A B C bl br s e HS Hmax Hf; [lia|].
  cbn [isolate_loop]. pose proof (is_iso _ _ _ _ _ _ _ _ HS) as HI.
  assert (Hdone : (forall r, r ∈ C -> end_ <= r_base r) ->
                  iso_result t (Z.b2z bl + Z.b2z br) (Ok (t, s, e))).
  { intros HC. exists t, A, B, C, s, e. csplit; [done|apply recut_refl|done|done|lia_b2z]. }
  destruct C as [|r C].
  { rewrite (iso_regions _ _ _ _ _ _ _ _ HI), app_nil_r, lookup_end.
    apply Hdone. by intros ? ?%not_elem_of_nil. }
  destruct (iso_rest _ _ _ _ _ _ _ _ _ HS) as (Ht & Hgr & Hr & Hb & HBnil). pose proof Hr as (? & ? & ?).
  rewrite Ht, lookup_pre, <- Ht, (r_end_ok r Hr). cbn [length] in Hf. case_cmp.
  { apply Hdone. intros u Hu. pose proof (good_ge r C u Hgr Hu). lia. }
  case_cmp; [|case_cmp; [|case_cmp]].
  - specialize (HBnil ltac:(lia)). subst B. apply iso_skip in HS; [|lia].
    rewrite app_nil_r. rewrite <- (length_snoc A r), <- (app_nil_r (A ++ [r])).
    apply (IH t (A ++ [r]) [] C); [done..|lia].
  - specialize (HBnil ltac:(lia)). subst B. rewrite app_nil_r in *.
    destruct bl; [|pose proof (is_left _ _ _ _ _ _ _ _ HS r eq_refl ltac:(left)); lia].
    edestruct (cut_ok t A r C base) as (t2 & -> & Hrc & R2 & N2); [done|lia|done|destruct br; cbn in *; lia|].
    rewrite bind_Ok, <- (length_snoc A (lower r base)), <- (app_nil_r (A ++ [_])).
    apply (iso_result_recut t t2); [done..|]. change (Z.b2z br) with (Z.b2z false + Z.b2z br).
    apply (IH t2 _ [] (upper r base :: C)); [by apply (iso_cut_start t); [done|lia|..]| |cbn in *; lia].
    destruct Hrc as [(_ & _ & M & _) _ _ _]. cbn in *. lia.
  - destruct br; [|destruct (is_right _ _ _ _ _ _ _ _ HS r eq_refl ltac:(left)); lia].
    edestruct (cut_ok t (A ++ B) r C end_) as (t2 & -> & Hrc & R2 & N2); [done|lia|done|destruct bl; cbn in *; lia|].
    rewrite bind_Ok, Z.add_comm. apply (iso_result_recut t t2); [done..|].
    rewrite <- (Z.add_0_r (Z.b2z bl)). change 0 with (Z.b2z false).
    apply (IH t2 A B (lower r end_ :: upper r end_ :: C));
      [apply (iso_cut_end t); [done|lia|lia|..]; done| |cbn in *; lia].
    destruct Hrc as [(_ & _ & M & _) _ _ _]. cbn in *. lia.
  - apply iso_take in HS; [|lia|lia].
    assert (El : S (length (A ++ B)) = length (A ++ B ++ [r])) by (by rewrite app_assoc, length_snoc).
    rewrite El in *. apply (IH t A (B ++ [r]) C); [done|done|lia].
Qed.
End isolate.

(** A list without regions is kept as the one empty region. *)
Definition or_nothing (rs : list memblock_region) : list memblock_region :=
  match rs with [] => nothing | _ => rs end.

Lemma lookup_or_nothing rs a : lookup (or_nothing rs) a = lookup rs a.
Proof. destruct rs; [apply lookup_nothing|done]. Qed.

Lemma sum_or_nothing rs : sum (or_nothing rs) = sum rs.
Proof. by destruct rs. Qed.

Lemma remove_region_ok t pre r rs :
  regions t = pre ++ r :: rs ->
  adjusted t (memblock_remove_region t (length pre)) (or_nothing (pre ++ rs)) (- r_size r).
Proof.
  intros Ht. unfold memblock_remove_region. rewrite Ht, lookup_total_pre, take_pre, drop_S_pre.
  unfold adjusted. destruct (pre ++ rs); by csplit.
Qed.

Lemma remove_loop_ok t A B C :
  regions t = A ++ B ++ C -> B <> [] ->
  adjusted t (remove_loop (length B) t (length A)) (or_nothing (A ++ C)) (- sum B).
Proof.
  revert t C. induction B as [|b B IH] using rev_ind; intros t C Ht Hne; [done|].
  rewrite length_snoc. cbn [remove_loop]. rewrite <- length_app.
  assert (Ht' : regions t = (A ++ B) ++ b :: C) by (by rewrite Ht, <- !app_assoc).
  pose proof (remove_region_ok t (A ++ B) b C Ht') as Hr.
  destruct B as [|b' B].
  - cbn [length remove_loop]. rewrite app_nil_r in *. cbn. by rewrite Z.add_0_r.
  - eapply adjusted_trans; [exact Hr|apply (IH _ C)|]; [|done|rewrite sum_app; cbn; lia].
    destruct Hr as (-> & _). rewrite <- app_assoc. by destruct A.
Qed.

(** ** Counting gaps *)

(** The number of gaps depends on the addresses of the range only. *)
Lemma gaps_step end_ rs base :
  good rs -> base < end_ ->
  gaps end_ rs base = Z.b2z (bool_decide (lookup rs base = None /\
    (base + 1 = end_ \/ lookup rs (base + 1) <> None))) + gaps end_ rs (base + 1).
Proof.
  intros Hg Hlt. induction rs as [|r rs IH].
  { cbn [gaps lookup]. destruct (decide (base + 1 = end_)).
    - rewrite bool_decide_true by auto. lia_b2z.
    - rewrite bool_decide_false by tauto. lia_b2z. }
  pose proof Hg as ((? & ? & ?) & Hb & Hg')%good_cons. specialize (IH Hg').
  assert (Hlow : forall a, a < r_base r -> lookup (r :: rs) a = None).
  { intros a Ha. apply lookup_None. intros s Hs Hc. pose proof (good_ge _ _ s Hg Hs).
    unfold rcovers in Hc. lia. }
  cbn [gaps]. destruct (Z.geb_spec (r_base r) end_).
  { rewrite (Hlow base) by lia. destruct (decide (base + 1 = end_)).
    - rewrite bool_decide_true by auto. lia_b2z.
    - rewrite (Hlow (base + 1)), bool_decide_false by (lia || tauto). lia_b2z. }
  assert (Hhigh : forall a, r_base r + r_size r <= a -> lookup (r :: rs) a = lookup rs a).
  { intros a Ha. cbn. by rewrite decide_False by (unfold rcovers; lia). }
  assert (Hin : forall a, rcovers r a -> lookup (r :: rs) a = Some (r_flags r)).
  { intros a Ha. cbn. by rewrite decide_True. }
  unfold rcovers in Hin. destruct (Z.leb_spec (r_base r + r_size r) base).
  { rewrite (proj2 (Z.leb_le _ (base + 1))), !Hhigh by lia. exact IH. }
  destruct (Z.ltb_spec base (r_base r)).
  - rewrite (proj2 (Z.leb_gt _ (base + 1))), (Hlow base) by lia.
    destruct (decide (base + 1 = r_base r)).
    + rewrite (Hin (base + 1)), bool_decide_true by (lia || auto). lia_b2z.
    + rewrite (Hlow (base + 1)), bool_decide_false by (lia || intuition lia). lia_b2z.
  - rewrite (Hin base), bool_decide_false by (lia || naive_solver). cbn [Z.b2z].
    destruct (Z.leb_spec (r_base r + r_size r) (base + 1)).
    + replace (Z.min (r_base r + r_size r) end_) with (base + 1) by lia. done.
    + rewrite (proj2 (Z.ltb_ge (base + 1) _)) by lia. done.
Qed.

Lemma gaps_empty end_ rs base : good rs -> end_ <= base -> gaps end_ rs base = 0.
Proof.
  intros Hg. revert base. induction rs as [|r rs IH]; intros base Hle; cbn [gaps]; [lia_b2z|].
  apply good_cons in Hg as ((? & ? & ?) & _ & Hg). specialize (IH Hg).
  case_cmp; [lia_b2z|]. case_cmp; [by apply IH|]. rewrite IH by lia. lia_b2z.
Qed.

Lemma gaps_ext end_ rs rs' base :
  good rs -> good rs' -> (forall a, base <= a < end_ -> lookup rs a = lookup rs' a) ->
  gaps end_ rs base = gaps end_ rs' base.
Proof.
  intros Hg Hg'. remember (Z.to_nat (end_ - base)) as n eqn:Hn. revert base Hn.
  induction n as [|n IH]; intros base Hn Heq; [by rewrite !gaps_empty by (done || lia)|].
  rewrite !(gaps_step end_ _ base) by (done || lia).
  rewrite (IH (base + 1)) by (lia || intros; apply Heq; lia).
  f_equal. f_equal. apply bool_decide_ext. rewrite (Heq base) by lia.
  destruct (decide (base + 1 = end_)); [tauto|]. by rewrite (Heq (base + 1)) by lia.
Qed.

(** ** When the array is full

    The operations on a list first make room in its array. What they rely on
    is stated here; [MemblockGrow] proves it of [memblock_double_array]. *)

Record all_wf (mb : memblock) : Prop := {
  aw_memory : wf (memory mb);
  aw_reserved : wf (reserved mb);
  aw_limit : 0 <= current_limit mb <= PHYS_ADDR_MAX;
}.

(** What making room for the range [s, s + n) leaves: the array of reserved
    regions is itself reserved memory, so that list may change, but not inside
    the range. *)
Record grown (w : which) (s n : Z) (mb mb' : memblock) : Prop := {
  gr_wf : all_wf mb';
  gr_same a : s <= a < s + n ->
    lookup (regions (get_type w mb')) a = lookup (regions (get_type w mb)) a;
  gr_good : good (regions (get_type w mb)) -> good (regions (get_type w mb'));
  gr_memory : regions (memory mb') = regions (memory mb);
}.

Lemma grown_refl w s n mb : all_wf mb -> grown w s n mb mb.
Proof. by split. Qed.

(** [G] is what else is known of the result of making room and of the state
    after it. *)
Definition can_grow (dbl : doubler) (G : Z -> memblock -> Prop) (w : which) (s n extra : Z)
    (mb : memblock) : Prop :=
  exists ret mb', grow_loop dbl grow_fuel w extra s n mb = Ok (ret, mb') /\ grown w s n mb mb' /\ G ret mb' /\
    ((ret = 0 /\ cnt (get_type w mb') + extra <= max_regions (get_type w mb') /\
      (cnt (get_type w mb) + extra <= max_regions (get_type w mb) -> mb' = mb)) \/
     (ret = - ENOMEM /\ max_regions (get_type w mb) < cnt (get_type w mb) + extra /\
      max_regions (get_type w mb') < cnt (get_type w mb') + extra)).

(** Nothing is asked of the doubling function when there is room already. *)
Lemma can_grow_room dbl (G : Z -> memblock -> Prop) w s n extra mb :
  all_wf mb -> G 0 mb -> cnt (get_type w mb) + extra <= max_regions (get_type w mb) ->
  can_grow dbl G w s n extra mb.
Proof.
  intros Hwf HG Hroom. exists 0, mb. unfold grow_fuel. cbn [grow_loop].
  rewrite Z.gtb_ltb, (proj2 (Z.ltb_ge _ _)) by lia.
  csplit; [done|by apply grown_refl|done|left]. by csplit.
Qed.

Lemma wf_of w mb : all_wf mb -> wf (get_type w mb).
Proof. intros [? ? _]. by destruct w. Qed.

Lemma wf_cnt t : wf t -> 1 <= cnt t.
Proof.
  intros [Hr _ _]. unfold cnt. destruct Hr as [->|[Hne _]]; [done|].
  destruct (regions t); [done|]. cbn. lia.
Qed.

(** A range without regions is one gap. *)
Lemma gaps_free t base end_ :
  wf t -> 0 <= base < end_ -> (forall a, base <= a < end_ -> lookup (regions t) a = None) ->
  gaps end_ (regions t) base = 1.
Proof.
  intros Hwf Hlt Hno. destruct (wf_regions _ Hwf) as [->|[_ Hg]].
  - cbn. rewrite Z.geb_leb, (proj2 (Z.leb_gt _ _)), (proj2 (Z.leb_le _ _)) by lia. cbn. lia_b2z.
  - rewrite (gaps_ext end_ (regions t) [] base Hg good_nil Hno). cbn. lia_b2z.
Qed.

(** ** The operations on the whole state *)

Lemma get_set_same w t mb : get_type w (set_type w t mb) = t.
Proof. by destruct w. Qed.

Lemma all_wf_set w t mb : all_wf mb -> wf t -> all_wf (set_type w t mb).
Proof. intros [? ? ?] ?. by destruct w; split. Qed.

Lemma wf_good t : wf t -> regions t <> nothing -> good (regions t).
Proof. intros [[?|[_ ?]] _ _] ?; done. Qed.

Lemma wf_nonempty t : wf t -> regions t <> [].
Proof. intros [[->|[? _]] _ _]; done. Qed.

(** The code tells an empty list by the size of its first region. *)
Lemma wf_first t : wf t -> r_size (regions t !!! 0%nat) = 0 <-> regions t = nothing.
Proof.
  intros [[->|[Hne Hg]] _ _]; [done|]. destruct (regions t) as [|r rs]; [done|]. cbn.
  apply good_cons in Hg as ((_ & ? & _) & _). split; [lia|]. intros [= -> ->]. done.
Qed.

Lemma sum_nonneg t : wf t -> 0 <= sum (regions t) < 2 ^ 32.
Proof. intros [[->|[_ Hg]] _ _]; [done|by apply sum_small]. Qed.

Lemma total_u32 t : wf t -> total_ok t -> total_size t = u32 (total_size t).
Proof. intros H Ht. pose proof (sum_nonneg t H). rewrite Ht. by rewrite u32_small. Qed.

(** Replacing the regions of a list by a good list that fits. *)
Lemma adjusted_wf t t' rs :
  wf t -> adjusted t t' (or_nothing rs) (sum rs - sum (regions t)) -> good rs ->
  Z.of_nat (length rs) <= max_regions t -> wf t' /\ (total_ok t -> total_ok t').
Proof.
  intros Hwf (E & Et & Em & _) Hg Hl. pose proof (wf_max2 _ Hwf). split.
  - split; rewrite ?E, ?Em; try done.
    + destruct rs; [by left|by right].
    + unfold cnt. rewrite E. destruct rs; [cbn; lia|done].
  - intros Ht. pose proof (sum_small rs Hg). specialize (Et (total_u32 t Hwf Ht)).
    unfold total_ok in *. by rewrite Ht, Zplus_minus, u32_small, E, sum_or_nothing in * by lia.
Qed.

Lemma gaps_le end_ rs base : gaps end_ rs base <= Z.of_nat (length rs) + 1.
Proof.
  revert base. induction rs as [|r rs IH]; intros base; cbn [gaps length]; [lia_b2z|].
  case_cmp; [lia_b2z|]. case_cmp; [specialize (IH base); lia|].
  specialize (IH (Z.min (r_base r + r_size r) end_)). lia_b2z.
Qed.

Lemma fill_id end_ flags rs base : gaps end_ rs base = 0 -> fill end_ flags rs base = rs.
Proof.
  revert base. induction rs as [|r rs IH]; intros base; cbn [gaps fill]; unfold gap.
  { by destruct (base <? end_). }
  case_cmp; [by destruct (base <? end_)|]. case_cmp; [by intros ->%IH|].
  pose proof (gaps_nonneg end_ rs (Z.min (r_base r + r_size r) end_)).
  destruct (base <? r_base r); cbn [Z.b2z]; [lia|]. by intros ->%IH.
Qed.

(** The second pass and the merge. *)
Lemma type_add_ok t base end_ nid flags :
  wf t -> good (regions t) -> 0 <= base -> end_ <= PHYS_ADDR_MAX ->
  cnt t + gaps end_ (regions t) base <= max_regions t ->
  exists t1 t', add_pass true t base end_ nid flags = Ok (t1, gaps end_ (regions t) base) /\
    memblock_merge_regions t1 = Ok t' /\ (wf t' /\ (total_ok t -> total_ok t')) /\ merged (regions t') /\
    cnt t' <= cnt t + gaps end_ (regions t) base /\
    max_regions t' = max_regions t /\ array t' = array t /\
    (forall a, lookup (regions t') a = union_range end_ flags (lookup (regions t) a) base a).
Proof.
  intros Hwf Hg H0 Hend Hmax.
  destruct (add_pass_insert t base end_ nid flags) as (t1 & E1 & Ha1); [done..|].
  pose proof (fill_good end_ flags _ base Hg H0 Hend) as Hgf.
  pose proof (fill_length end_ flags (regions t) base) as Hlen.
  pose proof (gaps_nonneg end_ (regions t) base) as Hgn. pose proof (wf_cnt t Hwf). unfold cnt in *.
  set (fs := fill end_ flags (regions t) base) in *.
  assert (Hne : fs <> []) by (intros ->; cbn in Hlen; lia).
  destruct (merge_regions_ok t1) as (ms & E2 & Hms & Hm); [by destruct Ha1 as (-> & _)..|].
  pose proof Ha1 as (R1 & _ & M1 & _). rewrite R1 in Hm. destruct Hm as (Gm & Mm & Sm & Lm & Km).
  pose proof Ha1 as (_ & _ & _ & A1).
  exists t1, (with_regions ms (total_size t1) t1).
  destruct (adjusted_wf t (with_regions ms (total_size t1) t1) ms) as [Hw Ht]; [done| |done|lia|].
  { replace (or_nothing ms) with ms by (by destruct ms).
    destruct Ha1 as (_ & Ht & _ & _). unfold adjusted. cbn. rewrite Sm. by csplit. }
  csplit; [done|done|done|done|done|cbn; lia|done|done|].
  intros a. cbn. rewrite Km. by apply fill_lookup.
Qed.

Lemma cap_size_small base size :
  0 <= base <= PHYS_ADDR_MAX -> memblock_cap_size base size = Z.min size (PHYS_ADDR_MAX - base).
Proof. intros H. unfold memblock_cap_size, PHYS_ADDR_MAX in *. by rewrite u32_small by lia. Qed.

(** The first region of a list that had none. *)
Lemma type_first_ok t base size flags :
  wf t -> regions t = nothing -> 0 <= base -> 0 < size -> base + size <= PHYS_ADDR_MAX ->
  wf (with_regions (<[0%nat := Region base size flags]> (regions t)) size t).
Proof.
  intros Hwf E H0 Hs Hle. pose proof (wf_max2 _ Hwf). rewrite E.
  split; unfold cnt; cbn; [right; split; [done|]|lia|done].
  apply good_cons. csplit; [by unfold region_ok|constructor|apply good_nil].
Qed.

(** What [memblock_add_range] returns. [mb1] is the state with a larger
    array, if one was needed. *)
Definition added (w : which) (base end_ flags : Z) (mb1 mb' : memblock) : Prop :=
  all_wf mb' /\ (total_ok (get_type w mb1) -> total_ok (get_type w mb')) /\
  (merged (regions (get_type w mb1)) -> merged (regions (get_type w mb'))) /\
  (exists t, mb' = set_type w t mb1) /\
  cnt (get_type w mb') <= cnt (get_type w mb1) + gaps end_ (regions (get_type w mb1)) base /\
  max_regions (get_type w mb') = max_regions (get_type w mb1) /\
  array (get_type w mb') = array (get_type w mb1) /\
  (forall a, lookup (regions (get_type w mb')) a =
             union_range end_ flags (lookup (regions (get_type w mb1)) a) base a).

Lemma added_same w base end_ flags mb :
  all_wf mb ->
  (forall a, lookup (regions (get_type w mb)) a =
             union_range end_ flags (lookup (regions (get_type w mb)) a) base a) ->
  added w base end_ flags mb mb.
Proof.
  intros Hwf H. unfold added. pose proof (gaps_nonneg end_ (regions (get_type w mb)) base).
  csplit; [done|done|done| |lia|done..]. exists (get_type w mb). by destruct mb, w.
Qed.

Lemma add_range_ok dbl (G : Z -> memblock -> Prop) w base size nid flags mb :
  all_wf mb -> G 0 mb -> 0 <= base <= PHYS_ADDR_MAX -> 0 <= size ->
  can_grow dbl G w base (memblock_cap_size base size)
    (gaps (base + memblock_cap_size base size) (regions (get_type w mb)) base) mb ->
  exists ret mb1 mb', memblock_add_range dbl w base size nid flags mb = Ok (ret, mb') /\
    grown w base (memblock_cap_size base size) mb mb1 /\ G ret mb1 /\
    ((ret = 0 /\ added w base (base + memblock_cap_size base size) flags mb1 mb' /\
      (cnt (get_type w mb) + gaps (base + memblock_cap_size base size) (regions (get_type w mb)) base
         <= max_regions (get_type w mb) -> mb1 = mb)) \/
     (ret = - ENOMEM /\ mb' = mb1 /\ max_regions (get_type w mb) <
        cnt (get_type w mb) + gaps (base + memblock_cap_size base size) (regions (get_type w mb)) base /\
      max_regions (get_type w mb1) <
        cnt (get_type w mb1) + gaps (base + memblock_cap_size base size) (regions (get_type w mb1)) base)).
Proof.
  intros Hwf HG Hb Hs Hgrow. unfold memblock_add_range. pose proof (wf_of w mb Hwf) as Hwt.
  rewrite cap_size_small in * by done. set (n := Z.min size (PHYS_ADDR_MAX - base)) in *.
  assert (Hn : 0 <= n /\ base + n <= PHYS_ADDR_MAX) by (unfold n; lia). clearbody n.
  assert (Hr : grown w base n mb mb) by by apply grown_refl.
  unfold PHYS_ADDR_MAX in Hn. rewrite (u32_small (base + n)) by lia.
  destruct (Z.eqb_spec n 0) as [Hn0|Hn0].
  { exists 0, mb, mb. csplit; [done..|]. left. csplit; [done| |done]. apply added_same; [done|].
    intros a. unfold union_range. destruct (lookup _ _); [done|]. by rewrite decide_False by lia. }
  destruct (Z.eqb_spec (r_size (regions (get_type w mb) !!! 0%nat)) 0) as [H0|H0].
  { pose proof (proj1 (wf_first _ Hwt) H0) as E. exists 0, mb, (set_type w (with_regions (<[0%nat := Region base n flags]> (regions (get_type w mb))) n (get_type w mb)) mb).
    csplit; [done..|]. left. unfold added. rewrite !get_set_same.
    pose proof (gaps_nonneg (base + n) (regions (get_type w mb)) base).
    csplit; [done| | | |by eauto|unfold cnt; cbn; rewrite length_insert; lia|done|done| |done].
    - apply all_wf_set; [done|]. apply type_first_ok; unfold PHYS_ADDR_MAX; done || lia.
    - intros _. unfold total_ok. rewrite E. cbn. lia.
    - intros _. by rewrite E.
    - intros a. rewrite E, lookup_nothing. cbn. unfold rcovers. cbn. done. }
  assert (Hg : good (regions (get_type w mb))) by (apply wf_good; [done|]; by rewrite <- wf_first).
  rewrite add_pass_count, bind_Ok by done. cbn beta iota.
  set (g := gaps (base + n) (regions (get_type w mb)) base) in *.
  destruct (Z.eqb_spec g 0) as [Hg0|Hg0].
  { exists 0, mb, mb. csplit; [done..|]. left. csplit; [done| |done]. apply added_same; [done|].
    intros a. rewrite <- fill_lookup by done. by rewrite fill_id. }
  destruct Hgrow as (ret & mb1 & -> & Hgr & HG1 & Hret).
  pose proof Hgr as [Hwf1 Hsame Hgood _]. specialize (Hgood Hg).
  assert (Eg : gaps (base + n) (regions (get_type w mb1)) base = g) by (by apply gaps_ext).
  rewrite bind_Ok. cbn beta iota. destruct Hret as [(-> & Hroom & Hkeep)|(-> & Hfull & Hfull1)].
  2:{ exists (- ENOMEM), mb1, mb1. csplit; [done..|]. right. by rewrite Eg. }
  destruct (type_add_ok (get_type w mb1) base (base + n) nid flags)
    as (t1 & t' & E1 & E2 & [Hw' Ht'] & Hm' & Hc' & Hx' & Ha' & Hl');
    [by apply wf_of|done|lia|unfold PHYS_ADDR_MAX; lia|by rewrite Eg|].
  cbn [Z.ltb Z.compare]. rewrite E1, bind_Ok. cbn beta iota. rewrite Eg.
  rewrite (proj2 (Z.eqb_neq g 0)), E2, bind_Ok by done.
  exists 0, mb1, (set_type w t' mb1). csplit; [done..|]. left.
  unfold added. rewrite get_set_same. csplit; eauto using all_wf_set.
Qed.

(** Deletion of a range of keys. *)
Definition delete_range (old : option Z) (base end_ a : Z) : option Z :=
  if decide (base <= a < end_) then None else old.

Lemma lookup_isolated A B C base end_ a :
  (forall r, r ∈ A -> r_base r + r_size r <= base) ->
  (forall r, r ∈ B -> base <= r_base r /\ r_base r + r_size r <= end_) ->
  (forall r, r ∈ C -> end_ <= r_base r) -> base < end_ ->
  lookup (A ++ C) a = delete_range (lookup (A ++ B ++ C) a) base end_ a.
Proof.
  intros HA HB HC Hlt. unfold delete_range. rewrite !lookup_app. destruct (decide (base <= a < end_)).
  - replace (lookup A a) with (@None Z); [|symmetry; apply lookup_None; intros r Hr Hc;
      specialize (HA r Hr); unfold rcovers in Hc; lia].
    apply lookup_None. intros r Hr Hc. specialize (HC r Hr). unfold rcovers in Hc. lia.
  - destruct (lookup A a); [done|]. replace (lookup B a) with (@None Z); [done|].
    symmetry. apply lookup_None. intros r Hr Hc. specialize (HB r Hr). unfold rcovers in Hc. lia.
Qed.

Lemma type_remove_nothing t base end_ :
  regions t = nothing -> 0 <= base < end_ ->
  isolate_loop (length (regions t) + 4) t 0 base end_ 0 0 = Ok (t, 0%nat, 0%nat).
Proof.
  intros E Hlt. rewrite E. change (length nothing + 4)%nat with (S (S 3)). generalize 3%nat as n. intros n.
  cbn [isolate_loop]. rewrite E. change (nothing !! 0%nat) with (Some (Region 0 0 0)).
  change (nothing !! 1%nat) with (@None memblock_region). cbn beta iota.
  change (r_end (Region 0 0 0)) with 0. change (r_base (Region 0 0 0)) with 0.
  rewrite Z.geb_leb, (proj2 (Z.leb_gt _ _)), (proj2 (Z.leb_le _ _)) by lia. done.
Qed.

Lemma type_remove_ok t base end_ :
  wf t -> 0 <= base < end_ -> cnt t + 2 <= max_regions t ->
  exists t1 s e, isolate_loop (length (regions t) + 4) t 0 base end_ 0 0 = Ok (t1, s, e) /\
    let t' := remove_loop (e - s) t1 s in
    (wf t' /\ (total_ok t -> total_ok t')) /\ cnt t' <= cnt t + 2 /\ max_regions t' = max_regions t /\ array t' = array t /\
    (forall a, lookup (regions t') a = delete_range (lookup (regions t) a) base end_ a).
Proof.
  intros Hwf Hlt Hmax. destruct (wf_regions _ Hwf) as [E|[Hne Hg]].
  { exists t, 0%nat, 0%nat. split; [by apply type_remove_nothing; [|lia]|]. cbn. csplit; try done || lia.
    intros a. rewrite E, lookup_nothing. unfold delete_range. by destruct (decide _). }
  destruct (isolate_loop_ok base end_ ltac:(lia) (length (regions t) + 4) t [] [] (regions t) true true 0 0)
    as (t1 & A & B & C & s & e & E & Hrc & [R1 HA HB Hidx] & HC & Hcnt); [|cbn; lia|cbn; lia|].
  { split; [split|done|done|done]; try done; [by intros ? ?%not_elem_of_nil..|by left]. }
  exists t1, s, e. split; [done|]. cbn zeta.
  pose proof (rc_good _ _ Hrc Hg) as Hg1. pose proof (rc_adjusted _ _ Hrc) as Ha1.
  assert (Hadj : adjusted t1 (remove_loop (e - s) t1 s) (or_nothing (A ++ C)) (- sum B)).
  { destruct Hidx as [(-> & -> & ->)|(HB0 & -> & ->)].
    - cbn. cbn in R1. rewrite <- R1. replace (or_nothing (regions t1)) with (regions t1);
        [by apply adjusted_refl|]. destruct (regions t1) eqn:Er; [|done].
      exfalso. apply Hne. pose proof (rc_sum _ _ Hrc) as Hs. rewrite Er in Hs. cbn in Hs.
      destruct (regions t) as [|r rs]; [done|]. cbn in Hs.
      pose proof Hg as ((_ & ? & _) & _ & Hg')%good_cons. pose proof (sum_small rs Hg'). lia.
    - rewrite Nat.add_comm, Nat.add_sub. by apply remove_loop_ok. }
  rewrite R1 in Hg1. apply good_app in Hg1 as (HgA & HgBC & Hb1).
  apply good_app in HgBC as (HgB & HgC & Hb2).
  assert (HgAC : good (A ++ C)) by (apply good_app; csplit; [done..|]; intros; apply Hb1; set_solver).
  assert (Hlen : Z.of_nat (length (A ++ C)) <= cnt t + 2).
  { unfold cnt in *. rewrite R1 in Hcnt. rewrite !length_app in *. cbn in Hcnt. lia. }
  pose proof (adjusted_trans _ _ _ _ _ _ _ (sum (A ++ C) - sum (regions t)) Ha1 Hadj) as Ha.
  destruct Ha as (R' & T' & M' & A').
  { rewrite <- (rc_sum _ _ Hrc), R1, !sum_app. lia. }
  split; [eapply (adjusted_wf t _ (A ++ C)); [done|by unfold adjusted; csplit|done|lia]|].
  csplit; [unfold cnt at 1; rewrite R'; destruct (A ++ C); [pose proof (wf_cnt t Hwf); cbn; lia|exact Hlen]|done|done|].
  intros a. rewrite R', lookup_or_nothing, (lookup_isolated A B C base end_) by (done || lia).
  by rewrite <- R1, (rc_lookup _ _ Hrc).
Qed.

Definition deleted (w : which) (base end_ : Z) (mb1 mb' : memblock) : Prop :=
  all_wf mb' /\ (total_ok (get_type w mb1) -> total_ok (get_type w mb')) /\
  (exists t, mb' = set_type w t mb1) /\
  cnt (get_type w mb') <= cnt (get_type w mb1) + 2 /\
  max_regions (get_type w mb') = max_regions (get_type w mb1) /\
  array (get_type w mb') = array (get_type w mb1) /\
  (forall a, lookup (regions (get_type w mb')) a =
             delete_range (lookup (regions (get_type w mb1)) a) base end_ a).

Lemma remove_range_ok dbl (G : Z -> memblock -> Prop) w base size mb :
  all_wf mb -> G 0 mb -> 0 <= base <= PHYS_ADDR_MAX -> 0 <= size ->
  can_grow dbl G w base (memblock_cap_size base size) 2 mb ->
  exists ret mb1 mb', memblock_remove_range dbl w base size mb = Ok (ret, mb') /\
    grown w base (memblock_cap_size base size) mb mb1 /\ G ret mb1 /\
    ((ret = 0 /\ deleted w base (base + memblock_cap_size base size) mb1 mb' /\
      (cnt (get_type w mb) + 2 <= max_regions (get_type w mb) -> mb1 = mb)) \/
     (ret = - ENOMEM /\ mb' = mb1 /\ max_regions (get_type w mb) < cnt (get_type w mb) + 2 /\
      max_regions (get_type w mb1) < cnt (get_type w mb1) + 2)).
Proof.
  intros Hwf HG Hb Hs Hgrow. unfold memblock_remove_range, memblock_isolate_range.
  rewrite cap_size_small in * by done. set (n := Z.min size (PHYS_ADDR_MAX - base)) in *.
  assert (Hn : 0 <= n /\ base + n <= PHYS_ADDR_MAX) by (unfold n; lia). clearbody n.
  unfold PHYS_ADDR_MAX in Hn. rewrite (u32_small (base + n)) by lia.
  destruct (Z.eqb_spec n 0) as [->|Hn0].
  { exists 0, mb, mb. rewrite bind_Ok. cbn. csplit; [by destruct mb, w|by apply grown_refl|done|left].
    csplit; [done| |done]. unfold deleted. csplit; try done; [exists (get_type w mb); by destruct mb, w|lia|].
    intros a. unfold delete_range. by rewrite decide_False by lia. }
  destruct Hgrow as (ret & mb1 & -> & Hgr & HG1 & Hret).
  rewrite bind_Ok. cbn beta iota. destruct Hret as [(-> & Hroom & Hkeep)|(-> & Hfull & Hfull1)].
  2:{ exists (- ENOMEM), mb1, mb1. csplit; [done..|]. by right. }
  cbn [Z.ltb Z.compare]. pose proof (gr_wf _ _ _ _ _ Hgr) as Hwf1.
  destruct (type_remove_ok (get_type w mb1) base (base + n)) as (t1 & s & e & -> & Ht');
    [by apply wf_of|lia|done|]. cbn zeta in Ht'.
  rewrite !bind_Ok. cbn beta iota. cbn [Z.eqb negb]. rewrite get_set_same.
  exists 0, mb1. eexists. csplit; [reflexivity|done|done|]. left. csplit; [done| |done].
  destruct Ht' as ([Hw' Ht'] & Hc' & Hm' & Ha' & Hl').
  unfold deleted. rewrite get_set_same. csplit; try done.
  - assert (forall u v, set_type w u (set_type w v mb1) = set_type w u mb1) as -> by (by destruct w).
    by apply all_wf_set.
  - eexists. by destruct w.
Qed.
