(* ===== verification/MemblockFree.v ===== *)
(** * mm/memblock.c: the free ranges and the allocator

    [__next_mem_range] walks two sorted lists at once, memory and the gaps
    between the reserved regions, keeping one index into each packed in a
    64-bit cursor. The walk visits exactly the free addresses, in order, and
    terminates; the searches for a free area are sound and complete with
    respect to it; and doubling the array of a list meets the interface
    [DoublerOk] that [MemblockRegions] relies on. *)

From S2P Require Import Prelude Memblock MemblockRegions.

(** ** The cursor *)

(** The walk backwards ends with [idx_a] at [-1]. *)
Lemma pack_unpack a b :
  -1 <= a < 2 ^ 31 -> 0 <= b < 2 ^ 31 ->
  idx_a_of (pack_idx a b) = a /\ idx_b_of (pack_idx a b) = b /\ pack_idx a b <> ULLONG_MAX.
Proof.
  intros Ha Hb. pose proof (u32_range a) as Hr. unfold pack_idx.
  rewrite (u64_small b), Z.shiftl_mul_pow2, u64_small, lor_disjoint by lia.
  unfold idx_a_of, idx_b_of, ULLONG_MAX.
  change 0xffffffff with (Z.ones 32). rewrite Z.land_ones, Z.mod_add, Z.mod_small by lia.
  rewrite Z.shiftr_div_pow2, Z.div_add, Z.div_small by lia. cbn [Z.add].
  rewrite s32_u32 by lia. rewrite s32_small, u32_small by (rewrite ?u32_small; lia). csplit; [done..|lia].
Qed.

(** ** The geometry of a list and of its gaps *)

Section geometry.
Context (t : memblock_type) (Hwf : wf t).

Lemma cnt_bound : 1 <= cnt t <= 2 ^ 27.
Proof. pose proof (wf_cnt t Hwf). pose proof (wf_max _ Hwf). pose proof (wf_max2 _ Hwf). lia. Qed.

Lemma region_at_elem i : 0 <= i < cnt t -> region_at t i ∈ regions t.
Proof. intros Hi. unfold region_at, cnt in *. apply list_elem_of_lookup_total_2. lia. Qed.

Lemma elem_region_at r : r ∈ regions t -> exists i, 0 <= i < cnt t /\ region_at t i = r.
Proof.
  intros (i & Hi)%list_elem_of_lookup. exists (Z.of_nat i). unfold region_at, cnt.
  rewrite Nat2Z.id. split; [apply lookup_lt_Some in Hi; lia|by apply list_lookup_total_correct].
Qed.

Lemma region_bounds i :
  0 <= i < cnt t ->
  0 <= r_base (region_at t i) /\ 0 <= r_size (region_at t i) /\
  r_base (region_at t i) + r_size (region_at t i) <= PHYS_ADDR_MAX /\
  r_end (region_at t i) = r_base (region_at t i) + r_size (region_at t i).
Proof.
  intros Hi%region_at_elem. destruct (wf_regions _ Hwf) as [E|[_ Hg]].
  - rewrite E in Hi. apply list_elem_of_singleton in Hi. rewrite Hi. by csplit.
  - pose proof (good_ok _ _ Hg Hi) as Hok. rewrite (r_end_ok _ Hok). destruct Hok. csplit; lia.
Qed.

Lemma region_order i j :
  0 <= i -> i < j -> j < cnt t -> r_end (region_at t i) <= r_base (region_at t j).
Proof.
  intros H0 Hlt Hj. rewrite (proj2 (proj2 (proj2 (region_bounds i ltac:(lia))))).
  destruct (wf_regions _ Hwf) as [E|[_ [_ Hs]]].
  { unfold cnt in Hj. rewrite E in Hj. cbn in Hj. lia. }
  unfold cnt, region_at in *. clear Hwf. revert i j H0 Hlt Hj.
  induction Hs as [|r rs Hs IH Hb]; intros i j H0 Hlt Hj; [cbn in Hj; lia|].
  assert (Ej : Z.to_nat j = S (Z.to_nat (j - 1))) by lia. rewrite Ej. cbn [length] in Hj.
  destruct (decide (i = 0)) as [->|].
  - cbn. rewrite Forall_forall in Hb. apply Hb. apply list_elem_of_lookup_total_2. lia.
  - assert (Ei : Z.to_nat i = S (Z.to_nat (i - 1))) by lia. rewrite Ei. cbn. apply IH; lia.
Qed.

Lemma region_ends i j :
  0 <= i -> i <= j -> j < cnt t ->
  r_base (region_at t i) <= r_base (region_at t j) /\ r_end (region_at t i) <= r_end (region_at t j).
Proof.
  intros H0 Hle Hj. destruct (decide (i = j)) as [->|]; [done|].
  pose proof (region_order i j ltac:(lia) ltac:(lia) Hj).
  pose proof (region_bounds i ltac:(lia)). pose proof (region_bounds j ltac:(lia)). lia.
Qed.

Lemma gap_bounds j :
  0 <= j <= cnt t -> 0 <= gap_start t j <= gap_end t j /\ gap_end t j <= PHYS_ADDR_MAX.
Proof.
  intros Hj. pose proof cnt_bound. unfold gap_start, gap_end.
  destruct (Z.eqb_spec j 0) as [->|Hj0]; cbn [negb].
  { pose proof (region_bounds 0 ltac:(lia)). rewrite (proj2 (Z.ltb_lt _ _)) by lia.
    unfold PHYS_ADDR_MAX in *. lia. }
  pose proof (region_bounds (j - 1) ltac:(lia)).
  destruct (Z.ltb_spec j (cnt t)); [|unfold PHYS_ADDR_MAX in *; lia].
  pose proof (region_bounds j ltac:(lia)).
  pose proof (region_order (j - 1) j ltac:(lia) ltac:(lia) ltac:(lia)). unfold PHYS_ADDR_MAX in *. lia.
Qed.

Lemma gap_order j k : 0 <= j -> j < k -> k <= cnt t -> gap_end t j <= gap_start t k.
Proof.
  intros H0 Hlt Hk. unfold gap_end, gap_start.
  rewrite (proj2 (Z.ltb_lt j (cnt t))), (proj2 (Z.eqb_neq k 0)) by lia. cbn [negb].
  pose proof (region_ends j (k - 1) ltac:(lia) ltac:(lia) ltac:(lia)).
  pose proof (region_bounds j ltac:(lia)). lia.
Qed.

Lemma gap_start_mono j k : 0 <= j -> j <= k -> k <= cnt t -> gap_start t j <= gap_start t k.
Proof.
  intros H0 Hle Hk. destruct (decide (j = k)) as [->|]; [done|].
  pose proof (gap_order j k H0 ltac:(lia) Hk). pose proof (gap_bounds j ltac:(lia)). lia.
Qed.

Lemma gap_end_mono j k : 0 <= j -> j <= k -> k <= cnt t -> gap_end t j <= gap_end t k.
Proof.
  intros H0 Hle Hk. destruct (decide (j = k)) as [->|]; [done|].
  pose proof (gap_order j k H0 ltac:(lia) Hk). pose proof (gap_bounds k ltac:(lia)). lia.
Qed.

(** An address is in no region exactly when it is in a gap. *)
Lemma lookup_gap_iff a :
  0 <= a < PHYS_ADDR_MAX ->
  lookup (regions t) a = None <-> exists j, 0 <= j <= cnt t /\ gap_start t j <= a < gap_end t j.
Proof.
  intros Ha. rewrite lookup_None. split.
  - intros Hno.
    assert (Hgo : forall n, Z.of_nat n <= cnt t ->
      (exists j, 0 <= j <= cnt t /\ gap_start t j <= a < gap_end t j) \/ gap_start t (Z.of_nat n) <= a).
    { induction n as [|n IH]; intros Hn; [right; change (gap_start t (Z.of_nat 0)) with 0; lia|].
      destruct IH as [?|IH]; [lia|by left|].
      destruct (Z.lt_ge_cases a (gap_end t (Z.of_nat n))) as [Hlt|Hge]; [left; exists (Z.of_nat n); lia|right].
      unfold gap_end in Hge. rewrite (proj2 (Z.ltb_lt _ _)) in Hge by lia.
      unfold gap_start. rewrite (proj2 (Z.eqb_neq _ 0)) by lia. cbn [negb].
      replace (Z.of_nat (S n) - 1) with (Z.of_nat n) by lia.
      specialize (Hno _ (region_at_elem (Z.of_nat n) ltac:(lia))). unfold rcovers in Hno.
      pose proof (region_bounds (Z.of_nat n) ltac:(lia)). lia. }
    destruct (Hgo (length (regions t))) as [?|Hle]; [unfold cnt; lia|done|].
    exists (cnt t). pose proof cnt_bound. fold (cnt t) in Hle. unfold gap_end.
    rewrite Z.ltb_irrefl. lia.
  - intros (j & Hj & Hg) r (k & Hk & <-)%elem_region_at Hc. unfold rcovers in Hc.
    pose proof (region_bounds k Hk). destruct (Z.lt_ge_cases k j).
    + pose proof (region_ends k (j - 1) ltac:(lia) ltac:(lia) ltac:(lia)).
      unfold gap_start in Hg. rewrite (proj2 (Z.eqb_neq j 0)) in Hg by lia. cbn in Hg. lia.
    + pose proof (region_ends j k ltac:(lia) ltac:(lia) ltac:(lia)).
      unfold gap_end in Hg. rewrite (proj2 (Z.ltb_lt j _)) in Hg by lia. lia.
Qed.
End geometry.

(** ** Walking forward *)

Section walk.
Context (is_memory : bool) (nid flags : Z) (ta tb : memblock_type).
Context (Hwa : wf ta) (Hwb : wf tb).

Abbreviation ms i := (r_base (region_at ta i)).
Abbreviation me i := (r_end (region_at ta i)).
Abbreviation gs j := (gap_start tb j).
Abbreviation ge j := (gap_end tb j).

(** [x] is in region [i] of the first list, in the gap before region [j] of
    the second one, and region [i] is not to be skipped. *)
Definition at_ (i j x : Z) : Prop :=
  0 <= i < cnt ta /\ 0 <= j <= cnt tb /\
  should_skip_region is_memory (region_at ta i) nid flags = false /\
  ms i <= x < me i /\ gs j <= x < ge j.

(** That part of the address space. *)
Definition cell (i j : Z) : Z * Z := (Z.max (ms i) (gs j), Z.min (me i) (ge j)).

(** What the cursor [(a, b)] has still to visit. *)
Definition todo (a b i j x : Z) : Prop := a <= i /\ b <= j /\ at_ i j x.

Lemma todo_mono a b a' b' i j x : a <= a' -> b <= b' -> todo a' b' i j x -> todo a b i j x.
Proof. intros Ha Hb (Hi & Hj & H). unfold todo. csplit; [lia|lia|done]. Qed.

Lemma todo_ge a b i j x : 0 <= a < cnt ta -> todo a b i j x -> ms a <= x.
Proof.
  intros Ha (Hi & _ & (Hi' & _ & _ & Hx & _)).
  pose proof (region_ends ta Hwa a i ltac:(lia) Hi ltac:(lia)). lia.
Qed.

Lemma todo_ge_gap a b i j x : 0 <= b <= cnt tb -> todo a b i j x -> gs b <= x.
Proof.
  intros Hb (_ & Hj & (_ & Hj' & _ & _ & Hx)).
  pose proof (gap_start_mono tb Hwb b j ltac:(lia) ltac:(lia) ltac:(lia)). lia.
Qed.

(** A gap that ends before the region can be left behind. *)
Lemma todo_next_gap a b i j x :
  0 <= a < cnt ta -> ge b <= ms a -> todo a b i j x <-> todo a (b + 1) i j x.
Proof.
  intros Ha Hle. split; [|apply todo_mono; lia].
  intros H. pose proof (todo_ge a b i j x Ha H). destruct H as (Hi & Hj & Hat).
  unfold todo. csplit; [done| |done]. destruct (decide (j = b)) as [->|]; [|lia].
  destruct Hat as (_ & _ & _ & _ & Hx). lia.
Qed.

(** So can a region that ends before the gap, or that is to be skipped. *)
Lemma todo_next_region a b i j x :
  (0 <= b <= cnt tb -> me a <= gs b) \/ should_skip_region is_memory (region_at ta a) nid flags = true ->
  0 <= b -> todo a b i j x <-> todo (a + 1) b i j x.
Proof.
  intros Hc Hb. split; [|apply todo_mono; lia].
  intros H. assert (Hge : 0 <= b <= cnt tb -> gs b <= x) by (intros; by apply (todo_ge_gap a b i j)).
  destruct H as (Hi & Hj & Hat). unfold todo. csplit; [|done|done].
  destruct (decide (i = a)) as [->|]; [|lia]. destruct Hat as (_ & Hj' & Hsk & Hx & _).
  destruct Hc as [Hc|Hc]; [|congruence]. specialize (Hc ltac:(lia)). specialize (Hge ltac:(lia)). lia.
Qed.

(** The step from [(a, b)] to [(a', b')] yields the range [s, e). *)
Record advance (a b s e a' b' : Z) : Prop := {
  ad_a : a <= a' <= cnt ta;
  ad_b : b <= b' <= cnt tb + 1;
  ad_lt : a + b < a' + b';
  ad_range : 0 <= s <= e /\ e <= PHYS_ADDR_MAX;
  ad_todo : exists ci cj, cell ci cj = (s, e) /\ forall i j x,
    todo a b i j x <-> (i = ci /\ j = cj /\ s <= x < e) \/ todo a' b' i j x;
  ad_low : a < cnt ta /\ ms a <= s /\ b <= cnt tb /\ gs b <= s;
  ad_high : (a' < cnt ta -> e <= ms a') \/ (b' <= cnt tb -> e <= gs b');
}.

Lemma advance_mono a b a1 b1 s e a' b' :
  0 <= a <= a1 -> 0 <= b <= b1 -> (forall i j x, todo a b i j x <-> todo a1 b1 i j x) ->
  advance a1 b1 s e a' b' -> advance a b s e a' b'.
Proof.
  intros Ha Hb Heq [H1 H2 H3 H4 H5 H6 H7]. split; [lia|lia|lia|done| | |done].
  - destruct H5 as (ci & cj & Hc & H5). exists ci, cj. split; [done|]. intros i j x. by rewrite Heq.
  - pose proof (region_ends ta Hwa a a1 ltac:(lia) ltac:(lia) ltac:(lia)).
    pose proof (gap_start_mono tb Hwb b b1 ltac:(lia) ltac:(lia) ltac:(lia)). lia.
Qed.

Lemma at_cell i j x :
  0 <= i < cnt ta -> 0 <= j <= cnt tb ->
  should_skip_region is_memory (region_at ta i) nid flags = false ->
  at_ i j x <-> (cell i j).1 <= x < (cell i j).2.
Proof. intros Hi Hj Hs. unfold at_, cell. cbn. split; [lia|]. intros Hx. csplit; done || lia. Qed.

Lemma advance_here a b :
  0 <= a < cnt ta -> 0 <= b <= cnt tb ->
  should_skip_region is_memory (region_at ta a) nid flags = false -> gs b < me a -> ms a < ge b ->
  advance a b (Z.max (ms a) (gs b)) (Z.min (me a) (ge b))
    (if me a <=? ge b then a + 1 else a) (if me a <=? ge b then b else b + 1).
Proof.
  intros Ha Hb Hsk H1 H2. pose proof (gap_bounds tb Hwb b Hb). pose proof (region_bounds ta Hwa a Ha).
  split; [case_cmp; lia|case_cmp; lia|case_cmp; lia|unfold PHYS_ADDR_MAX in *; lia| |lia|].
  2:{ case_cmp; [left; intros; pose proof (region_order ta Hwa a (a + 1) ltac:(lia) ltac:(lia) ltac:(lia)); lia|].
      right. intros. pose proof (gap_order tb Hwb b (b + 1) ltac:(lia) ltac:(lia) ltac:(lia)). lia. }
  exists a, b. split; [done|]. intros i j x. pose proof (at_cell a b x Ha Hb Hsk) as Hat. cbn in Hat.
  rewrite <- Hat. unfold todo. split.
  - intros (Hi & Hj & H3). destruct (decide (i = a /\ j = b)) as [[-> ->]|Hne]; [by left|right].
    pose proof H3 as (Hi' & Hj' & Hs & Hx & Hg). csplit; [| |done].
    + case_cmp; [|lia]. destruct (decide (i = a)) as [->|]; [|lia].
      pose proof (gap_order tb Hwb b j ltac:(lia) ltac:(lia) ltac:(lia)). lia.
    + case_cmp; [lia|]. destruct (decide (j = b)) as [->|]; [|lia].
      pose proof (region_order ta Hwa a i ltac:(lia) ltac:(lia) ltac:(lia)). lia.
  - intros [(-> & -> & H3)|(H3 & H4 & H5)]; [csplit; [lia|lia|done]|].
    csplit; [| |done]; revert H3 H4; case_cmp; lia.
Qed.

Lemma next_b_ok fuel a b :
  0 <= a < cnt ta -> 0 <= b <= cnt tb + 1 ->
  should_skip_region is_memory (region_at ta a) nid flags = false ->
  cnt tb + 1 - b < Z.of_nat fuel ->
  exists b' found, next_b_loop fuel tb (ms a) (me a) a b = Ok (b', found) /\
    match found with
    | None => b <= b' <= cnt tb + 1 /\ (forall i j x, todo a b i j x <-> todo (a + 1) b' i j x)
    | Some (idx, s, e) => exists a2 b2, idx = pack_idx a2 b2 /\ advance a b s e a2 b2
    end.
Proof.
  intros Ha. revert b. induction fuel as [|fuel IH]; intros b Hb Hsk Hf; [lia|]. cbn [next_b_loop].
  case_cmp.
  - case_cmp; [exists b, None; split; [done|]; split; [lia|]; intros i j x; apply todo_next_region; lia|].
    case_cmp.
    + exists b. eexists. split; [reflexivity|]. cbn beta iota.
      exists (if me a <=? ge b then a + 1 else a), (if me a <=? ge b then b else b + 1).
      split; [by case_cmp|]. apply advance_here; done || lia.
    + destruct (IH (b + 1)) as (b' & found & E & Hres); [lia|done|lia|].
      assert (Heq : forall i j x, todo a b i j x <-> todo a (b + 1) i j x) by (intros; apply todo_next_gap; lia).
      exists b', found. split; [done|]. destruct found as [[[idx s] e]|].
      * destruct Hres as (a2 & b2 & -> & Had). exists a2, b2. split; [done|].
        by apply (advance_mono a b a (b + 1)); [lia|lia|..].
      * destruct Hres as [? Hres]. split; [lia|]. intros i j x. by rewrite Heq.
  - exists b, None. split; [done|]. split; [lia|]. intros i j x. apply todo_next_region; lia.
Qed.

Lemma next_a_ok fuel a b :
  0 <= a <= cnt ta -> 0 <= b <= cnt tb + 1 -> cnt ta - a < Z.of_nat fuel ->
  exists idx s e, next_a_loop fuel is_memory nid flags ta (Some tb) a b = Ok (idx, s, e) /\
    ((idx = ULLONG_MAX /\ forall i j x, ~ todo a b i j x) \/
     exists a2 b2, idx = pack_idx a2 b2 /\ advance a b s e a2 b2).
Proof.
  revert a b. induction fuel as [|fuel IH]; intros a b Ha Hb Hf; [lia|]. cbn [next_a_loop].
  case_cmp.
  2:{ exists ULLONG_MAX, 0, 0. split; [done|]. left. split; [done|].
      intros i j x (Hi & _ & (Hi' & _)). lia. }
  assert (Hrec : forall b', b <= b' <= cnt tb + 1 -> (forall i j x, todo a b i j x <-> todo (a + 1) b' i j x) ->
    exists idx s e, next_a_loop fuel is_memory nid flags ta (Some tb) (a + 1) b' = Ok (idx, s, e) /\
    ((idx = ULLONG_MAX /\ forall i j x, ~ todo a b i j x) \/
     exists a2 b2, idx = pack_idx a2 b2 /\ advance a b s e a2 b2)).
  { intros b' Hb' Heq. destruct (IH (a + 1) b') as (idx & s & e & E & Hres); [lia|lia|lia|].
    exists idx, s, e. split; [done|]. destruct Hres as [[-> Hno]|(a2 & b2 & -> & Had)].
    - left. split; [done|]. intros i j x. by rewrite Heq.
    - right. exists a2, b2. split; [done|]. apply (advance_mono a b (a + 1) b'); [lia|lia|done|done]. }
  case_cmp; [apply Hrec; [lia|]; intros i j x; apply todo_next_region; [by right|lia]|].
  destruct (next_b_ok (length (regions tb) + 2) a b) as (b' & found & -> & Hres);
    [lia|lia|done|unfold cnt; lia|].
  rewrite bind_Ok. cbn beta iota. destruct found as [[[idx s] e]|].
  - exists idx, s, e. split; [done|]. by right.
  - destruct Hres. by apply Hrec.
Qed.

(** *** Walking backwards *)

Definition todo_rev (a b i j x : Z) : Prop := i <= a /\ j <= b /\ at_ i j x.

Lemma todo_rev_mono a b a' b' i j x : a' <= a -> b' <= b -> todo_rev a' b' i j x -> todo_rev a b i j x.
Proof. intros Ha Hb (Hi & Hj & H). unfold todo_rev. csplit; [lia|lia|done]. Qed.

Lemma todo_rev_lt a b i j x : 0 <= a < cnt ta -> todo_rev a b i j x -> x < me a.
Proof.
  intros Ha (Hi & _ & (Hi' & _ & _ & Hx & _)).
  pose proof (region_ends ta Hwa i a ltac:(lia) Hi ltac:(lia)). lia.
Qed.

Lemma todo_rev_lt_gap a b i j x : 0 <= b <= cnt tb -> todo_rev a b i j x -> x < ge b.
Proof.
  intros Hb (_ & Hj & (_ & Hj' & _ & _ & Hx)).
  pose proof (gap_end_mono tb Hwb j b ltac:(lia) Hj ltac:(lia)). lia.
Qed.

Lemma todo_rev_next_gap a b i j x :
  0 <= a < cnt ta -> me a <= gs b -> todo_rev a b i j x <-> todo_rev a (b - 1) i j x.
Proof.
  intros Ha Hle. split; [|apply todo_rev_mono; lia].
  intros H. pose proof (todo_rev_lt a b i j x Ha H). destruct H as (Hi & Hj & Hat).
  unfold todo_rev. csplit; [done| |done]. destruct (decide (j = b)) as [->|]; [|lia].
  destruct Hat as (_ & _ & _ & _ & Hx). lia.
Qed.

Lemma todo_rev_next_region a b i j x :
  (0 <= b <= cnt tb -> ge b <= ms a) \/ should_skip_region is_memory (region_at ta a) nid flags = true ->
  b <= cnt tb -> todo_rev a b i j x <-> todo_rev (a - 1) b i j x.
Proof.
  intros Hc Hb. split; [|apply todo_rev_mono; lia].
  intros H. assert (Hlt : 0 <= b <= cnt tb -> x < ge b) by (intros; by apply (todo_rev_lt_gap a b i j)).
  destruct H as (Hi & Hj & Hat). unfold todo_rev. csplit; [|done|done].
  destruct (decide (i = a)) as [->|]; [|lia]. destruct Hat as (_ & Hj' & Hsk & Hx & _).
  destruct Hc as [Hc|Hc]; [|congruence]. specialize (Hc ltac:(lia)). specialize (Hlt ltac:(lia)). lia.
Qed.

Record retreat (a b s e a' b' : Z) : Prop := {
  rt_a : -1 <= a' <= a;
  rt_b : 0 <= b' <= b;
  rt_lt : a' + b' < a + b;
  rt_range : 0 <= s <= e /\ e <= PHYS_ADDR_MAX;
  rt_todo : exists ci cj, cell ci cj = (s, e) /\ forall i j x,
    todo_rev a b i j x <-> (i = ci /\ j = cj /\ s <= x < e) \/ todo_rev a' b' i j x;
  rt_high : 0 <= a /\ e <= me a /\ 0 <= b /\ e <= ge b;
  rt_low : (0 <= a' -> me a' <= s) \/ ge b' <= s;
}.

Lemma retreat_mono a b a1 b1 s e a' b' :
  a1 <= a < cnt ta -> b1 <= b <= cnt tb -> (forall i j x, todo_rev a b i j x <-> todo_rev a1 b1 i j x) ->
  retreat a1 b1 s e a' b' -> retreat a b s e a' b'.
Proof.
  intros Ha Hb Heq [H1 H2 H3 H4 H5 H6 H7]. split; [lia|lia|lia|done| | |done].
  - destruct H5 as (ci & cj & Hc & H5). exists ci, cj. split; [done|]. intros i j x. by rewrite Heq.
  - pose proof (region_ends ta Hwa a1 a ltac:(lia) ltac:(lia) ltac:(lia)).
    pose proof (gap_end_mono tb Hwb b1 b ltac:(lia) ltac:(lia) ltac:(lia)). lia.
Qed.

Lemma retreat_here a b :
  0 <= a < cnt ta -> 0 <= b <= cnt tb ->
  should_skip_region is_memory (region_at ta a) nid flags = false -> gs b < me a -> ms a < ge b ->
  retreat a b (Z.max (ms a) (gs b)) (Z.min (me a) (ge b))
    (if ms a >=? gs b then a - 1 else a) (if ms a >=? gs b then b else b - 1).
Proof.
  intros Ha Hb Hsk H1 H2. pose proof (gap_bounds tb Hwb b Hb). pose proof (region_bounds ta Hwa a Ha).
  assert (Hb0 : ms a < gs b -> 1 <= b).
  { intros Hlt. destruct (decide (b = 0)) as [->|]; [|lia]. change (gs 0) with 0 in Hlt. lia. }
  split; [case_cmp; lia|case_cmp; lia|case_cmp; lia|unfold PHYS_ADDR_MAX in *; lia| |lia|].
  2:{ case_cmp; [left; intros; pose proof (region_order ta Hwa (a - 1) a ltac:(lia) ltac:(lia) ltac:(lia)); lia|].
      right. pose proof (gap_order tb Hwb (b - 1) b ltac:(lia) ltac:(lia) ltac:(lia)). lia. }
  exists a, b. split; [done|]. intros i j x. pose proof (at_cell a b x Ha Hb Hsk) as Hat. cbn in Hat.
  rewrite <- Hat. unfold todo_rev. split.
  - intros (Hi & Hj & H3). destruct (decide (i = a /\ j = b)) as [[-> ->]|Hne]; [by left|right].
    pose proof H3 as (Hi' & Hj' & Hs & Hx & Hg). csplit; [| |done].
    + case_cmp; [|lia]. destruct (decide (i = a)) as [->|]; [|lia].
      pose proof (gap_order tb Hwb j b ltac:(lia) ltac:(lia) ltac:(lia)). lia.
    + case_cmp; [lia|]. destruct (decide (j = b)) as [->|]; [|lia].
      pose proof (region_order ta Hwa i a ltac:(lia) ltac:(lia) ltac:(lia)). lia.
  - intros [(-> & -> & H3)|(H3 & H4 & H5)]; [csplit; [lia|lia|done]|].
    csplit; [| |done]; revert H3 H4; case_cmp; lia.
Qed.

Lemma next_b_rev_ok fuel a b :
  0 <= a < cnt ta -> -1 <= b <= cnt tb ->
  should_skip_region is_memory (region_at ta a) nid flags = false ->
  b + 1 < Z.of_nat fuel ->
  exists b' found, next_b_loop_rev fuel tb (ms a) (me a) a b = Ok (b', found) /\
    match found with
    | None => -1 <= b' <= b /\ (forall i j x, todo_rev a b i j x <-> todo_rev (a - 1) b' i j x)
    | Some (idx, s, e) => exists a2 b2, idx = pack_idx a2 b2 /\ retreat a b s e a2 b2
    end.
Proof.
  intros Ha. revert b. induction fuel as [|fuel IH]; intros b Hb Hsk Hf; [lia|]. cbn [next_b_loop_rev].
  case_cmp.
  - case_cmp; [exists b, None; split; [done|]; split; [lia|]; intros i j x; apply todo_rev_next_region; lia|].
    case_cmp.
    + exists b. eexists. split; [reflexivity|]. cbn beta iota.
      exists (if ms a >=? gs b then a - 1 else a), (if ms a >=? gs b then b else b - 1).
      split; [by case_cmp|]. apply retreat_here; done || lia.
    + destruct (IH (b - 1)) as (b' & found & E & Hres); [lia|done|lia|].
      assert (Heq : forall i j x, todo_rev a b i j x <-> todo_rev a (b - 1) i j x)
        by (intros; apply todo_rev_next_gap; lia).
      exists b', found. split; [done|]. destruct found as [[[idx s] e]|].
      * destruct Hres as (a2 & b2 & -> & Had). exists a2, b2. split; [done|].
        by apply (retreat_mono a b a (b - 1)); [lia|lia|..].
      * destruct Hres as [? Hres]. split; [lia|]. intros i j x. by rewrite Heq.
  - exists b, None. split; [done|]. split; [lia|]. intros i j x. apply todo_rev_next_region; lia.
Qed.

Lemma next_a_rev_ok fuel a b :
  -1 <= a < cnt ta -> -1 <= b <= cnt tb -> a + 1 < Z.of_nat fuel ->
  exists idx s e, next_a_loop_rev fuel is_memory nid flags ta (Some tb) a b = Ok (idx, s, e) /\
    ((idx = ULLONG_MAX /\ forall i j x, ~ todo_rev a b i j x) \/
     exists a2 b2, idx = pack_idx a2 b2 /\ retreat a b s e a2 b2).
Proof.
  revert a b. induction fuel as [|fuel IH]; intros a b Ha Hb Hf; [lia|]. cbn [next_a_loop_rev].
  case_cmp.
  2:{ exists ULLONG_MAX, 0, 0. split; [done|]. left. split; [done|].
      intros i j x (Hi & _ & (Hi' & _)). lia. }
  assert (Hrec : forall b', -1 <= b' <= b -> (forall i j x, todo_rev a b i j x <-> todo_rev (a - 1) b' i j x) ->
    exists idx s e, next_a_loop_rev fuel is_memory nid flags ta (Some tb) (a - 1) b' = Ok (idx, s, e) /\
    ((idx = ULLONG_MAX /\ forall i j x, ~ todo_rev a b i j x) \/
     exists a2 b2, idx = pack_idx a2 b2 /\ retreat a b s e a2 b2)).
  { intros b' Hb' Heq. destruct (IH (a - 1) b') as (idx & s & e & E & Hres); [lia|lia|lia|].
    exists idx, s, e. split; [done|]. destruct Hres as [[-> Hno]|(a2 & b2 & -> & Had)].
    - left. split; [done|]. intros i j x. by rewrite Heq.
    - right. exists a2, b2. split; [done|]. apply (retreat_mono a b (a - 1) b'); [lia|lia|done|done]. }
  case_cmp; [apply Hrec; [lia|]; intros i j x; apply todo_rev_next_region; [by right|lia]|].
  destruct (next_b_rev_ok (length (regions tb) + 2) a b) as (b' & found & -> & Hres);
    [lia|lia|done|unfold cnt in *; lia|].
  rewrite bind_Ok. cbn beta iota. destruct found as [[[idx s] e]|].
  - exists idx, s, e. split; [done|]. by right.
  - destruct Hres. by apply Hrec.
Qed.
End walk.

(** ** The loops over free ranges *)

(** The ranges a loop visits from cursor [i] on. *)
Inductive ranges (next : Z -> outcome (Z * Z * Z)) : Z -> list (Z * Z) -> Prop :=
  | ranges_end i s e : next i = Ok (ULLONG_MAX, s, e) -> ranges next i []
  | ranges_next i i' s e L :
      next i = Ok (i', s, e) -> i' <> ULLONG_MAX -> ranges next i' L -> ranges next i ((s, e) :: L).

Fixpoint fold_ranges {A R : Type} (body : Z -> Z -> A -> outcome (A + R)) (L : list (Z * Z)) (acc : A) :
    outcome (A + R) :=
  match L with
  | [] => Ok (inl acc)
  | (s, e) :: L =>
      r ← body s e acc;
      match r with inl acc => fold_ranges body L acc | inr r => Ok (inr r) end
  end.

Lemma for_each_range_fold {A R : Type} next (body : Z -> Z -> A -> outcome (A + R)) fuel i L acc :
  ranges next i L -> (length L < fuel)%nat ->
  for_each_range fuel next body i acc = fold_ranges body L acc.
Proof.
  intros HL. revert fuel acc. induction HL as [i s e E|i i' s e L E Hne HL IH]; intros [|fuel] acc Hf;
    cbn [length] in Hf; try lia; cbn [for_each_range fold_ranges]; rewrite E, bind_Ok; cbn beta iota.
  - by rewrite Z.eqb_refl.
  - rewrite (proj2 (Z.eqb_neq _ _) Hne). destruct (body s e acc) as [[acc'|r]| |]; cbn; [|done..].
    apply IH. lia.
Qed.

(** Ascending ranges between [0] and the last address. *)
Definition ascending (L : list (Z * Z)) : Prop := StronglySorted (fun p q => snd p <= fst q) L.
Definition descending (L : list (Z * Z)) : Prop := StronglySorted (fun p q => snd q <= fst p) L.
Definition bounded (L : list (Z * Z)) : Prop :=
  forall s e, (s, e) ∈ L -> 0 <= s <= e /\ e <= PHYS_ADDR_MAX.
Definition inside (L : list (Z * Z)) (x : Z) : Prop := exists s e, (s, e) ∈ L /\ s <= x < e.

Lemma inside_cons s e L x : inside ((s, e) :: L) x <-> s <= x < e \/ inside L x.
Proof.
  unfold inside. split.
  - intros (s' & e' & [[= -> ->]|H]%elem_of_cons & Hx); eauto.
  - intros [Hx|(s' & e' & H & Hx)]; [exists s, e; split; [left|done]|exists s', e'; split; [by right|done]].
Qed.

Lemma inside_nil x : inside [] x <-> False.
Proof. split; [|done]. by intros (s & e & ?%not_elem_of_nil & _). Qed.

(** The node argument as the code uses it. *)
Definition node_of (nid : Z) : Z := if nid =? MAX_NUMNODES then NUMA_NO_NODE else nid.

(** In memory the flags admit, and not reserved. *)
Definition free_at (mb : memblock) (nid flags x : Z) : Prop :=
  exists r, r ∈ regions (memory mb) /\ rcovers r x /\
    should_skip_region true r (node_of nid) flags = false /\ lookup (regions (reserved mb)) x = None.

(** A block of free memory inside one region. *)
Definition free_block (mb : memblock) (nid flags x n : Z) : Prop :=
  exists r, r ∈ regions (memory mb) /\ should_skip_region true r (node_of nid) flags = false /\
    r_base r <= x /\ x + n <= r_base r + r_size r /\
    forall a, x <= a < x + n -> lookup (regions (reserved mb)) a = None.

Section loops.
Context (mb : memblock) (Hwf : all_wf mb) (nid flags : Z).
Abbreviation tm := (memory mb).
Abbreviation tr := (reserved mb).
Abbreviation on := (at_ true (node_of nid) flags tm tr).

(** The list holds exactly the cells with an address in [T]. *)
Definition visits (T : Z -> Z -> Z -> Prop) (L : list (Z * Z)) : Prop :=
  (forall i j x, T i j x -> cell tm tr i j ∈ L) /\
  (forall s e, (s, e) ∈ L -> exists i j, cell tm tr i j = (s, e) /\ forall x, s <= x < e -> T i j x).

Lemma visits_nil (T : Z -> Z -> Z -> Prop) : (forall i j x, ~ T i j x) -> visits T [].
Proof.
  intros Hno. split; [by intros i j x ?%Hno|]. by intros s e ?%not_elem_of_nil.
Qed.

Lemma visits_cons (T T' : Z -> Z -> Z -> Prop) ci cj s e L :
  cell tm tr ci cj = (s, e) ->
  (forall i j x, T i j x <-> (i = ci /\ j = cj /\ s <= x < e) \/ T' i j x) ->
  visits T' L -> visits T ((s, e) :: L).
Proof.
  intros Hc HT [H1 H2]. split.
  - intros i j x [(-> & -> & _)|H]%HT; [rewrite Hc; left|right; by apply (H1 i j x)].
  - intros s' e' [[= -> ->]|H]%elem_of_cons.
    + exists ci, cj. split; [done|]. intros x Hx. apply HT. by left.
    + destruct (H2 s' e' H) as (i & j & E & Hx). exists i, j. split; [done|].
      intros x Hx'. apply HT. right. by apply Hx.
Qed.

Lemma visits_ext (T T' : Z -> Z -> Z -> Prop) L :
  (forall i j x, T i j x <-> T' i j x) -> visits T L -> visits T' L.
Proof.
  intros Heq [H1 H2]. split; [intros i j x ?%Heq; eauto|].
  intros s e (i & j & E & Hx)%H2. exists i, j. split; [done|]. intros x ?%Hx. by apply Heq.
Qed.

Lemma on_free x : (exists i j, on i j x) <-> free_at mb nid flags x.
Proof.
  destruct Hwf as [Hwm Hwr _]. unfold at_, free_at. split.
  - intros (i & j & Hi & Hj & Hs & Hx & Hg). exists (region_at tm i).
    pose proof (region_bounds tm Hwm i Hi). unfold rcovers. csplit; [by apply region_at_elem|lia|lia|done|].
    apply lookup_gap_iff; [done|unfold PHYS_ADDR_MAX in *; lia|]. by exists j.
  - intros (r & Hr & Hc & Hs & Hl). apply (elem_region_at tm) in Hr as (i & Hi & <-).
    pose proof (region_bounds tm Hwm i Hi). unfold rcovers in Hc.
    apply lookup_gap_iff in Hl as (j & Hj & Hg); [|done|unfold PHYS_ADDR_MAX in *; lia].
    exists i, j. csplit; done || lia.
Qed.

(** A free block does not leave the gap it starts in. *)
Lemma block_cell x n :
  0 < n -> free_block mb nid flags x n -> exists i j,
    on i j x /\ (cell tm tr i j).1 <= x /\ x + n <= (cell tm tr i j).2.
Proof.
  pose proof Hwf as [Hwm Hwr _]. intros Hn (r & Hr & Hs & Hlo & Hhi & Hno).
  apply (elem_region_at tm) in Hr as (i & Hi & <-). pose proof (region_bounds tm Hwm i Hi).
  pose proof (Hno x ltac:(lia)) as Hl.
  apply lookup_gap_iff in Hl as (j & Hj & Hg); [|done|unfold PHYS_ADDR_MAX in *; lia].
  exists i, j. unfold cell, at_. cbn [fst snd]. csplit; try lia; try done.
  enough (x + n <= gap_end tr j) by lia.
  destruct (Z.le_gt_cases (x + n) (gap_end tr j)) as [|Hgt]; [done|exfalso].
  unfold gap_end in Hg, Hgt. destruct (Z.ltb_spec j (cnt tr)); [|lia].
  specialize (Hno (r_base (region_at tr j)) ltac:(lia)). rewrite lookup_None in Hno.
  apply (Hno (region_at tr j)); [by apply region_at_elem; lia|].
  destruct (wf_regions _ Hwr) as [E|[_ Hgd]].
  - exfalso. assert (Ec : cnt tr = 1) by (unfold cnt; by rewrite E). assert (j = 0) as -> by lia.
    unfold region_at in Hg. rewrite E in Hg. change (r_base (nothing !!! Z.to_nat 0)) with 0 in Hg. lia.
  - pose proof (good_ok _ _ Hgd (region_at_elem tr j ltac:(lia))) as (? & ? & ?). unfold rcovers. lia.
Qed.

Lemma walk_forward n a b :
  0 <= a <= cnt tm -> 0 <= b <= cnt tr + 1 -> cnt tm + cnt tr + 1 - a - b <= Z.of_nat n ->
  exists L, ranges (__next_mem_range true nid flags tm (Some tr)) (pack_idx a b) L /\
    (length L <= n)%nat /\ ascending L /\ bounded L /\
    visits (todo true (node_of nid) flags tm tr a b) L /\
    (forall s e, (s, e) ∈ L -> (a < cnt tm /\ r_base (region_at tm a) <= s) /\
                               (b <= cnt tr /\ gap_start tr b <= s)).
Proof.
  pose proof Hwf as [Hwm Hwr _]. pose proof (cnt_bound tm Hwm). pose proof (cnt_bound tr Hwr).
  revert a b. induction n as [|n IH]; intros a b Ha Hb Hn.
  all: destruct (pack_unpack a b) as (Ea & Eb & _); [lia|lia|].
  all: destruct (next_a_ok true (node_of nid) flags tm tr Hwm Hwr (length (regions tm) + 1) a b)
    as (idx & s & e & E & Hres); [done|done|unfold cnt; lia|].
  all: assert (E' : __next_mem_range true nid flags tm (Some tr) (pack_idx a b) = Ok (idx, s, e))
    by (unfold __next_mem_range; rewrite Ea, Eb; exact E).
  all: destruct Hres as [[-> Hno]|(a2 & b2 & -> & [H1 H2 H3 H4 (ci & cj & Hc & H5) H6 H7])]; [|try lia].
  1,2: exists []; csplit; [by eapply ranges_end|cbn; lia|constructor|by intros ? ? ?%not_elem_of_nil
    |by apply visits_nil|by intros ? ? ?%not_elem_of_nil].
  destruct (IH a2 b2) as (L & HL & Hlen & Hasc & Hbd & Hin & Hlow); [lia|lia|lia|].
  assert (Hse : forall s' e', (s', e') ∈ L -> e <= s') by (intros s' e' Hel%Hlow; lia).
  exists ((s, e) :: L). csplit.
  - eapply ranges_next; [exact E'| |exact HL]. apply pack_unpack; lia.
  - cbn. lia.
  - constructor; [done|]. apply Forall_forall. intros [s' e'] Hel. cbn. by apply (Hse s' e').
  - intros s' e' [[= -> ->]|Hel]%elem_of_cons; [done|by apply Hbd].
  - by eapply visits_cons.
  - intros s' e' [[= -> ->]|Hel]%elem_of_cons; [lia|]. specialize (Hse s' e' Hel). lia.
Qed.

(** The cursor of the walk backwards. *)
Definition cursor_at (i a b : Z) : Prop :=
  (i = ULLONG_MAX /\ a = cnt tm - 1 /\ b = cnt tr) \/ i = pack_idx a b.

Lemma next_rev_at i a b :
  cursor_at i a b -> -1 <= a < cnt tm -> 0 <= b <= cnt tr ->
  __next_mem_range_rev true nid flags tm (Some tr) i =
  next_a_loop_rev (length (regions tm) + 1) true (node_of nid) flags tm (Some tr) a b.
Proof.
  pose proof Hwf as [Hwm Hwr _]. pose proof (cnt_bound tm Hwm). pose proof (cnt_bound tr Hwr).
  unfold __next_mem_range_rev. intros [(-> & -> & ->)| ->] Ha Hb; [by rewrite Z.eqb_refl|].
  destruct (pack_unpack a b) as (Ea & Eb & Hne); [lia|lia|].
  by rewrite (proj2 (Z.eqb_neq _ _) Hne), Ea, Eb.
Qed.

Lemma walk_backward n i a b :
  cursor_at i a b -> -1 <= a < cnt tm -> 0 <= b <= cnt tr -> a + b + 1 <= Z.of_nat n ->
  exists L, ranges (__next_mem_range_rev true nid flags tm (Some tr)) i L /\
    (length L <= n)%nat /\ descending L /\ bounded L /\
    visits (todo_rev true (node_of nid) flags tm tr a b) L /\
    (forall s e, (s, e) ∈ L -> 0 <= a /\ e <= r_end (region_at tm a) /\ e <= gap_end tr b).
Proof.
  pose proof Hwf as [Hwm Hwr _]. pose proof (cnt_bound tm Hwm). pose proof (cnt_bound tr Hwr).
  revert i a b. induction n as [|n IH]; intros i a b Hi Ha Hb Hn.
  all: destruct (next_a_rev_ok true (node_of nid) flags tm tr Hwm Hwr (length (regions tm) + 1) a b)
    as (idx & s & e & E & Hres); [done|lia|unfold cnt in *; lia|].
  all: rewrite <- (next_rev_at i) in E by done.
  all: destruct Hres as [[-> Hno]|(a2 & b2 & -> & [H1 H2 H3 H4 (ci & cj & Hc & H5) H6 H7])]; [|try lia].
  1,2: exists []; csplit; [by eapply ranges_end|cbn; lia|constructor|by intros ? ? ?%not_elem_of_nil
    |by apply visits_nil|by intros ? ? ?%not_elem_of_nil].
  destruct (IH (pack_idx a2 b2) a2 b2) as (L & HL & Hlen & Hdesc & Hbd & Hin & Hhigh);
    [by right|lia|lia|lia|].
  assert (Hse : forall s' e', (s', e') ∈ L -> e' <= s) by (intros s' e' Hel%Hhigh; lia).
  exists ((s, e) :: L). csplit.
  - eapply ranges_next; [exact E| |exact HL]. apply pack_unpack; lia.
  - cbn. lia.
  - constructor; [done|]. apply Forall_forall. intros [s' e'] Hel. cbn. by apply (Hse s' e').
  - intros s' e' [[= -> ->]|Hel]%elem_of_cons; [done|by apply Hbd].
  - by eapply visits_cons.
  - intros s' e' [[= -> ->]|Hel]%elem_of_cons; [lia|]. specialize (Hse s' e' Hel). lia.
Qed.

(** What a list of ranges has to do with the free memory: it is covered
    exactly, and no free block is torn apart. *)
Definition exact (L : list (Z * Z)) : Prop :=
  bounded L /\ (forall x, inside L x <-> free_at mb nid flags x) /\
  (forall x n, 0 < n -> free_block mb nid flags x n -> exists s e, (s, e) ∈ L /\ s <= x /\ x + n <= e) /\
  (forall s e, (s, e) ∈ L -> free_block mb nid flags s (e - s) \/ s = e) /\
  (forall b, 0 <= b -> (forall r, r ∈ regions tm -> r_base r + r_size r <= b) ->
   forall s e, (s, e) ∈ L -> e <= b).

Lemma visits_exact L : bounded L -> visits on L -> exact L.
Proof.
  pose proof Hwf as [Hwm Hwr _]. intros Hbd HV. pose proof HV as [HV1 HV2]. unfold exact. csplit; [done|..].
  - intros x. rewrite <- on_free. split.
    + intros (s & e & Hel & Hx). destruct (HV2 s e Hel) as (i & j & _ & Hon). eauto.
    + intros (i & j & Hon). specialize (HV1 i j x Hon). destruct Hon as (_ & _ & _ & Hx & Hg).
      eexists _, _. split; [exact HV1|]. lia.
  - intros x n Hn Hb. destruct (block_cell x n Hn Hb) as (i & j & Hon & H1 & H2).
    eexists _, _. split; [exact (HV1 i j x Hon)|done].
  - intros s e Hel. destruct (Hbd s e Hel) as [Hse _]. destruct (decide (s = e)) as [|Hne]; [by right|left].
    destruct (HV2 s e Hel) as (i & j & Ec & Hon). injection Ec as Es Ee.
    pose proof (Hon s ltac:(lia)) as (Hi & Hj & Hsk & _). pose proof (region_bounds tm Hwm i Hi).
    exists (region_at tm i). csplit; [by apply region_at_elem|done|lia|lia|].
    intros a Ha. pose proof (Hon a ltac:(lia)) as Ha'.
    destruct (proj1 (on_free a) ltac:(by exists i, j)) as (_ & _ & _ & _ & ?). done.
  - intros b H0 Hb s e Hel. destruct (HV2 s e Hel) as (i & j & Ec & _). injection Ec as _ Ee.
    enough (r_end (region_at tm i) <= b) by lia. unfold region_at. rewrite list_lookup_total_alt.
    destruct (regions tm !! Z.to_nat i) as [r|] eqn:E; [|exact H0].
    apply list_elem_of_lookup_2 in E. specialize (Hb r E). cbn [from_option default].
    apply (elem_region_at tm) in E as (i' & Hi' & <-). pose proof (region_bounds tm Hwm i' Hi') as (? & ? & ? & H').
    cbn. lia.
Qed.

(** The loops see the free addresses, and nothing else, in order. *)
Lemma for_each_free_ok :
  exists L, ascending L /\ exact L /\
    forall A R (body : Z -> Z -> A -> outcome (A + R)) acc,
      for_each_free_mem_range mb nid flags body acc = fold_ranges body L acc.
Proof.
  pose proof Hwf as [Hwm Hwr _]. pose proof (cnt_bound tm Hwm). pose proof (cnt_bound tr Hwr).
  destruct (walk_forward (length (regions tm) + length (regions tr) + 1) 0 0)
    as (L & HL & Hlen & Hasc & Hbd & Hin & _); [lia|lia|unfold cnt; lia|].
  exists L. csplit; [done| |].
  - apply visits_exact; [done|]. eapply visits_ext; [|exact Hin]. intros i j x. unfold todo, at_. intuition lia.
  - intros A R body acc. apply for_each_range_fold; [exact HL|]. unfold walk_fuel. lia.
Qed.

Lemma for_each_free_reverse_ok :
  exists L, descending L /\ exact L /\
    forall A R (body : Z -> Z -> A -> outcome (A + R)) acc,
      for_each_free_mem_range_reverse mb nid flags body acc = fold_ranges body L acc.
Proof.
  pose proof Hwf as [Hwm Hwr _]. pose proof (cnt_bound tm Hwm). pose proof (cnt_bound tr Hwr).
  destruct (walk_backward (length (regions tm) + length (regions tr)) ULLONG_MAX (cnt tm - 1) (cnt tr))
    as (L & HL & Hlen & Hdesc & Hbd & Hin & _); [by left|lia|lia|unfold cnt; lia|].
  exists L. csplit; [done| |].
  - apply visits_exact; [done|]. eapply visits_ext; [|exact Hin]. intros i j x. unfold todo_rev, at_. intuition lia.
  - intros A R body acc. apply for_each_range_fold; [exact HL|]. unfold walk_fuel. lia.
Qed.
End loops.

(** ** Finding a free area *)

Section find.
Context (mb : memblock) (Hwf : all_wf mb) (nid flags : Z).
Context (start end_ size align k : Z).
Context (Hstart : 0 < start) (Hse : start <= end_) (Hend : end_ <= PHYS_ADDR_MAX).
Context (Hsize : 0 < size) (Halign : is_pow2 align k).

(** [x] is an admissible answer. *)
Definition fit (x : Z) : Prop :=
  (align | x) /\ start <= x /\ x + size <= end_ /\ free_block mb nid flags x size.

(** [x] is one inside the range [s, e). *)
Definition range_fit (s e x : Z) : Prop :=
  (align | x) /\ start <= x /\ x + size <= end_ /\ s <= x /\ x + size <= e.

Lemma fit_range L x :
  exact mb nid flags L -> fit x <-> exists s e, (s, e) ∈ L /\ range_fit s e x.
Proof.
  intros (Hbd & _ & Hblk & Hfree & _). unfold fit, range_fit. split.
  - intros (Ha & H1 & H2 & H3). destruct (Hblk x size Hsize H3) as (s & e & Hel & ? & ?). eauto 8.
  - intros (s & e & Hel & Ha & H1 & H2 & H3 & H4). csplit; [done..|].
    destruct (Hfree s e Hel) as [(r & Hr & Hsk & Hl & Hh & Hno)|]; [|lia].
    exists r. csplit; [done|done|lia|lia|]. intros a Ha'. apply Hno. lia.
Qed.

Lemma top_down_body_ok s e :
  0 <= s <= e -> e <= PHYS_ADDR_MAX ->
  (exists c, top_down_body start end_ size align s e tt = Ok (inr c) /\ range_fit s e c /\
     forall x, range_fit s e x -> x <= c) \/
  (top_down_body start end_ size align s e tt = Ok (inl tt) /\ forall x, ~ range_fit s e x).
Proof.
  intros Hs He. unfold top_down_body, range_fit, clamp. unfold PHYS_ADDR_MAX in *.
  set (ts := Z.min (Z.max s start) end_). set (te := Z.min (Z.max e start) end_).
  case_cmp; [right; split; [done|]; intros x; unfold te in *; lia|].
  rewrite u32_small by (unfold te in *; lia).
  destruct (round_down_max (te - size) align k Halign) as (Hd & Hr & Hmax); [unfold te in *; lia|].
  case_cmp.
  - left. eexists. split; [reflexivity|]. split; [unfold ts, te in *; csplit; done || lia|].
    intros x (Hx & ? & ? & ? & ?). apply Hmax; [done|]. unfold te. lia.
  - right. split; [done|]. intros x (Hx & ? & ? & ? & ?).
    specialize (Hmax x Hx ltac:(unfold te; lia)). unfold ts, te in *. lia.
Qed.

Lemma bottom_up_body_ok s e :
  0 <= s <= e -> e <= PHYS_ADDR_MAX ->
  (exists c, bottom_up_body start end_ size align s e tt = Ok (inr c) /\ c <> 0 /\ range_fit s e c /\
     forall x, range_fit s e x -> c <= x) \/
  (bottom_up_body start end_ size align s e tt = Ok (inr 0) /\
     forall s' e' x, s <= s' -> ~ range_fit s' e' x) \/
  (bottom_up_body start end_ size align s e tt = Ok (inl tt) /\ forall x, ~ range_fit s e x).
Proof.
  intros Hs He. unfold bottom_up_body, range_fit, clamp. unfold PHYS_ADDR_MAX in *.
  set (ts := Z.min (Z.max s start) end_). set (te := Z.min (Z.max e start) end_).
  assert (Hts : 0 < ts < 2 ^ 32) by (unfold ts; lia).
  destruct (round_up_min ts align k Halign Hts) as [[-> Hno]|(Hd & Hr & Hmin)].
  - right. rewrite Z.sub_0_r, u32_small by (unfold te; lia). case_cmp.
    + left. split; [done|]. intros s' e' x Hs' (Hx & ? & ? & ? & ?).
      specialize (Hno x Hx ltac:(unfold ts; lia)). lia.
    + right. split; [done|]. intros x (Hx & ? & ? & ? & ?).
      specialize (Hno x Hx ltac:(unfold ts; lia)). lia.
  - destruct (Z.ltb_spec (round_up ts align) te) as [Hlt|Hge]; cbn [andb].
    + rewrite u32_small by (unfold te in *; lia). case_cmp.
      * left. eexists. split; [reflexivity|]. csplit; [lia|done|unfold ts, te in *; lia..|].
        intros x (Hx & ? & ? & ? & ?). apply Hmin; [done|]. unfold ts. lia.
      * right. right. split; [done|]. intros x (Hx & ? & ? & ? & ?).
        specialize (Hmin x Hx ltac:(unfold ts; lia)). unfold te in *. lia.
    + right. right. split; [done|]. intros x (Hx & ? & ? & ? & ?).
      specialize (Hmin x Hx ltac:(unfold ts; lia)). unfold te in *. lia.
Qed.

Definition range_fits (L : list (Z * Z)) (x : Z) : Prop := exists s e, (s, e) ∈ L /\ range_fit s e x.

Lemma range_fits_cons s e L x : range_fits ((s, e) :: L) x <-> range_fit s e x \/ range_fits L x.
Proof.
  unfold range_fits. split.
  - intros (s' & e' & [[= -> ->]|H]%elem_of_cons & Hx); eauto.
  - intros [Hx|(s' & e' & H & Hx)]; [exists s, e; split; [left|done]|exists s', e'; split; [by right|done]].
Qed.

Lemma top_down_fold L :
  descending L -> bounded L ->
  (exists c, fold_ranges (top_down_body start end_ size align) L tt = Ok (inr c) /\ range_fits L c /\
     forall x, range_fits L x -> x <= c) \/
  (fold_ranges (top_down_body start end_ size align) L tt = Ok (inl tt) /\ forall x, ~ range_fits L x).
Proof.
  intros Hd Hb. induction Hd as [|[s e] L Hd IH Hhd]; cbn [fold_ranges].
  { right. split; [done|]. intros x (s & e & ?%not_elem_of_nil & _). done. }
  destruct (Hb s e ltac:(left)) as [H1 H2]. rewrite Forall_forall in Hhd.
  destruct (top_down_body_ok s e H1 H2) as [(c & -> & Hf & Hmax)|(-> & Hno)]; rewrite bind_Ok.
  - left. exists c. csplit; [done|apply range_fits_cons; by left|].
    intros x [Hx|(s' & e' & Hel & Hx)]%range_fits_cons; [by apply Hmax|].
    specialize (Hhd _ Hel). cbn in Hhd. unfold range_fit in *. lia.
  - destruct IH as [(c & -> & Hf & Hmax)|(-> & Hno')]; [intros s' e' H; apply Hb; by right| |].
    + left. exists c. csplit; [done|apply range_fits_cons; by right|].
      intros x [Hx%Hno|Hx]%range_fits_cons; [done|by apply Hmax].
    + right. split; [done|]. intros x [Hx%Hno|Hx%Hno']%range_fits_cons; done.
Qed.

Lemma bottom_up_fold L :
  ascending L -> bounded L ->
  (exists c, fold_ranges (bottom_up_body start end_ size align) L tt = Ok (inr c) /\ c <> 0 /\
     range_fits L c /\ forall x, range_fits L x -> c <= x) \/
  ((fold_ranges (bottom_up_body start end_ size align) L tt = Ok (inl tt) \/
    fold_ranges (bottom_up_body start end_ size align) L tt = Ok (inr 0)) /\ forall x, ~ range_fits L x).
Proof.
  intros Ha Hb. induction Ha as [|[s e] L Ha IH Hhd]; cbn [fold_ranges].
  { right. split; [by left|]. intros x (s & e & ?%not_elem_of_nil & _). done. }
  destruct (Hb s e ltac:(left)) as [H1 H2]. rewrite Forall_forall in Hhd.
  destruct (bottom_up_body_ok s e H1 H2) as [(c & -> & Hc & Hf & Hmin)|[(-> & Hno)|(-> & Hno)]];
    rewrite bind_Ok.
  - left. exists c. csplit; [done|done|apply range_fits_cons; by left|].
    intros x [Hx|(s' & e' & Hel & Hx)]%range_fits_cons; [by apply Hmin|].
    specialize (Hhd _ Hel). cbn in Hhd. unfold range_fit in *. lia.
  - right. split; [by right|]. intros x [Hx|(s' & e' & Hel & Hx)]%range_fits_cons.
    + by apply (Hno s e x).
    + apply (Hno s' e' x); [|done]. specialize (Hhd _ Hel). cbn in Hhd. lia.
  - destruct IH as [(c & -> & Hc & Hf & Hmin)|(E & Hno')]; [intros s' e' H; apply Hb; by right| |].
    + left. exists c. csplit; [done|done|apply range_fits_cons; by right|].
      intros x [Hx%Hno|Hx]%range_fits_cons; [done|by apply Hmin].
    + right. split; [done|]. intros x [Hx%Hno|Hx%Hno']%range_fits_cons; done.
Qed.

(** The two searches: the highest and the lowest address that fits, [0] when
    there is none. *)
Lemma find_top_down_ok :
  exists r, __memblock_find_range_top_down mb start end_ size align nid flags = Ok r /\
    ((r <> 0 /\ fit r /\ forall x, fit x -> x <= r) \/ (r = 0 /\ forall x, ~ fit x)).
Proof.
  destruct (for_each_free_reverse_ok mb Hwf nid flags) as (L & Hd & Hex & Hfold).
  unfold __memblock_find_range_top_down. rewrite Hfold.
  assert (Hf : forall x, fit x <-> range_fits L x) by (intros x; by apply fit_range).
  destruct (top_down_fold L Hd) as [(c & -> & Hc & Hmax)|(-> & Hno)]; [apply Hex| |]; rewrite bind_Ok.
  - exists c. split; [done|]. left. apply Hf in Hc as Hc'. split; [destruct Hc'; lia|]. split; [done|].
    intros x ?%Hf. by apply Hmax.
  - exists 0. split; [done|]. right. split; [done|]. intros x ?%Hf. by apply (Hno x).
Qed.

Lemma find_bottom_up_ok :
  exists r, __memblock_find_range_bottom_up mb start end_ size align nid flags = Ok r /\
    ((r <> 0 /\ fit r /\ forall x, fit x -> r <= x) \/ (r = 0 /\ forall x, ~ fit x)).
Proof.
  destruct (for_each_free_ok mb Hwf nid flags) as (L & Ha & Hex & Hfold).
  unfold __memblock_find_range_bottom_up. rewrite Hfold.
  assert (Hf : forall x, fit x <-> range_fits L x) by (intros x; by apply fit_range).
  destruct (bottom_up_fold L Ha) as [(c & -> & Hc0 & Hc & Hmin)|([-> | ->] & Hno)]; [apply Hex| | |];
    rewrite bind_Ok.
  - exists c. split; [done|]. left. split; [done|]. split; [by apply Hf|].
    intros x ?%Hf. by apply Hmin.
  - exists 0. split; [done|]. right. split; [done|]. intros x ?%Hf. by apply (Hno x).
  - exists 0. split; [done|]. right. split; [done|]. intros x ?%Hf. by apply (Hno x).
Qed.
End find.

(** The bounds [memblock_find_in_range_node] searches between. *)
Definition search_start (start : Z) : Z := Z.max start PAGE_SIZE.
Definition search_end (mb : memblock) (start end_ : Z) : Z :=
  Z.max (search_start start)
    (if (end_ =? MEMBLOCK_ALLOC_ACCESSIBLE) || (end_ =? MEMBLOCK_ALLOC_NOLEAKTRACE)
     then current_limit mb else end_).

(** The answers to a request. *)
Definition answer (mb : memblock) (size align start end_ nid flags x : Z) : Prop :=
  fit mb nid flags (search_start start) (search_end mb start end_) size align x.

Lemma find_node_ok mb size align k start end_ nid flags :
  all_wf mb -> 0 < size -> is_pow2 align k -> 0 <= start <= PHYS_ADDR_MAX -> 0 <= end_ <= PHYS_ADDR_MAX ->
  exists r, memblock_find_in_range_node mb size align start end_ nid flags = Ok r /\
    ((r <> 0 /\ answer mb size align start end_ nid flags r /\
      (forall x, answer mb size align start end_ nid flags x -> if bottom_up mb then r <= x else x <= r)) \/
     (r = 0 /\ forall x, ~ answer mb size align start end_ nid flags x)).
Proof.
  intros Hwf Hs Ha Hst Hen. unfold memblock_find_in_range_node, answer.
  fold (search_start start) (search_end mb start end_). pose proof (aw_limit _ Hwf) as Hlim.
  assert (H1 : 0 < search_start start <= search_end mb start end_).
  { unfold search_end, search_start, PAGE_SIZE. lia. }
  assert (H2 : search_end mb start end_ <= PHYS_ADDR_MAX).
  { unfold search_end, search_start, PAGE_SIZE. unfold PHYS_ADDR_MAX in *. case_cmp; lia. }
  destruct (bottom_up mb).
  - apply (find_bottom_up_ok mb Hwf nid flags _ _ size align k); done || lia.
  - apply (find_top_down_ok mb Hwf nid flags _ _ size align k); done || lia.
Qed.

(** [memblock_find_in_range] tries mirrored memory first, and then any. *)
Lemma find_in_range_ok mb start end_ size align k :
  all_wf mb -> 0 < size -> is_pow2 align k -> 0 <= start <= PHYS_ADDR_MAX -> 0 <= end_ <= PHYS_ADDR_MAX ->
  exists r, memblock_find_in_range mb start end_ size align = Ok r /\
    (r <> 0 -> exists flags, answer mb size align start end_ NUMA_NO_NODE flags r) /\
    (r = 0 -> forall x, ~ answer mb size align start end_ NUMA_NO_NODE MEMBLOCK_NONE x).
Proof.
  intros Hwf Hs Ha Hst Hen. unfold memblock_find_in_range.
  destruct (find_node_ok mb size align k start end_ NUMA_NO_NODE (choose_memblock_flags mb))
    as (r & -> & Hr); [done..|]. rewrite bind_Ok. case_cmp.
  - destruct (find_node_ok mb size align k start end_ NUMA_NO_NODE
      (Z.ldiff (choose_memblock_flags mb) MEMBLOCK_MIRROR)) as (r' & -> & Hr'); [done..|].
    assert (E : Z.ldiff (choose_memblock_flags mb) MEMBLOCK_MIRROR = MEMBLOCK_NONE)
      by (unfold choose_memblock_flags; by destruct (system_has_some_mirror mb)).
    rewrite E in Hr'. exists r'. split; [done|]. destruct Hr' as [(? & ? & _)|[? ?]]; split; by eauto || done.
  - exists r. split; [done|]. destruct Hr as [(? & ? & _)|[-> Hno]]; [split; by eauto || done|]. split; [done|]. intros _.
    unfold choose_memblock_flags in *. by destruct (system_has_some_mirror mb).
Qed.

(** What an answer gives. *)
Lemma answer_free mb size align start end_ nid flags x :
  answer mb size align start end_ nid flags x -> 0 < size ->
  PAGE_SIZE <= x /\ start <= x /\ x + size <= search_end mb start end_ /\
  forall a, x <= a < x + size -> lookup (regions (reserved mb)) a = None.
Proof.
  intros (_ & H1 & H2 & (r & _ & _ & _ & _ & Hno)) Hs. unfold search_start in H1.
  csplit; [lia|lia|done|done].
Qed.
