(* ===== verification/MemblockGrow.v ===== *)
(** * mm/memblock.c: growing the arrays of regions

    The arrays that hold the lists of regions live in memory that memblock
    itself hands out: doubling an array finds a free area, moves there, frees
    the old array and reserves the new one. This file proves that
    [memblock_double_array] keeps the storage of both arrays reserved and
    disjoint and touches nothing else, as an instance of the interface
    [DoublerOk] the operations on lists are proved against, and derives what
    [memblock_add], [memblock_remove], [memblock_reserve],
    [memblock_phys_free] and the allocator do when an array has to grow.

    Two cases are excluded by [ready], because the code goes wrong there:
    a reservation that starts at address 0 or 1, and the doubling of the
    memory array when the list of reserved regions is nearly full. *)

From S2P Require Import Prelude Memblock MemblockRegions MemblockFree.

(** ** The storage of the arrays *)

Definition array_bytes (t : memblock_type) : Z := PAGE_ALIGN (u32 (max_regions t * sizeof_region)).

(** [a] is in the storage of the array of list [w]. *)
Definition stored (w : which) (mb : memblock) (a : Z) : Prop :=
  exists p, array (get_type w mb) = Some p /\ p <= a < p + array_bytes (get_type w mb).

#[export] Instance stored_dec w mb a : Decision (stored w mb a).
Proof.
  unfold stored. destruct (array (get_type w mb)) as [p|]; [|right; by intros (? & [=] & _)].
  destruct (decide (p <= a < p + array_bytes (get_type w mb))); [left; by exists p|right].
  by intros (? & [= <-] & ?).
Defined.

Record arrays_ok (mb : memblock) : Prop := {
  ar_slab : memblock_memory_in_slab mb = false /\ memblock_reserved_in_slab mb = false;
  ar_bounds w p : array (get_type w mb) = Some p ->
    PAGE_SIZE <= p /\ p + array_bytes (get_type w mb) <= PHYS_ADDR_MAX;
  ar_held w a : stored w mb a -> lookup (regions (reserved mb)) a <> None;
  ar_apart a : ~ (stored Memory mb a /\ stored Reserved mb a);
}.

Lemma init_arrays_ok : arrays_ok init_memblock.
Proof. by split; [|intros []|intros [] a (p & [=] & _)|intros a [(p & [=] & _) _]]. Qed.

Lemma page_align_spec x :
  0 <= x <= 2 ^ 31 -> x <= PAGE_ALIGN x < x + PAGE_SIZE /\ PAGE_ALIGN x mod PAGE_SIZE = 0.
Proof.
  intros Hx. unfold PAGE_ALIGN, PAGE_SIZE. rewrite u32_small by lia.
  pose proof (round_down_spec (x + (4096 - 1)) 4096 12) as H. unfold round_down in H.
  rewrite (u32_small (4096 - 1)) in H by lia. rewrite H; [|by split; [lia|]|lia].
  pose proof (Z.mod_pos_bound (x + (4096 - 1)) 4096 ltac:(lia)).
  pose proof (Z.div_mod (x + (4096 - 1)) 4096 ltac:(lia)). split; [lia|].
  replace (_ - _) with ((x + (4096 - 1)) / 4096 * 4096) by lia. by rewrite Z.mod_mul.
Qed.

Lemma array_bytes_pos t : 4 <= max_regions t <= 2 ^ 27 -> 0 < array_bytes t <= 2 ^ 31.
Proof.
  intros Hm. unfold array_bytes, sizeof_region. rewrite u32_small by lia.
  pose proof (page_align_spec (max_regions t * 12) ltac:(lia)) as [? _]. unfold PAGE_SIZE in *. lia.
Qed.

(** ** The interface *)

(** What a doubling needs, when [k] of them may follow each other. *)
Definition ready (k : Z) (w : which) (s n : Z) (mb : memblock) : Prop :=
  match w with
  | Memory => cnt (reserved mb) + 3 * k <= max_regions (reserved mb)
  | Reserved => 2 <= s /\ forall w' a, s <= a < s + n -> ~ stored w' mb a
  end.

(** The settings. *)
Definition same_config (mb mb' : memblock) : Prop :=
  current_limit mb' = current_limit mb /\ bottom_up mb' = bottom_up mb /\
  system_has_some_mirror mb' = system_has_some_mirror mb.

(** The list of reserved regions follows the array of list [w] when it moves,
    and is the same otherwise. *)
Record rehomed (w : which) (mb mb' : memblock) : Prop := {
  rh_old a : stored w mb a -> ~ stored w mb' a -> lookup (regions (reserved mb')) a = None;
  rh_new a : stored w mb' a -> ~ stored w mb a -> lookup (regions (reserved mb)) a = None;
  rh_else a : ~ stored w mb a -> ~ stored w mb' a ->
    lookup (regions (reserved mb')) a = lookup (regions (reserved mb)) a;
  rh_config : same_config mb mb';
  rh_memory : w = Reserved -> memory mb' = memory mb;
}.

Lemma rehomed_refl w mb : rehomed w mb mb.
Proof. by split; intros. Qed.

Lemma rehomed_trans w mb mb1 mb2 : rehomed w mb mb1 -> rehomed w mb1 mb2 -> rehomed w mb mb2.
Proof.
  intros [O1 N1 E1 (C1 & C2 & C3) M1] [O2 N2 E2 (D1 & D2 & D3) M2].
  split; [..|unfold same_config; csplit; congruence|intros ->; by rewrite M2, M1];
    intros a H1 H2; destruct (decide (stored w mb1 a)) as [H3|H3].
  - by apply O2.
  - rewrite E2 by done. by apply O1.
  - by apply N1.
  - rewrite <- E1 by done. by apply N2.
  - by rewrite O2, N1.
  - by rewrite E2, E1.
Qed.

Record doubled (w : which) (mb mb' : memblock) : Prop := {
  db_wf : all_wf mb';
  db_arrays : arrays_ok mb';
  db_max : max_regions (get_type w mb') = 2 * max_regions (get_type w mb);
  db_cnt : cnt (get_type w mb') <= cnt (get_type w mb) + 3;
  db_good : good (regions (get_type w mb)) -> good (regions (get_type w mb'));
  db_memory : regions (memory mb') = regions (memory mb);
  db_rehomed : rehomed w mb mb';
}.

(** The bytes of the array of list [w] when it has doubled. *)
Definition doubled_bytes (w : which) (mb : memblock) : Z := PAGE_ALIGN (u32 (2 * max_regions (get_type w mb) * sizeof_region)).

(** [x] is a place for the doubled array of list [w]: whole pages of free
    memory off the first page and below the limit; for the list of reserved
    regions, also apart from the range that is about to be added. *)
Definition spare_place (w : which) (s n : Z) (mb : memblock) (x : Z) : Prop :=
  (PAGE_SIZE | x) /\ PAGE_SIZE <= x /\ x + doubled_bytes w mb <= current_limit mb /\
  free_block mb NUMA_NO_NODE MEMBLOCK_NONE x (doubled_bytes w mb) /\
  (w = Reserved -> s + n <= x \/ x + doubled_bytes w mb <= s).

(** The array of list [w] cannot grow: growing is not allowed yet, or there is
    no place for it. *)
Definition stuck (w : which) (s n : Z) (mb : memblock) : Prop :=
  memblock_can_resize mb = false \/ forall x, ~ spare_place w s n mb x.

Class DoublerOk (dbl : doubler) : Prop :=
  dbl_ok k w s n mb :
    all_wf mb -> arrays_ok mb -> max_regions (get_type w mb) <= 2 ^ 26 ->
    0 <= s -> 0 < n -> s + n <= PHYS_ADDR_MAX -> 0 <= k -> ready (1 + k) w s n mb ->
    (exists mb', dbl w s n mb = Ok (0, mb') /\ doubled w mb mb' /\ ready k w s n mb') \/
    (dbl w s n mb = Ok (-1, mb) /\ stuck w s n mb).

(** A list outside the storage of its array is not changed by growing it. *)
Lemma doubled_grown k w s n mb mb' :
  doubled w mb mb' -> ready (1 + k) w s n mb -> ready k w s n mb' -> grown w s n mb mb'.
Proof.
  intros [H1 H2 H3 H4 H5 H6 H7] R R'. split; [done| |done|done].
  intros a Ha. destruct w; cbn in *; [by rewrite H6|].
  destruct R as [_ R], R' as [_ R']. apply (rh_else _ _ _ H7); auto.
Qed.

Lemma grown_trans w s n mb mb1 mb2 : grown w s n mb mb1 -> grown w s n mb1 mb2 -> grown w s n mb mb2.
Proof.
  intros [H1 H2 H3 H4] [K1 K2 K3 K4]. split; [done| |auto|congruence].
  intros a Ha. rewrite K2, H2 by done. done.
Qed.

Lemma wf_max_range w mb : all_wf mb ->
  1 <= cnt (get_type w mb) <= max_regions (get_type w mb) /\ 4 <= max_regions (get_type w mb) <= 2 ^ 27.
Proof.
  intros Hwf. pose proof (wf_of w mb Hwf) as Ht. pose proof (wf_cnt _ Ht).
  pose proof (wf_max _ Ht). pose proof (wf_max2 _ Ht). lia.
Qed.

Section grow.
Context (dbl : doubler) `{!DoublerOk dbl}.

(** Two doublings make enough room. *)
Lemma grow_loop_ok w extra s n mb :
  all_wf mb -> arrays_ok mb -> max_regions (get_type w mb) <= 2 ^ 25 ->
  extra <= cnt (get_type w mb) + 1 ->
  0 <= s -> 0 < n -> s + n <= PHYS_ADDR_MAX -> ready 2 w s n mb ->
  exists ret mb', grow_loop dbl grow_fuel w extra s n mb = Ok (ret, mb') /\
    grown w s n mb mb' /\ arrays_ok mb' /\ ready 0 w s n mb' /\ rehomed w mb mb' /\
    max_regions (get_type w mb') <= 4 * max_regions (get_type w mb) /\
    ((ret = 0 /\ cnt (get_type w mb') + extra <= max_regions (get_type w mb') /\
      (cnt (get_type w mb) + extra <= max_regions (get_type w mb) -> mb' = mb)) \/
     (ret = - ENOMEM /\ max_regions (get_type w mb) < cnt (get_type w mb) + extra /\
      max_regions (get_type w mb') < cnt (get_type w mb') + extra /\ stuck w s n mb')).
Proof.
  intros Hwf Har Hmax Hex Hs Hn Hle Hrd. pose proof (wf_max_range w mb Hwf) as [[Hc1 Hc] [Hm _]].
  assert (Hr0 : ready 0 w s n mb) by (destruct w; cbn in *; [lia|done]).
  unfold grow_fuel. change 40%nat with (3 + 37)%nat. cbn [Nat.add].
  cbn [grow_loop]. case_cmp.
  2:{ exists 0, mb. csplit; [done|by apply grown_refl|done|done|apply rehomed_refl|lia|]. left. csplit; [done|lia|done]. }
  destruct (dbl_ok 1 w s n mb) as [(mb1 & E1 & Hd1 & Hrd1)|[E1 Hst]]; [done|done|lia|done..| |];
    rewrite E1, bind_Ok; cbn beta iota.
  2:{ exists (- ENOMEM), mb. csplit; [done|by apply grown_refl|done|done|apply rehomed_refl|lia|right; csplit; [done|lia|lia|done]]. }
  pose proof (doubled_grown 1 w s n mb mb1 Hd1 Hrd Hrd1) as Hg1.
  pose proof Hd1 as [Hwf1 Har1 Hm1 Hc1' _ _ Hh1]. cbn [Z.ltb Z.compare].
  assert (Hr1 : ready 0 w s n mb1) by (destruct w; cbn in *; [lia|done]).
  case_cmp; [|exists 0, mb1; csplit; [done|done|done|done|done|lia|left; csplit; [done|lia|lia]]].
  destruct (dbl_ok 0 w s n mb1) as [(mb2 & E2 & Hd2 & Hrd2)|[E2 Hst]]; [done|done|lia|done..| |];
    rewrite E2, bind_Ok; cbn beta iota.
  2:{ exists (- ENOMEM), mb1. csplit; [done|done|done|done|done|lia|right; csplit; [done|lia|lia|done]]. }
  pose proof (doubled_grown 0 w s n mb1 mb2 Hd2 Hrd1 Hrd2) as Hg2.
  pose proof Hd2 as [Hwf2 Har2 Hm2 Hc2 _ _ Hh2]. cbn [Z.ltb Z.compare].
  case_cmp; [lia|]. exists 0, mb2. csplit; [done|by eapply grown_trans|done|done|by eapply rehomed_trans|lia|].
  left. csplit; [done|lia|lia].
Qed.
End grow.

(** ** [memblock_double_array] before the slab allocator is up *)

Section double.
Context (kmalloc : Z -> Z) (dbl : doubler).

(** The search for the new array. *)
Definition find_space (w : which) (s n size : Z) (mb : memblock) : outcome Z :=
  let '(s, n) := match w with Reserved => (s, n) | Memory => (0, 0) end in
  addr ← memblock_find_in_range mb (u32 (s + n)) (current_limit mb) size PAGE_SIZE;
  if (addr =? 0) && negb (n =? 0)
  then memblock_find_in_range mb 0 (Z.min s (current_limit mb)) size PAGE_SIZE
  else Ok addr.

(** The new array does not meet anything reserved, nor the area that is about
    to be. *)
Definition space_ok (w : which) (s n size : Z) (mb : memblock) (addr : Z) : Prop :=
  PAGE_SIZE <= addr /\ addr + size <= PHYS_ADDR_MAX /\
  (forall a, addr <= a < addr + size -> lookup (regions (reserved mb)) a = None) /\
  (w = Reserved -> s + n <= addr \/ addr + size <= s).

Lemma page_pow2 : is_pow2 PAGE_SIZE 12.
Proof. split; [lia|done]. Qed.

Lemma answer_space mb size start end_ flags x :
  all_wf mb -> answer mb size PAGE_SIZE start end_ NUMA_NO_NODE flags x -> 0 < size ->
  0 <= start <= PHYS_ADDR_MAX -> 0 <= end_ <= PHYS_ADDR_MAX -> space_ok Memory 0 0 size mb x.
Proof.
  intros Hwf Ha Hs Hst Hen. pose proof (answer_free _ _ _ _ _ _ _ _ Ha Hs) as (H1 & _ & H3 & H4).
  unfold space_ok. csplit; [done| |done|done]. pose proof (aw_limit _ Hwf).
  destruct Ha as (_ & _ & _ & (r & Hr & _ & _ & Hle & _)).
  destruct (elem_region_at (memory mb) r Hr) as (i & Hi & <-).
  pose proof (region_bounds (memory mb) (aw_memory _ Hwf) i Hi). lia.
Qed.

Lemma answer_of_free mb size start end_ x :
  (PAGE_SIZE | x) -> Z.max start PAGE_SIZE <= x -> free_block mb NUMA_NO_NODE MEMBLOCK_NONE x size ->
  (x + size <= current_limit mb /\ end_ = current_limit mb) \/ x + size <= Z.min end_ (current_limit mb) ->
  answer mb size PAGE_SIZE start end_ NUMA_NO_NODE MEMBLOCK_NONE x.
Proof.
  intros Hd Hs Hf He. unfold answer, fit, search_start, search_end. csplit; [done|done| |done].
  case_cmp; destruct He as [[? ->]|]; lia.
Qed.

Lemma find_space_ok w s n size mb :
  all_wf mb -> 0 < size -> 0 <= s -> 0 < n -> s + n <= PHYS_ADDR_MAX -> (w = Reserved -> 2 <= s) ->
  exists addr, find_space w s n size mb = Ok addr /\ (addr <> 0 -> space_ok w s n size mb addr) /\
    (addr = 0 -> size = doubled_bytes w mb -> forall x, ~ spare_place w s n mb x).
Proof.
  intros Hwf Hsize Hs Hn Hle H2. pose proof (aw_limit _ Hwf) as Hlim. unfold find_space.
  unfold PHYS_ADDR_MAX in *. destruct w; cbn beta iota.
  { change (u32 (0 + 0)) with 0.
    destruct (find_in_range_ok mb 0 (current_limit mb) size PAGE_SIZE 12) as (r & -> & Hr & Hno);
      [done|done|apply page_pow2|unfold PHYS_ADDR_MAX; lia..|].
    rewrite bind_Ok, andb_false_r. exists r. split; [done|]. split.
    2:{ intros -> -> x (Hd & Hp & Hx & Hf & _). apply (Hno eq_refl x). apply answer_of_free; [done|unfold PAGE_SIZE in *; lia|done|by left]. }
    intros (fl & Ha)%Hr.
    destruct (answer_space mb size 0 (current_limit mb) fl r) as (? & ? & ? & _);
      try done; unfold space_ok, PHYS_ADDR_MAX; csplit; done || lia. }
  specialize (H2 eq_refl). rewrite (u32_small (s + n)) by lia. rewrite (proj2 (Z.eqb_neq n 0)) by lia.
  destruct (find_in_range_ok mb (s + n) (current_limit mb) size PAGE_SIZE 12) as (r & -> & Hr & Hno);
    [done|done|apply page_pow2|unfold PHYS_ADDR_MAX; lia..|].
  rewrite bind_Ok, andb_true_r. destruct (Z.eqb_spec r 0) as [Hr0|Hr0].
  - destruct (find_in_range_ok mb 0 (Z.min s (current_limit mb)) size PAGE_SIZE 12) as (r' & -> & Hr' & Hno');
      [done|done|apply page_pow2|unfold PHYS_ADDR_MAX; lia..|].
    exists r'. split; [done|]. split.
    2:{ intros -> -> x (Hd & Hp & Hx & Hf & Hap). destruct (Hap eq_refl).
        - apply (Hno Hr0 x). apply answer_of_free; [done|lia|done|by left].
        - apply (Hno' eq_refl x). apply answer_of_free; [done|unfold PAGE_SIZE in *; lia|done|right; lia]. }
    intros (fl & Ha)%Hr'.
    destruct (answer_space mb size 0 (Z.min s (current_limit mb)) fl r') as (? & ? & ? & _);
      try done; [unfold PHYS_ADDR_MAX; lia..|].
    pose proof (answer_free _ _ _ _ _ _ _ _ Ha Hsize) as (_ & _ & Hend & _).
    unfold space_ok. csplit; [done..|]. intros _. right.
    unfold search_end, search_start, MEMBLOCK_ALLOC_ACCESSIBLE, MEMBLOCK_ALLOC_NOLEAKTRACE in Hend.
    revert Hend. unfold PAGE_SIZE in *. case_cmp; lia.
  - exists r. split; [done|]. split; [|done]. intros (fl & Ha)%Hr.
    destruct (answer_space mb size (s + n) (current_limit mb) fl r) as (? & ? & ? & _);
      try done; [unfold PHYS_ADDR_MAX; lia..|].
    pose proof (answer_free _ _ _ _ _ _ _ _ Ha Hsize) as (_ & Hlow & _ & _).
    unfold space_ok. csplit; [done..|]. intros _. by left.
Qed.

(** The state after moving to the new array, before the old one is freed. *)
Definition moved (w : which) (addr : Z) (mb : memblock) : memblock :=
  let t := get_type w mb in
  set_type w (MbType (regions t) (2 * max_regions t) (total_size t) (Some addr)) mb.

Definition free_old (w : which) (old : option Z) (size : Z) (mb : memblock) : outcome memblock :=
  if in_slab w mb then Ok mb
  else match old with
       | None => Ok mb
       | Some p => '(_, mb) ← memblock_phys_free dbl p size mb; Ok mb
       end.

Lemma double_array_unfold w s n mb :
  all_wf mb -> max_regions (get_type w mb) <= 2 ^ 26 -> memblock_can_resize mb = true ->
  memblock_double_array false kmalloc dbl w s n mb =
  (addr ← find_space w s n (array_bytes (get_type w (moved w 0 mb))) mb;
   if addr =? 0 then Ok (-1, mb)
   else
     mb1 ← free_old w (array (get_type w mb)) (array_bytes (get_type w mb)) (moved w addr mb);
     mb2 ← ('(ret, mb) ← memblock_reserve dbl addr (array_bytes (get_type w (moved w 0 mb))) mb1;
            BUG_ON (negb (ret =? 0));;
            Ok mb);
     Ok (0, set_in_slab w false mb2)).
Proof.
  intros Hwf Hm Hr. pose proof (wf_max_range w mb Hwf) as [_ [H4 _]].
  unfold memblock_double_array. rewrite Hr. cbn [negb].
  assert (Es : forall x, Z.shiftl x 1 = 2 * x) by (intros; rewrite Z.shiftl_mul_pow2; lia).
  rewrite !Es. unfold array_bytes, moved, sizeof_region. rewrite get_set_same. cbn [max_regions].
  rewrite (u32_small (max_regions (get_type w mb) * 12)), (u32_small (2 * max_regions (get_type w mb))) by lia.
  replace (2 * (max_regions (get_type w mb) * 12)) with (2 * max_regions (get_type w mb) * 12) by lia.
  unfold find_space. by destruct w.
Qed.

Lemma moved_wf w addr mb :
  all_wf mb -> max_regions (get_type w mb) <= 2 ^ 26 -> all_wf (moved w addr mb).
Proof.
  intros Hwf Hm. pose proof (wf_of w mb Hwf) as [H1 H2 H3]. apply all_wf_set; [done|].
  split; cbn; [done|unfold cnt in *; cbn; lia|lia].
Qed.

Lemma moved_room k w s n addr mb :
  all_wf mb -> 0 <= k -> ready (1 + k) w s n mb ->
  cnt (reserved (moved w addr mb)) + 3 <= max_regions (reserved (moved w addr mb)).
Proof.
  intros Hwf Hk Hrd. pose proof (wf_max_range w mb Hwf). unfold moved.
  destruct w; [unfold ready in Hrd; cbn|cbn in *; unfold cnt in *; cbn]; lia.
Qed.

(** The list of reserved regions without the old array. *)
Definition without (old : option Z) (size : Z) (x : option Z) (a : Z) : option Z :=
  match old with Some p => delete_range x p (p + size) a | None => x end.

Lemma free_old_ok w old size mb :
  all_wf mb -> in_slab w mb = false -> 0 <= size ->
  (forall p, old = Some p -> 0 <= p /\ p + size <= PHYS_ADDR_MAX) ->
  cnt (reserved mb) + 2 <= max_regions (reserved mb) ->
  exists t, free_old w old size mb = Ok (set_type Reserved t mb) /\ wf t /\
    cnt t <= cnt (reserved mb) + 2 /\ max_regions t = max_regions (reserved mb) /\
    array t = array (reserved mb) /\
    (forall a, lookup (regions t) a = without old size (lookup (regions (reserved mb)) a) a).
Proof.
  intros Hwf Hsl Hsz Hold Hroom. unfold free_old. rewrite Hsl. destruct old as [p|].
  - destruct (Hold p eq_refl) as [Hp0 Hp]. unfold memblock_phys_free.
    destruct (remove_range_ok dbl (fun _ _ => True) Reserved p size mb) as (ret & mb1 & mb' & -> & _ & _ & Hres);
      [done|done|lia|done|by apply can_grow_room|].
    rewrite cap_size_small, Z.min_l in Hres by lia. cbn [get_type] in *.
    destruct Hres as [(-> & Hdel & Hkeep)|(_ & _ & Hfull & _)]; [|lia].
    rewrite (Hkeep Hroom) in Hdel. destruct Hdel as (Hw & _ & (t & ->) & Hc & Hm & Ha & Hl).
    rewrite bind_Ok. exists t. cbn in *. csplit; try done. by apply (aw_reserved _ Hw).
  - exists (reserved mb). csplit; [by destruct mb|by apply aw_reserved|lia|done|done|done].
Qed.

(** Reserving the new array, which is free. *)
Lemma reserve_new_ok addr size mb :
  all_wf mb -> 0 <= addr -> 0 < size -> addr + size <= PHYS_ADDR_MAX ->
  (forall a, addr <= a < addr + size -> lookup (regions (reserved mb)) a = None) ->
  cnt (reserved mb) + 1 <= max_regions (reserved mb) ->
  exists t, memblock_reserve dbl addr size mb = Ok (0, set_type Reserved t mb) /\ wf t /\
    good (regions t) /\
    cnt t <= cnt (reserved mb) + 1 /\ max_regions t = max_regions (reserved mb) /\
    array t = array (reserved mb) /\
    (forall a, lookup (regions t) a =
       if decide (addr <= a < addr + size) then Some 0 else lookup (regions (reserved mb)) a).
Proof.
  intros Hwf Ha0 Hs Hle Hno Hroom. unfold memblock_reserve.
  assert (Hg : gaps (addr + size) (regions (reserved mb)) addr = 1)
    by (apply gaps_free; [by apply aw_reserved|lia|done]).
  destruct (add_range_ok dbl (fun _ _ => True) Reserved addr size MAX_NUMNODES 0 mb)
    as (ret & mb1 & mb' & -> & _ & _ & Hres);
    [done|done|lia|lia|rewrite cap_size_small, Z.min_l by lia; apply can_grow_room; [done|done|]; cbn; by rewrite Hg|].
  rewrite cap_size_small, Z.min_l in Hres by lia. cbn [get_type] in *. rewrite Hg in Hres.
  destruct Hres as [(-> & Hadd & Hkeep)|(_ & _ & Hfull & _)]; [|lia].
  rewrite (Hkeep Hroom) in Hadd. destruct Hadd as (Hw & _ & _ & (t & ->) & Hc & Hm & Ha & Hl).
  cbn [get_type] in *. rewrite Hg in Hc. cbn [set_type reserved] in *.
  assert (Hl' : forall a, lookup (regions t) a =
    if decide (addr <= a < addr + size) then Some 0 else lookup (regions (reserved mb)) a).
  { intros a. rewrite Hl. unfold union_range. destruct (decide (addr <= a < addr + size)).
    - by rewrite Hno. - by destruct (lookup _ _). }
  exists t. csplit; try done; [by apply (aw_reserved _ Hw)|].
  apply wf_good; [by apply (aw_reserved _ Hw)|]. intros E. specialize (Hl' addr).
  rewrite E, lookup_nothing, decide_True in Hl' by lia. done.
Qed.

Lemma without_stored w mb x a :
  ~ stored w mb a -> without (array (get_type w mb)) (array_bytes (get_type w mb)) x a = x.
Proof.
  intros Hn. unfold without. destruct (array (get_type w mb)) as [p|] eqn:E; [|done].
  unfold delete_range. rewrite decide_False; [done|]. intros Ha. apply Hn. by exists p.
Qed.

Lemma without_None old size a : without old size None a = None.
Proof. unfold without, delete_range. destruct old; [|done]. by destruct (decide _). Qed.

(** The final state: [t2] is the new list of reserved regions. *)
Definition finished (w : which) (addr : Z) (t2 : memblock_type) (mb : memblock) : memblock :=
  set_in_slab w false (set_type Reserved t2 (moved w addr mb)).

Definition other (w : which) : which := match w with Memory => Reserved | Reserved => Memory end.

Section finished.
Context (w : which) (addr : Z) (t2 : memblock_type) (mb : memblock).
Abbreviation F := (finished w addr t2 mb).
Abbreviation nb := (array_bytes (get_type w (moved w 0 mb))).
Hypothesis Hmax : max_regions t2 = max_regions (reserved (moved w addr mb)).
Hypothesis Harr : array t2 = array (reserved (moved w addr mb)).

Lemma finished_array : array (get_type w F) = Some addr /\ array_bytes (get_type w F) = nb.
Proof.
  unfold finished, array_bytes, moved in *. destruct w; cbn in *; [done|]. by rewrite Harr, Hmax.
Qed.

Lemma finished_other_array :
  array (get_type (other w) F) = array (get_type (other w) mb) /\
  array_bytes (get_type (other w) F) = array_bytes (get_type (other w) mb).
Proof.
  unfold finished, array_bytes, moved in *. destruct w; cbn in *; [|done]. by rewrite Harr, Hmax.
Qed.

Lemma stored_finished a : stored w F a <-> addr <= a < addr + nb.
Proof.
  unfold stored. destruct finished_array as [-> ->]. split; [by intros (p & [= <-] & ?)|].
  intros Ha. by exists addr.
Qed.

Lemma stored_other a : stored (other w) F a <-> stored (other w) mb a.
Proof. unfold stored. by destruct finished_other_array as [-> ->]. Qed.

Hypothesis Hlook : forall a, lookup (regions t2) a =
  if decide (addr <= a < addr + nb) then Some 0
  else without (array (get_type w mb)) (array_bytes (get_type w mb)) (lookup (regions (reserved mb)) a) a.
Hypothesis Hfree : forall a, addr <= a < addr + nb -> lookup (regions (reserved mb)) a = None.
Hypothesis Hpage : PAGE_SIZE <= addr /\ addr + nb <= PHYS_ADDR_MAX.

Lemma finished_reserved : reserved F = t2.
Proof. by destruct w. Qed.

Lemma which_cases (P : which -> Prop) : P w -> P (other w) -> forall w', P w'.
Proof. by destruct w; intros ? ? []. Qed.

Lemma finished_arrays_ok : arrays_ok mb -> arrays_ok F.
Proof.
  intros [Hsl Hbd Hheld Hap]. split.
  - destruct Hsl. by destruct w.
  - apply (which_cases (fun w' => forall p, array (get_type w' F) = Some p ->
      PAGE_SIZE <= p /\ p + array_bytes (get_type w' F) <= PHYS_ADDR_MAX)).
    + intros p. destruct finished_array as [-> ->]. by intros [= <-].
    + intros p. destruct finished_other_array as [-> ->]. apply Hbd.
  - apply (which_cases (fun w' => forall a, stored w' F a -> lookup (regions (reserved F)) a <> None));
      intros a; rewrite finished_reserved, Hlook.
    + intros Ha%stored_finished. by rewrite decide_True.
    + intros Ha%stored_other. destruct (decide _); [done|]. rewrite without_stored; [by eapply Hheld|].
      intros Hw. destruct w; cbn in *; by apply (Hap a).
  - assert (Hno : forall a, ~ (stored w F a /\ stored (other w) F a)).
    { intros a [Ha%stored_finished Ho%stored_other]. apply (Hheld _ _ Ho). by apply Hfree. }
    intros a [H1 H2]. apply (Hno a). by destruct w.
Qed.

Lemma finished_doubled :
  all_wf mb -> arrays_ok mb -> max_regions (get_type w mb) <= 2 ^ 26 -> wf t2 -> good (regions t2) ->
  cnt t2 <= cnt (reserved mb) + 3 -> doubled w mb F.
Proof.
  intros Hwf Har Hm W2 G2 C2. split.
  - pose proof (moved_wf w addr mb Hwf Hm) as Hw1.
    assert (all_wf (set_type Reserved t2 (moved w addr mb))) as [? ? ?] by (by apply all_wf_set).
    by destruct w; split.
  - by apply finished_arrays_ok.
  - unfold finished, moved in *. by destruct w.
  - unfold finished, moved. destruct w; cbn in *; [unfold cnt; cbn; lia|done].
  - unfold finished, moved. by destruct w.
  - unfold finished, moved. by destruct w.
  - split; [..|by destruct w|by intros ->]; intros a H1 H2;
      rewrite ?finished_reserved, ?Hlook; rewrite stored_finished in *.
    + rewrite decide_False by done. destruct H1 as (p & Ep & Ha). rewrite Ep. cbn. unfold delete_range.
      by rewrite decide_True.
    + by apply Hfree.
    + by rewrite decide_False, without_stored.
Qed.

Lemma finished_ready k s n :
  ready (1 + k) w s n mb -> cnt t2 <= cnt (reserved mb) + 3 ->
  (w = Reserved -> s + n <= addr \/ addr + nb <= s) -> ready k w s n F.
Proof.
  intros Hrd C2 Hap. pose proof stored_finished as HF. pose proof stored_other as HO.
  unfold ready in *. destruct w; cbn [other] in *.
  - unfold finished, moved in *. cbn in *. lia.
  - destruct Hrd as [H2 Hno]. split; [done|]. intros w' a Ha.
    destruct w'; [rewrite HO; by apply Hno|rewrite HF]. specialize (Hap eq_refl). lia.
Qed.
End finished.

#[export] Instance double_array_ok : DoublerOk (memblock_double_array false kmalloc dbl).
Proof.
  intros k w s n mb Hwf Har Hmax Hs Hn Hle Hk Hrd.
  destruct (memblock_can_resize mb) eqn:Hcan;
    [|right; unfold memblock_double_array; rewrite Hcan; split; [done|by left]].
  pose proof (wf_max_range w mb Hwf) as [Hc [H4 _]].
  rewrite double_array_unfold by done. set (nb := array_bytes _).
  assert (Hnb : 0 < nb <= 2 ^ 31).
  { apply array_bytes_pos. unfold moved. rewrite get_set_same. cbn. lia. }
  destruct (find_space_ok w s n nb mb) as (addr & -> & Hsp & Hnone);
    [done|lia|done|done|done|destruct w; [done|]; intros _; by destruct Hrd|].
  rewrite bind_Ok. destruct (Z.eqb_spec addr 0) as [->|Hne].
  { right. split; [done|]. right. apply Hnone; [done|]. unfold nb, moved, array_bytes, doubled_bytes. by rewrite get_set_same. }
  left.
  destruct (Hsp Hne) as (Hp & Hpe & Hfree & Hapart). pose proof (moved_wf w addr mb Hwf Hmax) as Hwf1.
  pose proof (moved_room k w s n addr mb Hwf Hk Hrd) as Hroom.
  assert (Hsame : regions (reserved (moved w addr mb)) = regions (reserved mb)) by (by destruct w).
  pose proof Har as [Hsl Hbd Hheld Hap].
  destruct (free_old_ok w (array (get_type w mb)) (array_bytes (get_type w mb)) (moved w addr mb))
    as (t1 & -> & W1 & C1 & M1 & A1 & L1);
    [done|by destruct w, Hsl|pose proof (array_bytes_pos (get_type w mb)); lia| |lia|].
  { intros p Ep. destruct (Hbd w p Ep). unfold PAGE_SIZE in *. lia. }
  rewrite bind_Ok. rewrite Hsame in L1.
  destruct (reserve_new_ok addr nb (set_type Reserved t1 (moved w addr mb)))
    as (t2 & -> & W2 & G2 & C2 & M2 & A2 & L2);
    [by apply all_wf_set|unfold PAGE_SIZE in *; lia|lia|done| |cbn; lia|].
  { intros a Ha. cbn. by rewrite L1, Hfree, without_None. }
  cbn [set_type reserved] in *. rewrite !bind_Ok. cbn beta iota. cbn [Z.eqb negb BUG_ON].
  rewrite !bind_Ok.
  change (set_in_slab w false _) with (finished w addr t2 mb).
  assert (Hlook : forall a, lookup (regions t2) a = if decide (addr <= a < addr + nb) then Some 0
    else without (array (get_type w mb)) (array_bytes (get_type w mb)) (lookup (regions (reserved mb)) a) a).
  { intros a. by rewrite L2, L1. }
  rewrite M1 in M2. rewrite A1 in A2.
  assert (Hcnt : cnt (reserved (moved w addr mb)) = cnt (reserved mb)) by (by destruct w).
  exists (finished w addr t2 mb). csplit; [done| |].
  - apply finished_doubled; done || lia.
  - apply finished_ready; done || lia.
Qed.
End double.

(** ** The operations with arrays that grow *)

Section ops.
Context (dbl : doubler) `{!DoublerOk dbl}.

(** What holds of the state between calls; [b] bounds the arrays. *)
Record mb_ok (b : Z) (mb : memblock) : Prop := {
  mo_wf : all_wf mb;
  mo_arrays : arrays_ok mb;
  mo_max w : max_regions (get_type w mb) <= b;
}.

(** What growing the array of list [w] leaves. *)
Record regrown (w : which) (mb mb1 : memblock) : Prop := {
  rg_arrays : arrays_ok mb1;
  rg_rehomed : rehomed w mb mb1;
  rg_max : max_regions (get_type w mb1) <= 4 * max_regions (get_type w mb);
}.

Lemma regrown_refl w mb : all_wf mb -> arrays_ok mb -> regrown w mb mb.
Proof.
  intros Hwf Har. split; [done|apply rehomed_refl|]. pose proof (wf_max_range w mb Hwf). lia.
Qed.

Lemma can_grow_ok w s n extra mb :
  all_wf mb -> arrays_ok mb -> max_regions (get_type w mb) <= 2 ^ 25 ->
  extra <= cnt (get_type w mb) + 1 ->
  0 <= s -> 0 < n -> s + n <= PHYS_ADDR_MAX -> ready 2 w s n mb ->
  can_grow dbl (fun ret mb1 => regrown w mb mb1 /\ (ready 2 w s n mb -> ready 0 w s n mb1) /\ (ret <> 0 -> stuck w s n mb1)) w s n extra mb.
Proof.
  intros. destruct (grow_loop_ok dbl w extra s n mb)
    as (ret & mb' & E & Hg & Ha & Hr & Hh & Hm & Hres); [done..|].
  exists ret, mb'. split; [done|]. split; [done|]. split; [|naive_solver]. split; [by split|]. split; [done|]. naive_solver.
Qed.

Lemma stored_set w t w' mb a :
  array t = array (get_type w mb) -> max_regions t = max_regions (get_type w mb) ->
  stored w' (set_type w t mb) a <-> stored w' mb a.
Proof.
  intros Ea Em. unfold stored, array_bytes. destruct w, w'; cbn in *; rewrite ?Ea, ?Em; done.
Qed.

Lemma arrays_ok_set w t mb :
  arrays_ok mb -> array t = array (get_type w mb) -> max_regions t = max_regions (get_type w mb) ->
  (w = Reserved -> forall w' a, stored w' mb a -> lookup (regions t) a <> None) ->
  arrays_ok (set_type w t mb).
Proof.
  intros [Hsl Hb Hh Hap] Ea Em Hl. split.
  - by destruct w.
  - intros w' p. unfold array_bytes in *. destruct w, w'; cbn in *; rewrite ?Ea, ?Em; apply (Hb Memory) || apply (Hb Reserved).
  - intros w' a. rewrite stored_set by done. intros Hs. destruct w; cbn; [by eapply Hh|].
    by apply (Hl eq_refl w').
  - intros a. rewrite !stored_set by done. apply Hap.
Qed.

Lemma gaps_zero t base end_ : wf t -> 0 <= base -> end_ <= base -> gaps end_ (regions t) base = 0.
Proof.
  intros Hwf H0 Hle. destruct (wf_regions _ Hwf) as [->|[_ Hg]]; [|by apply gaps_empty].
  cbn. case_cmp; [lia_b2z|]. rewrite (proj2 (Z.leb_le _ _)) by lia. lia_b2z.
Qed.

Abbreviation cap := memblock_cap_size.

(** The array of list [w] has room for [extra] more regions. *)
Definition fits (w : which) (extra : Z) (mb : memblock) : Prop := cnt (get_type w mb) + extra <= max_regions (get_type w mb).

(** It has not, and cannot grow. *)
Definition full (w : which) (base size extra : Z) (mb : memblock) : Prop :=
  max_regions (get_type w mb) < cnt (get_type w mb) + extra /\ stuck w base (cap base size) mb.

(** The regions that adding a range to list [w] puts into it. *)
Definition new_regions (w : which) (base size : Z) (mb : memblock) : Z :=
  gaps (base + cap base size) (regions (get_type w mb)) base.

(** The regions that isolating a range may cut in two. *)
Definition cut_regions : Z := 2.

Lemma ready_less w s n mb : ready 2 w s n mb -> ready 0 w s n mb.
Proof. destruct w; cbn; [lia|done]. Qed.

Lemma add_grow w base size nid flags mb :
  all_wf mb -> arrays_ok mb -> max_regions (get_type w mb) <= 2 ^ 25 -> 0 <= base <= PHYS_ADDR_MAX -> 0 <= size ->
  fits w (new_regions w base size mb) mb \/ ready 2 w base (cap base size) mb ->
  exists ret mb1 mb', memblock_add_range dbl w base size nid flags mb = Ok (ret, mb') /\
    grown w base (cap base size) mb mb1 /\ regrown w mb mb1 /\
    (ready 2 w base (cap base size) mb -> ready 0 w base (cap base size) mb1) /\
    (fits w (new_regions w base size mb) mb -> mb1 = mb) /\
    ((ret = 0 /\ added w base (base + cap base size) flags mb1 mb' /\ arrays_ok mb') \/
     (ret = - ENOMEM /\ mb' = mb1 /\ ~ fits w (new_regions w base size mb) mb /\ full w base size (new_regions w base size mb1) mb1)).
Proof.
  intros Hwf Har Hmax Hb Hs Hrd. pose proof (cap_size_small base size Hb) as En. unfold new_regions, fits, full.
  destruct (add_range_ok dbl (fun ret mb1 => regrown w mb mb1 /\ (ready 2 w base (cap base size) mb -> ready 0 w base (cap base size) mb1) /\
    (ret <> 0 -> stuck w base (cap base size) mb1)) w base size nid flags mb) as (ret & mb1 & mb' & E & Hg & (HG & Hr1 & Hst1) & Hres); [done| |done|done| |].
  - split; [by apply regrown_refl|]. split; [apply ready_less|done].
  - destruct Hrd as [Hfit|Hrd]; [apply can_grow_room; [done| |exact Hfit]; split; [by apply regrown_refl|]; split; [apply ready_less|done]|].
    destruct (decide (cap base size = 0)) as [E0|E0].
    + apply can_grow_room; [done|split; [by apply regrown_refl|]; split; [apply ready_less|done]|].
      rewrite gaps_zero by (lia || by apply wf_of). pose proof (wf_max_range w mb Hwf). lia.
    + apply can_grow_ok; [done|done|done|apply gaps_le|lia..|done].
  - exists ret, mb1, mb'. do 4 (split; [done|]). destruct Hres as [(-> & Hadd & Hkeep)|(-> & -> & Hfull & Hfull1)].
    2:{ split; [intros; lia|]. right. split; [done|]. split; [done|]. split; [lia|]. split; [done|]. by apply Hst1. }
    split; [done|left]. csplit; [done|done|]. destruct Hadd as (_ & _ & _ & (t & ->) & _ & Em & Ea & Hl).
    rewrite get_set_same in *. pose proof (rg_arrays _ _ _ HG) as Har1.
    apply arrays_ok_set; [done..|]. intros -> w' a Hst. cbn in Hl. rewrite Hl.
    pose proof (ar_held _ Har1 _ _ Hst) as Hh. by destruct (lookup (regions (reserved mb1)) a).
Qed.

(** Changing the list of memory leaves the reserved one. *)
Lemma rehomed_memory mb mb1 t :
  rehomed Memory mb mb1 -> array t = array (memory mb1) -> max_regions t = max_regions (memory mb1) -> rehomed Memory mb (set_type Memory t mb1).
Proof.
  intros [O N E C _] Ea Em. split; [..|done|done]; intros a; rewrite stored_set by done; cbn; [apply O|apply N|apply E].
Qed.

(** C4. [memblock_add] is the union of maps: when it returns 0, every address
    of the range that was not memory has become memory, and no other address
    has changed. It returns an error, [-ENOMEM], only when the array has no
    room for the new regions and cannot grow: growing is not allowed, or no
    place for the larger array is free; the list is then as before. The
    invariants are kept, no [BUG_ON] is hit, and the list of reserved regions
    changes only where the array moves from and to. Either the array has room,
    or six regions of the reserved list are unused, since moving the array
    frees and reserves; without that the arrays can come to overlap. *)
Theorem memblock_add_spec base size mb :
  all_wf mb -> arrays_ok mb -> max_regions (memory mb) <= 2 ^ 25 ->
  fits Memory (new_regions Memory base size mb) mb \/ fits Reserved 6 mb ->
  0 <= base <= PHYS_ADDR_MAX -> 0 <= size ->
  exists ret mb', memblock_add dbl base size mb = Ok (ret, mb') /\ all_wf mb' /\ arrays_ok mb' /\ rehomed Memory mb mb' /\
    (fits Memory (new_regions Memory base size mb) mb -> ret = 0 /\ reserved mb' = reserved mb) /\
    ((ret = 0 /\ (merged (regions (memory mb)) -> merged (regions (memory mb'))) /\
      forall a, lookup (regions (memory mb')) a =
        union_range (Z.min (base + size) PHYS_ADDR_MAX) 0 (lookup (regions (memory mb)) a) base a) \/
     (ret = - ENOMEM /\ regions (memory mb') = regions (memory mb) /\ full Memory base size (new_regions Memory base size mb) mb')).
Proof.
  intros Hwf Har Hmax Hroom Hb Hs. pose proof (cap_size_small base size Hb) as En.
  destruct (add_grow Memory base size MAX_NUMNODES 0 mb)
    as (ret & mb1 & mb' & E & [Hwf1 _ _ Hm1] & [Har1 Hh _] & _ & Hfit & Hres); [done..|unfold fits, ready in *; cbn in *; tauto|].
  exists ret, mb'. split; [exact E|]. cbn [get_type] in *. destruct Hres as [(-> & Hadd & Har')|(-> & -> & Hno & Hfull)].
  - destruct Hadd as (Hwf' & _ & Hmg & (t & ->) & _ & Em & Ea & Hl). cbn [get_type set_type memory] in *. rewrite Hm1 in *.
    split; [done|]. split; [done|]. split; [by apply rehomed_memory|]. split; [intros Hf; split; [done|]; by rewrite (Hfit Hf)|left].
    csplit; [done|done|]. intros a. rewrite Hl, En. do 2 f_equal. lia.
  - split; [done|]. split; [done|]. split; [done|]. split; [done|]. right. csplit; [done|done|]. unfold new_regions in Hfull. cbn in Hfull. by rewrite Hm1 in Hfull.
Qed.

(** C5. [memblock_reserve] is the union of maps on the list of reserved
    regions, outside the storage of its array, and when it returns 0 the whole
    range is reserved. It returns an error, [-ENOMEM], only when the array has
    no room for the new regions and cannot grow; only the place of the array
    can then have changed. When the array moves it stays reserved, apart from
    the other one and apart from the range. Either the array has room, and
    then nothing is asked of the range, or the range starts at 2 at least and
    does not meet the storage of the arrays; without that the array can be
    moved into the range. *)
Theorem memblock_reserve_spec base size mb :
  all_wf mb -> arrays_ok mb -> max_regions (reserved mb) <= 2 ^ 25 ->
  0 <= base <= PHYS_ADDR_MAX -> 0 <= size ->
  fits Reserved (new_regions Reserved base size mb) mb \/ (2 <= base /\ forall w a, base <= a < base + size -> ~ stored w mb a) ->
  exists ret mb', memblock_reserve dbl base size mb = Ok (ret, mb') /\ all_wf mb' /\ arrays_ok mb' /\
    regions (memory mb') = regions (memory mb) /\
    (fits Reserved (new_regions Reserved base size mb) mb -> ret = 0 /\ array (reserved mb') = array (reserved mb)) /\
    ((ret = 0 /\
      (forall a, ~ stored Reserved mb a -> ~ stored Reserved mb' a -> lookup (regions (reserved mb')) a =
        union_range (Z.min (base + size) PHYS_ADDR_MAX) 0 (lookup (regions (reserved mb)) a) base a) /\
      (forall a, base <= a < Z.min (base + size) PHYS_ADDR_MAX -> lookup (regions (reserved mb')) a <> None) /\
      (forall a, base <= a < Z.min (base + size) PHYS_ADDR_MAX -> stored Reserved mb' a -> stored Reserved mb a)) \/
     (ret = - ENOMEM /\ rehomed Reserved mb mb' /\ full Reserved base size (new_regions Reserved base size mb') mb')).
Proof.
  intros Hwf Har Hmax Hb Hs Hcl. pose proof (cap_size_small base size ltac:(lia)) as En.
  assert (Hrd : fits Reserved (new_regions Reserved base size mb) mb \/ ready 2 Reserved base (cap base size) mb).
  { destruct Hcl as [?|[? Hcl]]; [by left|right]. split; [lia|]. intros w a Ha. apply Hcl. lia. }
  destruct (add_grow Reserved base size MAX_NUMNODES 0 mb)
    as (ret & mb1 & mb' & E & [Hwf1 _ _ Hm1] & [Har1 Hh _] & Hr1 & Hfit & Hres); [done..|].
  exists ret, mb'. split; [exact E|]. destruct Hres as [(-> & Hadd & Har')|(-> & -> & Hno & Hfull)].
  - destruct Hadd as (Hwf' & _ & _ & (t & ->) & _ & Em & Ea & Hl). rewrite get_set_same in *. cbn [get_type] in *.
    split; [done|]. split; [done|]. split; [done|]. split; [intros Hf; split; [done|]; cbn; by rewrite Ea, (Hfit Hf)|left]. csplit; [done| | |].
    + intros a Hn Hn'. rewrite stored_set in Hn' by done. cbn in *. rewrite Hl, En.
      rewrite (rh_else _ _ _ Hh) by done. do 2 f_equal. lia.
    + intros a Ha. cbn. rewrite Hl. unfold union_range. rewrite decide_True by lia. by destruct (lookup _ a).
    + intros a Ha. rewrite stored_set by done. destruct Hrd as [Hf|Hrd]; [by rewrite (Hfit Hf)|].
      destruct (Hr1 Hrd) as [_ Hr0]. intros Hst. destruct (Hr0 Reserved a); [lia|done].
  - split; [done|]. split; [done|]. split; [done|]. split; [done|]. by right.
Qed.

Lemma remove_grow w base size mb :
  all_wf mb -> arrays_ok mb -> max_regions (get_type w mb) <= 2 ^ 25 -> 0 <= base <= PHYS_ADDR_MAX -> 0 <= size ->
  (w = Memory /\ fits w cut_regions mb) \/ ready 2 w base (cap base size) mb ->
  exists ret mb1 mb', memblock_remove_range dbl w base size mb = Ok (ret, mb') /\
    grown w base (cap base size) mb mb1 /\ regrown w mb mb1 /\ (fits w cut_regions mb -> mb1 = mb) /\
    ((ret = 0 /\ deleted w base (base + cap base size) mb1 mb' /\ arrays_ok mb') \/
     (ret = - ENOMEM /\ mb' = mb1 /\ ~ fits w cut_regions mb /\ full w base size cut_regions mb1)).
Proof.
  intros Hwf Har Hmax Hb Hs Hrd. pose proof (cap_size_small base size Hb) as En. unfold fits, full, cut_regions in *.
  pose proof (wf_max_range w mb Hwf) as Hcm. destruct (decide (cap base size = 0)) as [E0|E0].
  { exists 0, mb, mb. unfold memblock_remove_range, memblock_isolate_range. rewrite E0. cbn.
    csplit; [by destruct mb, w|by apply grown_refl|by apply regrown_refl|done|left].
    csplit; [done| |done]. unfold deleted. csplit; try done; [exists (get_type w mb); by destruct mb, w|lia|].
    intros a. unfold delete_range. by rewrite decide_False by lia. }
  destruct (remove_range_ok dbl (fun ret mb1 => regrown w mb mb1 /\ (ready 2 w base (cap base size) mb -> ready 0 w base (cap base size) mb1) /\
    (ret <> 0 -> stuck w base (cap base size) mb1)) w base size mb) as (ret & mb1 & mb' & E & Hg & (HG & Hr1 & Hst1) & Hres); [done| |done|done| |].
  - split; [by apply regrown_refl|]. split; [apply ready_less|done].
  - destruct Hrd as [[_ Hfit]|Hrd]; [apply can_grow_room; [done| |exact Hfit]; split; [by apply regrown_refl|]; split; [apply ready_less|done]|].
    apply can_grow_ok; [done|done|done|lia..|done].
  - exists ret, mb1, mb'. do 3 (split; [done|]). destruct Hres as [(-> & Hdel & Hkeep)|(-> & -> & Hfull & Hfull1)].
    2:{ split; [intros; lia|]. right. split; [done|]. split; [done|]. split; [lia|]. split; [done|]. by apply Hst1. }
    split; [done|left]. csplit; [done|done|]. destruct Hdel as (_ & _ & (t & ->) & _ & Em & Ea & Hl).
    rewrite get_set_same in *. pose proof (rg_arrays _ _ _ HG) as Har1.
    apply arrays_ok_set; [done..|]. intros -> w' a Hst. cbn in Hl. rewrite Hl. unfold delete_range.
    destruct Hrd as [[? _]|Hrd]; [done|]. destruct (Hr1 Hrd) as [_ Hr0]. rewrite decide_False by (intros Ha; by apply (Hr0 w' a)).
    by apply (ar_held _ Har1 w').
Qed.

(** C6. [memblock_remove] deletes the range from the memory list: when it
    returns 0, no address of the range is memory and every other address is as
    it was. It returns an error, [-ENOMEM], only when the array has no room for
    the two regions that may be cut in two and cannot grow; the list is then as
    before. The list of reserved regions does not change when there is room,
    and else only where the array moves from and to; the invariants are kept.
    Either there is room, or six regions of the reserved list are unused. *)
Theorem memblock_remove_spec base size mb :
  all_wf mb -> arrays_ok mb -> max_regions (memory mb) <= 2 ^ 25 ->
  fits Memory cut_regions mb \/ fits Reserved 6 mb ->
  0 <= base <= PHYS_ADDR_MAX -> 0 <= size ->
  exists ret mb', memblock_remove dbl base size mb = Ok (ret, mb') /\ all_wf mb' /\ arrays_ok mb' /\ rehomed Memory mb mb' /\
    (fits Memory cut_regions mb -> ret = 0 /\ reserved mb' = reserved mb) /\
    ((ret = 0 /\ forall a, lookup (regions (memory mb')) a =
        delete_range (lookup (regions (memory mb)) a) base (Z.min (base + size) PHYS_ADDR_MAX) a) \/
     (ret = - ENOMEM /\ regions (memory mb') = regions (memory mb) /\ full Memory base size cut_regions mb')).
Proof.
  intros Hwf Har Hmax Hroom Hb Hs. pose proof (cap_size_small base size Hb) as En.
  destruct (remove_grow Memory base size mb)
    as (ret & mb1 & mb' & E & [Hwf1 _ _ Hm1] & [Har1 Hh _] & Hfit & Hres); [done..|unfold fits, ready in *; cbn in *; tauto|].
  exists ret, mb'. split; [exact E|]. cbn [get_type] in *. destruct Hres as [(-> & Hdel & Har')|(-> & -> & Hno & Hfull)].
  - destruct Hdel as (Hwf' & _ & (t & ->) & _ & Em & Ea & Hl). cbn [get_type set_type memory] in *. rewrite Hm1 in *.
    split; [done|]. split; [done|]. split; [by apply rehomed_memory|]. split; [intros Hf; split; [done|]; by rewrite (Hfit Hf)|left].
    csplit; [done|]. intros a. rewrite Hl, En. f_equal. lia.
  - split; [done|]. split; [done|]. split; [done|]. split; [done|]. by right.
Qed.

(** [memblock_phys_free] deletes the range from the list of reserved
    regions, outside the storage of the arrays, as long as the range is not
    the storage of an array. *)
Theorem memblock_phys_free_spec base size mb :
  all_wf mb -> arrays_ok mb -> max_regions (reserved mb) <= 2 ^ 25 ->
  2 <= base <= PHYS_ADDR_MAX -> 0 <= size ->
  (forall w a, base <= a < base + size -> ~ stored w mb a) ->
  exists ret mb', memblock_phys_free dbl base size mb = Ok (ret, mb') /\ all_wf mb' /\ arrays_ok mb' /\
    regions (memory mb') = regions (memory mb) /\
    ((ret = 0 /\
      forall a, ~ stored Reserved mb a -> ~ stored Reserved mb' a -> lookup (regions (reserved mb')) a =
        delete_range (lookup (regions (reserved mb)) a) base (Z.min (base + size) PHYS_ADDR_MAX) a) \/
     (ret = - ENOMEM /\ rehomed Reserved mb mb')).
Proof.
  intros Hwf Har Hmax Hb Hs Hcl. pose proof (cap_size_small base size ltac:(lia)) as En.
  destruct (remove_grow Reserved base size mb)
    as (ret & mb1 & mb' & E & [Hwf1 _ _ Hm1] & [Har1 Hh _] & _ & Hres); [done|done|done|lia|done| |].
  { right. split; [lia|]. intros w a Ha. apply Hcl. lia. }
  exists ret, mb'. split; [exact E|]. destruct Hres as [(-> & Hdel & Har')|(-> & -> & _)].
  - destruct Hdel as (Hwf' & _ & (t & ->) & _ & Em & Ea & Hl). rewrite get_set_same in *.
    csplit; [done|done|done|left]. csplit; [done|].
    intros a Hn Hn'. rewrite stored_set in Hn' by done. cbn [get_type] in *. rewrite Hl, En.
    rewrite (rh_else _ _ _ Hh) by done. f_equal. lia.
  - csplit; [done|done|done|by right].
Qed.

(** What is reserved outside the array of reserved regions stays so. *)
Definition keeps (mb mb' : memblock) : Prop :=
  forall a, lookup (regions (reserved mb)) a <> None -> ~ stored Reserved mb a ->
    lookup (regions (reserved mb')) a <> None /\ ~ stored Reserved mb' a.

Lemma keeps_trans mb mb1 mb2 : keeps mb mb1 -> keeps mb1 mb2 -> keeps mb mb2.
Proof. intros H1 H2 a Hl Hn. destruct (H1 a Hl Hn). by apply H2. Qed.

Lemma rehomed_keeps mb mb' : rehomed Reserved mb mb' -> keeps mb mb'.
Proof.
  intros Hh a Hl Hn. assert (Hn' : ~ stored Reserved mb' a) by (intros Hst; by apply Hl, (rh_new _ _ _ Hh)).
  by rewrite (rh_else _ _ _ Hh).
Qed.

(** Freeing a range keeps what is reserved outside it. *)
Lemma phys_free_keeps base size mb :
  all_wf mb -> arrays_ok mb -> max_regions (reserved mb) <= 2 ^ 25 -> 2 <= base <= PHYS_ADDR_MAX -> 0 <= size ->
  (forall w a, base <= a < base + size -> ~ stored w mb a) ->
  exists ret mb', memblock_phys_free dbl base size mb = Ok (ret, mb') /\ all_wf mb' /\ arrays_ok mb' /\
    forall a, ~ base <= a < base + size -> lookup (regions (reserved mb)) a <> None -> ~ stored Reserved mb a ->
      lookup (regions (reserved mb')) a <> None.
Proof.
  intros Hwf Har Hmax Hb Hs Hcl. pose proof (cap_size_small base size ltac:(lia)) as En.
  destruct (remove_grow Reserved base size mb)
    as (ret & mb1 & mb' & E & [Hwf1 _ _ _] & [Har1 Hh _] & _ & Hres); [done|done|done|lia|done| |].
  { right. split; [lia|]. intros w a Ha. apply Hcl. lia. }
  exists ret, mb'. split; [exact E|]. destruct Hres as [(-> & Hdel & Har')|(-> & -> & _)].
  - destruct Hdel as (Hwf' & _ & _ & _ & _ & _ & Hl). split_and!; [done|done|]. intros a Hout Ha Hn. cbn [get_type] in Hl.
    rewrite Hl. unfold delete_range. rewrite decide_False by lia. by apply (rehomed_keeps mb mb1).
  - split_and!; [done|done|]. intros a _ Ha Hn. by apply (rehomed_keeps mb mb1).
Qed.

(** ** The allocator *)

(** An address handed out: it answers the request, it was free, it is
    reserved now, and nothing else outside the arrays changed. *)
Record allocated (size align start end_ : Z) (mb mb' : memblock) (r : Z) : Prop := {
  al_align : (align | r);
  al_range : Z.max start PAGE_SIZE <= r /\ r + size <= search_end mb start end_;
  al_free : exists nid flags, free_block mb nid flags r size;
  al_apart a : r <= a < r + size -> ~ stored Reserved mb' a;
  al_lookup a : ~ stored Reserved mb a -> ~ stored Reserved mb' a ->
    lookup (regions (reserved mb')) a = union_range (r + size) 0 (lookup (regions (reserved mb)) a) r a;
  al_reserved a : r <= a < r + size -> lookup (regions (reserved mb')) a <> None;
  al_new a : stored Reserved mb' a -> ~ stored Reserved mb a -> lookup (regions (reserved mb)) a = None;
  al_memory : memory mb' = memory mb;
}.

Lemma allocated_keeps size align start end_ mb mb' r : allocated size align start end_ mb mb' r -> keeps mb mb'.
Proof.
  intros Ha a Hl Hn. assert (Hn' : ~ stored Reserved mb' a) by (intros Hst; by apply Hl, (al_new _ _ _ _ _ _ _ Ha)).
  rewrite (al_lookup _ _ _ _ _ _ _ Ha) by done. by destruct (lookup _ a).
Qed.

(** No block answers the request, or one does and the list of reserved regions
    has no room for it and cannot grow. *)
Definition refused (size align start end_ nid flags : Z) (mb : memblock) : Prop :=
  (forall x, ~ answer mb size align start end_ nid flags x) \/
  exists x, full Reserved x size (new_regions Reserved x size mb) mb.

(** The outcome of a request: an address, found in a state [mb0] in which at
    most the array of reserved regions had moved, or none. [nid] and [flags]
    are those of the last attempt. *)
Definition request_done (b size align start end_ nid flags : Z) (mb mb' : memblock) (r : Z) : Prop :=
  mb_ok b mb' /\
  ((r <> 0 /\ exists mb0, rehomed Reserved mb mb0 /\ allocated size align start end_ mb0 mb' r) \/
   (r = 0 /\ rehomed Reserved mb mb' /\ refused size align start end_ nid flags mb')).

Lemma request_later b size align start end_ nid flags mb mb1 mb' r :
  rehomed Reserved mb mb1 -> request_done b size align start end_ nid flags mb1 mb' r ->
  request_done b size align start end_ nid flags mb mb' r.
Proof.
  intros Hh [Hok [(Hr & mb0 & Hh0 & Ha)|(-> & Hh' & Href)]]; (split; [done|]).
  - left. split; [done|]. exists mb0. split; [by eapply rehomed_trans|done].
  - right. split; [done|]. split; [by eapply rehomed_trans|done].
Qed.

(** An address answers whatever was asked for last. *)
Lemma request_found b size align start end_ nid flags nid' flags' mb mb' r :
  r <> 0 -> request_done b size align start end_ nid flags mb mb' r -> request_done b size align start end_ nid' flags' mb mb' r.
Proof. intros Hr [Hok [H|[? _]]]; [|done]. split; [done|by left]. Qed.

Lemma free_not_stored nid flags x n mb w a :
  arrays_ok mb -> free_block mb nid flags x n -> x <= a < x + n -> ~ stored w mb a.
Proof. intros Har (r & _ & _ & _ & _ & Hno) Ha Hst. by apply (ar_held _ Har w a Hst), Hno. Qed.

Lemma find_and_reserve_ok b size align k start end_ nid flags mb :
  mb_ok b mb -> b <= 2 ^ 25 -> 0 < size -> is_pow2 align k ->
  0 <= start <= PHYS_ADDR_MAX -> 0 <= end_ <= PHYS_ADDR_MAX ->
  exists r mb', find_and_reserve dbl size align start end_ nid flags mb = Ok (r, mb') /\
    request_done (4 * b) size align start end_ nid flags mb mb' r.
Proof.
  intros [Hwf Har Hmx] Hb Hs Hal Hst Hen. unfold find_and_reserve.
  destruct (find_node_ok mb size align k start end_ nid flags) as (r & -> & Hr); [done..|]. rewrite bind_Ok.
  assert (Hb0 : 0 <= b) by (pose proof (Hmx Memory); pose proof (wf_max_range Memory mb Hwf); lia).
  destruct (Z.eqb_spec r 0) as [->|Hne].
  { exists 0, mb. split; [done|]. split; [split; [done..|]; intros w; specialize (Hmx w); lia|].
    right. split; [done|]. split; [apply rehomed_refl|]. left. by destruct Hr as [[? _]|[_ ?]]. }
  destruct Hr as [(_ & Hans & _)|[]]; [|done]. pose proof Hans as (Hdiv & Hlo & Hhi & Hblk).
  assert (Hend : r + size <= PHYS_ADDR_MAX).
  { destruct Hblk as (rg & Hrg & _ & _ & Hle & _).
    destruct (elem_region_at (memory mb) rg Hrg) as (i & Hi & <-).
    pose proof (region_bounds (memory mb) (aw_memory _ Hwf) i Hi). lia. }
  unfold search_start, PAGE_SIZE in Hlo.
  pose proof (cap_size_small r size ltac:(lia)) as En. rewrite Z.min_l in En by lia.
  assert (Hrd2 : ready 2 Reserved r (cap r size) mb) by (rewrite En; split; [lia|]; intros w a Ha; by eapply free_not_stored).
  unfold memblock_reserve.
  destruct (add_grow Reserved r size MAX_NUMNODES 0 mb)
    as (ret & mb1 & mb' & -> & [Hwf1 _ _ Hm1] & [Har1 Hh Hm4] & Hr1 & _ & Hres);
    [done|done|specialize (Hmx Reserved); lia|lia|lia|right; by apply Hrd2|]. specialize (Hr1 Hrd2).
  rewrite bind_Ok. cbn beta iota. rewrite En in *. pose proof (rh_memory _ _ _ Hh eq_refl) as Emem.
  assert (Hok1 : mb_ok (4 * b) mb1).
  { split; [done..|]. intros []; cbn in *; [rewrite Emem; specialize (Hmx Memory)|specialize (Hmx Reserved)];
      cbn in *; lia. }
  destruct Hres as [(-> & Hadd & Har')|(-> & -> & _ & Hfull)].
  - destruct Hadd as (Hwf' & _ & _ & (t & ->) & _ & Em & Ea & Hl). rewrite get_set_same in *.
    exists r. eexists. split; [reflexivity|]. split.
    + split; [done..|]. intros []; [apply (mo_max _ _ Hok1 Memory)|]. cbn in *. rewrite Em.
      apply (mo_max _ _ Hok1 Reserved).
    + left. split; [done|]. exists mb. split; [apply rehomed_refl|].
      split; [done|unfold PAGE_SIZE; lia|by exists nid, flags| | | | |exact Emem].
      * intros a Ha. rewrite stored_set by done. destruct Hr1 as [_ Hr1]. by apply Hr1.
      * intros a Hn Hn'. rewrite stored_set in Hn' by done. cbn in *. rewrite Hl.
        by rewrite (rh_else _ _ _ Hh).
      * intros a Ha. cbn in *. rewrite Hl. unfold union_range. rewrite decide_True by done. by destruct (lookup _ a).
      * intros a Hsta%stored_set Hn; [|done..]. by apply (rh_new _ _ _ Hh).
  - exists 0, mb1. split; [done|]. split; [done|]. right. split; [done|]. split; [done|]. right. by exists r.
Qed.

Lemma request_weaken b b' size align start end_ nid flags mb mb' r :
  b <= b' -> request_done b size align start end_ nid flags mb mb' r -> request_done b' size align start end_ nid flags mb mb' r.
Proof.
  intros Hb [[Hwf Har Hm] H]. split; [|done]. split; [done..|]. intros w. specialize (Hm w). lia.
Qed.

(** The node that is asked for last. *)
Definition last_nid (nid : Z) (exact_nid : bool) : Z := if exact_nid then nid else NUMA_NO_NODE.

Lemma alloc_attempt_ok b size align k start end_ nid exact_nid flags mb :
  mb_ok b mb -> b <= 2 ^ 23 -> 0 < size -> is_pow2 align k ->
  0 <= start <= PHYS_ADDR_MAX -> 0 <= end_ <= PHYS_ADDR_MAX ->
  exists r mb', alloc_attempt dbl size align start end_ nid exact_nid flags mb = Ok (r, mb') /\
    request_done (16 * b) size align start end_ (last_nid nid exact_nid) flags mb mb' r.
Proof.
  intros Hok Hb Hs Hal Hst Hen. unfold alloc_attempt.
  assert (Hb0 : 0 <= b).
  { pose proof (mo_max _ _ Hok Memory). pose proof (wf_max_range Memory mb (mo_wf _ _ Hok)). lia. }
  destruct (find_and_reserve_ok b size align k start end_ nid flags mb) as (r & mb1 & -> & H1); [done|lia|done..|].
  rewrite bind_Ok. cbn beta iota. destruct (Z.eqb_spec r 0) as [->|Hne]; cbn [negb].
  2:{ exists r, mb1. split; [done|]. eapply request_found; [done|]. eapply request_weaken; [|exact H1]. lia. }
  pose proof H1 as [Hok1 [[[] _]|(_ & Hh & _)]]; [done|]. destruct (negb (nid =? NUMA_NO_NODE) && negb exact_nid) eqn:Eagain.
  - destruct (find_and_reserve_ok (4 * b) size align k start end_ NUMA_NO_NODE flags mb1)
      as (r2 & mb2 & -> & H2); [done|lia|done..|].
    exists r2, mb2. split; [done|]. eapply request_later; [exact Hh|]. apply andb_true_iff in Eagain as [_ Ee].
    unfold last_nid. destruct exact_nid; [done|]. eapply request_weaken; [|exact H2]. lia.
  - exists 0, mb1. split; [done|]. eapply (request_weaken (4 * b)); [lia|]. unfold last_nid.
    destruct exact_nid; [done|]. destruct (Z.eqb_spec nid NUMA_NO_NODE) as [->|]; done.
Qed.

(** The attempt without the mirrored memory is the last one. *)
Lemma alloc_range_nid_ok SMP_CACHE_BYTES size align k start end_ nid exact_nid mb :
  mb_ok (2 ^ 17) mb -> 0 < size ->
  is_pow2 (if align =? 0 then SMP_CACHE_BYTES else align) k ->
  0 <= start <= PHYS_ADDR_MAX -> 0 <= end_ <= PHYS_ADDR_MAX ->
  exists r mb', memblock_alloc_range_nid SMP_CACHE_BYTES dbl size align start end_ nid exact_nid mb
    = Ok (r, mb') /\
    request_done (2 ^ 25) size (if align =? 0 then SMP_CACHE_BYTES else align) start end_
      (last_nid (if nid =? MAX_NUMNODES then NUMA_NO_NODE else nid) exact_nid) MEMBLOCK_NONE mb mb' r.
Proof.
  intros Hok Hs Hal Hst Hen. unfold memblock_alloc_range_nid. set (al := if align =? 0 then _ else _) in *. set (nd := if nid =? MAX_NUMNODES then _ else _).
  destruct (alloc_attempt_ok (2 ^ 17) size al k start end_ nd exact_nid (choose_memblock_flags mb) mb) as (r & mb1 & -> & H1); [done|lia|done..|].
  rewrite bind_Ok. cbn beta iota. destruct (Z.eqb_spec r 0) as [->|Hne]; cbn [negb].
  2:{ exists r, mb1. split; [done|]. eapply request_found; [done|]. eapply request_weaken; [|exact H1]. lia. }
  pose proof H1 as [Hok1 [[[] _]|(_ & Hh & _)]]; [done|]. unfold choose_memblock_flags in *. destruct (system_has_some_mirror mb).
  - change (negb (Z.land MEMBLOCK_MIRROR MEMBLOCK_MIRROR =? 0)) with true. cbn beta iota. change (Z.ldiff MEMBLOCK_MIRROR MEMBLOCK_MIRROR) with MEMBLOCK_NONE.
    destruct (alloc_attempt_ok (16 * 2 ^ 17) size al k start end_ nd exact_nid MEMBLOCK_NONE mb1) as (r2 & mb2 & -> & H2); [done|lia|done..|].
    exists r2, mb2. split; [done|]. eapply request_later; [exact Hh|]. exact H2.
  - change (negb (Z.land MEMBLOCK_NONE MEMBLOCK_MIRROR =? 0)) with false. cbn beta iota.
    exists 0, mb1. split; [done|]. eapply request_weaken; [|exact H1]. lia.
Qed.

(** C7. [memblock_alloc_range_nid] hands out an aligned block of free memory
    between the limits, off the first page, and reserves it, and nothing else
    changes apart from the place of the array of reserved regions; or it
    returns 0, which it does only when no free block answers the request or
    the list of reserved regions has no room and cannot grow. The alignment is
    a power of two and the size is not 0. The invariants are kept, and no
    [BUG_ON] is hit. *)
Theorem memblock_alloc_range_nid_spec SMP_CACHE_BYTES size align k start end_ nid exact_nid mb :
  mb_ok (2 ^ 17) mb -> 0 < size ->
  is_pow2 (if align =? 0 then SMP_CACHE_BYTES else align) k ->
  0 <= start <= PHYS_ADDR_MAX -> 0 <= end_ <= PHYS_ADDR_MAX ->
  exists r mb', memblock_alloc_range_nid SMP_CACHE_BYTES dbl size align start end_ nid exact_nid mb
    = Ok (r, mb') /\
    request_done (2 ^ 25) size (if align =? 0 then SMP_CACHE_BYTES else align) start end_
      (last_nid (if nid =? MAX_NUMNODES then NUMA_NO_NODE else nid) exact_nid) MEMBLOCK_NONE mb mb' r.
Proof. apply alloc_range_nid_ok. Qed.
End ops.
