(* ===== verification/MemblockQuery.v ===== *)
(** * mm/memblock.c: queries, trimming, and the end of memblock's life

    The binary search of [memblock_search] and the queries built on it,
    [memblock_trim_memory], and the way [__free_pages_memory] cuts a range of
    pages into naturally aligned blocks for the page allocator. *)

From S2P Require Import Prelude Memblock MemblockRegions MemblockFree.

(** ** The free ranges *)

(** The body of a loop that only collects the ranges. *)
Definition collect (s e : Z) (acc : list (Z * Z)) : outcome (list (Z * Z) + unit) :=
  Ok (inl (acc ++ [(s, e)])).

Lemma fold_collect L acc : fold_ranges collect L acc = Ok (inl (acc ++ L)).
Proof.
  revert acc. induction L as [|[s e] L IH]; intros acc; cbn [fold_ranges]; [by rewrite app_nil_r|].
  cbn. rewrite IH. by rewrite <- app_assoc.
Qed.

(** C10. [for_each_free_mem_range] and its reverse terminate and visit exactly
    the addresses that are memory (with admissible flags) and not reserved, in
    ascending and descending order, for any two lists of regions that are well
    formed ([all_wf]: in order, without overlaps, inside the address
    space). *)
Theorem free_ranges_spec mb nid flags :
  all_wf mb ->
  exists L L',
    for_each_free_mem_range mb nid flags collect [] = Ok (inl L) /\
    for_each_free_mem_range_reverse mb nid flags collect [] = Ok (inl L') /\
    ascending L /\ descending L' /\
    (forall x, inside L x <-> free_at mb nid flags x) /\
    (forall x, inside L' x <-> free_at mb nid flags x).
Proof.
  intros Hwf. destruct (for_each_free_ok mb Hwf nid flags) as (L & Ha & (_ & Hi & _) & Hf).
  destruct (for_each_free_reverse_ok mb Hwf nid flags) as (L' & Hd & (_ & Hi' & _) & Hf').
  exists L, L'. csplit; [by rewrite Hf, fold_collect|by rewrite Hf', fold_collect|done..].
Qed.

(** [memblock_find_in_range_node] returns the highest (top-down) or the
    lowest (bottom-up) aligned address at which a block of the requested size
    is free and within the limits, and 0 exactly when there is none, also where
    rounding up wraps around the end of the address space. *)
Theorem find_in_range_node_spec mb size align k start end_ nid flags :
  all_wf mb -> 0 < size -> is_pow2 align k -> 0 <= start <= PHYS_ADDR_MAX -> 0 <= end_ <= PHYS_ADDR_MAX ->
  let admissible x := (align | x) /\ Z.max start PAGE_SIZE <= x /\
    x + size <= search_end mb start end_ /\ free_block mb nid flags x size in
  exists r, memblock_find_in_range_node mb size align start end_ nid flags = Ok r /\
    (r = 0 <-> forall x, ~ admissible x) /\
    (r <> 0 -> admissible r /\ forall x, admissible x -> if bottom_up mb then r <= x else x <= r).
Proof.
  intros Hwf Hs Ha Hst Hen admissible.
  destruct (find_node_ok mb size align k start end_ nid flags) as (r & E & Hr); [done..|].
  exists r. split; [done|]. destruct Hr as [(Hne & Hans & Hext)|[-> Hno]].
  - split; [split; [done|intros H; by destruct (H r)]|done].
  - by split.
Qed.

(** ** [memblock_search] *)

Section search.
Context (t : memblock_type) (Hwf : wf t).

Definition found_at (addr i : Z) : Prop :=
  (i = -1 /\ lookup (regions t) addr = None) \/
  (0 <= i < cnt t /\ rcovers (region_at t i) addr).

Lemma search_loop_ok fuel addr left right :
  0 <= left < right -> right <= cnt t -> right - left < Z.of_nat fuel ->
  (forall i, 0 <= i < left -> r_end (region_at t i) <= addr) ->
  (forall i, right <= i < cnt t -> addr < r_base (region_at t i)) ->
  exists i, search_loop fuel t addr left right = Ok i /\ found_at addr i.
Proof.
  revert left right. induction fuel as [|fuel IH]; intros left right Hlr Hr Hf Hlo Hhi; [lia|].
  cbn [search_loop]. pose proof (cnt_bound t Hwf). rewrite (u32_small (right + left)) by lia.
  set (mid := (right + left) / 2).
  assert (Hmid : left <= mid < right).
  { unfold mid. split; [apply Z.div_le_lower_bound; lia|apply Z.div_lt_upper_bound; lia]. }
  clearbody mid. pose proof (region_bounds t Hwf mid ltac:(lia)).
  assert (Hstop : forall l r, l >= r -> (forall i, 0 <= i < l -> r_end (region_at t i) <= addr) ->
    (forall i, r <= i < cnt t -> addr < r_base (region_at t i)) -> found_at addr (-1)).
  { intros l r Hge H1 H2. left. split; [done|]. apply lookup_None.
    intros rg (i & Hi & <-)%(elem_region_at t) Hc. pose proof (region_bounds t Hwf i Hi). unfold rcovers in Hc.
    destruct (decide (i < l)); [specialize (H1 i ltac:(lia)); lia|specialize (H2 i ltac:(lia)); lia]. }
  case_cmp; [|case_cmp].
  - assert (Hhi' : forall i, mid <= i < cnt t -> addr < r_base (region_at t i)).
    { intros i Hi. pose proof (region_ends t Hwf mid i ltac:(lia) ltac:(lia) ltac:(lia)). lia. }
    case_cmp; [apply IH; done || lia|]. exists (-1). split; [done|]. apply (Hstop left mid); done || lia.
  - assert (Hlo' : forall i, 0 <= i < mid + 1 -> r_end (region_at t i) <= addr).
    { intros i Hi. pose proof (region_ends t Hwf i mid ltac:(lia) ltac:(lia) ltac:(lia)). lia. }
    case_cmp; [apply IH; done || lia|]. exists (-1). split; [done|]. apply (Hstop (mid + 1) right); done || lia.
  - exists mid. split; [done|]. right. unfold rcovers. lia.
Qed.

Lemma memblock_search_ok addr : exists i, memblock_search t addr = Ok i /\ found_at addr i.
Proof.
  pose proof (cnt_bound t Hwf). apply search_loop_ok; unfold cnt in *; lia.
Qed.
End search.

(** [memblock_is_region_memory] answers whether the whole range lies in
    one region of memory; its binary search terminates and never misses. *)
Theorem is_region_memory_spec mb base size :
  all_wf mb -> 0 <= base <= PHYS_ADDR_MAX -> 0 <= size ->
  exists b, memblock_is_region_memory mb base size = Ok b /\
    (b = true <-> exists r, r ∈ regions (memory mb) /\ rcovers r base /\
       Z.min (base + size) PHYS_ADDR_MAX <= r_base r + r_size r).
Proof.
  intros Hwf Hb Hs. pose proof (aw_memory _ Hwf) as Hwm. unfold memblock_is_region_memory.
  destruct (memblock_search_ok (memory mb) Hwm base) as (i & -> & Hi). rewrite bind_Ok.
  rewrite cap_size_small by done. unfold PHYS_ADDR_MAX in *.
  rewrite (u32_small (base + _)) by lia. destruct Hi as [[-> Hno]|[Hi Hc]].
  - exists false. split; [done|]. split; [done|]. intros (r & Hr & Hc & _).
    rewrite lookup_None in Hno. by destruct (Hno r).
  - rewrite (proj2 (Z.eqb_neq i (-1))) by lia. eexists. split; [reflexivity|].
    pose proof (region_bounds (memory mb) Hwm i Hi) as (? & ? & ? & ->). rewrite Z.geb_le. split.
    + intros Hle. exists (region_at (memory mb) i). csplit; [by apply region_at_elem|done|lia].
    + intros (r & Hr & Hcr & Hle). apply (elem_region_at (memory mb)) in Hr as (j & Hj & <-).
      enough (i = j) as -> by lia. unfold rcovers in *.
      pose proof (region_bounds (memory mb) Hwm j Hj).
      destruct (Z.lt_trichotomy i j) as [Hlt|[|Hlt]]; [|done|].
      * pose proof (region_order (memory mb) Hwm i j ltac:(lia) Hlt ltac:(lia)).
        pose proof (region_bounds (memory mb) Hwm i Hi). lia.
      * pose proof (region_order (memory mb) Hwm j i ltac:(lia) Hlt ltac:(lia)). lia.
Qed.

(** [memblock_is_region_reserved] answers whether some address of a
    non-empty range is reserved. *)
Theorem is_region_reserved_spec mb base size :
  all_wf mb -> 0 <= base -> 0 < size -> base + size <= PHYS_ADDR_MAX ->
  memblock_is_region_reserved mb base size = true <->
  exists a, base <= a < base + size /\ lookup (regions (reserved mb)) a <> None.
Proof.
  intros Hwf Hb Hs Hle. unfold memblock_is_region_reserved, memblock_overlaps_region.
  rewrite cap_size_small, Z.min_l by lia. pose proof (aw_reserved _ Hwf) as Hwr. unfold cnt.
  assert (Hok : forall r, r ∈ regions (reserved mb) -> 0 <= r_base r /\ r_base r + r_size r < 2 ^ 32 /\
    (0 < r_size r \/ r_base r + r_size r = 0)).
  { destruct (wf_regions _ Hwr) as [->|[_ Hg]]; [by intros r ->%list_elem_of_singleton; cbn; lia|].
    intros r Hr%(good_ok _ _ Hg). destruct Hr. unfold PHYS_ADDR_MAX in *. lia. }
  unfold PHYS_ADDR_MAX in *.
  assert (Hex : (exists a, base <= a < base + size /\ lookup (regions (reserved mb)) a <> None) <->
    exists r, r ∈ regions (reserved mb) /\ exists a, base <= a < base + size /\ rcovers r a).
  { split.
    - intros (a & Ha & Hl). destruct (lookup _ a) as [f|] eqn:E; [|done].
      apply lookup_Some in E as (r & Hr & Hc & _). eauto.
    - intros (r & Hr & a & Ha & Hc). exists a. split; [done|]. rewrite lookup_None. intros Hno. by apply (Hno r). }
  rewrite Hex. clear Hex Hwr. induction (regions (reserved mb)) as [|r rs IH].
  { cbn. split; [done|]. by intros (r & ?%not_elem_of_nil & _). }
  destruct (Hok r ltac:(left)) as (H1 & H2 & H3). cbn [overlaps_loop]. unfold memblock_addrs_overlap at 1.
  rewrite (u32_small (r_base r + r_size r)), (u32_small (base + size)) by lia. case_cmp.
  - split; [intros _|done]. exists r. split; [left|]. exists (Z.max base (r_base r)). unfold rcovers. lia.
  - cbn [length].
    transitivity ((Z.of_nat (overlaps_loop rs base size) <? Z.of_nat (length rs)) = true);
      [rewrite !Z.ltb_lt; lia|].
    rewrite IH by (intros s Hs'; apply Hok; by right). split.
    + intros (s & Hs' & Ha). exists s. split; [by right|done].
    + intros (s & [->|Hs']%elem_of_cons & a & Ha & Hc); [unfold rcovers in Hc; lia|eauto].
Qed.
