(* ===== verification/MemblockPages.v ===== *)
(** * mm/memblock.c: trimming, and the end of memblock's life

    [memblock_trim_memory] shrinks the memory to whole blocks of an alignment,
    and [memblock_free_all] hands the free memory to the page allocator in
    naturally aligned blocks. *)

From S2P Require Import Prelude Memblock MemblockRegions MemblockFree.

(** ** [memblock_trim_memory] *)

Section trim.
Context (align k : Z) (Hal : is_pow2 align k).

(** A region that does not start inside the last block of the address space,
    where rounding up would wrap. *)
Definition low_enough (r : memblock_region) : Prop := r_base r <= 2 ^ 32 - align.

(** What is left of a region. *)
Definition trim1 (r : memblock_region) : option memblock_region :=
  let start := round_up (r_base r) align in
  let end_ := round_down (r_end r) align in
  if start <? end_ then Some (Region start (end_ - start) (r_flags r)) else None.

(** [b] is the start of a block of the region. *)
Definition holds_block (r : memblock_region) (b : Z) : Prop :=
  (align | b) /\ r_base r <= b /\ b + align <= r_base r + r_size r.

Lemma align_pos : 0 < align <= 2 ^ 31.
Proof. destruct Hal as [Hk ->]. split; [lia|]. apply Z.pow_le_mono_r; lia. Qed.

Lemma round_up_low x :
  0 <= x <= 2 ^ 32 - align ->
  (align | round_up x align) /\ x <= round_up x align < 2 ^ 32 /\
  forall z, (align | z) -> x <= z -> round_up x align <= z.
Proof.
  intros Hx. pose proof align_pos. destruct (decide (x = 0)) as [->|Hne].
  - replace (round_up 0 align) with 0; [csplit; [apply Z.divide_0_r|lia|lia|done]|].
    unfold round_up. change (u32 (0 - 1)) with (Z.ones 32).
    destruct (pow2_u32 _ _ Hal) as [Hr Ho]. rewrite (u32_small (align - 1)), Ho by lia.
    rewrite lor_ones_low by (destruct Hal; lia). destruct Hal as [Hk ->].
    replace (Z.ones 32) with (-1 + 2 ^ (32 - k) * 2 ^ k)
      by (rewrite <- Z.pow_add_r by lia; replace (32 - k + k) with 32 by lia; reflexivity).
    rewrite Z_mod_plus_full. replace (-1) with (2 ^ k - 1 + (-1) * 2 ^ k) at 2 by lia.
    rewrite Z_mod_plus_full, (Z.mod_small (2 ^ k - 1)) by lia. rewrite <- Z.pow_add_r by lia.
    replace (32 - k + k) with 32 by lia. replace (_ + 1) with (1 * 2 ^ 32) by lia. reflexivity.
  - destruct (round_up_min x align k Hal) as [[_ Hw]|H']; [lia| |done].
    exfalso. specialize (Hw (2 ^ 32 - align)). destruct Hal as [Hk E].
    enough (2 ^ 32 <= 2 ^ 32 - align) by lia. apply Hw; [|lia].
    apply Z.divide_sub_r; [|apply Z.divide_refl]. exists (2 ^ (32 - k)). rewrite E, <- Z.pow_add_r by lia.
    f_equal. lia.
Qed.

Lemma trim1_cases r :
  region_ok r -> low_enough r ->
  match trim1 r with
  | Some s => region_ok s /\ r_flags s = r_flags r /\ r_base r <= r_base s /\
              r_base s + r_size s <= r_base r + r_size r /\
              (align | r_base s) /\ (align | r_size s) /\
              (r_base s = r_base r -> r_base s + r_size s = r_base r + r_size r -> s = r) /\
              forall b, holds_block r b <-> (align | b) /\ rcovers s b
  | None => forall b, ~ holds_block r b
  end.
Proof.
  intros (H1 & H2 & H3) Hlow. unfold trim1, holds_block, PHYS_ADDR_MAX in *. pose proof align_pos.
  assert (E : r_end r = r_base r + r_size r) by (unfold r_end; rewrite u32_small by lia; done).
  destruct (round_up_low (r_base r)) as (D1 & B1 & M1); [unfold low_enough in Hlow; lia|].
  destruct (round_down_max (r_end r) align k Hal) as (D2 & B2 & M2); [lia|].
  rewrite E in *. set (s := round_up _ _) in *. set (e := round_down _ _) in *.
  assert (Hfit : forall b, (align | b) -> r_base r <= b -> b + align <= r_base r + r_size r -> s <= b /\ b + align <= e).
  { intros b Hb Hlo Hhi. split; [by apply M1|]. apply M2; [|done]. apply Z.divide_add_r; [done|apply Z.divide_refl]. }
  case_cmp.
  - csplit; cbn; [unfold region_ok, PHYS_ADDR_MAX; cbn; lia|done|lia|lia|done|by apply Z.divide_sub_r| |].
    + intros E1 E2. destruct r as [b n f]. cbn in *. f_equal; lia.
    + intros b. unfold rcovers. cbn. split.
      * intros (Hb & Hlo & Hhi). destruct (Hfit b Hb Hlo Hhi). split; [done|lia].
      * intros [[q ->] [Hlo Hhi]]. destruct D2 as [p Ep]. assert (q < p) by nia. csplit; [by exists q|lia|nia].
  - intros b (Hb & Hlo & Hhi). destruct (Hfit b Hb Hlo Hhi). lia.
Qed.

Definition trims (rs : list memblock_region) : list memblock_region := omap trim1 rs.

Lemma trims_elem rs s : s ∈ trims rs <-> exists r, r ∈ rs /\ trim1 r = Some s.
Proof. unfold trims. by rewrite list_elem_of_omap. Qed.

Lemma trims_good rs : good rs -> Forall low_enough rs -> good (trims rs).
Proof.
  induction rs as [|r rs IH]; intros Hg Hl; [done|].
  apply good_cons in Hg as (Hr & Hb & Hg). apply Forall_cons in Hl as [Hlr Hl]. specialize (IH Hg Hl).
  pose proof (trim1_cases r Hr Hlr) as Hc. unfold trims in *. cbn. destruct (trim1 r) as [s|]; [|done].
  apply good_cons. destruct Hc as (Hs & _ & Hlo & Hhi & _). csplit; [done| |done].
  apply Forall_forall. intros u (v & Hv & Ev)%trims_elem. rewrite Forall_forall in Hb, Hl.
  destruct Hg as [Hok _]. rewrite Forall_forall in Hok.
  pose proof (trim1_cases v (Hok v Hv) (Hl v Hv)) as Hcv. rewrite Ev in Hcv.
  specialize (Hb v Hv). unfold before in *. destruct Hcv as (_ & _ & ? & _). lia.
Qed.

Lemma trims_length rs : (length (trims rs) <= length rs)%nat.
Proof. unfold trims. induction rs as [|r rs IH]; cbn; [done|]. destruct (trim1 r); cbn; lia. Qed.

(** The loop does this to the list of any state, also where rounding wraps. *)
Lemma trim_loop_ok fuel t pre rs :
  regions t = pre ++ rs -> pre ++ rs <> [] -> good rs -> (length rs + 1 < fuel)%nat ->
  exists t', trim_loop fuel align t (length pre) = Ok t' /\ regions t' = or_nothing (pre ++ trims rs) /\
    max_regions t' = max_regions t /\ array t' = array t.
Proof.
  revert t pre fuel. induction rs as [|r rs IH]; intros t pre [|fuel] Et Hne Hg Hf; cbn [length] in Hf;
    try lia; cbn [trim_loop]; rewrite Et.
  { rewrite app_nil_r in *. autorewrite with pre. exists t. csplit; [done| |done..].
    rewrite Et. cbn. rewrite app_nil_r. by destruct pre. }
  autorewrite with pre. cbn beta iota zeta.
  pose proof Hg as (Hr & _ & Hg')%good_cons. destruct Hr as (R1 & R2 & R3).
  assert (E : r_end r = r_base r + r_size r) by (unfold r_end, PHYS_ADDR_MAX in *; rewrite u32_small by lia; done).
  unfold trims. cbn [omap list_omap]. unfold trim1 at 1. rewrite E in *. fold (trims rs).
  assert (Hs0 : 0 <= round_up (r_base r) align) by apply u32_range.
  destruct (round_down_max (r_base r + r_size r) align k Hal) as (_ & He & _); [unfold PHYS_ADDR_MAX in *; lia|].
  set (s := round_up _ _) in *. set (e := round_down _ _) in *. rewrite <- length_snoc with (x := r).
  destruct (s <? e) eqn:Hse.
  - destruct ((s =? r_base r) && (e =? r_base r + r_size r)) eqn:Hsame.
    + assert (Hid : Region s (e - s) (r_flags r) = r) by (destruct r; cbn in *; f_equal; lia). rewrite Hid.
      rewrite (app_cons_snoc pre r (trims rs)). apply IH; [by rewrite <- app_cons_snoc|by destruct pre|done|lia].
    + rewrite u32_small by (unfold PHYS_ADDR_MAX in *; lia). set (r' := Region s _ _). autorewrite with pre.
      rewrite length_snoc, <- (length_snoc pre r'), (app_cons_snoc pre r' (trims rs)).
      destruct (IH (with_regions (pre ++ r' :: rs) (total_size t) t) (pre ++ [r']) fuel) as (t' & H);
        [apply app_cons_snoc|by destruct pre|done|lia|].
      by exists t'.
  - rewrite (proj2 (andb_false_iff _ _)) by lia.
    pose proof (remove_region_ok t pre r rs Et) as (Er & _ & Em & Ea).
    destruct (pre ++ rs) as [|x xs] eqn:Ep.
    + destruct pre, rs; try done. cbn in *. destruct fuel as [|[|fuel]]; [lia|lia|].
      exists (memblock_remove_region t 0). cbn [trim_loop]. rewrite Er. change (nothing !! 0%nat) with (Some (Region 0 0 0)).
      change (nothing !! 1%nat) with (@None memblock_region). cbn beta iota zeta.
      change (r_base (Region 0 0 0)) with 0. change (r_end (Region 0 0 0)) with 0.
      destruct (round_up_low 0) as (_ & L0 & L1); [pose proof align_pos; lia|].
      specialize (L1 0 (Z.divide_0_r _) ltac:(lia)).
      replace (round_up 0 align) with 0 by lia. change (round_down 0 align) with 0. by csplit.
    + rewrite <- Em, <- Ea. apply IH; [by rewrite Er, Ep|by rewrite Ep|done|lia].
Qed.

(** A region that starts inside the last block becomes all addresses below
    that block. *)
Lemma trim1_wraps r : region_ok r -> 2 ^ 32 - align < r_base r -> trim1 r = Some (Region 0 (2 ^ 32 - align) (r_flags r)).
Proof.
  intros (R1 & R2 & R3) Hhigh. unfold PHYS_ADDR_MAX in *. pose proof align_pos.
  assert (E : r_end r = r_base r + r_size r) by (unfold r_end; rewrite u32_small by lia; done).
  assert (Hdiv : (align | 2 ^ 32 - align)).
  { destruct Hal as [Hk ->]. apply Z.divide_sub_r; [|apply Z.divide_refl]. exists (2 ^ (32 - k)). rewrite <- Z.pow_add_r by lia. f_equal. lia. }
  unfold trim1. rewrite E. destruct (round_up_min (r_base r) align k Hal) as [[-> _]|(Hd & Hr & _)]; [lia| |].
  - destruct (round_down_max (r_base r + r_size r) align k Hal) as (Hd & Hr & Hm); [lia|]. specialize (Hm _ Hdiv ltac:(lia)).
    replace (round_down _ _) with (2 ^ 32 - align); [rewrite (proj2 (Z.ltb_lt _ _)) by lia; by rewrite Z.sub_0_r|].
    destruct Hd as [p Ep], Hdiv as [q Eq]. rewrite Ep, Eq in *. f_equal. nia.
  - destruct Hd as [p Ep], Hdiv as [q Eq]. rewrite Ep in Hr. assert (p < q + 1) by nia. assert (q < p) by nia. lia.
Qed.
End trim.

(** The trimmed list as a map. *)
Lemma trims_lookup align k rs a f :
  is_pow2 align k -> good rs -> Forall (low_enough align) rs ->
  lookup (trims align rs) a = Some f <->
  exists r, r ∈ rs /\ r_flags r = f /\ holds_block align r (a - a mod align).
Proof.
  intros Hal Hg Hl. pose proof (trims_good align k Hal rs Hg Hl) as Hgt. destruct Hg as [Hok _].
  pose proof (align_pos align k Hal) as Hp. pose proof (Z.mod_pos_bound a align ltac:(lia)) as Hm.
  assert (Hb : (align | a - a mod align)) by (exists (a / align); pose proof (Z.div_mod a align); lia).
  rewrite Forall_forall in Hok, Hl. split.
  - intros (s & (r & Hr & Es)%trims_elem & Hc & Hf)%lookup_Some.
    pose proof (trim1_cases align k Hal r (Hok r Hr) (Hl r Hr)) as H. rewrite Es in H.
    destruct H as (_ & Hfl & _ & _ & D1 & D2 & _ & Hh). exists r. csplit; [done|congruence|].
    apply Hh. split; [done|]. unfold rcovers in *. split; [|lia].
    destruct D1 as [p Ep], Hb as [q Eb].
    assert (p < q + 1) by (apply (Zmult_lt_reg_r _ _ align); lia).
    rewrite Ep, Eb. apply Z.mul_le_mono_nonneg_r; lia.
  - intros (r & Hr & <- & Hh). pose proof (trim1_cases align k Hal r (Hok r Hr) (Hl r Hr)) as H.
    destruct (trim1 align r) as [s|] eqn:Es; [|by apply H in Hh].
    destruct H as (_ & Hfl & _ & _ & D1 & D2 & _ & Hh'). destruct (proj1 (Hh' _) Hh) as [_ Hc]. rewrite <- Hfl.
    apply lookup_elem; [done|apply trims_elem; eauto|]. unfold rcovers in *. split; [lia|].
    destruct D1 as [p Ep], D2 as [p' Ep'], Hb as [q Eb].
    assert (q < p + p') by (apply (Zmult_lt_reg_r _ _ align); lia).
    pose proof (Z.mul_le_mono_nonneg_r (q + 1) (p + p') align). lia.
Qed.

Lemma trims_nothing align k : is_pow2 align k -> trims align nothing = [].
Proof.
  intros Hal. unfold trims, nothing. cbn. unfold trim1. change (r_base _) with 0. change (r_end _) with 0.
  destruct (round_up_low align k Hal 0) as (_ & L0 & _); [pose proof (align_pos align k Hal); lia|].
  change (round_down 0 align) with 0. by rewrite (proj2 (Z.ltb_ge _ _)) by lia.
Qed.

Lemma trim_memory_list align k mb :
  is_pow2 align k -> all_wf mb ->
  exists mb', memblock_trim_memory align mb = Ok mb' /\ reserved mb' = reserved mb /\ max_regions (memory mb') = max_regions (memory mb) /\
    current_limit mb' = current_limit mb /\ regions (memory mb') = or_nothing (trims align (regions (memory mb))).
Proof.
  intros Hal Hwf. pose proof (aw_memory _ Hwf) as Hwm. pose proof (align_pos align k Hal) as Hp.
  unfold memblock_trim_memory. destruct (wf_regions _ Hwm) as [E|[Hne Hg]].
  - exists mb. rewrite E, (trims_nothing align k) by done. cbn [nothing length Nat.add]. cbn [trim_loop]. rewrite E.
    change (nothing !! 0%nat) with (Some (Region 0 0 0)). change (nothing !! 1%nat) with (@None memblock_region).
    cbn beta iota zeta. destruct (round_up_low align k Hal 0) as (_ & L0 & L1); [lia|].
    specialize (L1 0 (Z.divide_0_r _) ltac:(lia)). change (r_base (Region 0 0 0)) with 0.
    change (r_end (Region 0 0 0)) with 0. replace (round_up 0 align) with 0 by lia.
    change (round_down 0 align) with 0. by destruct mb.
  - destruct (trim_loop_ok align k Hal (length (regions (memory mb)) + 2) (memory mb) [] (regions (memory mb)))
      as (t' & Et & Er & Em & _); [done|done|done|lia|]. cbn [length] in Et. rewrite Et, bind_Ok.
    by exists (set_type Memory t' mb).
Qed.

Lemma trim_memory_ok align k mb :
  is_pow2 align k -> all_wf mb -> Forall (low_enough align) (regions (memory mb)) ->
  exists mb', memblock_trim_memory align mb = Ok mb' /\ all_wf mb' /\ reserved mb' = reserved mb /\
    regions (memory mb') = or_nothing (trims align (regions (memory mb))).
Proof.
  intros Hal Hwf Hl. pose proof (aw_memory _ Hwf) as Hwm. destruct (trim_memory_list align k mb Hal Hwf) as (mb' & E & Hr & Em & Ec & Er).
  exists mb'. csplit; [done| |done|done]. destruct Hwf as [Hm Hres Hlim]. split; [|by rewrite Hr|by rewrite Ec]. split; rewrite ?Em; [| |apply (wf_max2 _ Hwm)].
  - rewrite Er. destruct (wf_regions _ Hwm) as [En|[_ Hg]]; [rewrite En, (trims_nothing align k) by done; by left|].
    pose proof (trims_good align k Hal _ Hg Hl). destruct (trims _ _); [by left|by right].
  - pose proof (trims_length align (regions (memory mb))). pose proof (wf_max _ Hwm). pose proof (wf_max2 _ Hwm).
    unfold cnt in *. rewrite Er. destruct (trims _ _); cbn in *; lia.
Qed.

(** C11. When no region starts inside the last block of the address space,
    where rounding up wraps, [memblock_trim_memory] leaves as memory exactly
    the addresses whose whole block of [align] bytes, a power of two, lay in one
    region, with that region's flags, and every region it leaves starts and
    ends on a block boundary. Regions that vanish are taken out of the list on
    the way; the invariant and the reserved list are kept. *)
Theorem trim_memory_spec align k mb :
  is_pow2 align k -> all_wf mb -> Forall (low_enough align) (regions (memory mb)) ->
  exists mb', memblock_trim_memory align mb = Ok mb' /\ all_wf mb' /\ reserved mb' = reserved mb /\
    (forall r, r ∈ regions (memory mb') -> (align | r_base r) /\ (align | r_size r)) /\
    forall a f, lookup (regions (memory mb')) a = Some f <->
      exists r, r ∈ regions (memory mb) /\ r_flags r = f /\ holds_block align r (a - a mod align).
Proof.
  intros Hal Hwf Hl. destruct (trim_memory_ok align k mb Hal Hwf Hl) as (mb' & E & Hwf' & Hr & Er).
  exists mb'. csplit; [done..| |]; rewrite Er.
  - intros s Hs. destruct (wf_regions _ (aw_memory _ Hwf)) as [En|[_ [Hok _]]].
    { rewrite En, (trims_nothing align k) in Hs by done. apply list_elem_of_singleton in Hs as ->.
      split; apply Z.divide_0_r. }
    destruct (trims align (regions (memory mb))) as [|x xs] eqn:Ex.
    { apply list_elem_of_singleton in Hs as ->. split; apply Z.divide_0_r. }
    cbn in Hs. rewrite <- Ex in Hs. apply trims_elem in Hs as (r & Hr' & Es).
    rewrite Forall_forall in Hok, Hl. pose proof (trim1_cases align k Hal r (Hok r Hr') (Hl r Hr')) as H'.
    rewrite Es in H'. tauto.
  - intros a f. rewrite lookup_or_nothing.
    destruct (wf_regions _ (aw_memory _ Hwf)) as [En|[_ Hg]]; [|by apply (trims_lookup align k)].
    rewrite En, (trims_nothing align k) by done. split; [done|]. pose proof (align_pos align k Hal).
    intros (r & ->%list_elem_of_singleton & _ & _ & ? & ?). cbn in *. lia.
Qed.

(** ** Handing pages to the page allocator *)

(** The pages of a block, and of everything that is freed. *)
Definition block_pages (ev : page_event) : list Z :=
  match ev with ReserveBootmem _ _ => [] | FreePages pfn order => seqZ pfn (2 ^ order) end.

Definition freed (evs : list page_event) : list Z := evs ≫= block_pages.

(** A block the page allocator can take: naturally aligned, of an order it
    has. *)
Definition block_ok (ev : page_event) : Prop :=
  match ev with
  | ReserveBootmem _ _ => True
  | FreePages pfn order => 0 <= order < MAX_ORDER /\ (2 ^ order | pfn)
  end.

Lemma freed_app evs evs' : freed (evs ++ evs') = freed evs ++ freed evs'.
Proof. apply bind_app. Qed.

Lemma fit_order_ok fuel start end_ order :
  0 <= start < end_ -> end_ <= 2 ^ 31 -> 0 <= order < MAX_ORDER -> order < Z.of_nat fuel ->
  exists o, fit_order fuel start end_ order = Ok o /\ 0 <= o <= order /\ start + 2 ^ o <= end_.
Proof.
  revert order. induction fuel as [|fuel IH]; intros order Hs He Ho Hf; [lia|]. cbn [fit_order].
  unfold MAX_ORDER in *. assert (2 ^ order <= 2 ^ 10) by (apply Z.pow_le_mono_r; lia).
  rewrite Z.shiftl_mul_pow2, Z.mul_1_l, u32_small by lia. case_cmp.
  - destruct (decide (order = 0)) as [->|]; [lia|].
    destruct (IH (order - 1)) as (o & E & H1 & H2); [lia..|]. exists o. csplit; [done|lia..].
  - exists order. csplit; [done|lia..].
Qed.

Section hand_over.
Context (ffs_of_zero max_low_pfn : Z) (Hffs : 0 <= ffs_of_zero) (Hlow : 0 <= max_low_pfn <= 2 ^ 20).

Lemma ffs_block start : 0 <= start < 2 ^ 32 -> 0 <= __ffs ffs_of_zero start /\ (2 ^ __ffs ffs_of_zero start | start).
Proof.
  intros Hs. destruct (decide (start = 0)) as [->|Hne].
  - split; [exact Hffs|apply Z.divide_0_r].
  - destruct (ffs_spec ffs_of_zero start) as (t & q & -> & Ht & _ & E); [lia|]. split; [lia|].
    exists (2 * q + 1). lia.
Qed.

Lemma free_pages_loop_ok fuel start end_ :
  0 <= start -> end_ <= 2 ^ 31 -> Z.max 0 (end_ - start) < Z.of_nat fuel ->
  exists evs, free_pages_loop ffs_of_zero fuel start end_ = Ok evs /\ Forall block_ok evs /\
    freed evs = seqZ start (end_ - start).
Proof.
  revert start. induction fuel as [|fuel IH]; intros start Hs He Hf; [lia|]. cbn [free_pages_loop].
  case_cmp; [|exists []; csplit; [done..|by rewrite seqZ_nil by lia]].
  destruct (ffs_block start) as [Hf0 Hdiv]; [lia|]. set (t := __ffs ffs_of_zero start) in *.
  destruct (fit_order_ok (Z.to_nat MAX_ORDER) start end_ (Z.min (MAX_ORDER - 1) t))
    as (o & -> & Ho & Hend); [lia|done|unfold MAX_ORDER; lia|unfold MAX_ORDER; lia|].
  rewrite bind_Ok. cbn beta. rewrite Z.shiftl_mul_pow2, Z.mul_1_l, u32_small by lia.
  destruct (IH (start + 2 ^ o)) as (evs & -> & Hok & Hfr); [lia..|]. rewrite bind_Ok.
  exists (FreePages start o :: evs). csplit; [done| |].
  - apply Forall_cons. split; [|done]. split; [unfold MAX_ORDER in *; lia|].
    eapply Z.divide_trans; [|exact Hdiv]. exists (2 ^ (t - o)). rewrite <- Z.pow_add_r by lia. f_equal. lia.
  - unfold freed in *. cbn. rewrite Hfr. replace (end_ - start) with (2 ^ o + (end_ - (start + 2 ^ o))) by lia.
    by rewrite seqZ_app by lia.
Qed.

Lemma pfn_up_small x : 0 <= x <= 2 ^ 32 - PAGE_SIZE -> PFN_UP x = (x + PAGE_SIZE - 1) / PAGE_SIZE.
Proof.
  intros Hx. unfold PFN_UP, PAGE_SIZE, PAGE_SHIFT in *. by rewrite u32_small, Z.shiftr_div_pow2 by lia.
Qed.

Lemma pfn_down x : PFN_DOWN x = x / PAGE_SIZE.
Proof. unfold PFN_DOWN. by rewrite Z.shiftr_div_pow2. Qed.

(** The whole pages of a range, below the limit. *)
Definition range_pages (s e : Z) : list Z :=
  seqZ (PFN_UP s) (Z.min (PFN_DOWN e) max_low_pfn - PFN_UP s).

Lemma range_pages_elem s e p :
  0 <= s <= 2 ^ 32 - PAGE_SIZE ->
  p ∈ range_pages s e <-> p < max_low_pfn /\ s <= p * PAGE_SIZE /\ (p + 1) * PAGE_SIZE <= e.
Proof.
  intros Hs. unfold range_pages. rewrite elem_of_seqZ, pfn_up_small, pfn_down by done. unfold PAGE_SIZE in *.
  pose proof (Z.div_mod (s + 4096 - 1) 4096). pose proof (Z.mod_pos_bound (s + 4096 - 1) 4096).
  pose proof (Z.div_mod e 4096). pose proof (Z.mod_pos_bound e 4096). lia.
Qed.

Lemma free_memory_core_ok s e :
  0 <= s <= 2 ^ 32 - PAGE_SIZE -> 0 <= e ->
  exists evs, __free_memory_core ffs_of_zero max_low_pfn s e = Ok (Z.of_nat (length (range_pages s e)), evs) /\
    Forall block_ok evs /\ freed evs = range_pages s e.
Proof.
  intros Hs He. unfold __free_memory_core, range_pages. set (p := PFN_UP s). set (q := Z.min _ _).
  assert (Hp : 0 <= p).
  { unfold p. rewrite pfn_up_small by done. unfold PAGE_SIZE in *. apply Z.div_pos; lia. }
  assert (Hq : 0 <= q <= 2 ^ 20).
  { unfold q. rewrite pfn_down. pose proof (Z.div_pos e PAGE_SIZE). unfold PAGE_SIZE in *. lia. }
  rewrite length_seqZ. rewrite Z.geb_leb. case_cmp.
  - exists []. replace (Z.to_nat (q - p)) with 0%nat by lia. csplit; [done..|by rewrite seqZ_nil by lia].
  - destruct (free_pages_loop_ok (S (Z.to_nat (q - p))) p q) as (evs & E & Hok & Hfr); [lia..|].
    unfold __free_pages_memory. rewrite E, bind_Ok. exists evs. rewrite u32_small, Z2Nat.id by lia. done.
Qed.

(** All the ranges of the loop. *)
Definition pages_of (L : list (Z * Z)) : list Z := L ≫= fun p => range_pages (fst p) (snd p).

Lemma free_body_fold L n evs :
  (forall s e, (s, e) ∈ L -> 0 <= s <= 2 ^ 32 - PAGE_SIZE /\ 0 <= e) -> Forall block_ok evs ->
  exists evs', fold_ranges (free_body ffs_of_zero max_low_pfn) L (u32 n, evs) =
      Ok (inl (u32 (n + Z.of_nat (length (pages_of L))), evs ++ evs')) /\
    Forall block_ok evs' /\ freed evs' = pages_of L.
Proof.
  revert n evs. induction L as [|[s e] L IH]; intros n evs HL Hok; cbn [fold_ranges].
  { exists []. rewrite app_nil_r. cbn. by rewrite Z.add_0_r. }
  destruct (HL s e ltac:(left)) as [Hs He].
  destruct (free_memory_core_ok s e) as (evs1 & E1 & Hok1 & Hf1); [done..|].
  assert (Eb : free_body ffs_of_zero max_low_pfn s e (u32 n, evs) =
    Ok (inl (u32 (n + Z.of_nat (length (range_pages s e))), evs ++ evs1))).
  { unfold free_body. rewrite E1, bind_Ok. cbn. unfold u32. by rewrite Zplus_mod_idemp_l. }
  rewrite Eb, bind_Ok. cbn beta iota.
  destruct (IH (n + Z.of_nat (length (range_pages s e))) (evs ++ evs1)) as (evs2 & -> & Hok2 & Hf2).
  { intros s' e' H. apply HL. by right. }
  { by apply Forall_app. }
  exists (evs1 ++ evs2). csplit.
  - unfold pages_of. cbn. rewrite length_app. rewrite <- app_assoc. do 4 f_equal. lia.
  - by apply Forall_app.
  - rewrite freed_app, Hf1, Hf2. done.
Qed.
End hand_over.

Lemma pages_of_elem max_low_pfn L p :
  (forall s e, (s, e) ∈ L -> 0 <= s <= 2 ^ 32 - PAGE_SIZE) ->
  p ∈ pages_of max_low_pfn L <->
  p < max_low_pfn /\ exists s e, (s, e) ∈ L /\ s <= p * PAGE_SIZE /\ (p + 1) * PAGE_SIZE <= e.
Proof.
  intros HL. unfold pages_of. rewrite list_elem_of_bind. split.
  - intros ([s e] & Hp & Hel). cbn in Hp. rewrite range_pages_elem in Hp by (by eapply HL). naive_solver.
  - intros (Hlt & s & e & Hel & H). exists (s, e). cbn. rewrite range_pages_elem by (by eapply HL). done.
Qed.

Lemma pages_of_NoDup max_low_pfn L :
  (forall s e, (s, e) ∈ L -> 0 <= s <= 2 ^ 32 - PAGE_SIZE) -> ascending L -> NoDup (pages_of max_low_pfn L).
Proof.
  induction L as [|[s e] L IH]; intros HL Hasc; [constructor|]. apply StronglySorted_inv in Hasc as [Hasc Hle].
  assert (HL' : forall s e, (s, e) ∈ L -> 0 <= s <= 2 ^ 32 - PAGE_SIZE) by (intros s' e' H; apply (HL s' e'); by right).
  change (NoDup (range_pages max_low_pfn s e ++ pages_of max_low_pfn L)). apply NoDup_app. csplit.
  - apply NoDup_seqZ.
  - intros p Hp. rewrite range_pages_elem in Hp by (apply (HL s e); left). rewrite pages_of_elem by done.
    intros (_ & s' & e' & Hel & H). rewrite Forall_forall in Hle. specialize (Hle _ Hel). cbn in Hle.
    unfold PAGE_SIZE in *. lia.
  - by apply IH.
Qed.

(** The loop over reserved regions has no second list and skips nothing. *)
Lemma reserved_ranges nid flags t n a :
  wf t -> 0 <= a -> cnt t = a + Z.of_nat n ->
  ranges (__next_mem_range false nid flags t None) (pack_idx a 0)
    (map (fun r => (r_base r, r_end r)) (drop (Z.to_nat a) (regions t))).
Proof.
  intros Hwf. pose proof (cnt_bound t Hwf). revert a. induction n as [|n IH]; intros a Ha Hn.
  all: destruct (pack_unpack a 0) as (Ea & Eb & _); [lia|lia|].
  - rewrite drop_ge by (unfold cnt in *; lia). eapply ranges_end. unfold __next_mem_range. rewrite Ea.
    rewrite (Nat.add_comm _ 1). cbn [Nat.add next_a_loop].
    rewrite (proj2 (Z.ltb_ge _ _)) by lia. done.
  - assert (Hlt : (Z.to_nat a < length (regions t))%nat) by (unfold cnt in *; lia).
    destruct (lookup_lt_is_Some_2 _ _ Hlt) as [r Er]. rewrite (drop_S _ r _ Er). cbn [map].
    replace (S (Z.to_nat a)) with (Z.to_nat (a + 1)) by lia.
    eapply (ranges_next _ _ (pack_idx (a + 1) 0)); [|by apply pack_unpack; lia|apply IH; lia].
    unfold __next_mem_range. rewrite Ea, Eb. rewrite (Nat.add_comm _ 1). cbn [Nat.add next_a_loop].
    rewrite (proj2 (Z.ltb_lt _ _)) by lia. unfold region_at. rewrite (list_lookup_total_correct _ _ _ Er). done.
Qed.

Definition reserved_events (mb : memblock) : list page_event :=
  map (fun r => ReserveBootmem (r_base r) (r_end r)) (regions (reserved mb)) ++
  map (fun r => ReserveBootmem (r_base r) (r_end r))
      (base.filter (fun r => memblock_is_nomap r = true) (regions (memory mb))).

Lemma reserve_body_fold L evs :
  fold_ranges reserve_body L evs = Ok (inl (evs ++ map (fun p => ReserveBootmem (fst p) (snd p)) L)).
Proof.
  revert evs. induction L as [|[s e] L IH]; intros evs; cbn [fold_ranges map]; [by rewrite app_nil_r|].
  change (fold_ranges reserve_body L (evs ++ [ReserveBootmem s e]) = Ok (inl (evs ++ ReserveBootmem s e :: map (fun p => ReserveBootmem (fst p) (snd p)) L))).
  rewrite IH. by rewrite <- app_assoc.
Qed.

Lemma memmap_init_ok mb : all_wf mb -> memmap_init_reserved_pages mb = Ok (reserved_events mb).
Proof.
  intros [_ Hwr _]. unfold memmap_init_reserved_pages.
  pose proof (reserved_ranges NUMA_NO_NODE MEMBLOCK_NONE (reserved mb) (length (regions (reserved mb))) 0 Hwr) as HR.
  change (pack_idx 0 0) with 0 in HR. rewrite (for_each_range_fold _ _ _ _ _ _ (HR ltac:(lia) ltac:(done))).
  - rewrite reserve_body_fold, bind_Ok. cbn beta iota. unfold reserved_events. cbn [drop app].
    by rewrite map_map.
  - rewrite length_map, length_drop. unfold walk_fuel. lia.
Qed.

Lemma freed_reserved mb : freed (reserved_events mb) = [] /\ Forall block_ok (reserved_events mb).
Proof.
  unfold reserved_events. rewrite <- map_app. generalize (regions (reserved mb) ++ base.filter (fun r => memblock_is_nomap r = true) (regions (memory mb))).
  intros rs. induction rs as [|r rs [IH1 IH2]]; [done|]. split; [done|]. by apply Forall_cons.
Qed.

(** C12. For well-formed lists of regions, no region of memory reaching into the
    last page of the address space, and a limit of at most [2^20] pages,
    [free_low_memory_core_early] terminates, marks every reserved region
    and every region without mapping, and frees exactly the pages below the
    limit that are wholly free in one region of memory, each of them once, in
    naturally aligned blocks of an order the page allocator has; it returns
    their number. *)
Theorem free_low_memory_core_early_spec ffs_of_zero max_low_pfn mb :
  0 <= ffs_of_zero -> 0 <= max_low_pfn <= 2 ^ 20 -> all_wf mb ->
  (forall r, r ∈ regions (memory mb) -> r_base r + r_size r <= 2 ^ 32 - PAGE_SIZE) ->
  exists evs, free_low_memory_core_early ffs_of_zero max_low_pfn mb
      = Ok (u32 (Z.of_nat (length (freed evs))), reserved_events mb ++ evs) /\
    Forall block_ok evs /\ NoDup (freed evs) /\
    forall p, p ∈ freed evs <->
      p < max_low_pfn /\ free_block mb NUMA_NO_NODE MEMBLOCK_NONE (p * PAGE_SIZE) PAGE_SIZE.
Proof.
  intros Hffs Hlow Hwf Htop. unfold free_low_memory_core_early. rewrite memmap_init_ok, bind_Ok by done.
  destruct (for_each_free_ok mb Hwf NUMA_NO_NODE MEMBLOCK_NONE) as (L & Hasc & (Hbd & _ & Hblk & Hfree & Hmax) & ->).
  assert (HL : forall s e, (s, e) ∈ L -> 0 <= s <= 2 ^ 32 - PAGE_SIZE /\ 0 <= e).
  { intros s e Hel. specialize (Hmax (2 ^ 32 - PAGE_SIZE) ltac:(unfold PAGE_SIZE; lia) Htop s e Hel).
    specialize (Hbd s e Hel). lia. }
  destruct (free_body_fold ffs_of_zero max_low_pfn Hffs Hlow L 0 (reserved_events mb)) as (evs & E & Hok & Hf);
    [done|apply freed_reserved|].
  change (u32 0) with 0 in E. rewrite E, bind_Ok. exists evs. rewrite Hf, Z.add_0_l.
  assert (HL' : forall s e, (s, e) ∈ L -> 0 <= s <= 2 ^ 32 - PAGE_SIZE) by (intros s e H; by apply (HL s e)).
  csplit; [done|done|by apply pages_of_NoDup|]. intros p. rewrite pages_of_elem by done.
  apply and_iff_compat_l. split.
  - intros (s & e & Hel & Hs & He). destruct (Hfree s e Hel) as [(r & Hr & Hsk & H1 & H2 & Hno)|<-].
    + exists r. csplit; [done|done|lia|lia|]. intros a Ha. apply Hno. lia.
    + unfold PAGE_SIZE in *. lia.
  - intros Hb. destruct (Hblk (p * PAGE_SIZE) PAGE_SIZE) as (s & e & Hel & H1 & H2); [done..|].
    exists s, e. csplit; [done|lia|lia].
Qed.
