(* ===== verification/MemblockCases.v ===== *)
(** * mm/memblock.c: concrete states

    A small machine at boot, on which the theorems about memblock are
    evaluated, and the two states in which doubling an array goes wrong. *)

From S2P Require Import Prelude Memblock MemblockRegions MemblockFree MemblockGrow MemblockQuery MemblockPages.

(** ** Deciding the invariant *)

Fixpoint orderedb (rs : list memblock_region) (from : Z) : bool :=
  match rs with
  | [] => true
  | r :: rs => (from <=? r_base r) && (0 <? r_size r) && (r_base r + r_size r <=? PHYS_ADDR_MAX) &&
               orderedb rs (r_base r + r_size r)
  end.

Lemma orderedb_sound rs from :
  0 <= from -> orderedb rs from = true -> good rs /\ forall r, r ∈ rs -> from <= r_base r.
Proof.
  revert from. induction rs as [|r rs IH]; intros from H0; cbn [orderedb].
  { intros _. split; [apply good_nil|by intros ? ?%not_elem_of_nil]. }
  intros H. apply andb_true_iff in H as [H Hrs]. destruct (IH (r_base r + r_size r)) as [Hg Hb]; [lia|done|].
  split.
  - apply good_cons. csplit; [unfold region_ok; lia|by apply Forall_forall|done].
  - intros s [->|Hs]%elem_of_cons; [lia|]. specialize (Hb s Hs). lia.
Qed.

Definition wfb (t : memblock_type) : bool :=
  (bool_decide (regions t = nothing) || (negb (bool_decide (regions t = [])) && orderedb (regions t) 0)) &&
  (cnt t <=? max_regions t) &&
  (4 <=? max_regions t) && (max_regions t <=? 2 ^ 27).

Lemma wfb_sound t : wfb t = true -> wf t.
Proof.
  unfold wfb. rewrite !andb_true_iff, orb_true_iff, andb_true_iff, negb_true_iff, bool_decide_eq_true,
    bool_decide_eq_false.
  intros [[[H1 H3] H4] H5]. split; [|lia|lia].
  destruct H1 as [?|[Hne Ho]]; [by left|right]. split; [done|]. by apply (orderedb_sound _ 0).
Qed.

Definition all_wfb (mb : memblock) : bool :=
  wfb (memory mb) && wfb (reserved mb) && (0 <=? current_limit mb) && (current_limit mb <=? PHYS_ADDR_MAX).

Lemma all_wfb_sound mb : all_wfb mb = true -> all_wf mb.
Proof.
  unfold all_wfb. rewrite !andb_true_iff. intros [[[H1 H2] H3] H4]. split; [by apply wfb_sound..|lia].
Qed.

(** Arrays that were never moved. *)
Lemma static_arrays_ok mb :
  array (memory mb) = None -> array (reserved mb) = None ->
  memblock_memory_in_slab mb = false -> memblock_reserved_in_slab mb = false -> arrays_ok mb.
Proof.
  intros E1 E2 S1 S2.
  assert (Hno : forall w a, ~ stored w mb a) by (intros [] a (p & E & _); cbn in E; congruence).
  split; [done|intros [] p; cbn; congruence|by intros w a ?%Hno|by intros a [?%Hno _]].
Qed.

(** [n] regions of [sz] bytes, one every [step] bytes. *)
Fixpoint comb (n : nat) (base step sz : Z) : list memblock_region :=
  match n with O => [] | S n => Region base sz 0 :: comb n (base + step) step sz end.

Definition type_of (rs : list memblock_region) (max : Z) (arr : option Z) : memblock_type :=
  MbType rs max (sum rs) arr.

(** ** A machine with 128 MB *)

Definition boot_mb : memblock :=
  Memblock false MEMBLOCK_ALLOC_ANYWHERE
    (MbType [Region 0 0x9f000 0; Region 0x100000 0x7ee0000 0] 128 0x7f7f000 None)
    (MbType [Region 0 0x10000 0; Region 0x1000000 0x1000000 0] 128 0x1010000 None)
    true false false false.

Lemma boot_mb_wf : all_wf boot_mb.
Proof. by apply all_wfb_sound. Qed.

Lemma boot_mb_arrays : arrays_ok boot_mb.
Proof. by apply static_arrays_ok. Qed.

Lemma boot_mb_not_stored w a : ~ stored w boot_mb a.
Proof. by destruct w; intros (p & [=] & _). Qed.

(** The doubling function of the kernel, with one level of nesting. *)
Definition dbl1 : doubler := double_array_n false (fun _ => 0) 1.

#[export] Instance dbl1_ok : DoublerOk dbl1.
Proof. apply double_array_ok. Qed.

(** All of the 128 regions of the memory list are used, and there is memory
    for a larger array. *)
Definition busy_mb : memblock :=
  Memblock false MEMBLOCK_ALLOC_ANYWHERE
    (type_of (comb 127 0x100000 0x10000 0x8000 ++ [Region 0x2000000 0x1000000 0]) 128 None)
    (type_of [Region 0x100000 0x1000 0] 128 None) true false false false.

(** The array grows. *)
Lemma memblock_add_spec_witness :
  ~ fits Memory (new_regions Memory 0x4000000 0x1000 busy_mb) busy_mb /\
  exists ret mb', memblock_add dbl1 0x4000000 0x1000 busy_mb = Ok (ret, mb') /\
    lookup (regions (memory mb')) 0x4000fff = Some 0.
Proof.
  split; [vm_compute; intros H; by apply H|].
  destruct (memblock_add_spec dbl1 0x4000000 0x1000 busy_mb) as (ret & mb' & E & _ & _ & _ & _ & Hres).
  - apply all_wfb_sound. vm_compute. reflexivity.
  - by apply static_arrays_ok.
  - vm_compute. discriminate.
  - right. vm_compute. discriminate.
  - split; vm_compute; discriminate.
  - lia.
  - exists ret, mb'. split; [exact E|]. destruct Hres as [(-> & _ & Hl)|(-> & _)].
    + rewrite Hl. vm_compute. reflexivity.
    + vm_compute in E. discriminate.
Defined.

(** The first 128 KB: reserving from address 0 on, with room in the array. *)
Lemma memblock_reserve_spec_witness :
  exists mb', memblock_reserve dbl1 0 0x20000 boot_mb = Ok (0, mb') /\ lookup (regions (reserved mb')) 0x1ffff <> None.
Proof.
  destruct (memblock_reserve_spec dbl1 0 0x20000 boot_mb) as (ret & mb' & E & _ & _ & _ & Hf & Hres).
  - apply boot_mb_wf.
  - apply boot_mb_arrays.
  - vm_compute. discriminate.
  - split; vm_compute; discriminate.
  - lia.
  - left. vm_compute. discriminate.
  - destruct Hf as [-> _]; [vm_compute; discriminate|]. exists mb'. split; [exact E|]. destruct Hres as [(_ & _ & Hl & _)|(? & _)]; [|discriminate].
    apply Hl. vm_compute. split; [discriminate|reflexivity].
Defined.

Lemma memblock_remove_spec_witness :
  exists mb', memblock_remove dbl1 0x200000 0x1000 boot_mb = Ok (0, mb') /\
    lookup (regions (memory mb')) 0x200000 = None /\ reserved mb' = reserved boot_mb.
Proof.
  destruct (memblock_remove_spec dbl1 0x200000 0x1000 boot_mb) as (ret & mb' & E & _ & _ & _ & Hf & Hres).
  - apply boot_mb_wf.
  - apply boot_mb_arrays.
  - vm_compute. discriminate.
  - left. vm_compute. discriminate.
  - split; vm_compute; discriminate.
  - lia.
  - destruct Hf as [-> Hr]; [vm_compute; discriminate|]. exists mb'. split; [exact E|]. split; [|exact Hr].
    destruct Hres as [(_ & Hl)|(? & _)]; [|discriminate]. rewrite Hl. vm_compute. reflexivity.
Defined.

Lemma memblock_phys_free_spec_witness :
  exists ret mb', memblock_phys_free dbl1 0x1800000 0x1000 boot_mb = Ok (ret, mb') /\
    all_wf mb' /\ regions (memory mb') = regions (memory boot_mb).
Proof.
  destruct (memblock_phys_free_spec dbl1 0x1800000 0x1000 boot_mb) as (ret & mb' & E & Hwf & _ & Hm & _).
  - apply boot_mb_wf.
  - apply boot_mb_arrays.
  - vm_compute. discriminate.
  - split; vm_compute; discriminate.
  - lia.
  - intros w a _. apply boot_mb_not_stored.
  - exists ret, mb'. auto.
Defined.

Lemma memblock_alloc_range_nid_spec_witness :
  exists r mb', memblock_alloc_range_nid 64 dbl1 0x5000 0x1000 0 0 NUMA_NO_NODE false boot_mb = Ok (r, mb') /\
    (0x1000 | r) /\ 0x1000 <= r.
Proof.
  destruct (memblock_alloc_range_nid_spec dbl1 64 0x5000 0x1000 12 0 0 NUMA_NO_NODE false boot_mb)
    as (r & mb' & E & _ & Hres).
  - split; [apply boot_mb_wf|apply boot_mb_arrays|]. intros []; vm_compute; discriminate.
  - lia.
  - split; [lia|done].
  - split; vm_compute; discriminate.
  - split; vm_compute; discriminate.
  - exists r, mb'. split; [exact E|]. destruct Hres as [(_ & mb0 & _ & [Hd Hr _ _ _])|[-> _]].
    + split; [exact Hd|]. destruct Hr as [Hr _]. vm_compute in Hr. vm_compute. tauto.
    + vm_compute in E. discriminate.
Defined.

Lemma free_ranges_spec_witness :
  exists L, for_each_free_mem_range boot_mb NUMA_NO_NODE 0 collect [] = Ok (inl L) /\
    L = [(0x10000, 0x9f000); (0x100000, 0x1000000); (0x2000000, 0x7fe0000)] /\ ascending L.
Proof.
  destruct (free_ranges_spec boot_mb NUMA_NO_NODE 0) as (L & L' & E & _ & Ha & _).
  - apply boot_mb_wf.
  - exists L. split; [exact E|]. split; [|exact Ha]. vm_compute in E. injection E as <-. reflexivity.
Defined.

Lemma find_in_range_node_spec_witness :
  exists r, memblock_find_in_range_node boot_mb 0x5000 0x1000 0 0x2000000 NUMA_NO_NODE 0 = Ok r /\
    r = 0xffb000 /\ (0x1000 | r).
Proof.
  destruct (find_in_range_node_spec boot_mb 0x5000 0x1000 12 0 0x2000000 NUMA_NO_NODE 0) as (r & E & _ & Hr).
  - apply boot_mb_wf.
  - lia.
  - split; [lia|reflexivity].
  - split; vm_compute; discriminate.
  - split; vm_compute; discriminate.
  - exists r. split; [exact E|]. vm_compute in E. injection E as <-. split; [reflexivity|].
    destruct Hr as [(Hd & _) _]; [discriminate|exact Hd].
Defined.

Lemma is_region_memory_spec_witness :
  exists b, memblock_is_region_memory boot_mb 0x100000 0x1000 = Ok b /\ b = true.
Proof.
  destruct (is_region_memory_spec boot_mb 0x100000 0x1000) as (b & E & Hb).
  - apply boot_mb_wf.
  - split; vm_compute; discriminate.
  - lia.
  - exists b. split; [exact E|]. apply Hb. exists (Region 0x100000 0x7ee0000 0).
    split; [right; left|]. split; [split; vm_compute; [discriminate|reflexivity]|vm_compute; discriminate].
Defined.

Lemma is_region_reserved_spec_witness : memblock_is_region_reserved boot_mb 0xf000 0x2000 = true.
Proof.
  apply (is_region_reserved_spec boot_mb 0xf000 0x2000).
  - apply boot_mb_wf.
  - lia.
  - lia.
  - vm_compute. discriminate.
  - exists 0xf000. split; [lia|]. vm_compute. discriminate.
Defined.

(** ** Trimming *)

(** The BIOS reports memory that does not end on a page boundary. *)
Definition ragged_mb : memblock :=
  Memblock false MEMBLOCK_ALLOC_ANYWHERE
    (MbType [Region 0 0x9fc00 0; Region 0x9fe00 0x100 0; Region 0x100000 0x7ee0000 0] 128 0x7f7fd00 None)
    (MbType nothing 128 0 None) true false false false.

Lemma trim_memory_spec_witness :
  exists mb', memblock_trim_memory 0x1000 ragged_mb = Ok mb' /\ all_wf mb' /\
    regions (memory mb') = [Region 0 0x9f000 0; Region 0x100000 0x7ee0000 0].
Proof.
  destruct (trim_memory_spec 0x1000 12 ragged_mb) as (mb' & E & Hwf & _).
  - split; [lia|reflexivity].
  - apply all_wfb_sound. vm_compute. reflexivity.
  - repeat constructor; vm_compute; discriminate.
  - exists mb'. split; [exact E|]. split; [exact Hwf|]. vm_compute in E. injection E as <-. reflexivity.
Defined.

(** [memblock_trim_memory] does not count what it cuts off a region:
    [total_size] is no longer the sum of the sizes afterwards. *)
Theorem trim_total_size_stale :
  total_ok (memory ragged_mb) /\
  exists mb', memblock_trim_memory 0x1000 ragged_mb = Ok mb' /\
    total_size (memory mb') = sum (regions (memory mb')) + 0xc00.
Proof.
  split; [vm_compute; reflexivity|]. eexists. split; [vm_compute; reflexivity|]. vm_compute. reflexivity.
Qed.

(** A region inside the last page of the address space. *)
Definition top_mb : memblock :=
  Memblock false MEMBLOCK_ALLOC_ANYWHERE
    (MbType [Region 0x100000 0x100000 0; Region 0xfffff800 0x7ff 0] 128 0x1007ff None)
    (MbType nothing 128 0 None) true false false false.

Lemma top_mb_wf : all_wf top_mb.
Proof. apply all_wfb_sound. vm_compute. reflexivity. Qed.

Lemma trims_app align rs ss : trims align (rs ++ ss) = trims align rs ++ trims align ss.
Proof. apply omap_app. Qed.

(** A region of all addresses below the last block does not go with another. *)
Lemma wrapped_overlaps align k rs r s b :
  is_pow2 align k -> good rs -> r ∈ rs -> s ∈ rs -> 2 ^ 32 - align < r_base r -> holds_block align s b ->
  trims align rs <> nothing /\ ~ good (trims align rs).
Proof.
  intros Hal Hg Hr Hs Hhigh (Hd & Hlo & Hhi). pose proof (align_pos align k Hal). pose proof (good_ok _ _ Hg Hr) as Hrok.
  pose proof (good_ok _ _ Hg Hs) as Hsok. pose proof Hsok as (S1 & S2 & S3). unfold PHYS_ADDR_MAX in S3.
  pose proof (trim1_cases align k Hal s Hsok ltac:(unfold low_enough; lia)) as Hc. pose proof (trim1_wraps align k Hal r Hrok Hhigh) as Ew.
  apply list_elem_of_split in Hs as (L1 & L2 & ->). apply good_app in Hg as (_ & Hg & Hb).
  assert (Hin : r ∈ L2).
  { apply elem_of_app in Hr as [Hr|[->|Hr]%elem_of_cons]; [|lia|done]. specialize (Hb r s Hr ltac:(left)). unfold before in Hb. destruct Hrok as (_ & ? & _). lia. }
  rewrite trims_app. change (trims align (s :: L2)) with (omap (trim1 align) (s :: L2)). cbn [omap list_omap].
  destruct (trim1 align s) as [s'|] eqn:Es; [|by destruct (Hc b)]. destruct Hc as ((C1 & C2 & _) & _).
  assert (Hin' : Region 0 (2 ^ 32 - align) (r_flags r) ∈ trims align L2) by (apply trims_elem; eauto). fold (trims align L2). split.
  - intros E. apply (f_equal length) in E. rewrite length_app in E. cbn in E. destruct (trims align L2); [by apply not_elem_of_nil in Hin'|]. cbn in E. lia.
  - intros (_ & (_ & Hbf & _)%good_cons & _)%good_app. rewrite Forall_forall in Hbf. specialize (Hbf _ Hin'). unfold before in Hbf. cbn in Hbf. lia.
Qed.

(** C13. A region that starts inside the last block of the address space makes
    the rounding of [memblock_trim_memory] wrap, for every alignment and in
    every well-formed state: instead of vanishing, it becomes a region of all
    addresses below that block, so that all of them are memory; and when any
    region held a whole block, regions overlap and the state is no longer
    well-formed. *)
Theorem trim_wraps_at_top align k mb r :
  is_pow2 align k -> all_wf mb -> r ∈ regions (memory mb) -> 2 ^ 32 - align < r_base r ->
  exists mb', memblock_trim_memory align mb = Ok mb' /\
    Region 0 (2 ^ 32 - align) (r_flags r) ∈ regions (memory mb') /\
    (forall a, 0 <= a < 2 ^ 32 - align -> lookup (regions (memory mb')) a <> None) /\
    ((exists s b, s ∈ regions (memory mb) /\ holds_block align s b) -> ~ all_wf mb').
Proof.
  intros Hal Hwf Hr Hhigh. pose proof (align_pos align k Hal). destruct (trim_memory_list align k mb Hal Hwf) as (mb' & E & _ & _ & _ & Er).
  exists mb'. split; [done|]. destruct (wf_regions _ (aw_memory _ Hwf)) as [En|[_ Hg]].
  { rewrite En in Hr. apply list_elem_of_singleton in Hr as ->. cbn in Hhigh. lia. }
  assert (Hin : Region 0 (2 ^ 32 - align) (r_flags r) ∈ trims align (regions (memory mb))).
  { apply trims_elem. exists r. split; [done|]. apply (trim1_wraps align k); [done|by eapply good_ok|done]. }
  assert (Eo : or_nothing (trims align (regions (memory mb))) = trims align (regions (memory mb))).
  { destruct (trims _ _); [by apply not_elem_of_nil in Hin|done]. }
  rewrite Er, Eo. split; [done|]. split.
  - intros a Ha Hno. apply (proj1 (lookup_None _ _) Hno _ Hin). unfold rcovers. cbn. lia.
  - intros (s & b & Hs & Hb) Hwf'. destruct (wrapped_overlaps align k _ r s b Hal Hg Hr Hs Hhigh Hb) as [H1 H2].
    destruct (wf_regions _ (aw_memory _ Hwf')) as [E'|[_ Hg']]; rewrite Er, Eo in *; done.
Qed.

Lemma trim_wraps_at_top_witness :
  exists mb', memblock_trim_memory 0x1000 top_mb = Ok mb' /\ lookup (regions (memory mb')) 0xe0000000 <> None /\ ~ all_wf mb'.
Proof.
  destruct (trim_wraps_at_top 0x1000 12 top_mb (Region 0xfffff800 0x7ff 0)) as (mb' & E & _ & Hl & Hno).
  - split; [lia|done].
  - apply top_mb_wf.
  - right. left.
  - cbn. lia.
  - exists mb'. split; [exact E|]. split; [apply Hl; lia|]. apply Hno. exists (Region 0x100000 0x100000 0), 0x100000.
    split; [left|]. split; [by exists 0x100|]. cbn. lia.
Defined.

Lemma free_low_memory_core_early_spec_witness :
  exists evs, free_low_memory_core_early 32 0x7fe0 boot_mb =
      Ok (u32 (Z.of_nat (length (freed evs))), reserved_events boot_mb ++ evs) /\
    NoDup (freed evs) /\ 0x10 ∈ freed evs.
Proof.
  destruct (free_low_memory_core_early_spec 32 0x7fe0 boot_mb) as (evs & E & _ & Hn & Hp).
  - lia.
  - lia.
  - apply boot_mb_wf.
  - intros r [->|[->|?%not_elem_of_nil]%elem_of_cons]%elem_of_cons; [..|done]; vm_compute; discriminate.
  - exists evs. split; [exact E|]. split; [exact Hn|]. apply Hp. split; [lia|].
    exists (Region 0 0x9f000 0). split; [left|]. split; [reflexivity|].
    split; [vm_compute; discriminate|]. split; [vm_compute; discriminate|].
    clear E. intros a Ha. unfold PAGE_SIZE in Ha. apply lookup_None.
    intros r [->|[->|?%not_elem_of_nil]%elem_of_cons]%elem_of_cons; [..|done]; unfold rcovers; cbn; lia.
Defined.

(** ** Where doubling goes wrong *)

(** The list of reserved regions is full, and the only free page is below
    the first reserved region. *)
Definition low_mb : memblock :=
  Memblock false MEMBLOCK_ALLOC_ANYWHERE
    (type_of [Region 0 0x180000 0] 128 None)
    (type_of (comb 128 0x100000 4096 4080) 128 None) true false false false.

Lemma stored_at w mb p a :
  array (get_type w mb) = Some p -> p <= a < p + array_bytes (get_type w mb) -> stored w mb a.
Proof. intros E Ha. by exists p. Qed.

(** C8. A reservation that starts at address 0 can be given the new array of
    reserved regions in its middle: when nothing above it is free,
    [memblock_double_array] searches [0, min(0, limit)), and an upper limit of
    0 means anywhere. The caller is told that its range is reserved, and so is
    the array. *)
Theorem low_reservation_holds_array :
  all_wf low_mb /\ arrays_ok low_mb /\
  exists mb', memblock_reserve dbl1 0 0x100000 low_mb = Ok (0, mb') /\ stored Reserved mb' 0xff000.
Proof.
  csplit; [by apply all_wfb_sound|by apply static_arrays_ok|].
  eexists. split; [vm_compute; reflexivity|].
  apply (stored_at _ _ 0xff000); [reflexivity|]. vm_compute. split; [discriminate|reflexivity].
Qed.

(** The memory array was moved once and is full; the list of reserved
    regions has one slot left. *)
Definition full_mb : memblock :=
  Memblock false MEMBLOCK_ALLOC_ANYWHERE
    (type_of (comb 255 0x100000 0x10000 0x8000 ++ [Region 0x2000000 0x1000000 0]) 256 (Some 0x2000000))
    (type_of (comb 126 0x100000 0x10000 0x100 ++ [Region 0x2000000 0x1000 0]) 128 None)
    true false false false.

Definition dbl2 : doubler := double_array_n false (fun _ => 0) 2.

Lemma full_mb_wf : all_wf full_mb.
Proof. apply all_wfb_sound. vm_compute. reflexivity. Qed.

Lemma full_mb_arrays : arrays_ok full_mb.
Proof.
  assert (Hm : forall a, stored Memory full_mb a <-> 0x2000000 <= a < 0x2001000).
  { intros a. split; [intros (p & [= <-] & Ha); exact Ha|]. intros Ha. exists 0x2000000. split; [done|exact Ha]. }
  assert (Hr : forall a, ~ stored Reserved full_mb a) by (by intros a (p & [=] & _)).
  split; [done| | |by intros a [_ ?%Hr]].
  - intros []; [|by intros p [=]]. intros p [= <-]. vm_compute. split; discriminate.
  - intros [] a Ha; [|by apply Hr in Ha]. apply Hm in Ha.
    rewrite (lookup_elem _ (Region 0x2000000 0x1000 0)); [done| | |unfold rcovers; cbn; lia].
    + pose proof (aw_reserved _ full_mb_wf) as [[E|[_ Hg]] _ _]; [vm_compute in E; discriminate|done].
    + apply elem_of_app. right. left.
Qed.

(** C9. Growing the memory array can put both arrays at the same place. The
    old array is freed before the new one is reserved, and freeing it may have
    to grow the array of reserved regions, whose search for a free area finds
    the area just chosen. *)
Theorem growing_memory_overlaps_arrays :
  all_wf full_mb /\ arrays_ok full_mb /\
  exists mb', memblock_add dbl2 0x4000000 0x1000 full_mb = Ok (0, mb') /\
    stored Memory mb' 0x2fff000 /\ stored Reserved mb' 0x2fff000.
Proof.
  csplit; [apply full_mb_wf|apply full_mb_arrays|].
  eexists. csplit; [vm_compute; reflexivity|..].
  - apply (stored_at _ _ 0x2ffe000); [reflexivity|]. vm_compute. split; [discriminate|reflexivity].
  - apply (stored_at _ _ 0x2fff000); [reflexivity|]. vm_compute. split; [discriminate|reflexivity].
Qed.
