(* ===== verification/BootMemory.v ===== *)
(** * arch/x86/kernel/e820.c: from the firmware's table to memblock

    [e820__memory_setup_default] takes over the firmware's table, or makes one
    up from the sizes the boot loader reports, and [e820__memblock_setup]
    registers the usable entries with memblock and trims them to whole pages.
    The theorem at the end follows an address from the firmware's table to the
    memory list of memblock. *)

From Stdlib Require Import String.
From S2P Require Import Prelude E820 Memblock MemblockRegions MemblockFree MemblockPages.

(** ** The code *)

(** The fields of [struct boot_params] that are read here; [bp_e820] holds the
    first [e820_entries] entries of its table. *)
Record boot_params := BootParams {
  bp_e820 : list boot_e820_entry;
  alt_mem_k : Z;
  ext_mem_k : Z;
}.

Definition LOWMEMSIZE : Z := 0x9f000.
Definition HIGH_MEMORY : Z := 0x100000.

Definition e820__memory_setup_default (bp : boot_params) (t : e820_table) : outcome (string * e820_table) :=
  let '(ret, t) := append_e820_table t (bp_e820 bp) in
  let '(who, t) :=
    if ret <? 0 then
      let '(mem_size, who) :=
        if alt_mem_k bp <? ext_mem_k bp then (ext_mem_k bp, "BIOS-88"%string)
        else (alt_mem_k bp, "BIOS-e801"%string) in
      let t := E820Table [] in
      let t := e820__range_add t 0 LOWMEMSIZE E820_TYPE_RAM in
      (who, e820__range_add t HIGH_MEMORY (u64 (Z.shiftl mem_size 10)) E820_TYPE_RAM)
    else ("BIOS-e820"%string, t) in
  '(_, t) ← e820__update_table t;
  Ok (who, t).

Section setup.
Context (dbl : doubler).

(** One entry: both calls ignore the result code. *)
Definition memblock_setup_entry (entry : e820_entry) (mb : memblock) : outcome memblock :=
  let end_ := u64 (addr entry + size entry) in
  if negb (end_ =? u32 end_) then Ok mb
  else
    mb ← (if type entry =? E820_TYPE_SOFT_RESERVED
          then '(_, mb) ← memblock_reserve dbl (u32 (addr entry)) (u32 (size entry)) mb; Ok mb
          else Ok mb);
    if negb (type entry =? E820_TYPE_RAM) && negb (type entry =? E820_TYPE_RESERVED_KERN) then Ok mb
    else '(_, mb) ← memblock_add dbl (u32 (addr entry)) (u32 (size entry)) mb; Ok mb.

Fixpoint memblock_setup_loop (es : list e820_entry) (mb : memblock) : outcome memblock :=
  match es with
  | [] => Ok mb
  | entry :: es => mb ← memblock_setup_entry entry mb; memblock_setup_loop es mb
  end.

Definition e820__memblock_setup (t : e820_table) (mb : memblock) : outcome memblock :=
  mb ← memblock_setup_loop (entries t) (memblock_allow_resize mb);
  memblock_trim_memory PAGE_SIZE mb.
End setup.

(** ** Adding at the end of the list *)

Lemma gaps_after end_ rs base :
  (forall r, r ∈ rs -> r_base r + r_size r <= base) -> gaps end_ rs base <= 1.
Proof.
  induction rs as [|r rs IH]; intros H; cbn [gaps]; [lia_b2z|].
  pose proof (H r ltac:(left)). case_cmp; [lia_b2z|]. rewrite (proj2 (Z.leb_le _ _)) by lia.
  apply IH. intros s Hs. apply H. by right.
Qed.

Lemma add_at_end dbl base size mb :
  all_wf mb -> 0 <= base -> 0 <= size -> base + size <= PHYS_ADDR_MAX ->
  (forall r, r ∈ regions (memory mb) -> r_base r + r_size r <= base) ->
  cnt (memory mb) + 1 <= max_regions (memory mb) ->
  exists mb', memblock_add dbl base size mb = Ok (0, mb') /\ added Memory base (base + size) 0 mb mb' /\
    cnt (memory mb') <= cnt (memory mb) + 1.
Proof.
  intros Hwf Hb Hs Hle Hafter Hroom. unfold memblock_add.
  assert (En : memblock_cap_size base size = size) by (rewrite cap_size_small by lia; lia).
  pose proof (gaps_after (base + size) (regions (memory mb)) base Hafter) as Hg.
  destruct (add_range_ok dbl (fun _ mb1 => mb1 = mb) Memory base size MAX_NUMNODES 0 mb)
    as (ret & mb1 & mb' & E & _ & -> & Hres); [done|done|lia|lia| |].
  { apply can_grow_room; [done|done|]. rewrite En. cbn. lia. }
  rewrite En in Hres. destruct Hres as [(-> & Hadd & _)|(_ & _ & Hno & _)]; [|cbn in Hno; lia].
  exists mb'. csplit; [done|done|]. destruct Hadd as (_ & _ & _ & _ & Hc & _). cbn in Hc. lia.
Qed.

Lemma good_disjoint rs r s a : good rs -> r ∈ rs -> s ∈ rs -> rcovers r a -> rcovers s a -> r = s.
Proof.
  unfold rcovers. induction rs as [|x rs IH]; [by intros _ ?%not_elem_of_nil|].
  intros (_ & Hb & Hg)%good_cons. rewrite Forall_forall in Hb. unfold before in Hb.
  intros [->|Hr]%elem_of_cons [->|Hs]%elem_of_cons ? ?; [done| | |by apply IH].
  - specialize (Hb s Hs). lia.
  - specialize (Hb r Hr). lia.
Qed.

(** A run of addresses with the same flags lies in one region of a merged
    list. *)
Lemma merged_next rs r s :
  good rs -> merged rs -> r ∈ rs -> s ∈ rs -> r_base s = r_base r + r_size r -> r_flags s <> r_flags r.
Proof.
  induction rs as [|x rs IH]; [by intros _ _ ?%not_elem_of_nil|].
  intros Hg Hm Hr Hs E. pose proof Hg as (Hx & Hb & Hg')%good_cons. destruct Hx as (X1 & X2 & X3).
  assert (Hm' : merged rs) by (destruct rs; [done|apply Hm]).
  rewrite Forall_forall in Hb. unfold before in Hb.
  pose proof (good_ok _ _ Hg Hr) as (R1 & R2 & R3). pose proof (good_ok _ _ Hg Hs) as (S1 & S2 & S3).
  apply elem_of_cons in Hr as [->|Hr]; apply elem_of_cons in Hs as [->|Hs].
  - lia.
  - destruct rs as [|y rs]; [by apply not_elem_of_nil in Hs|]. destruct Hm as [Hm _].
    apply elem_of_cons in Hs as [->|Hs]; [intros Ef; by apply Hm|].
    apply good_cons in Hg' as ((Y1 & Y2 & Y3) & Hy & _). rewrite Forall_forall in Hy. specialize (Hy s Hs).
    specialize (Hb y ltac:(left)). unfold before in Hy. lia.
  - specialize (Hb r Hr). lia.
  - by apply IH.
Qed.

Lemma merged_run rs s e f :
  good rs -> merged rs -> s < e -> (forall x, s <= x < e -> lookup rs x = Some f) ->
  exists r, r ∈ rs /\ r_flags r = f /\ r_base r <= s /\ e <= r_base r + r_size r.
Proof.
  intros Hg Hm Hlt Hall.
  destruct (lookup_Some _ _ _ (Hall s ltac:(lia))) as (r & Hr & Hc & Hf). unfold rcovers in Hc.
  exists r. csplit; [done|done|lia|]. destruct (Z.le_gt_cases e (r_base r + r_size r)) as [|Hgt]; [done|exfalso].
  destruct (lookup_Some _ _ _ (Hall (r_base r + r_size r) ltac:(lia))) as (r' & Hr' & Hc' & Hf').
  unfold rcovers in Hc'. destruct (decide (r_base r' = r_base r + r_size r)) as [E|Hne].
  - by apply (merged_next rs r r'); [| | | | |congruence].
  - pose proof (good_ok _ _ Hg Hr) as (_ & ? & _).
    assert (r = r') as <- by (apply (good_disjoint rs r r' (r_base r + r_size r - 1)); done || unfold rcovers; lia).
    lia.
Qed.

(** ** The loop over the entries *)

(** The entries that become memory. *)
Definition usable (e : e820_entry) : Prop :=
  (type e = E820_TYPE_RAM \/ type e = E820_TYPE_RESERVED_KERN) /\ addr e + size e < 2 ^ 32.

#[export] Instance usable_dec e : Decision (usable e).
Proof. unfold usable. apply _. Defined.

Definition usable_at (es : list e820_entry) (a : Z) : Prop := exists e, e ∈ es /\ usable e /\ covers e a.

(** The memory list after the entries [es]: exactly their addresses, without
    flags, in a merged list no longer than there are entries. *)
Record registered (es : list e820_entry) (mb0 mb : memblock) : Prop := {
  rg_wf : all_wf mb;
  rg_rest : reserved mb = reserved mb0;
  rg_merged : merged (regions (memory mb));
  rg_lookup a : lookup (regions (memory mb)) a = Some 0 <-> usable_at es a;
  rg_flags a f : lookup (regions (memory mb)) a = Some f -> f = 0;
  rg_cnt : cnt (memory mb) <= Z.of_nat (length es) + 1;
  rg_size : max_regions (memory mb) = max_regions (memory mb0);
}.

Lemma usable_at_snoc es e a : usable_at (es ++ [e]) a <-> usable_at es a \/ (usable e /\ covers e a).
Proof.
  unfold usable_at. split.
  - intros (x & [Hx| ->%list_elem_of_singleton]%elem_of_app & H); eauto.
  - intros [(x & Hx & H)|H]; [exists x|exists e]; (split; [|done]); apply elem_of_app; [by left|right; left].
Qed.

Lemma registered_skip es e mb0 mb : ~ usable e -> registered es mb0 mb -> registered (es ++ [e]) mb0 mb.
Proof.
  intros Hno [H1 H2 H3 H4 H5 H6 H7]. split; try done; [|rewrite length_snoc; lia].
  intros a. rewrite usable_at_snoc, H4. tauto.
Qed.

Lemma registered_bound es mb0 mb b :
  registered es mb0 mb -> 0 <= b -> (forall e, e ∈ es -> usable e -> addr e + size e <= b) ->
  forall r, r ∈ regions (memory mb) -> r_base r + r_size r <= b.
Proof.
  intros HR Hb Hord r Hr. destruct (wf_regions _ (aw_memory _ (rg_wf _ _ _ HR))) as [E|[_ Hg]].
  - rewrite E in Hr. apply list_elem_of_singleton in Hr as ->. cbn. lia.
  - pose proof (good_ok _ _ Hg Hr) as (_ & Hpos & _).
    pose proof (lookup_elem _ r (r_base r + r_size r - 1) Hg Hr ltac:(unfold rcovers; lia)) as Hl.
    pose proof (rg_flags _ _ _ HR _ _ Hl) as E0. rewrite E0 in Hl. apply (rg_lookup _ _ _ HR) in Hl as (e & He & Hu & Hc).
    specialize (Hord e He Hu). unfold covers in Hc. lia.
Qed.

Lemma registered_add es e mb0 mb mb' :
  registered es mb0 mb -> usable e -> added Memory (addr e) (addr e + size e) 0 mb mb' ->
  cnt (memory mb') <= cnt (memory mb) + 1 -> registered (es ++ [e]) mb0 mb'.
Proof.
  intros [H1 H2 H3 H4 H5 H6 H7] Hu (Hwf' & _ & Hm & (t & ->) & _ & Hmax & _ & Hl) Hc.
  cbn [get_type set_type memory] in *.
  assert (Hsome : forall a f, lookup (regions t) a = Some f <->
    lookup (regions (memory mb)) a = Some f \/ (lookup (regions (memory mb)) a = None /\ f = 0 /\ covers e a)).
  { intros a f. rewrite Hl. unfold union_range, covers. destruct (lookup _ a); [naive_solver|].
    destruct (decide _); naive_solver. }
  split; cbn [memory set_type]; [done|done|by apply Hm| | |rewrite length_snoc; lia|congruence].
  - intros a. rewrite Hsome, usable_at_snoc, H4. split; [tauto|]. intros [H|[_ Hcov]]; [by left|].
    destruct (lookup (regions (memory mb)) a) as [f|] eqn:E; [|by right]. pose proof (H5 a f E) as ->.
    left. by apply H4.
  - intros a f [H|(_ & -> & _)]%Hsome; [by eapply H5|done].
Qed.

Lemma setup_entry_ok dbl es e mb0 mb :
  registered es mb0 mb -> entry_wf e -> (forall e', e' ∈ es -> addr e' + size e' <= addr e) ->
  type e <> E820_TYPE_SOFT_RESERVED -> Z.of_nat (length es) + 2 <= max_regions (memory mb0) ->
  exists mb', memblock_setup_entry dbl e mb = Ok mb' /\ registered (es ++ [e]) mb0 mb'.
Proof.
  intros HR (W1 & W2 & W3) Hord Hsoft Hroom. unfold memblock_setup_entry. rewrite u64_small by lia.
  destruct (decide (addr e + size e < 2 ^ 32)) as [Hlow|Hhigh].
  2:{ exists mb. assert (u32 (addr e + size e) <> addr e + size e) by (pose proof (u32_range (addr e + size e)); lia).
      rewrite (proj2 (Z.eqb_neq _ _)) by done. split; [done|]. apply registered_skip; [|done].
      unfold usable. lia. }
  rewrite (u32_small (addr e + size e)), Z.eqb_refl by lia. cbn [negb].
  rewrite (proj2 (Z.eqb_neq _ _) Hsoft), bind_Ok. cbn beta.
  destruct (decide (usable e)) as [Hu|Hu].
  - replace (negb _ && negb _) with false by (destruct Hu as [[-> | ->] _]; reflexivity).
    rewrite !u32_small by lia.
    destruct (add_at_end dbl (addr e) (size e) mb) as (mb' & -> & Hadd & Hc).
    + apply (rg_wf _ _ _ HR).
    + done.
    + done.
    + unfold PHYS_ADDR_MAX. lia.
    + apply (registered_bound es mb0); [done|done|]. intros e' He' _. by apply Hord.
    + pose proof (rg_cnt _ _ _ HR). rewrite (rg_size _ _ _ HR). lia.
    + rewrite bind_Ok. exists mb'. split; [done|]. by eapply registered_add.
  - replace (negb _ && negb _) with true.
    + exists mb. split; [done|]. by apply registered_skip.
    + symmetry. unfold usable in Hu. apply andb_true_iff. rewrite !negb_true_iff, !Z.eqb_neq. tauto.
Qed.

Lemma setup_loop_ok dbl es' es mb0 mb :
  registered es mb0 mb -> Forall entry_wf es' -> in_order (es ++ es') ->
  Forall (fun e => type e <> E820_TYPE_SOFT_RESERVED) es' ->
  Z.of_nat (length (es ++ es')) + 1 <= max_regions (memory mb0) ->
  exists mb', memblock_setup_loop dbl es' mb = Ok mb' /\ registered (es ++ es') mb0 mb'.
Proof.
  revert es mb. induction es' as [|e es' IH]; intros es mb HR Hwf Hord Hsoft Hroom; cbn [memblock_setup_loop].
  { exists mb. by rewrite app_nil_r. }
  apply Forall_cons in Hwf as [Hwe Hwf]. apply Forall_cons in Hsoft as [Hse Hsoft].
  rewrite length_app in Hroom. cbn [length] in Hroom.
  destruct (setup_entry_ok dbl es e mb0 mb) as (mb1 & -> & HR1); [done|done| |done|lia|].
  { intros e' He'. apply sorted_app in Hord as (_ & _ & Hord). apply (Hord e' e); [done|left]. }
  rewrite bind_Ok. rewrite (app_cons_snoc es e es') in *. apply IH; [done|done|done|done|].
  rewrite length_app, length_snoc. lia.
Qed.

(** An address is memory in the end when its whole page is usable. *)
Definition page_usable (es : list e820_entry) (a : Z) : Prop :=
  forall x, a - a mod PAGE_SIZE <= x < a - a mod PAGE_SIZE + PAGE_SIZE -> usable_at es x.

Lemma memblock_setup_ok dbl t mb :
  all_wf mb -> regions (memory mb) = nothing -> nr_entries t + 1 <= max_regions (memory mb) ->
  Forall entry_wf (entries t) -> in_order (entries t) ->
  Forall (fun e => type e <> E820_TYPE_SOFT_RESERVED) (entries t) ->
  (forall e, e ∈ entries t -> usable e -> addr e + size e <= 2 ^ 32 - PAGE_SIZE) ->
  exists mb', e820__memblock_setup dbl t mb = Ok mb' /\ all_wf mb' /\ reserved mb' = reserved mb /\
    forall a, lookup (regions (memory mb')) a = Some 0 <-> page_usable (entries t) a.
Proof.
  intros Hwf Hnone Hroom Hes Hord Hsoft Htop. unfold e820__memblock_setup. set (mb0 := memblock_allow_resize mb).
  assert (HR0 : registered [] mb0 mb0).
  { split; cbn; try done; try by rewrite Hnone.
    - destruct Hwf. by split.
    - intros a. rewrite Hnone, lookup_nothing. split; [done|]. by intros (e & ?%not_elem_of_nil & _).
    - intros a f. by rewrite Hnone, lookup_nothing.
    - unfold cnt. rewrite Hnone. done. }
  destruct (setup_loop_ok dbl (entries t) [] mb0 mb0) as (mb1 & -> & HR); [done..|].
  rewrite bind_Ok. pose proof (rg_wf _ _ _ HR) as Hwf1. cbn [app] in HR.
  assert (Hb : forall r, r ∈ regions (memory mb1) -> r_base r + r_size r <= 2 ^ 32 - PAGE_SIZE).
  { by apply (registered_bound (entries t) mb0). }
  assert (Hpow : is_pow2 PAGE_SIZE 12) by (split; [lia|done]).
  assert (Hlow : Forall (low_enough PAGE_SIZE) (regions (memory mb1))).
  { apply Forall_forall. intros r Hr. specialize (Hb r Hr). unfold low_enough.
    destruct (wf_regions _ (aw_memory _ Hwf1)) as [E|[_ Hg]].
    - rewrite E in Hr. apply list_elem_of_singleton in Hr as ->. unfold PAGE_SIZE. cbn. lia.
    - pose proof (good_ok _ _ Hg Hr) as (_ & Hpos & _). lia. }
  destruct (trim_memory_ok PAGE_SIZE 12 mb1) as (mb' & -> & Hwf' & Hres & Er); [done..|].
  exists mb'. csplit; [done|done|by rewrite Hres, (rg_rest _ _ _ HR)|]. intros a. rewrite Er, lookup_or_nothing.
  pose proof (Z.mod_pos_bound a PAGE_SIZE ltac:(done)) as Hm.
  assert (Hpage : forall r, holds_block PAGE_SIZE r (a - a mod PAGE_SIZE) <->
    r_base r <= a - a mod PAGE_SIZE /\ a - a mod PAGE_SIZE + PAGE_SIZE <= r_base r + r_size r).
  { intros r. unfold holds_block. split; [tauto|]. split; [|done].
    exists (a / PAGE_SIZE). pose proof (Z.div_mod a PAGE_SIZE). lia. }
  destruct (wf_regions _ (aw_memory _ Hwf1)) as [En|[_ Hg]].
  - rewrite En, (trims_nothing PAGE_SIZE 12) by done. split; [done|]. intros Hall. exfalso.
    specialize (Hall a ltac:(lia)). apply (rg_lookup _ _ _ HR) in Hall. by rewrite En, lookup_nothing in Hall.
  - rewrite (trims_lookup PAGE_SIZE 12) by done. split.
    + intros (r & Hr & Hf & Hh%Hpage) x Hx. apply (rg_lookup _ _ _ HR). rewrite <- Hf.
      apply lookup_elem; [done..|]. unfold rcovers. lia.
    + intros Hall. destruct (merged_run _ (a - a mod PAGE_SIZE) (a - a mod PAGE_SIZE + PAGE_SIZE) 0 Hg
        (rg_merged _ _ _ HR)) as (r & Hr & Hf & H1 & H2); [lia| |].
      * intros x Hx. apply (rg_lookup _ _ _ HR). by apply Hall.
      * exists r. csplit; [done..|]. by apply Hpage.
Qed.

(** ** From the firmware's table *)

(** The table the kernel works with: the firmware's, or two entries made from
    the size of memory when that one is too short or has an entry that wraps. *)
Definition wraps (e : e820_entry) : bool := 2 ^ 64 <? addr e + size e.

Definition source (bp : boot_params) : list e820_entry :=
  if (Z.of_nat (length (bp_e820 bp)) <? 2) || existsb wraps (bp_e820 bp)
  then [E820Entry 0 LOWMEMSIZE E820_TYPE_RAM;
        E820Entry HIGH_MEMORY (Z.max (alt_mem_k bp) (ext_mem_k bp) * 1024) E820_TYPE_RAM]
  else bp_e820 bp.

(** 64-bit fields; an entry that ends at exactly [2^64] is neither refused nor
    usable. *)
Definition firmware_entry (e : e820_entry) : Prop :=
  0 <= addr e < 2 ^ 64 /\ 0 <= size e < 2 ^ 64 /\ addr e + size e <> 2 ^ 64.

Lemma wraps_check e :
  firmware_entry e -> (addr e >? u64 (addr e + size e - 1)) && negb (size e =? 0) = wraps e.
Proof.
  intros (H1 & H2 & H3). unfold wraps. destruct (Z.eqb_spec (size e) 0) as [E|E].
  { rewrite andb_false_r, E. symmetry. apply Z.ltb_ge. lia. }
  rewrite andb_true_r. destruct (decide (addr e + size e < 2 ^ 64)).
  - rewrite u64_small by lia. lia.
  - replace (u64 (addr e + size e - 1)) with (addr e + size e - 1 - 2 ^ 64); [lia|].
    unfold u64. rewrite <- (Z_mod_plus_full _ (-1)), Z.mod_small; lia.
Qed.

Lemma append_ok es t :
  Forall firmware_entry es -> nr_entries t + Z.of_nat (length es) <= E820_MAX_ENTRIES ->
  if existsb wraps es then exists t', __append_e820_table t es = (-1, t')
  else __append_e820_table t es = (0, E820Table (entries t ++ es)).
Proof.
  revert t. induction es as [|e es IH]; intros t Hf Hn; cbn [existsb __append_e820_table length] in *.
  { rewrite app_nil_r. by destruct t. }
  apply Forall_cons in Hf as [He Hf]. rewrite wraps_check by done. destruct (wraps e); cbn [orb]; [by eauto|].
  unfold e820__range_add, __e820__range_add. rewrite Z.geb_leb, (proj2 (Z.leb_gt _ _)) by lia.
  replace (E820Entry (addr e) (size e) (type e)) with e by (by destruct e).
  specialize (IH (E820Table (entries t ++ [e])) Hf). unfold nr_entries in *. cbn [entries] in IH.
  rewrite length_snoc in IH. specialize (IH ltac:(lia)). rewrite <- app_assoc in IH. exact IH.
Qed.

Definition boot_params_ok (bp : boot_params) : Prop :=
  Forall firmware_entry (bp_e820 bp) /\ Z.of_nat (length (bp_e820 bp)) <= 128 /\
  0 <= alt_mem_k bp < 2 ^ 32 /\ 0 <= ext_mem_k bp < 2 ^ 16.

(** The table that is handed to [e820__update_table]. *)
Lemma memory_setup_source bp :
  boot_params_ok bp -> exists who,
    e820__memory_setup_default bp (E820Table []) =
      ('(_, t) ← e820__update_table (E820Table (source bp)); Ok (who, t)) /\
    table_wf (E820Table (source bp)) /\ 2 <= nr_entries (E820Table (source bp)).
Proof.
  intros (Hf & Hlen & Ha & He). unfold e820__memory_setup_default, append_e820_table, source. destruct bp as [es alt ext]. unfold boot_e820_entry in *. cbn [bp_e820 alt_mem_k ext_mem_k] in *.
  pose proof (append_ok es (E820Table []) Hf) as Happ. unfold nr_entries in *. cbn [entries length] in *.
  specialize (Happ ltac:(unfold E820_MAX_ENTRIES; lia)).
  assert (Hmem : u64 (Z.shiftl (if alt <? ext then ext else alt) 10)
                 = Z.max (alt) (ext) * 1024).
  { destruct (Z.ltb_spec (alt) (ext)); rewrite Z.shiftl_mul_pow2, u64_small; lia. }
  assert (Hwf2 : table_wf (E820Table [E820Entry 0 LOWMEMSIZE E820_TYPE_RAM;
    E820Entry HIGH_MEMORY (Z.max (alt) (ext) * 1024) E820_TYPE_RAM])).
  { split; [|done]. unfold entry_wf, LOWMEMSIZE, HIGH_MEMORY.
    repeat apply Forall_cons; (split; [cbn; lia|]). apply Forall_cons. split; [cbn; lia|done]. }
  destruct (Z.ltb_spec (Z.of_nat (length es)) 2) as [Hlt|Hge]; [|destruct (existsb wraps _) eqn:Hw];
    cbn [orb].
  - destruct (Z.ltb_spec (alt) (ext)); eexists; rewrite <- Hmem in *; by csplit.
  - destruct Happ as [t' ->].
    destruct (Z.ltb_spec (alt) (ext)); eexists; rewrite <- Hmem in *; by csplit.
  - rewrite Happ. eexists. csplit; [done| |done]. split; [|unfold nr_entries, E820_MAX_ENTRIES; cbn; lia].
    apply Forall_forall. intros e He'. rewrite Forall_forall in Hf. destruct (Hf e He') as (F1 & F2 & F3).
    assert (Hnw : wraps e = false).
    { apply not_true_is_false. intros Hwt. apply not_true_iff_false in Hw. apply Hw, existsb_exists.
      exists e. by rewrite <- list_elem_of_In. }
    unfold wraps in Hnw. unfold entry_wf. lia.
Qed.

(** In a table in order an address has the type of the entry it is in. *)
Lemma in_order_type F e a :
  in_order F -> e ∈ F -> 0 < type e -> covers e a -> type_at F a = type e.
Proof.
  intros Hord He Ht Hc. apply (is_max_unique (fun t => typed F t a) (fun t => t = type e)).
  - intros t. unfold typed. rewrite Exists_exists. split.
    + intros (f & Hf & <- & Hcf). apply list_elem_of_split in He as (l & k & ->).
      apply sorted_app in Hord as (_ & Hk & Hl). apply StronglySorted_inv in Hk as [_ Hk].
      rewrite Forall_forall in Hk. unfold covers in *. apply elem_of_app in Hf as [Hf|[->|Hf]%elem_of_cons]; [|done|].
      * specialize (Hl f e Hf ltac:(left)). cbn in Hl. lia.
      * specialize (Hk f Hf). cbn in Hk. lia.
    + intros ->. by exists e.
  - apply type_at_max.
  - split; [lia|]. split; [intros t ->; lia|by right].
Qed.

(** The entries of the new table come from the old one. *)
Lemma tiles_source es L F e :
  Forall entry_wf es -> tiles es L F -> e ∈ F ->
  entry_wf e /\ exists f, f ∈ es /\ type f = type e.
Proof.
  intros Hwf HT He. pose proof (tl_entry _ _ _ HT e He) as (E1 & E2 & E3 & E4).
  assert (Hlast : type_at es (addr e + size e - 1) = type e).
  { rewrite <- (tl_type _ _ _ HT) by lia. apply in_order_type; [apply (tl_order _ _ _ HT)|done|done|].
    unfold covers. lia. }
  destruct (type_at_max es (addr e + size e - 1)) as (_ & _ & [H0|Hin]); [lia|].
  rewrite Hlast in Hin. apply Exists_exists in Hin as (f & Hf & Hty & Hc).
  rewrite Forall_forall in Hwf. destruct (Hwf f Hf) as (? & ? & ?). unfold covers in Hc.
  split; [unfold entry_wf; lia|eauto].
Qed.

(** C14. From the firmware's table to memblock, for at most 128 entries of the
    firmware none of which ends at exactly [2^64], and an empty memory list with
    its initial array of 128 regions. The kernel's table is in order, and unless
    all of its 131 entries are used it gives every address the largest type the
    firmware's entries give it, or those of the fallback made from the reported
    sizes, when the firmware's table is too short or an entry wraps. When the
    table has fewer than 128 entries, the firmware marks none as soft-reserved,
    and no usable entry below 4 GB reaches into the last page below 4 GB, where
    rounding would wrap, memblock afterwards holds as memory exactly the
    addresses whose whole page lies in usable entries that end below 4 GB, and
    its reserved list is as it was. *)
Theorem boot_memory_spec dbl bp mb :
  boot_params_ok bp -> all_wf mb -> regions (memory mb) = nothing ->
  max_regions (memory mb) = INIT_MEMBLOCK_REGIONS ->
  exists who t, e820__memory_setup_default bp (E820Table []) = Ok (who, t) /\ in_order (entries t) /\
    (nr_entries t < E820_MAX_ENTRIES -> forall a, type_at (entries t) a = type_at (source bp) a) /\
    (nr_entries t < INIT_MEMBLOCK_REGIONS ->
     Forall (fun e => type e <> E820_TYPE_SOFT_RESERVED) (source bp) ->
     (forall e, e ∈ entries t -> usable e -> addr e + size e <= 2 ^ 32 - PAGE_SIZE) ->
     exists mb', e820__memblock_setup dbl t mb = Ok mb' /\ all_wf mb' /\ reserved mb' = reserved mb /\
       forall a, lookup (regions (memory mb')) a = Some 0 <-> page_usable (entries t) a).
Proof.
  intros Hbp Hwf Hnone Hmax. destruct (memory_setup_source bp Hbp) as (who & -> & [Hes Hn] & H2).
  destruct (update_table_ok (E820Table (source bp))) as (F & L & -> & HT & Hle & Hall); [done..|].
  rewrite bind_Ok. cbn [entries] in *. exists who, (E820Table F). split; [done|]. split; [apply (tl_order _ _ _ HT)|]. split; [done|].
  intros Hnr Hsoft Htop. unfold nr_entries, INIT_MEMBLOCK_REGIONS in *. cbn [entries] in *.
  assert (Hsrc : forall e, e ∈ F -> entry_wf e /\ exists f, f ∈ source bp /\ type f = type e)
    by (intros e He; by eapply tiles_source).
  apply memblock_setup_ok; [done|done| | |apply (tl_order _ _ _ HT)| |done].
  - unfold nr_entries. cbn [entries]. lia.
  - apply Forall_forall. intros e He. apply Hsrc, He.
  - apply Forall_forall. intros e (_ & f & Hf & <-)%Hsrc. rewrite Forall_forall in Hsoft. by apply Hsoft.
Qed.

(** A PC with 128 MB, as its BIOS describes it. *)
Definition pc_params : boot_params :=
  BootParams
    [E820Entry 0 0x9fc00 1; E820Entry 0x9fc00 0x400 2; E820Entry 0xf0000 0x10000 2;
     E820Entry 0x100000 0x7ee0000 1; E820Entry 0x7fe0000 0x20000 2; E820Entry 0xfffc0000 0x40000 2] 0 0.

Lemma boot_memory_spec_witness :
  exists who t mb', e820__memory_setup_default pc_params (E820Table []) = Ok (who, t) /\
    e820__memblock_setup (double_array_n false (fun _ => 0) 1) t init_memblock = Ok mb' /\
    regions (memory mb') = [Region 0 0x9f000 0; Region 0x100000 0x7ee0000 0].
Proof.
  destruct (boot_memory_spec (double_array_n false (fun _ => 0) 1) pc_params init_memblock)
    as (who & t & E & _ & _ & H).
  - split; [|split; [vm_compute; discriminate|split; split; vm_compute; try discriminate; reflexivity]].
    repeat constructor; vm_compute; discriminate.
  - split; [split; [by left|vm_compute; discriminate|split; vm_compute; discriminate]..|split; vm_compute; discriminate].
  - reflexivity.
  - reflexivity.
  - pose proof E as E0. vm_compute in E0. injection E0 as <- <-. destruct H as (mb' & E' & _).
    + vm_compute. reflexivity.
    + repeat constructor; vm_compute; discriminate.
    + clear E. apply (proj1 (Forall_forall (fun e => usable e -> addr e + size e <= 2 ^ 32 - PAGE_SIZE) _)). cbn [entries].
      repeat (apply Forall_cons_2; [intros [Hu _]|]); [..|constructor].
      all: (vm_compute; discriminate) || (destruct Hu as [Hu|Hu]; discriminate Hu).
    + eexists _, _, mb'. split; [exact E|]. split; [exact E'|]. vm_compute in E'. injection E' as <-. reflexivity.
Defined.
