(* ===== verification/Range.v ===== *)
(** * kernel/range.c, and the mapped ranges of arch/x86/mm/init.c

    An array of ranges of page frame numbers, merged as ranges are added and
    then compacted and sorted; the x86 code records in one which memory has a
    direct mapping. The array has a fixed length, and an entry whose end is 0
    is free. An index outside the array is a fault. *)

From S2P Require Import Prelude Sort E820.

Record range := Range { range_start : Z; range_end : Z }.

#[export] Instance range_eq_dec : EqDecision range.
Proof. solve_decision. Defined.

Definition free_entry : range := Range 0 0.
Definition sizeof_range : Z := 16.

Definition entry_at (rs : list range) (i : nat) : outcome range :=
  match rs !! i with
  | Some r => Ok r
  | None => Bug
  end.

Definition add_range (rs : list range) (az nr_range : nat) (start end_ : Z) : outcome (list range * nat) :=
  if start >=? end_ then Ok (rs, nr_range)
  else if (az <=? nr_range)%nat then Ok (rs, nr_range)
  else
    _ ← entry_at rs nr_range;
    Ok (<[nr_range := Range start end_]> rs, S nr_range).

(** The [memmove] and the clearing of the last entry. *)
Definition close_gap (rs : list range) (nr_range i : nat) : list range :=
  take i rs ++ drop (S i) (take nr_range rs) ++ [free_entry] ++ drop nr_range rs.

(** Each turn passes an entry or removes one. *)
Fixpoint absorb_loop (fuel : nat) (rs : list range) (nr_range i : nat) (start end_ : Z) :
    outcome (list range * nat * Z * Z) :=
  match fuel with
  | O => NoFuel
  | S fuel =>
      if (nr_range <=? i)%nat then Ok (rs, nr_range, start, end_)
      else
        r ← entry_at rs i;
        if range_end r =? 0 then absorb_loop fuel rs nr_range (S i) start end_
        else
          let common_start := Z.max (range_start r) start in
          let common_end := Z.min (range_end r) end_ in
          if common_start >? common_end then absorb_loop fuel rs nr_range (S i) start end_
          else
            let start := Z.min (range_start r) start in
            let end_ := Z.max (range_end r) end_ in
            absorb_loop fuel (close_gap rs nr_range i) (nr_range - 1) i start end_
  end.

Definition add_range_with_merge (rs : list range) (az nr_range : nat) (start end_ : Z) : outcome (list range * nat) :=
  if start >=? end_ then Ok (rs, nr_range)
  else
    '(rs, nr_range, start, end_) ← absorb_loop (S nr_range) rs nr_range 0 start end_;
    add_range rs az nr_range start end_.

Definition cmp_range (r1 r2 : range) : Z :=
  if range_start r1 <? range_start r2 then -1
  else if range_start r1 >? range_start r2 then 1
  else 0.

(** The inner loop: the last used entry up to [j] and above [i]; it counts
    down, so that it is structural in [j]. *)
Fixpoint last_used (rs : list range) (i j : nat) : outcome (option nat) :=
  if (j <=? i)%nat then Ok None
  else
    r ← entry_at rs j;
    if negb (range_end r =? 0) then Ok (Some j)
    else match j with
         | O => Ok None
         | S j => last_used rs i j
         end.

Fixpoint clean_loop (fuel : nat) (rs : list range) (i k : nat) : outcome (list range) :=
  match fuel with
  | O => NoFuel
  | S fuel =>
      if (k <=? i)%nat then Ok rs
      else
        r ← entry_at rs i;
        if negb (range_end r =? 0) then clean_loop fuel rs (S i) k
        else
          j ← last_used rs i k;
          match j with
          | None => Ok rs
          | Some k =>
              r ← entry_at rs k;
              clean_loop fuel (<[k := free_entry]> (<[i := r]> rs)) (S i) (k - 1)
          end
  end.

(** The number of entries before the first free one. *)
Fixpoint count_used (rs : list range) : nat :=
  match rs with
  | [] => O
  | r :: rs => if range_end r =? 0 then O else S (count_used rs)
  end.

Definition clean_sort_range (rs : list range) (az : nat) : outcome (list range * nat) :=
  rs ← clean_loop (S az) rs 0 (az - 1);
  let nr_range := count_used (take az rs) in
  sorted ← sort cmp_range (take nr_range rs) (Z.of_nat nr_range) sizeof_range;
  Ok (sorted ++ drop nr_range rs, nr_range).

(** ** arch/x86/mm/init.c *)

Record mappings := Mappings {
  pfn_mapped : list range;
  nr_pfn_mapped : nat;
  max_pfn_mapped : Z;
  max_low_pfn_mapped : Z
}.

Definition max_entries : nat := Z.to_nat E820_MAX_ENTRIES.

Definition no_mappings : mappings := Mappings (replicate max_entries free_entry) 0 0 0.

Definition add_pfn_range_mapped (start_pfn end_pfn : Z) (m : mappings) : outcome mappings :=
  '(rs, nr) ← add_range_with_merge (pfn_mapped m) max_entries (nr_pfn_mapped m) start_pfn end_pfn;
  '(rs, nr) ← clean_sort_range rs max_entries;
  let low_end := 2 ^ (32 - 12) in
  Ok (Mappings rs nr (Z.max (max_pfn_mapped m) end_pfn)
        (if start_pfn <? low_end then Z.max (max_low_pfn_mapped m) (Z.min end_pfn low_end) else max_low_pfn_mapped m)).

Definition pfn_range_is_mapped (start_pfn end_pfn : Z) (m : mappings) : bool :=
  existsb (fun r => (start_pfn >=? range_start r) && (end_pfn <=? range_end r)) (take (nr_pfn_mapped m) (pfn_mapped m)).

(** ** Ranges that do not touch *)

Definition used (r : range) : Prop := 0 <= range_start r < range_end r.
Definition apart (x y : range) : Prop := range_end x < range_start y \/ range_end y < range_start x.
Definition within (r : range) (p : Z) : Prop := range_start r <= p < range_end r.
Definition covered (l : list range) (p : Z) : Prop := Exists (fun r => within r p) l.

Definition in_use (r : range) : Prop := range_end r <> 0.
#[export] Instance in_use_dec r : Decision (in_use r).
Proof. unfold in_use. apply _. Defined.

(** Ranges of which no two overlap or touch. *)
Record separate (l : list range) : Prop := {
  sep_used : Forall used l;
  sep_apart : StronglySorted apart l
}.

Lemma apart_sym x y : apart x y -> apart y x.
Proof. unfold apart. lia. Qed.

(** Separation does not depend on the order. *)
#[export] Instance separate_proper : Proper ((≡ₚ) ==> iff) separate.
Proof.
  assert (H : forall l l', l ≡ₚ l' -> StronglySorted apart l -> StronglySorted apart l').
  { induction 1 as [|x l l' Hp IH|x y l|l l' l'' _ IH _ IH']; intros Hs; [done| | |auto].
    - apply StronglySorted_inv in Hs as [Hs Hx]. constructor; [auto|by rewrite <- Hp].
    - apply StronglySorted_inv in Hs as [[Hs Hx]%StronglySorted_inv [Hyx Hy]%Forall_cons].
      constructor; [by constructor|]. constructor; [by apply apart_sym|done]. }
  intros l l' Hp. split; intros [Hu Ha].
  - split; [by rewrite <- Hp|by apply (H l)].
  - split; [by rewrite Hp|by apply (H l')].
Qed.

Lemma separate_cons r l : separate (r :: l) <-> used r /\ Forall (apart r) l /\ separate l.
Proof.
  split.
  - intros [[Hr Hu]%Forall_cons [Ha Hx]%StronglySorted_inv]. by split_and!.
  - intros (Hr & Hx & [Hu Ha]). by split; constructor.
Qed.

Lemma separate_app l1 r l2 : separate (l1 ++ r :: l2) <-> used r /\ Forall (apart r) (l1 ++ l2) /\ separate (l1 ++ l2).
Proof. by rewrite <- Permutation_middle, separate_cons. Qed.

Lemma covered_cons r l p : covered (r :: l) p <-> within r p \/ covered l p.
Proof. apply Exists_cons. Qed.

#[export] Instance covered_proper : Proper ((≡ₚ) ==> eq ==> iff) covered.
Proof. intros l l' Hp p p' <-. unfold covered. by rewrite Hp. Qed.

Lemma covered_middle l1 r l2 p : covered (l1 ++ r :: l2) p <-> within r p \/ covered (l1 ++ l2) p.
Proof. by rewrite <- Permutation_middle, covered_cons. Qed.

(** ** Adding a range *)

Lemma entry_at_middle (l1 : list range) r l2 : entry_at (l1 ++ r :: l2) (length l1) = Ok r.
Proof. unfold entry_at. by rewrite list_lookup_middle. Qed.

Lemma insert_middle (l1 : list range) r l2 x : <[length l1 := x]> (l1 ++ r :: l2) = l1 ++ x :: l2.
Proof. replace (length l1) with (length l1 + 0)%nat by lia. by rewrite insert_app_r. Qed.

Lemma close_gap_ok (l1 : list range) r l2 t :
  close_gap ((l1 ++ r :: l2) ++ t) (length (l1 ++ r :: l2)) (length l1) = (l1 ++ l2) ++ free_entry :: t.
Proof.
  unfold close_gap. rewrite take_app_length, drop_app_length.
  rewrite <- (app_assoc l1), take_app_length, <- (app_assoc l1). f_equal.
  replace (S (length l1)) with (length l1 + 1)%nat by lia. rewrite <- drop_drop, drop_app_length. done.
Qed.

(** The ranges before position [length l1] do not touch the new one. In the
    end none does, and together they cover what was covered before. *)
Lemma absorb_loop_ok l2 l1 t fuel s e :
  separate (l1 ++ l2) -> used (Range s e) -> Forall (apart (Range s e)) l1 -> (length l2 < fuel)%nat ->
  exists l' n s' e', absorb_loop fuel ((l1 ++ l2) ++ t) (length (l1 ++ l2)) (length l1) s e =
      Ok (l' ++ replicate n free_entry ++ t, length l', s', e') /\
    (length l' + n = length (l1 ++ l2))%nat /\ separate (Range s' e' :: l') /\
    forall p, covered (Range s' e' :: l') p <-> covered (Range s e :: l1 ++ l2) p.
Proof.
  revert l1 t fuel s e. induction l2 as [|r l2 IH]; intros l1 t [|fuel] s e Hsep Hu Ha Hf; try (cbn in Hf; lia).
  - exists l1, 0%nat, s, e. rewrite app_nil_r in *. cbn [absorb_loop]. rewrite (proj2 (Nat.leb_le _ _)) by lia.
    split_and!; [done|lia|by apply separate_cons|done].
  - cbn [absorb_loop]. rewrite (proj2 (Nat.leb_gt _ _)) by (rewrite length_app; cbn; lia).
    rewrite <- (app_assoc l1), <- app_comm_cons, entry_at_middle, bind_Ok, app_comm_cons, app_assoc.
    pose proof Hsep as (Hr & Hra & Hsep')%separate_app. unfold used in Hu, Hr. cbn in Hu.
    rewrite (proj2 (Z.eqb_neq _ _)) by lia. rewrite Z.gtb_ltb.
    destruct (Z.ltb_spec (Z.min (range_end r) e) (Z.max (range_start r) s)) as [Hlt|Hge].
    + replace (l1 ++ r :: l2) with ((l1 ++ [r]) ++ l2) in * by (by rewrite <- app_assoc).
      replace (S (length l1)) with (length (l1 ++ [r])) by (rewrite length_app; cbn; lia).
      apply IH; [done|done| |cbn in Hf; lia]. apply Forall_app. split; [done|]. apply Forall_singleton. unfold apart. cbn. lia.
    + rewrite close_gap_ok. replace (length (l1 ++ r :: l2) - 1)%nat with (length (l1 ++ l2)) by (rewrite !length_app; cbn; lia).
      destruct (IH l1 (free_entry :: t) fuel (Z.min (range_start r) s) (Z.max (range_end r) e)) as (l' & n & s' & e' & E & Hn & Hs' & Hc);
        [done|unfold used; cbn; lia| |cbn in Hf; lia|].
      { apply Forall_app in Hra as [Hra _]. rewrite Forall_forall in Ha, Hra |- *. intros x Hx.
        specialize (Ha x Hx). specialize (Hra x Hx). destruct Hsep' as [Hux _]. apply Forall_app in Hux as [Hux _].
        rewrite Forall_forall in Hux. specialize (Hux x Hx). unfold apart, used in *. cbn in *. lia. }
      exists l', (S n), s', e'. rewrite E. split_and!; [|rewrite !length_app in *; cbn; lia|done|].
      * do 4 f_equal. by rewrite replicate_S_end, <- app_assoc.
      * intros p. rewrite Hc, !covered_cons, covered_middle.
        enough (within (Range (Z.min (range_start r) s) (Z.max (range_end r) e)) p <-> within r p \/ within (Range s e) p) by tauto.
        unfold within. cbn. lia.
Qed.

(** Entries that are not in use. *)
Definition unused (t : list range) : Prop := Forall (fun r => ~ in_use r) t.

(** Adding to a table: the range is there afterwards, as long as an entry is
    free. *)
Lemma add_range_with_merge_ok l t s e :
  separate l -> unused t -> 0 <= s -> t <> [] ->
  exists l' t', add_range_with_merge (l ++ t) (length (l ++ t)) (length l) s e = Ok (l' ++ t', length l') /\
    unused t' /\ length (l' ++ t') = length (l ++ t) /\ (length l' <= S (length l))%nat /\ separate l' /\
    forall p, covered l' p <-> s <= p < e \/ covered l p.
Proof.
  intros Hsep Ht Hs Hne. unfold add_range_with_merge. rewrite Z.geb_leb. destruct (Z.leb_spec e s) as [Hle|Hlt].
  { exists l, t. split_and!; [done|done|done|lia|done|]. intros p. split; [by right|]. intros [?|?]; [lia|done]. }
  destruct (absorb_loop_ok l [] t (S (length l)) s e) as (l' & m & s' & e' & E & Hm & Hs' & Hc);
    [done|unfold used; cbn; lia|constructor|lia|]. cbn [app length] in E, Hm, Hc. rewrite E, bind_Ok. cbn beta iota.
  unfold add_range. pose proof Hs' as (Hu & _ & _)%separate_cons. unfold used in Hu. cbn in Hu.
  assert (Hl : (0 < length t)%nat) by (destruct t; [done|cbn; lia]).
  rewrite Z.geb_leb, (proj2 (Z.leb_gt _ _)), (proj2 (Nat.leb_gt _ _)) by (rewrite ?length_app; lia).
  assert (Hun : unused (replicate m free_entry ++ t)) by (apply Forall_app; split; [apply Forall_replicate; by intros []|done]).
  assert (Hlm : length (replicate m free_entry ++ t) = (m + length t)%nat) by (by rewrite length_app, length_replicate).
  destruct (replicate m free_entry ++ t) as [|x q]; [cbn in Hlm; lia|]. cbn [length] in Hlm. apply Forall_cons in Hun as [_ Hun].
  rewrite entry_at_middle, bind_Ok, insert_middle. exists (l' ++ [Range s' e']), q.
  rewrite <- app_assoc, !length_app. cbn [length app]. split_and!; [do 2 f_equal; lia|done|lia|lia| |].
  - apply separate_app. rewrite app_nil_r. by apply separate_cons.
  - intros p. rewrite covered_middle, app_nil_r, <- covered_cons, Hc, covered_cons. done.
Qed.

(** ** Compacting and sorting *)

#[export] Instance cmp_range_ok : CmpFunc cmp_range.
Proof. unfold cmp_range. constructor; intros; repeat case_match; lia. Qed.


Lemma last_used_ok pre mid b i :
  length pre = S i ->
  (unused mid /\ last_used (pre ++ mid ++ b) i (i + length mid) = Ok None) \/
  (exists m1 y m2, mid = m1 ++ y :: m2 /\ in_use y /\ unused m2 /\
    last_used (pre ++ mid ++ b) i (i + length mid) = Ok (Some (S i + length m1)%nat)).
Proof.
  intros Hp. revert b. induction mid as [|y mid IH] using rev_ind; intros b.
  - left. split; [constructor|]. cbn [length app]. rewrite Nat.add_0_r. destruct i; cbn [last_used]; by rewrite Nat.leb_refl.
  - rewrite length_app. cbn [length]. replace (i + (length mid + 1))%nat with (S (i + length mid)) by lia. cbn [last_used].
    rewrite (proj2 (Nat.leb_gt _ _)) by lia. rewrite <- (app_assoc mid). cbn [app].
    replace (entry_at (pre ++ mid ++ y :: b) (S (i + length mid))) with (Ok y)
      by (rewrite (app_assoc pre), <- (entry_at_middle (pre ++ mid) y b); f_equal; rewrite length_app; lia).
    rewrite bind_Ok. destruct (Z.eqb_spec (range_end y) 0) as [Ey|Ey]; cbn [negb].
    + destruct (IH (y :: b)) as [[Hm E]|(m1 & z & m2 & -> & Hz & Hm2 & E)]; [left|right].
      * split; [|done]. apply Forall_app. split; [done|]. apply Forall_singleton. unfold in_use. lia.
      * exists m1, z, (m2 ++ [y]). rewrite <- app_assoc. split_and!; [done|done| |done]. apply Forall_app. split; [done|].
        apply Forall_singleton. unfold in_use. lia.
    + right. exists mid, y, []. split_and!; [done|done|constructor|]. do 2 f_equal.
Qed.

(** What compacting leaves: the entries in use, then the others. *)
Definition compacted (rs rs' : list range) : Prop :=
  length rs' = length rs /\ exists u f, rs' = u ++ f /\ Forall in_use u /\ unused f /\ u ≡ₚ filter in_use rs.

Lemma compacted_split u f rs : length (u ++ f) = length rs -> Forall in_use u -> unused f ->
  filter in_use (u ++ f) ≡ₚ filter in_use rs -> compacted rs (u ++ f).
Proof.
  intros Hl Hu Hf Hp. split; [done|]. exists u, f. split_and!; [done..|]. rewrite <- Hp, filter_app.
  assert (filter in_use u = u) as -> by (clear -Hu; induction Hu as [|x u Hx _ IH]; [done|]; by rewrite filter_cons_True, IH).
  assert (filter in_use f = []) as -> by (clear -Hf; induction Hf as [|x f Hx _ IH]; [done|]; by rewrite filter_cons_False, IH).
  by rewrite app_nil_r.
Qed.

(** The last entry in use moves to the first free one. *)
Lemma move_entry (a : list range) x m1 y t :
  <[length (a ++ x :: m1) := free_entry]> (<[length a := y]> ((a ++ x :: m1) ++ y :: t)) = (a ++ [y]) ++ m1 ++ free_entry :: t.
Proof.
  rewrite <- app_assoc. cbn [app]. rewrite insert_middle.
  replace (a ++ y :: m1 ++ y :: t) with ((a ++ y :: m1) ++ y :: t) by (by rewrite <- app_assoc).
  replace (length (a ++ x :: m1)) with (length (a ++ y :: m1)) by (by rewrite !length_app).
  rewrite insert_middle. by rewrite <- !app_assoc.
Qed.

Lemma move_entry_used a x m1 y t :
  ~ in_use x -> in_use y -> filter in_use ((a ++ [y]) ++ m1 ++ free_entry :: t) ≡ₚ filter in_use ((a ++ x :: m1) ++ y :: t).
Proof.
  intros Hx Hy. assert (Hfree : ~ in_use free_entry) by (by intros []). rewrite !filter_app, !filter_cons.
  rewrite !(decide_False (P := in_use x)), !(decide_True (P := in_use y)), !(decide_False (P := in_use free_entry)) by done.
  rewrite <- !app_assoc. solve_Permutation.
Qed.

Lemma clean_loop_ok n mid a b fuel :
  length mid = n -> (n < fuel)%nat -> Forall in_use a -> unused b ->
  exists rs', clean_loop fuel (a ++ mid ++ b) (length a) (length a + length mid - 1) = Ok rs' /\ compacted (a ++ mid ++ b) rs'.
Proof.
  revert mid a b fuel. induction n as [n IH] using lt_wf_ind. intros mid a b [|fuel] Hn Hf Ha Hb; [lia|]. cbn [clean_loop].
  destruct mid as [|x mid].
  { rewrite (proj2 (Nat.leb_le _ _)) by (cbn; lia). exists (a ++ b). split; [done|]. by apply compacted_split. }
  destruct mid as [|x2 mid].
  { rewrite (proj2 (Nat.leb_le _ _)) by (cbn; lia). eexists. split; [done|]. cbn [app].
    destruct (decide (in_use x)) as [Hx|Hx].
    - replace (a ++ x :: b) with ((a ++ [x]) ++ b) by (by rewrite <- app_assoc). apply compacted_split; [done| |done|done].
      apply Forall_app. split; [done|by constructor].
    - apply compacted_split; [done|done|by constructor|done]. }
  set (mid' := x2 :: mid) in *. rewrite (proj2 (Nat.leb_gt _ _)) by (cbn; lia). cbn [app]. rewrite entry_at_middle, bind_Ok.
  destruct (Z.eqb_spec (range_end x) 0) as [Ex|Ex]; cbn [negb].
  - replace (length a + length (x :: mid') - 1)%nat with (length a + length mid')%nat by (cbn; lia).
    pose proof (last_used_ok (a ++ [x]) mid' b (length a) ltac:(rewrite length_app; cbn; lia)) as Hlu.
    rewrite <- app_assoc in Hlu. cbn [app] in Hlu. destruct Hlu as [[Hm ->]|(m1 & y & m2 & Em & Hy & Hm2 & ->)]; rewrite bind_Ok.
    + eexists. split; [done|]. apply compacted_split; [done|done| |done]. constructor; [by intros ?|]. by apply Forall_app.
    + rewrite Em. replace (a ++ x :: (m1 ++ y :: m2) ++ b) with ((a ++ x :: m1) ++ y :: m2 ++ b) by (by rewrite <- !app_assoc).
      replace (S (length a) + length m1)%nat with (length (a ++ x :: m1)) by (rewrite length_app; cbn; lia).
      rewrite entry_at_middle, bind_Ok.
      rewrite move_entry.
      replace (S (length a)) with (length (a ++ [y])) by (rewrite length_app; cbn; lia).
      replace (length (a ++ x :: m1) - 1)%nat with (length (a ++ [y]) + length m1 - 1)%nat by (rewrite !length_app; cbn; lia).
      destruct (IH (length m1)) with (mid := m1) (a := a ++ [y]) (b := free_entry :: m2 ++ b) (fuel := fuel) as (rs' & E & Hl & Hc).
      * rewrite <- Hn, Em. cbn. rewrite length_app. lia.
      * done.
      * subst n. rewrite Em in Hf. cbn in Hf. rewrite length_app in Hf. lia.
      * apply Forall_app. split; [done|by constructor].
      * constructor; [by intros []|]. by apply Forall_app.
      * exists rs'. split; [exact E|]. split; [rewrite Hl, !length_app; cbn; rewrite !length_app; cbn; lia|].
        destruct Hc as (u & f & -> & Hu & Hff & Hp). exists u, f. split_and!; [done..|]. rewrite Hp. apply move_entry_used; [by intros ?|done].
  - replace (a ++ x :: mid' ++ b) with ((a ++ [x]) ++ mid' ++ b) by (by rewrite <- app_assoc).
    replace (S (length a)) with (length (a ++ [x])) by (rewrite length_app; cbn; lia).
    replace (length a + length (x :: mid') - 1)%nat with (length (a ++ [x]) + length mid' - 1)%nat by (rewrite length_app; cbn; lia).
    apply (IH (length mid')); [cbn in *; lia|done|cbn in *; lia|apply Forall_app; split; [done|by constructor]|done].
Qed.

Lemma count_used_ok u f : Forall in_use u -> unused f -> count_used (u ++ f) = length u.
Proof.
  intros Hu Hf. induction Hu as [|x u Hx _ IH]; cbn.
  - destruct Hf as [|y f Hy _]; [done|]. cbn. destruct (Z.eqb_spec (range_end y) 0); [done|by destruct Hy].
  - by rewrite (proj2 (Z.eqb_neq _ _) Hx), IH.
Qed.

(** [clean_sort_range] leaves the entries in use, sorted by their start. *)
Lemma clean_sort_range_ok rs :
  Z.of_nat (length rs) * sizeof_range < 2 ^ 31 ->
  exists l f, clean_sort_range rs (length rs) = Ok (l ++ f, length l) /\ length (l ++ f) = length rs /\ unused f /\
    l ≡ₚ filter in_use rs /\ StronglySorted (fun x y => 0 <= cmp_range y x) l.
Proof.
  intros Hfit. unfold clean_sort_range. destruct (clean_loop_ok (length rs) rs [] [] (S (length rs))) as (rs' & E & Hl & u & f & -> & Hu & Hf & Hp);
    [done|lia|constructor|constructor|]. rewrite app_nil_r in E, Hl, Hp. cbn [app length] in E, Hl, Hp. change (0 + length rs - 1)%nat with (length rs - 1)%nat in E.
  rewrite E, bind_Ok, <- Hl, take_ge, count_used_ok, take_app_length, drop_app_length by done.
  assert (exists l, sort cmp_range u (Z.of_nat (length u)) sizeof_range = Ok l /\ l ≡ₚ u /\ StronglySorted (fun x y => 0 <= cmp_range y x) l) as (l & -> & Hlu & Hs).
  { destruct u as [|x u]; [exists []; split_and!; [done..|constructor]|]. apply (sort_r_ok cmp_range sizeof_range); [done|].
    unfold fits, off, sizeof_range in *. rewrite length_app in Hl. lia. }
  rewrite bind_Ok. exists l, f. pose proof (Permutation_length Hlu) as El. rewrite length_app, El, <- length_app.
  split_and!; [done|done|done|by rewrite Hlu|done].
Qed.

(** ** The mapped ranges *)

Record table_ok (m : mappings) (l : list range) : Prop := {
  tb_array : exists t, pfn_mapped m = l ++ t /\ unused t /\ length (l ++ t) = max_entries;
  tb_count : nr_pfn_mapped m = length l;
  tb_separate : separate l
}.

Lemma separate_in_use l : separate l -> filter in_use l = l.
Proof.
  intros [Hu _]. induction Hu as [|x l Hx _ IH]; [done|]. rewrite filter_cons_True, IH; [done|]. unfold used, in_use in *. lia.
Qed.

Lemma unused_filter t : unused t -> filter in_use t = [].
Proof. induction 1 as [|x t Hx _ IH]; [done|]. by rewrite filter_cons_False, IH. Qed.

(** The table after a range has been added. *)
Lemma add_pfn_range_mapped_ok m l s e :
  table_ok m l -> 0 <= s -> (length l < max_entries)%nat ->
  exists m' l', add_pfn_range_mapped s e m = Ok m' /\ table_ok m' l' /\ (length l' <= S (length l))%nat /\
    forall p, covered l' p <-> s <= p < e \/ covered l p.
Proof.
  intros [(t & Ea & Ht & Hlen) Ec Hsep] Hs Hl. unfold add_pfn_range_mapped. rewrite Ea, Ec, <- Hlen.
  destruct (add_range_with_merge_ok l t s e) as (l1 & t1 & -> & Ht1 & Hlen1 & Hl1 & Hsep1 & Hc1);
    [done|done|done|by intros ->; rewrite app_nil_r in Hlen; lia|]. rewrite bind_Ok. cbn beta iota. rewrite <- Hlen1.
  destruct (clean_sort_range_ok (l1 ++ t1)) as (l2 & f & -> & Hlen2 & Hf & Hp & _); [rewrite Hlen1, Hlen; done|].
  rewrite filter_app, separate_in_use, unused_filter, app_nil_r in Hp by done. rewrite bind_Ok. cbn beta iota.
  eexists _, l2. split; [done|]. split; [split; cbn; [exists f; split_and!; [done|done|congruence]|done|by rewrite Hp]|].
  split; [by rewrite Hp|]. intros p. rewrite Hp. apply Hc1.
Qed.

(** The loop finds a single range, which is enough because no two touch. *)
Lemma pfn_range_is_mapped_ok m l s e :
  table_ok m l -> s < e -> pfn_range_is_mapped s e m = true <-> forall p, s <= p < e -> covered l p.
Proof.
  intros [(t & Ea & _ & _) Ec Hsep] Hse. unfold pfn_range_is_mapped. rewrite Ea, Ec, take_app_length, existsb_exists. split.
  - intros (r & Hr & Hb) p Hp. apply Exists_exists. exists r. split; [by apply list_elem_of_In|]. unfold within. lia.
  - intros Hall. pose proof (Hall s ltac:(lia)) as (r & Hr & Hw)%Exists_exists. exists r. split; [by apply list_elem_of_In|].
    destruct (decide (e <= range_end r)) as [He|He]; [unfold within in Hw; lia|exfalso].
    assert (covered l (range_end r)) as Hcov by (apply Hall; unfold within in Hw; lia). apply list_elem_of_split in Hr as (l1 & l2 & ->).
    apply covered_middle in Hcov as [Hcov|(r' & Hr' & Hw')%Exists_exists]; [unfold within in Hcov; lia|].
    apply separate_app in Hsep as (_ & Hra & _). rewrite Forall_forall in Hra. specialize (Hra r' Hr').
    unfold apart, within in *. lia.
Qed.

(** The calls one after the other. *)
Fixpoint map_ranges (rs : list (Z * Z)) (m : mappings) : outcome mappings :=
  match rs with
  | [] => Ok m
  | (s, e) :: rs => m ← add_pfn_range_mapped s e m; map_ranges rs m
  end.

Lemma map_ranges_ok rs m l :
  table_ok m l -> Forall (fun r => 0 <= fst r) rs -> (length l + length rs <= max_entries)%nat ->
  exists m' l', map_ranges rs m = Ok m' /\ table_ok m' l' /\
    forall p, covered l' p <-> covered l p \/ Exists (fun r => fst r <= p < snd r) rs.
Proof.
  revert m l. induction rs as [|[s e] rs IH]; intros m l Hm Hrs Hl.
  - exists m, l. split_and!; [done|done|]. intros p. rewrite Exists_nil. tauto.
  - apply Forall_cons in Hrs as [Hs Hrs]. cbn in Hs, Hl. cbn [map_ranges].
    destruct (add_pfn_range_mapped_ok m l s e) as (m1 & l1 & -> & Hm1 & Hl1 & Hc1); [done|done|lia|]. rewrite bind_Ok.
    destruct (IH m1 l1) as (m2 & l2 & E & Hm2 & Hc2); [done|done|lia|]. exists m2, l2. split_and!; [done|done|].
    intros p. rewrite Hc2, Hc1, Exists_cons. cbn. tauto.
Qed.

(** Whatever ranges of page frames have been recorded as mapped, in whatever
    order and however they overlap: [pfn_range_is_mapped] answers true for a
    range exactly when every frame of it lies in one of them. No access is
    outside the table as long as there were not more ranges than entries. *)
Theorem mapped_ranges_spec rs s e :
  Forall (fun r => 0 <= fst r) rs -> (length rs <= max_entries)%nat -> s < e ->
  exists m, map_ranges rs no_mappings = Ok m /\
    (pfn_range_is_mapped s e m = true <-> forall p, s <= p < e -> Exists (fun r => fst r <= p < snd r) rs).
Proof.
  intros Hrs Hl Hse. destruct (map_ranges_ok rs no_mappings []) as (m & l & E & Hm & Hc); [|done|cbn; lia|].
  { split; [|done|by split; constructor]. exists (replicate max_entries free_entry). split_and!; [done| |by rewrite length_app, length_replicate].
    apply Forall_replicate. by intros []. }
  exists m. split; [done|]. rewrite (pfn_range_is_mapped_ok m l) by done. apply forall_proper. intros p. rewrite Hc.
  unfold covered. rewrite Exists_nil. tauto.
Qed.

Lemma mapped_ranges_spec_witness :
  exists m, map_ranges [(16, 32); (0, 8); (8, 16)] no_mappings = Ok m /\
    (pfn_range_is_mapped 4 20 m = true <-> forall p, 4 <= p < 20 -> Exists (fun r => fst r <= p < snd r) [(16, 32); (0, 8); (8, 16)]).
Proof. apply (mapped_ranges_spec [(16, 32); (0, 8); (8, 16)] 4 20); [repeat constructor; cbn; lia|vm_compute; lia|lia]. Defined.
