(* ===== verification/Initrd.v ===== *)
(** * arch/x86/kernel/setup.c: the memory of the initial RAM disk

    The boot loader leaves an image in memory. It is reserved early; once the
    direct mapping is known it is either used in place or moved to memory that
    is mapped, and the old place is freed. Addresses of the image are 64 bits
    wide here and 32 bits wide in memblock. The [panic] when there is no place
    for the image is the result [None], which no fault gives. *)

From S2P Require Import Prelude Sort E820 Memblock MemblockRegions MemblockFree MemblockGrow MemblockCases Range.

(** The fields of [boot_params] that are read, and what [initrd=] set. *)
Record ramdisk := Ramdisk {
  type_of_loader : Z;
  hdr_ramdisk_image : Z;
  ext_ramdisk_image : Z;
  hdr_ramdisk_size : Z;
  ext_ramdisk_size : Z;
  phys_initrd_start : Z;
  phys_initrd_size : Z
}.

(** [initrd_start] and [initrd_end], and the copy that was made: destination,
    source and size. *)
Record initrd := Initrd { initrd_start : Z; initrd_end : Z; copied : option (Z * Z * Z) }.

Definition page_align64 (x : Z) : Z := Z.land (u64 (x + (PAGE_SIZE - 1))) (U64_MAX - (PAGE_SIZE - 1)).

Definition get_ramdisk_image (bp : ramdisk) : Z :=
  let ramdisk_image := Z.lor (hdr_ramdisk_image bp) (u64 (Z.shiftl (ext_ramdisk_image bp) 32)) in
  if ramdisk_image =? 0 then phys_initrd_start bp else ramdisk_image.

Definition get_ramdisk_size (bp : ramdisk) : Z :=
  let ramdisk_size := Z.lor (hdr_ramdisk_size bp) (u64 (Z.shiftl (ext_ramdisk_size bp) 32)) in
  if ramdisk_size =? 0 then phys_initrd_size bp else ramdisk_size.

Definition ramdisk_end (bp : ramdisk) : Z := page_align64 (get_ramdisk_image bp + get_ramdisk_size bp).

(** No boot loader, or no image. *)
Definition no_ramdisk (bp : ramdisk) : bool :=
  (type_of_loader bp =? 0) || (get_ramdisk_image bp =? 0) || (get_ramdisk_size bp =? 0).

Section setup.
Context (SMP_CACHE_BYTES PAGE_OFFSET : Z) (dbl : doubler).

Definition early_reserve_initrd (bp : ramdisk) (mb : memblock) : outcome memblock :=
  if no_ramdisk bp then Ok mb
  else
    '(_, mb) ← memblock_reserve dbl (u32 (get_ramdisk_image bp)) (u32 (ramdisk_end bp - get_ramdisk_image bp)) mb;
    Ok mb.

Definition relocate_initrd (bp : ramdisk) (m : mappings) (mb : memblock) : outcome (option (initrd * memblock)) :=
  let area_size := page_align64 (get_ramdisk_size bp) in
  '(relocated_ramdisk, mb) ← memblock_phys_alloc_range SMP_CACHE_BYTES dbl (u32 area_size) PAGE_SIZE 0
                               (u32 (Z.shiftl (max_pfn_mapped m) PAGE_SHIFT)) mb;
  if relocated_ramdisk =? 0 then Ok None
  else
    let start := u32 (relocated_ramdisk + PAGE_OFFSET) in
    Ok (Some (Initrd start (u32 (start + get_ramdisk_size bp)) (Some (start, u32 (get_ramdisk_image bp), u32 (get_ramdisk_size bp))), mb)).

Definition reserve_initrd (bp : ramdisk) (m : mappings) (rd : initrd) (mb : memblock) : outcome (option (initrd * memblock)) :=
  if no_ramdisk bp then Ok (Some (rd, mb))
  else if pfn_range_is_mapped (u32 (Z.shiftr (get_ramdisk_image bp) PAGE_SHIFT)) (u32 (Z.shiftr (ramdisk_end bp) PAGE_SHIFT)) m then
    let start := u32 (get_ramdisk_image bp + PAGE_OFFSET) in
    Ok (Some (Initrd start (u32 (start + get_ramdisk_size bp)) None, mb))
  else
    relocated ← relocate_initrd bp m mb;
    match relocated with
    | None => Ok None
    | Some (rd, mb) =>
        '(_, mb) ← memblock_phys_free dbl (u32 (get_ramdisk_image bp)) (u32 (ramdisk_end bp - get_ramdisk_image bp)) mb;
        Ok (Some (rd, mb))
    end.

(** ** The image stays reserved *)

Context {Hdbl : DoublerOk dbl}.

(** An image below 4 GiB, off the first page. *)
Record image_ok (bp : ramdisk) : Prop := {
  im_there : no_ramdisk bp = false;
  im_image : PAGE_SIZE <= get_ramdisk_image bp;
  im_size : 0 < get_ramdisk_size bp;
  im_end : get_ramdisk_image bp + get_ramdisk_size bp <= PHYS_ADDR_MAX - PAGE_SIZE
}.

Lemma land_page_mask y : 0 <= y < 2 ^ 64 -> Z.land y (U64_MAX - (PAGE_SIZE - 1)) = y - y mod PAGE_SIZE.
Proof.
  intros Hy. change (U64_MAX - (PAGE_SIZE - 1)) with (Z.shiftl (Z.ones 52) 12).
  transitivity (Z.shiftl (Z.shiftr y 12) 12).
  - apply Z.bits_inj'. intros n Hn. rewrite Z.land_spec, !Z.shiftl_spec by done. destruct (Z.lt_ge_cases n 12).
    + by rewrite !(Z.testbit_neg_r _ (n - 12)), andb_false_r by lia.
    + rewrite Z.shiftr_spec by lia. replace (n - 12 + 12) with n by lia. destruct (Z.lt_ge_cases n 64).
      * by rewrite Z.ones_spec_low, andb_true_r by lia.
      * rewrite Z.ones_spec_high, andb_false_r by lia. symmetry. rewrite <- (Z.mod_small y (2 ^ 64)) by lia. by apply Z.mod_pow2_bits_high.
  - rewrite Z.shiftl_mul_pow2, Z.shiftr_div_pow2 by lia. change (2 ^ 12) with PAGE_SIZE.
    pose proof (Z.div_mod y PAGE_SIZE ltac:(done)). lia.
Qed.

Lemma page_align64_ok x : 0 <= x < 2 ^ 32 -> x <= page_align64 x < x + PAGE_SIZE.
Proof.
  intros Hx. unfold page_align64. rewrite u64_small, land_page_mask by (unfold PAGE_SIZE; lia).
  unfold PAGE_SIZE. Z.to_euclidean_division_equations. lia.
Qed.

(** The image and the place it is moved to, as memblock sees them. *)
Lemma image_end bp : image_ok bp ->
  get_ramdisk_image bp < ramdisk_end bp /\ ramdisk_end bp <= PHYS_ADDR_MAX /\
  u32 (get_ramdisk_image bp) = get_ramdisk_image bp /\
  u32 (ramdisk_end bp - get_ramdisk_image bp) = ramdisk_end bp - get_ramdisk_image bp /\
  get_ramdisk_size bp <= u32 (page_align64 (get_ramdisk_size bp)).
Proof.
  intros [_ Hi Hs He]. unfold PHYS_ADDR_MAX, PAGE_SIZE in *. unfold ramdisk_end.
  pose proof (page_align64_ok (get_ramdisk_image bp + get_ramdisk_size bp) ltac:(lia)).
  pose proof (page_align64_ok (get_ramdisk_size bp) ltac:(lia)). unfold PAGE_SIZE in *.
  rewrite !u32_small by lia. lia.
Qed.

(** A block that was allocated while the image was reserved. *)
Lemma relocated_apart lo hi size align start end_ mb mb0 mb1 new :
  rehomed Reserved mb mb0 -> allocated size align start end_ mb0 mb1 new ->
  (forall a, lo <= a < hi -> lookup (regions (reserved mb)) a <> None /\ forall w, ~ stored w mb a) ->
  (forall a, new <= a < new + size -> ~ lo <= a < hi) /\ (forall w a, lo <= a < hi -> ~ stored w mb1 a).
Proof.
  intros Hh Hal Hres. pose proof (rehomed_keeps _ _ Hh) as Hk0. pose proof (allocated_keeps _ _ _ _ _ _ _ Hal) as Hk1. split.
  - intros a Ha Hin. destruct (Hres a Hin) as [Hl Hn]. destruct (Hk0 a Hl (Hn Reserved)) as [Hl0 _].
    destruct (al_free _ _ _ _ _ _ _ Hal) as (nid & flags & r & _ & _ & _ & _ & Hfree). by apply Hl0, Hfree.
  - intros w a Ha. destruct (Hres a Ha) as [Hl Hn]. destruct (keeps_trans _ _ _ Hk0 Hk1 a Hl (Hn Reserved)) as [_ Hn1].
    destruct w; [|done]. specialize (Hn Memory). unfold stored, array_bytes in *. cbn [get_type] in *.
    by rewrite (al_memory _ _ _ _ _ _ _ Hal), (rh_memory _ _ _ Hh eq_refl).
Qed.

(** Where the image is after [reserve_initrd]: physical addresses. *)
Definition image_reserved (bp : ramdisk) (mb : memblock) (rd : initrd) (base : Z) : Prop :=
  initrd_start rd = u32 (base + PAGE_OFFSET) /\ initrd_end rd = u32 (initrd_start rd + get_ramdisk_size bp) /\
  forall a, base <= a < base + get_ramdisk_size bp -> lookup (regions (reserved mb)) a <> None.

(** The image is reserved and meets no array of memblock. *)
Definition image_held (bp : ramdisk) (mb : memblock) : Prop :=
  forall a, get_ramdisk_image bp <= a < ramdisk_end bp -> lookup (regions (reserved mb)) a <> None /\ forall w, ~ stored w mb a.

Definition image_mapped (bp : ramdisk) (m : mappings) : bool :=
  pfn_range_is_mapped (u32 (Z.shiftr (get_ramdisk_image bp) PAGE_SHIFT)) (u32 (Z.shiftr (ramdisk_end bp) PAGE_SHIFT)) m.

(** The end of the memory that is mapped. *)
Definition mapped_end (m : mappings) : Z := u32 (Z.shiftl (max_pfn_mapped m) PAGE_SHIFT).

Lemma early_reserve_ok bp mb :
  image_ok bp -> mb_ok (2 ^ 17) mb -> fits Reserved (new_regions Reserved (get_ramdisk_image bp) (ramdisk_end bp - get_ramdisk_image bp) mb) mb ->
  (forall w a, get_ramdisk_image bp <= a < ramdisk_end bp -> ~ stored w mb a) ->
  exists mb0, early_reserve_initrd bp mb = Ok mb0 /\ mb_ok (2 ^ 17) mb0 /\ memory mb0 = memory mb /\ image_held bp mb0.
Proof.
  intros Him [Hwf Har Hm] Hfit Hcl. destruct (image_end bp Him) as (He1 & He2 & Eu1 & Eu2 & _). pose proof Him as [Hthere Hi _ _].
  unfold early_reserve_initrd, memblock_reserve. rewrite Hthere, Eu1, Eu2. unfold PAGE_SIZE in Hi.
  destruct (add_grow dbl Reserved (get_ramdisk_image bp) (ramdisk_end bp - get_ramdisk_image bp) MAX_NUMNODES 0 mb)
    as (ret & mb1 & mb' & -> & _ & _ & _ & Hkeep & Hres); [done|done|specialize (Hm Reserved); lia|lia|lia|by left|].
  destruct Hres as [(-> & Hadd & Har')|(_ & _ & Hno & _)]; [|done]. rewrite (Hkeep Hfit) in Hadd. rewrite bind_Ok. cbn beta iota.
  destruct Hadd as (Hwf' & _ & _ & (t & ->) & _ & Em & Ea & Hl). rewrite get_set_same in *. cbn [get_type] in *. rewrite cap_size_small in Hl by lia.
  eexists. split; [done|]. split; [split; [done..|]; intros []; [apply (Hm Memory)|cbn; rewrite Em; apply (Hm Reserved)]|]. split; [done|].
  intros a Ha. split; [|intros w; rewrite stored_set by done; by apply Hcl]. cbn. rewrite Hl. unfold union_range.
  rewrite decide_True by (unfold PHYS_ADDR_MAX in *; lia). by destruct (lookup _ a).
Qed.

Lemma reserve_initrd_ok bp m rd mb :
  image_ok bp -> mb_ok (2 ^ 17) mb -> image_held bp mb ->
  (image_mapped bp m = true /\ exists rd', reserve_initrd bp m rd mb = Ok (Some (rd', mb)) /\ copied rd' = None /\
     image_reserved bp mb rd' (get_ramdisk_image bp)) \/
  (image_mapped bp m = false /\ exists rd' mb' new, reserve_initrd bp m rd mb = Ok (Some (rd', mb')) /\ all_wf mb' /\ arrays_ok mb' /\
     copied rd' = Some (initrd_start rd', get_ramdisk_image bp, get_ramdisk_size bp) /\ (PAGE_SIZE | new) /\
     (forall a, new <= a < new + get_ramdisk_size bp -> ~ get_ramdisk_image bp <= a < ramdisk_end bp) /\
     image_reserved bp mb' rd' new) \/
  (image_mapped bp m = false /\ reserve_initrd bp m rd mb = Ok None /\ exists mb', rehomed Reserved mb mb' /\
     refused (u32 (page_align64 (get_ramdisk_size bp))) PAGE_SIZE 0 (mapped_end m) NUMA_NO_NODE MEMBLOCK_NONE mb').
Proof.
  intros Him Hok Hres. destruct (image_end bp Him) as (He1 & He2 & Eu1 & Eu2 & Hsz). pose proof Him as [Hthere Hi Hs He].
  unfold reserve_initrd. rewrite Hthere. fold (image_mapped bp m). destruct (image_mapped bp m); [left|right].
  { split; [done|]. eexists. split; [done|]. split; [done|]. split; [done|]. split; [done|]. intros a Ha. apply Hres.
    pose proof (page_align64_ok (get_ramdisk_image bp + get_ramdisk_size bp)). unfold ramdisk_end, PHYS_ADDR_MAX, PAGE_SIZE in *. lia. }
  unfold relocate_initrd, memblock_phys_alloc_range. fold (mapped_end m). set (size := u32 (page_align64 (get_ramdisk_size bp))) in *.
  assert (Hend : 0 <= mapped_end m <= PHYS_ADDR_MAX).
  { unfold mapped_end, u32, PHYS_ADDR_MAX. pose proof (Z.mod_pos_bound (Z.shiftl (max_pfn_mapped m) PAGE_SHIFT) (2 ^ 32)). lia. }
  destruct (alloc_range_nid_ok dbl SMP_CACHE_BYTES size PAGE_SIZE 12 0 (mapped_end m) NUMA_NO_NODE false mb) as (new & mb1 & -> & Hok1 & Hreq);
    [done|lia|done|unfold PHYS_ADDR_MAX; lia|done|]. rewrite !bind_Ok. cbn beta iota.
  destruct Hreq as [(Hne & mb0 & Hh & Hal)|(-> & Hh & Href)]; [|right; split; [done|]; split; [done|]; by exists mb1].
  rewrite (proj2 (Z.eqb_neq _ _) Hne). left. split; [done|]. rewrite !bind_Ok. cbn beta iota.
  destruct (relocated_apart _ _ _ _ _ _ _ _ _ _ Hh Hal Hres) as [Hap Hst]. destruct Hok1 as [Hwf1 Har1 Hm1]. rewrite Eu1, Eu2.
  destruct (phys_free_keeps dbl (get_ramdisk_image bp) (ramdisk_end bp - get_ramdisk_image bp) mb1) as (ret & mb' & -> & Hwf' & Har' & Hk);
    [done|done|apply (Hm1 Reserved)|unfold PAGE_SIZE in *; lia|lia|intros w a Ha; apply Hst; lia|]. rewrite bind_Ok. cbn beta iota.
  eexists _, mb', new. split; [done|]. cbn [initrd_start initrd_end copied]. rewrite (u32_small (get_ramdisk_size bp)) by (unfold PHYS_ADDR_MAX, PAGE_SIZE in *; lia).
  split_and!; [done|done|done|apply (al_align _ _ _ _ _ _ _ Hal)|intros a Ha; apply Hap; lia|]. split; [done|]. split; [done|].
  intros a Ha. apply Hk; [|apply (al_reserved _ _ _ _ _ _ _ Hal)|apply (al_apart _ _ _ _ _ _ _ Hal)]; try lia. specialize (Hap a). lia.
Qed.


End setup.

(** ** Examples *)

(** An image of five pages at 48 MB, in free memory of [boot_mb]. *)
Definition sample_ramdisk : ramdisk := Ramdisk 1 0x3000000 0 0x5000 0 0 0.
Definition no_initrd : initrd := Initrd 0 0 None.

(** The first 32 MB are mapped. *)
Definition sample_mappings : mappings := Mappings (<[0%nat := Range 0 0x2000]> (replicate max_entries free_entry)) 1 0x2000 0x2000.


(** An image above 4 GiB: memblock takes 32-bit addresses, and what is reserved
    is the memory at the lower half of the address. *)
Lemma high_image_truncated :
  early_reserve_initrd dbl1 (Ramdisk 1 0x200000 1 0x5000 0 0 0) boot_mb =
  early_reserve_initrd dbl1 (Ramdisk 1 0x200000 0 0x5000 0 0 0) boot_mb /\
  early_reserve_initrd dbl1 (Ramdisk 1 0x200000 0 0x5000 0 0 0) boot_mb <> Ok boot_mb.
Proof. split; [vm_compute; reflexivity|]. vm_compute. discriminate. Qed.
