(* ===== verification/LibMath.v ===== *)
(** * lib/math: integer arithmetic

    The binary greatest common divisor, the digit-by-digit square root, 64-bit
    division on a 32-bit machine and division by multiplication with a
    reciprocal. Each is shown to compute the mathematical function, with the
    wrap-around where the result does not fit, and never to execute a division
    the processor refuses. *)

From S2P Require Import Prelude.

(** ** Bit scans and the divide instruction *)

(** [fls], [fls64] (arch/x86/include/asm/bitops.h). *)
Definition fls (x : Z) : Z := if x =? 0 then 0 else Z.log2 x + 1.
Definition fls64 (x : Z) : Z := let h := Z.shiftr x 32 in if negb (h =? 0) then fls h + 32 else fls (u32 x).
Definition __ilog2_u64 (n : Z) : Z := fls64 n - 1.

(** [__fls] ([bsr], undefined for [0]). *)
Definition __fls (undef word : Z) : Z := if word =? 0 then undef else Z.log2 word.

(** [divl]: the 64-bit number [hi:lo] by [base]; the processor raises a fault,
    which the kernel does not survive, when [base] is [0] or the quotient does
    not fit. *)
Definition divl (hi lo base : Z) : outcome (Z * Z) :=
  let n := hi * 2 ^ 32 + lo in
  if (base =? 0) || (2 ^ 32 <=? n / base) then Bug else Ok (n / base, n mod base).

(** Division in C. *)
Definition c_div (a b : Z) : outcome Z := if b =? 0 then Bug else Ok (a / b).
Definition c_mod (a b : Z) : outcome Z := if b =? 0 then Bug else Ok (a mod b).

(** ** gcd and lcm *)

Section bits.
Context (undef : Z).

(** A variable shifted by [__ffs] of itself. *)
Definition shift_out (a : Z) : Z := Z.shiftr a (__ffs undef a).

Fixpoint gcd_loop (fuel : nat) (r a b : Z) : outcome Z :=
  match fuel with
  | O => NoFuel
  | S fuel =>
      let a := shift_out a in
      if a =? 1 then Ok (Z.land r (u32 (- r)))
      else if a =? b then Ok (u32 (Z.shiftl a (__ffs undef r)))
      else
        let '(a, b) := if a <? b then (b, a) else (a, b) in
        gcd_loop fuel r (u32 (a - b)) b
  end.

(** Every turn shortens one of the two numbers. *)
Definition gcd_fuel : nat := 66.

Definition gcd (a b : Z) : outcome Z :=
  let r := Z.lor a b in
  if (a =? 0) || (b =? 0) then Ok r
  else
    let b := shift_out b in
    if b =? 1 then Ok (Z.land r (u32 (- r))) else gcd_loop gcd_fuel r a b.

Definition lcm (a b : Z) : outcome Z :=
  if negb (a =? 0) && negb (b =? 0) then
    g ← gcd a b;
    q ← c_div a g;
    Ok (u32 (q * b))
  else Ok 0.

Definition lcm_not_zero (a b : Z) : outcome Z :=
  l ← lcm a b;
  if negb (l =? 0) then Ok l else Ok (if negb (b =? 0) then b else a).

(** ** Square root *)

Fixpoint sqrt_loop (fuel : nat) (x y m : Z) : outcome Z :=
  match fuel with
  | O => NoFuel
  | S fuel =>
      if negb (m =? 0) then
        let b := u32 (y + m) in
        let y := Z.shiftr y 1 in
        let '(x, y) := if x >=? b then (u32 (x - b), u32 (y + m)) else (x, y) in
        sqrt_loop fuel x y (Z.shiftr m 2)
      else Ok y
  end.

Definition int_sqrt (x : Z) : outcome Z :=
  if x <=? 1 then Ok x
  else sqrt_loop 17 x 0 (u32 (Z.shiftl 1 (Z.land (__fls undef x) (U32_MAX - 1)))).
End bits.

(** ** 64-bit division *)

(** [do_div(n, base)] of arch/x86/include/asm/div64.h for a base that is not
    a compile-time constant: the new [n] and the remainder. *)
Definition do_div (n base : Z) : outcome (Z * Z) :=
  let low := u32 n in
  let high := Z.shiftr n 32 in
  '(upper, high) ← (if negb (high =? 0)
                    then m ← c_mod high base; q ← c_div high base; Ok (m, q)
                    else Ok (high, high));
  '(low, mod_) ← divl upper low base;
  Ok (Z.lor low (Z.shiftl high 32), mod_).

(** The quotient and [*remainder]. *)
Definition div_u64_rem (dividend divisor : Z) : outcome (Z * Z) :=
  let upper := Z.shiftr dividend 32 in
  '(v1, upper) ← (if upper >=? divisor
                  then q ← c_div upper divisor; m ← c_mod upper divisor; Ok (q, m)
                  else Ok (0, upper));
  '(v0, rem) ← divl upper (u32 dividend) divisor;
  Ok (Z.lor v0 (Z.shiftl v1 32), rem).

Definition div_u64 (dividend divisor : Z) : outcome Z :=
  '(q, _) ← div_u64_rem dividend divisor; Ok q.

Fixpoint div64_up (fuel : nat) (rem b d : Z) : outcome (Z * Z) :=
  match fuel with
  | O => NoFuel
  | S fuel =>
      if (s64 b >? 0) && (b <? rem) then div64_up fuel rem (u64 (b + b)) (u64 (d + d))
      else Ok (b, d)
  end.

Fixpoint div64_down (fuel : nat) (rem res b d : Z) : outcome (Z * Z) :=
  match fuel with
  | O => NoFuel
  | S fuel =>
      let '(rem, res) := if rem >=? b then (u64 (rem - b), u64 (res + d)) else (rem, res) in
      let b := Z.shiftr b 1 in
      let d := Z.shiftr d 1 in
      if negb (d =? 0) then div64_down fuel rem res b d else Ok (res, rem)
  end.

(** The new [*n] and the result. *)
Definition __div64_32 (n base : Z) : outcome (Z * Z) :=
  let high := Z.shiftr n 32 in
  '(res, rem) ← (if high >=? base
                 then high ← c_div high base;
                      Ok (Z.shiftl high 32, u64 (n - Z.shiftl (u32 (high * base)) 32))
                 else Ok (0, n));
  '(b, d) ← div64_up 65 rem base 1;
  '(res, rem) ← div64_down 65 rem res b d;
  Ok (res, u32 rem).

(** [abs] of a signed 64-bit and 32-bit number, as the unsigned argument it is
    passed for. *)
Definition abs_u64 (x : Z) : Z := u64 (if x <? 0 then - x else x).
Definition abs_u32 (x : Z) : Z := u32 (if x <? 0 then - x else x).

Definition div_s64_rem (dividend divisor : Z) : outcome (Z * Z) :=
  if dividend <? 0 then
    '(quotient, remainder) ← div_u64_rem (u64 (- dividend)) (abs_u32 divisor);
    let remainder := s32 (- s32 remainder) in
    let quotient := if divisor >? 0 then u64 (- quotient) else quotient in
    Ok (s64 quotient, remainder)
  else
    '(quotient, remainder) ← div_u64_rem dividend (abs_u32 divisor);
    let quotient := if divisor <? 0 then u64 (- quotient) else quotient in
    Ok (s64 quotient, s32 remainder).

Definition div64_u64_rem (dividend divisor : Z) : outcome (Z * Z) :=
  let high := Z.shiftr divisor 32 in
  if high =? 0 then div_u64_rem dividend (u32 divisor)
  else
    let n := fls high in
    quot ← div_u64 (Z.shiftr dividend n) (u32 (Z.shiftr divisor n));
    let quot := if negb (quot =? 0) then quot - 1 else quot in
    let remainder := u64 (dividend - quot * divisor) in
    if remainder >=? divisor then Ok (u64 (quot + 1), u64 (remainder - divisor))
    else Ok (quot, remainder).

Definition div64_u64 (dividend divisor : Z) : outcome Z :=
  let high := Z.shiftr divisor 32 in
  if high =? 0 then div_u64 dividend (u32 divisor)
  else
    let n := fls high in
    quot ← div_u64 (Z.shiftr dividend n) (u32 (Z.shiftr divisor n));
    let quot := if negb (quot =? 0) then quot - 1 else quot in
    if u64 (dividend - quot * divisor) >=? divisor then Ok (u64 (quot + 1)) else Ok quot.

Definition div64_s64 (dividend divisor : Z) : outcome Z :=
  q ← div64_u64 (abs_u64 dividend) (abs_u64 divisor);
  let quot := s64 q in
  let t := Z.shiftr (Z.lxor dividend divisor) 63 in
  Ok (s64 (Z.lxor quot t - t)).

Fixpoint __iter_div_u64_rem (fuel : nat) (dividend divisor ret : Z) : outcome (Z * Z) :=
  match fuel with
  | O => NoFuel
  | S fuel =>
      if dividend >=? divisor then __iter_div_u64_rem fuel (u64 (dividend - divisor)) divisor (u32 (ret + 1))
      else Ok (ret, dividend)
  end.

Definition iter_div_u64_rem (dividend divisor : Z) : outcome (Z * Z) :=
  __iter_div_u64_rem (S (Z.to_nat (dividend / divisor))) dividend divisor 0.

Definition mul_u64_u64_div_u64 (a b c : Z) : outcome Z :=
  if __ilog2_u64 a + __ilog2_u64 b >? 62 then
    '(div, rem) ← div64_u64_rem b c;
    let res := u64 (div * a) in
    let b := rem in
    let shift := __ilog2_u64 a + __ilog2_u64 b - 62 in
    let '(b, c) := if shift >? 0 then (Z.shiftr b shift, Z.shiftr c shift) else (b, c) in
    if (shift >? 0) && (c =? 0) then Ok res
    else q ← div64_u64 (u64 (a * b)) c; Ok (u64 (res + q))
  else q ← div64_u64 (u64 (a * b)) c; Ok q.

(** ** Reciprocals *)

Record reciprocal_value_t := RV { rv_m : Z; rv_sh1 : Z; rv_sh2 : Z }.

Definition reciprocal_value (d : Z) : outcome reciprocal_value_t :=
  let l := fls (u32 (d - 1)) in
  let m := u64 (2 ^ 32 * u64 (Z.shiftl 1 l - d)) in
  '(m, _) ← do_div m d;
  Ok (RV (u32 (m + 1)) (Z.min l 1) (Z.max (l - 1) 0)).

Definition reciprocal_divide (a : Z) (R : reciprocal_value_t) : Z :=
  let t := u32 (Z.shiftr (u64 (a * rv_m R)) 32) in
  Z.shiftr (u32 (t + Z.shiftr (u32 (a - t)) (rv_sh1 R))) (rv_sh2 R).

Record reciprocal_value_adv_t := RVA { ra_m : Z; ra_sh : Z; ra_exp : Z; ra_is_wide_m : bool }.

Fixpoint adv_loop (fuel : nat) (mlow mhigh post_shift : Z) : outcome (Z * Z) :=
  match fuel with
  | O => NoFuel
  | S fuel =>
      if post_shift >? 0 then
        let lo := Z.shiftr mlow 1 in
        let hi := Z.shiftr mhigh 1 in
        if lo >=? hi then Ok (mhigh, post_shift) else adv_loop fuel lo hi (post_shift - 1)
      else Ok (mhigh, post_shift)
  end.

(** [prec] is at most [32 + l] where it is used as a shift count. *)
Definition reciprocal_value_adv (d prec : Z) : outcome reciprocal_value_adv_t :=
  let l := fls (u32 (d - 1)) in
  '(mlow, _) ← do_div (u64 (Z.shiftl 1 (32 + l))) d;
  '(mhigh, _) ← do_div (u64 (u64 (Z.shiftl 1 (32 + l)) + u64 (Z.shiftl 1 (32 + l - prec)))) d;
  '(mhigh, post_shift) ← adv_loop 33 mlow mhigh l;
  Ok (RVA (u32 mhigh) (u8 post_shift) (u8 l) (mhigh >? U32_MAX)).

(** ** gcd is the greatest common divisor *)

Section gcd_proof.
Context (undef : Z).

Lemma shift_out_spec x :
  0 < x < 2 ^ 32 -> x = 2 ^ __ffs undef x * shift_out undef x /\ Z.odd (shift_out undef x) = true /\
    0 < shift_out undef x <= x.
Proof.
  intros Hx. unfold shift_out. destruct (ffs_spec undef x Hx) as (t & q & -> & Ht & Hq & E).
  rewrite Z.shiftr_div_pow2 by lia.
  replace (x / 2 ^ t) with (2 * q + 1) by (apply Z.div_unique_exact; lia).
  csplit; [lia|by rewrite Z.add_comm, Z.odd_add_mul_2|lia|nia].
Qed.

Lemma gcd_double_odd a b : Z.odd b = true -> Z.gcd (2 * a) b = Z.gcd a b.
Proof.
  intros Hb. apply Z.divide_antisym_nonneg; try apply Z.gcd_nonneg.
  - apply Z.gcd_greatest; [|apply Z.gcd_divide_r].
    pose proof (Z.gcd_divide_l (2 * a) b) as H1. pose proof (Z.gcd_divide_r (2 * a) b) as H2.
    set (d := Z.gcd (2 * a) b) in *. apply (Z.gauss d 2 a H1).
    assert (Hd : Z.odd d = true).
    { destruct H2 as [k Hk]. rewrite Hk, Z.odd_mul in Hb. by apply andb_true_iff in Hb as [_ ?]. }
    destruct (proj1 (Z.odd_spec d) Hd) as [j ->]. rewrite Z.add_comm, (Z.mul_comm 2 j), Z.gcd_comm.
    by rewrite Z.gcd_add_mult_diag_r.
  - apply Z.gcd_greatest; [|apply Z.gcd_divide_r].
    apply Z.divide_mul_r, Z.gcd_divide_l.
Qed.

Lemma gcd_pow2_odd t a b : 0 <= t -> Z.odd b = true -> Z.gcd (2 ^ t * a) b = Z.gcd a b.
Proof.
  intros Ht Hb. revert t Ht. apply (natlike_ind (fun t => Z.gcd (2 ^ t * a) b = Z.gcd a b)).
  - by rewrite Z.mul_1_l.
  - intros t Ht IH. rewrite Z.pow_succ_r, <- Z.mul_assoc by lia. by rewrite gcd_double_odd.
Qed.

Lemma lor_ffs a b :
  0 < a < 2 ^ 32 -> 0 < b < 2 ^ 32 ->
  0 < Z.lor a b < 2 ^ 32 /\ __ffs undef (Z.lor a b) = Z.min (__ffs undef a) (__ffs undef b).
Proof.
  intros Ha Hb.
  assert (Hr : 0 < Z.lor a b < 2 ^ 32).
  { pose proof (Z.lor_nonneg a b). assert (Z.lor a b <> 0) by (rewrite Z.lor_eq_0_iff; lia).
    split; [lia|]. apply Z.log2_lt_pow2; [lia|]. rewrite Z.log2_lor by lia.
    pose proof (Z.log2_lt_pow2 a 32). pose proof (Z.log2_lt_pow2 b 32). lia. }
  split; [done|]. destruct (ffs_testbit undef a Ha) as (A0 & A1 & A2).
  destruct (ffs_testbit undef b Hb) as (B0 & B1 & B2).
  apply ffs_unique; [done|lia| |]; [rewrite Z.lor_spec; apply orb_true_iff|intros i Hi; rewrite Z.lor_spec; apply orb_false_iff].
  - destruct (Z.min_spec (__ffs undef a) (__ffs undef b)) as [[_ ->]|[_ ->]]; auto.
  - split; [apply A2|apply B2]; lia.
Qed.

Lemma low_bit r : 0 < r < 2 ^ 32 -> Z.land r (u32 (- r)) = 2 ^ __ffs undef r.
Proof.
  intros Hr. destruct (ffs_spec undef r Hr) as (t & q & -> & Ht & Hq & E).
  apply (land_neg_low_bit r t q); lia.
Qed.

Lemma gcd_loop_ok fuel r a b :
  0 < r < 2 ^ 32 -> 0 < a < 2 ^ 32 -> 1 < b < 2 ^ 32 -> Z.odd b = true ->
  2 ^ __ffs undef r * Z.gcd a b < 2 ^ 32 ->
  Z.log2 (shift_out undef a) + Z.log2 b < Z.of_nat fuel ->
  gcd_loop undef fuel r a b = Ok (2 ^ __ffs undef r * Z.gcd a b).
Proof.
  revert a b. induction fuel as [|fuel IH]; intros a b Hr Ha Hb Hob Hfit Hf.
  { pose proof (Z.log2_nonneg (shift_out undef a)). pose proof (Z.log2_nonneg b). lia. }
  cbn [gcd_loop]. destruct (shift_out_spec a Ha) as (Ea & Hoa & Hpos).
  destruct (ffs_testbit undef a Ha) as (Hta & _). pose proof (ffs_testbit undef r Hr) as (Htr & _).
  assert (Eg : Z.gcd a b = Z.gcd (shift_out undef a) b) by (rewrite Ea at 1; apply gcd_pow2_odd; done || lia).
  rewrite Eg in *. set (a1 := shift_out undef a) in *. clearbody a1.
  destruct (Z.eqb_spec a1 1) as [->|H1]; [by rewrite low_bit, Z.gcd_1_l, Z.mul_1_r|].
  destruct (Z.eqb_spec a1 b) as [->|Hne].
  { rewrite Z.gcd_diag, Z.abs_eq in * by lia. rewrite Z.shiftl_mul_pow2, Z.mul_comm, u32_small by lia. done. }
  assert (Hstep : forall hi lo, lo < hi -> hi < 2 ^ 32 -> 1 < lo -> Z.odd lo = true -> Z.odd hi = true ->
    Z.gcd hi lo = Z.gcd a1 b -> Z.log2 hi + Z.log2 lo = Z.log2 a1 + Z.log2 b ->
    gcd_loop undef fuel r (u32 (hi - lo)) lo = Ok (2 ^ __ffs undef r * Z.gcd a1 b)).
  { intros hi lo Hlt Hhi Hlo Hol Hoh Hg Hm. rewrite u32_small by lia.
    assert (Hg' : Z.gcd (hi - lo) lo = Z.gcd hi lo) by (by rewrite (Z.gcd_comm _ lo), Z.gcd_sub_diag_r, Z.gcd_comm).
    rewrite <- Hg, <- Hg'. apply IH; [done|lia|lia|done|by rewrite Hg', Hg|].
    destruct (shift_out_spec (hi - lo)) as (E & Ho & Hp); [lia|]. set (d := shift_out undef (hi - lo)) in *.
    destruct (ffs_testbit undef (hi - lo)) as (Ht & _ & _); [lia|].
    assert (Hne0 : __ffs undef (hi - lo) <> 0).
    { intros E0. rewrite E0, Z.mul_1_l in E. rewrite <- E, Z.odd_sub, Hoh, Hol in Ho. done. }
    assert (Hhalf : 2 * d <= hi - lo).
    { rewrite E. apply Z.mul_le_mono_nonneg_r; [lia|]. apply (Z.pow_le_mono_r 2 1); lia. }
    assert (Hlog : Z.log2 d + 1 <= Z.log2 hi).
    { rewrite Z.add_1_r, <- Z.log2_double by lia. apply Z.log2_le_mono. lia. }
    lia. }
  destruct (Z.ltb_spec a1 b) as [Hlt|Hge].
  - apply Hstep; try done; try lia. by rewrite Z.gcd_comm.
  - apply Hstep; try done; try lia.
Qed.

Lemma gcd_ok a b : 0 <= a < 2 ^ 32 -> 0 <= b < 2 ^ 32 -> gcd undef a b = Ok (Z.gcd a b).
Proof.
  intros Ha Hb. unfold gcd.
  destruct (Z.eqb_spec a 0) as [->|Ha0]; [by rewrite Z.lor_0_l, Z.gcd_0_l, Z.abs_eq by lia|].
  destruct (Z.eqb_spec b 0) as [->|Hb0]; [by rewrite Z.lor_0_r, Z.gcd_0_r, Z.abs_eq by lia|]. cbn [orb].
  destruct (lor_ffs a b) as [Hr Er]; [lia|lia|]. destruct (shift_out_spec b) as (Eb & Hob & Hpb); [lia|].
  destruct (shift_out_spec a) as (Ea & Hoa & Hpa); [lia|].
  destruct (ffs_testbit undef a) as (Hta & _); [lia|]. destruct (ffs_testbit undef b) as (Htb & _); [lia|].
  assert (Eg : Z.gcd a b = 2 ^ __ffs undef (Z.lor a b) * Z.gcd a (shift_out undef b)).
  { replace (Z.gcd a (shift_out undef b)) with (Z.gcd (shift_out undef a) (shift_out undef b))
      by (rewrite Ea at 2; rewrite gcd_pow2_odd; done || lia).
    transitivity (Z.gcd (2 ^ __ffs undef a * shift_out undef a) (2 ^ __ffs undef b * shift_out undef b));
      [by rewrite <- Ea, <- Eb|]. rewrite Er. clear Er.
    set (t := __ffs undef a) in *. set (u := __ffs undef b) in *.
    set (o := shift_out undef a) in *. set (p := shift_out undef b) in *. clearbody t u o p.
    destruct (Z.le_ge_cases t u).
    - rewrite Z.min_l by lia. replace (2 ^ u * p) with (2 ^ t * (2 ^ (u - t) * p))
        by (rewrite Z.mul_assoc, <- Z.pow_add_r by lia; do 2 f_equal; lia).
      rewrite Z.gcd_mul_mono_l_nonneg by lia. f_equal. rewrite Z.gcd_comm, gcd_pow2_odd by (done || lia).
      apply Z.gcd_comm.
    - rewrite Z.min_r by lia. replace (2 ^ t * o) with (2 ^ u * (2 ^ (t - u) * o))
        by (rewrite Z.mul_assoc, <- Z.pow_add_r by lia; do 2 f_equal; lia).
      rewrite Z.gcd_mul_mono_l_nonneg by lia. f_equal. by rewrite gcd_pow2_odd by (done || lia). }
  destruct (Z.eqb_spec (shift_out undef b) 1) as [E1|H1].
  { rewrite Eg, E1, low_bit, Z.gcd_1_r by done. f_equal. lia. }
  rewrite Eg. apply gcd_loop_ok; try done; try lia.
  - rewrite <- Eg. pose proof (Z.divide_pos_le (Z.gcd a b) a ltac:(lia) (Z.gcd_divide_l a b)). lia.
  - unfold gcd_fuel. pose proof (Z.log2_lt_pow2 (shift_out undef a) 32). pose proof (Z.log2_lt_pow2 (shift_out undef b) 32). lia.
Qed.
End gcd_proof.

(** [gcd] terminates with the greatest common divisor, also when an
    argument is 0, and [lcm] returns the least common multiple modulo 2^32. *)
Theorem gcd_lcm_spec undef a b :
  0 <= a < 2 ^ 32 -> 0 <= b < 2 ^ 32 ->
  gcd undef a b = Ok (Z.gcd a b) /\ lcm undef a b = Ok (u32 (Z.lcm a b)).
Proof.
  intros Ha Hb. split; [by apply gcd_ok|]. unfold lcm. rewrite gcd_ok by done.
  destruct (Z.eqb_spec a 0) as [->|Ha0]; [done|]. destruct (Z.eqb_spec b 0) as [->|Hb0]; [by rewrite Z.lcm_0_r|].
  cbn [negb andb]. rewrite bind_Ok. unfold c_div.
  assert (Hg : Z.gcd a b <> 0) by (rewrite Z.gcd_eq_0; lia). rewrite (proj2 (Z.eqb_neq _ _) Hg), bind_Ok.
  unfold Z.lcm. pose proof (Z.gcd_nonneg a b). rewrite Z.abs_eq by (apply Z.mul_nonneg_nonneg; [lia|apply Z.div_pos; lia]).
  do 2 f_equal. rewrite (Z.mul_comm (a / _)), <- !Z.divide_div_mul_exact; auto using Z.gcd_divide_l, Z.gcd_divide_r.
  f_equal. lia.
Qed.

Lemma gcd_lcm_spec_witness : gcd 0 360 84 = Ok 12 /\ lcm 0 360 84 = Ok 2520.
Proof. destruct (gcd_lcm_spec 0 360 84) as [-> ->]; [lia|lia|]. split; reflexivity. Defined.

(** ** The square root *)

(** The root is known down to its [n] lowest bits, which are 0 in [s]. *)
Lemma sqrt_loop_ok n fuel X s :
  0 <= X < 2 ^ 32 -> (n <= 16)%nat -> (n < fuel)%nat -> (2 ^ Z.of_nat n | s) -> 0 <= s ->
  s * s <= X < (s + 2 ^ Z.of_nat n) * (s + 2 ^ Z.of_nat n) ->
  sqrt_loop fuel (X - s * s) (s * 2 ^ Z.of_nat n)
    (match n with O => 0 | S n => 2 ^ Z.of_nat n * 2 ^ Z.of_nat n end) = Ok (Z.sqrt X).
Proof.
  revert fuel s. induction n as [|n IH]; intros [|fuel] s HX Hn Hf [j Ej] Hs Hle; try lia; cbn [sqrt_loop].
  { f_equal. change (2 ^ Z.of_nat 0) with 1 in *. rewrite Z.mul_1_r. symmetry. apply Z.sqrt_unique. lia. }
  rewrite Nat2Z.inj_succ, Z.pow_succ_r in * by lia. set (u := 2 ^ Z.of_nat n) in *.
  assert (Hu : 0 < u <= 2 ^ 15) by (unfold u; split; [lia|apply Z.pow_le_mono_r; lia]).
  assert (Hs16 : s < 2 ^ 16) by nia.
  assert (Hdiv : exists v, 2 ^ 16 = v * (2 * u)).
  { exists (2 ^ (15 - Z.of_nat n)). unfold u. rewrite <- Z.pow_succ_r, <- Z.pow_add_r by lia. f_equal. lia. }
  destruct Hdiv as [v Ev]. assert (Hjv : j + 1 <= v) by nia.
  assert (Hb : s * (2 * u) + u * u < 2 ^ 32) by nia.
  rewrite (proj2 (Z.eqb_neq _ _)) by nia. cbn [negb]. rewrite (u32_small (_ + u * u)) by nia.
  rewrite !Z.shiftr_div_pow2 by lia. change (2 ^ 1) with 2. change (2 ^ 2) with 4.
  replace (s * (2 * u) / 2) with (s * u) by (apply Z.div_unique_exact; lia).
  assert (Em : u * u / 4 = match n with O => 0 | S n => 2 ^ Z.of_nat n * 2 ^ Z.of_nat n end).
  { unfold u. destruct n as [|n]; [done|]. rewrite Nat2Z.inj_succ, Z.pow_succ_r by lia.
    symmetry. apply Z.div_unique_exact; lia. }
  rewrite Em. rewrite Z.geb_leb. destruct (Z.leb_spec (s * (2 * u) + u * u) (X - s * s)) as [Hge|Hlt].
  - rewrite !u32_small by nia. replace (X - s * s - (s * (2 * u) + u * u)) with (X - (s + u) * (s + u)) by lia.
    replace (s * u + u * u) with ((s + u) * u) by lia. apply IH; [lia|lia|lia|exists (2 * j + 1); lia|lia|nia].
  - apply IH; [lia|lia|lia|exists (2 * j); lia|lia|nia].
Qed.

(** [int_sqrt] is the integer square root. *)
Theorem int_sqrt_spec undef x : 0 <= x < 2 ^ 32 -> int_sqrt undef x = Ok (Z.sqrt x).
Proof.
  intros Hx. unfold int_sqrt. destruct (Z.leb_spec x 1) as [H1|H1].
  { assert (x = 0 \/ x = 1) as [-> | ->] by lia; done. }
  unfold __fls. rewrite (proj2 (Z.eqb_neq _ _)) by lia.
  change (Z.land (Z.log2 x) (U32_MAX - 1)) with (round_down (Z.log2 x) 2).
  pose proof (Z.log2_lt_pow2 x 32) as Hl. pose proof (Z.log2_nonneg x).
  rewrite (round_down_spec _ 2 1) by (try split; lia || done). pose proof (Z.div_mod (Z.log2 x) 2). pose proof (Z.mod_pos_bound (Z.log2 x) 2).
  set (k := Z.log2 x / 2) in *. replace (Z.log2 x - _) with (k + k) by lia.
  rewrite Z.shiftl_mul_pow2, Z.mul_1_l by lia.
  assert (Hk : 0 <= k < 16) by lia.
  assert (2 ^ (k + k) < 2 ^ 32) by (apply Z.pow_lt_mono_r; lia). rewrite u32_small by lia.
  pose proof (sqrt_loop_ok (S (Z.to_nat k)) 17 x 0) as Hok. cbn beta iota in Hok.
  rewrite (Z2Nat.id k) in Hok by lia. rewrite Z.sub_0_r, Z.mul_0_l in Hok.
  rewrite Z.pow_add_r by lia. apply Hok; [lia|lia|lia|apply Z.divide_0_r|lia|].
  split; [lia|]. rewrite Nat2Z.inj_succ, Z2Nat.id, Z.add_0_l, <- Z.pow_add_r by lia.
  apply Z.log2_lt_pow2; lia.
Qed.

Lemma int_sqrt_spec_witness : int_sqrt 0 4294967295 = Ok 65535.
Proof. rewrite int_sqrt_spec by lia. reflexivity. Defined.

(** ** 64-bit division *)

Lemma divl_ok hi lo base :
  0 <= hi < base -> 0 <= lo < 2 ^ 32 -> base < 2 ^ 32 ->
  let n := hi * 2 ^ 32 + lo in divl hi lo base = Ok (n / base, n mod base) /\ 0 <= n / base < 2 ^ 32.
Proof.
  intros Hh Hl Hb n. assert (Hq : 0 <= n / base < 2 ^ 32).
  { unfold n. split; [apply Z.div_pos; lia|]. apply Z.div_lt_upper_bound; nia. }
  split; [|done]. unfold divl. fold n. rewrite (proj2 (Z.eqb_neq _ _)), (proj2 (Z.leb_gt _ _)) by lia. done.
Qed.

(** The two steps of a long division in base [2^32]. *)
Lemma long_division n d :
  0 <= n < 2 ^ 64 -> 0 < d < 2 ^ 32 ->
  let up := n / 2 ^ 32 in let m := up mod d * 2 ^ 32 + n mod 2 ^ 32 in
  divl (up mod d) (u32 n) d = Ok (m / d, m mod d) /\
  Z.lor (m / d) (Z.shiftl (up / d) 32) = n / d /\ m mod d = n mod d.
Proof.
  intros Hn Hd up m. pose proof (Z.mod_pos_bound up d ltac:(lia)) as Hr.
  pose proof (Z.mod_pos_bound n (2 ^ 32) ltac:(lia)) as Hlo.
  destruct (divl_ok (up mod d) (u32 n) d) as [E Hq]; [done|done|lia|]. fold (u32 n) in *.
  split; [exact E|]. fold m in Hq. rewrite Z.shiftl_mul_pow2, lor_disjoint by (done || lia).
  pose proof (Z.div_mod n (2 ^ 32) ltac:(lia)) as En. fold up in En. pose proof (Z.div_mod up d ltac:(lia)) as Eu.
  pose proof (Z.div_mod m d ltac:(lia)) as Em. pose proof (Z.mod_pos_bound m d ltac:(lia)).
  assert (Ediv : n = d * (m / d + up / d * 2 ^ 32) + m mod d).
  { assert (Hm : m = up mod d * 2 ^ 32 + n mod 2 ^ 32) by done. clearbody m up. lia. }
  split; [by apply (Z.div_unique_pos _ _ _ (m mod d))|by apply (Z.mod_unique_pos _ _ (m / d + up / d * 2 ^ 32))].
Qed.

Lemma div_u64_rem_ok n d :
  0 <= n < 2 ^ 64 -> 0 < d < 2 ^ 32 -> div_u64_rem n d = Ok (n / d, n mod d).
Proof.
  intros Hn Hd. destruct (long_division n d Hn Hd) as (E & Eq & Er). unfold div_u64_rem.
  rewrite Z.shiftr_div_pow2 by lia. set (up := n / 2 ^ 32) in *.
  assert (Hup : 0 <= up) by (apply Z.div_pos; lia).
  assert (Eif : (if up >=? d then q ← c_div up d; m ← c_mod up d; Ok (q, m) else Ok (0, up)) = Ok (up / d, up mod d)).
  { rewrite Z.geb_leb. destruct (Z.leb_spec d up).
    - unfold c_div, c_mod. rewrite (proj2 (Z.eqb_neq d 0)) by lia. done.
    - by rewrite Z.div_small, Z.mod_small by lia. }
  rewrite Eif, bind_Ok. cbn beta iota. rewrite E, bind_Ok. cbn beta iota. by rewrite Eq, Er.
Qed.

Lemma do_div_ok n d : 0 <= n < 2 ^ 64 -> 0 < d < 2 ^ 32 -> do_div n d = Ok (n / d, n mod d).
Proof.
  intros Hn Hd. destruct (long_division n d Hn Hd) as (E & Eq & Er). unfold do_div.
  rewrite Z.shiftr_div_pow2 by lia. set (up := n / 2 ^ 32) in *.
  assert (Eif : (if negb (up =? 0) then m ← c_mod up d; q ← c_div up d; Ok (m, q) else Ok (up, up)) = Ok (up mod d, up / d)).
  { destruct (Z.eqb_spec up 0) as [->|]; cbn [negb].
    - by rewrite Z.div_0_l, Z.mod_0_l by lia.
    - unfold c_div, c_mod. rewrite (proj2 (Z.eqb_neq d 0)) by lia. done. }
  rewrite Eif, bind_Ok. cbn beta iota. rewrite E, bind_Ok. cbn beta iota. by rewrite Eq, Er.
Qed.

Lemma div_u64_ok n d : 0 <= n < 2 ^ 64 -> 0 < d < 2 ^ 32 -> div_u64 n d = Ok (n / d).
Proof. intros Hn Hd. unfold div_u64. by rewrite div_u64_rem_ok. Qed.

Lemma fls_spec x : 0 < x -> 0 < fls x /\ 2 ^ (fls x - 1) <= x < 2 ^ fls x.
Proof.
  intros Hx. unfold fls. rewrite (proj2 (Z.eqb_neq _ _)) by lia. pose proof (Z.log2_nonneg x).
  rewrite Z.add_simpl_r. pose proof (Z.log2_spec x Hx). split; [lia|done].
Qed.

(** The estimate from the leading bits is the quotient or one more. *)
Lemma estimate N D n :
  0 <= N < 2 ^ 64 -> 1 <= n <= 32 -> 2 ^ 31 * 2 ^ n <= D < 2 ^ 32 * 2 ^ n ->
  let e := N / 2 ^ n / (D / 2 ^ n) in N / D <= e <= N / D + 1.
Proof.
  intros HN Hn HD e. set (s := 2 ^ n) in *.
  assert (Hs : 2 <= s <= 2 ^ 32) by (unfold s; split; [apply (Z.pow_le_mono_r 2 1)|apply Z.pow_le_mono_r]; lia).
  pose proof (Z.div_mod N D ltac:(lia)) as EN. pose proof (Z.mod_pos_bound N D ltac:(lia)) as HrN.
  pose proof (Z.div_mod D s ltac:(lia)) as ED. pose proof (Z.mod_pos_bound D s ltac:(lia)) as HrD.
  pose proof (Z.div_mod N s ltac:(lia)) as ES. pose proof (Z.mod_pos_bound N s ltac:(lia)) as HrS.
  set (q := N / D) in *. set (D' := D / s) in *. set (N' := N / s) in *. set (d := D mod s) in *.
  assert (Hq0 : 0 <= q) by (apply Z.div_pos; lia).
  assert (HD' : 2 ^ 31 <= D') by (apply Z.div_le_lower_bound; lia).
  split.
  - unfold e. apply Z.div_le_lower_bound; [lia|].
    enough (D' * q < N' + 1) by lia. apply (Zmult_lt_reg_r _ _ s); nia.
  - enough (e < q + 2) by lia. unfold e. apply Z.div_lt_upper_bound; [lia|].
    destruct (Z.lt_ge_cases N' (D' * (q + 2))) as [|Hge]; [done|exfalso].
    assert (Hbad : s * D' < (q + 1) * d).
    { assert (s * (D' * (q + 2)) <= N) by nia. nia. }
    assert (Hqs : q * s < 2 ^ 33) by nia.
    assert (Hs4 : s <= 4).
    { assert ((q + 2) * s > D) by nia. nia. }
    assert (Hn2 : n = 1 \/ n = 2).
    { destruct (Z.le_gt_cases n 2); [lia|]. pose proof (Z.pow_le_mono_r 2 3 n). unfold s in Hs4. lia. }
    assert (s = 2 \/ s = 4) as [Es|Es] by (unfold s; destruct Hn2 as [-> | ->]; lia); rewrite Es in *; nia.
Qed.

Lemma high_fls D :
  2 ^ 32 <= D < 2 ^ 64 -> let n := fls (D / 2 ^ 32) in
  1 <= n <= 32 /\ 2 ^ 31 * 2 ^ n <= D < 2 ^ 32 * 2 ^ n.
Proof.
  intros HD n. assert (Hh : 1 <= D / 2 ^ 32 < 2 ^ 32).
  { split; [apply Z.div_le_lower_bound; lia|apply Z.div_lt_upper_bound; lia]. }
  destruct (fls_spec (D / 2 ^ 32)) as [H0 [H1 H2]]; [lia|]. fold n in H0, H1, H2.
  assert (Hn : n <= 32).
  { destruct (Z.le_gt_cases n 32); [done|]. pose proof (Z.pow_le_mono_r 2 32 (n - 1)). lia. }
  pose proof (Z.div_mod D (2 ^ 32) ltac:(lia)). pose proof (Z.mod_pos_bound D (2 ^ 32) ltac:(lia)).
  assert (E : 2 ^ n = 2 * 2 ^ (n - 1)) by (rewrite <- Z.pow_succ_r by lia; f_equal; lia).
  split; [lia|]. rewrite E in *. lia.
Qed.

(** The estimate as the code computes it. *)
Lemma estimate_ok N D :
  0 <= N < 2 ^ 64 -> 2 ^ 32 <= D < 2 ^ 64 -> let n := fls (D / 2 ^ 32) in
  exists e, div_u64 (Z.shiftr N n) (u32 (Z.shiftr D n)) = Ok e /\ N / D <= e <= N / D + 1.
Proof.
  intros HN HD n. destruct (high_fls D HD) as [Hn HDn]. fold n in Hn, HDn.
  assert (Hs : 0 < 2 ^ n) by lia.
  assert (HD' : 2 ^ 31 <= D / 2 ^ n < 2 ^ 32) by (split; [apply Z.div_le_lower_bound|apply Z.div_lt_upper_bound]; lia).
  assert (HN' : 0 <= N / 2 ^ n < 2 ^ 64).
  { split; [apply Z.div_pos; lia|]. apply Z.div_lt_upper_bound; nia. }
  rewrite !Z.shiftr_div_pow2, u32_small, div_u64_ok by lia.
  eexists. split; [reflexivity|]. by apply estimate.
Qed.

(** Correcting it. *)
Lemma correct_estimate N D e :
  0 <= N < 2 ^ 64 -> 0 < D < 2 ^ 64 -> N / D <= e <= N / D + 1 ->
  let quot := if negb (e =? 0) then e - 1 else e in
  let rem := u64 (N - quot * D) in
  (if rem >=? D then (u64 (quot + 1), u64 (rem - D)) else (quot, rem)) = (N / D, N mod D).
Proof.
  intros HN HD He quot rem. pose proof (Z.div_mod N D ltac:(lia)) as EN.
  pose proof (Z.mod_pos_bound N D ltac:(lia)) as HrN. assert (Hq0 : 0 <= N / D) by (apply Z.div_pos; lia).
  assert (Hq64 : N / D < 2 ^ 64) by (apply Z.div_lt_upper_bound; nia). set (q := N / D) in *.
  assert (Hquot : quot = q \/ (quot = q - 1 /\ 1 <= q)) by (unfold quot; destruct (Z.eqb_spec e 0); cbn [negb]; lia).
  unfold rem. rewrite Z.geb_leb. destruct Hquot as [-> |[-> H1]].
  - replace (N - q * D) with (N mod D) by lia. rewrite (u64_small (N mod D)) by lia.
    by rewrite (proj2 (Z.leb_gt _ _)) by lia.
  - replace (N - (q - 1) * D) with (N mod D + D) by lia. rewrite (u64_small (N mod D + D)) by nia.
    rewrite (proj2 (Z.leb_le _ _)) by lia. rewrite !u64_small by lia. f_equal; lia.
Qed.

Lemma div64_u64_rem_ok N D :
  0 <= N < 2 ^ 64 -> 0 < D < 2 ^ 64 -> div64_u64_rem N D = Ok (N / D, N mod D).
Proof.
  intros HN HD. unfold div64_u64_rem. rewrite Z.shiftr_div_pow2 by lia.
  pose proof (Z.div_mod D (2 ^ 32) ltac:(lia)). pose proof (Z.mod_pos_bound D (2 ^ 32) ltac:(lia)).
  destruct (Z.eqb_spec (D / 2 ^ 32) 0) as [E|E].
  { rewrite u32_small by lia. apply div_u64_rem_ok; lia. }
  assert (0 <= D / 2 ^ 32) by (apply Z.div_pos; lia).
  destruct (estimate_ok N D) as (e & -> & He); [done|lia|]. rewrite bind_Ok. cbn zeta.
  rewrite <- (correct_estimate N D e HN HD He). by case_cmp.
Qed.

Lemma div64_u64_ok N D : 0 <= N < 2 ^ 64 -> 0 < D < 2 ^ 64 -> div64_u64 N D = Ok (N / D).
Proof.
  intros HN HD. unfold div64_u64. rewrite Z.shiftr_div_pow2 by lia.
  pose proof (Z.div_mod D (2 ^ 32) ltac:(lia)). pose proof (Z.mod_pos_bound D (2 ^ 32) ltac:(lia)).
  destruct (Z.eqb_spec (D / 2 ^ 32) 0) as [E|E].
  { rewrite u32_small by lia. apply div_u64_ok; lia. }
  assert (0 <= D / 2 ^ 32) by (apply Z.div_pos; lia).
  destruct (estimate_ok N D) as (e & -> & He); [done|lia|]. rewrite bind_Ok. cbn zeta.
  pose proof (correct_estimate N D e HN HD He) as Hc. cbn zeta in Hc. revert Hc.
  case_cmp; intros Hc; by injection Hc as -> _.
Qed.

(** The shift-and-subtract division: first the divisor is doubled past the
    dividend, then the quotient is read off bit by bit. *)
Section shift_subtract.
Context (base : Z) (Hbase : 0 < base < 2 ^ 32).

Lemma div64_up_ok fuel rem k :
  0 <= k -> 0 <= rem < 2 ^ 64 -> base * 2 ^ k < 2 ^ 64 -> 64 - k < Z.of_nat fuel ->
  exists k', div64_up fuel rem (base * 2 ^ k) (2 ^ k) = Ok (base * 2 ^ k', 2 ^ k') /\
    0 <= k' < 64 /\ rem < 2 * (base * 2 ^ k') /\ base * 2 ^ k' < 2 ^ 64.
Proof.
  revert k. induction fuel as [|fuel IH]; intros k Hk Hrem Hfit Hf; cbn [div64_up].
  { assert (2 ^ 64 <= 2 ^ k) by (apply Z.pow_le_mono_r; lia). nia. }
  assert (Hpos : 0 < base * 2 ^ k) by lia.
  assert (Hk64 : k < 64) by (apply (Z.pow_lt_mono_r_iff 2); nia).
  destruct (decide (base * 2 ^ k < 2 ^ 63 /\ base * 2 ^ k < rem)) as [[H1 H2]|Hno].
  - rewrite s64_small by lia. rewrite (proj2 (Z.ltb_lt _ rem)) by lia.
    rewrite Z.gtb_ltb, (proj2 (Z.ltb_lt 0 _)) by lia. cbn [andb].
    assert (2 ^ k <= base * 2 ^ k) by nia. assert (E : 2 ^ (k + 1) = 2 ^ k * 2) by (rewrite Z.pow_add_r; lia).
    rewrite !u64_small by lia. replace (base * 2 ^ k + base * 2 ^ k) with (base * 2 ^ (k + 1)) by lia.
    replace (2 ^ k + 2 ^ k) with (2 ^ (k + 1)) by lia. apply IH; lia.
  - exists k. replace ((s64 (base * 2 ^ k) >? 0) && (base * 2 ^ k <? rem)) with false; [csplit; done || lia|].
    symmetry. apply andb_false_iff. destruct (Z.lt_ge_cases (base * 2 ^ k) (2 ^ 63)); [right; lia|left].
    replace (s64 (base * 2 ^ k)) with (base * 2 ^ k - 2 ^ 64); [lia|].
    unfold s64. rewrite <- (Z_mod_plus_full _ (-1)), Z.mod_small; lia.
Qed.

Lemma div64_down_ok k : forall fuel rem res,
  (k < fuel)%nat -> 0 <= rem < 2 * (base * 2 ^ Z.of_nat k) -> 0 <= res -> res + rem / base < 2 ^ 64 ->
  rem < 2 ^ 64 ->
  div64_down fuel rem res (base * 2 ^ Z.of_nat k) (2 ^ Z.of_nat k) = Ok (res + rem / base, rem mod base).
Proof.
  induction k as [|k IH]; intros [|fuel] rem res Hf Hrem Hres Hfit H64; try lia; cbn [div64_down].
  - change (2 ^ Z.of_nat 0) with 1 in *. rewrite Z.mul_1_r in *. change (Z.shiftr 1 1) with 0. cbn [Z.eqb negb].
    rewrite Z.geb_leb. destruct (Z.leb_spec base rem).
    + replace (rem / base) with 1 in * by (apply (Z.div_unique_pos _ _ _ (rem - base)); lia).
      rewrite !u64_small by lia. f_equal. f_equal. apply (Z.mod_unique_pos _ _ 1); lia.
    + by rewrite Z.div_small, Z.mod_small, Z.add_0_r by lia.
  - rewrite Nat2Z.inj_succ, Z.pow_succ_r in * by lia. set (p := 2 ^ Z.of_nat k) in *.
    assert (Hp : 0 < p) by (unfold p; lia).
    replace (Z.shiftr (base * (2 * p)) 1) with (base * p)
      by (rewrite Z.shiftr_div_pow2 by lia; apply Z.div_unique_exact; lia).
    replace (Z.shiftr (2 * p) 1) with p by (rewrite Z.shiftr_div_pow2 by lia; apply Z.div_unique_exact; lia).
    rewrite (proj2 (Z.eqb_neq p 0)) by lia. cbn [negb].
    rewrite Z.geb_leb. destruct (Z.leb_spec (base * (2 * p)) rem) as [Hge|Hlt].
    + assert (E : rem / base = 2 * p + (rem - base * (2 * p)) / base).
      { rewrite <- (Z.div_add_l (2 * p)) by lia. f_equal. lia. }
      assert (Em : rem mod base = (rem - base * (2 * p)) mod base).
      { rewrite <- (Z_mod_plus_full (rem - _) (2 * p)). f_equal. lia. }
      pose proof (Z.div_pos (rem - base * (2 * p)) base). rewrite !u64_small by lia.
      rewrite (IH fuel (rem - base * (2 * p)) (res + 2 * p)) by lia. rewrite E, Em. do 2 f_equal. lia.
    + by apply IH; lia.
Qed.

Lemma div64_32_ok n : 0 <= n < 2 ^ 64 -> __div64_32 n base = Ok (n / base, n mod base).
Proof.
  intros Hn. unfold __div64_32. rewrite Z.shiftr_div_pow2 by lia. set (high := n / 2 ^ 32).
  assert (Hh : 0 <= high < 2 ^ 32).
  { unfold high. split; [apply Z.div_pos|apply Z.div_lt_upper_bound]; lia. }
  pose proof (Z.div_mod n (2 ^ 32) ltac:(lia)) as En. pose proof (Z.mod_pos_bound n (2 ^ 32) ltac:(lia)) as Hlo.
  fold high in En. pose proof (Z.div_mod high base ltac:(lia)) as Eh.
  pose proof (Z.mod_pos_bound high base ltac:(lia)). set (h := high / base) in *.
  assert (Hh0 : 0 <= h < 2 ^ 32) by (unfold h; split; [apply Z.div_pos; lia|apply Z.div_lt_upper_bound; nia]).
  set (rem := n - h * base * 2 ^ 32). assert (Hrem : 0 <= rem < base * 2 ^ 32) by (unfold rem; nia).
  assert (Eq : n / base = h * 2 ^ 32 + rem / base).
  { rewrite <- (Z.div_add_l (h * 2 ^ 32)) by lia. f_equal. unfold rem. lia. }
  assert (Em : n mod base = rem mod base).
  { unfold rem. rewrite <- (Z_mod_plus_full (n - _) (h * 2 ^ 32)). f_equal. lia. }
  assert (Eif : (if high >=? base then high ← c_div high base;
                      Ok (Z.shiftl high 32, u64 (n - Z.shiftl (u32 (high * base)) 32)) else Ok (0, n))
                = Ok (h * 2 ^ 32, rem)).
  { rewrite Z.geb_leb. destruct (Z.leb_spec base high).
    - unfold c_div. rewrite (proj2 (Z.eqb_neq base 0)) by lia. rewrite bind_Ok. fold h.
      rewrite !Z.shiftl_mul_pow2 by lia. rewrite (u32_small (h * base)) by nia. fold rem.
      by rewrite u64_small by lia.
    - unfold rem, h. rewrite Z.div_small by lia. do 3 f_equal; lia. }
  rewrite Eif, bind_Ok. cbn beta iota.
  destruct (div64_up_ok 65 rem 0) as (k & E & Hk & Hlt & Hfit); [lia|lia|lia|lia|].
  rewrite Z.mul_1_r in E. change (2 ^ 0) with 1 in E. rewrite E, bind_Ok. cbn beta iota.
  assert (Hq64 : n / base < 2 ^ 64) by (apply Z.div_lt_upper_bound; nia).
  pose proof (div64_down_ok (Z.to_nat k) 65 rem (h * 2 ^ 32)) as Hd. rewrite Z2Nat.id in Hd by lia.
  rewrite Hd by lia. rewrite bind_Ok. cbn beta iota. rewrite <- Em, <- Eq.
  pose proof (Z.mod_pos_bound n base ltac:(lia)). by rewrite u32_small by lia.
Qed.
End shift_subtract.

(** The four unsigned 64-bit divisions return the exact quotient and
    remainder for every divisor but 0 and never execute a division that
    faults: the one by a 32-bit divisor in two steps, the shift-and-subtract
    fallback, and the ones by a 64-bit divisor that correct an estimate. *)
Theorem div64_spec n d :
  0 <= n < 2 ^ 64 -> 0 < d < 2 ^ 64 ->
  div64_u64_rem n d = Ok (n / d, n mod d) /\ div64_u64 n d = Ok (n / d) /\
  (d < 2 ^ 32 -> div_u64_rem n d = Ok (n / d, n mod d) /\ __div64_32 n d = Ok (n / d, n mod d)).
Proof.
  intros Hn Hd. csplit; [by apply div64_u64_rem_ok|by apply div64_u64_ok|].
  intros Hlt. split; [apply div_u64_rem_ok|apply div64_32_ok]; lia.
Qed.

Lemma div64_spec_witness :
  div64_u64_rem 18446744073709551615 8589934593 = Ok (2147483647, 6442450944).
Proof. destruct (div64_spec 18446744073709551615 8589934593) as (-> & _ & _); [lia|lia|]. reflexivity. Defined.

(** ** Signed division *)

Lemma s64_u64 x : s64 (u64 x) = s64 x.
Proof. unfold s64, u64. by rewrite Zplus_mod_idemp_l. Qed.

Lemma s64_opp_s64 x : s64 (- s64 x) = s64 (- x).
Proof.
  unfold s64. f_equal.
  replace (- ((x + 2 ^ 63) mod 2 ^ 64 - 2 ^ 63) + 2 ^ 63) with (2 ^ 64 - (x + 2 ^ 63) mod 2 ^ 64) by lia.
  rewrite Zminus_mod_idemp_r. replace (2 ^ 64 - (x + 2 ^ 63)) with (- x + 2 ^ 63) by lia. done.
Qed.

Lemma quot_abs n d : d <> 0 ->
  Z.quot n d = (if xorb (n <? 0) (d <? 0) then - (Z.abs n / Z.abs d) else Z.abs n / Z.abs d).
Proof.
  intros Hd. rewrite Z.quot_div by done.
  destruct (Z.ltb_spec n 0), (Z.ltb_spec d 0); cbn [xorb]; rewrite ?(Z.sgn_neg n), ?(Z.sgn_neg d), ?(Z.sgn_pos d) by lia.
  all: try lia.
  - destruct (decide (n = 0)) as [->|]; [by rewrite Z.abs_0, Z.div_0_l by lia|]. rewrite Z.sgn_pos by lia. lia.
  - destruct (decide (n = 0)) as [->|]; [by rewrite Z.abs_0, Z.div_0_l by lia|]. rewrite Z.sgn_pos by lia. lia.
Qed.

Lemma rem_abs n d : d <> 0 -> Z.rem n d = (if n <? 0 then - (Z.abs n mod Z.abs d) else Z.abs n mod Z.abs d).
Proof.
  intros Hd. rewrite Z.rem_mod by done. destruct (Z.ltb_spec n 0); [rewrite Z.sgn_neg by lia; lia|].
  destruct (decide (n = 0)) as [->|]; [by rewrite Z.abs_0, Z.mod_0_l by lia|]. rewrite Z.sgn_pos by lia. lia.
Qed.

Lemma div_s64_rem_ok n d :
  - 2 ^ 63 <= n < 2 ^ 63 -> - 2 ^ 31 <= d < 2 ^ 31 -> d <> 0 ->
  div_s64_rem n d = Ok (s64 (Z.quot n d), Z.rem n d).
Proof.
  intros Hn Hd Hd0. unfold div_s64_rem.
  assert (Ed : abs_u32 d = Z.abs d) by (unfold abs_u32; destruct (Z.ltb_spec d 0); rewrite u32_small; lia).
  rewrite quot_abs, rem_abs, Ed by done. pose proof (Z.mod_pos_bound (Z.abs n) (Z.abs d) ltac:(lia)).
  destruct (Z.ltb_spec n 0) as [Hneg|Hpos].
  - rewrite (u64_small (- n)), div_u64_rem_ok, bind_Ok by lia. cbn beta iota.
    replace (- n) with (Z.abs n) by lia. rewrite (s32_small (Z.abs n mod Z.abs d)), s32_small by lia.
    rewrite Z.gtb_ltb. destruct (Z.ltb_spec d 0), (Z.ltb_spec 0 d); try lia; cbn [xorb]; by rewrite ?s64_u64.
  - replace n with (Z.abs n) at 1 by lia. rewrite div_u64_rem_ok, bind_Ok by lia. cbn beta iota.
    rewrite (s32_small (Z.abs n mod Z.abs d)) by lia. destruct (Z.ltb_spec d 0); cbn [xorb]; by rewrite ?s64_u64.
Qed.

Lemma sign_word n : - 2 ^ 63 <= n < 2 ^ 63 -> Z.shiftr n 63 = if n <? 0 then -1 else 0.
Proof.
  intros Hn. rewrite Z.shiftr_div_pow2 by lia. symmetry. destruct (Z.ltb_spec n 0).
  - apply (Z.div_unique_pos _ _ _ (n + 2 ^ 63)); lia.
  - apply (Z.div_unique_pos _ _ _ n); lia.
Qed.

Lemma div64_s64_ok n d :
  - 2 ^ 63 <= n < 2 ^ 63 -> - 2 ^ 63 <= d < 2 ^ 63 -> d <> 0 -> div64_s64 n d = Ok (s64 (Z.quot n d)).
Proof.
  intros Hn Hd Hd0. unfold div64_s64.
  assert (Ea : forall x, - 2 ^ 63 <= x < 2 ^ 63 -> abs_u64 x = Z.abs x)
    by (intros x Hx; unfold abs_u64; destruct (Z.ltb_spec x 0); rewrite u64_small; lia).
  rewrite !Ea, div64_u64_ok, bind_Ok by lia. rewrite Z.shiftr_lxor, !sign_word, quot_abs by done.
  set (q := Z.abs n / Z.abs d).
  assert (Hid : s64 (s64 q) = s64 q).
  { apply s64_small. unfold s64. pose proof (Z.mod_pos_bound (q + 2 ^ 63) (2 ^ 64)). lia. }
  destruct (Z.ltb_spec n 0), (Z.ltb_spec d 0); cbn [xorb].
  - change (Z.lxor (-1) (-1)) with 0. by rewrite Z.lxor_0_r, Z.sub_0_r, Hid.
  - change (Z.lxor (-1) 0) with (-1). rewrite Z.lxor_m1_r. unfold Z.lnot.
    replace (Z.pred (- s64 q) - -1) with (- s64 q) by lia. by rewrite s64_opp_s64.
  - change (Z.lxor 0 (-1)) with (-1). rewrite Z.lxor_m1_r. unfold Z.lnot.
    replace (Z.pred (- s64 q) - -1) with (- s64 q) by lia. by rewrite s64_opp_s64.
  - change (Z.lxor 0 0) with 0. by rewrite Z.lxor_0_r, Z.sub_0_r, Hid.
Qed.

(** The signed divisions truncate towards zero, and the remainder has
    the sign of the dividend; the one quotient that does not fit, the smallest
    number by -1, wraps around. *)
Theorem div64_signed_spec n d :
  - 2 ^ 63 <= n < 2 ^ 63 -> - 2 ^ 63 <= d < 2 ^ 63 -> d <> 0 ->
  div64_s64 n d = Ok (s64 (Z.quot n d)) /\
  (- 2 ^ 31 <= d < 2 ^ 31 -> div_s64_rem n d = Ok (s64 (Z.quot n d), Z.rem n d)).
Proof. intros Hn Hd Hd0. split; [by apply div64_s64_ok|]. intros Hd'. by apply div_s64_rem_ok. Qed.

Lemma div64_signed_spec_witness : div64_s64 (-7) 2 = Ok (-3) /\ div_s64_rem (-7) 2 = Ok (-3, -1).
Proof.
  destruct (div64_signed_spec (-7) 2) as (E & E'); [lia|lia|lia|]. split; [exact E|]. apply E'. lia.
Defined.

(** ** Division by a reciprocal *)

(** The multiplier [M] is just above [K / d], close enough for every number
    below [2^32]. *)
Lemma reciprocal_exact d l n :
  0 < d -> 0 <= l -> d <= 2 ^ l -> 0 <= n < 2 ^ 32 ->
  let K := 2 ^ 32 * 2 ^ l in n * (K / d + 1) / K = n / d.
Proof.
  intros Hd Hl Hdl Hn K. assert (HK : 0 < K) by (unfold K; lia).
  pose proof (Z.div_mod K d ltac:(lia)) as EK. pose proof (Z.mod_pos_bound K d Hd) as HrK.
  pose proof (Z.div_mod n d ltac:(lia)) as En. pose proof (Z.mod_pos_bound n d Hd) as Hrn.
  set (M := K / d + 1) in *. set (q := n / d) in *.
  assert (HMd : K < M * d <= K + d) by (unfold M; lia).
  assert (Hq : 0 <= q) by (apply Z.div_pos; lia).
  assert (Hlo : K * q <= n * M) by nia.
  assert (Hne : n * (M * d - K) < K) by (unfold K in *; nia).
  assert (Hhi : n * M < K * (q + 1)).
  { apply (Zmult_lt_reg_r _ _ d); [lia|]. replace (n * M * d) with (n * K + n * (M * d - K)) by lia. nia. }
  symmetry. apply (Z.div_unique_pos _ _ _ (n * M - K * q)); lia.
Qed.

Lemma reciprocal_value_ok d :
  0 < d < 2 ^ 32 -> let l := fls (d - 1) in
  0 <= l <= 32 /\ d <= 2 ^ l /\ 2 ^ l < 2 * d /\
  reciprocal_value d = Ok (RV (2 ^ 32 * 2 ^ l / d + 1 - 2 ^ 32) (Z.min l 1) (Z.max (l - 1) 0)).
Proof.
  intros Hd l.
  assert (Hl : 0 <= l <= 32 /\ d <= 2 ^ l /\ 2 ^ l < 2 * d).
  { unfold l. destruct (decide (d = 1)) as [->|Hne]; [done|].
    destruct (fls_spec (d - 1)) as [H0 [H1 H2]]; [lia|].
    assert (E : 2 ^ fls (d - 1) = 2 * 2 ^ (fls (d - 1) - 1)) by (rewrite <- Z.pow_succ_r by lia; f_equal; lia).
    assert (fls (d - 1) <= 32); [|lia].
    destruct (Z.le_gt_cases (fls (d - 1)) 32); [done|]. pose proof (Z.pow_le_mono_r 2 32 (fls (d - 1) - 1)). lia. }
  destruct Hl as (Hl & H1 & H2). csplit; [lia|lia|lia|lia|].
  unfold reciprocal_value. rewrite (u32_small (d - 1)) by lia. fold l.
  rewrite Z.shiftl_mul_pow2, Z.mul_1_l by lia.
  rewrite (u64_small (2 ^ l - d)), (u64_small (2 ^ 32 * _)), do_div_ok, bind_Ok by lia. cbn beta iota.
  replace (2 ^ 32 * (2 ^ l - d) / d) with (2 ^ 32 * 2 ^ l / d - 2 ^ 32).
  - set (K := 2 ^ 32 * 2 ^ l). assert (HKd : 2 ^ 32 <= K / d) by (apply Z.div_le_lower_bound; unfold K; nia).
    assert (HKu : K / d + 1 < 2 * 2 ^ 32).
    { enough (K / d < 2 * 2 ^ 32 - 1) by lia. apply Z.div_lt_upper_bound; unfold K; nia. }
    do 2 f_equal. rewrite u32_small by lia. lia.
  - rewrite Z.mul_sub_distr_l, <- (Z.add_opp_r (_ * _)), <- Z.mul_opp_l, Z.div_add by lia. lia.
Qed.

(** [reciprocal_value] computes, for every divisor but 0, a multiplier
    and shifts with which [reciprocal_divide] divides every 32-bit number
    exactly. *)
Theorem reciprocal_divide_spec d a :
  0 < d < 2 ^ 32 -> 0 <= a < 2 ^ 32 ->
  exists R, reciprocal_value d = Ok R /\ reciprocal_divide a R = a / d.
Proof.
  intros Hd Ha. destruct (reciprocal_value_ok d Hd) as (Hl & Hdl & Hld & ->). set (l := fls (d - 1)) in *.
  eexists. split; [reflexivity|]. unfold reciprocal_divide. cbn [rv_m rv_sh1 rv_sh2].
  rewrite <- (reciprocal_exact d l a) by lia. set (K := 2 ^ 32 * 2 ^ l) in *.
  assert (HKd : 2 ^ 32 <= K / d < 2 * 2 ^ 32 - 1).
  { split; [apply Z.div_le_lower_bound|apply Z.div_lt_upper_bound]; unfold K; nia. }
  set (m := K / d + 1 - 2 ^ 32). replace (K / d + 1) with (m + 2 ^ 32) by (unfold m; lia).
  assert (Hm : 0 < m < 2 ^ 32) by (unfold m; lia).
  assert (Hm1 : l = 0 -> m = 1).
  { intros E0. unfold m, K. rewrite E0 in *. assert (d = 1) as -> by lia. done. }
  clearbody m.
  rewrite (u64_small (a * m)), (Z.shiftr_div_pow2 (a * m)) by nia. set (t := a * m / 2 ^ 32).
  assert (Ht : 0 <= t <= a) by (unfold t; split; [apply Z.div_pos|apply Z.div_le_upper_bound]; nia).
  rewrite (u32_small t), (u32_small (a - t)) by lia.
  assert (EK : a * (m + 2 ^ 32) / K = (a + t) / 2 ^ l).
  { unfold K. rewrite <- Z.div_div by lia. f_equal. rewrite Z.mul_add_distr_l, Z.div_add by lia. unfold t. lia. }
  rewrite EK. destruct (decide (l = 0)) as [E0|Hl0].
  - assert (t = 0) as -> by (unfold t; rewrite (Hm1 E0), Z.mul_1_r; apply Z.div_small; lia).
    rewrite E0. change (Z.min 0 1) with 0. change (Z.max (0 - 1) 0) with 0. rewrite !Z.shiftr_0_r.
    rewrite Z.div_1_r, u32_small; lia.
  - rewrite Z.min_r, Z.max_l, !Z.shiftr_div_pow2 by lia. change (2 ^ 1) with 2.
    assert (Hh : t + (a - t) / 2 = (a + t) / 2).
    { rewrite <- (Z.div_add_l t) by lia. f_equal. lia. }
    rewrite Hh. assert (0 <= (a + t) / 2 < 2 ^ 32) by (split; [apply Z.div_pos|apply Z.div_lt_upper_bound]; lia).
    rewrite u32_small by lia. rewrite Z.div_div by lia. f_equal.
    change 2 with (2 ^ 1) at 1. rewrite <- Z.pow_add_r by lia. f_equal. lia.
Qed.

Lemma reciprocal_divide_spec_witness :
  exists R, reciprocal_value 7 = Ok R /\ reciprocal_divide 4294967295 R = 613566756.
Proof. apply (reciprocal_divide_spec 7 4294967295); lia. Defined.

(** ** Repeated subtraction, and multiplication before division *)

Lemma iter_div_loop_ok k n d r :
  0 <= n < 2 ^ 64 -> 0 < d -> Z.to_nat (n / d) = k ->
  __iter_div_u64_rem (S k) n d (u32 r) = Ok (u32 (r + n / d), n mod d).
Proof.
  revert n r. induction k as [|k IH]; intros n r Hn Hd Ek; assert (Hq : 0 <= n / d) by (apply Z.div_pos; lia);
    pose proof (Z.div_mod n d ltac:(lia)); pose proof (Z.mod_pos_bound n d ltac:(lia)).
  - cbn [__iter_div_u64_rem]. rewrite Z.geb_leb, (proj2 (Z.leb_gt _ _)) by nia.
    by rewrite Z.div_small, Z.mod_small, Z.add_0_r by nia.
  - assert (Hge : d <= n) by nia. remember (S k) as fuel eqn:Ef. cbn [__iter_div_u64_rem].
    rewrite Z.geb_leb, (proj2 (Z.leb_le _ _)) by done.
    assert (Eq : n / d = 1 + (n - d) / d) by (rewrite <- (Z.div_add_l 1) by lia; f_equal; lia).
    assert (Em : n mod d = (n - d) mod d) by (rewrite <- (Z_mod_plus_full (n - d) 1); f_equal; lia).
    rewrite u64_small by lia.
    replace (u32 (u32 r + 1)) with (u32 (r + 1)) by (unfold u32; by rewrite Zplus_mod_idemp_l).
    rewrite (IH (n - d)) by lia. rewrite Eq, Em. do 3 f_equal. lia.
Qed.

Lemma iter_div_ok n d : 0 <= n < 2 ^ 64 -> 0 < d -> iter_div_u64_rem n d = Ok (u32 (n / d), n mod d).
Proof. intros Hn Hd. apply (iter_div_loop_ok (Z.to_nat (n / d)) n d 0); done. Qed.

Lemma ilog2_bound x : 0 < x < 2 ^ 64 -> __ilog2_u64 x = Z.log2 x.
Proof.
  intros Hx. unfold __ilog2_u64, fls64. rewrite Z.shiftr_div_pow2 by lia.
  pose proof (Z.div_mod x (2 ^ 32) ltac:(lia)). pose proof (Z.mod_pos_bound x (2 ^ 32) ltac:(lia)).
  destruct (Z.eqb_spec (x / 2 ^ 32) 0) as [E|E]; cbn [negb]; unfold fls.
  - rewrite u32_small, (proj2 (Z.eqb_neq _ _)) by lia. lia.
  - rewrite (proj2 (Z.eqb_neq _ _)) by lia. assert (0 <= x / 2 ^ 32) by (apply Z.div_pos; lia).
    rewrite <- Z.shiftr_div_pow2, Z.log2_shiftr by (rewrite ?Z.shiftr_div_pow2; lia).
    assert (32 <= Z.log2 x) by (apply Z.log2_le_pow2; lia). lia.
Qed.

Lemma product_fits a b :
  0 <= a < 2 ^ 64 -> 0 <= b < 2 ^ 64 -> __ilog2_u64 a + __ilog2_u64 b <= 62 -> 0 <= a * b < 2 ^ 64.
Proof.
  intros Ha Hb H. destruct (decide (a = 0)) as [->|]; [lia|]. destruct (decide (b = 0)) as [->|]; [lia|].
  rewrite !ilog2_bound in H by lia. split; [lia|].
  pose proof (Z.log2_spec a ltac:(lia)). pose proof (Z.log2_spec b ltac:(lia)).
  pose proof (Z.log2_nonneg a). pose proof (Z.log2_nonneg b).
  apply Z.lt_le_trans with (2 ^ Z.succ (Z.log2 a) * 2 ^ Z.succ (Z.log2 b)); [nia|].
  rewrite <- Z.pow_add_r by lia. apply Z.pow_le_mono_r; lia.
Qed.

(** [mul_u64_u64_div_u64] is exact, modulo 2^64, as long as it does not
    have to drop low bits of the remainder. *)
Theorem mul_div_exact a b c :
  0 <= a < 2 ^ 64 -> 0 <= b < 2 ^ 64 -> 0 < c < 2 ^ 64 ->
  __ilog2_u64 a + __ilog2_u64 (b mod c) <= 62 ->
  mul_u64_u64_div_u64 a b c = Ok (u64 (a * b / c)).
Proof.
  intros Ha Hb Hc Hfit. unfold mul_u64_u64_div_u64. rewrite Z.gtb_ltb.
  destruct (Z.ltb_spec 62 (__ilog2_u64 a + __ilog2_u64 b)) as [Hbig|Hsmall].
  - rewrite div64_u64_rem_ok, bind_Ok by lia. cbn beta iota. rewrite Z.gtb_ltb, (proj2 (Z.ltb_ge _ _)) by lia.
    cbn [andb]. cbn beta iota. pose proof (Z.mod_pos_bound b c ltac:(lia)).
    destruct (product_fits a (b mod c)) as [H0 H1]; [lia|lia|done|].
    rewrite (u64_small (a * (b mod c))), div64_u64_ok, bind_Ok by lia. f_equal.
    unfold u64. rewrite Zplus_mod_idemp_l. f_equal. rewrite <- Z.div_add_l by lia. f_equal.
    pose proof (Z.div_mod b c ltac:(lia)). nia.
  - destruct (product_fits a b) as [H0 H1]; [lia|lia|lia|].
    rewrite (u64_small (a * b)), div64_u64_ok, bind_Ok by lia.
    rewrite u64_small; [done|]. split; [apply Z.div_pos; lia|]. apply Z.div_lt_upper_bound; nia.
Qed.

Lemma mul_div_exact_witness : mul_u64_u64_div_u64 1000000007 18446744073709551615 1000000 = Ok 129127208514966.
Proof. rewrite mul_div_exact; [reflexivity|lia|lia|lia|]. vm_compute. discriminate. Defined.
