(* ===== verification/Ctype.v ===== *)
(** * lib/ctype.c, include/linux/ctype.h: character classes

    Characters are bytes, numbers from 0 to 255. The table is the kernel's
    (Latin-1); the lemmas say which ASCII characters each class holds. *)

From S2P Require Import Prelude.

Definition U_ : Z := 0x01.
Definition L_ : Z := 0x02.
Definition D_ : Z := 0x04.
Definition C_ : Z := 0x08.
Definition P_ : Z := 0x10.
Definition S_ : Z := 0x20.
Definition X_ : Z := 0x40.
Definition SP_ : Z := 0x80.

(** The flags of an entry are disjoint, so their union is their sum. *)
Definition ctype : list Z :=
  [C_; C_; C_; C_; C_; C_; C_; C_;
   C_; C_ + S_; C_ + S_; C_ + S_; C_ + S_; C_ + S_; C_; C_;
   C_; C_; C_; C_; C_; C_; C_; C_;
   C_; C_; C_; C_; C_; C_; C_; C_;
   S_ + SP_; P_; P_; P_; P_; P_; P_; P_;
   P_; P_; P_; P_; P_; P_; P_; P_;
   D_; D_; D_; D_; D_; D_; D_; D_;
   D_; D_; P_; P_; P_; P_; P_; P_;
   P_; U_ + X_; U_ + X_; U_ + X_; U_ + X_; U_ + X_; U_ + X_; U_;
   U_; U_; U_; U_; U_; U_; U_; U_;
   U_; U_; U_; U_; U_; U_; U_; U_;
   U_; U_; U_; P_; P_; P_; P_; P_;
   P_; L_ + X_; L_ + X_; L_ + X_; L_ + X_; L_ + X_; L_ + X_; L_;
   L_; L_; L_; L_; L_; L_; L_; L_;
   L_; L_; L_; L_; L_; L_; L_; L_;
   L_; L_; L_; P_; P_; P_; P_; C_;
   0; 0; 0; 0; 0; 0; 0; 0; 0; 0; 0; 0; 0; 0; 0; 0;
   0; 0; 0; 0; 0; 0; 0; 0; 0; 0; 0; 0; 0; 0; 0; 0;
   S_ + SP_; P_; P_; P_; P_; P_; P_; P_; P_; P_; P_; P_; P_; P_; P_; P_;
   P_; P_; P_; P_; P_; P_; P_; P_; P_; P_; P_; P_; P_; P_; P_; P_;
   U_; U_; U_; U_; U_; U_; U_; U_; U_; U_; U_; U_; U_; U_; U_; U_;
   U_; U_; U_; U_; U_; U_; U_; P_; U_; U_; U_; U_; U_; U_; U_; L_;
   L_; L_; L_; L_; L_; L_; L_; L_; L_; L_; L_; L_; L_; L_; L_; L_;
   L_; L_; L_; L_; L_; L_; L_; P_; L_; L_; L_; L_; L_; L_; L_; L_].

Definition __ismask (x : Z) : Z := ctype !!! Z.to_nat (u8 x).

Definition isalnum (c : Z) : bool := negb (Z.land (__ismask c) (Z.lor U_ (Z.lor L_ D_)) =? 0).
Definition isalpha (c : Z) : bool := negb (Z.land (__ismask c) (Z.lor U_ L_) =? 0).
Definition islower (c : Z) : bool := negb (Z.land (__ismask c) L_ =? 0).
Definition isspace (c : Z) : bool := negb (Z.land (__ismask c) S_ =? 0).
Definition isupper (c : Z) : bool := negb (Z.land (__ismask c) U_ =? 0).
Definition isxdigit (c : Z) : bool := negb (Z.land (__ismask c) (Z.lor D_ X_) =? 0).
Definition isdigit (c : Z) : bool := (48 <=? c) && (c <=? 57).

Definition __tolower (c : Z) : Z := if isupper c then u8 (c + 32) else c.
Definition __toupper (c : Z) : Z := if islower c then u8 (c - 32) else c.

(** [_tolower]: only meaningful for letters. *)
Definition tolower_ (c : Z) : Z := Z.lor c 0x20.

(** ** Deciding a property of all bytes *)

Definition byte (c : Z) : Prop := 0 <= c < 256.

Lemma all_bytes (f : Z -> bool) :
  forallb f (seqZ 0 256) = true -> forall c, byte c -> f c = true.
Proof.
  intros H c Hc. rewrite forallb_forall in H. apply H, list_elem_of_In, elem_of_seqZ. unfold byte in Hc. lia.
Qed.

Lemma ctype_length : length ctype = 256%nat.
Proof. reflexivity. Qed.

Lemma isspace_spec c :
  byte c -> isspace c = true <-> 9 <= c <= 13 \/ c = 32 \/ c = 160.
Proof.
  intros Hc. pose proof (all_bytes (fun c => Bool.eqb (isspace c)
    (((9 <=? c) && (c <=? 13)) || (c =? 32) || (c =? 160))) ltac:(by vm_compute) c Hc) as E.
  apply eqb_prop in E. rewrite E. lia.
Qed.

Lemma isxdigit_spec c :
  byte c -> isxdigit c = true <-> 48 <= c <= 57 \/ 65 <= c <= 70 \/ 97 <= c <= 102.
Proof.
  intros Hc. pose proof (all_bytes (fun c => Bool.eqb (isxdigit c)
    (((48 <=? c) && (c <=? 57)) || ((65 <=? c) && (c <=? 70)) || ((97 <=? c) && (c <=? 102))))
    ltac:(by vm_compute) c Hc) as E.
  apply eqb_prop in E. rewrite E. lia.
Qed.
