(* ===== verification/Kstrtox.v ===== *)
(** * lib/kstrtox.c: strings to integers

    A C string is the list of its bytes without the terminator, and [ch] reads
    a position of it, the terminator included. The conversions are shown to
    accept exactly the numbers that fit, with the error the code reports for
    the rest, and to read back what is written in digits. *)

From S2P Require Import Prelude LibMath Ctype.

(** ** The code *)

Definition ch (s : list Z) (i : nat) : Z := nth i s 0.

(** A [char] is signed: the value of [unsigned int c = *s]. *)
Definition char_to_uint (c : Z) : Z := if c <? 128 then c else u32 (c - 256).

Definition KSTRTOX_OVERFLOW : Z := 2 ^ 31.

(** The string after the prefix, and the base. *)
Definition _parse_integer_fixup_radix (s : list Z) (base : Z) : list Z * Z :=
  let base :=
    if base =? 0 then
      if ch s 0 =? 48 then
        if (tolower_ (ch s 1) =? 120) && isxdigit (ch s 2) then 16 else 8
      else 10
    else base in
  if (base =? 16) && (ch s 0 =? 48) && (tolower_ (ch s 1) =? 120) then (drop 2 s, base) else (s, base).

(** The loop of [_parse_integer_limit]; the result is [rv] and [*p]. *)
Fixpoint parse_loop (s : list Z) (base max_chars res rv : Z) : outcome (Z * Z) :=
  if max_chars =? 0 then Ok (rv, res)
  else
    match s with
    | [] => Ok (rv, res)
    | b :: s =>
        let c := char_to_uint b in
        let lc := Z.lor c 0x20 in
        let digit :=
          if (48 <=? c) && (c <=? 57) then Some (c - 48)
          else if (97 <=? lc) && (lc <=? 102) then Some (lc - 97 + 10)
          else None in
        match digit with
        | None => Ok (rv, res)
        | Some val =>
            if val >=? base then Ok (rv, res)
            else
              rv ← (if negb (Z.land res (Z.shiftl 15 60) =? 0)
                    then q ← div_u64 (U64_MAX - val) base;
                         Ok (if res >? q then Z.lor rv KSTRTOX_OVERFLOW else rv)
                    else Ok rv);
              parse_loop s base (max_chars - 1) (u64 (res * base + val)) (u32 (rv + 1))
        end
    end.

Definition _parse_integer_limit (s : list Z) (base max_chars : Z) : outcome (Z * Z) :=
  parse_loop s base max_chars 0 0.

Definition INT_MAX : Z := 2 ^ 31 - 1.

Definition _parse_integer (s : list Z) (base : Z) : outcome (Z * Z) := _parse_integer_limit s base INT_MAX.

Definition _kstrtoull (s : list Z) (base : Z) : outcome (result Z) :=
  let '(s, base) := _parse_integer_fixup_radix s base in
  '(rv, _res) ← _parse_integer s base;
  if negb (Z.land rv KSTRTOX_OVERFLOW =? 0) then Ok (Err (- ERANGE))
  else if rv =? 0 then Ok (Err (- EINVAL))
  else
    let s := drop (Z.to_nat rv) s in
    let s := if ch s 0 =? 10 then drop 1 s else s in
    if negb (ch s 0 =? 0) then Ok (Err (- EINVAL)) else Ok (Val _res).

Definition kstrtoull (s : list Z) (base : Z) : outcome (result Z) :=
  _kstrtoull (if ch s 0 =? 43 then drop 1 s else s) base.

Definition kstrtoll (s : list Z) (base : Z) : outcome (result Z) :=
  if ch s 0 =? 45 then
    r ← _kstrtoull (drop 1 s) base;
    match r with
    | Err e => Ok (Err e)
    | Val tmp => Ok (if s64 (u64 (- tmp)) >? 0 then Err (- ERANGE) else Val (s64 (u64 (- tmp))))
    end
  else
    r ← kstrtoull s base;
    match r with
    | Err e => Ok (Err e)
    | Val tmp => Ok (if s64 tmp <? 0 then Err (- ERANGE) else Val (s64 tmp))
    end.

(** The narrower types convert, compare with the value cut to their width and
    refuse a difference. *)
Definition narrow (cut : Z -> Z) (r : result Z) : result Z :=
  match r with
  | Err e => Err e
  | Val tmp => if negb (tmp =? cut tmp) then Err (- ERANGE) else Val (cut tmp)
  end.

Definition s16 (x : Z) : Z := (x + 2 ^ 15) mod 2 ^ 16 - 2 ^ 15.

Definition _kstrtoul (s : list Z) (base : Z) : outcome (result Z) := r ← kstrtoull s base; Ok (narrow u32 r).
Definition _kstrtol (s : list Z) (base : Z) : outcome (result Z) := r ← kstrtoll s base; Ok (narrow s32 r).
Definition kstrtouint (s : list Z) (base : Z) : outcome (result Z) := r ← kstrtoull s base; Ok (narrow u32 r).
Definition kstrtoint (s : list Z) (base : Z) : outcome (result Z) := r ← kstrtoll s base; Ok (narrow s32 r).
Definition kstrtou16 (s : list Z) (base : Z) : outcome (result Z) := r ← kstrtoull s base; Ok (narrow u16 r).
Definition kstrtos16 (s : list Z) (base : Z) : outcome (result Z) := r ← kstrtoll s base; Ok (narrow s16 r).
Definition kstrtou8 (s : list Z) (base : Z) : outcome (result Z) := r ← kstrtoull s base; Ok (narrow u8 r).

(** [None] is a [NULL] string. *)
Definition kstrtobool (s : option (list Z)) : result bool :=
  match s with
  | None => Err (- EINVAL)
  | Some s =>
      let c := ch s 0 in
      if (c =? 121) || (c =? 89) || (c =? 116) || (c =? 84) || (c =? 49) then Val true
      else if (c =? 110) || (c =? 78) || (c =? 102) || (c =? 70) || (c =? 48) then Val false
      else if (c =? 111) || (c =? 79) then
        let d := ch s 1 in
        if (d =? 110) || (d =? 78) then Val true
        else if (d =? 102) || (d =? 70) then Val false
        else Err (- EINVAL)
      else Err (- EINVAL)
  end.

(** ** What the digits stand for *)

Definition digit_of (c : Z) : option Z :=
  if (48 <=? c) && (c <=? 57) then Some (c - 48)
  else if (65 <=? c) && (c <=? 70) then Some (c - 55)
  else if (97 <=? c) && (c <=? 102) then Some (c - 87)
  else None.

(** The longest prefix of digits, as numbers. *)
Fixpoint digits (base : Z) (s : list Z) : list Z :=
  match s with
  | [] => []
  | c :: s =>
      match digit_of c with
      | Some v => if v <? base then v :: digits base s else []
      | None => []
      end
  end.

Definition value_from (base a : Z) (ds : list Z) : Z := fold_left (fun a d => a * base + d) ds a.
Definition value (base : Z) (ds : list Z) : Z := value_from base 0 ds.

(** The digit as the loop computes it. *)
Lemma code_digit b :
  byte b -> let c := char_to_uint b in let lc := Z.lor c 0x20 in
  (if (48 <=? c) && (c <=? 57) then Some (c - 48)
   else if (97 <=? lc) && (lc <=? 102) then Some (lc - 97 + 10) else None) = digit_of b.
Proof.
  intros Hb. pose proof (all_bytes (fun b => let c := char_to_uint b in let lc := Z.lor c 0x20 in
    bool_decide ((if (48 <=? c) && (c <=? 57) then Some (c - 48)
      else if (97 <=? lc) && (lc <=? 102) then Some (lc - 97 + 10) else None) = digit_of b))
    ltac:(by vm_compute) b Hb) as E.
  by apply bool_decide_eq_true in E.
Qed.

Lemma digit_of_range b v : digit_of b = Some v -> 0 <= v < 16 /\ b <> 10 /\ b <> 0 /\ Z.lor b 0x20 <> 120.
Proof.
  unfold digit_of. intros H.
  assert (byte b) as Hb by (unfold byte; repeat case_cmp_in H; simplify_eq; lia).
  pose proof (all_bytes (fun b => match digit_of b with Some v => (0 <=? v) && (v <? 16) && negb (b =? 10)
    && negb (b =? 0) && negb (Z.lor b 0x20 =? 120) | None => true end) ltac:(by vm_compute) b Hb) as E.
  cbn beta in E. unfold digit_of in E. rewrite H in E. lia.
Qed.

(** ** Overflow *)

Lemma top_bits res : 0 <= res < 2 ^ 64 -> (Z.land res (Z.shiftl 15 60) =? 0) = (res <? 2 ^ 60).
Proof.
  intros Hr. replace (Z.land res (Z.shiftl 15 60)) with (Z.shiftl (Z.land (Z.shiftr res 60) (Z.ones 4)) 60).
  - rewrite Z.land_ones, Z.shiftl_mul_pow2, Z.shiftr_div_pow2 by lia.
    assert (0 <= res / 2 ^ 60 < 16) by (split; [apply Z.div_pos|apply Z.div_lt_upper_bound]; lia).
    rewrite Z.mod_small by lia. pose proof (Z.div_mod res (2 ^ 60)). pose proof (Z.mod_pos_bound res (2 ^ 60)). lia.
  - change 15 with (Z.ones 4). apply Z.bits_inj'. intros n Hn. rewrite Z.land_spec, !Z.shiftl_spec by lia.
    destruct (Z.lt_ge_cases n 60).
    + rewrite (Z.testbit_neg_r (Z.ones 4)), (Z.testbit_neg_r (Z.land _ _)) by lia. by rewrite andb_false_r.
    + rewrite Z.land_spec, Z.shiftr_spec by lia. f_equal. f_equal. lia.
Qed.

(** The count of digits with the overflow flag on top. *)
Definition flagged (n V : Z) : Z := n + (if 2 ^ 64 <=? V then 2 ^ 31 else 0).

Lemma land_flagged n V :
  0 <= n < 2 ^ 31 -> Z.land (flagged n V) KSTRTOX_OVERFLOW = if 2 ^ 64 <=? V then 2 ^ 31 else 0.
Proof.
  intros Hn. unfold flagged, KSTRTOX_OVERFLOW. rewrite land_pow2_testbit by lia. destruct (2 ^ 64 <=? V).
  - replace (Z.testbit (n + 2 ^ 31) 31) with true; [done|]. symmetry. apply Z.testbit_true; [lia|].
    rewrite <- (Z.mul_1_l (2 ^ 31)) at 1. rewrite Z.div_add, Z.div_small by lia. done.
  - rewrite Z.add_0_r. replace (Z.testbit n 31) with false; [done|]. symmetry. apply Z.testbit_false; [lia|].
    rewrite Z.div_small by lia. done.
Qed.

Lemma lor_flagged n V : 0 <= n < 2 ^ 31 -> Z.lor (flagged n V) KSTRTOX_OVERFLOW = n + 2 ^ 31.
Proof.
  intros Hn. pose proof (Z.add_lor_land (flagged n V) KSTRTOX_OVERFLOW) as H. rewrite land_flagged in H by done.
  unfold flagged, KSTRTOX_OVERFLOW in *. case_cmp; lia.
Qed.

(** One digit: the flag says whether the exact value fits. *)
Lemma overflow_step base a val n :
  2 <= base <= 16 -> 0 <= a -> 0 <= val < base -> 0 <= n < 2 ^ 31 ->
  (if negb (Z.land (u64 a) (Z.shiftl 15 60) =? 0)
   then q ← div_u64 (U64_MAX - val) base;
        Ok (if u64 a >? q then Z.lor (flagged n a) KSTRTOX_OVERFLOW else flagged n a)
   else Ok (flagged n a)) = Ok (flagged n (a * base + val)).
Proof.
  intros Hb Ha Hv Hn. pose proof (u64_range a) as Hu. rewrite top_bits by done. rewrite div_u64_ok by (unfold U64_MAX; lia).
  rewrite bind_Ok, Z.gtb_ltb. destruct (Z.le_gt_cases (2 ^ 64) a) as [Hov|Hfit].
  - assert (E : flagged n (a * base + val) = flagged n a).
    { unfold flagged. rewrite !(proj2 (Z.leb_le _ _)) by nia. done. }
    rewrite E, lor_flagged by done. unfold flagged. rewrite (proj2 (Z.leb_le _ _)) by done. repeat case_cmp; done.
  - rewrite u64_small by lia. assert (E0 : flagged n a = n) by (unfold flagged; rewrite (proj2 (Z.leb_gt _ _)) by lia; lia).
    rewrite lor_flagged, E0 by done. unfold flagged. destruct (Z.ltb_spec a (2 ^ 60)); cbn [negb].
    + rewrite (proj2 (Z.leb_gt _ _)) by nia. f_equal. lia.
    + f_equal. pose proof (Z.div_mod (U64_MAX - val) base ltac:(lia)).
      pose proof (Z.mod_pos_bound (U64_MAX - val) base ltac:(lia)). unfold U64_MAX in *.
      destruct (Z.ltb_spec ((2 ^ 64 - 1 - val) / base) a), (Z.leb_spec (2 ^ 64) (a * base + val)); try lia; nia.
Qed.

Lemma value_from_nonneg base ds a : 0 <= base -> 0 <= a -> Forall (fun d => 0 <= d) ds -> 0 <= value_from base a ds.
Proof.
  intros Hb. revert a. induction ds as [|d ds IH]; intros a Ha H; [done|]. apply Forall_cons in H as [Hd H].
  apply IH; [nia|done].
Qed.

Lemma parse_loop_ok base s a n max :
  2 <= base <= 16 -> Forall byte s -> 0 <= a -> 0 <= n -> n + Z.of_nat (length s) < 2 ^ 31 ->
  Z.of_nat (length s) <= max ->
  parse_loop s base max (u64 a) (flagged n a) =
    Ok (flagged (n + Z.of_nat (length (digits base s))) (value_from base a (digits base s)),
        u64 (value_from base a (digits base s))).
Proof.
  intros Hb. revert a n max. induction s as [|c s IH]; intros a n max Hs Ha Hn Hlen Hmax; cbn [parse_loop digits].
  { rewrite Z.add_0_r. by destruct (max =? 0). }
  cbn [length] in *. rewrite (proj2 (Z.eqb_neq _ _)) by lia. apply Forall_cons in Hs as [Hc Hs].
  cbn zeta. rewrite code_digit by done. destruct (digit_of c) as [val|] eqn:E; [|cbn; by rewrite Z.add_0_r].
  destruct (digit_of_range c val E) as (Hv & _). rewrite Z.geb_leb.
  destruct (Z.leb_spec base val) as [Hge|Hlt], (Z.ltb_spec val base) as [Hlt'|Hge']; try lia;
    [cbn; by rewrite Z.add_0_r|].
  rewrite overflow_step by lia. rewrite bind_Ok.
  replace (u64 (u64 a * base + val)) with (u64 (a * base + val))
    by (unfold u64; by rewrite (Zplus_mod (a mod _ * base)), Zmult_mod_idemp_l, <- Zplus_mod).
  replace (u32 (flagged n (a * base + val) + 1)) with (flagged (n + 1) (a * base + val))
    by (unfold flagged; case_cmp; rewrite u32_small; lia).
  rewrite IH by (done || lia || nia). cbn [length value_from fold_left]. do 3 f_equal. lia.
Qed.

(** ** The conversions *)

(** A string without a terminator inside. *)
Definition text (s : list Z) : Prop := Forall (fun c => 0 < c < 256) s /\ Z.of_nat (length s) < 2 ^ 31.

Definition base_ok (base : Z) : Prop := base = 0 \/ 2 <= base <= 16.

(** The base a number is in, and the number without its prefix: [0x] or [0X] may
    stand before a number in base 16; when the base is to be found out, [0x]
    before a hexadecimal digit tells of base 16, any other [0] of base 8. *)
Definition is_x (c : Z) : bool := (c =? 120) || (c =? 88).

Definition unprefixed (s : list Z) (base : Z) : list Z * Z :=
  if base =? 0 then
    match s with
    | 48 :: x :: d :: t => if is_x x && bool_decide (is_Some (digit_of d)) then (d :: t, 16) else (s, 8)
    | 48 :: _ => (s, 8)
    | _ => (s, 10)
    end
  else if base =? 16 then
    match s with
    | 48 :: x :: t => if is_x x then (t, 16) else (s, 16)
    | _ => (s, 16)
    end
  else (s, base).

(** What a string means: the value of its longest prefix of digits, unless
    that does not fit, or there is none, or something else than a newline
    follows. *)
Definition meaning (s : list Z) (base : Z) : result Z :=
  let '(t, b) := unprefixed s base in
  let ds := digits b t in
  if 2 ^ 64 <=? value b ds then Err (- ERANGE)
  else if decide (ds <> [] /\ (drop (length ds) t = [] \/ drop (length ds) t = [10])) then Val (value b ds)
  else Err (- EINVAL).

Lemma fixup_ok s base :
  text s -> base_ok base -> let '(t, b) := _parse_integer_fixup_radix s base in text t /\ 2 <= b <= 16.
Proof.
  intros [Hs Hl] Hb. unfold _parse_integer_fixup_radix.
  assert (Hb' : 2 <= (if base =? 0 then if ch s 0 =? 48 then
    if (tolower_ (ch s 1) =? 120) && isxdigit (ch s 2) then 16 else 8 else 10 else base) <= 16).
  { destruct (Z.eqb_spec base 0) as [->|]; [repeat case_cmp; lia|destruct Hb; lia]. }
  destruct (_ && _ && _); (split; [|exact Hb']); [|done].
  split; [by apply Forall_drop|rewrite length_drop; lia].
Qed.

Lemma is_x_ok c : 0 < c < 256 -> (tolower_ c =? 120) = is_x c.
Proof.
  intros Hc. pose proof (all_bytes (fun c => Bool.eqb (tolower_ c =? 120) (is_x c)) ltac:(by vm_compute) c) as E.
  apply Bool.eqb_prop, E. unfold byte. lia.
Qed.

Lemma xdigit_ok c : 0 < c < 256 -> isxdigit c = bool_decide (is_Some (digit_of c)).
Proof.
  intros Hc. pose proof (all_bytes (fun c => Bool.eqb (isxdigit c) (bool_decide (is_Some (digit_of c)))) ltac:(by vm_compute) c) as E.
  apply Bool.eqb_prop, E. unfold byte. lia.
Qed.

(** The code finds the prefix. *)
Lemma unprefixed_ok s base : text s -> _parse_integer_fixup_radix s base = unprefixed s base.
Proof.
  intros [Hs _]. unfold _parse_integer_fixup_radix, unprefixed.
  destruct s as [|c s].
  { cbn. destruct (Z.eqb_spec base 0) as [->|]; [done|]. rewrite andb_false_r. by destruct (Z.eqb_spec base 16) as [->|]. }
  apply Forall_cons in Hs as [Hc Hs].
  change (ch (c :: s) 0) with c. change (ch (c :: s) 1) with (ch s 0). change (ch (c :: s) 2) with (ch s 1).
  destruct (Z.eqb_spec c 48) as [->|Hc48].
  2: { rewrite andb_false_r. cbn [andb]. destruct (Z.eqb_spec base 0) as [->|]; [by destruct c; repeat case_match|].
    destruct (Z.eqb_spec base 16) as [->|]; [|done]. by destruct c; repeat case_match. }
  destruct s as [|x s].
  { cbn. destruct (Z.eqb_spec base 0) as [->|]; [done|]. rewrite andb_false_r. by destruct (Z.eqb_spec base 16) as [->|]. }
  apply Forall_cons in Hs as [Hx Hs].
  change (ch (x :: s) 0) with x. change (ch (x :: s) 1) with (ch s 0). rewrite is_x_ok by done.
  destruct (Z.eqb_spec base 0) as [->|H0].
  - destruct s as [|d s]; [by rewrite andb_false_r|]. apply Forall_cons in Hs as [Hd _]. change (ch (d :: s) 0) with d.
    rewrite xdigit_ok by done. destruct (is_x x), (bool_decide _); by cbn.
  - destruct (Z.eqb_spec base 16) as [->|]; [|done]. cbn. by destruct (is_x x).
Qed.

Lemma ch_end s : Forall (fun c => 0 < c < 256) s -> ch s 0 = 0 <-> s = [].
Proof. intros Hs. destruct s as [|c s]; [done|]. apply Forall_cons in Hs as [Hc _]. cbn. split; [lia|done]. Qed.

Lemma digits_length base s : (length (digits base s) <= length s)%nat.
Proof.
  induction s as [|c s IH]; cbn; [done|]. destruct (digit_of c) as [v|]; [|cbn; lia]. destruct (v <? base); cbn; lia.
Qed.

Lemma value_nonneg base s : 2 <= base -> 0 <= value base (digits base s).
Proof.
  intros Hb. apply value_from_nonneg; [lia|lia|]. induction s as [|c s IH]; cbn; [constructor|].
  destruct (digit_of c) as [v|] eqn:E; [|constructor]. destruct (v <? base); constructor; [|done].
  apply digit_of_range in E. lia.
Qed.

Lemma kstrtoull_ok s base : text s -> base_ok base -> _kstrtoull s base = Ok (meaning s base).
Proof.
  intros Hs Hb. pose proof (fixup_ok s base Hs Hb) as Hf. unfold _kstrtoull, meaning. rewrite <- unprefixed_ok by done.
  destruct (_parse_integer_fixup_radix s base) as [t b]. destruct Hf as [[Ht Hl] Hb'].
  unfold _parse_integer, _parse_integer_limit.
  assert (Htb : Forall byte t) by (eapply Forall_impl; [exact Ht|]; unfold byte; intros; cbn in *; lia).
  pose proof (parse_loop_ok b t 0 0 INT_MAX Hb' Htb) as E.
  change (flagged 0 0) with 0 in E. change (u64 0) with 0 in E. fold (value b (digits b t)) in E.
  rewrite E by (unfold INT_MAX; lia). rewrite bind_Ok. cbn beta iota. clear E.
  set (ds := digits b t). pose proof (digits_length b t) as Hd. fold ds in Hd.
  pose proof (value_nonneg b t ltac:(lia)) as Hv. fold ds in Hv. rewrite Z.add_0_l, land_flagged by lia.
  unfold flagged. destruct (Z.leb_spec (2 ^ 64) (value b ds)) as [Hov|Hfit]; [done|]. cbn [negb Z.eqb].
  rewrite Z.add_0_r, Nat2Z.id, u64_small by lia. set (rest := drop (length ds) t).
  assert (Hrest : Forall (fun c => 0 < c < 256) rest) by (by apply Forall_drop).
  destruct (Z.eqb_spec (Z.of_nat (length ds)) 0) as [E0|E0].
  { rewrite decide_False; [done|]. intros [Hne _]. apply Hne. by destruct ds. }
  assert (Hne : ds <> []) by (by intros ->).
  assert (Hnl : (ch (if ch rest 0 =? 10 then drop 1 rest else rest) 0 =? 0) = bool_decide (rest = [] \/ rest = [10])).
  { destruct rest as [|c rest']; [by rewrite bool_decide_true by (by left)|].
    apply Forall_cons in Hrest as [Hc Hr]. cbn [ch nth]. destruct (Z.eqb_spec c 10) as [->|Hc10].
    - cbn [drop]. rewrite drop_0. destruct (Z.eqb_spec (ch rest' 0) 0) as [E|E].
      + apply ch_end in E as ->; [|done]. by rewrite bool_decide_true by (by right).
      + rewrite bool_decide_false; [done|]. intros [[=]|[= ->]]. done.
    - change (ch (c :: rest') 0) with c. rewrite (proj2 (Z.eqb_neq c 0)) by lia.
      rewrite bool_decide_false; [done|]. intros [[=]|[= -> _]]. done. }
  rewrite Hnl. destruct (bool_decide_reflect (rest = [] \/ rest = [10])) as [Hr|Hr]; cbn [negb].
  - by rewrite decide_True.
  - rewrite decide_False; [done|]. by intros [_ ?].
Qed.

Lemma text_drop n s : text s -> text (drop n s).
Proof. intros [H1 H2]. split; [by apply Forall_drop|rewrite length_drop; lia]. Qed.

(** C24. In base 0 or a base from 2 to 16, and on a string of less than [2^31]
    characters, [kstrtoull] skips one plus sign and converts exactly the strings that
    consist, after the prefix of the base, of digits and at most one newline;
    it reports a number of 2^64 or more as out of range, whatever follows it,
    and anything else as invalid. *)
Theorem kstrtoull_spec s base :
  text s -> base_ok base ->
  kstrtoull s base = Ok (meaning (match s with 43 :: s' => s' | _ => s end) base).
Proof.
  intros Hs Hb. unfold kstrtoull. destruct s as [|c s]; [by apply kstrtoull_ok|].
  change (ch (c :: s) 0) with c. destruct (Z.eqb_spec c 43) as [->|Hc].
  - apply kstrtoull_ok; [|done]. apply (text_drop 1 (43 :: s) Hs).
  - rewrite kstrtoull_ok by done. f_equal.
    replace (match c with 43 => s | _ => c :: s end) with (c :: s); [done|]. by destruct c; repeat case_match.
Qed.

Lemma kstrtoull_spec_witness :
  kstrtoull [43; 48; 120; 102; 102; 10] 0 = Ok (Val 255) /\
  kstrtoull [49; 56; 52; 52; 54; 55; 52; 52; 48; 55; 51; 55; 48; 57; 53; 53; 49; 54; 49; 54] 10 = Ok (Err (- ERANGE)).
Proof.
  split; rewrite kstrtoull_spec; try reflexivity; try (by left); try (right; lia).
  all: split; [repeat constructor; lia|cbn; lia].
Defined.

(** ** Writing numbers down *)

Definition digit_char (d : Z) : Z := if d <? 10 then 48 + d else 87 + d.

(** The digits of a number, most significant first. *)
Fixpoint to_digits (fuel : nat) (base v : Z) : list Z :=
  match fuel with
  | O => []
  | S fuel => if v <? base then [v] else to_digits fuel base (v / base) ++ [v mod base]
  end.

Definition print (base v : Z) : list Z :=
  if v <? 0 then 45 :: map digit_char (to_digits 64 base (- v)) else map digit_char (to_digits 64 base v).

Lemma value_snoc base ds d : value base (ds ++ [d]) = value base ds * base + d.
Proof. unfold value, value_from. by rewrite fold_left_app. Qed.

Lemma to_digits_ok fuel base v :
  2 <= base -> 0 <= v < 2 ^ Z.of_nat fuel -> (0 < fuel)%nat ->
  value base (to_digits fuel base v) = v /\ to_digits fuel base v <> [] /\
  Forall (fun d => 0 <= d < base) (to_digits fuel base v) /\ (length (to_digits fuel base v) <= fuel)%nat.
Proof.
  intros Hb. revert v. induction fuel as [|fuel IH]; intros v Hv Hf; [lia|]. cbn [to_digits].
  destruct (Z.ltb_spec v base) as [Hlt|Hge].
  { unfold value. cbn. csplit; [lia|done|by repeat constructor; lia|lia]. }
  rewrite Nat2Z.inj_succ, Z.pow_succ_r in Hv by lia.
  assert (Hq : 1 <= v / base < 2 ^ Z.of_nat fuel).
  { split; [apply Z.div_le_lower_bound; lia|apply Z.div_lt_upper_bound; nia]. }
  assert (0 < fuel)%nat by (destruct fuel; [change (2 ^ Z.of_nat 0) with 1 in Hq|]; lia).
  destruct (IH (v / base)) as (E & _ & Hd & Hl); [lia|done|]. rewrite value_snoc, E, length_snoc.
  pose proof (Z.div_mod v base ltac:(lia)). pose proof (Z.mod_pos_bound v base ltac:(lia)).
  csplit; [lia|by intros [_ [=]]%app_nil|apply Forall_app; split; [done|by apply Forall_singleton]|lia].
Qed.

Lemma digit_char_ok d : 0 <= d < 16 -> digit_of (digit_char d) = Some d /\ 0 < digit_char d < 256 /\
  digit_char d <> 43 /\ digit_char d <> 45.
Proof.
  intros Hd. assert (Hb : byte d) by (unfold byte; lia).
  pose proof (all_bytes (fun d => (16 <=? d) || (bool_decide (digit_of (digit_char d) = Some d) &&
    (0 <? digit_char d) && (digit_char d <? 256) && negb (digit_char d =? 43) && negb (digit_char d =? 45)))
    ltac:(by vm_compute) d Hb) as E. cbn beta in E.
  destruct (Z.leb_spec 16 d); [lia|]. cbn [orb] in E. rewrite !andb_true_iff, bool_decide_eq_true in E.
  destruct E as [[[[E1 E2] E3] E4] E5]. csplit; [done|lia..].
Qed.

Lemma digits_print base ds :
  base <= 16 -> Forall (fun d => 0 <= d < base) ds -> digits base (map digit_char ds) = ds.
Proof.
  intros Hb. induction ds as [|d ds IH]; intros H; [done|]. apply Forall_cons in H as [Hd H]. cbn [map digits].
  destruct (digit_char_ok d) as (-> & _); [lia|]. rewrite (proj2 (Z.ltb_lt _ _)), IH by (done || lia). done.
Qed.

Lemma text_digits base ds :
  base <= 16 -> Forall (fun d => 0 <= d < base) ds -> (length ds <= 64)%nat -> text (map digit_char ds).
Proof.
  intros Hb Hds Hl. split; [|rewrite length_map; lia]. apply Forall_map.
  eapply Forall_impl; [exact Hds|]. intros d Hd. cbn in *. destruct (digit_char_ok d) as (_ & ? & _); [lia|done].
Qed.

(** No digit looks like a prefix or a sign. *)
Lemma meaning_digits base ds :
  2 <= base <= 16 -> ds <> [] -> Forall (fun d => 0 <= d < base) ds -> (length ds <= 64)%nat -> value base ds < 2 ^ 64 ->
  meaning (map digit_char ds) base = Val (value base ds).
Proof.
  intros Hb Hne Hds Hlen Hv. unfold meaning. rewrite <- unprefixed_ok by (by apply (text_digits base); [lia|..]).
  unfold _parse_integer_fixup_radix. rewrite (proj2 (Z.eqb_neq base 0)) by lia.
  assert (Hx : (tolower_ (ch (map digit_char ds) 1) =? 120) = false).
  { apply Z.eqb_neq. destruct ds as [|d [|e ds]]; [done..|]. cbn.
    apply Forall_cons in Hds as [_ [He _]%Forall_cons].
    destruct (digit_char_ok e) as (E & _); [lia|]. by apply digit_of_range in E as (_ & _ & _ & ?). }
  rewrite Hx, andb_false_r. rewrite digits_print by (done || lia).
  rewrite (proj2 (Z.leb_gt _ _)) by lia. rewrite decide_True; [done|]. split; [done|left].
  rewrite drop_ge; [done|]. by rewrite length_map.
Qed.

Lemma print_nonneg base v :
  2 <= base <= 16 -> 0 <= v < 2 ^ 64 -> let s := map digit_char (to_digits 64 base v) in
  text s /\ ch s 0 <> 43 /\ ch s 0 <> 45 /\ meaning s base = Val v.
Proof.
  intros Hb Hv s. destruct (to_digits_ok 64 base v) as (E & Hne & Hds & Hl); [lia|done|lia|].
  csplit; [by apply (text_digits base); [lia|..]| | |].
  1,2: unfold s; destruct (to_digits 64 base v) as [|d ds]; [done|]; apply Forall_cons in Hds as [Hd _];
    destruct (digit_char_ok d) as (_ & _ & ? & ?); [lia|done].
  unfold s. rewrite meaning_digits by (done || lia). by rewrite E.
Qed.

Lemma kstrtoll_print base v : 2 <= base <= 16 -> - 2 ^ 63 <= v < 2 ^ 63 -> kstrtoll (print base v) base = Ok (Val v).
Proof.
  intros Hb Hv. unfold kstrtoll, kstrtoull, print. assert (Hb' : base_ok base) by (right; lia).
  destruct (Z.ltb_spec v 0) as [Hneg|Hpos].
  - destruct (print_nonneg base (- v)) as (Ht & _ & _ & Em); [lia|lia|].
    change (ch (45 :: _) 0) with 45. cbn [Z.eqb Pos.eqb drop]. rewrite drop_0, kstrtoull_ok by done.
    rewrite Em, bind_Ok. cbn beta iota. rewrite Z.opp_involutive, s64_u64, s64_small by lia.
    rewrite Z.gtb_ltb, (proj2 (Z.ltb_ge _ _)) by lia. done.
  - destruct (print_nonneg base v) as (Ht & H43 & H45 & Em); [lia|lia|].
    rewrite (proj2 (Z.eqb_neq _ 45) H45), (proj2 (Z.eqb_neq _ 43) H43), kstrtoull_ok by done.
    rewrite Em, bind_Ok. cbn beta iota. rewrite s64_small by lia. rewrite (proj2 (Z.ltb_ge _ _)) by lia. done.
Qed.

(** Reading back what is written in digits: in every base from 2 to 16,
    [kstrtoll] returns the signed 64-bit number that was printed, and
    [kstrtoint] does so exactly when the number is an [int] and reports it as
    out of range otherwise. *)
Theorem kstrto_print_roundtrip base v :
  2 <= base <= 16 -> - 2 ^ 63 <= v < 2 ^ 63 ->
  kstrtoll (print base v) base = Ok (Val v) /\
  kstrtoint (print base v) base = Ok (if decide (- 2 ^ 31 <= v < 2 ^ 31) then Val v else Err (- ERANGE)).
Proof.
  intros Hb Hv. split; [by apply kstrtoll_print|]. unfold kstrtoint. rewrite kstrtoll_print, bind_Ok by done.
  unfold narrow. destruct (decide (- 2 ^ 31 <= v < 2 ^ 31)) as [H|H].
  - rewrite s32_small, Z.eqb_refl by done. done.
  - rewrite (proj2 (Z.eqb_neq _ _)); [done|]. intros E. apply H. rewrite E. unfold s32.
    pose proof (Z.mod_pos_bound (v + 2 ^ 31) (2 ^ 32)). lia.
Qed.

Lemma kstrto_print_roundtrip_witness :
  print 10 (-1234) = [45; 49; 50; 51; 52] /\ kstrtoll [45; 49; 50; 51; 52] 10 = Ok (Val (-1234)).
Proof. split; [reflexivity|]. apply (kstrto_print_roundtrip 10 (-1234)); lia. Defined.
