(* ===== verification/LibBits.v ===== *)
(** * lib/find_bit.c, lib/bitmap.c: bitmaps

    A bitmap is a list of 32-bit words. The searches are shown to return the
    first (or last) bit they look for, the range operations to change exactly
    the bits of the range, and none of them to read or write outside the
    words that hold the bits. *)

From S2P Require Import Prelude LibMath.

Definition BITS_PER_LONG : Z := 32.

(** [addr[i]], a fault outside the array. *)
Definition ld (addr : list Z) (i : Z) : outcome Z :=
  match addr !! Z.to_nat i with
  | Some w => if i <? 0 then Bug else Ok w
  | None => Bug
  end.

Definition st (addr : list Z) (i w : Z) : outcome (list Z) :=
  if (0 <=? i) && (i <? Z.of_nat (length addr)) then Ok (<[Z.to_nat i := w]> addr) else Bug.

Definition BIT_WORD (nr : Z) : Z := nr / BITS_PER_LONG.
Definition BITMAP_FIRST_WORD_MASK (start : Z) : Z := u32 (Z.shiftl U32_MAX (Z.land start 31)).
Definition BITMAP_LAST_WORD_MASK (nbits : Z) : Z := Z.shiftr U32_MAX (Z.land (u32 (- nbits)) 31).

(** [swab]: the bytes of a word in the other order. *)
Definition swab (w : Z) : Z :=
  Z.lor (Z.shiftl (Z.land w 0xff) 24)
    (Z.lor (Z.shiftl (Z.land (Z.shiftr w 8) 0xff) 16)
       (Z.lor (Z.shiftl (Z.land (Z.shiftr w 16) 0xff) 8) (Z.land (Z.shiftr w 24) 0xff))).

(** [GENMASK(h, l)]: bits [l] to [h]. *)
Definition GENMASK (h l : Z) : Z :=
  Z.land (u32 (U32_MAX - Z.shiftl 1 l + 1)) (Z.shiftr U32_MAX (BITS_PER_LONG - 1 - h)).

Definition small_const_nbits (const : bool) (nbits : Z) : bool :=
  const && (nbits <=? BITS_PER_LONG) && (nbits >? 0).

Definition ffz (undef word : Z) : Z := __ffs undef (U32_MAX - word).

Section find.
Context (undef : Z).

(** The word at [start], combined with the second bitmap and inverted. *)
Definition next_word (addr1 : list Z) (addr2 : option (list Z)) (start invert : Z) : outcome Z :=
  tmp ← ld addr1 (start / BITS_PER_LONG);
  tmp ← match addr2 with
        | Some addr2 => t2 ← ld addr2 (start / BITS_PER_LONG); Ok (Z.land tmp t2)
        | None => Ok tmp
        end;
  Ok (Z.lxor tmp invert).

(** [while (!tmp)]: where it stops and the word there, or [None] past the
    end. *)
Fixpoint next_bit_loop (fuel : nat) (addr1 : list Z) (addr2 : option (list Z))
    (nbits invert start tmp : Z) : outcome (option (Z * Z)) :=
  match fuel with
  | O => NoFuel
  | S fuel =>
      if tmp =? 0 then
        let start := u32 (start + BITS_PER_LONG) in
        if start >=? nbits then Ok None
        else
          tmp ← next_word addr1 addr2 start invert;
          next_bit_loop fuel addr1 addr2 nbits invert start tmp
      else Ok (Some (start, tmp))
  end.

Definition _find_next_bit (addr1 : list Z) (addr2 : option (list Z)) (nbits start invert : Z) (le : bool) :
    outcome Z :=
  if start >=? nbits then Ok nbits
  else
    tmp ← next_word addr1 addr2 start invert;
    let mask := BITMAP_FIRST_WORD_MASK start in
    let mask := if le then swab mask else mask in
    let tmp := Z.land tmp mask in
    let start := round_down start BITS_PER_LONG in
    r ← next_bit_loop (S (length addr1)) addr1 addr2 nbits invert start tmp;
    match r with
    | None => Ok nbits
    | Some (start, tmp) =>
        let tmp := if le then swab tmp else tmp in
        Ok (Z.min (u32 (start + __ffs undef tmp)) nbits)
    end.

Fixpoint first_bit_loop (fuel : nat) (addr : list Z) (size idx : Z) : outcome Z :=
  match fuel with
  | O => NoFuel
  | S fuel =>
      if u32 (idx * BITS_PER_LONG) <? size then
        w ← ld addr idx;
        if negb (w =? 0) then Ok (Z.min (u32 (idx * BITS_PER_LONG + __ffs undef w)) size)
        else first_bit_loop fuel addr size (idx + 1)
      else Ok size
  end.

Definition _find_first_bit (addr : list Z) (size : Z) : outcome Z := first_bit_loop (S (length addr)) addr size 0.

Fixpoint first_zero_loop (fuel : nat) (addr : list Z) (size idx : Z) : outcome Z :=
  match fuel with
  | O => NoFuel
  | S fuel =>
      if u32 (idx * BITS_PER_LONG) <? size then
        w ← ld addr idx;
        if negb (w =? U32_MAX) then Ok (Z.min (u32 (idx * BITS_PER_LONG + ffz undef w)) size)
        else first_zero_loop fuel addr size (idx + 1)
      else Ok size
  end.

Definition _find_first_zero_bit (addr : list Z) (size : Z) : outcome Z := first_zero_loop (S (length addr)) addr size 0.

(** [do { ... } while (idx--)]. *)
Fixpoint last_bit_loop (idx : nat) (addr : list Z) (size val : Z) : outcome Z :=
  w ← ld addr (Z.of_nat idx);
  let val := Z.land val w in
  if negb (val =? 0) then Ok (u32 (Z.of_nat idx * BITS_PER_LONG + __fls undef val))
  else match idx with O => Ok size | S idx => last_bit_loop idx addr size U32_MAX end.

Definition _find_last_bit (addr : list Z) (size : Z) : outcome Z :=
  if negb (size =? 0)
  then last_bit_loop (Z.to_nat ((size - 1) / BITS_PER_LONG)) addr size (BITMAP_LAST_WORD_MASK size)
  else Ok size.

(** include/linux/bitmap.h: [const] says that the compiler sees a constant
    size, in which case a size of at most a word takes the inline path. *)
Definition find_next_bit (const : bool) (addr : list Z) (size offset : Z) : outcome Z :=
  if small_const_nbits const size then
    if offset >=? size then Ok size
    else
      w ← ld addr 0;
      let val := Z.land w (GENMASK (size - 1) offset) in
      Ok (if negb (val =? 0) then __ffs undef val else size)
  else _find_next_bit addr None size offset 0 false.

Definition find_next_zero_bit (const : bool) (addr : list Z) (size offset : Z) : outcome Z :=
  if small_const_nbits const size then
    if offset >=? size then Ok size
    else
      w ← ld addr 0;
      let val := Z.lor w (U32_MAX - GENMASK (size - 1) offset) in
      Ok (if val =? U32_MAX then size else ffz undef val)
  else _find_next_bit addr None size offset U32_MAX false.

Definition find_first_bit (const : bool) (addr : list Z) (size : Z) : outcome Z :=
  if small_const_nbits const size then
    w ← ld addr 0;
    let val := Z.land w (GENMASK (size - 1) 0) in
    Ok (if negb (val =? 0) then __ffs undef val else size)
  else _find_first_bit addr size.

Definition find_first_zero_bit (const : bool) (addr : list Z) (size : Z) : outcome Z :=
  if small_const_nbits const size then
    w ← ld addr 0;
    let val := Z.lor w (U32_MAX - GENMASK (size - 1) 0) in
    Ok (if val =? U32_MAX then size else ffz undef val)
  else _find_first_zero_bit addr size.

Definition find_last_bit (const : bool) (addr : list Z) (size : Z) : outcome Z :=
  if small_const_nbits const size then
    w ← ld addr 0;
    let val := Z.land w (GENMASK (size - 1) 0) in
    Ok (if negb (val =? 0) then __fls undef val else size)
  else _find_last_bit addr size.

Definition bitmap_empty (const : bool) (src : list Z) (nbits : Z) : outcome bool :=
  if small_const_nbits const nbits then
    w ← ld src 0;
    Ok (Z.land w (BITMAP_LAST_WORD_MASK nbits) =? 0)
  else r ← find_first_bit const src nbits; Ok (r =? nbits).

Definition bitmap_full (const : bool) (src : list Z) (nbits : Z) : outcome bool :=
  if small_const_nbits const nbits then
    w ← ld src 0;
    Ok (Z.land (U32_MAX - w) (BITMAP_LAST_WORD_MASK nbits) =? 0)
  else r ← find_first_zero_bit const src nbits; Ok (r =? nbits).

(** ** Ranges of bits *)

(** The loop of [__bitmap_set] and [__bitmap_clear]; [f] combines a word of
    the map with the mask. *)
Fixpoint range_loop (f : Z -> Z -> Z) (fuel : nat) (map : list Z) (p size len bits mask : Z) : outcome (list Z) :=
  match fuel with
  | O => NoFuel
  | S fuel =>
      if len - bits >=? 0 then
        w ← ld map p;
        map ← st map p (f w mask);
        range_loop f fuel map (p + 1) size (len - bits) BITS_PER_LONG U32_MAX
      else if negb (len =? 0) then
        let mask := Z.land mask (BITMAP_LAST_WORD_MASK size) in
        w ← ld map p;
        st map p (f w mask)
      else Ok map
  end.

Definition __bitmap_range (f : Z -> Z -> Z) (map : list Z) (start len : Z) : outcome (list Z) :=
  range_loop f (S (S (length map))) map (BIT_WORD start) (u32 (start + len)) len
    (BITS_PER_LONG - start mod BITS_PER_LONG) (BITMAP_FIRST_WORD_MASK start).

Definition __bitmap_set (map : list Z) (start len : Z) : outcome (list Z) :=
  __bitmap_range Z.lor map start len.

Definition __bitmap_clear (map : list Z) (start len : Z) : outcome (list Z) :=
  __bitmap_range (fun w mask => Z.land w (U32_MAX - mask)) map start len.

(** [__ALIGN_MASK(x, mask)] of include/uapi/linux/const.h. *)
Definition ALIGN_MASK (x mask : Z) : Z := Z.land (u32 (x + mask)) (U32_MAX - mask).

Fixpoint zero_area_loop (fuel : nat) (map : list Z) (size start nr align_mask align_offset : Z) : outcome Z :=
  match fuel with
  | O => NoFuel
  | S fuel =>
      index ← find_next_zero_bit false map size start;
      let index := u32 (ALIGN_MASK (u32 (index + align_offset)) align_mask - align_offset) in
      let end_ := u32 (index + nr) in
      if end_ >? size then Ok end_
      else
        i ← find_next_bit false map end_ index;
        if i <? end_ then zero_area_loop fuel map size (u32 (i + 1)) nr align_mask align_offset
        else Ok index
  end.

Definition bitmap_find_next_zero_area_off (map : list Z) (size start nr align_mask align_offset : Z) : outcome Z :=
  zero_area_loop (S (Z.to_nat size)) map size start nr align_mask align_offset.

Definition bitmap_find_next_zero_area (map : list Z) (size start nr align_mask : Z) : outcome Z :=
  bitmap_find_next_zero_area_off map size start nr align_mask 0.
End find.

(** ** Bits of words and of bitmaps *)

Definition bit (addr : list Z) (k : Z) : bool := Z.testbit (addr !!! Z.to_nat (k / 32)) (k mod 32).

(** A bitmap whose words are words and that has room for [n] bits. *)
Definition holds (addr : list Z) (n : Z) : Prop :=
  Forall (fun w => 0 <= w < 2 ^ 32) addr /\ 0 <= n <= 32 * Z.of_nat (length addr) /\
  32 * Z.of_nat (length addr) < 2 ^ 32.

Lemma ld_ok addr i :
  Forall (fun w => 0 <= w < 2 ^ 32) addr -> 0 <= i < Z.of_nat (length addr) ->
  ld addr i = Ok (addr !!! Z.to_nat i) /\ 0 <= addr !!! Z.to_nat i < 2 ^ 32.
Proof.
  intros Ha Hi. unfold ld. destruct (lookup_lt_is_Some_2 addr (Z.to_nat i)) as [w Hw]; [lia|].
  rewrite (list_lookup_total_correct _ _ _ Hw), Hw. rewrite (proj2 (Z.ltb_ge _ _)) by lia.
  split; [done|]. by apply (Forall_lookup_1 _ _ _ _ Ha Hw).
Qed.

Lemma bit_at addr w i : 0 <= i < 32 -> bit addr (32 * w + i) = Z.testbit (addr !!! Z.to_nat w) i.
Proof.
  intros Hi. unfold bit. replace ((32 * w + i) / 32) with w by (apply (Z.div_unique_pos _ _ _ i); lia).
  replace ((32 * w + i) mod 32) with i by (apply (Z.mod_unique_pos _ _ w); lia). done.
Qed.

Lemma land_31 x : 0 <= x -> Z.land x 31 = x mod 32.
Proof. intros. change 31 with (Z.ones 5). by rewrite Z.land_ones. Qed.

Lemma ones_32_bit i : Z.testbit U32_MAX i = (0 <=? i) && (i <? 32).
Proof.
  change U32_MAX with (Z.ones 32). destruct (Z.leb_spec 0 i); [|by apply Z.testbit_neg_r].
  cbn [andb]. destruct (Z.ltb_spec i 32); [by rewrite Z.ones_spec_low by lia|by rewrite Z.ones_spec_high by lia].
Qed.

Lemma first_mask_bit start i :
  0 <= start -> 0 <= i < 32 -> Z.testbit (BITMAP_FIRST_WORD_MASK start) i = (start mod 32 <=? i).
Proof.
  intros Hs Hi. unfold BITMAP_FIRST_WORD_MASK, u32. rewrite land_31 by lia.
  rewrite Z.mod_pow2_bits_low, Z.shiftl_spec, ones_32_bit by lia.
  pose proof (Z.mod_pos_bound start 32). lia.
Qed.

Lemma last_mask_bit n i :
  1 <= n < 2 ^ 32 -> 0 <= i < 32 -> Z.testbit (BITMAP_LAST_WORD_MASK n) i = (i <=? (n - 1) mod 32).
Proof.
  intros Hn Hi. unfold BITMAP_LAST_WORD_MASK. rewrite land_31 by apply u32_range.
  assert (E : u32 (- n) mod 32 = 31 - (n - 1) mod 32).
  { pose proof (Z.mod_pos_bound (n - 1) 32 ltac:(lia)). pose proof (Z.div_mod (n - 1) 32 ltac:(lia)).
    replace (u32 (- n)) with (2 ^ 32 - n) by (unfold u32; rewrite <- (Z_mod_plus_full _ 1), Z.mod_small; lia).
    symmetry. apply (Z.mod_unique_pos _ _ (2 ^ 27 - 1 - (n - 1) / 32)); lia. }
  rewrite E, Z.shiftr_spec, ones_32_bit by lia. pose proof (Z.mod_pos_bound (n - 1) 32). lia.
Qed.

Lemma last_mask_range n : 0 <= BITMAP_LAST_WORD_MASK n < 2 ^ 32.
Proof.
  unfold BITMAP_LAST_WORD_MASK. rewrite Z.shiftr_div_pow2 by (apply Z.land_nonneg; lia).
  set (k := Z.land _ _). assert (0 <= k) by (apply Z.land_nonneg; lia).
  assert (0 < 2 ^ k) by (apply Z.pow_pos_nonneg; lia).
  split; [apply Z.div_pos; done|]. apply Z.div_lt_upper_bound; [done|].
  change U32_MAX with (2 ^ 32 - 1). nia.
Qed.

Lemma bits_above x i : 0 <= x < 2 ^ 32 -> 32 <= i -> Z.testbit x i = false.
Proof.
  intros Hx Hi. destruct (decide (x = 0)) as [->|]; [apply Z.bits_0|].
  apply Z.bits_above_log2; [lia|]. pose proof (Z.log2_lt_pow2 x 32). lia.
Qed.

Lemma low_bits_range x : 0 <= x -> (forall i, 32 <= i -> Z.testbit x i = false) -> x < 2 ^ 32.
Proof.
  intros Hx H. destruct (Z.lt_ge_cases x (2 ^ 32)) as [|Hge]; [done|exfalso].
  assert (32 <= Z.log2 x) by (apply Z.log2_le_pow2; lia).
  pose proof (Z.bit_log2 x ltac:(lia)) as Hb. by rewrite H in Hb.
Qed.

Lemma land_range x y : 0 <= x < 2 ^ 32 -> 0 <= y -> 0 <= Z.land x y < 2 ^ 32.
Proof.
  intros Hx Hy. assert (0 <= Z.land x y) by (apply Z.land_nonneg; lia). split; [done|].
  apply low_bits_range; [done|]. intros i Hi. by rewrite Z.land_spec, (bits_above x i) by lia.
Qed.

Lemma lor_range x y : 0 <= x < 2 ^ 32 -> 0 <= y < 2 ^ 32 -> 0 <= Z.lor x y < 2 ^ 32.
Proof.
  intros Hx Hy. assert (0 <= Z.lor x y) by (apply Z.lor_nonneg; lia). split; [done|].
  apply low_bits_range; [done|]. intros i Hi. by rewrite Z.lor_spec, (bits_above x), (bits_above y) by lia.
Qed.

Lemma lxor_range x y : 0 <= x < 2 ^ 32 -> 0 <= y < 2 ^ 32 -> 0 <= Z.lxor x y < 2 ^ 32.
Proof.
  intros Hx Hy. assert (0 <= Z.lxor x y) by (apply Z.lxor_nonneg; lia). split; [done|].
  apply low_bits_range; [done|]. intros i Hi. by rewrite Z.lxor_spec, (bits_above x), (bits_above y) by lia.
Qed.

(** The complement of a word. *)
Lemma not_word_bit w i : 0 <= w < 2 ^ 32 -> 0 <= i < 32 -> Z.testbit (U32_MAX - w) i = negb (Z.testbit w i).
Proof.
  intros Hw Hi. replace (U32_MAX - w) with (Z.lxor w U32_MAX).
  - rewrite Z.lxor_spec, ones_32_bit. replace ((0 <=? i) && (i <? 32)) with true by lia. apply xorb_true_r.
  - enough (Z.land w (Z.lxor w U32_MAX) = 0) as H0.
    + apply Z.add_nocarry_lxor in H0. rewrite <- Z.lxor_assoc, Z.lxor_nilpotent, Z.lxor_0_l in H0. lia.
    + apply Z.bits_inj'. intros j Hj. rewrite Z.land_spec, Z.lxor_spec, ones_32_bit, Z.bits_0.
      destruct (Z.lt_ge_cases j 32); [|by rewrite bits_above by lia].
      replace ((0 <=? j) && (j <? 32)) with true by lia. by destruct (Z.testbit w j).
Qed.

(** ** The searches *)

(** [r] is the first position from [start] on, below [nbits], with [P], or
    [nbits]. *)
Record first_from (P : Z -> bool) (start nbits r : Z) : Prop := {
  ff_range : Z.min start nbits <= r <= nbits;
  ff_none k : start <= k < r -> P k = false;
  ff_hit : r < nbits -> P r = true;
}.

(** A word that shows the bits of [P] from position [s] on, those before
    [from] masked. *)
Definition shows (P : Z -> bool) (s from tmp : Z) : Prop :=
  0 <= tmp < 2 ^ 32 /\ forall i, 0 <= i < 32 -> Z.testbit tmp i = P (s + i) && (from <=? s + i).

Lemma shows_zero P s from k : shows P s from 0 -> from <= k -> s <= k < s + 32 -> P k = false.
Proof.
  intros [_ H] Hf Hk. specialize (H (k - s) ltac:(lia)). rewrite Z.bits_0 in H.
  replace (s + (k - s)) with k in H by lia. rewrite (proj2 (Z.leb_le _ _)), andb_true_r in H by lia. done.
Qed.

Lemma shows_first undef P s from tmp nbits :
  shows P s from tmp -> tmp <> 0 -> 0 <= s -> s <= from < s + 32 -> s < nbits -> nbits < 2 ^ 32 -> s + 32 <= 2 ^ 32 ->
  from <= nbits -> first_from P from nbits (Z.min (u32 (s + __ffs undef tmp)) nbits).
Proof.
  intros [Hr Hb] Hne Hs Hf Hn Hn2 Hs2 Hfn.
  destruct (ffs_testbit undef tmp) as (H0 & H1 & H2); [lia|]. set (t := __ffs undef tmp) in *.
  rewrite u32_small by lia. rewrite Hb in H1 by lia. apply andb_true_iff in H1 as [HP Hle].
  split; [lia| |].
  - intros k Hk. specialize (H2 (k - s) ltac:(lia)). rewrite Hb in H2 by lia.
    replace (s + (k - s)) with k in H2 by lia. rewrite (proj2 (Z.leb_le _ _)), andb_true_r in H2 by lia. done.
  - intros Hlt. by rewrite Z.min_l in * by lia.
Qed.

Section next.
Context (undef : Z) (addr1 : list Z) (addr2 : option (list Z)) (nbits : Z) (inv : bool).
Context (H1 : holds addr1 nbits) (H2 : match addr2 with Some a => holds a nbits | None => True end).

Definition combined (k : Z) : bool :=
  xorb (bit addr1 k && match addr2 with Some a => bit a k | None => true end) inv.

Definition invert_word : Z := if inv then U32_MAX else 0.

Lemma next_word_ok w :
  0 <= w -> 32 * w < nbits ->
  exists tmp, next_word addr1 addr2 (32 * w) invert_word = Ok tmp /\ 0 <= tmp < 2 ^ 32 /\
    forall i, 0 <= i < 32 -> Z.testbit tmp i = combined (32 * w + i).
Proof.
  intros Hw Hlt. destruct H1 as (Hf1 & Hn1 & Hm1). unfold next_word, BITS_PER_LONG.
  replace (32 * w / 32) with w by (rewrite Z.mul_comm, Z.div_mul; lia).
  destruct (ld_ok addr1 w Hf1) as [-> Hr1]; [lia|]. rewrite bind_Ok.
  assert (Hinv : 0 <= invert_word < 2 ^ 32) by (unfold invert_word; destruct inv; done).
  assert (Hib : forall i, 0 <= i < 32 -> Z.testbit invert_word i = inv).
  { intros i Hi. unfold invert_word. destruct inv; [rewrite ones_32_bit; lia|apply Z.bits_0]. }
  unfold combined. destruct addr2 as [a2|].
  - destruct H2 as (Hf2 & Hn2 & Hm2). destruct (ld_ok a2 w Hf2) as [-> Hr2]; [lia|]. rewrite !bind_Ok.
    eexists. csplit; [reflexivity|apply lxor_range; [apply land_range|]; lia..|].
    intros i Hi. by rewrite Z.lxor_spec, Z.land_spec, Hib, !bit_at by lia.
  - rewrite bind_Ok. eexists. csplit; [reflexivity|apply lxor_range; lia..|].
    intros i Hi. by rewrite Z.lxor_spec, Hib, !bit_at, andb_true_r by lia.
Qed.

Lemma next_bit_loop_ok fuel w from tmp :
  0 <= w -> 32 * w < nbits -> shows combined (32 * w) from tmp -> 32 * w <= from < 32 * w + 32 -> from < nbits ->
  Z.of_nat (length addr1) - w < Z.of_nat fuel ->
  exists r, (r ← next_bit_loop fuel addr1 addr2 nbits invert_word (32 * w) tmp;
             match r with
             | None => Ok nbits
             | Some (start, tmp) => Ok (Z.min (u32 (start + __ffs undef tmp)) nbits)
             end) = Ok r /\ first_from combined from nbits r.
Proof.
  pose proof H1 as (_ & Hn & Hm).
  revert w from tmp. induction fuel as [|fuel IH]; intros w from tmp Hw Hlt Hsh Hfrom Hfn Hf; [lia|].
  cbn [next_bit_loop]. unfold BITS_PER_LONG. destruct (Z.eqb_spec tmp 0) as [->|Hne].
  2:{ rewrite bind_Ok. eexists. split; [reflexivity|]. apply (shows_first undef _ (32 * w)); lia || done. }
  rewrite (u32_small (32 * w + 32)) by lia. rewrite Z.geb_leb. destruct (Z.leb_spec nbits (32 * w + 32)) as [Hend|Hmore].
  { rewrite bind_Ok. exists nbits. split; [done|]. split; [lia| |lia].
    intros k Hk. apply (shows_zero _ (32 * w) from); done || lia. }
  replace (32 * w + 32) with (32 * (w + 1)) by lia.
  destruct (next_word_ok (w + 1)) as (tmp' & -> & Hr & Hb); [lia|lia|]. rewrite bind_Ok.
  destruct (IH (w + 1) (32 * (w + 1)) tmp') as (r & E & [R1 R2 R3]); [lia|lia| |lia|lia|lia|].
  { split; [done|]. intros i Hi. rewrite Hb by done. rewrite (proj2 (Z.leb_le _ _)) by lia. by rewrite andb_true_r. }
  exists r. split; [exact E|]. split; [lia| |done]. intros k Hk. destruct (Z.lt_ge_cases k (32 * (w + 1))).
  - apply (shows_zero _ (32 * w) from); done || lia.
  - apply R2. lia.
Qed.

Lemma find_next_ok start :
  0 <= start -> exists r, _find_next_bit undef addr1 addr2 nbits start invert_word false = Ok r /\
    first_from combined start nbits r.
Proof.
  intros Hs. unfold _find_next_bit. rewrite Z.geb_leb. destruct (Z.leb_spec nbits start) as [Hge|Hlt].
  { exists nbits. split; [done|]. split; lia. }
  pose proof H1 as (_ & Hn & Hm). pose proof (Z.div_mod start 32 ltac:(lia)) as Ed.
  pose proof (Z.mod_pos_bound start 32 ltac:(lia)) as Hmod.
  assert (Hw : next_word addr1 addr2 start invert_word = next_word addr1 addr2 (32 * (start / 32)) invert_word).
  { unfold next_word, BITS_PER_LONG. by rewrite (Z.mul_comm 32 (start / 32)), Z.div_mul by lia. }
  assert (0 <= start / 32) by (apply Z.div_pos; lia).
  destruct (next_word_ok (start / 32)) as (tmp & E & Hr & Hb); [lia|lia|]. rewrite Hw, E, bind_Ok. cbn zeta.
  unfold BITS_PER_LONG. rewrite (round_down_spec start 32 5) by (try split; done || lia).
  replace (start - start mod 32) with (32 * (start / 32)) by lia.
  assert (0 <= BITMAP_FIRST_WORD_MASK start) by apply u32_range.
  apply next_bit_loop_ok; [lia|lia| |lia|lia|lia]. split; [by apply land_range|].
  intros i Hi. rewrite Z.land_spec, first_mask_bit, Hb by lia. f_equal. lia.
Qed.
End next.

Lemma holds_shrink addr n m : holds addr n -> 0 <= m <= n -> holds addr m.
Proof. intros (H1 & H2 & H3) Hm. split; [done|lia]. Qed.

Lemma first_from_ext P Q start nbits r :
  (forall k, P k = Q k) -> first_from P start nbits r -> first_from Q start nbits r.
Proof. intros E [H1 H2 H3]. split; [done|intros k Hk; rewrite <- E; auto|intros Hr; rewrite <- E; auto]. Qed.

(** ** Maps of at most a word *)

Lemma genmask_range h l : 0 <= GENMASK h l < 2 ^ 32.
Proof.
  unfold GENMASK. apply land_range; [apply u32_range|]. apply Z.shiftr_nonneg. done.
Qed.

Lemma genmask_bit h l i :
  0 <= l < 32 -> 0 <= h < 32 -> 0 <= i < 32 -> Z.testbit (GENMASK h l) i = (l <=? i) && (i <=? h).
Proof.
  intros Hl Hh Hi. unfold GENMASK, BITS_PER_LONG. rewrite Z.land_spec. f_equal.
  - pose proof (Z.pow_pos_nonneg 2 l). pose proof (Z.pow_lt_mono_r 2 l 32). rewrite Z.shiftl_1_l, u32_small
      by (change U32_MAX with (2 ^ 32 - 1); lia).
    replace (U32_MAX - 2 ^ l + 1) with (U32_MAX - Z.ones l) by (rewrite Z.ones_equiv; lia).
    rewrite not_word_bit by (rewrite ?Z.ones_equiv; lia). destruct (Z.lt_ge_cases i l).
    + rewrite Z.ones_spec_low by lia. cbn [negb]. lia.
    + rewrite Z.ones_spec_high by lia. cbn [negb]. lia.
  - rewrite Z.shiftr_spec, ones_32_bit by lia. lia.
Qed.

Lemma small_bit addr i : 0 <= i < 32 -> bit addr i = Z.testbit (addr !!! 0%nat) i.
Proof. intros Hi. exact (bit_at addr 0 i Hi). Qed.

Lemma small_first undef P off size v :
  0 <= off -> off <= size -> 0 < size <= 32 -> 0 <= v < 2 ^ 32 ->
  (forall i, 0 <= i < 32 -> Z.testbit v i = (off <=? i) && (i <=? size - 1) && P i) ->
  first_from P off size (if negb (v =? 0) then __ffs undef v else size).
Proof.
  intros H0 Ho Hs Hv Hb. destruct (Z.eqb_spec v 0) as [->|Hne]; cbn [negb].
  - split; [lia| |lia]. intros i Hi. specialize (Hb i ltac:(lia)). rewrite Z.bits_0 in Hb.
    by replace ((off <=? i) && (i <=? size - 1)) with true in Hb by lia.
  - destruct (ffs_testbit undef v) as (F0 & F1 & F2); [lia|].
    rewrite Hb in F1 by lia. apply andb_true_iff in F1 as [F1 F3]. split; [lia| |done].
    intros i Hi. specialize (F2 i ltac:(lia)). rewrite Hb in F2 by lia.
    by replace ((off <=? i) && (i <=? size - 1)) with true in F2 by lia.
Qed.

(** The word with everything outside the mask set, complemented. *)
Lemma small_zeros w m i :
  0 <= w < 2 ^ 32 -> 0 <= m < 2 ^ 32 -> 0 <= i < 32 ->
  Z.testbit (U32_MAX - Z.lor w (U32_MAX - m)) i = Z.testbit m i && negb (Z.testbit w i).
Proof.
  intros Hw Hm Hi. change U32_MAX with (2 ^ 32 - 1) at 2. rewrite not_word_bit; [|apply lor_range; lia|done].
  rewrite Z.lor_spec. change (2 ^ 32 - 1) with U32_MAX. rewrite not_word_bit by done.
  by destruct (Z.testbit w i), (Z.testbit m i).
Qed.

Lemma small_first_zero undef w P off size :
  0 <= off < size -> 0 < size <= 32 -> 0 <= w < 2 ^ 32 -> (forall i, 0 <= i < 32 -> P i = negb (Z.testbit w i)) ->
  first_from P off size (let val := Z.lor w (U32_MAX - GENMASK (size - 1) off) in
                         if val =? U32_MAX then size else ffz undef val).
Proof.
  intros Ho Hs Hw HP. cbn zeta. pose proof (genmask_range (size - 1) off) as Hg.
  assert (Hl : 0 <= Z.lor w (U32_MAX - GENMASK (size - 1) off) < 2 ^ 32).
  { apply lor_range; [done|]. change U32_MAX with (2 ^ 32 - 1). lia. }
  pose proof (small_first undef P off size (U32_MAX - Z.lor w (U32_MAX - GENMASK (size - 1) off))) as H.
  set (val := Z.lor _ _) in *. unfold ffz. replace (val =? U32_MAX) with (U32_MAX - val =? 0) by lia.
  destruct (U32_MAX - val =? 0); cbn [negb] in H; apply H; try lia.
  1, 3: change U32_MAX with (2 ^ 32 - 1); lia.
  all: intros i Hi; unfold val; rewrite small_zeros, genmask_bit, HP by (done || lia); done.
Qed.

Lemma find_next_bit_ok undef const addr size start :
  holds addr size -> 0 <= start ->
  exists r, find_next_bit undef const addr size start = Ok r /\ first_from (bit addr) start size r.
Proof.
  intros Ha Hs. unfold find_next_bit, small_const_nbits, BITS_PER_LONG.
  destruct (const && (size <=? 32) && (size >? 0)) eqn:Esm.
  - rewrite Z.geb_leb. destruct (Z.leb_spec size start); [exists size; split; [done|]; split; lia|].
    destruct Ha as (Hf & Hn & _). destruct (ld_ok addr 0 Hf) as [-> Hr]; [lia|]. rewrite bind_Ok.
    eexists. split; [reflexivity|]. apply small_first; [lia..|apply land_range; [done|apply genmask_range]|].
    intros i Hi. rewrite Z.land_spec, genmask_bit, small_bit by lia. apply andb_comm.
  - destruct (find_next_ok undef addr None size false Ha I start Hs) as (r & E & H).
    exists r. split; [exact E|]. eapply first_from_ext; [|exact H]. intros k. unfold combined.
    by rewrite andb_true_r, xorb_false_r.
Qed.

Lemma find_next_zero_bit_ok undef const addr size start :
  holds addr size -> 0 <= start ->
  exists r, find_next_zero_bit undef const addr size start = Ok r /\
    first_from (fun k => negb (bit addr k)) start size r.
Proof.
  intros Ha Hs. unfold find_next_zero_bit, small_const_nbits, BITS_PER_LONG.
  destruct (const && (size <=? 32) && (size >? 0)) eqn:Esm.
  - rewrite Z.geb_leb. destruct (Z.leb_spec size start); [exists size; split; [done|]; split; lia|].
    destruct Ha as (Hf & Hn & _). destruct (ld_ok addr 0 Hf) as [-> Hr]; [lia|]. rewrite bind_Ok.
    eexists. split; [reflexivity|]. apply small_first_zero; [lia..|done|]. intros i Hi. by rewrite small_bit.
  - destruct (find_next_ok undef addr None size true Ha I start Hs) as (r & E & H).
    exists r. split; [exact E|]. eapply first_from_ext; [|exact H]. intros k. unfold combined.
    by rewrite andb_true_r, xorb_true_r.
Qed.

(** [find_first_bit] and [find_first_zero_bit] look at the whole words in turn. *)
Section first.
Context (undef : Z) (addr : list Z) (size : Z) (Ha : holds addr size).

Lemma word_shows idx :
  0 <= idx < Z.of_nat (length addr) -> shows (bit addr) (32 * idx) (32 * idx) (addr !!! Z.to_nat idx).
Proof.
  destruct Ha as (Hf & _). intros Hi. destruct (ld_ok addr idx Hf Hi) as [_ Hr]. split; [done|].
  intros i Hib. rewrite bit_at by done. rewrite (proj2 (Z.leb_le _ _)) by lia. by rewrite andb_true_r.
Qed.

Lemma word_shows_not idx :
  0 <= idx < Z.of_nat (length addr) ->
  shows (fun k => negb (bit addr k)) (32 * idx) (32 * idx) (U32_MAX - addr !!! Z.to_nat idx).
Proof.
  destruct Ha as (Hf & _). intros Hi. destruct (ld_ok addr idx Hf Hi) as [_ Hr].
  split; [change U32_MAX with (2 ^ 32 - 1); lia|].
  intros i Hib. rewrite bit_at, not_word_bit by done. rewrite (proj2 (Z.leb_le _ _)) by lia. by rewrite andb_true_r.
Qed.

Lemma first_from_later P idx r :
  0 <= 32 * idx <= size -> (forall k, 0 <= k < 32 * idx -> P k = false) -> first_from P (32 * idx) size r ->
  first_from P 0 size r.
Proof.
  intros Hi Hz [R1 R2 R3]. split; [lia| |done]. intros k Hk.
  destruct (Z.lt_ge_cases k (32 * idx)); [apply Hz|apply R2]; lia.
Qed.

Lemma shows_zero_below P idx k :
  shows P (32 * idx) (32 * idx) 0 -> (forall k, 0 <= k < 32 * idx -> P k = false) -> 0 <= k < 32 * (idx + 1) -> P k = false.
Proof.
  intros Hs Hz Hk. destruct (Z.lt_ge_cases k (32 * idx)); [apply Hz; lia|].
  apply (shows_zero _ _ _ _ Hs); lia.
Qed.

Lemma first_bit_loop_ok fuel idx :
  0 <= idx <= Z.of_nat (length addr) -> (forall k, 0 <= k < 32 * idx -> bit addr k = false) ->
  Z.of_nat (length addr) - idx < Z.of_nat fuel ->
  exists r, first_bit_loop undef fuel addr size idx = Ok r /\ first_from (bit addr) 0 size r.
Proof.
  destruct Ha as (Hf & Hn & Hm). revert idx. induction fuel as [|fuel IH]; intros idx Hi Hz Hfu; [lia|].
  cbn [first_bit_loop]. unfold BITS_PER_LONG. rewrite (u32_small (idx * 32)), (Z.mul_comm idx 32) by lia.
  destruct (Z.ltb_spec (32 * idx) size) as [Hlt|Hge].
  - assert (Hi' : 0 <= idx < Z.of_nat (length addr)) by lia. pose proof (word_shows idx Hi') as Hs.
    destruct (ld_ok addr idx Hf Hi') as [-> Hr]. rewrite bind_Ok.
    destruct (Z.eqb_spec (addr !!! Z.to_nat idx) 0) as [E|Hne]; cbn [negb].
    + rewrite E in Hs. apply IH; [lia| |lia]. intros k. by apply shows_zero_below.
    + eexists. split; [done|]. eapply (first_from_later _ idx); [lia|done|]. apply shows_first; done || lia.
  - exists size. split; [done|]. split; [lia|intros; apply Hz|]; lia.
Qed.

Lemma first_zero_loop_ok fuel idx :
  0 <= idx <= Z.of_nat (length addr) -> (forall k, 0 <= k < 32 * idx -> negb (bit addr k) = false) ->
  Z.of_nat (length addr) - idx < Z.of_nat fuel ->
  exists r, first_zero_loop undef fuel addr size idx = Ok r /\ first_from (fun k => negb (bit addr k)) 0 size r.
Proof.
  destruct Ha as (Hf & Hn & Hm). revert idx. induction fuel as [|fuel IH]; intros idx Hi Hz Hfu; [lia|].
  cbn [first_zero_loop]. unfold BITS_PER_LONG. rewrite (u32_small (idx * 32)), (Z.mul_comm idx 32) by lia.
  destruct (Z.ltb_spec (32 * idx) size) as [Hlt|Hge].
  - assert (Hi' : 0 <= idx < Z.of_nat (length addr)) by lia. pose proof (word_shows_not idx Hi') as Hs.
    destruct (ld_ok addr idx Hf Hi') as [-> Hr]. rewrite bind_Ok.
    destruct (Z.eqb_spec (addr !!! Z.to_nat idx) U32_MAX) as [E|Hne]; cbn [negb].
    + rewrite E, Z.sub_diag in Hs. apply IH; [lia| |lia]. intros k. by apply (shows_zero_below (fun k => negb (bit addr k))).
    + eexists. split; [done|]. eapply (first_from_later _ idx); [lia|done|]. apply shows_first; done || lia.
  - exists size. split; [done|]. split; [lia|intros; apply Hz|]; lia.
Qed.

(** [r] is the last set bit below [size], or [size] when there is none. *)
Definition last_below (r : Z) : Prop :=
  0 <= r <= size /\ (r < size -> bit addr r = true) /\ forall k, (r < size -> r < k) -> 0 <= k < size -> bit addr k = false.

(** A word masked up to position [e]. *)
Lemma last_word_bits idx e val :
  (forall i, 0 <= i < 32 -> Z.testbit val i = (32 * idx + i <? e)) ->
  forall i, 0 <= i < 32 -> Z.testbit (Z.land val (addr !!! Z.to_nat idx)) i = (32 * idx + i <? e) && bit addr (32 * idx + i).
Proof. intros Hb i Hi. by rewrite Z.land_spec, Hb, bit_at. Qed.

Lemma last_word_ok idx e v :
  0 <= idx -> 32 * idx < e <= 32 * idx + 32 -> 0 < e <= size -> (forall k, e <= k < size -> bit addr k = false) ->
  0 < v < 2 ^ 32 -> (forall i, 0 <= i < 32 -> Z.testbit v i = (32 * idx + i <? e) && bit addr (32 * idx + i)) ->
  last_below (u32 (idx * 32 + __fls undef v)).
Proof.
  destruct Ha as (Hf & Hn & Hm). intros Hi He Hes Hz Hv Hb. unfold __fls.
  rewrite (proj2 (Z.eqb_neq _ _)) by lia.
  assert (Hl : 0 <= Z.log2 v < 32) by (split; [apply Z.log2_nonneg|apply Z.log2_lt_pow2; lia]).
  pose proof (Z.bit_log2 v ltac:(lia)) as Htop. rewrite Hb in Htop by lia.
  apply andb_true_iff in Htop as [Ht1 Ht2]. apply Z.ltb_lt in Ht1.
  rewrite u32_small, (Z.mul_comm idx 32) by lia. unfold last_below; csplit; [lia|lia|done|].
  intros k Hk Hk2. specialize (Hk ltac:(lia)). destruct (Z.lt_ge_cases k e) as [Hlt|]; [|apply Hz; lia].
  pose proof (Z.bits_above_log2 v (k - 32 * idx) ltac:(lia) ltac:(lia)) as H0. rewrite Hb in H0 by lia.
  replace (32 * idx + (k - 32 * idx)) with k in H0 by lia.
  by rewrite (proj2 (Z.ltb_lt _ _) Hlt) in H0.
Qed.

Lemma last_word_zero idx e k :
  (forall i, 0 <= i < 32 -> Z.testbit 0 i = (32 * idx + i <? e) && bit addr (32 * idx + i)) ->
  32 * idx <= k < e -> e <= 32 * idx + 32 -> bit addr k = false.
Proof.
  intros Hb Hk He. specialize (Hb (k - 32 * idx) ltac:(lia)). rewrite Z.bits_0 in Hb.
  replace (32 * idx + (k - 32 * idx)) with k in Hb by lia.
  by rewrite (proj2 (Z.ltb_lt _ _)) in Hb by lia.
Qed.

Lemma last_bit_loop_ok idx (e : Z) :
  32 * Z.of_nat idx < e <= 32 * Z.of_nat idx + 32 -> 0 < e <= size ->
  (forall k, e <= k < size -> bit addr k = false) ->
  forall val, 0 <= val < 2 ^ 32 -> (forall i, 0 <= i < 32 -> Z.testbit val i = (32 * Z.of_nat idx + i <? e)) ->
  exists r, last_bit_loop undef idx addr size val = Ok r /\ last_below r.
Proof.
  pose proof Ha as (Hf & Hn & Hm). revert e. induction idx as [|idx IH]; intros e He Hes Hz val Hv Hb;
    cbn [last_bit_loop]; unfold BITS_PER_LONG;
    (match goal with |- context [ld addr ?i] => destruct (ld_ok addr i Hf) as [-> Hr]; [lia|] end);
    rewrite bind_Ok; cbn zeta.
  all: pose proof (last_word_bits _ _ _ Hb) as Hvb;
    pose proof (land_range val _ Hv (proj1 Hr)) as Hvr; 
    match goal with |- context [?v =? 0] => destruct (Z.eqb_spec v 0) as [E|Hne] end; cbn [negb].
  2, 4: eexists; split; [reflexivity|]; eapply last_word_ok; try done; lia.
  - rewrite E in Hvb. exists size. split; [done|]. unfold last_below; csplit; [lia..|]. intros k _ Hk.
    destruct (Z.lt_ge_cases k e); [apply (last_word_zero _ _ _ Hvb)|apply Hz]; lia.
  - rewrite E in Hvb. apply (IH (32 * Z.of_nat idx + 32)); [lia|lia| |done|].
    + intros k Hk. destruct (Z.lt_ge_cases k e); [apply (last_word_zero _ _ _ Hvb)|apply Hz]; lia.
    + intros i Hi. rewrite ones_32_bit. lia.
Qed.

Lemma small_last v :
  0 < size <= 32 -> 0 <= v < 2 ^ 32 ->
  (forall i, 0 <= i < 32 -> Z.testbit v i = (i <? size) && bit addr i) ->
  last_below (if negb (v =? 0) then __fls undef v else size).
Proof.
  intros Hs Hv Hb. destruct (Z.eqb_spec v 0) as [->|Hne]; cbn [negb].
  - unfold last_below. csplit; [lia..|]. intros k _ Hk. by apply (last_word_zero 0 size); [|lia..].
  - assert (Hl : 0 <= __fls undef v < 32).
    { unfold __fls. rewrite (proj2 (Z.eqb_neq _ _)) by done.
      split; [apply Z.log2_nonneg|apply Z.log2_lt_pow2; lia]. }
    rewrite <- (u32_small (__fls undef v)) by lia. apply (last_word_ok 0 size); done || lia.
Qed.

Lemma find_last_bit_ok const : exists r, find_last_bit undef const addr size = Ok r /\ last_below r.
Proof.
  pose proof Ha as (Hf & Hn & Hm). unfold find_last_bit, small_const_nbits, BITS_PER_LONG.
  destruct (const && (size <=? 32) && (size >? 0)) eqn:Esm.
  { destruct (ld_ok addr 0 Hf) as [-> Hr]; [lia|]. rewrite bind_Ok. eexists. split; [reflexivity|].
    apply small_last; [lia|apply land_range; [done|apply genmask_range]|]. intros i Hi.
    rewrite Z.land_spec, genmask_bit, small_bit, andb_comm by lia. f_equal. lia. }
  unfold _find_last_bit, BITS_PER_LONG. destruct (Z.eqb_spec size 0) as [E|Hne]; cbn [negb].
  { exists size. split; [done|]. unfold last_below. csplit; [lia..|intros; lia]. }
  pose proof (Z.div_mod (size - 1) 32 ltac:(lia)). pose proof (Z.mod_pos_bound (size - 1) 32 ltac:(lia)).
  assert (0 <= (size - 1) / 32) by (apply Z.div_pos; lia).
  apply (last_bit_loop_ok _ size); rewrite ?Z2Nat.id by lia; [lia|lia|lia|apply last_mask_range|].
  intros i Hi. rewrite last_mask_bit by lia. lia.
Qed.

Lemma find_first_bit_ok const :
  exists r, find_first_bit undef const addr size = Ok r /\ first_from (bit addr) 0 size r.
Proof.
  pose proof Ha as (Hf & Hn & Hm). unfold find_first_bit, small_const_nbits, BITS_PER_LONG.
  destruct (const && (size <=? 32) && (size >? 0)) eqn:Esm.
  - destruct (ld_ok addr 0 Hf) as [-> Hr]; [lia|]. rewrite bind_Ok. eexists. split; [reflexivity|].
    apply small_first; [lia..|apply land_range; [done|apply genmask_range]|].
    intros i Hi. rewrite Z.land_spec, genmask_bit, small_bit by lia. apply andb_comm.
  - apply first_bit_loop_ok; lia.
Qed.

Lemma find_first_zero_bit_ok const :
  exists r, find_first_zero_bit undef const addr size = Ok r /\ first_from (fun k => negb (bit addr k)) 0 size r.
Proof.
  pose proof Ha as (Hf & Hn & Hm). unfold find_first_zero_bit, small_const_nbits, BITS_PER_LONG.
  destruct (const && (size <=? 32) && (size >? 0)) eqn:Esm.
  - destruct (ld_ok addr 0 Hf) as [-> Hr]; [lia|]. rewrite bind_Ok. eexists. split; [reflexivity|].
    apply small_first_zero; [lia..|done|]. intros i Hi. by rewrite small_bit.
  - apply first_zero_loop_ok; lia.
Qed.

(** The word test of [bitmap_empty] and [bitmap_full]. *)
Lemma word_test w :
  0 < size <= 32 -> 0 <= w < 2 ^ 32 ->
  Z.land w (BITMAP_LAST_WORD_MASK size) = 0 <-> forall k, 0 <= k < size -> Z.testbit w k = false.
Proof.
  intros Hs Hw. assert (Hb : forall i, 0 <= i < 32 ->
    Z.testbit (Z.land w (BITMAP_LAST_WORD_MASK size)) i = Z.testbit w i && (i <=? size - 1)).
  { intros i Hi. rewrite Z.land_spec, last_mask_bit by lia. f_equal. rewrite Z.mod_small by lia. done. }
  split; intros H.
  - intros k Hk. specialize (Hb k ltac:(lia)). rewrite H, Z.bits_0 in Hb.
    by rewrite (proj2 (Z.leb_le _ _)), andb_true_r in Hb by lia.
  - apply Z.bits_inj'. intros i Hi. rewrite Z.bits_0. destruct (Z.lt_ge_cases i 32).
    + rewrite Hb by lia. destruct (Z.leb_spec i (size - 1)); [by rewrite H by lia|apply andb_false_r].
    + by rewrite Z.land_spec, (bits_above w) by lia.
Qed.

Lemma first_from_none P r : 0 <= size -> first_from P 0 size r -> r = size <-> forall k, 0 <= k < size -> P k = false.
Proof.
  intros Hs [R1 R2 R3]. split; [intros ->; exact R2|]. intros H. destruct (Z.lt_ge_cases r size) as [Hr|]; [|lia].
  specialize (R3 Hr). by rewrite H in R3 by lia.
Qed.

Lemma bitmap_empty_ok const :
  exists b, bitmap_empty undef const addr size = Ok b /\ (b = true <-> forall k, 0 <= k < size -> bit addr k = false).
Proof.
  pose proof Ha as (Hf & Hn & Hm). unfold bitmap_empty, small_const_nbits, BITS_PER_LONG.
  destruct (const && (size <=? 32) && (size >? 0)) eqn:Esm.
  - destruct (ld_ok addr 0 Hf) as [-> Hr]; [lia|]. rewrite bind_Ok. eexists. split; [reflexivity|].
    rewrite Z.eqb_eq, word_test by (done || lia). split; intros H k Hk; [rewrite small_bit by lia|rewrite <- small_bit by lia]; auto.
  - destruct (find_first_bit_ok const) as (r & -> & F). rewrite bind_Ok. eexists. split; [reflexivity|].
    rewrite Z.eqb_eq. apply first_from_none; [lia|done].
Qed.

Lemma bitmap_full_ok const :
  exists b, bitmap_full undef const addr size = Ok b /\ (b = true <-> forall k, 0 <= k < size -> bit addr k = true).
Proof.
  pose proof Ha as (Hf & Hn & Hm). unfold bitmap_full, small_const_nbits, BITS_PER_LONG.
  assert (Hneg : (forall k, 0 <= k < size -> negb (bit addr k) = false) <-> (forall k, 0 <= k < size -> bit addr k = true)).
  { split; intros H k Hk; specialize (H k Hk); by destruct (bit addr k). }
  destruct (const && (size <=? 32) && (size >? 0)) eqn:Esm.
  - destruct (ld_ok addr 0 Hf) as [-> Hr]; [lia|]. rewrite bind_Ok. eexists. split; [reflexivity|].
    rewrite Z.eqb_eq, word_test, <- Hneg by (change U32_MAX with (2 ^ 32 - 1); lia).
    split; intros H k Hk; specialize (H k Hk); rewrite small_bit, not_word_bit in *; done || lia.
  - destruct (find_first_zero_bit_ok const) as (r & -> & F). rewrite bind_Ok. eexists. split; [reflexivity|].
    rewrite Z.eqb_eq, <- Hneg. apply first_from_none; [lia|done].
Qed.
End first.

(** ** Ranges of bits *)

Section range.
Context (f : Z -> Z -> Z) (c : bool).
Context (f_range : forall w mask, 0 <= w < 2 ^ 32 -> 0 <= mask < 2 ^ 32 -> 0 <= f w mask < 2 ^ 32).
Context (f_bit : forall w mask i, 0 <= w < 2 ^ 32 -> 0 <= mask < 2 ^ 32 -> 0 <= i < 32 ->
  Z.testbit (f w mask) i = if Z.testbit mask i then c else Z.testbit w i).

(** Exactly the bits of [[lo, hi)] become [c]. *)
Definition ranged (map map' : list Z) (lo hi : Z) : Prop :=
  length map' = length map /\ Forall (fun w => 0 <= w < 2 ^ 32) map' /\
  forall k, 0 <= k -> bit map' k = if (lo <=? k) && (k <? hi) then c else bit map k.

Lemma word_update map p mask lo hi :
  Forall (fun w => 0 <= w < 2 ^ 32) map -> 0 <= p < Z.of_nat (length map) -> 0 <= mask < 2 ^ 32 ->
  32 * p <= lo -> hi <= 32 * p + 32 ->
  (forall i, 0 <= i < 32 -> Z.testbit mask i = (lo <=? 32 * p + i) && (32 * p + i <? hi)) ->
  exists map', (w ← ld map p; st map p (f w mask)) = Ok map' /\ ranged map map' lo hi.
Proof.
  intros Hf Hp Hm Hlo Hhi Hb. destruct (ld_ok map p Hf Hp) as [-> Hr]. rewrite bind_Ok. unfold st.
  replace ((0 <=? p) && (p <? Z.of_nat (length map))) with true by lia.
  eexists. split; [reflexivity|]. unfold ranged. rewrite length_insert. csplit; [done|by apply Forall_insert; auto|].
  intros k Hk. pose proof (Z.div_mod k 32 ltac:(lia)) as Ek. pose proof (Z.mod_pos_bound k 32 ltac:(lia)) as Hkm.
  assert (0 <= k / 32) by (apply Z.div_pos; lia). rewrite Ek at 1 4. rewrite !bit_at by lia.
  destruct (decide (k / 32 = p)) as [E|Hne].
  - rewrite E, list_lookup_total_insert_eq by lia. rewrite f_bit, Hb by done.
    replace (32 * p + k mod 32) with k by lia. done.
  - rewrite list_lookup_total_insert_ne by lia.
    replace ((lo <=? k) && (k <? hi)) with false by lia. done.
Qed.

Lemma ranged_trans map1 map2 map3 lo mid hi :
  lo <= mid <= hi -> ranged map1 map2 lo mid -> ranged map2 map3 mid hi -> ranged map1 map3 lo hi.
Proof.
  intros Hm (L1 & F1 & B1) (L2 & F2 & B2). unfold ranged. csplit; [congruence|done|].
  intros k Hk. rewrite B2, B1 by done.
  destruct (Z.leb_spec lo k), (Z.leb_spec mid k), (Z.ltb_spec k mid), (Z.ltb_spec k hi); done || lia.
Qed.

Lemma range_loop_ok fuel map p cur hi mask :
  Forall (fun w => 0 <= w < 2 ^ 32) map -> 0 <= p -> 32 * p <= cur < 32 * p + 32 -> cur <= hi ->
  hi <= 32 * Z.of_nat (length map) -> 32 * Z.of_nat (length map) < 2 ^ 32 -> 0 <= mask < 2 ^ 32 ->
  (forall i, 0 <= i < 32 -> Z.testbit mask i = (cur <=? 32 * p + i)) ->
  Z.of_nat (length map) - p < Z.of_nat fuel ->
  exists map', range_loop f fuel map p hi (hi - cur) (32 * p + 32 - cur) mask = Ok map' /\ ranged map map' cur hi.
Proof.
  revert map p cur mask. induction fuel as [|fuel IH]; intros map p cur mask Hf Hp Hc Hch Hh Hm Hmask Hb Hfu; [lia|].
  cbn [range_loop]. unfold BITS_PER_LONG. rewrite Z.geb_leb. destruct (Z.leb_spec 0 (hi - cur - (32 * p + 32 - cur))) as [Hw|Hs].
  - destruct (word_update map p mask cur (32 * p + 32)) as (map1 & E1 & R1); [done|lia|done|lia|lia| |].
    { intros i Hi. rewrite Hb by done. lia. }
    destruct (ld map p) as [w| |]; try discriminate. rewrite bind_Ok in E1 |- *. rewrite E1, bind_Ok.
    pose proof R1 as (L1 & F1 & _).
    destruct (IH map1 (p + 1) (32 * (p + 1)) U32_MAX) as (map2 & E2 & R2); rewrite ?L1; try done; try lia.
    { intros i Hi. rewrite ones_32_bit. lia. }
    replace (hi - cur - (32 * p + 32 - cur)) with (hi - 32 * (p + 1)) by lia.
    replace (32 * (p + 1) + 32 - 32 * (p + 1)) with 32 in E2 by lia.
    exists map2. split; [exact E2|]. apply (ranged_trans _ map1 _ _ (32 * p + 32)); [lia|done|].
    by replace (32 * p + 32) with (32 * (p + 1)) by lia.
  - destruct (Z.eqb_spec (hi - cur) 0) as [E|Hne]; cbn [negb].
    + exists map. split; [done|]. unfold ranged. csplit; [done..|]. intros k Hk.
      by replace ((cur <=? k) && (k <? hi)) with false by lia.
    + cbn zeta. pose proof (Z.div_mod (hi - 1) 32 ltac:(lia)). pose proof (Z.mod_pos_bound (hi - 1) 32 ltac:(lia)).
      apply word_update; [done|lia|apply land_range; [done|apply last_mask_range]|lia|lia|]. intros i Hi.
      rewrite Z.land_spec, Hb, last_mask_bit by lia. lia.
Qed.

Lemma bitmap_range_ok map start len :
  holds map (start + len) -> 0 <= start -> 0 <= len ->
  exists map', __bitmap_range f map start len = Ok map' /\ ranged map map' start (start + len).
Proof.
  intros (Hf & Hn & Hm) Hs Hl. unfold __bitmap_range, BIT_WORD, BITS_PER_LONG.
  pose proof (Z.div_mod start 32 ltac:(lia)) as Ed. pose proof (Z.mod_pos_bound start 32 ltac:(lia)).
  assert (0 <= start / 32) by (apply Z.div_pos; lia). rewrite u32_small by lia.
  replace (32 - start mod 32) with (32 * (start / 32) + 32 - start) by lia.
  destruct (range_loop_ok (S (S (length map))) map (start / 32) start (start + len) (BITMAP_FIRST_WORD_MASK start))
    as (map' & E & R); try done; try lia.
  - apply u32_range.
  - intros i Hi. rewrite first_mask_bit by lia. lia.
  - replace (start + len - start) with len in E by lia. eauto.
Qed.
End range.

Lemma set_word_bit w mask i :
  0 <= w < 2 ^ 32 -> 0 <= mask < 2 ^ 32 -> 0 <= i < 32 ->
  Z.testbit (Z.lor w mask) i = if Z.testbit mask i then true else Z.testbit w i.
Proof. intros. rewrite Z.lor_spec. destruct (Z.testbit mask i); [apply orb_true_r|apply orb_false_r]. Qed.

Lemma clear_word_bit w mask i :
  0 <= w < 2 ^ 32 -> 0 <= mask < 2 ^ 32 -> 0 <= i < 32 ->
  Z.testbit (Z.land w (U32_MAX - mask)) i = if Z.testbit mask i then false else Z.testbit w i.
Proof.
  intros. rewrite Z.land_spec, not_word_bit by done. destruct (Z.testbit mask i); [apply andb_false_r|apply andb_true_r].
Qed.

Lemma clear_word_range w mask :
  0 <= w < 2 ^ 32 -> 0 <= mask < 2 ^ 32 -> 0 <= Z.land w (U32_MAX - mask) < 2 ^ 32.
Proof. intros. apply land_range; [done|]. change U32_MAX with (2 ^ 32 - 1). lia. Qed.

(** [__bitmap_set] and [__bitmap_clear], on a bitmap with room for the
    range, stay inside the words of the map and change exactly the bits of
    the range: all of them become set (or clear), every other bit keeps its
    value. *)
Theorem bitmap_range_spec map start len :
  holds map (start + len) -> 0 <= start -> 0 <= len ->
  (exists map', __bitmap_set map start len = Ok map' /\ ranged true map map' start (start + len)) /\
  (exists map', __bitmap_clear map start len = Ok map' /\ ranged false map map' start (start + len)).
Proof.
  intros Hh Hs Hl. split; apply bitmap_range_ok; auto using lor_range, set_word_bit, clear_word_bit, clear_word_range.
Qed.

Definition sample_map : list Z := [0xff0000ff; 0; 0x80000001].

Lemma sample_map_holds n : 0 <= n <= 96 -> holds sample_map n.
Proof. intros Hn. split; [repeat constructor; lia|split; [exact Hn|done]]. Qed.

Lemma bitmap_range_spec_witness :
  exists map', __bitmap_set sample_map 4 61 = Ok map' /\ ranged true sample_map map' 4 65.
Proof. apply (bitmap_range_spec sample_map 4 61); [apply sample_map_holds|..]; lia. Defined.

(** ** Free areas *)

Section zero_area.
Context (undef : Z) (map : list Z) (size nr align k align_offset : Z).
Context (Hmap : holds map size) (Hal : is_pow2 align k) (Hnr : 0 < nr) (Ho : 0 <= align_offset).
Context (Hroom : size + align_offset + align + nr < 2 ^ 32).

(** [nr] clear bits from [a] on, aligned, inside the map. *)
Definition zero_area (a : Z) : Prop :=
  a + nr <= size /\ (align | a + align_offset) /\ forall i, a <= i < a + nr -> bit map i = false.

(** The answer of the search: the lowest free area from [start] on, or a
    number beyond [size] when there is none. *)
Definition area_found (start r : Z) : Prop :=
  (r <= size -> start <= r /\ zero_area r) /\
  forall a, start <= a -> zero_area a -> r <= size /\ r <= a.

Lemma align_mask_ok x :
  0 <= x <= size ->
  let r := u32 (ALIGN_MASK (u32 (x + align_offset)) (align - 1) - align_offset) in
  x <= r < x + align /\ (align | r + align_offset) /\ forall a, x <= a -> (align | a + align_offset) -> r <= a.
Proof.
  intros Hx. cbn zeta. assert (Hp : 0 < align) by (destruct Hal as [? ->]; lia).
  assert (align < 2 ^ 32) by (destruct Hmap; lia). unfold ALIGN_MASK. rewrite (u32_small (x + align_offset)) by lia.
  rewrite (u32_small (_ + (align - 1))) by lia. set (z := x + align_offset + (align - 1)).
  replace (Z.land z (U32_MAX - (align - 1))) with (round_down z align)
    by (unfold round_down; by rewrite (u32_small (align - 1)) by lia).
  destruct (round_down_max z align k Hal) as ([q Hq] & Hr & Hmax); [unfold z; lia|].
  pose proof (Z.mod_pos_bound z align Hp). assert (Hlow : x + align_offset <= round_down z align).
  { rewrite (round_down_spec z align k) by (done || unfold z; lia). unfold z in *. lia. }
  rewrite u32_small by (unfold z in *; lia). csplit; [lia|unfold z in *; lia|by exists q; lia|].
  intros a Ha Hd. enough (round_down z align < a + align_offset + align); [|unfold z in *; lia].
  destruct Hd as [q' Hq']. assert (q <= q'); [|nia]. apply Z.lt_succ_r. nia.
Qed.

Lemma zero_area_loop_ok fuel start0 start :
  0 <= start0 <= start -> size - start < Z.of_nat fuel -> (1 <= fuel)%nat ->
  (forall a, start0 <= a < start -> ~ zero_area a) ->
  exists r, zero_area_loop undef fuel map size start nr (align - 1) align_offset = Ok r /\ area_found start0 r.
Proof.
  assert (Hp : 0 < align) by (destruct Hal as [? ->]; lia). pose proof Hmap as (_ & Hs & _).
  revert start. induction fuel as [|fuel IH]; intros start Hst Hfu Hf1 Hno; [lia|]. cbn [zero_area_loop].
  destruct (find_next_zero_bit_ok undef false map size start Hmap) as (i0 & -> & [F1 F2 F3]); [lia|].
  rewrite bind_Ok. cbn zeta. destruct (align_mask_ok i0) as (A1 & A2 & A3); [lia|].
  set (index := u32 (_ - align_offset)) in *. rewrite (u32_small (index + nr)) by lia.
  assert (Hidx : forall a, start0 <= a -> zero_area a -> index <= a).
  { intros a Ha Hz. destruct (Z.lt_ge_cases a start) as [Hlt|Hge]; [by destruct (Hno a (conj Ha Hlt))|].
    destruct Hz as (Z1 & Z2 & Z3). apply A3; [|done]. destruct (Z.lt_ge_cases a i0) as [Hlt|]; [|done].
    specialize (F2 a (conj Hge Hlt)). by rewrite Z3 in F2 by lia. }
  rewrite Z.gtb_ltb. destruct (Z.ltb_spec size (index + nr)) as [Hgt|Hle].
  { exists (index + nr). split; [done|]. split; [lia|]. intros a Ha Hz. pose proof (Hidx a Ha Hz).
    destruct Hz; lia. }
  destruct (find_next_bit_ok undef false map (index + nr) index) as (i & -> & [G1 G2 G3]); [|lia|].
  { eapply holds_shrink; [done|lia]. }
  rewrite bind_Ok. destruct (Z.ltb_spec i (index + nr)) as [Hhit|Hfree].
  - rewrite u32_small by lia. apply IH; [lia|lia|lia|]. intros a Ha Hz. pose proof (Hidx a ltac:(lia) Hz).
    destruct Hz as (_ & _ & Z3). specialize (G3 Hhit). by rewrite Z3 in G3 by lia.
  - exists index. split; [done|]. assert (i = index + nr) as -> by lia. split; [|intros a Ha Hz].
    + intros _. split; [lia|]. by csplit.
    + split; [lia|by apply Hidx].
Qed.

Lemma zero_area_found start :
  0 <= start -> exists r,
    bitmap_find_next_zero_area_off undef map size start nr (align - 1) align_offset = Ok r /\ area_found start r.
Proof. intros H. pose proof Hmap as (_ & Hs & _). apply zero_area_loop_ok; lia. Qed.
End zero_area.

(** [bitmap_find_next_zero_area_off] terminates, and returns the lowest
    aligned area of [nr] clear bits from [start] on, or a number greater than
    [size] when no such area exists. *)
Theorem bitmap_zero_area_spec undef map size start nr align k align_offset :
  holds map size -> is_pow2 align k -> 0 < nr -> 0 <= align_offset -> 0 <= start ->
  size + align_offset + align + nr < 2 ^ 32 ->
  exists r, bitmap_find_next_zero_area_off undef map size start nr (align - 1) align_offset = Ok r /\
    area_found map size nr align align_offset start r.
Proof. intros. by eapply zero_area_found. Qed.

Lemma bitmap_zero_area_spec_witness :
  exists r, bitmap_find_next_zero_area_off 0 sample_map 96 3 20 7 1 = Ok r /\ area_found sample_map 96 20 8 1 3 r.
Proof.
  apply (bitmap_zero_area_spec 0 sample_map 96 3 20 8 3 1); [apply sample_map_holds|split|..]; lia.
Defined.

(** C25. The searches of lib/find_bit.c terminate without reading outside the
    words that hold the map and return the first set bit, the first clear
    bit, the first bit of either kind from a position on and the last set
    bit, each with [size] standing for "none"; [bitmap_empty] and
    [bitmap_full] decide what they say. *)
Theorem find_bit_spec undef const addr size start :
  holds addr size -> 0 <= start ->
  (exists r, find_next_bit undef const addr size start = Ok r /\ first_from (bit addr) start size r) /\
  (exists r, find_next_zero_bit undef const addr size start = Ok r /\
     first_from (fun k => negb (bit addr k)) start size r) /\
  (exists r, find_first_bit undef const addr size = Ok r /\ first_from (bit addr) 0 size r) /\
  (exists r, find_first_zero_bit undef const addr size = Ok r /\ first_from (fun k => negb (bit addr k)) 0 size r) /\
  (exists r, find_last_bit undef const addr size = Ok r /\ last_below addr size r) /\
  (exists b, bitmap_empty undef const addr size = Ok b /\ (b = true <-> forall k, 0 <= k < size -> bit addr k = false)) /\
  (exists b, bitmap_full undef const addr size = Ok b /\ (b = true <-> forall k, 0 <= k < size -> bit addr k = true)).
Proof.
  intros Ha Hs.
  split; [by apply find_next_bit_ok|]. split; [by apply find_next_zero_bit_ok|].
  split; [by apply find_first_bit_ok|]. split; [by apply find_first_zero_bit_ok|].
  split; [by apply find_last_bit_ok|]. split; [by apply bitmap_empty_ok|by apply bitmap_full_ok].
Qed.

Lemma find_bit_spec_witness :
  (exists r, find_next_bit 0 false sample_map 70 8 = Ok r /\ first_from (bit sample_map) 8 70 r) /\
  find_next_bit 0 true sample_map 30 8 = Ok 24 /\ find_next_zero_bit 0 false sample_map 70 24 = Ok 32 /\
  find_last_bit 0 false sample_map 95 = Ok 64.
Proof.
  split; [|by vm_compute]. apply (find_bit_spec 0 false sample_map 70 8); [apply sample_map_holds|]; lia.
Defined.
