(* ===== verification/StringMem.v ===== *)
(** * Byte memory

    The memory the string functions work on: a partial map from addresses to
    bytes, an access to an address that is not mapped being a fault. [write]
    gives the memory after a sequence of bytes is stored, and is what the
    theorems on the string functions state their effect with: equality of
    memories says that nothing else changed. *)

From stdpp Require Export gmap.
From S2P Require Import Prelude Ctype.
From Stdlib Require Export ZifyBool.

Abbreviation mem := (gmap Z Z).

Definition load (m : mem) (a : Z) : outcome Z := match m !! a with Some b => Ok b | None => Bug end.
Definition store (m : mem) (a b : Z) : outcome mem :=
  match m !! a with Some _ => Ok (<[a := u8 b]> m) | None => Bug end.

(** Little-endian accesses of two and four bytes. *)
Definition load16 (m : mem) (a : Z) : outcome Z :=
  b0 ← load m a; b1 ← load m (a + 1); Ok (b0 + 2 ^ 8 * b1).
Definition store16 (m : mem) (a w : Z) : outcome mem :=
  m ← store m a w; store m (a + 1) (w / 2 ^ 8).
Definition load32 (m : mem) (a : Z) : outcome Z :=
  w0 ← load16 m a; w1 ← load16 m (a + 2); Ok (w0 + 2 ^ 16 * w1).
Definition store32 (m : mem) (a w : Z) : outcome mem :=
  m ← store16 m a w; store16 m (a + 2) (w / 2 ^ 16).

(** Every address holds a byte. *)
Definition mem_ok (m : mem) : Prop := forall a b, m !! a = Some b -> byte b.

Definition mapped (m : mem) (a n : Z) : Prop := forall b, a <= b < a + n -> is_Some (m !! b).

(** The bytes [l] are at [a]. *)
Definition bytes_at (m : mem) (a : Z) (l : list Z) : Prop :=
  forall i x, l !! i = Some x -> m !! (a + Z.of_nat i) = Some x.

Fixpoint write (m : mem) (a : Z) (l : list Z) : mem :=
  match l with
  | [] => m
  | x :: l => write (<[a := x]> m) (a + 1) l
  end.

(** The [n] bytes at [a]. *)
Definition read (m : mem) (a n : Z) : list Z := (fun b => default 0 (m !! b)) <$> seqZ a n.

Lemma write_lookup m a l b :
  write m a l !! b = if (a <=? b) && (b <? a + Z.of_nat (length l)) then l !! Z.to_nat (b - a) else m !! b.
Proof.
  revert m a. induction l as [|x l IH]; intros m a; cbn [write length].
  - by replace ((a <=? b) && (b <? a + Z.of_nat 0)) with false by lia.
  - rewrite IH. destruct (decide (b = a)) as [->|Hne].
    + replace ((a + 1 <=? a) && (a <? a + 1 + Z.of_nat (length l))) with false by lia.
      replace ((a <=? a) && (a <? a + Z.of_nat (S (length l)))) with true by lia.
      by rewrite lookup_insert_eq, Z.sub_diag.
    + rewrite lookup_insert_ne by done.
      replace ((a <=? b) && (b <? a + Z.of_nat (S (length l))))
        with ((a + 1 <=? b) && (b <? a + 1 + Z.of_nat (length l))) by lia.
      destruct (_ && _) eqn:E; [|done]. by replace (Z.to_nat (b - a)) with (S (Z.to_nat (b - (a + 1)))) by lia.
Qed.

Lemma write_outside m a l b : ~ a <= b < a + Z.of_nat (length l) -> write m a l !! b = m !! b.
Proof. intros H. rewrite write_lookup. by replace (_ && _) with false by lia. Qed.

Lemma write_inside m a l b : a <= b < a + Z.of_nat (length l) -> write m a l !! b = l !! Z.to_nat (b - a).
Proof. intros H. rewrite write_lookup. by replace (_ && _) with true by lia. Qed.

Lemma write_app m a l k : write m a (l ++ k) = write (write m a l) (a + Z.of_nat (length l)) k.
Proof.
  revert m a. induction l as [|x l IH]; intros m a; cbn [write app length]; [by rewrite Z.add_0_r|].
  rewrite IH. f_equal. lia.
Qed.

Lemma write_is_Some m a l b : is_Some (m !! b) -> is_Some (write m a l !! b).
Proof.
  intros H. rewrite write_lookup. destruct (_ && _) eqn:E; [|done]. apply lookup_lt_is_Some_2. lia.
Qed.

Lemma mapped_write m a l b n : mapped m b n -> mapped (write m a l) b n.
Proof. intros H c Hc. apply write_is_Some, H, Hc. Qed.

Lemma mapped_sub m a n b k : mapped m a n -> a <= b -> b + k <= a + n -> mapped m b k.
Proof. intros H Hb Hk c Hc. apply H. lia. Qed.

Lemma mem_ok_write m a l : mem_ok m -> Forall byte l -> mem_ok (write m a l).
Proof.
  intros Hm Hl b x. rewrite write_lookup. destruct (_ && _); [|apply Hm].
  intros E. by apply (Forall_lookup_1 _ _ _ _ Hl E).
Qed.

Lemma bytes_at_nil m a : bytes_at m a [].
Proof. intros i x H. done. Qed.

Lemma bytes_at_cons m a x l : bytes_at m a (x :: l) <-> m !! a = Some x /\ bytes_at m (a + 1) l.
Proof.
  split.
  - intros H. split; [specialize (H 0%nat x eq_refl); by rewrite Z.add_0_r in H|]. intros i y Hi.
    specialize (H (S i) y Hi). by replace (a + 1 + Z.of_nat i) with (a + Z.of_nat (S i)) by lia.
  - intros [H1 H2] [|i] y Hi; [cbn in Hi |- *; simplify_eq; by rewrite Z.add_0_r|].
    specialize (H2 i y Hi). by replace (a + Z.of_nat (S i)) with (a + 1 + Z.of_nat i) by lia.
Qed.

Lemma bytes_at_app m a l k : bytes_at m a (l ++ k) <-> bytes_at m a l /\ bytes_at m (a + Z.of_nat (length l)) k.
Proof.
  revert a. induction l as [|x l IH]; intros a; cbn [app length].
  - rewrite Z.add_0_r. split; [intros H; split; [apply bytes_at_nil|done]|by intros [_ H]].
  - rewrite !bytes_at_cons, IH. replace (a + Z.of_nat (S (length l))) with (a + 1 + Z.of_nat (length l)) by lia. tauto.
Qed.

Lemma bytes_at_mapped m a l : bytes_at m a l -> mapped m a (Z.of_nat (length l)).
Proof.
  intros H b Hb. destruct (lookup_lt_is_Some_2 l (Z.to_nat (b - a))) as [x Hx]; [lia|].
  exists x. rewrite <- (H _ _ Hx). f_equal. lia.
Qed.

Lemma bytes_at_write m a l b k :
  (b + Z.of_nat (length k) <= a \/ a + Z.of_nat (length l) <= b) -> bytes_at m a l -> bytes_at (write m b k) a l.
Proof.
  intros Hd H i x Hi. rewrite write_outside; [by apply H|]. apply lookup_lt_Some in Hi. lia.
Qed.

Lemma bytes_at_written m a l : bytes_at (write m a l) a l.
Proof.
  intros i x Hi. rewrite write_inside by (apply lookup_lt_Some in Hi; lia).
  by replace (Z.to_nat (a + Z.of_nat i - a)) with i by lia.
Qed.

Lemma read_length m a n : 0 <= n -> Z.of_nat (length (read m a n)) = n.
Proof. intros H. unfold read. rewrite length_fmap, length_seqZ. lia. Qed.

Lemma read_lookup m a n i : Z.of_nat i < n -> read m a n !! i = Some (default 0 (m !! (a + Z.of_nat i))).
Proof.
  intros H. unfold read. rewrite list_lookup_fmap. rewrite (lookup_seqZ_lt a n i) by lia. done.
Qed.

Lemma read_at m a n : mapped m a n -> bytes_at m a (read m a n).
Proof.
  intros H i x Hi. assert (Z.of_nat i < n).
  { apply lookup_lt_Some in Hi. unfold read in Hi. rewrite length_fmap, length_seqZ in Hi. lia. }
  rewrite read_lookup in Hi by done. destruct (H (a + Z.of_nat i)) as [y Hy]; [lia|].
  rewrite Hy in *. cbn in Hi. congruence.
Qed.

Lemma read_byte m a n : mem_ok m -> Forall byte (read m a n).
Proof.
  intros Hm. apply Forall_fmap, Forall_forall. intros b _. cbn. destruct (m !! b) as [x|] eqn:E; cbn; [by apply (Hm b)|].
  unfold byte. lia.
Qed.

Lemma read_app m a n k : 0 <= n -> 0 <= k -> read m a (n + k) = read m a n ++ read m (a + n) k.
Proof. intros Hn Hk. unfold read. by rewrite seqZ_app, fmap_app by lia. Qed.

Lemma read_ext m m' a n : (forall b, a <= b < a + n -> m !! b = m' !! b) -> read m a n = read m' a n.
Proof.
  intros H. apply list_fmap_ext. intros i b Hb. apply list_elem_of_lookup_2, elem_of_seqZ in Hb. by rewrite H.
Qed.

Lemma read_bytes m a l : bytes_at m a l -> read m a (Z.of_nat (length l)) = l.
Proof.
  intros H. apply list_eq. intros i. destruct (decide (i < length l)%nat) as [Hi|Hi].
  - rewrite read_lookup by lia. destruct (lookup_lt_is_Some_2 l i Hi) as [x Hx]. by rewrite (H _ _ Hx), Hx.
  - rewrite !(proj2 (lookup_ge_None _ _)); [done|lia|]. pose proof (read_length m a (Z.of_nat (length l))). lia.
Qed.

(** ** Accesses *)

Lemma load_ok m a x : m !! a = Some x -> load m a = Ok x.
Proof. intros H. unfold load. by rewrite H. Qed.

Lemma store_ok m a x : is_Some (m !! a) -> byte x -> store m a x = Ok (write m a [x]).
Proof. intros [y H] Hx. unfold store. rewrite H. unfold u8. rewrite Z.mod_small by (unfold byte in Hx; lia). done. Qed.

Lemma store_u8 m a x : is_Some (m !! a) -> store m a x = Ok (write m a [u8 x]).
Proof. intros [y H]. unfold store. by rewrite H. Qed.

(** Solves the side conditions of accesses. *)
Ltac mem_side :=
  solve [ done | lia
        | match goal with H : mapped ?m _ _ |- mapped ?m _ _ => apply (mapped_sub _ _ _ _ _ H); lia end
        | repeat apply mapped_write;
          match goal with H : mapped ?m _ _ |- mapped ?m _ _ => apply (mapped_sub _ _ _ _ _ H); lia end ].

(** The value of bytes, the lowest first. *)
Fixpoint word_of (l : list Z) : Z := match l with [] => 0 | b :: l => b + 256 * word_of l end.

Lemma word_of_range l : Forall byte l -> 0 <= word_of l < 256 ^ Z.of_nat (length l).
Proof.
  induction 1 as [|b l Hb Hl IH]; cbn [word_of length]; [done|].
  rewrite Nat2Z.inj_succ, Z.pow_succ_r by lia. unfold byte in Hb. lia.
Qed.

Lemma word_of_app l k : word_of (l ++ k) = word_of l + 256 ^ Z.of_nat (length l) * word_of k.
Proof.
  induction l as [|b l IH]; cbn [word_of app length]; [by rewrite Z.mul_1_l|].
  rewrite IH, Nat2Z.inj_succ, Z.pow_succ_r by lia. lia.
Qed.

Lemma read_cons m a n : 0 < n -> read m a n = default 0 (m !! a) :: read m (a + 1) (n - 1).
Proof. intros H. unfold read. by rewrite seqZ_cons by lia. Qed.

Lemma read_1 m a x : m !! a = Some x -> read m a 1 = [x].
Proof. intros H. rewrite read_cons by lia. by rewrite H. Qed.

Lemma load_read m a : mapped m a 1 -> load m a = Ok (word_of (read m a 1)).
Proof.
  intros H. destruct (H a) as [x Hx]; [lia|]. rewrite (read_1 _ _ _ Hx), (load_ok _ _ _ Hx). cbn [word_of].
  by rewrite Z.add_0_r.
Qed.

Lemma load16_read m a : mapped m a 2 -> load16 m a = Ok (word_of (read m a 2)).
Proof.
  intros H. unfold load16. rewrite (load_read m a) by mem_side. rewrite bind_Ok.
  rewrite load_read by mem_side. rewrite bind_Ok.
  change (read m a 2) with (read m a (1 + 1)). rewrite (read_app m a 1 1), word_of_app by lia. by rewrite read_length by lia.
Qed.

Lemma load32_read m a : mapped m a 4 -> load32 m a = Ok (word_of (read m a 4)).
Proof.
  intros H. unfold load32. rewrite (load16_read m a) by mem_side. rewrite bind_Ok.
  rewrite load16_read by mem_side. rewrite bind_Ok.
  change (read m a 4) with (read m a (2 + 2)). rewrite (read_app m a 2 2), word_of_app by lia. by rewrite read_length by lia.
Qed.

Lemma u8_low b w : byte b -> u8 (b + 256 * w) = b.
Proof.
  intros Hb. unfold u8. rewrite (Z.mul_comm 256). change (2 ^ 8) with 256. rewrite Z_mod_plus_full.
  apply Z.mod_small. exact Hb.
Qed.

Lemma div_low b w : byte b -> (b + 256 * w) / 256 = w.
Proof. intros Hb. unfold byte in Hb. symmetry. apply (Z.div_unique_pos _ _ _ b); lia. Qed.

Lemma store16_write m a b0 b1 w :
  mapped m a 2 -> byte b0 -> byte b1 -> store16 m a (b0 + 256 * (b1 + 256 * w)) = Ok (write m a [b0; b1]).
Proof.
  intros H H0 H1. unfold store16. rewrite store_u8 by (apply H; lia). rewrite bind_Ok, u8_low by done.
  change (2 ^ 8) with 256. rewrite div_low by done. rewrite store_u8 by (apply write_is_Some, H; lia).
  by rewrite u8_low.
Qed.

Lemma store16_list m a l : mapped m a 2 -> Forall byte l -> length l = 2%nat -> store16 m a (word_of l) = Ok (write m a l).
Proof.
  intros H Hl E. destruct l as [|b0 [|b1 [|]]]; try done. inversion_clear Hl as [|? ? H0 Hl']. inversion_clear Hl' as [|? ? H1 _].
  exact (store16_write m a b0 b1 0 H H0 H1).
Qed.

Lemma store32_list m a l : mapped m a 4 -> Forall byte l -> length l = 4%nat -> store32 m a (word_of l) = Ok (write m a l).
Proof.
  intros H Hl E. destruct l as [|b0 [|b1 [|b2 [|b3 [|]]]]]; try done.
  rewrite !Forall_cons in Hl. destruct Hl as (H0 & H1 & H2 & H3 & _).
  unfold store32. cbn [word_of]. rewrite store16_write by mem_side.
  rewrite bind_Ok. change (2 ^ 16) with (256 * 256). rewrite <- Z.div_div, !div_low by (done || lia).
  rewrite (store16_write _ (a + 2) b2 b3 0) by mem_side.
  change [b0; b1; b2; b3] with ([b0; b1] ++ [b2; b3]). by rewrite write_app.
Qed.

(** ** The pages of the memory *)

(** Mapping is by pages of 4096 bytes. *)
Definition paged (m : mem) : Prop :=
  forall a b, is_Some (m !! a) -> b / 4096 = a / 4096 -> is_Some (m !! b).

Lemma paged_write m a l : mapped m a (Z.of_nat (length l)) -> paged m -> paged (write m a l).
Proof.
  intros Hm Hp b c Hb Hc. apply write_is_Some, (Hp b); [|done].
  destruct (decide (a <= b < a + Z.of_nat (length l))); [by apply Hm|by rewrite write_outside in Hb].
Qed.

(** ** How much there is to scan *)

(** Consecutive mapped addresses are at most as many as the memory has. *)
Lemma mapped_size m a n : mapped m a n -> n <= Z.of_nat (size m).
Proof.
  intros H. destruct (Z.le_gt_cases n 0) as [|Hn]; [lia|].
  assert (Hsub : (list_to_set (seqZ a n) : gset Z) ⊆ dom m).
  { intros b Hb. apply elem_of_list_to_set, elem_of_seqZ in Hb. apply elem_of_dom, H. lia. }
  apply subseteq_size in Hsub. rewrite size_list_to_set, length_seqZ, size_dom in Hsub by apply NoDup_seqZ. lia.
Qed.

Lemma size_write m a l : mapped m a (Z.of_nat (length l)) -> size (write m a l) = size m.
Proof.
  intros H. rewrite <- !size_dom. f_equal. apply set_eq. intros b. rewrite !elem_of_dom. split.
  - intros Hb. destruct (decide (a <= b < a + Z.of_nat (length l))); [by apply H|by rewrite write_outside in Hb].
  - apply write_is_Some.
Qed.
