(* ===== verification/Memmove.v ===== *)
(** * arch/x86/lib/memcpy_32.c: memcpy, memset and memmove

    The copying routines of the 32-bit kernel, instruction by instruction: the
    registers are arguments ([cx] the count, [si] the source, [di] the
    destination), a label is a definition, and a jump is a call. The theorem
    says that [memmove] moves the bytes whatever the overlap. Addresses do
    not wrap. *)

From S2P Require Import Prelude Ctype StringMem.

Local Open Scope Z_scope.

(** ** The string instructions *)

(** [rep movsl]; [step] is 4, or -4 after [std]. *)
Fixpoint rep_movsl (cnt : nat) (m : mem) (si di step : Z) : outcome mem :=
  match cnt with
  | O => Ok m
  | S cnt => w ← load32 m si; m ← store32 m di w; rep_movsl cnt m (si + step) (di + step) step
  end.

Fixpoint rep_movsb (cnt : nat) (m : mem) (si di : Z) : outcome mem :=
  match cnt with
  | O => Ok m
  | S cnt => b ← load m si; m ← store m di b; rep_movsb cnt m (si + 1) (di + 1)
  end.

Fixpoint rep_stosb (cnt : nat) (m : mem) (al di : Z) : outcome mem :=
  match cnt with
  | O => Ok m
  | S cnt => m ← store m di al; rep_stosb cnt m al (di + 1)
  end.

(** ** arch/x86/include/asm/string_32.h *)

Definition __memcpy (m : mem) (to from n : Z) : outcome mem :=
  m ← rep_movsl (Z.to_nat (n / 4)) m from to 4;
  let cx := Z.land n 3 in
  if cx =? 0 then Ok m
  else rep_movsb (Z.to_nat cx) m (from + 4 * (n / 4)) (to + 4 * (n / 4)).

Definition __memset_generic (m : mem) (s c count : Z) : outcome mem := rep_stosb (Z.to_nat count) m c s.

Definition memcpy (m : mem) (to from n : Z) : outcome mem := __memcpy m to from n.
Definition memset (m : mem) (s c count : Z) : outcome mem := __memset_generic m s c count.

(** ** memmove *)

(** Label 10: at most one byte. *)
Definition move_1 (m : mem) (cx si di : Z) : outcome mem :=
  if cx <? 1 then Ok m else cl ← load m si; store m di cl.

(** Label 9: two or three bytes. *)
Definition move_2 (m : mem) (cx si di : Z) : outcome mem :=
  if cx <? 2 then move_1 m cx si di
  else
    dx ← load16 m si;
    bx ← load16 m (si + cx - 2);
    m ← store16 m di dx;
    store16 m (di + cx - 2) bx.

(** Label 8: four to seven bytes. *)
Definition move_4 (m : mem) (cx si di : Z) : outcome mem :=
  if cx <? 4 then move_2 m cx si di
  else
    r3 ← load32 m si;
    r4 ← load32 m (si + cx - 4);
    m ← store32 m di r3;
    store32 m (di + cx - 4) r4.

(** Label 1: fewer than 16 bytes. *)
Definition move_8 (m : mem) (cx si di : Z) : outcome mem :=
  if cx <? 8 then move_4 m cx si di
  else
    r3 ← load32 m si;
    r4 ← load32 m (si + 4);
    r5 ← load32 m (si + cx - 8);
    r1 ← load32 m (si + cx - 4);
    m ← store32 m di r3;
    m ← store32 m (di + 4) r4;
    m ← store32 m (di + cx - 8) r5;
    store32 m (di + cx - 4) r1.

(** The second label 3: 16 bytes forward in each turn, until the [sub] borrows. *)
Fixpoint forward_loop (fuel : nat) (m : mem) (cx si di : Z) : outcome (mem * Z * Z * Z) :=
  match fuel with
  | O => NoFuel
  | S fuel =>
      let borrow := cx <? 16 in
      let cx := u32 (cx - 16) in
      r3 ← load32 m si;
      r4 ← load32 m (si + 4);
      m ← store32 m di r3;
      m ← store32 m (di + 4) r4;
      r3 ← load32 m (si + 8);
      r4 ← load32 m (si + 12);
      m ← store32 m (di + 8) r3;
      m ← store32 m (di + 12) r4;
      if borrow then Ok (m, cx, si + 16, di + 16) else forward_loop fuel m cx (si + 16) (di + 16)
  end.

Definition forward_16 (m : mem) (cx si di : Z) : outcome mem :=
  '(m, cx, si, di) ← forward_loop (S (Z.to_nat (cx / 16))) m (u32 (cx - 16)) si di;
  move_8 m (u32 (cx + 16)) si di.

(** Label 4: words forward, the last one saved first. *)
Definition forward_words (m : mem) (cx si di : Z) : outcome mem :=
  r3 ← load32 m (si + cx - 4);
  let r4 := di + cx - 4 in
  m ← rep_movsl (Z.to_nat (Z.shiftr cx 2)) m si di 4;
  store32 m r4 r3.

(** Label 6: words backward, the first one saved first. *)
Definition backward_words (m : mem) (cx si di : Z) : outcome mem :=
  r3 ← load32 m si;
  let r4 := di in
  m ← rep_movsl (Z.to_nat (Z.shiftr cx 2)) m (si + cx - 4) (di + cx - 4) (-4);
  store32 m r4 r3.

(** Label 7: 16 bytes backward in each turn. *)
Fixpoint backward_loop (fuel : nat) (m : mem) (cx si di : Z) : outcome (mem * Z * Z * Z) :=
  match fuel with
  | O => NoFuel
  | S fuel =>
      let borrow := cx <? 16 in
      let cx := u32 (cx - 16) in
      r3 ← load32 m (si - 4);
      r4 ← load32 m (si - 8);
      m ← store32 m (di - 4) r3;
      m ← store32 m (di - 8) r4;
      r3 ← load32 m (si - 12);
      r4 ← load32 m (si - 16);
      m ← store32 m (di - 12) r3;
      m ← store32 m (di - 16) r4;
      if borrow then Ok (m, cx, si - 16, di - 16) else backward_loop fuel m cx (si - 16) (di - 16)
  end.

(** Label 5. *)
Definition backward_16 (m : mem) (cx si di : Z) : outcome mem :=
  '(m, cx, si, di) ← backward_loop (S (Z.to_nat (cx / 16))) m (u32 (cx - 16)) (si + cx) (di + cx);
  let cx := u32 (cx + 16) in
  move_8 m cx (si - cx) (di - cx).

Definition memmove (m : mem) (dest src n : Z) : outcome mem :=
  if n <? 0x10 then move_8 m n src dest
  else if src <? dest then
    if n <? 680 then backward_16 m n src dest
    else if Z.land (Z.lxor src dest) 0xff =? 0 then backward_words m n src dest
    else backward_16 m n src dest
  else if n <? 680 then forward_16 m n src dest
  else if Z.land (Z.lxor src dest) 0xff =? 0 then forward_words m n src dest
  else forward_16 m n src dest.

(** ** Pieces of a move *)

Lemma moved_lookup m m' d s n b :
  0 <= n -> write m d (read m' s n) !! b
            = if (d <=? b) && (b <? d + n) then Some (default 0 (m' !! (s + (b - d)))) else m !! b.
Proof.
  intros Hn. rewrite write_lookup, read_length by done. destruct (_ && _) eqn:E; [|done].
  rewrite read_lookup by lia. by replace (s + Z.of_nat (Z.to_nat (b - d))) with (s + (b - d)) by lia.
Qed.

(** Two pieces of the same move that touch are one. *)
Lemma moved_union m m' d s j n k p :
  0 <= n -> 0 <= p -> k <= j + n -> j <= k + p ->
  write (write m (d + j) (read m' (s + j) n)) (d + k) (read m' (s + k) p)
  = write m (d + Z.min j k) (read m' (s + Z.min j k) (Z.max (j + n) (k + p) - Z.min j k)).
Proof.
  intros Hn Hp H1 H2. apply map_eq. intros b. rewrite !moved_lookup by lia.
  destruct (Z.leb_spec (d + k) b), (Z.ltb_spec b (d + k + p)), (Z.leb_spec (d + j) b), (Z.ltb_spec b (d + j + n));
    cbn [andb];
    match goal with |- context [(?x <=? b) && (b <? ?y)] =>
      destruct (Z.leb_spec x b), (Z.ltb_spec b y); cbn [andb]; try lia; do 3 f_equal; lia || done end.
Qed.

Lemma moved_id m m' d s : write m d (read m' s 0) = m.
Proof. done. Qed.

(** The bytes still to be moved are not overwritten by a piece in front of
    them (behind them, when moving backward). *)
Lemma read_moved m d s n a k :
  0 <= n -> (a + k <= d \/ d + n <= a) -> read (write m d (read m s n)) a k = read m a k.
Proof. intros Hn H. apply read_ext. intros b Hb. apply write_outside. rewrite read_length by done. lia. Qed.

Lemma mapped_after m d s n a k : mapped m a k -> mapped (write m d (read m s n)) a k.
Proof. apply mapped_write. Qed.

Ltac at_offset := rewrite <- ?Z.add_sub_assoc, <- ?Z.add_assoc.
Ltac at_offset_in E := rewrite <- ?Z.add_sub_assoc, <- ?Z.add_assoc in E.

Section move.
Context (m0 : mem) (dest src n : Z) (Hok : mem_ok m0) (Hn : 0 <= n < 2 ^ 32).
Context (Hs : mapped m0 src n) (Hd : mapped m0 dest n).

(** The bytes from [i] to [j] have been moved. *)
Definition part (i j : Z) : mem := write m0 (dest + i) (read m0 (src + i) (j - i)).

Lemma part_mapped_src i j a k : src <= a -> a + k <= src + n -> mapped (part i j) a k.
Proof. intros. by apply mapped_write, (mapped_sub m0 src n). Qed.

Lemma part_mapped_dest i j a k : dest <= a -> a + k <= dest + n -> mapped (part i j) a k.
Proof. intros. by apply mapped_write, (mapped_sub m0 dest n). Qed.

Lemma part_ok i j : mem_ok (part i j).
Proof. apply mem_ok_write; [done|by apply read_byte]. Qed.

Lemma part_read i j k p :
  i <= j -> 0 <= p -> (i = j \/ src + k + p <= dest + i \/ dest + j <= src + k) ->
  read (part i j) (src + k) p = read m0 (src + k) p.
Proof.
  intros ? ? H. destruct (decide (i = j)) as [->|]; [unfold part; by rewrite Z.sub_diag|apply read_moved; lia].
Qed.

(** One more piece. *)
Lemma part_write i j k p :
  i <= j -> 0 <= p -> k <= j -> i <= k + p ->
  write (part i j) (dest + k) (read m0 (src + k) p) = part (Z.min i k) (Z.max j (k + p)).
Proof.
  intros. unfold part. rewrite moved_union by lia. do 2 f_equal. lia.
Qed.

Lemma part_load i j k :
  i <= j -> 0 <= k -> k + 4 <= n -> (i = j \/ src + k + 4 <= dest + i \/ dest + j <= src + k) ->
  load32 (part i j) (src + k) = Ok (word_of (read m0 (src + k) 4)).
Proof. intros. rewrite load32_read by (apply part_mapped_src; lia). by rewrite part_read by lia. Qed.

Lemma part_store i j k :
  i <= j -> 0 <= k -> k + 4 <= n -> k <= j -> i <= k + 4 ->
  store32 (part i j) (dest + k) (word_of (read m0 (src + k) 4)) = Ok (part (Z.min i k) (Z.max j (k + 4))).
Proof.
  intros. rewrite store32_list; [by rewrite part_write by lia|apply part_mapped_dest; lia|by apply read_byte|].
  pose proof (read_length m0 (src + k) 4). lia.
Qed.

Lemma part_load16 i j k :
  i <= j -> 0 <= k -> k + 2 <= n -> (i = j \/ src + k + 2 <= dest + i \/ dest + j <= src + k) ->
  load16 (part i j) (src + k) = Ok (word_of (read m0 (src + k) 2)).
Proof. intros. rewrite load16_read by (apply part_mapped_src; lia). by rewrite part_read by lia. Qed.

Lemma part_store16 i j k :
  i <= j -> 0 <= k -> k + 2 <= n -> k <= j -> i <= k + 2 ->
  store16 (part i j) (dest + k) (word_of (read m0 (src + k) 2)) = Ok (part (Z.min i k) (Z.max j (k + 2))).
Proof.
  intros. rewrite store16_list; [by rewrite part_write by lia|apply part_mapped_dest; lia|by apply read_byte|].
  pose proof (read_length m0 (src + k) 2). lia.
Qed.

Lemma part_load8 i j k :
  i <= j -> 0 <= k -> k + 1 <= n -> (i = j \/ src + k + 1 <= dest + i \/ dest + j <= src + k) ->
  load (part i j) (src + k) = Ok (word_of (read m0 (src + k) 1)).
Proof. intros. rewrite load_read by (apply part_mapped_src; lia). by rewrite part_read by lia. Qed.

Lemma part_store8 i j k :
  i <= j -> 0 <= k -> k + 1 <= n -> k <= j -> i <= k + 1 ->
  store (part i j) (dest + k) (word_of (read m0 (src + k) 1)) = Ok (part (Z.min i k) (Z.max j (k + 1))).
Proof.
  intros. rewrite store_u8 by (apply (part_mapped_dest i j (dest + k) 1); lia).
  rewrite <- part_write by lia. do 2 f_equal. pose proof (read_byte m0 (src + k) 1 Hok) as Hb.
  rewrite read_cons in * by lia. inversion_clear Hb as [|? ? Hb0 _]. change (read m0 (src + k + 1) (1 - 1)) with (@nil Z).
  cbn [word_of]. by rewrite u8_low.
Qed.

Ltac moving :=
  first [ rewrite bind_Ok
        | rewrite part_load by first [done | lia] | rewrite part_store by first [done | lia]
        | rewrite part_load16 by lia | rewrite part_store16 by lia
        | rewrite part_load8 by first [done | lia] | rewrite part_store8 by first [done | lia] ].

Lemma part_start : part 0 0 = m0.
Proof. done. Qed.

Lemma part_all : part 0 n = write m0 dest (read m0 src n).
Proof. unfold part. by rewrite !Z.add_0_r, Z.sub_0_r. Qed.

Lemma move_8_part : n < 16 -> move_8 (part 0 0) n (src + 0) (dest + 0) = Ok (part 0 n).
Proof.
  intros Hr. unfold move_8, move_4, move_2, move_1. at_offset.
  destruct (Z.ltb_spec n 8); [destruct (Z.ltb_spec n 4); [destruct (Z.ltb_spec n 2); [destruct (Z.ltb_spec n 1)|]|]|].
  all: repeat moving; do 2 f_equal; lia.
Qed.

End move.

Lemma tail_moves m dest src n :
  mem_ok m -> 0 <= n < 16 -> mapped m src n -> mapped m dest n ->
  move_8 m n src dest = Ok (write m dest (read m src n)).
Proof.
  intros Hm Hn Hs Hd. rewrite <- part_all. pose proof (move_8_part m dest src n Hm ltac:(lia) Hs Hd ltac:(lia)) as E.
  by rewrite !Z.add_0_r in E.
Qed.

Lemma add_back x : 0 <= x < 2 ^ 32 -> u32 (u32 (x - 16) + 16) = x.
Proof. intros H. unfold u32. rewrite Zplus_mod_idemp_l. rewrite Z.mod_small; lia. Qed.

Section moves.
Context (m0 : mem) (dest src n : Z) (Hok : mem_ok m0) (Hn : 0 <= n < 2 ^ 32).
Context (Hs : mapped m0 src n) (Hd : mapped m0 dest n).

Abbreviation part := (part m0 dest src).

Ltac side := first [done | lia | rewrite ?Z2Nat.id by lia; lia].
Ltac moving :=
  first [ rewrite bind_Ok
        | rewrite (part_load m0 dest src n) by side | rewrite (part_store m0 dest src n) by side
        | rewrite (part_load8 m0 dest src n) by side | rewrite (part_store8 m0 dest src n) by side ].

(** Sixteen bytes at offset [i], and the move up to there. *)
Lemma forward_loop_ok fuel i :
  dest <= src -> 0 <= i -> i + 16 <= n -> (n - i) / 16 <= Z.of_nat fuel ->
  let e := n - (n - i) mod 16 in
  forward_loop fuel (part 0 i) (n - i - 16) (src + i) (dest + i)
  = Ok (part 0 e, u32 (n - e - 16), src + e, dest + e).
Proof.
  intros Hle. revert i. induction fuel as [|fuel IH]; intros i Hi Hi16 Hf; cbn zeta.
  { pose proof (Z.div_le_lower_bound (n - i) 16 1). lia. }
  assert (Hdm : (n - (i + 16)) / 16 = (n - i) / 16 - 1 /\ (n - (i + 16)) mod 16 = (n - i) mod 16).
  { replace (n - (i + 16)) with (n - i + (-1) * 16) by lia. rewrite Z.div_add, Z_mod_plus_full by lia. lia. }
  destruct Hdm as [Hdiv Hmod]. cbn [forward_loop]. at_offset. repeat moving.
  replace (Z.min _ _) with 0 by lia. replace (Z.max _ _) with (i + 16) by lia.
  destruct (Z.ltb_spec (n - i - 16) 16) as [Hb|Hb]; at_offset.
  - replace ((n - i) mod 16) with (n - (i + 16)) by (rewrite <- Hmod, Z.mod_small; lia).
    replace (n - (n - (i + 16))) with (i + 16) by lia. by replace (n - (i + 16) - 16) with (n - i - 16 - 16) by lia.
  - rewrite u32_small by lia. replace (n - i - 16 - 16) with (n - (i + 16) - 16) by lia.
    specialize (IH (i + 16)). rewrite Hmod in IH. apply IH; lia.
Qed.

Lemma backward_loop_ok fuel r :
  src < dest -> 16 <= r <= n -> r / 16 <= Z.of_nat fuel ->
  let e := r mod 16 in
  backward_loop fuel (part r n) (r - 16) (src + r) (dest + r) = Ok (part e n, u32 (e - 16), src + e, dest + e).
Proof.
  intros Hle. revert r. induction fuel as [|fuel IH]; intros r Hr Hf; cbn zeta.
  { pose proof (Z.div_le_lower_bound r 16 1). lia. }
  assert (Hdm : (r - 16) / 16 = r / 16 - 1 /\ (r - 16) mod 16 = r mod 16).
  { replace (r - 16) with (r + (-1) * 16) by lia. rewrite Z.div_add, Z_mod_plus_full by lia. lia. }
  destruct Hdm as [Hdiv Hmod]. cbn [backward_loop]. at_offset. repeat moving.
  replace (Z.min _ _) with (r - 16) by lia. replace (Z.max _ _) with n by lia.
  destruct (Z.ltb_spec (r - 16) 16) as [Hb|Hb]; at_offset.
  - replace (r mod 16) with (r - 16) by (rewrite <- Hmod, Z.mod_small; lia). done.
  - rewrite u32_small by lia. specialize (IH (r - 16)). rewrite Hmod in IH. apply IH; lia.
Qed.

Lemma rep_movsl_forward c i :
  dest <= src \/ src + n <= dest -> 0 <= i -> i + 4 * Z.of_nat c <= n ->
  rep_movsl c (part 0 i) (src + i) (dest + i) 4 = Ok (part 0 (i + 4 * Z.of_nat c)).
Proof.
  intros Hle. revert i. induction c as [|c IH]; intros i Hi Hc; cbn [rep_movsl].
  - by rewrite Z.mul_0_r, Z.add_0_r.
  - repeat moving. at_offset. replace (Z.min _ _) with 0 by lia. replace (Z.max _ _) with (i + 4) by lia.
    rewrite IH by lia. do 2 f_equal. lia.
Qed.

Lemma rep_movsl_backward c r :
  src < dest -> 4 * Z.of_nat c <= r <= n ->
  rep_movsl c (part r n) (src + (r - 4)) (dest + (r - 4)) (-4) = Ok (part (r - 4 * Z.of_nat c) n).
Proof.
  intros Hle. revert r. induction c as [|c IH]; intros r Hr; cbn [rep_movsl].
  - by rewrite Z.mul_0_r, Z.sub_0_r.
  - repeat moving. replace (Z.min _ _) with (r - 4) by lia. replace (Z.max _ _) with n by lia.
    at_offset. replace (r - 4 + -4) with (r - 4 - 4) by lia. rewrite IH by lia. do 2 f_equal. lia.
Qed.

Lemma rep_movsb_forward c i :
  dest <= src \/ src + n <= dest -> 0 <= i -> i + Z.of_nat c <= n ->
  rep_movsb c (part 0 i) (src + i) (dest + i) = Ok (part 0 (i + Z.of_nat c)).
Proof.
  intros Hle. revert i. induction c as [|c IH]; intros i Hi Hc; cbn [rep_movsb].
  - by rewrite Z.add_0_r.
  - repeat moving. at_offset. replace (Z.min _ _) with 0 by lia. replace (Z.max _ _) with (i + 1) by lia.
    rewrite IH by lia. do 2 f_equal. lia.
Qed.

Lemma part_empty : part n n = m0.
Proof. unfold part. by rewrite Z.sub_diag. Qed.

Lemma forward_words_part :
  dest <= src -> 4 <= n -> forward_words (part 0 0) n (src + 0) (dest + 0) = Ok (part 0 n).
Proof.
  intros Hle H4. unfold forward_words. rewrite Z.shiftr_div_pow2 by lia. change (2 ^ 2) with 4.
  pose proof (Z.div_mod n 4). pose proof (Z.mod_pos_bound n 4).
  at_offset. moving. rewrite bind_Ok. cbn zeta.
  rewrite rep_movsl_forward by side. repeat moving.
  do 2 f_equal; rewrite ?Z2Nat.id; lia.
Qed.

Lemma backward_words_part :
  src < dest -> 4 <= n -> backward_words (part n n) n (src + 0) (dest + 0) = Ok (part 0 n).
Proof.
  intros Hle H4. unfold backward_words. rewrite Z.shiftr_div_pow2 by lia. change (2 ^ 2) with 4.
  pose proof (Z.div_mod n 4). pose proof (Z.mod_pos_bound n 4).
  moving. rewrite bind_Ok. cbn zeta.
  replace (src + 0 + n - 4) with (src + (n - 4)) by lia. replace (dest + 0 + n - 4) with (dest + (n - 4)) by lia.
  rewrite rep_movsl_backward by (rewrite ?Z2Nat.id; lia). repeat moving.
  do 2 f_equal; rewrite ?Z2Nat.id; lia.
Qed.

Lemma memcpy_part :
  dest <= src \/ src + n <= dest -> __memcpy (part 0 0) (dest + 0) (src + 0) n = Ok (part 0 n).
Proof.
  intros Hle. unfold __memcpy. pose proof (Z.div_mod n 4 ltac:(lia)). pose proof (Z.mod_pos_bound n 4 ltac:(lia)).
  assert (0 <= n / 4) by (apply Z.div_pos; lia). rewrite rep_movsl_forward by side. rewrite bind_Ok. cbn zeta.
  change 3 with (Z.ones 2). rewrite Z.land_ones by lia. change (2 ^ 2) with 4. rewrite Z2Nat.id, !Z.add_0_r, Z.add_0_l by lia.
  destruct (Z.eqb_spec (n mod 4) 0); [do 2 f_equal; lia|]. rewrite rep_movsb_forward by side. do 2 f_equal. side.
Qed.

(** A tail of fewer than 16 bytes at offset [a]. *)
Lemma tail_ok i j a r :
  i <= j -> a <= j -> i <= a + r -> 0 <= a -> 0 <= r < 16 -> a + r <= n ->
  (src + a + r <= dest + i \/ dest + j <= src + a) ->
  move_8 (part i j) r (src + a) (dest + a) = Ok (part (Z.min i a) (Z.max j (a + r))).
Proof.
  intros. rewrite tail_moves; [|by apply part_ok|lia|by apply (part_mapped_src _ _ _ n); side|by apply (part_mapped_dest _ _ _ n); side].
  by rewrite part_read, part_write by side.
Qed.

Lemma forward_16_part : dest <= src -> 16 <= n -> forward_16 (part 0 0) n (src + 0) (dest + 0) = Ok (part 0 n).
Proof.
  intros Hle H16. pose proof (Z.mod_pos_bound n 16 ltac:(lia)). pose proof (Z.mod_le n 16).
  assert (0 <= n / 16) by (apply Z.div_pos; lia). unfold forward_16. rewrite (u32_small (n - 16)) by lia.
  pose proof (forward_loop_ok (S (Z.to_nat (n / 16))) 0 Hle) as E. cbn zeta in E. rewrite !Z.sub_0_r in E.
  rewrite E by lia. clear E. rewrite bind_Ok. cbn beta iota.
  replace (n - (n - n mod 16) - 16) with (n mod 16 - 16) by lia. rewrite add_back by lia.
  rewrite tail_ok by lia. do 2 f_equal; lia.
Qed.

Lemma backward_16_part : src < dest -> 16 <= n -> backward_16 (part n n) n (src + 0) (dest + 0) = Ok (part 0 n).
Proof.
  intros Hle H16. pose proof (Z.mod_pos_bound n 16 ltac:(lia)). pose proof (Z.mod_le n 16).
  assert (0 <= n / 16) by (apply Z.div_pos; lia). unfold backward_16. rewrite (u32_small (n - 16)) by lia.
  rewrite !Z.add_0_r. rewrite backward_loop_ok by lia. rewrite bind_Ok. cbn beta iota zeta.
  rewrite add_back by lia.
  replace (src + n mod 16 - n mod 16) with (src + 0) by lia. replace (dest + n mod 16 - n mod 16) with (dest + 0) by lia.
  rewrite tail_ok by lia. do 2 f_equal; lia.
Qed.

Lemma memmove_part : memmove m0 (dest + 0) (src + 0) n = Ok (part 0 n).
Proof.
  unfold memmove. destruct (Z.ltb_spec n 0x10).
  { rewrite part_all, !Z.add_0_r. apply tail_moves; side. }
  destruct (Z.ltb_spec (src + 0) (dest + 0)).
  - pose proof part_empty as E. pose proof backward_16_part as B. pose proof backward_words_part as W. rewrite E in B, W.
    destruct (Z.ltb_spec n 680); [apply B; lia|]. destruct (_ =? 0); [apply W|apply B]; lia.
  - pose proof forward_16_part as F. pose proof forward_words_part as W. rewrite part_start in F, W.
    destruct (Z.ltb_spec n 680); [apply F; lia|]. destruct (_ =? 0); [apply W|apply F]; lia.
Qed.
End moves.

(** [memcpy] of ranges that do not overlap, or to a lower address. *)
Lemma memcpy_ok m dest src n :
  mem_ok m -> 0 <= n < 2 ^ 32 -> mapped m src n -> mapped m dest n -> dest <= src \/ src + n <= dest ->
  memcpy m dest src n = Ok (write m dest (read m src n)).
Proof.
  intros Hm Hn Hs Hd Ho. pose proof (memcpy_part m dest src n Hm Hn Hs Hd Ho) as E.
  by rewrite part_start, part_all, !Z.add_0_r in E.
Qed.

Lemma memset_ok m s c n :
  0 <= n -> mapped m s n -> memset m s c n = Ok (write m s (replicate (Z.to_nat n) (u8 c))).
Proof.
  intros Hn. unfold memset, __memset_generic. rewrite <- (Z2Nat.id n) at 1 by done. generalize (Z.to_nat n) as k. clear.
  intros k. revert m s. induction k as [|k IH]; intros m s H; cbn [rep_stosb replicate]; [done|].
  rewrite store_u8 by (apply H; lia). rewrite bind_Ok. cbn [write]. apply IH.
  apply (mapped_write m s [u8 c]). eapply mapped_sub; [done|lia..].
Qed.

Lemma memmove_ok m dest src n :
  mem_ok m -> 0 <= n < 2 ^ 32 -> mapped m src n -> mapped m dest n ->
  memmove m dest src n = Ok (write m dest (read m src n)).
Proof.
  intros Hm Hn Hs Hd. pose proof (memmove_part m dest src n Hm Hn Hs Hd) as E. by rewrite part_all, !Z.add_0_r in E.
Qed.

(** C26. [memmove] copies [n] bytes correctly whatever the overlap of source and
    destination and whichever of its paths it takes (forward or backward, by
    16 bytes, by [rep movsl] or by the straight-line tails): the memory
    afterwards is the memory before with the [n] bytes the source held
    written at the destination, and nothing else changed. *)
Theorem memmove_spec m dest src n :
  mem_ok m -> 0 <= n < 2 ^ 32 -> mapped m src n -> mapped m dest n ->
  memmove m dest src n = Ok (write m dest (read m src n)).
Proof. apply memmove_ok. Qed.

(** [n] bytes from [a] on, each of them the low byte of its address. *)
Definition counting (a n : Z) : mem := list_to_map ((fun b => (b, u8 b)) <$> seqZ a n).

Lemma counting_lookup a n b x : counting a n !! b = Some x <-> a <= b < a + n /\ x = u8 b.
Proof.
  unfold counting. rewrite <- elem_of_list_to_map.
  - rewrite list_elem_of_fmap. split.
    + intros (c & E & Hc%elem_of_seqZ). simplify_eq. lia.
    + intros [H ->]. exists b. rewrite elem_of_seqZ. split; [done|lia].
  - rewrite <- list_fmap_compose. apply NoDup_fmap; [intros ? ?; cbn; congruence|apply NoDup_seqZ].
Qed.

Lemma counting_ok a n : mem_ok (counting a n).
Proof. intros b x Hb. apply counting_lookup in Hb as [_ ->]. unfold byte, u8. apply Z.mod_pos_bound. lia. Qed.

Lemma counting_mapped a n b k : a <= b -> b + k <= a + n -> mapped (counting a n) b k.
Proof. intros H1 H2 c Hc. exists (u8 c). apply counting_lookup. lia. Qed.

Lemma memmove_spec_witness :
  memmove (counting 4096 64) 4099 4096 37 = Ok (write (counting 4096 64) 4099 (read (counting 4096 64) 4096 37)).
Proof.
  apply (memmove_spec (counting 4096 64) 4099 4096 37); [apply counting_ok|lia|apply counting_mapped; lia..].
Defined.
