(* ===== verification/LibString.v ===== *)
(** * arch/x86/lib/string_32.c, lib/string.c, lib/string_helpers.c: strings

    The string functions over the byte memory of StringMem. A pointer is an
    address, [NULL] is 0, and a function that writes returns the new memory.
    Scanning loops have as many turns as the memory has bytes, and one more:
    each turn reads the next address, so that a scan that does not stop before
    faults. *)

From S2P Require Import Prelude Ctype StringMem Memmove.

Local Open Scope Z_scope.

Definition NULL : Z := 0.

(** ** arch/x86/lib/string_32.c *)

(** [lodsb; stosb; testb; jne]. *)
Fixpoint strcpy_loop (fuel : nat) (m : mem) (si di : Z) : outcome mem :=
  match fuel with
  | O => NoFuel
  | S fuel =>
      al ← load m si;
      m ← store m di al;
      if negb (al =? 0) then strcpy_loop fuel m (si + 1) (di + 1) else Ok m
  end.

Definition strcpy (m : mem) (dest src : Z) : outcome mem := strcpy_loop (S (size m)) m src dest.

(** [decl; js]: a count with its top bit set ends the loop at once. *)
Fixpoint strncpy_loop (fuel : nat) (m : mem) (si di cx : Z) : outcome mem :=
  match fuel with
  | O => NoFuel
  | S fuel =>
      let cx := u32 (cx - 1) in
      if 2 ^ 31 <=? cx then Ok m
      else
        al ← load m si;
        m ← store m di al;
        if negb (al =? 0) then strncpy_loop fuel m (si + 1) (di + 1) cx
        else rep_stosb (Z.to_nat cx) m al (di + 1)
  end.

Definition strncpy (m : mem) (dest src count : Z) : outcome mem := strncpy_loop (S (size m)) m src dest count.

(** [sbbl %eax,%eax; orb $1,%al] after the comparison of two bytes. *)
Definition sbb_or_1 (a b : Z) : Z := if a <? b then -1 else 1.

Fixpoint strcmp_loop (fuel : nat) (m : mem) (si di : Z) : outcome Z :=
  match fuel with
  | O => NoFuel
  | S fuel =>
      al ← load m si;
      b ← load m di;
      if negb (al =? b) then Ok (sbb_or_1 al b)
      else if negb (al =? 0) then strcmp_loop fuel m (si + 1) (di + 1)
      else Ok 0
  end.

Definition strcmp (m : mem) (cs ct : Z) : outcome Z := strcmp_loop (S (size m)) m cs ct.

Fixpoint strncmp_loop (fuel : nat) (m : mem) (si di cx : Z) : outcome Z :=
  match fuel with
  | O => NoFuel
  | S fuel =>
      let cx := u32 (cx - 1) in
      if 2 ^ 31 <=? cx then Ok 0
      else
        al ← load m si;
        b ← load m di;
        if negb (al =? b) then Ok (sbb_or_1 al b)
        else if negb (al =? 0) then strncmp_loop fuel m (si + 1) (di + 1) cx
        else Ok 0
  end.

Definition strncmp (m : mem) (cs ct count : Z) : outcome Z := strncmp_loop (S (size m)) m cs ct count.

Fixpoint strchr_loop (fuel : nat) (m : mem) (ah si : Z) : outcome Z :=
  match fuel with
  | O => NoFuel
  | S fuel =>
      al ← load m si;
      if al =? ah then Ok si
      else if negb (al =? 0) then strchr_loop fuel m ah (si + 1)
      else Ok NULL
  end.

Definition strchr (m : mem) (s c : Z) : outcome Z := strchr_loop (S (size m)) m (u8 c) s.

(** [repne scasb]: the address after the last byte compared, the count left,
    and whether it was equal to [al]. *)
Fixpoint repne_scasb (fuel : nat) (m : mem) (al di cx : Z) (zf : bool) : outcome (Z * Z * bool) :=
  match fuel with
  | O => NoFuel
  | S fuel =>
      if cx =? 0 then Ok (di, cx, zf)
      else
        b ← load m di;
        if b =? al then Ok (di + 1, cx - 1, true)
        else repne_scasb fuel m al (di + 1) (cx - 1) false
  end.

Definition strlen (m : mem) (s : Z) : outcome Z :=
  '(_, res, _) ← repne_scasb (S (size m)) m 0 s 0xffffffff false;
  Ok (u32 (U32_MAX - res - 1)).

Definition memchr (m : mem) (cs c count : Z) : outcome Z :=
  if count =? 0 then Ok NULL
  else
    '(di, _, zf) ← repne_scasb (S (size m)) m (u8 c) cs count false;
    Ok ((if zf : bool then di else 1) - 1).

Fixpoint strnlen_loop (fuel : nat) (m : mem) (p cnt : Z) : outcome Z :=
  match fuel with
  | O => NoFuel
  | S fuel =>
      let cnt := u32 (cnt - 1) in
      if cnt =? U32_MAX then Ok p
      else
        b ← load m p;
        if b =? 0 then Ok p else strnlen_loop fuel m (p + 1) cnt
  end.

Definition strnlen (m : mem) (s count : Z) : outcome Z :=
  p ← strnlen_loop (S (size m)) m s count; Ok (p - s).

(** ** lib/string.c *)

Definition strlcpy (m : mem) (dest src size : Z) : outcome (mem * Z) :=
  ret ← strlen m src;
  if negb (size =? 0) then
    let len := if ret >=? size then size - 1 else ret in
    m ← memcpy m dest src len;
    m ← store m (dest + len) 0;
    Ok (m, ret)
  else Ok (m, ret).

(** arch/x86/include/asm/word-at-a-time.h *)
Definition REPEAT_BYTE (x : Z) : Z := (U32_MAX / 0xff) * x.
Definition one_bits : Z := REPEAT_BYTE 0x01.
Definition high_bits : Z := REPEAT_BYTE 0x80.

Definition has_zero (a : Z) : Z := Z.land (Z.land (u32 (a - one_bits)) (U32_MAX - a)) high_bits.
Definition prep_zero_mask (a bits : Z) : Z := bits.
Definition create_zero_mask (bits : Z) : Z := Z.shiftr (Z.land (u32 (bits - 1)) (U32_MAX - bits)) 7.
Definition zero_bytemask (mask : Z) : Z := mask.
Definition count_masked_bytes (mask : Z) : Z := Z.land (Z.shiftr (0x0ff0001 + mask) 23) mask.
Definition find_zero (mask : Z) : Z := count_masked_bytes mask.

(** The first loop of [strscpy], a word at a time: the value returned, or
    where it stops and the count left. *)
Fixpoint strscpy_words (fuel : nat) (m : mem) (dest src res count max : Z) : outcome (mem * (Z + Z * Z)) :=
  match fuel with
  | O => NoFuel
  | S fuel =>
      if max >=? 4 then
        c ← load32 m (src + res);
        let data := has_zero c in
        if negb (data =? 0) then
          let data := prep_zero_mask c data in
          let data := create_zero_mask data in
          m ← store32 m (dest + res) (Z.land c (zero_bytemask data));
          Ok (m, inl (res + find_zero data))
        else
          m ← store32 m (dest + res) c;
          strscpy_words fuel m dest src (res + 4) (count - 4) (max - 4)
      else Ok (m, inr (res, count))
  end.

(** The second loop: the value returned, or [None] when the count ends. *)
Fixpoint strscpy_bytes (count : nat) (m : mem) (dest src res : Z) : outcome (mem * option Z) :=
  match count with
  | O => Ok (m, None)
  | S count =>
      c ← load m (src + res);
      m ← store m (dest + res) c;
      if c =? 0 then Ok (m, Some res) else strscpy_bytes count m dest src (res + 1)
  end.

Definition strscpy (m : mem) (dest src count : Z) : outcome (mem * Z) :=
  if (count =? 0) || (count >? 2 ^ 31 - 1) then Ok (m, - E2BIG)
  else
    let max :=
      if negb (Z.land src 3 =? 0) then
        let limit := 4096 - Z.land src 4095 in
        if limit <? count then limit else count
      else count in
    '(m, r) ← strscpy_words (S (Z.to_nat (max / 4))) m dest src 0 count max;
    match r with
    | inl len => Ok (m, len)
    | inr (res, rest) =>
        '(m, r) ← strscpy_bytes (Z.to_nat rest) m dest src res;
        match r with
        | Some len => Ok (m, len)
        | None =>
            let res := res + rest in
            m ← (if negb (res =? 0) then store m (dest + (res - 1)) 0 else Ok m);
            Ok (m, - E2BIG)
        end
    end.

Definition strlcat (m : mem) (dest src count : Z) : outcome (mem * Z) :=
  dsize ← strlen m dest;
  len ← strlen m src;
  let res := u32 (dsize + len) in
  _ ← BUG_ON (dsize >=? count);
  let dest := dest + dsize in
  let count := count - dsize in
  let len := if len >=? count then count - 1 else len in
  m ← memcpy m dest src len;
  m ← store m (dest + len) 0;
  Ok (m, res).

Fixpoint strrchr_loop (fuel : nat) (m : mem) (s c last : Z) : outcome Z :=
  match fuel with
  | O => NoFuel
  | S fuel =>
      b ← load m s;
      let last := if b =? c then s else last in
      if negb (b =? 0) then strrchr_loop fuel m (s + 1) c last else Ok last
  end.

Definition strrchr (m : mem) (s c : Z) : outcome Z := strrchr_loop (S (size m)) m s (u8 c) NULL.

Fixpoint strnchr_loop (count : nat) (m : mem) (s c : Z) : outcome Z :=
  match count with
  | O => Ok NULL
  | S count =>
      b ← load m s;
      if b =? c then Ok s else if b =? 0 then Ok NULL else strnchr_loop count m (s + 1) c
  end.

Definition strnchr (m : mem) (s count c : Z) : outcome Z := strnchr_loop (Z.to_nat count) m s (u8 c).

(** The inner loop of [strpbrk]: is [c] a character of the string at [sc2]. *)
Fixpoint among (fuel : nat) (m : mem) (c sc2 : Z) : outcome bool :=
  match fuel with
  | O => NoFuel
  | S fuel =>
      b ← load m sc2;
      if b =? 0 then Ok false else if c =? b then Ok true else among fuel m c (sc2 + 1)
  end.

Fixpoint strpbrk_loop (fuel : nat) (m : mem) (sc1 ct : Z) : outcome Z :=
  match fuel with
  | O => NoFuel
  | S fuel =>
      c ← load m sc1;
      if c =? 0 then Ok NULL
      else
        hit ← among (S (size m)) m c ct;
        if hit : bool then Ok sc1 else strpbrk_loop fuel m (sc1 + 1) ct
  end.

Definition strpbrk (m : mem) (cs ct : Z) : outcome Z := strpbrk_loop (S (size m)) m cs ct.

(** The result is the memory, the token and the new [*s]. *)
Definition strsep (m : mem) (s ct : Z) : outcome (mem * Z * Z) :=
  let sbegin := s in
  if sbegin =? NULL then Ok (m, NULL, s)
  else
    end_ ← strpbrk m sbegin ct;
    if negb (end_ =? NULL) then m ← store m end_ 0; Ok (m, sbegin, end_ + 1)
    else Ok (m, sbegin, end_).

Fixpoint memcmp_words (fuel : nat) (m : mem) (cs ct count : Z) : outcome (Z * Z * Z) :=
  match fuel with
  | O => NoFuel
  | S fuel =>
      u1 ← load32 m cs;
      u2 ← load32 m ct;
      if negb (u1 =? u2) then Ok (cs, ct, count)
      else
        let count := count - 4 in
        if count >=? 4 then memcmp_words fuel m (cs + 4) (ct + 4) count else Ok (cs + 4, ct + 4, count)
  end.

Fixpoint memcmp_bytes (count : nat) (m : mem) (su1 su2 : Z) : outcome Z :=
  match count with
  | O => Ok 0
  | S count =>
      a ← load m su1;
      b ← load m su2;
      let res := a - b in
      if negb (res =? 0) then Ok res else memcmp_bytes count m (su1 + 1) (su2 + 1)
  end.

Definition memcmp (m : mem) (cs ct count : Z) : outcome Z :=
  '(cs, ct, count) ← (if count >=? 4 then memcmp_words (S (Z.to_nat (count / 4))) m cs ct count else Ok (cs, ct, count));
  memcmp_bytes (Z.to_nat count) m cs ct.

(** ** lib/string_helpers.c *)

Definition strscpy_pad (m : mem) (dest src count : Z) : outcome (mem * Z) :=
  if (dest =? NULL) || (src =? NULL) || (count =? 0) then Ok (m, - E2BIG)
  else
    '(m, len) ← strlcpy m dest src count;
    if len >=? count then Ok (m, - E2BIG)
    else m ← memset m (dest + len) 0 (count - len); Ok (m, len).

Fixpoint skip_spaces_loop (fuel : nat) (m : mem) (str : Z) : outcome Z :=
  match fuel with
  | O => NoFuel
  | S fuel => c ← load m str; if isspace c then skip_spaces_loop fuel m (str + 1) else Ok str
  end.

Definition skip_spaces (m : mem) (str : Z) : outcome Z := skip_spaces_loop (S (size m)) m str.

Fixpoint strreplace_loop (fuel : nat) (m : mem) (s old new : Z) : outcome (mem * Z) :=
  match fuel with
  | O => NoFuel
  | S fuel =>
      c ← load m s;
      if c =? 0 then Ok (m, s)
      else
        m ← (if c =? u8 old then store m s new else Ok m);
        strreplace_loop fuel m (s + 1) old new
  end.

Definition strreplace (m : mem) (s old new : Z) : outcome (mem * Z) := strreplace_loop (S (size m)) m s old new.
