(* ===== verification/LibStringSpec.v ===== *)
(** * The string functions meet their specifications

    Scans terminate on every memory; on C strings the functions compute what
    their names say; the word-at-a-time copy is the byte-wise one and stays
    inside the pages of the string. *)

From S2P Require Import Prelude Ctype StringMem Memmove LibString.

Local Open Scope Z_scope.

(** ** Scans terminate *)

(** [k] bytes from [a] on have been read. *)
Definition scanned (m : mem) (a k : Z) : Prop := 0 <= k /\ mapped m a k.

Lemma scanned_0 m a : scanned m a 0.
Proof. split; [done|]. intros b Hb. lia. Qed.

Lemma load_cases m a : (exists b, load m a = Ok b /\ is_Some (m !! a)) \/ load m a = Bug.
Proof. unfold load. destruct (m !! a) as [b|]; [left; eauto|by right]. Qed.

Lemma scanned_next m a k : scanned m a k -> is_Some (m !! (a + k)) -> scanned m a (k + 1).
Proof.
  intros [Hk H] Hn. split; [lia|]. intros b Hb. destruct (decide (b = a + k)) as [->|]; [done|apply H; lia].
Qed.

Lemma scanned_size m a k : scanned m a k -> k <= Z.of_nat (size m).
Proof. intros [_ H]. by apply (mapped_size m a). Qed.

Lemma store_cases m a x : (exists m', store m a x = Ok m' /\ m' = write m a [u8 x] /\ is_Some (m !! a)) \/ store m a x = Bug.
Proof. unfold store. destruct (m !! a) as [b|] eqn:E; [left; eauto|by right]. Qed.

Lemma scanned_store m a k d x : is_Some (m !! d) -> scanned m a k -> scanned (write m d [x]) a k /\ size (write m d [x]) = size m.
Proof.
  intros Hd [Hk H]. split; [split; [done|by apply mapped_write]|]. apply size_write. intros b Hb. cbn [length] in Hb.
  by replace b with d by lia.
Qed.

(** One turn of a scan: the byte at [a + k] is read, or the scan faults. *)
Ltac scan_load m a k :=
  let b := fresh "b" in let Hb := fresh "Hb" in
  destruct (load_cases m (a + k)) as [(b & -> & Hb)| ->]; [rewrite bind_Ok|discriminate].

Ltac scan_next IH k := rewrite <- ?Z.add_assoc; apply (IH _ (k + 1)); [by apply scanned_next|lia].

Section scans.
Implicit Types (m : mem) (a k : Z) (fuel : nat).

Lemma scan_fuel m a k : scanned m a k -> Z.of_nat (size m) < k + 0 -> False.
Proof. intros H Hf. apply scanned_size in H. lia. Qed.

Lemma strchr_scan m a c k fuel : scanned m a k -> Z.of_nat (size m) < k + Z.of_nat fuel -> strchr_loop fuel m c (a + k) <> NoFuel.
Proof.
  revert k. induction fuel as [|fuel IH]; intros k H Hf; [by destruct (scan_fuel _ _ _ H)|]. cbn [strchr_loop].
  scan_load m a k. case_match; [done|]. case_match; [|done]. rewrite <- Z.add_assoc. apply IH; [by apply scanned_next|lia].
Qed.

Lemma scasb_scan m al a cx zf k fuel :
  scanned m a k -> Z.of_nat (size m) < k + Z.of_nat fuel -> repne_scasb fuel m al (a + k) cx zf <> NoFuel.
Proof.
  revert k cx zf. induction fuel as [|fuel IH]; intros k cx zf H Hf; [by destruct (scan_fuel _ _ _ H)|]. cbn [repne_scasb].
  case_match; [done|]. scan_load m a k. case_match; [done|]. rewrite <- Z.add_assoc. apply IH; [by apply scanned_next|lia].
Qed.

Lemma strnlen_scan m a cnt k fuel :
  scanned m a k -> Z.of_nat (size m) < k + Z.of_nat fuel -> strnlen_loop fuel m (a + k) cnt <> NoFuel.
Proof.
  revert k cnt. induction fuel as [|fuel IH]; intros k cnt H Hf; [by destruct (scan_fuel _ _ _ H)|]. cbn [strnlen_loop].
  case_match; [done|]. scan_load m a k. case_match; [done|]. rewrite <- Z.add_assoc. apply IH; [by apply scanned_next|lia].
Qed.

Lemma strrchr_scan m a c last k fuel :
  scanned m a k -> Z.of_nat (size m) < k + Z.of_nat fuel -> strrchr_loop fuel m (a + k) c last <> NoFuel.
Proof.
  revert k last. induction fuel as [|fuel IH]; intros k last H Hf; [by destruct (scan_fuel _ _ _ H)|]. cbn [strrchr_loop].
  scan_load m a k. case_match; [|done]. rewrite <- Z.add_assoc. apply IH; [by apply scanned_next|lia].
Qed.

Lemma among_scan m a c k fuel : scanned m a k -> Z.of_nat (size m) < k + Z.of_nat fuel -> among fuel m c (a + k) <> NoFuel.
Proof.
  revert k. induction fuel as [|fuel IH]; intros k H Hf; [by destruct (scan_fuel _ _ _ H)|]. cbn [among].
  scan_load m a k. case_match; [done|]. case_match; [done|]. rewrite <- Z.add_assoc. apply IH; [by apply scanned_next|lia].
Qed.

Lemma skip_spaces_scan m a k fuel :
  scanned m a k -> Z.of_nat (size m) < k + Z.of_nat fuel -> skip_spaces_loop fuel m (a + k) <> NoFuel.
Proof.
  revert k. induction fuel as [|fuel IH]; intros k H Hf; [by destruct (scan_fuel _ _ _ H)|]. cbn [skip_spaces_loop].
  scan_load m a k. case_match; [|done]. rewrite <- Z.add_assoc. apply IH; [by apply scanned_next|lia].
Qed.

Lemma strcmp_scan m a b k fuel :
  scanned m a k -> Z.of_nat (size m) < k + Z.of_nat fuel -> strcmp_loop fuel m (a + k) (b + k) <> NoFuel.
Proof.
  revert k. induction fuel as [|fuel IH]; intros k H Hf; [by destruct (scan_fuel _ _ _ H)|]. cbn [strcmp_loop].
  scan_load m a k. scan_load m b k. case_match; [done|]. case_match; [|done].
  rewrite <- !Z.add_assoc. apply IH; [by apply scanned_next|lia].
Qed.

Lemma strncmp_scan m a b cx k fuel :
  scanned m a k -> Z.of_nat (size m) < k + Z.of_nat fuel -> strncmp_loop fuel m (a + k) (b + k) cx <> NoFuel.
Proof.
  revert k cx. induction fuel as [|fuel IH]; intros k cx H Hf; [by destruct (scan_fuel _ _ _ H)|]. cbn [strncmp_loop].
  case_match; [done|]. scan_load m a k. scan_load m b k. case_match; [done|]. case_match; [|done].
  rewrite <- !Z.add_assoc. apply IH; [by apply scanned_next|lia].
Qed.

Lemma strpbrk_scan m a ct k fuel :
  scanned m a k -> Z.of_nat (size m) < k + Z.of_nat fuel -> strpbrk_loop fuel m (a + k) ct <> NoFuel.
Proof.
  revert k. induction fuel as [|fuel IH]; intros k H Hf; [by destruct (scan_fuel _ _ _ H)|]. cbn [strpbrk_loop].
  scan_load m a k. case_match; [done|].
  pose proof (among_scan m ct b 0 (S (size m)) (scanned_0 _ _) ltac:(lia)) as Ha. rewrite Z.add_0_r in Ha.
  destruct (among _ _ _ _) as [hit| |]; [rewrite bind_Ok|done..]. destruct hit; [done|].
  rewrite <- Z.add_assoc. apply IH; [by apply scanned_next|lia].
Qed.

Lemma rep_stosb_fuel c m al di : rep_stosb c m al di <> NoFuel.
Proof.
  revert m di. induction c as [|c IH]; intros m di; cbn [rep_stosb]; [done|].
  destruct (store_cases m di al) as [(m' & -> & _)| ->]; [rewrite bind_Ok; apply IH|done].
Qed.

Lemma strcpy_scan m a d k fuel :
  scanned m a k -> Z.of_nat (size m) < k + Z.of_nat fuel -> strcpy_loop fuel m (a + k) (d + k) <> NoFuel.
Proof.
  revert m k. induction fuel as [|fuel IH]; intros m k H Hf; [by destruct (scan_fuel _ _ _ H)|]. cbn [strcpy_loop].
  scan_load m a k. destruct (store_cases m (d + k) b) as [(m' & -> & -> & Hd)| ->]; [rewrite bind_Ok|done].
  case_match; [|done]. rewrite <- !Z.add_assoc.
  destruct (scanned_store m a (k + 1) (d + k) (u8 b) Hd (scanned_next _ _ _ H Hb)) as [H' E]. apply IH; [done|lia].
Qed.

Lemma strncpy_scan m a d cx k fuel :
  scanned m a k -> Z.of_nat (size m) < k + Z.of_nat fuel -> strncpy_loop fuel m (a + k) (d + k) cx <> NoFuel.
Proof.
  revert m k cx. induction fuel as [|fuel IH]; intros m k cx H Hf; [by destruct (scan_fuel _ _ _ H)|]. cbn [strncpy_loop].
  case_match; [done|].
  scan_load m a k. destruct (store_cases m (d + k) b) as [(m' & -> & -> & Hd)| ->]; [rewrite bind_Ok|done].
  case_match; [|apply rep_stosb_fuel]. rewrite <- !Z.add_assoc.
  destruct (scanned_store m a (k + 1) (d + k) (u8 b) Hd (scanned_next _ _ _ H Hb)) as [H' E]. apply IH; [done|lia].
Qed.

Lemma strreplace_scan m a old new k fuel :
  scanned m a k -> Z.of_nat (size m) < k + Z.of_nat fuel -> strreplace_loop fuel m (a + k) old new <> NoFuel.
Proof.
  revert m k. induction fuel as [|fuel IH]; intros m k H Hf; [by destruct (scan_fuel _ _ _ H)|]. cbn [strreplace_loop].
  scan_load m a k. case_match; [done|]. rewrite <- Z.add_assoc. case_match.
  - destruct (store_cases m (a + k) new) as [(m' & -> & -> & Hd)| ->]; [rewrite bind_Ok|done].
    destruct (scanned_store m a (k + 1) (a + k) (u8 new) Hd (scanned_next _ _ _ H Hb)) as [H' E]. apply IH; [done|lia].
  - rewrite bind_Ok. apply IH; [by apply scanned_next|lia].
Qed.
End scans.

(** ** C strings *)

(** The string [s] at [a], with its terminator. *)
Definition cstr (m : mem) (a : Z) (s : list Z) : Prop :=
  bytes_at m a (s ++ [0]) /\ Forall (fun b => 0 < b < 256) s.

Lemma cstr_cons m a x s : cstr m a (x :: s) <-> m !! a = Some x /\ 0 < x < 256 /\ cstr m (a + 1) s.
Proof. unfold cstr. cbn [app]. rewrite bytes_at_cons, Forall_cons. tauto. Qed.

Lemma cstr_nil m a : cstr m a [] <-> m !! a = Some 0.
Proof.
  unfold cstr. cbn [app]. rewrite bytes_at_cons. split; [tauto|]. intros H. csplit; [done|apply bytes_at_nil|constructor].
Qed.

Lemma cstr_mapped m a s : cstr m a s -> mapped m a (Z.of_nat (length s) + 1).
Proof.
  intros [H _]. apply bytes_at_mapped in H. rewrite length_app in H. cbn [length] in H.
  by replace (Z.of_nat (length s) + 1) with (Z.of_nat (length s + 1)) by lia.
Qed.

Lemma cstr_size m a s : cstr m a s -> (length s < size m)%nat.
Proof. intros H. apply cstr_mapped, mapped_size in H. lia. Qed.

Lemma cstr_drop m a s i : (i <= length s)%nat -> cstr m a s -> cstr m (a + Z.of_nat i) (drop i s).
Proof.
  intros Hi [H1 H2]. split.
  - replace (drop i s ++ [0]) with (drop i (s ++ [0])) by (rewrite drop_app_le by lia; done).
    intros j x Hj. rewrite lookup_drop in Hj. rewrite <- (H1 _ _ Hj). f_equal. lia.
  - by apply Forall_drop.
Qed.

Lemma cstr_byte s : Forall (fun b => 0 < b < 256) s -> Forall byte s.
Proof. intros H. eapply Forall_impl; [exact H|]. intros x Hx. cbn in Hx. unfold byte. lia. Qed.

(** The order [strcmp] compares by. *)
Fixpoint compare (s t : list Z) : Z :=
  match s, t with
  | [], [] => 0
  | [], _ :: _ => -1
  | _ :: _, [] => 1
  | x :: s, y :: t => if x =? y then compare s t else if x <? y then -1 else 1
  end.

(** The first, and the last, position with a given byte. *)
Fixpoint index_of (c : Z) (l : list Z) : option nat :=
  match l with
  | [] => None
  | x :: l => if x =? c then Some 0%nat else S <$> index_of c l
  end.

Fixpoint last_index_of (c : Z) (l : list Z) : option nat :=
  match l with
  | [] => None
  | x :: l => match last_index_of c l with Some i => Some (S i) | None => if x =? c then Some 0%nat else None end
  end.

(** The first position with a byte of a set. *)
Fixpoint index_in (set l : list Z) : option nat :=
  match l with
  | [] => None
  | x :: l => if bool_decide (x ∈ set) then Some 0%nat else S <$> index_in set l
  end.

Definition pointer (a : Z) (i : option nat) : Z := match i with Some i => a + Z.of_nat i | None => NULL end.

Lemma pointer_S a i : pointer a (S <$> i) = pointer (a + 1) i.
Proof. destruct i; cbn [fmap option_fmap option_map pointer]; [lia|done]. Qed.

(** ** Reading *)

Lemma scasb_ok m a s fuel cx zf :
  cstr m a s -> (length s < fuel)%nat -> Z.of_nat (length s) < cx ->
  repne_scasb fuel m 0 a cx zf
  = Ok (a + Z.of_nat (length s) + 1, cx - Z.of_nat (length s) - 1, true).
Proof.
  revert a fuel cx zf. induction s as [|x s IH]; intros a [|fuel] cx zf H Hf Hc; cbn [length] in *; try lia;
    cbn [repne_scasb]; rewrite (proj2 (Z.eqb_neq cx 0)) by lia.
  - apply cstr_nil in H. rewrite (load_ok _ _ _ H), bind_Ok. by rewrite Z.eqb_refl, Z.add_0_r, Z.sub_0_r.
  - apply cstr_cons in H as (H1 & H2 & H3). rewrite (load_ok _ _ _ H1), bind_Ok.
    rewrite (proj2 (Z.eqb_neq x 0)), IH by (done || lia). rewrite Nat2Z.inj_succ. do 3 f_equal; lia.
Qed.

Lemma strlen_ok m a s : cstr m a s -> Z.of_nat (length s) < 2 ^ 32 - 1 -> strlen m a = Ok (Z.of_nat (length s)).
Proof.
  intros H Hl. unfold strlen. pose proof (cstr_size _ _ _ H).
  rewrite (scasb_ok m a s) by (done || lia). rewrite bind_Ok. cbn beta iota. f_equal. rewrite u32_small; change U32_MAX with (2 ^ 32 - 1); lia.
Qed.

Lemma strnlen_loop_ok m a s fuel cnt :
  cstr m a s -> (length s < fuel)%nat -> 0 <= cnt < 2 ^ 32 ->
  strnlen_loop fuel m a cnt = Ok (a + Z.min cnt (Z.of_nat (length s))).
Proof.
  revert a fuel cnt. induction s as [|x s IH]; intros a [|fuel] cnt H Hf Hc; cbn [length] in *; try lia; cbn [strnlen_loop]; cbn zeta;
    (destruct (decide (cnt = 0)) as [->|Hne]; [by cbn; f_equal; lia|]);
    rewrite (u32_small (cnt - 1)) by lia; rewrite (proj2 (Z.eqb_neq _ U32_MAX)) by (change U32_MAX with (2 ^ 32 - 1); lia).
  - apply cstr_nil in H. rewrite (load_ok _ _ _ H), bind_Ok. cbn. f_equal. lia.
  - apply cstr_cons in H as (H1 & H2 & H3). rewrite (load_ok _ _ _ H1), bind_Ok.
    rewrite (proj2 (Z.eqb_neq x 0)), IH by (done || lia). f_equal. lia.
Qed.

Lemma strcmp_loop_ok m a b s t fuel :
  cstr m a s -> cstr m b t -> (length s < fuel)%nat -> strcmp_loop fuel m a b = Ok (compare s t).
Proof.
  revert a b t fuel. induction s as [|x s IH]; intros a b t [|fuel] Hs Ht Hf; cbn [length] in *; try lia; cbn [strcmp_loop];
    (destruct t as [|y t]; [apply cstr_nil in Ht; rename Ht into Hy|apply cstr_cons in Ht as (Hy & Hy2 & Ht)]).
  1, 2: apply cstr_nil in Hs; rewrite (load_ok _ _ _ Hs), (load_ok _ _ _ Hy), !bind_Ok; try done.
  - rewrite (proj2 (Z.eqb_neq 0 y)) by lia. cbn [negb compare]. unfold sbb_or_1. by rewrite (proj2 (Z.ltb_lt 0 y)) by lia.
  - apply cstr_cons in Hs as (Hx & Hx2 & _). rewrite (load_ok _ _ _ Hx), (load_ok _ _ _ Hy), !bind_Ok.
    rewrite (proj2 (Z.eqb_neq x 0)) by lia. cbn [negb compare]. unfold sbb_or_1. by rewrite (proj2 (Z.ltb_ge x 0)) by lia.
  - apply cstr_cons in Hs as (Hx & Hx2 & Hs). rewrite (load_ok _ _ _ Hx), (load_ok _ _ _ Hy), !bind_Ok. cbn [compare].
    destruct (Z.eqb_spec x y) as [->|]; cbn [negb]; [|done]. rewrite (proj2 (Z.eqb_neq y 0)) by lia. cbn [negb].
    apply IH; [done..|lia].
Qed.

Lemma strncmp_loop_ok m a b s t fuel n :
  cstr m a s -> cstr m b t -> (length s < fuel)%nat -> 0 <= n <= 2 ^ 31 ->
  strncmp_loop fuel m a b n = Ok (compare (take (Z.to_nat n) s) (take (Z.to_nat n) t)).
Proof.
  revert a b t fuel n. induction s as [|x s IH]; intros a b t [|fuel] n Hs Ht Hf Hn; cbn [length] in *; try lia;
    cbn [strncmp_loop]; cbn zeta; (destruct (decide (n = 0)) as [->|Hne]; [by destruct t|]);
    rewrite (u32_small (n - 1)) by lia; rewrite (proj2 (Z.leb_gt _ (n - 1))) by lia;
    replace (Z.to_nat n) with (S (Z.to_nat (n - 1))) by lia; cbn [take];
    (destruct t as [|y t]; [apply cstr_nil in Ht; rename Ht into Hy|apply cstr_cons in Ht as (Hy & Hy2 & Ht)]).
  1, 2: apply cstr_nil in Hs; rewrite (load_ok _ _ _ Hs), (load_ok _ _ _ Hy), !bind_Ok; try done.
  - rewrite (proj2 (Z.eqb_neq 0 y)) by lia. cbn [negb compare]. unfold sbb_or_1. by rewrite (proj2 (Z.ltb_lt 0 y)) by lia.
  - apply cstr_cons in Hs as (Hx & Hx2 & _). rewrite (load_ok _ _ _ Hx), (load_ok _ _ _ Hy), !bind_Ok.
    rewrite (proj2 (Z.eqb_neq x 0)) by lia. cbn [negb compare]. unfold sbb_or_1. by rewrite (proj2 (Z.ltb_ge x 0)) by lia.
  - apply cstr_cons in Hs as (Hx & Hx2 & Hs). rewrite (load_ok _ _ _ Hx), (load_ok _ _ _ Hy), !bind_Ok. cbn [take compare].
    destruct (Z.eqb_spec x y) as [->|]; cbn [negb]; [|done]. rewrite (proj2 (Z.eqb_neq y 0)) by lia. cbn [negb].
    apply IH; [done..|lia|lia].
Qed.

Lemma strchr_loop_ok m a s c fuel :
  cstr m a s -> (length s < fuel)%nat -> strchr_loop fuel m c a = Ok (pointer a (index_of c (s ++ [0]))).
Proof.
  revert a fuel. induction s as [|x s IH]; intros a [|fuel] H Hf; cbn [length] in *; try lia; cbn [strchr_loop app index_of].
  - apply cstr_nil in H. rewrite (load_ok _ _ _ H), bind_Ok. destruct (0 =? c); cbn; [f_equal; lia|done].
  - apply cstr_cons in H as (H1 & H2 & H3). rewrite (load_ok _ _ _ H1), bind_Ok. destruct (x =? c); [cbn; f_equal; lia|].
    rewrite (proj2 (Z.eqb_neq x 0)) by lia. cbn [negb]. rewrite pointer_S. apply IH; [done|lia].
Qed.

Lemma strrchr_loop_ok m a s c fuel last :
  cstr m a s -> (length s < fuel)%nat ->
  strrchr_loop fuel m a c last
  = Ok (match last_index_of c (s ++ [0]) with Some i => a + Z.of_nat i | None => last end).
Proof.
  revert a fuel last. induction s as [|x s IH]; intros a [|fuel] last H Hf; cbn [length] in *; try lia;
    cbn [strrchr_loop app last_index_of].
  - apply cstr_nil in H. rewrite (load_ok _ _ _ H), bind_Ok. destruct (0 =? c); cbn; [f_equal; lia|done].
  - apply cstr_cons in H as (H1 & H2 & H3). rewrite (load_ok _ _ _ H1), bind_Ok. cbn zeta.
    rewrite (proj2 (Z.eqb_neq x 0)) by lia. cbn [negb]. rewrite IH by (done || lia).
    destruct (last_index_of c (s ++ [0])); [f_equal; lia|]. destruct (x =? c); [f_equal; lia|done].
Qed.

(** The difference of the first bytes that differ, or 0. *)
Fixpoint difference (l k : list Z) : Z :=
  match l, k with
  | x :: l, y :: k => if x =? y then difference l k else x - y
  | _, _ => 0
  end.

Lemma difference_app l k k' : difference (l ++ k) (l ++ k') = difference k k'.
Proof. induction l as [|x l IH]; cbn [app difference]; [done|]. by rewrite Z.eqb_refl. Qed.

Lemma word_of_inj l k : Forall byte l -> Forall byte k -> length l = length k -> word_of l = word_of k -> l = k.
Proof.
  intros Hl. revert k. induction Hl as [|x l Hx Hl IH]; intros [|y k] Hk E W; try done. cbn [word_of length] in *.
  inversion_clear Hk as [|? ? Hy Hk']. unfold byte in *. assert (x = y /\ word_of l = word_of k) as [-> W'] by lia.
  f_equal. apply IH; [done|lia|done].
Qed.

Lemma memcmp_bytes_ok m a b l k :
  bytes_at m a l -> bytes_at m b k -> length l = length k -> memcmp_bytes (length l) m a b = Ok (difference l k).
Proof.
  revert a b k. induction l as [|x l IH]; intros a b [|y k] Ha Hb E; try done. cbn [memcmp_bytes length difference] in *.
  apply bytes_at_cons in Ha as [Hx Ha]. apply bytes_at_cons in Hb as [Hy Hb].
  rewrite (load_ok _ _ _ Hx), (load_ok _ _ _ Hy), !bind_Ok. cbn zeta. destruct (Z.eqb_spec x y) as [->|Hne].
  - rewrite Z.sub_diag. cbn [negb Z.eqb]. apply IH; [done..|lia].
  - by rewrite (proj2 (Z.eqb_neq (x - y) 0)) by lia.
Qed.

(** The first four bytes. *)
Lemma load32_bytes m a l : bytes_at m a l -> (4 <= length l)%nat -> load32 m a = Ok (word_of (take 4 l)).
Proof.
  intros H Hl. assert (Ht : bytes_at m a (take 4 l)).
  { intros i x Hi. apply lookup_take_Some in Hi as [Hi _]. by apply H. }
  pose proof (bytes_at_mapped _ _ _ Ht) as Hm. rewrite length_take in Hm.
  replace (4 `min` length l)%nat with 4%nat in Hm by lia. rewrite load32_read by done.
  pose proof (read_bytes _ _ _ Ht) as E. rewrite length_take in E.
  replace (4 `min` length l)%nat with 4%nat in E by lia. by rewrite <- E.
Qed.

Lemma bytes_at_drop m a l i : (i <= length l)%nat -> bytes_at m a l -> bytes_at m (a + Z.of_nat i) (drop i l).
Proof. intros Hi H j x Hj. rewrite lookup_drop in Hj. rewrite <- (H _ _ Hj). f_equal. lia. Qed.

Lemma memcmp_words_ok m a b l k fuel :
  bytes_at m a l -> bytes_at m b k -> Forall byte l -> Forall byte k -> length l = length k -> (4 <= length l)%nat ->
  (length l < 4 * fuel + 4)%nat ->
  exists i, (i <= length l)%nat /\ take i l = take i k /\
    memcmp_words fuel m a b (Z.of_nat (length l)) = Ok (a + Z.of_nat i, b + Z.of_nat i, Z.of_nat (length l - i)).
Proof.
  revert a b l k. induction fuel as [|fuel IH]; intros a b l k Ha Hb Fl Fk E H4 Hf; [lia|]. cbn [memcmp_words].
  rewrite (load32_bytes m a l), (load32_bytes m b k) by (done || lia). rewrite !bind_Ok.
  destruct (Z.eqb_spec (word_of (take 4 l)) (word_of (take 4 k))) as [W|W]; cbn [negb].
  2:{ exists 0%nat. rewrite !Z.add_0_r, Nat.sub_0_r. by csplit; [lia|..]. }
  apply word_of_inj in W; [|by apply Forall_take..|rewrite !length_take; lia]. cbn zeta.
  rewrite Z.geb_leb. destruct (Z.leb_spec 4 (Z.of_nat (length l) - 4)) as [Hm|Hm].
  - destruct (IH (a + 4) (b + 4) (drop 4 l) (drop 4 k)) as (i & Hi & Et & Em);
      [by apply (bytes_at_drop m a l 4); [lia|]|apply (bytes_at_drop m b k 4); [lia|done]|by apply Forall_drop..
      |rewrite !length_drop; lia|rewrite length_drop; lia|rewrite length_drop; lia|].
    rewrite length_drop in Hi, Em. replace (Z.of_nat (length l - 4)) with (Z.of_nat (length l) - 4) in Em by lia.
    exists (4 + i)%nat. csplit; [lia| |].
    + rewrite <- (take_drop 4 l), <- (take_drop 4 k), W. rewrite !take_app, !length_take.
      f_equal. replace (4 + i - 4 `min` length k)%nat with i by lia. exact Et.
    + rewrite Em. do 3 f_equal; lia.
  - exists 4%nat. csplit; [lia|done|]. do 3 f_equal; lia.
Qed.

Lemma memcmp_ok m a b l k :
  bytes_at m a l -> bytes_at m b k -> Forall byte l -> Forall byte k -> length l = length k ->
  memcmp m a b (Z.of_nat (length l)) = Ok (difference l k).
Proof.
  intros Ha Hb Fl Fk E. unfold memcmp. rewrite Z.geb_leb. destruct (Z.leb_spec 4 (Z.of_nat (length l))) as [H4|H4].
  - pose proof (Z.div_mod (Z.of_nat (length l)) 4 ltac:(lia)). pose proof (Z.mod_pos_bound (Z.of_nat (length l)) 4 ltac:(lia)).
    destruct (memcmp_words_ok m a b l k (S (Z.to_nat (Z.of_nat (length l) / 4)))) as (i & Hi & Et & ->);
      [done..|lia|lia|]. rewrite bind_Ok. cbn beta iota. rewrite Nat2Z.id.
    rewrite <- (take_drop i l) at 2. rewrite <- (take_drop i k), Et, difference_app.
    replace (length l - i)%nat with (length (drop i l)) by apply length_drop.
    apply memcmp_bytes_ok; [by apply bytes_at_drop|apply bytes_at_drop; [lia|done]|rewrite !length_drop; lia].
  - rewrite bind_Ok. cbn beta iota. rewrite Nat2Z.id. by apply memcmp_bytes_ok.
Qed.

Lemma among_ok m ct t c fuel :
  cstr m ct t -> c <> 0 -> (length t < fuel)%nat -> among fuel m c ct = Ok (bool_decide (c ∈ t)).
Proof.
  revert ct fuel. induction t as [|x t IH]; intros ct [|fuel] H Hc Hf; cbn [length] in *; try lia; cbn [among].
  - apply cstr_nil in H. rewrite (load_ok _ _ _ H), bind_Ok. done.
  - apply cstr_cons in H as (H1 & H2 & H3). rewrite (load_ok _ _ _ H1), bind_Ok. rewrite (proj2 (Z.eqb_neq x 0)) by lia.
    destruct (Z.eqb_spec c x) as [->|Hne]; [f_equal; symmetry; apply bool_decide_eq_true_2; left|].
    rewrite IH by (done || lia). f_equal. apply bool_decide_ext. rewrite elem_of_cons. tauto.
Qed.

Lemma strpbrk_loop_ok m a s ct t fuel :
  cstr m a s -> cstr m ct t -> (length s < fuel)%nat -> strpbrk_loop fuel m a ct = Ok (pointer a (index_in t s)).
Proof.
  revert a fuel. induction s as [|x s IH]; intros a [|fuel] H Ht Hf; cbn [length] in *; try lia; cbn [strpbrk_loop index_in].
  - apply cstr_nil in H. by rewrite (load_ok _ _ _ H), bind_Ok.
  - apply cstr_cons in H as (H1 & H2 & H3). rewrite (load_ok _ _ _ H1), bind_Ok. rewrite (proj2 (Z.eqb_neq x 0)) by lia.
    rewrite (among_ok m ct t) by (try done; pose proof (cstr_size _ _ _ Ht); lia). rewrite bind_Ok.
    destruct (bool_decide (x ∈ t)); [cbn; f_equal; lia|]. rewrite pointer_S. apply IH; [done..|lia].
Qed.

Lemma index_in_Some t s i :
  index_in t s = Some i ->
  (i < length s)%nat /\ (forall x, x ∈ take i s -> x ∉ t) /\ exists x, s !! i = Some x /\ x ∈ t.
Proof.
  revert i. induction s as [|x s IH]; intros i H; cbn [index_in] in H; [done|]. case_bool_decide as Hx.
  - simplify_eq. csplit; cbn; [lia|by intros y Hy%not_elem_of_nil|eauto].
  - destruct (index_in t s) as [j|]; [|done]. simplify_eq/=. destruct (IH j eq_refl) as (H1 & H2 & H3).
    csplit; [lia| |done]. intros y Hy. apply elem_of_cons in Hy as [->|Hy]; [done|by apply H2].
Qed.

Lemma index_in_None t s : index_in t s = None -> forall x, x ∈ s -> x ∉ t.
Proof.
  induction s as [|y s IH]; cbn [index_in]; intros H x Hx; [by apply not_elem_of_nil in Hx|]. case_bool_decide as Hy; [done|].
  destruct (index_in t s); [done|]. apply elem_of_cons in Hx as [->|Hx]; [done|by apply IH].
Qed.

(** ** Copying *)

Lemma cstr_write m a s d l :
  (d + Z.of_nat (length l) <= a \/ a + Z.of_nat (length s) < d) -> cstr m a s -> cstr (write m d l) a s.
Proof. intros Hd [H1 H2]. split; [|done]. apply bytes_at_write; [rewrite length_app; cbn [length]; lia|done]. Qed.

Lemma strcpy_loop_ok m a d s fuel :
  cstr m a s -> mapped m d (Z.of_nat (length s) + 1) -> d <= a \/ a + Z.of_nat (length s) < d -> (length s < fuel)%nat ->
  strcpy_loop fuel m a d = Ok (write m d (s ++ [0])).
Proof.
  revert m a d fuel. induction s as [|x s IH]; intros m a d [|fuel] H Hm Hd Hf; cbn [length] in *; try lia; cbn [strcpy_loop app].
  - apply cstr_nil in H. rewrite (load_ok _ _ _ H), bind_Ok. rewrite store_ok by (apply Hm; lia) || done. by rewrite bind_Ok.
  - apply cstr_cons in H as (H1 & H2 & H3). rewrite (load_ok _ _ _ H1), bind_Ok.
    rewrite store_ok by ((apply Hm; lia) || (unfold byte; lia)). rewrite bind_Ok, (proj2 (Z.eqb_neq x 0)) by lia. cbn [negb].
    rewrite IH; [done|apply cstr_write; [cbn [length]; lia|done]|apply mapped_write; mem_side|lia|lia].
Qed.

(** The first [n] characters, zeros beyond the end. *)
Definition padded (n : nat) (s : list Z) : list Z := take n (s ++ replicate n 0).

Lemma padded_cons n x s : padded (S n) (x :: s) = x :: padded n s.
Proof.
  unfold padded. cbn [app take]. f_equal. rewrite !take_app. f_equal.
  rewrite !take_replicate. f_equal. lia.
Qed.

Lemma padded_nil n : padded n [] = replicate n 0.
Proof. unfold padded. cbn [app]. by rewrite take_replicate, Nat.min_id. Qed.

Lemma strncpy_loop_ok m a d s n fuel :
  cstr m a s -> 0 <= n <= 2 ^ 31 -> mapped m d n -> d <= a \/ a + Z.of_nat (length s) < d ->
  (length s < fuel)%nat -> strncpy_loop fuel m a d n = Ok (write m d (padded (Z.to_nat n) s)).
Proof.
  revert m a d n fuel. induction s as [|x s IH]; intros m a d n [|fuel] H Hn Hm Hd Hf; cbn [length] in *; try lia;
    cbn [strncpy_loop]; cbn zeta; (destruct (decide (n = 0)) as [->|Hne]; [done|]);
    rewrite (u32_small (n - 1)) by lia; rewrite (proj2 (Z.leb_gt _ (n - 1))) by lia;
    replace (Z.to_nat n) with (S (Z.to_nat (n - 1))) by lia.
  - apply cstr_nil in H. rewrite (load_ok _ _ _ H), bind_Ok. rewrite store_ok by ((apply Hm; lia) || done). rewrite bind_Ok.
    cbn [negb Z.eqb]. rewrite padded_nil. cbn [replicate]. change (write m d (0 :: replicate ?k 0)) with (write (write m d [0]) (d + 1) (replicate k 0)).
    apply (memset_ok _ _ 0); [lia|]. apply mapped_write. mem_side.
  - apply cstr_cons in H as (H1 & H2 & H3). rewrite (load_ok _ _ _ H1), bind_Ok.
    rewrite store_ok by ((apply Hm; lia) || (unfold byte; lia)). rewrite bind_Ok, (proj2 (Z.eqb_neq x 0)) by lia. cbn [negb].
    rewrite padded_cons. change (write m d (x :: padded ?k s)) with (write (write m d [x]) (d + 1) (padded k s)).
    destruct (decide (n = 1)) as [->|Hn1]; [by destruct fuel; [lia|]|].
    rewrite IH; [done|apply cstr_write; [cbn [length]; lia|done]|lia|apply mapped_write; mem_side|lia|lia].
Qed.

(** The memory after the first [n] characters of [s] and a terminator are
    stored at [d]. *)
Definition with_string (m : mem) (d : Z) (n : nat) (s : list Z) : mem := write m d (take n s ++ [0]).

(** [memcpy] of a prefix, and the terminator. *)
Lemma copy_prefix m d a s n :
  mem_ok m -> cstr m a s -> (n <= length s)%nat -> Z.of_nat n < 2 ^ 32 -> mapped m d (Z.of_nat n + 1) ->
  d <= a \/ a + Z.of_nat n <= d ->
  exists m1, memcpy m d a (Z.of_nat n) = Ok m1 /\ store m1 (d + Z.of_nat n) 0 = Ok (with_string m d n s).
Proof.
  intros Hok Hs Hn Hn2 Hm Hd. pose proof (cstr_mapped _ _ _ Hs) as Hsm.
  rewrite memcpy_ok by (done || lia || mem_side). eexists. split; [reflexivity|]. rewrite store_ok by (done || apply write_is_Some, Hm; lia).
  unfold with_string. rewrite write_app, length_take, Nat.min_l by lia. do 3 f_equal.
  assert (Ht : bytes_at m a (take n s)).
  { intros i x Hi. apply lookup_take_Some in Hi as [Hi _]. apply Hs. by apply lookup_app_l_Some. }
  pose proof (read_bytes _ _ _ Ht) as E. by rewrite length_take, Nat.min_l in E by lia.
Qed.

Lemma strlcpy_ok m d a s size :
  mem_ok m -> cstr m a s -> Z.of_nat (length s) < 2 ^ 32 - 1 -> 0 < size -> mapped m d size ->
  d <= a \/ a + Z.of_nat (length s) < d ->
  strlcpy m d a size = Ok (with_string m d (Z.to_nat (size - 1)) s, Z.of_nat (length s)).
Proof.
  intros Hok Hs Hl H0 Hm Hd. unfold strlcpy. rewrite (strlen_ok m a s) by done. rewrite bind_Ok.
  rewrite (proj2 (Z.eqb_neq size 0)) by lia. cbn [negb]. cbn zeta.
  set (n := Nat.min (Z.to_nat (size - 1)) (length s)).
  replace (if Z.of_nat (length s) >=? size then size - 1 else Z.of_nat (length s)) with (Z.of_nat n)
    by (unfold n; rewrite Z.geb_leb; destruct (Z.leb_spec size (Z.of_nat (length s))); lia).
  destruct (copy_prefix m d a s n) as (m1 & -> & E); [done..|lia|lia|mem_side|lia|].
  rewrite bind_Ok, E, bind_Ok. do 2 f_equal. unfold with_string, n.
  by rewrite <- take_take, (take_ge s (length s)).
Qed.

Lemma strlcat_ok m d t a s count :
  mem_ok m -> cstr m d t -> cstr m a s -> Z.of_nat (length t) + Z.of_nat (length s) < 2 ^ 32 - 1 ->
  Z.of_nat (length t) < count -> mapped m d count ->
  d + Z.of_nat (length t) <= a \/ a + Z.of_nat (length s) < d + Z.of_nat (length t) ->
  strlcat m d a count
  = Ok (with_string m (d + Z.of_nat (length t)) (Z.to_nat (count - Z.of_nat (length t) - 1)) s,
        Z.of_nat (length t) + Z.of_nat (length s)).
Proof.
  intros Hok Ht Hs Hl H0 Hm Hd. unfold strlcat. rewrite (strlen_ok m d t) by (done || lia). rewrite bind_Ok.
  rewrite (strlen_ok m a s) by (done || lia). rewrite bind_Ok. cbn zeta. rewrite u32_small by lia.
  replace (Z.of_nat (length t) >=? count) with false by lia. unfold BUG_ON. rewrite bind_Ok.
  set (room := count - Z.of_nat (length t)). set (n := Nat.min (Z.to_nat (room - 1)) (length s)).
  replace (if Z.of_nat (length s) >=? room then room - 1 else Z.of_nat (length s)) with (Z.of_nat n)
    by (unfold n; rewrite Z.geb_leb; destruct (Z.leb_spec room (Z.of_nat (length s))); lia).
  destruct (copy_prefix m (d + Z.of_nat (length t)) a s n) as (m1 & -> & E); [done..|lia|lia|mem_side|lia|].
  rewrite bind_Ok, E, bind_Ok. do 2 f_equal. unfold with_string, n.
  by rewrite <- take_take, (take_ge s (length s)).
Qed.

(** ** The theorems *)

(** Every scan of the string functions ends: on any memory, whether or not
    the strings in it are terminated, the loops stop at the character they
    look for, at their count, or at an address that is not mapped. *)
Theorem string_scans_terminate m a b c n :
  strlen m a <> NoFuel /\ strnlen m a n <> NoFuel /\ strchr m a c <> NoFuel /\ strrchr m a c <> NoFuel /\
  memchr m a c n <> NoFuel /\ strcmp m a b <> NoFuel /\ strncmp m a b n <> NoFuel /\ strpbrk m a b <> NoFuel /\
  strcpy m a b <> NoFuel /\ strncpy m a b n <> NoFuel /\ skip_spaces m a <> NoFuel /\ strreplace m a b c <> NoFuel.
Proof.
  assert (Hf : Z.of_nat (size m) < 0 + Z.of_nat (S (size m))) by lia.
  pose proof (fun x => scanned_0 m x) as H0. rewrite <- (Z.add_0_r a), <- (Z.add_0_r b). csplit.
  1: unfold strlen; pose proof (scasb_scan m 0 a 0xffffffff false 0 _ (H0 a) Hf); by destruct (repne_scasb _ _ _ _ _ _) as [[[? ?] ?]| |].
  1: unfold strnlen; pose proof (strnlen_scan m a n 0 _ (H0 a) Hf); by destruct (strnlen_loop _ _ _ _).
  3: unfold memchr; pose proof (scasb_scan m (u8 c) a n false 0 _ (H0 a) Hf); case_match; [done|];
     by destruct (repne_scasb _ _ _ _ _ _) as [[[? ?] ?]| |].
  - by apply strchr_scan.
  - by apply strrchr_scan.
  - by apply strcmp_scan.
  - by apply strncmp_scan.
  - by apply strpbrk_scan.
  - by apply strcpy_scan.
  - by apply strncpy_scan.
  - by apply skip_spaces_scan.
  - by apply strreplace_scan.
Qed.

(** On C strings the reading functions return what they name: the length
    and the bounded length, the order of the two strings (and of their first
    [n] characters), the first and the last place of a character, the
    terminator included, and the first character of a set; [memcmp] of equal
    sizes returns the difference of the first bytes that differ. *)
Theorem string_read_spec m a s b t c n :
  cstr m a s -> cstr m b t -> Z.of_nat (length s) < 2 ^ 32 - 1 -> 0 <= n <= 2 ^ 31 ->
  strlen m a = Ok (Z.of_nat (length s)) /\
  strnlen m a n = Ok (Z.min n (Z.of_nat (length s))) /\
  strcmp m a b = Ok (compare s t) /\
  strncmp m a b n = Ok (compare (take (Z.to_nat n) s) (take (Z.to_nat n) t)) /\
  strchr m a c = Ok (pointer a (index_of (u8 c) (s ++ [0]))) /\
  strrchr m a c = Ok (pointer a (last_index_of (u8 c) (s ++ [0]))) /\
  strpbrk m a b = Ok (pointer a (index_in t s)) /\
  forall l k x y, bytes_at m x l -> bytes_at m y k -> Forall byte l -> Forall byte k -> length l = length k ->
    memcmp m x y (Z.of_nat (length l)) = Ok (difference l k).
Proof.
  intros Hs Ht Hl Hn. pose proof (cstr_size _ _ _ Hs). csplit.
  - by apply strlen_ok.
  - unfold strnlen. rewrite (strnlen_loop_ok m a s) by (done || lia). rewrite bind_Ok. f_equal. lia.
  - apply strcmp_loop_ok; [done..|lia].
  - apply strncmp_loop_ok; [done..|lia|done].
  - apply strchr_loop_ok; [done|lia].
  - unfold strrchr. rewrite (strrchr_loop_ok m a s) by (done || lia). by destruct (last_index_of _ _).
  - apply strpbrk_loop_ok; [done..|lia].
  - intros. by apply memcmp_ok.
Qed.

(** The copying functions, for a source that does not overlap the
    destination (or lies above it), leave in memory exactly what they
    promise: the whole string, [n] characters padded with zeros, or as much
    of the string as fits with its terminator; [strlcpy] and [strlcat]
    return the length they would have needed. *)
Theorem string_copy_spec m d a s t n :
  mem_ok m -> cstr m a s -> Z.of_nat (length s) < 2 ^ 31 -> 0 < n < 2 ^ 31 -> mapped m d n ->
  d + n <= a \/ a + Z.of_nat (length s) < d ->
  (Z.of_nat (length s) < n -> strcpy m d a = Ok (write m d (s ++ [0]))) /\
  strncpy m d a n = Ok (write m d (padded (Z.to_nat n) s)) /\
  strlcpy m d a n = Ok (with_string m d (Z.to_nat (n - 1)) s, Z.of_nat (length s)) /\
  (cstr m d t -> Z.of_nat (length t) < n ->
   strlcat m d a n = Ok (with_string m (d + Z.of_nat (length t)) (Z.to_nat (n - Z.of_nat (length t) - 1)) s,
                         Z.of_nat (length t) + Z.of_nat (length s))).
Proof.
  intros Hok Hs Hl Hn Hm Hd. pose proof (cstr_size _ _ _ Hs). csplit.
  - intros Hfit. apply strcpy_loop_ok; [done|mem_side|lia|lia].
  - apply strncpy_loop_ok; [done|lia|done|lia|lia].
  - apply strlcpy_ok; [done..|lia|lia|done|lia].
  - intros Ht Htl. apply strlcat_ok; [done..|lia|lia|done|lia].
Qed.

(** [strsep] cuts the string at the first separator: it returns the start,
    which is then a string without separators, and leaves the pointer after
    the cut, at the rest of the string; without a separator the whole string
    is the token, the memory is unchanged and the pointer becomes [NULL]. *)
Theorem strsep_spec m a s b t :
  cstr m a s -> cstr m b t -> a <> NULL -> 0 < a ->
  (strsep m NULL b = Ok (m, NULL, NULL)) /\
  match index_in t s with
  | None => strsep m a b = Ok (m, a, NULL) /\ forall x, x ∈ s -> x ∉ t
  | Some i =>
      let m' := write m (a + Z.of_nat i) [0] in
      strsep m a b = Ok (m', a, a + Z.of_nat i + 1) /\
      cstr m' a (take i s) /\ (forall x, x ∈ take i s -> x ∉ t) /\
      cstr m' (a + Z.of_nat i + 1) (drop (S i) s) /\ (exists x, s !! i = Some x /\ x ∈ t)
  end.
Proof.
  intros Hs Ht Ha Hpos. split; [done|]. pose proof (cstr_size _ _ _ Hs). unfold strsep. cbn zeta.
  rewrite (proj2 (Z.eqb_neq a NULL)) by done. unfold strpbrk.
  rewrite (strpbrk_loop_ok m a s b t) by (done || lia). rewrite bind_Ok.
  destruct (index_in t s) as [i|] eqn:E; cbn [pointer]; [|split; [done|by apply index_in_None]].
  apply index_in_Some in E as (Hi & Hno & Hin). rewrite (proj2 (Z.eqb_neq (a + Z.of_nat i) NULL)) by (unfold NULL; lia).
  cbn [negb]. rewrite store_ok by (apply (cstr_mapped _ _ _ Hs); lia) || (unfold byte; lia).
  rewrite bind_Ok. csplit; [done| |done| |done].
  - split; [|by apply Forall_take, Hs]. apply bytes_at_app. rewrite length_take, Nat.min_l by lia. split.
    + apply bytes_at_write; [rewrite length_take; lia|]. intros j x Hj. apply lookup_take_Some in Hj as [Hj _].
      apply Hs. by apply lookup_app_l_Some.
    + apply bytes_at_written.
  - apply cstr_write; [cbn [length]; lia|]. replace (a + Z.of_nat i + 1) with (a + Z.of_nat (S i)) by lia.
    by apply cstr_drop.
Qed.

(** A memory with two strings in it. *)
Definition two_strings (s t : list Z) : mem := write (write ∅ 4096 (s ++ [0])) 8192 (t ++ replicate 32 0).

Lemma two_strings_ok s t :
  (length s < 4096)%nat -> Forall (fun b => 0 < b < 256) s -> Forall (fun b => 0 < b < 256) t ->
  mem_ok (two_strings s t) /\ cstr (two_strings s t) 4096 s /\ cstr (two_strings s t) 8192 t /\
  mapped (two_strings s t) 8192 (Z.of_nat (length t) + 32).
Proof.
  intros Hl Hs Ht.
  assert (B : bytes_at (two_strings s t) 8192 (t ++ replicate 32 0)) by apply bytes_at_written. csplit.
  - apply mem_ok_write; [apply mem_ok_write; [intros a x E; by rewrite lookup_empty in E|]|].
    + apply Forall_app_2; [by apply cstr_byte|by repeat constructor].
    + apply Forall_app_2; [by apply cstr_byte|]. apply Forall_replicate. done.
  - apply cstr_write; [lia|]. split; [apply bytes_at_written|done].
  - split; [|done]. change (replicate 32 0) with ([0] ++ replicate 31 0) in B. rewrite app_assoc in B.
    exact (proj1 (proj1 (bytes_at_app _ _ _ _) B)).
  - apply bytes_at_mapped in B. rewrite length_app, length_replicate in B. by replace (Z.of_nat (length t) + 32) with (Z.of_nat (length t + 32)) by lia.
Qed.

(** "root=/dev/ram0" and "=,". *)
Definition root_arg : list Z := [114; 111; 111; 116; 61; 47; 100; 101; 118; 47; 114; 97; 109; 48].
Definition separators : list Z := [61; 44].

Lemma sample_strings_ok :
  mem_ok (two_strings root_arg separators) /\ cstr (two_strings root_arg separators) 4096 root_arg /\
  cstr (two_strings root_arg separators) 8192 separators /\ mapped (two_strings root_arg separators) 8192 (2 + 32).
Proof. apply (two_strings_ok root_arg separators); [cbn; lia|repeat constructor; lia..]. Qed.

Lemma string_read_spec_witness :
  strlen (two_strings root_arg separators) 4096 = Ok 14 /\
  strpbrk (two_strings root_arg separators) 4096 8192 = Ok 4100.
Proof.
  destruct sample_strings_ok as (_ & H1 & H2 & _).
  destruct (string_read_spec (two_strings root_arg separators) 4096 root_arg 8192 separators 0 3 H1 H2)
    as (E1 & _ & _ & _ & _ & _ & E2 & _); [cbn; lia|lia|].
  split; [exact E1|exact E2].
Defined.

Lemma string_copy_spec_witness :
  let m := two_strings root_arg separators in
  strlcpy m 8192 4096 8 = Ok (with_string m 8192 7 root_arg, 14).
Proof.
  destruct sample_strings_ok as (H0 & H1 & H2 & H3).
  destruct (string_copy_spec (two_strings root_arg separators) 8192 4096 root_arg separators 8 H0 H1)
    as (_ & _ & E & _); [cbn; lia|lia|mem_side|cbn; lia|exact E].
Defined.

Lemma strsep_spec_witness :
  let m := two_strings root_arg separators in
  strsep m 4096 8192 = Ok (write m 4100 [0], 4096, 4101).
Proof.
  destruct sample_strings_ok as (_ & H1 & H2 & _).
  destruct (strsep_spec (two_strings root_arg separators) 4096 root_arg 8192 separators H1 H2) as [_ E]; [done|done|].
  exact (proj1 E).
Defined.
