(* ===== verification/Strscpy.v ===== *)
(** * lib/string.c: strscpy, a word at a time

    The zero-byte arithmetic of arch/x86/include/asm/word-at-a-time.h finds
    the first zero byte of a word, and the copy built on it is the byte-wise
    bounded copy. It reads whole words, beyond the terminator, but never from
    a page the string does not touch. *)

From S2P Require Import Prelude Ctype LibBits StringMem Memmove LibString LibStringSpec.

Local Open Scope Z_scope.

(** ** Words as lists of bytes *)

Lemma testbit_cons b h i :
  byte b -> 0 <= i -> Z.testbit (b + 256 * h) i = if i <? 8 then Z.testbit b i else Z.testbit h (i - 8).
Proof.
  intros Hb Hi. destruct (Z.ltb_spec i 8).
  - rewrite <- (Z.mod_pow2_bits_low (b + 256 * h) 8) by lia. change (2 ^ 8) with 256.
    rewrite (Z.mul_comm 256), Z_mod_plus_full, Z.mod_small by exact Hb. done.
  - replace i with (i - 8 + 8) at 1 by lia. rewrite <- Z.div_pow2_bits by lia. change (2 ^ 8) with 256. by rewrite div_low.
Qed.

Lemma land_cons b h c k :
  byte b -> byte c -> byte (Z.land b c) -> Z.land (b + 256 * h) (c + 256 * k) = Z.land b c + 256 * Z.land h k.
Proof.
  intros Hb Hc Hbc. apply Z.bits_inj'. intros i Hi. rewrite Z.land_spec, !testbit_cons by done.
  destruct (i <? 8); by rewrite Z.land_spec.
Qed.

Lemma land_byte b c : byte b -> byte c -> byte (Z.land b c).
Proof.
  unfold byte. intros Hb Hc. assert (0 <= Z.land b c) by (apply Z.land_nonneg; lia). split; [done|].
  destruct (decide (Z.land b c = 0)) as [->|]; [lia|]. apply Z.log2_lt_cancel. change (Z.log2 256) with 8.
  eapply Z.le_lt_trans; [apply Z.log2_land; lia|]. destruct (decide (b = 0)) as [->|]; [by rewrite Z.land_0_l in *|].
  apply Z.min_lt_iff. left. apply Z.log2_lt_pow2; lia.
Qed.

Lemma mod_cons c d n : byte c -> 0 < n -> (c + 256 * d) mod (256 * n) = c + 256 * (d mod n).
Proof.
  intros Hc Hn. unfold byte in Hc. symmetry. apply (Z.mod_unique_pos _ _ (d / n)).
  - pose proof (Z.mod_pos_bound d n Hn). nia.
  - pose proof (Z.div_mod d n). nia.
Qed.

Definition bytes_of (n : nat) (b : Z) : Z := word_of (replicate n b).

(** [has_zero] of a word of [length l] bytes. *)
Definition zero_mask (l : list Z) : Z :=
  let n := length l in
  Z.land (Z.land ((word_of l - bytes_of n 1) mod 256 ^ Z.of_nat n) (bytes_of n 255 - word_of l)) (bytes_of n 128).

Lemma zero_mask_cons x l :
  byte x ->
  (x <> 0 -> zero_mask (x :: l) = 256 * zero_mask l) /\
  (x = 0 -> exists q, 0 <= q /\ zero_mask (x :: l) = 128 + 256 * q).
Proof.
  intros Hx. unfold zero_mask. cbn [length]. unfold bytes_of. cbn [replicate word_of]. fold (bytes_of (length l) 1).
  fold (bytes_of (length l) 255). fold (bytes_of (length l) 128). set (n := length l).
  assert (Hp : 0 < 256 ^ Z.of_nat n) by (apply Z.pow_pos_nonneg; lia).
  assert (Hh : 0 <= bytes_of n 128) by (apply word_of_range, Forall_replicate; done).
  rewrite Nat2Z.inj_succ, Z.pow_succ_r by lia. unfold byte in Hx.
  replace (255 + 256 * bytes_of n 255 - (x + 256 * word_of l)) with ((255 - x) + 256 * (bytes_of n 255 - word_of l)) by lia.
  split; [intros Hne|intros ->].
  - replace (x + 256 * word_of l - (1 + 256 * bytes_of n 1)) with ((x - 1) + 256 * (word_of l - bytes_of n 1)) by lia.
    rewrite mod_cons, land_cons by (try apply land_byte; unfold byte; lia).
    rewrite land_cons by (repeat apply land_byte; unfold byte; lia).
    pose proof (all_bytes (fun x => (x =? 0) || (Z.land (Z.land (x - 1) (255 - x)) 128 =? 0)) ltac:(by vm_compute) x Hx) as E.
    cbn beta in E. replace (Z.land (Z.land (x - 1) (255 - x)) 128) with 0 by lia. done.
  - replace (0 + 256 * word_of l - (1 + 256 * bytes_of n 1)) with (255 + 256 * (word_of l - bytes_of n 1 - 1)) by lia.
    rewrite mod_cons, land_cons by (try apply land_byte; unfold byte; lia).
    rewrite land_cons by (repeat apply land_byte; unfold byte; lia). eexists. split; [|reflexivity].
    apply Z.land_nonneg. by right.
Qed.

Lemma zero_mask_spec l :
  Forall byte l ->
  match index_of 0 l with
  | None => zero_mask l = 0
  | Some k => exists q, 0 <= q /\ zero_mask l = 256 ^ Z.of_nat k * (128 + 256 * q)
  end.
Proof.
  induction 1 as [|x l Hx Hl IH]; cbn [index_of]; [done|]. destruct (zero_mask_cons x l Hx) as [Hnz Hz].
  destruct (Z.eqb_spec x 0) as [->|Hne].
  - destruct (Hz eq_refl) as (q & Hq & ->). exists q. split; [done|]. cbn. lia.
  - rewrite (Hnz Hne). destruct (index_of 0 l) as [k|]; cbn [fmap option_fmap option_map].
    + destruct IH as (q & Hq & ->). exists q. split; [done|]. rewrite Nat2Z.inj_succ, Z.pow_succ_r by lia. lia.
    + by rewrite IH.
Qed.

Lemma has_zero_mask l : length l = 4%nat -> has_zero (word_of l) = zero_mask l.
Proof. intros E. unfold zero_mask. rewrite E. reflexivity. Qed.

(** The bits below the lowest set one. *)
Lemma below_lowest n q :
  0 <= n -> 0 <= q -> 2 ^ n * (1 + 2 * q) < 2 ^ 32 ->
  Z.land (u32 (2 ^ n * (1 + 2 * q) - 1)) (U32_MAX - 2 ^ n * (1 + 2 * q)) = 2 ^ n - 1.
Proof.
  intros Hn Hq Hx. pose proof (Z.pow_pos_nonneg 2 n ltac:(lia) Hn) as Hp. set (x := 2 ^ n * (1 + 2 * q)) in *.
  assert (0 < x) by (unfold x; nia). rewrite u32_small by lia. rewrite <- (Z.ones_equiv n : Z.ones n = 2 ^ n - 1).
  apply Z.bits_inj'. intros i Hi. rewrite Z.land_spec. destruct (Z.lt_ge_cases i 32) as [H32|H32].
  2:{ assert (n < 32) by (apply (Z.pow_lt_mono_r_iff 2); unfold x in *; nia).
      by rewrite (bits_above (x - 1)), Z.ones_spec_high by lia. }
  rewrite not_word_bit by lia. destruct (Z.lt_ge_cases i n) as [Hin|Hin].
  - rewrite Z.ones_spec_low by lia. rewrite <- (Z.mod_pow2_bits_low (x - 1) n), <- (Z.mod_pow2_bits_low x n) by lia.
    replace ((x - 1) mod 2 ^ n) with (Z.ones n)
      by (rewrite Z.ones_equiv; apply (Z.mod_unique_pos _ _ (2 * q)); unfold x; lia).
    replace (x mod 2 ^ n) with 0 by (unfold x; rewrite Z.mul_comm, Z_mod_mult; done).
    by rewrite Z.ones_spec_low, Z.bits_0 by lia.
  - rewrite Z.ones_spec_high by lia. replace i with (i - n + n) by lia. rewrite <- !Z.div_pow2_bits by lia.
    replace ((x - 1) / 2 ^ n) with (2 * q) by (apply (Z.div_unique_pos _ _ _ (2 ^ n - 1)); unfold x; lia).
    replace (x / 2 ^ n) with (2 * q + 1) by (apply (Z.div_unique_pos _ _ _ 0); unfold x; lia).
    destruct (decide (i = n)) as [->|]; [by rewrite Z.sub_diag, Z.testbit_even_0|].
    replace (i - n) with (Z.succ (i - n - 1)) by lia. rewrite Z.testbit_even_succ, Z.testbit_odd_succ by lia.
    apply andb_negb_r.
Qed.

Lemma index_of_lt c l k : index_of c l = Some k -> (k < length l)%nat.
Proof.
  revert k. induction l as [|x l IH]; intros k H; cbn [index_of] in H; [done|]. destruct (x =? c); [simplify_eq; cbn; lia|].
  destruct (index_of c l) as [j|]; [|done]. simplify_eq/=. specialize (IH j eq_refl). lia.
Qed.

Lemma word_of_take l k :
  Forall byte l -> length l = 4%nat -> (k <= 4)%nat ->
  Z.land (word_of l) (256 ^ Z.of_nat k - 1) = word_of (take k l ++ replicate (4 - k) 0).
Proof.
  intros Hl E Hk. replace (256 ^ Z.of_nat k) with (2 ^ (8 * Z.of_nat k)) by (rewrite Z.pow_mul_r by lia; done).
  rewrite <- (Z.ones_equiv (8 * Z.of_nat k) : _ = _ - 1), Z.land_ones by lia. rewrite Z.pow_mul_r by lia. change (2 ^ 8) with 256.
  rewrite <- (take_drop k l) at 1. rewrite !word_of_app, length_take, Nat.min_l by lia.
  replace (word_of (replicate (4 - k) 0)) with 0 by (generalize (4 - k)%nat; intros j; induction j as [|j IH]; cbn [replicate word_of]; lia).
  rewrite (Z.mul_comm (256 ^ Z.of_nat k)), Z_mod_plus_full, Z.mul_0_r, Z.add_0_r. apply Z.mod_small.
  pose proof (word_of_range (take k l) (Forall_take _ _ _ Hl)) as H. by rewrite length_take, Nat.min_l in H by lia.
Qed.

Lemma zero_word l k :
  Forall byte l -> length l = 4%nat -> index_of 0 l = Some k ->
  let data := create_zero_mask (has_zero (word_of l)) in
  has_zero (word_of l) <> 0 /\ Z.land (word_of l) data = word_of (take k l ++ replicate (4 - k) 0) /\ find_zero data = Z.of_nat k.
Proof.
  intros Hl E Hk. cbn zeta. pose proof (index_of_lt _ _ _ Hk) as Hk4. pose proof (word_of_range l Hl) as Hw. rewrite E in Hw, Hk4.
  assert (Hr : 0 <= has_zero (word_of l) < 2 ^ 32).
  { unfold has_zero. apply land_range; [|done]. apply land_range; [apply u32_range|]. change U32_MAX with (256 ^ Z.of_nat 4 - 1). lia. }
  pose proof (zero_mask_spec l Hl) as Hz. rewrite Hk, <- has_zero_mask in Hz by done. destruct Hz as (q & Hq & Ez).
  assert (Ex : has_zero (word_of l) = 2 ^ (8 * Z.of_nat k + 7) * (1 + 2 * q)).
  { rewrite Ez, Z.pow_add_r, Z.pow_mul_r by lia. change (2 ^ 8) with 256. change (2 ^ 7) with 128. lia. }
  assert (Em : create_zero_mask (has_zero (word_of l)) = 256 ^ Z.of_nat k - 1).
  { unfold create_zero_mask. rewrite Ex in Hr |- *. rewrite below_lowest by lia.
    by destruct k as [|[|[|[|k]]]]; [..|lia]. }
  csplit.
  - rewrite Ex. pose proof (Z.pow_pos_nonneg 2 (8 * Z.of_nat k + 7)). lia.
  - rewrite Em. apply word_of_take; [done..|lia].
  - rewrite Em. by destruct k as [|[|[|[|k]]]]; [..|lia].
Qed.

Lemma no_zero_word l : Forall byte l -> length l = 4%nat -> index_of 0 l = None -> has_zero (word_of l) = 0.
Proof. intros Hl E Hn. pose proof (zero_mask_spec l Hl) as H. by rewrite Hn, <- has_zero_mask in H. Qed.

(** ** The copy *)

Lemma div_sub_4 x : (x - 4) / 4 = x / 4 - 1.
Proof. replace (x - 4) with (x + (-1) * 4) by lia. by rewrite Z.div_add. Qed.

Section copy.
Context (m0 : mem) (dest src count : Z) (s : list Z).
Context (Hok : mem_ok m0) (Hpaged : paged m0) (Hcount : 0 < count < 2 ^ 31).
Context (Hs : bytes_at m0 src s) (Hnz : Forall (fun b => 0 < b < 256) s) (Hlen : Z.of_nat (length s) <= count).
Context (Hend : Z.of_nat (length s) < count -> m0 !! (src + Z.of_nat (length s)) = Some 0).
Context (Hdest : mapped m0 dest count).
Context (Hdisj : dest + count <= src \/ src + Z.min count (Z.of_nat (length s) + 1) <= dest).

(** The memory after [i] characters. *)
Definition copied (i : nat) : mem := write m0 dest (take i s).

(** The source is still in the memory. *)
Definition source (m : mem) : Prop :=
  bytes_at m src s /\ (Z.of_nat (length s) < count -> m !! (src + Z.of_nat (length s)) = Some 0).

Lemma copied_source i l : (i + length l <= Z.to_nat count)%nat -> source (write m0 dest (take i s ++ l)).
Proof.
  intros Hi. split.
  - apply bytes_at_write; [rewrite length_app, length_take; lia|done].
  - intros Hl. rewrite write_outside; [by apply Hend|]. rewrite length_app, length_take. lia.
Qed.

Lemma copied_here i : (i <= length s)%nat -> Z.of_nat i <= count -> source (copied i).
Proof. intros Hi Hc. unfold copied. rewrite <- (app_nil_r (take i s)). apply copied_source. cbn [length]. lia. Qed.

Lemma copied_ok i : mem_ok (copied i).
Proof. apply mem_ok_write; [done|]. by apply Forall_take, cstr_byte. Qed.

Lemma copied_paged i : (i <= length s)%nat -> paged (copied i).
Proof. intros Hi. apply paged_write; [|done]. rewrite length_take. mem_side. Qed.

Lemma copied_mapped i a n : mapped m0 a n -> mapped (copied i) a n.
Proof. apply mapped_write. Qed.

(** The next bytes of the source are characters up to the first zero. *)
Lemma next_chars m j l :
  source m -> (j <= length s)%nat -> Z.of_nat j + Z.of_nat (length l) <= count -> bytes_at m (src + Z.of_nat j) l ->
  match index_of 0 l with
  | None => (j + length l <= length s)%nat /\ l = take (length l) (drop j s)
  | Some k => (j + k)%nat = length s /\ take k l = drop j s
  end.
Proof.
  intros [Hc He]. revert j. induction l as [|x l IH]; intros j Hj Hn Hl; cbn [index_of length] in *; [split; [lia|done]|].
  apply bytes_at_cons in Hl as [Hx Hl]. destruct (decide (j = length s)) as [->|Hne].
  - rewrite He in Hx by lia. simplify_eq. cbn. split; [lia|]. by rewrite drop_ge by lia.
  - destruct (lookup_lt_is_Some_2 s j) as [y Hy]; [lia|]. rewrite (Hc _ _ Hy) in Hx. simplify_eq.
    pose proof (Forall_lookup_1 _ _ _ _ Hnz Hy) as Hy0. cbn beta in Hy0. rewrite (proj2 (Z.eqb_neq x 0)) by lia.
    rewrite (drop_S _ _ _ Hy). specialize (IH (S j) ltac:(lia) ltac:(lia)).
    replace (src + Z.of_nat (S j)) with (src + Z.of_nat j + 1) in IH by lia. specialize (IH Hl).
    destruct (index_of 0 l) as [k|]; cbn [fmap option_fmap option_map].
    + destruct IH as [E1 E2]. split; [lia|]. cbn [take]. by rewrite E2.
    + destruct IH as [E1 E2]. split; [lia|]. cbn [take]. by rewrite <- E2.
Qed.

(** Four bytes that do not cross a page boundary can be read when the first
    of them can. *)
Lemma word_mapped m a : paged m -> is_Some (m !! a) -> a mod 4096 <= 4092 -> mapped m a 4.
Proof.
  intros Hp Ha Hm b Hb. apply (Hp a); [done|]. pose proof (Z.div_mod a 4096 ltac:(lia)).
  pose proof (Z.mod_pos_bound a 4096 ltac:(lia)). symmetry. apply (Z.div_unique_pos _ _ _ (a mod 4096 + (b - a))); lia.
Qed.

Lemma first_mapped i : (i <= length s)%nat -> Z.of_nat i < count -> is_Some (copied i !! (src + Z.of_nat i)).
Proof.
  intros Hi Hc. unfold copied. rewrite <- (app_nil_r (take i s)).
  destruct (copied_source i []) as [H1 H2]; [cbn [length]; lia|].
  destruct (decide (i = length s)) as [->|]; [rewrite H2 by lia; eauto|].
  destruct (lookup_lt_is_Some_2 s i) as [x Hx]; [lia|]. rewrite (H1 _ _ Hx). eauto.
Qed.

(** What the word loop returns: the end of the string in the last word, or
    the characters copied so far. *)
Definition words_result (r : mem * (Z + Z * Z)) : Prop :=
  (Z.of_nat (length s) < count /\ exists p, (1 <= p <= 4)%nat /\ Z.of_nat (length s) + Z.of_nat p <= count /\
     r = (write m0 dest (s ++ replicate p 0), inl (Z.of_nat (length s)))) \/
  (exists i, (i <= length s)%nat /\ r = (copied i, inr (Z.of_nat i, count - Z.of_nat i))).

Lemma write_next i l : (i <= length s)%nat -> write (copied i) (dest + Z.of_nat i) l = write m0 dest (take i s ++ l).
Proof. intros Hi. unfold copied. by rewrite write_app, length_take, Nat.min_l. Qed.

Lemma strscpy_words_ok fuel i max :
  (i <= length s)%nat -> 0 <= max -> Z.of_nat i + max <= count -> max / 4 < Z.of_nat fuel ->
  ((src + Z.of_nat i) mod 4 = 0 \/ (src + Z.of_nat i) mod 4096 + max <= 4096) ->
  exists r, strscpy_words fuel (copied i) dest src (Z.of_nat i) (count - Z.of_nat i) max = Ok r /\ words_result r.
Proof.
  revert i max. induction fuel as [|fuel IH]; intros i max Hi Hmax Hic Hf Hpage.
  { assert (0 <= max / 4) by (apply Z.div_pos; lia). lia. }
  cbn [strscpy_words]. rewrite Z.geb_leb. destruct (Z.leb_spec 4 max) as [H4|H4].
  2:{ eexists. split; [reflexivity|]. right. by exists i. }
  assert (Hsafe : (src + Z.of_nat i) mod 4096 <= 4092).
  { destruct Hpage as [Ha|Hp]; [|lia]. pose proof (Z.mod_pos_bound (src + Z.of_nat i) 4096 ltac:(lia)).
    assert (((src + Z.of_nat i) mod 4096) mod 4 = 0) by (rewrite Z.mod_mod_divide; [done|by exists 1024]).
    pose proof (Z.div_mod ((src + Z.of_nat i) mod 4096) 4 ltac:(lia)). lia. }
  pose proof (word_mapped _ _ (copied_paged i Hi) (first_mapped i Hi ltac:(lia)) Hsafe) as Hm4.
  set (l := read (copied i) (src + Z.of_nat i) 4).
  assert (El : length l = 4%nat) by (unfold l; pose proof (read_length (copied i) (src + Z.of_nat i) 4); lia).
  assert (Fl : Forall byte l) by apply read_byte, copied_ok.
  pose proof (next_chars (copied i) i l (copied_here i Hi ltac:(lia)) Hi ltac:(lia) (read_at _ _ _ Hm4)) as Hn.
  assert (Hd4 : mapped (copied i) (dest + Z.of_nat i) 4) by (apply copied_mapped; mem_side).
  rewrite load32_read by done. fold l. rewrite bind_Ok. cbn zeta. destruct (index_of 0 l) as [k|] eqn:Ek.
  - destruct Hn as [Hk Et]. destruct (zero_word l k Fl El Ek) as (Hne & Ew & Ef). pose proof (index_of_lt _ _ _ Ek).
    rewrite (proj2 (Z.eqb_neq _ 0)) by done. cbn [negb]. unfold prep_zero_mask, zero_bytemask. rewrite Ew, Ef, Et.
    rewrite store32_list; [|done| |rewrite length_app, length_replicate, <- Et, length_take; lia].
    2:{ apply Forall_app_2; [by apply Forall_drop, cstr_byte|by apply Forall_replicate]. }
    rewrite bind_Ok, write_next, app_assoc, take_drop by done. eexists. split; [reflexivity|]. left. split; [lia|].
    exists (4 - k)%nat. csplit; [lia..|]. do 2 f_equal. lia.
  - destruct Hn as [Hk Et]. rewrite (no_zero_word l Fl El Ek). cbn [negb Z.eqb]. rewrite store32_list by done. rewrite bind_Ok, write_next by done.
    rewrite El in Et, Hk. rewrite Et, take_take_drop. fold (copied (i + 4)).
    replace (Z.of_nat i + 4) with (Z.of_nat (i + 4)) by lia. replace (count - Z.of_nat i - 4) with (count - Z.of_nat (i + 4)) by lia.
    apply IH; [lia..| |]; rewrite ?div_sub_4; [lia|].
    destruct Hpage as [Ha|Hp]; [left|right].
    + replace (src + Z.of_nat (i + 4)) with (src + Z.of_nat i + 1 * 4) by lia. by rewrite Z_mod_plus_full.
    + destruct (decide (max = 4)) as [->|]; [pose proof (Z.mod_pos_bound (src + Z.of_nat (i + 4)) 4096); lia|].
      replace ((src + Z.of_nat (i + 4)) mod 4096) with ((src + Z.of_nat i) mod 4096 + 4); [lia|].
      apply (Z.mod_unique_pos _ _ ((src + Z.of_nat i) / 4096)); pose proof (Z.div_mod (src + Z.of_nat i) 4096); pose proof (Z.mod_pos_bound (src + Z.of_nat i) 4096); lia.
Qed.

Lemma strscpy_bytes_ok n i :
  (i <= length s)%nat -> Z.of_nat i + Z.of_nat n = count ->
  strscpy_bytes n (copied i) dest src (Z.of_nat i)
  = Ok (if Z.of_nat (length s) <? count then (write m0 dest (s ++ [0]), Some (Z.of_nat (length s))) else (write m0 dest s, None)).
Proof.
  revert i. induction n as [|n IH]; intros i Hi Hn; cbn [strscpy_bytes].
  { rewrite (proj2 (Z.ltb_ge _ _)) by lia. unfold copied. by rewrite take_ge by lia. }
  destruct (copied_here i Hi ltac:(lia)) as [H1 H2]. destruct (decide (i = length s)) as [->|Hne].
  - rewrite (load_ok _ _ _ (H2 ltac:(lia))), bind_Ok. rewrite store_ok; [|apply (copied_mapped (length s) dest count Hdest); lia|done].
    rewrite bind_Ok, write_next, take_ge by lia. cbn. by rewrite (proj2 (Z.ltb_lt _ _)) by lia.
  - destruct (lookup_lt_is_Some_2 s i) as [x Hx]; [lia|]. pose proof (Forall_lookup_1 _ _ _ _ Hnz Hx) as Hx0. cbn beta in Hx0.
    rewrite (load_ok _ _ _ (H1 _ _ Hx)), bind_Ok. rewrite store_ok; [|apply (copied_mapped i dest count Hdest); lia|unfold byte; lia].
    rewrite bind_Ok, write_next, (proj2 (Z.eqb_neq x 0)) by lia. rewrite <- (take_S_r s i x Hx). fold (copied (S i)).
    replace (Z.of_nat i + 1) with (Z.of_nat (S i)) by lia. apply IH; lia.
Qed.

(** The page limit of an unaligned source. *)
Definition word_limit : Z :=
  if negb (Z.land src 3 =? 0) then
    let limit := 4096 - Z.land src 4095 in
    if limit <? count then limit else count
  else count.

Lemma word_limit_ok :
  0 <= src -> 0 <= word_limit <= count /\ (src mod 4 = 0 \/ src mod 4096 + word_limit <= 4096).
Proof.
  intros H0. unfold word_limit. change 3 with (Z.ones 2). change 4095 with (Z.ones 12).
  rewrite !Z.land_ones by lia. change (2 ^ 2) with 4. change (2 ^ 12) with 4096. pose proof (Z.mod_pos_bound src 4096).
  destruct (Z.eqb_spec (src mod 4) 0); cbn [negb]; cbn zeta; [lia|]. destruct (Z.ltb_spec (4096 - src mod 4096) count); lia.
Qed.

Lemma last_byte : Z.of_nat (length s) = count -> write (write m0 dest s) (dest + (count - 1)) [0] = write m0 dest (take (Z.to_nat (count - 1)) s ++ [0]).
Proof.
  intros E. apply map_eq. intros b. rewrite !write_lookup, length_app, length_take. cbn [length].
  destruct (decide (b = dest + (count - 1))) as [->|Hne].
  - replace ((_ <=? _) && _) with true by lia. replace ((dest <=? _) && _) with true by lia.
    rewrite lookup_app_r by (rewrite length_take; lia). rewrite length_take.
    by replace (Z.to_nat (dest + (count - 1) - dest) - _)%nat with 0%nat by lia; replace (Z.to_nat (_ - _)) with 0%nat by lia.
  - replace ((dest + (count - 1) <=? b) && _) with false by lia.
    destruct ((dest <=? b) && (b <? dest + Z.of_nat (length s))) eqn:Eb.
    + replace (_ && _) with true by lia. rewrite lookup_app_l by (rewrite length_take; lia). by rewrite lookup_take_lt by lia.
    + by replace (_ && _) with false by lia.
Qed.

Lemma strscpy_ok :
  0 <= src ->
  (Z.of_nat (length s) < count -> exists p, (1 <= p <= 4)%nat /\ Z.of_nat (length s) + Z.of_nat p <= count /\
     strscpy m0 dest src count = Ok (write m0 dest (s ++ replicate p 0), Z.of_nat (length s))) /\
  (Z.of_nat (length s) = count ->
     strscpy m0 dest src count = Ok (write m0 dest (take (Z.to_nat (count - 1)) s ++ [0]), - E2BIG)).
Proof.
  intros H0. unfold strscpy. replace ((count =? 0) || (count >? 2 ^ 31 - 1)) with false by lia. fold word_limit.
  destruct (word_limit_ok H0) as [Hw Hp].
  destruct (strscpy_words_ok (S (Z.to_nat (word_limit / 4))) 0 word_limit) as (r & E & Hr); [lia..| |rewrite Z.add_0_r; lia|].
  { assert (0 <= word_limit / 4) by (apply Z.div_pos; lia). lia. }
  change (copied 0) with m0 in E. rewrite Z.sub_0_r in E. change (Z.of_nat 0) with 0 in E. rewrite E, bind_Ok. clear E.
  destruct Hr as [(Hlt & p & Hp1 & Hp2 & ->)|(i & Hi & ->)]; cbn beta iota.
  - split; [eauto|lia].
  - rewrite strscpy_bytes_ok by lia. rewrite bind_Ok. destruct (Z.ltb_spec (Z.of_nat (length s)) count) as [Hlt|Hge]; cbn beta iota zeta.
    + split; [|lia]. intros _. exists 1%nat. csplit; [lia..|done].
    + split; [lia|]. intros El. replace (Z.of_nat i + (count - Z.of_nat i)) with count by lia.
      rewrite (proj2 (Z.eqb_neq count 0)) by lia. cbn [negb]. rewrite store_ok by (done || apply write_is_Some, Hdest; lia).
      by rewrite bind_Ok, last_byte.
Qed.
End copy.

(** C27. [strscpy], reading and writing a word at a time, is the bounded copy: a
    string shorter than the buffer is copied whole with its terminator (and at
    most three more zeros, all inside the buffer) and its length returned;
    a longer one is cut to [count - 1] characters and a terminator, with
    [-E2BIG]. It reads no page other than those of the string's first [count]
    bytes, so that nothing beyond the end of the string need be mapped. *)
Theorem strscpy_spec m dest src count s :
  mem_ok m -> paged m -> 0 < count < 2 ^ 31 -> 0 <= src ->
  bytes_at m src s -> Forall (fun b => 0 < b < 256) s -> Z.of_nat (length s) <= count ->
  (Z.of_nat (length s) < count -> m !! (src + Z.of_nat (length s)) = Some 0) ->
  mapped m dest count ->
  dest + count <= src \/ src + Z.min count (Z.of_nat (length s) + 1) <= dest ->
  (Z.of_nat (length s) < count -> exists p, (1 <= p <= 4)%nat /\ Z.of_nat (length s) + Z.of_nat p <= count /\
     strscpy m dest src count = Ok (write m dest (s ++ replicate p 0), Z.of_nat (length s))) /\
  (Z.of_nat (length s) = count ->
     strscpy m dest src count = Ok (write m dest (take (Z.to_nat (count - 1)) s ++ [0]), - E2BIG)).
Proof. intros. by apply strscpy_ok. Qed.

Lemma counting_paged p n : paged (counting (4096 * p) (4096 * n)).
Proof.
  intros a b [x Hx] Hb. apply counting_lookup in Hx as [Ha _]. exists (u8 b). apply counting_lookup. split; [|done].
  pose proof (Z.div_mod a 4096 ltac:(lia)). pose proof (Z.div_mod b 4096 ltac:(lia)).
  pose proof (Z.mod_pos_bound a 4096 ltac:(lia)). pose proof (Z.mod_pos_bound b 4096 ltac:(lia)). nia.
Qed.

Lemma counting_None a n b : ~ a <= b < a + n -> counting a n !! b = None.
Proof. intros H. destruct (counting a n !! b) as [x|] eqn:E; [|done]. apply counting_lookup in E. lia. Qed.

(** Two pages, with a string in the last three bytes: what follows is not
    mapped. *)
Definition last_bytes : mem := write (counting 4096 8192) 12285 [97; 98; 0].

Lemma strscpy_spec_witness :
  last_bytes !! 12288 = None /\
  exists p, (1 <= p <= 4)%nat /\ 2 + Z.of_nat p <= 16 /\
    strscpy last_bytes 4096 12285 16 = Ok (write last_bytes 4096 ([97; 98] ++ replicate p 0), 2).
Proof.
  assert (Hm : mapped (counting 4096 8192) 12285 3) by (apply counting_mapped; lia). split.
  - unfold last_bytes. rewrite write_outside by (cbn [length]; lia). apply counting_None. lia.
  - apply (strscpy_spec last_bytes 4096 12285 16 [97; 98]).
    + apply mem_ok_write; [apply counting_ok|repeat constructor; done].
    + apply paged_write; [exact Hm|apply (counting_paged 1 2)].
    + lia.
    + lia.
    + apply (bytes_at_app last_bytes 12285 [97; 98] [0]), bytes_at_written.
    + repeat constructor; done.
    + cbn. lia.
    + intros _. by apply (bytes_at_written (counting 4096 8192) 12285 [97; 98; 0] 2%nat).
    + apply mapped_write, counting_mapped; lia.
    + cbn. lia.
    + cbn. lia.
Defined.
