(* ===== verification/Cmdline.v ===== *)
(** * lib/cmdline.c, arch/x86/lib/cmdline.c: the kernel command line

    [next_arg] cuts the command line into parameters and values in place;
    [cmdline_find_option_bool] and [cmdline_find_option] look one option up
    before that happens, with a state machine over the characters. *)

From S2P Require Import Prelude Ctype StringMem Memmove LibString LibStringSpec.

Local Open Scope Z_scope.

Definition quote : Z := 34.
Definition equals_sign : Z := 61.

(** ** lib/cmdline.c *)

(** The loop of [next_arg]: where it stops, and [equals]. *)
Fixpoint next_arg_loop (fuel : nat) (m : mem) (args i equals : Z) (in_quote : bool) : outcome (Z * Z) :=
  match fuel with
  | O => NoFuel
  | S fuel =>
      c ← load m (args + i);
      if c =? 0 then Ok (i, equals)
      else if isspace c && negb in_quote then Ok (i, equals)
      else
        let equals := if (equals =? 0) && (c =? equals_sign) then i else equals in
        let in_quote := if c =? quote then negb in_quote else in_quote in
        next_arg_loop fuel m args (i + 1) equals in_quote
  end.

(** A quote at [args[j]], for an unsigned index, becomes a terminator. *)
Definition drop_quote (m : mem) (args j : Z) : outcome mem :=
  let p := u32 (args + u32 j) in
  c ← load m p;
  if c =? quote then store m p 0 else Ok m.

(** The result is the memory, the next argument, [*param] and [*val]. *)
Definition next_arg (m : mem) (args : Z) : outcome (mem * Z * Z * Z) :=
  c ← load m args;
  let quoted := c =? quote in
  let args := if quoted then args + 1 else args in
  '(i, equals) ← next_arg_loop (S (size m)) m args 0 0 quoted;
  let param := args in
  '(m, val) ← (if equals =? 0 then Ok (m, NULL)
               else
                 m ← store m (args + equals) 0;
                 let val := args + equals + 1 in
                 c ← load m val;
                 if c =? quote then
                   m ← drop_quote m args (i - 1);
                   Ok (m, val + 1)
                 else Ok (m, val));
  m ← (if quoted then drop_quote m args (i - 1) else Ok m);
  c ← load m (args + i);
  '(m, args) ← (if negb (c =? 0) then m ← store m (args + i) 0; Ok (m, args + i + 1)
                else Ok (m, args + i));
  next ← skip_spaces m args;
  Ok (m, next, param, val).

(** ** arch/x86/lib/cmdline.c *)

Definition COMMAND_LINE_SIZE : Z := 2048.

Definition myisspace (c : Z) : bool := u8 c <=? 32.

Inductive word_state : Set := st_wordstart | st_wordcmp | st_wordskip | st_bufcpy.

(** The [switch] of [__cmdline_find_option_bool]: a value to return, or the
    new [state], [opptr] and [wstart]. *)
Definition bool_skip (c opptr wstart : Z) : Z + word_state * Z * Z :=
  if c =? 0 then inl 0
  else if myisspace c then inr (st_wordstart, opptr, wstart)
  else inr (st_wordskip, opptr, wstart).

Definition bool_cmp (m : mem) (c opptr wstart : Z) : outcome (Z + word_state * Z * Z) :=
  o ← load m opptr;
  if o =? 0 then
    if (c =? 0) || myisspace c then Ok (inl wstart) else Ok (bool_skip c opptr wstart)
  else if c =? 0 then Ok (inl 0)
  else if c =? o then Ok (inr (st_wordcmp, opptr + 1, wstart))
  else Ok (bool_skip c (opptr + 1) wstart).

Definition bool_step (m : mem) (option c pos : Z) (state : word_state) (opptr wstart : Z) :
    outcome (Z + word_state * Z * Z) :=
  match state with
  | st_wordstart =>
      if c =? 0 then Ok (inl 0)
      else if myisspace c then Ok (inr (st_wordstart, opptr, wstart))
      else bool_cmp m c option pos
  | st_wordcmp => bool_cmp m c opptr wstart
  | _ => Ok (bool_skip c opptr wstart)
  end.

(** [while (pos < max_cmdline_size)]; [turns] is what is left of it. *)
Fixpoint find_bool_loop (turns : nat) (m : mem) (cmdline option pos : Z) (state : word_state) (opptr wstart : Z) :
    outcome Z :=
  match turns with
  | O => Ok 0
  | S turns =>
      c ← load m cmdline;
      let pos := pos + 1 in
      r ← bool_step m option c pos state opptr wstart;
      match r with
      | inl v => Ok v
      | inr (state, opptr, wstart) => find_bool_loop turns m (cmdline + 1) option pos state opptr wstart
      end
  end.

Definition __cmdline_find_option_bool (m : mem) (cmdline max_cmdline_size option : Z) : outcome Z :=
  if cmdline =? NULL then Ok (-1)
  else find_bool_loop (Z.to_nat max_cmdline_size) m cmdline option 0 st_wordstart NULL 0.

Definition cmdline_find_option_bool (m : mem) (cmdline option : Z) : outcome Z :=
  __cmdline_find_option_bool m cmdline COMMAND_LINE_SIZE option.

(** The variables of [__cmdline_find_option]. *)
Record option_search : Set := Search { s_state : word_state; s_opptr : Z; s_bufptr : Z; s_len : Z }.

Definition option_skip (c : Z) (s : option_search) : option_search :=
  Search (if myisspace c then st_wordstart else st_wordskip) (s_opptr s) (s_bufptr s) (s_len s).

Definition option_cmp (m : mem) (buffer c : Z) (s : option_search) : outcome option_search :=
  o ← load m (s_opptr s);
  if (c =? equals_sign) && (o =? 0) then Ok (Search st_bufcpy (s_opptr s) buffer 0)
  else if c =? o then Ok (Search st_wordcmp (s_opptr s + 1) (s_bufptr s) (s_len s))
  else Ok (option_skip c (Search st_wordskip (s_opptr s + 1) (s_bufptr s) (s_len s))).

Definition option_step (m : mem) (option buffer bufsize c : Z) (s : option_search) : outcome (mem * option_search) :=
  match s_state s with
  | st_wordstart =>
      if myisspace c then Ok (m, s)
      else s ← option_cmp m buffer c (Search st_wordcmp option (s_bufptr s) (s_len s)); Ok (m, s)
  | st_wordcmp => s ← option_cmp m buffer c s; Ok (m, s)
  | st_wordskip => Ok (m, option_skip c s)
  | st_bufcpy =>
      if myisspace c then Ok (m, Search st_wordstart (s_opptr s) (s_bufptr s) (s_len s))
      else
        let len := s_len s + 1 in
        if len <? bufsize then
          m ← store m (s_bufptr s) c;
          Ok (m, Search st_bufcpy (s_opptr s) (s_bufptr s + 1) len)
        else Ok (m, Search st_bufcpy (s_opptr s) (s_bufptr s) len)
  end.

Fixpoint find_option_loop (turns : nat) (m : mem) (cmdline option buffer bufsize : Z) (s : option_search) :
    outcome (mem * option_search) :=
  match turns with
  | O => Ok (m, s)
  | S turns =>
      c ← load m cmdline;
      if c =? 0 then Ok (m, s)
      else
        '(m, s) ← option_step m option buffer bufsize c s;
        find_option_loop turns m (cmdline + 1) option buffer bufsize s
  end.

Definition __cmdline_find_option (m : mem) (cmdline max_cmdline_size option buffer bufsize : Z) : outcome (mem * Z) :=
  if cmdline =? NULL then Ok (m, -1)
  else
    '(m, s) ← find_option_loop (Z.to_nat max_cmdline_size) m cmdline option buffer bufsize
                (Search st_wordstart NULL buffer (-1));
    m ← (if negb (bufsize =? 0) then store m (s_bufptr s) 0 else Ok m);
    Ok (m, s_len s).

Definition cmdline_find_option (m : mem) (cmdline option buffer bufsize : Z) : outcome (mem * Z) :=
  __cmdline_find_option m cmdline COMMAND_LINE_SIZE option buffer bufsize.

(** ** Words of a string *)

Lemma cstr_load m a s k : cstr m a s -> (k <= length s)%nat -> load m (a + Z.of_nat k) = Ok (default 0 (s !! k)).
Proof.
  intros [H _] Hk. apply load_ok, H. destruct (decide (k = length s)) as [->|].
  - rewrite lookup_app_r, Nat.sub_diag by lia. by rewrite (lookup_ge_None_2 s) by lia.
  - destruct (lookup_lt_is_Some_2 s k) as [x Hx]; [lia|]. rewrite Hx. by apply lookup_app_l_Some.
Qed.

(** Position [k] is at the start of the string or after a space. *)
Definition boundary (s : list Z) (k : nat) : Prop :=
  k = O \/ exists c, s !! (k - 1)%nat = Some c /\ myisspace c = true.

(** The word [w] is at position [i], delimited by spaces or the ends. *)
Record word_at (s : list Z) (i : nat) (w : list Z) : Prop := {
  wa_nonempty : w <> [];
  wa_boundary : boundary s i;
  wa_chars j x : w !! j = Some x -> s !! (i + j)%nat = Some x /\ myisspace x = false;
  wa_end c : s !! (i + length w)%nat = Some c -> myisspace c = true;
}.

Lemma word_at_first s i w : word_at s i w -> exists c, s !! i = Some c /\ w !! 0%nat = Some c /\ myisspace c = false.
Proof.
  intros [Hn _ Hc _]. destruct w as [|x w]; [done|]. destruct (Hc 0%nat x eq_refl) as [H1 H2]. rewrite Nat.add_0_r in H1. eauto.
Qed.

Section find_bool.
Context (m : mem) (cmdline option : Z) (s opt : list Z).
Context (Hs : cstr m cmdline s) (Ho : cstr m option opt) (Hsp : Forall (fun c => myisspace c = false) opt).

(** No match before [k]. *)
Definition none_before (k : nat) : Prop := forall i, (i < k)%nat -> ~ word_at s i opt.

(** The first [n] characters of the option are at [b], the start of a word. *)
Record matching (b n : nat) : Prop := {
  ma_boundary : boundary s b;
  ma_none : none_before b;
  ma_len : (n <= length opt)%nat;
  ma_chars j : (j < n)%nat -> s !! (b + j)%nat = opt !! j;
}.

(** What is known at position [k], in each state. *)
Definition state_ok (k : nat) (state : word_state) (opptr wstart : Z) : Prop :=
  match state with
  | st_wordstart => boundary s k /\ none_before k
  | st_wordcmp => exists b n, k = (b + n)%nat /\ (1 <= n)%nat /\ matching b n /\
                    opptr = option + Z.of_nat n /\ wstart = Z.of_nat b + 1
  | _ => (exists c, s !! (k - 1)%nat = Some c /\ myisspace c = false) /\ (1 <= k)%nat /\ none_before k
  end.

(** The value returned. *)
Definition found (r : Z) : Prop :=
  (r = 0 /\ forall i, ~ word_at s i opt) \/
  (exists i, r = Z.of_nat i + 1 /\ word_at s i opt /\ none_before i).

Lemma none_at_end : none_before (length s) -> forall i, ~ word_at s i opt.
Proof.
  intros H i Hi. destruct (decide (i < length s)%nat); [by apply (H i)|]. destruct (word_at_first _ _ _ Hi) as (c & Hc & _).
  apply lookup_lt_Some in Hc. lia.
Qed.

(** In the middle of a word there is no boundary. *)
Lemma none_inside b n k :
  matching b n -> (b < k <= b + n)%nat -> ~ boundary s k.
Proof.
  intros [_ _ Hn Hc] Hk [E|(c & E & Hsc)]; [lia|]. specialize (Hc (k - 1 - b)%nat ltac:(lia)).
  replace (b + (k - 1 - b))%nat with (k - 1)%nat in Hc by lia. rewrite E in Hc.
  pose proof (Forall_lookup_1 _ _ _ _ Hsp (eq_sym Hc)) as Hx. cbn beta in Hx. congruence.
Qed.

Lemma none_next b n k :
  matching b n -> ~ word_at s b opt -> (b <= k <= b + n + 1)%nat -> (k = (b + n + 1)%nat -> n = O \/ ~ word_at s (b + n) opt) -> none_before k.
Proof.
  intros Hm Hb Hk Hlast i Hi Hw. destruct (decide (i < b)%nat); [by apply (ma_none _ _ Hm i)|].
  destruct (decide (i = b)) as [->|]; [done|]. destruct (decide (i = b + n)%nat) as [->|].
  - destruct Hlast as [->|Hl]; [lia|lia|done].
  - apply (none_inside b n i Hm); [lia|apply Hw].
Qed.

Definition next_ok (k : nat) (r : Z + word_state * Z * Z) : Prop :=
  match r with inl v => found v | inr (st, op, ws) => (k < length s)%nat /\ state_ok (S k) st op ws end.

(** The word at [b] is not the option: skip it. *)
Lemma skip_ok k opptr wstart c :
  s !! k = Some c -> c <> 0 -> none_before (S k) -> next_ok k (bool_skip c opptr wstart).
Proof.
  intros Hc H0 Hn. unfold bool_skip. rewrite (proj2 (Z.eqb_neq c 0)) by done.
  apply lookup_lt_Some in Hc as Hlt. destruct (myisspace c) eqn:E; cbn [next_ok state_ok]; (split; [done|]).
  - split; [|done]. right. exists c. by replace (S k - 1)%nat with k by lia.
  - csplit; [|lia|done]. exists c. by replace (S k - 1)%nat with k by lia.
Qed.

Lemma cmp_ok k b n c :
  k = (b + n)%nat -> matching b n -> (k <= length s)%nat -> c = default 0 (s !! k) ->
  (n = O -> c <> 0 /\ myisspace c = false) ->
  exists r, bool_cmp m c (option + Z.of_nat n) (Z.of_nat b + 1) = Ok r /\ next_ok k r.
Proof.
  intros -> Hm Hk -> Hstart. unfold bool_cmp. rewrite (cstr_load m option opt n Ho (ma_len _ _ Hm)), bind_Ok.
  assert (Hsn : forall c, s !! (b + n)%nat = Some c -> c <> 0).
  { intros c Hc. pose proof (Forall_lookup_1 _ _ _ _ (proj2 Hs) Hc) as H. cbn beta in H. lia. }
  destruct (opt !! n) as [o|] eqn:Eo; cbn [default from_option id].
  - assert (o <> 0) by (pose proof (Forall_lookup_1 _ _ _ _ (proj2 Ho) Eo) as H; cbn beta in H; lia).
    rewrite (proj2 (Z.eqb_neq o 0)) by done. pose proof (Forall_lookup_1 _ _ _ _ Hsp Eo) as Hos. cbn beta in Hos.
    assert (Hno : s !! (b + n)%nat <> Some o -> ~ word_at s b opt).
    { intros Hne Hw. by destruct (wa_chars _ _ _ Hw n o Eo). }
    destruct (s !! (b + n)%nat) as [c|] eqn:Ec; cbn [default from_option id].
    + rewrite (proj2 (Z.eqb_neq c 0)) by auto. destruct (Z.eqb_spec c o) as [->|Hne]; (eexists; split; [reflexivity|]).
      * split; [by apply lookup_lt_Some in Ec|]. exists b, (S n). csplit; [lia|lia| |lia|done]. destruct Hm as [M1 M2 M3 M4]. apply lookup_lt_Some in Eo as Hlt.
        split; [done..|lia|]. intros j Hj. destruct (decide (j = n)) as [->|]; [by rewrite Ec, Eo|apply M4; lia].
      * apply skip_ok; [done|by auto|]. apply (none_next b n); [done|apply Hno; congruence|lia|]. intros _.
        destruct (decide (n = O)) as [|Hn0]; [by left|right; intros Hw; apply (none_inside b n (b + n) Hm); [lia|apply Hw]].
    + eexists. split; [reflexivity|]. left. split; [done|]. apply none_at_end. apply lookup_ge_None in Ec.
      apply (none_next b n); [done|by apply Hno|lia|lia].
  - apply lookup_ge_None in Eo. pose proof (ma_len _ _ Hm). assert (n = length opt) as -> by lia.
    assert (Hfound : opt <> [] -> (forall c, s !! (b + length opt)%nat = Some c -> myisspace c = true) -> found (Z.of_nat b + 1)).
    { intros Hne He. right. exists b. split; [done|]. destruct Hm as [M1 M2 M3 M4]. split; [|done]. split; [done..| |done].
      intros j x Hj. rewrite M4 by (by apply lookup_lt_Some in Hj). split; [done|]. exact (Forall_lookup_1 _ _ _ _ Hsp Hj). }
    assert (Hne : (length opt <> 0)%nat -> opt <> []) by (intros Hz E; by rewrite E in Hz).
    destruct (s !! (b + length opt)%nat) as [c|] eqn:Ec; cbn [default from_option id] in Hstart |- *.
    + rewrite (proj2 (Z.eqb_neq c 0)) by auto. destruct (myisspace c) eqn:Esp; cbn [orb]; (eexists; split; [reflexivity|]).
      * apply Hfound; [apply Hne; intros E0; by destruct (Hstart E0)|]. intros c' E. congruence.
      * apply skip_ok; [done|by auto|].
        apply (none_next b (length opt)); [done|intros Hw; by rewrite (wa_end _ _ _ Hw c Ec) in Esp|lia|]. intros _.
        destruct (decide (length opt = O)) as [|Hn0]; [by left|right; intros Hw; apply (none_inside b (length opt) (b + length opt) Hm); [lia|apply Hw]].
    + eexists. split; [reflexivity|]. apply Hfound; [|done]. apply Hne. intros E0. by destruct (Hstart E0).
Qed.

Lemma step_ok k state opptr wstart c :
  (k <= length s)%nat -> c = default 0 (s !! k) -> state_ok k state opptr wstart ->
  exists r, bool_step m option c (Z.of_nat k + 1) state opptr wstart = Ok r /\ next_ok k r.
Proof.
  intros Hk -> Hst.
  assert (Hend : none_before k -> s !! k = None -> found 0).
  { intros Hn E. left. split; [done|]. apply none_at_end. apply lookup_ge_None in E. by replace (length s) with k by lia. }
  assert (Hsn : forall c, s !! k = Some c -> c <> 0).
  { intros c Hc. pose proof (Forall_lookup_1 _ _ _ _ (proj2 Hs) Hc) as H. cbn beta in H. lia. }
  assert (Hskip : (exists c, s !! (k - 1)%nat = Some c /\ myisspace c = false) /\ (1 <= k)%nat /\ none_before k ->
    exists r, Ok (bool_skip (default 0 (s !! k)) opptr wstart) = Ok r /\ next_ok k r).
  { intros ((c' & Hc' & Hs') & H1 & Hn). eexists. split; [reflexivity|].
    destruct (s !! k) as [c|] eqn:Ec; cbn [default from_option id]; [|by apply Hend].
    apply skip_ok; [done|by auto|]. intros i Hi Hw. destruct (decide (i = k)) as [->|]; [|apply (Hn i); [lia|done]].
    destruct (wa_boundary _ _ _ Hw) as [|(c1 & E1 & Es)]; [lia|congruence]. }
  destruct state; cbn [state_ok bool_step] in *; try by apply Hskip.
  - destruct Hst as [Hb Hn]. destruct (s !! k) as [c|] eqn:Ec; cbn [default from_option id]; [|eexists; split; [reflexivity|by apply Hend]].
    rewrite (proj2 (Z.eqb_neq c 0)) by auto. destruct (myisspace c) eqn:Esp.
    + eexists. split; [reflexivity|]. cbn [next_ok state_ok]. split; [by apply lookup_lt_Some in Ec|]. split.
      * right. exists c. by replace (S k - 1)%nat with k by lia.
      * intros i Hi Hw. destruct (decide (i = k)) as [->|]; [|apply (Hn i); [lia|done]].
        destruct (word_at_first _ _ _ Hw) as (c1 & E1 & _ & E2). congruence.
    + destruct (cmp_ok k k 0 c) as (r & E & Hr); [lia|split; [done..|lia|lia]|done|by rewrite Ec|by auto|].
      rewrite Z.add_0_r in E. eauto.
  - destruct Hst as (b & n & Ek & Hn1 & Hm & -> & ->). apply (cmp_ok k b n); [done..|lia].
Qed.

Lemma find_bool_loop_ok turns k state opptr wstart :
  (k <= length s)%nat -> state_ok k state opptr wstart -> (length s - k < turns)%nat ->
  exists r, find_bool_loop turns m (cmdline + Z.of_nat k) option (Z.of_nat k) state opptr wstart = Ok r /\ found r.
Proof.
  revert k state opptr wstart. induction turns as [|turns IH]; intros k state opptr wstart Hk Hst Ht; [lia|].
  cbn [find_bool_loop]. rewrite (cstr_load m cmdline s k Hs Hk), bind_Ok. cbn zeta.
  destruct (step_ok k state opptr wstart _ Hk eq_refl Hst) as (r & E & Hr). rewrite E, bind_Ok. destruct r as [v|[[st op] ws]].
  - eauto.
  - destruct Hr as [Hlt Hr]. rewrite <- Z.add_assoc. replace (Z.of_nat k + 1) with (Z.of_nat (S k)) by lia.
    apply IH; [lia|done|lia].
Qed.
End find_bool.

(** [cmdline_find_option_bool], on a command line that ends within the
    limit and an option without spaces, returns the 1-based position of the
    first word equal to the option, and 0 when there is none. *)
Theorem cmdline_find_option_bool_spec m cmdline max option s opt :
  cstr m cmdline s -> cstr m option opt -> cmdline <> NULL -> Z.of_nat (length s) < max ->
  Forall (fun c => myisspace c = false) opt ->
  exists r, __cmdline_find_option_bool m cmdline max option = Ok r /\
    ((r = 0 /\ forall i, ~ word_at s i opt) \/
     (exists i, r = Z.of_nat i + 1 /\ word_at s i opt /\ forall j, (j < i)%nat -> ~ word_at s j opt)).
Proof.
  intros Hs Ho Hc Hmax Hsp. unfold __cmdline_find_option_bool. rewrite (proj2 (Z.eqb_neq cmdline NULL)) by done.
  rewrite <- (Z.add_0_r cmdline). apply (find_bool_loop_ok m cmdline option s opt Hs Ho Hsp _ 0); [lia| |lia].
  split; [by left|]. intros i Hi. lia.
Qed.

(** "quiet nosmp" and "nosmp". *)
Lemma cmdline_find_option_bool_spec_witness :
  let m := two_strings [113; 117; 105; 101; 116; 32; 110; 111; 115; 109; 112] [110; 111; 115; 109; 112] in
  (exists r, __cmdline_find_option_bool m 4096 2048 8192 = Ok r /\
    ((r = 0 /\ forall i, ~ word_at [113; 117; 105; 101; 116; 32; 110; 111; 115; 109; 112] i [110; 111; 115; 109; 112]) \/
     (exists i, r = Z.of_nat i + 1 /\
        word_at [113; 117; 105; 101; 116; 32; 110; 111; 115; 109; 112] i [110; 111; 115; 109; 112] /\
        forall j, (j < i)%nat -> ~ word_at [113; 117; 105; 101; 116; 32; 110; 111; 115; 109; 112] j [110; 111; 115; 109; 112]))) /\
  __cmdline_find_option_bool m 4096 2048 8192 = Ok 7.
Proof.
  cbn zeta. split; [|by vm_compute].
  apply (cmdline_find_option_bool_spec
    (two_strings [113; 117; 105; 101; 116; 32; 110; 111; 115; 109; 112] [110; 111; 115; 109; 112]) 4096 2048 8192).
  1, 2: apply two_strings_ok; [cbn; lia|repeat constructor; lia..].
  - done.
  - cbn. lia.
  - repeat constructor.
Defined.

(** ** The value of an option *)

Section find_option.
Context (m0 : mem) (cmdline option buffer bufsize : Z) (s opt : list Z).
Context (Hs : cstr m0 cmdline s) (Ho : cstr m0 option opt) (Hsp : Forall (fun c => myisspace c = false) opt).
Context (Hb : 0 < bufsize) (Hmap : mapped m0 buffer bufsize).
Context (Hds : buffer + bufsize <= cmdline \/ cmdline + Z.of_nat (length s) < buffer).
Context (Hdo : buffer + bufsize <= option \/ option + Z.of_nat (length opt) < buffer).

(** The option with the value [v], a word at [i]. *)
Definition value_at (i : nat) (v : list Z) : Prop := word_at s i (opt ++ equals_sign :: v).

(** Only the buffer has been written. *)
Definition same_outside (m : mem) : Prop :=
  (forall a, ~ buffer <= a < buffer + bufsize -> m !! a = m0 !! a) /\ mapped m buffer bufsize.

Definition room : nat := Z.to_nat (bufsize - 1).

(** The buffer holds what fits of [v]. *)
Definition holding (m : mem) (bufptr len : Z) (v : list Z) : Prop :=
  len = Z.of_nat (length v) /\ bufptr = buffer + Z.of_nat (Nat.min (length v) room) /\ bytes_at m buffer (take room v).

(** The last value before [k] is the one found. *)
Definition latest (k : nat) (m : mem) (bufptr len : Z) : Prop :=
  (len = -1 /\ bufptr = buffer /\ forall i v, (i < k)%nat -> ~ value_at i v) \/
  (exists i v, (i < k)%nat /\ value_at i v /\ (forall j w, (i < j < k)%nat -> ~ value_at j w) /\ holding m bufptr len v).

(** The characters of [w] are at [b], the start of a word. *)
Record prefix_at (b : nat) (w : list Z) : Prop := {
  pa_boundary : boundary s b;
  pa_chars j x : w !! j = Some x -> s !! (b + j)%nat = Some x /\ myisspace x = false;
}.

Definition search_ok (k : nat) (m : mem) (q : option_search) : Prop :=
  same_outside m /\
  match s_state q with
  | st_wordstart => boundary s k /\ latest k m (s_bufptr q) (s_len q)
  | st_wordcmp => exists b n, k = (b + n)%nat /\ (1 <= n <= length opt)%nat /\ prefix_at b (take n opt) /\
                    s_opptr q = option + Z.of_nat n /\ latest b m (s_bufptr q) (s_len q)
  | st_wordskip => (exists c, s !! (k - 1)%nat = Some c /\ myisspace c = false) /\ (1 <= k)%nat /\
                   latest k m (s_bufptr q) (s_len q)
  | st_bufcpy => exists b v, k = (b + length opt + 1 + length v)%nat /\ prefix_at b (opt ++ equals_sign :: v) /\
                   holding m (s_bufptr q) (s_len q) v
  end.

Lemma same_cmdline m : same_outside m -> cstr m cmdline s.
Proof.
  intros [H _]. split; [|apply Hs]. intros i x Hi. rewrite H; [by apply Hs|]. apply lookup_lt_Some in Hi.
  rewrite length_app in Hi. cbn [length] in Hi. lia.
Qed.

Lemma same_option m : same_outside m -> cstr m option opt.
Proof.
  intros [H _]. split; [|apply Ho]. intros i x Hi. rewrite H; [by apply Ho|]. apply lookup_lt_Some in Hi.
  rewrite length_app in Hi. cbn [length] in Hi. lia.
Qed.

Lemma not_boundary b w k : prefix_at b w -> (b < k <= b + length w)%nat -> ~ boundary s k.
Proof.
  intros [_ Hc] Hk [E|(c & E & Hsc)]; [lia|]. destruct (lookup_lt_is_Some_2 w (k - 1 - b)) as [x Hx]; [lia|].
  destruct (Hc _ _ Hx) as [H1 H2]. replace (b + (k - 1 - b))%nat with (k - 1)%nat in H1 by lia. congruence.
Qed.

(** No value starts between [k] and [k']: the last one stays the last. *)
Lemma latest_extend k k' m bufptr len :
  latest k m bufptr len -> (k <= k')%nat -> (forall i v, (k <= i < k')%nat -> ~ value_at i v) -> latest k' m bufptr len.
Proof.
  intros [(H1 & H2 & H3)|(i & v & H1 & H2 & H3 & H4)] Hk Hno; [left|right].
  - csplit; [done..|]. intros i v Hi. destruct (decide (i < k)%nat); [by apply H3|apply Hno; lia].
  - exists i, v. csplit; [lia|done| |done]. intros j w Hj. destruct (decide (j < k)%nat); [apply H3|apply Hno]; lia.
Qed.

Lemma value_not_boundary i v k : value_at i v -> ~ boundary s i -> (i < k)%nat -> False.
Proof. intros [_ H _ _] Hn _. done. Qed.

Lemma value_first i v : value_at i v -> exists c, s !! i = Some c /\ myisspace c = false.
Proof. intros H. destruct (word_at_first _ _ _ H) as (c & H1 & _ & H2). eauto. Qed.

(** A mismatch at [b + n]: no value at [b]. *)
Lemma mismatch b n v :
  (n <= length opt)%nat -> (forall c, s !! (b + n)%nat = Some c -> (opt ++ [equals_sign]) !! n <> Some c) -> ~ value_at b v.
Proof.
  intros Hn Hc Hv. destruct (lookup_lt_is_Some_2 (opt ++ [equals_sign]) n) as [x Hx]; [rewrite length_app; cbn; lia|].
  destruct (wa_chars _ _ _ Hv n x) as [H _]; [|by apply (Hc x)].
  change (equals_sign :: v) with ([equals_sign] ++ v). rewrite app_assoc. by apply lookup_app_l_Some.
Qed.

Lemma same_write m p x : same_outside m -> buffer <= p < buffer + bufsize -> same_outside (write m p [x]).
Proof.
  intros [H1 H2] Hp. split; [|by apply mapped_write]. intros a Ha. rewrite write_outside by (cbn [length]; lia). by apply H1.
Qed.

Lemma holding_next m bufptr len v c :
  byte c -> same_outside m -> holding m bufptr len v ->
  exists m' p, (if len + 1 <? bufsize then m ← store m bufptr c; Ok (m, bufptr + 1) else Ok (m, bufptr)) = Ok (m', p) /\
    same_outside m' /\ holding m' p (len + 1) (v ++ [c]).
Proof.
  intros Hc Hsame (-> & -> & Hbytes). unfold holding. rewrite length_app. cbn [length].
  destruct (Z.ltb_spec (Z.of_nat (length v) + 1) bufsize) as [Hlt|Hge].
  - rewrite store_ok by (done || apply (proj2 Hsame); unfold room; lia). rewrite bind_Ok. eexists _, _. split; [reflexivity|].
    split; [apply same_write; [done|unfold room; lia]|]. csplit; [lia|unfold room; lia|].
    rewrite !take_ge in * by (rewrite ?length_app; cbn [length]; unfold room; lia). apply bytes_at_app. split.
    + apply bytes_at_write; [unfold room; lia|done].
    + replace (Nat.min (length v) room) with (length v) by (unfold room; lia). apply bytes_at_written.
  - eexists _, _. split; [reflexivity|]. split; [done|]. csplit; [lia|unfold room; lia|].
    by rewrite take_app_le by (unfold room; lia).
Qed.

Lemma boundary_S k c : s !! k = Some c -> myisspace c = true -> boundary s (S k).
Proof. intros H1 H2. right. exists c. by replace (S k - 1)%nat with k by lia. Qed.

(** After a mismatch: the word is skipped, or has just ended. *)
Lemma option_skip_ok k m c q :
  same_outside m -> s !! k = Some c -> latest (S k) m (s_bufptr q) (s_len q) -> search_ok (S k) m (option_skip c q).
Proof.
  intros Hsame Hc Hl. split; [done|]. unfold option_skip. cbn [s_state s_bufptr s_len]. destruct (myisspace c) eqn:E.
  - split; [by apply (boundary_S k c)|done].
  - csplit; [|lia|done]. exists c. by replace (S k - 1)%nat with k by lia.
Qed.

Lemma prefix_snoc b w c : prefix_at b w -> s !! (b + length w)%nat = Some c -> myisspace c = false -> prefix_at b (w ++ [c]).
Proof.
  intros [H1 H2] Hc Hs'. split; [done|]. intros j x Hj. apply lookup_snoc_Some in Hj as [[Hj Hx]|[-> <-]]; [by apply H2|done].
Qed.

Lemma option_cmp_ok b n m c q :
  same_outside m -> (n <= length opt)%nat -> prefix_at b (take n opt) -> s !! (b + n)%nat = Some c ->
  s_opptr q = option + Z.of_nat n -> latest b m (s_bufptr q) (s_len q) -> (n = O -> myisspace c = false) ->
  exists q', option_cmp m buffer c q = Ok q' /\ search_ok (S (b + n)) m q'.
Proof.
  intros Hsame Hn Hp Hc Hop Hl Hn0. unfold option_cmp. rewrite Hop, (cstr_load m option opt n (same_option m Hsame) Hn), bind_Ok.
  pose proof (Forall_lookup_1 _ _ _ _ (proj2 Hs) Hc) as Hc0. cbn beta in Hc0.
  assert (Hlen : length (take n opt) = n) by (rewrite length_take; lia).
  assert (Hmis : (forall x, (opt ++ [equals_sign]) !! n = Some x -> x <> c) -> latest (S (b + n)) m (s_bufptr q) (s_len q)).
  { intros Hne. apply (latest_extend b); [done|lia|]. intros i v Hi Hv. destruct (decide (i = b)) as [->|].
    - apply (mismatch b n v Hn); [|done]. intros c' E1 E2. apply (Hne c' E2). congruence.
    - apply (not_boundary b (take n opt) i Hp); [lia|apply Hv]. }
  destruct (opt !! n) as [o|] eqn:Eo; cbn [default from_option id].
  - pose proof (Forall_lookup_1 _ _ _ _ (proj2 Ho) Eo) as Ho0. cbn beta in Ho0.
    rewrite (proj2 (Z.eqb_neq o 0)), andb_false_r by lia.
    destruct (Z.eqb_spec c o) as [->|Hne]; (eexists; split; [reflexivity|]).
    + split; [done|]. apply lookup_lt_Some in Eo as Hlt. exists b, (S n). csplit; [lia..| | |done].
      * rewrite (take_S_r opt n o Eo). apply prefix_snoc; [done|by rewrite Hlen|]. exact (Forall_lookup_1 _ _ _ _ Hsp Eo).
      * cbn [s_opptr]. lia.
    + apply option_skip_ok; [done..|]. apply Hmis. rewrite lookup_app_l by (by apply lookup_lt_Some in Eo). congruence.
  - apply lookup_ge_None in Eo. assert (n = length opt) as -> by lia. rewrite take_ge in * by lia.
    rewrite (proj2 (Z.eqb_neq c 0)) by lia. rewrite Z.eqb_refl, andb_true_r.
    destruct (Z.eqb_spec c equals_sign) as [->|Hne]; (eexists; split; [reflexivity|]).
    + split; [done|]. exists b, []. csplit; [cbn [length]; lia|by apply prefix_snoc|].
      unfold holding. rewrite take_nil. csplit; [done|cbn; lia|apply bytes_at_nil].
    + apply option_skip_ok; [done..|]. apply Hmis. rewrite lookup_app_r, Nat.sub_diag by lia. cbn. congruence.
Qed.

Lemma option_step_ok k m c q :
  s !! k = Some c -> search_ok k m q ->
  exists m' q', option_step m option buffer bufsize c q = Ok (m', q') /\ search_ok (S k) m' q'.
Proof.
  intros Hc [Hsame Hst]. pose proof (Forall_lookup_1 _ _ _ _ (proj2 Hs) Hc) as Hc0. cbn beta in Hc0.
  unfold option_step. destruct q as [st op bp len]. cbn [s_state s_opptr s_bufptr s_len] in *. destruct st.
  - destruct Hst as [Hbd Hl]. destruct (myisspace c) eqn:E.
    + eexists _, _. split; [reflexivity|]. split; [done|]. split; [by apply (boundary_S k c)|].
      apply (latest_extend k); [done|lia|]. intros i v Hi Hv. replace i with k in Hv by lia.
      destruct (value_first _ _ Hv) as (c' & E1 & E2). congruence.
    + destruct (option_cmp_ok k 0 m c (Search st_wordcmp option bp len)) as (q' & E1 & E2); rewrite ?Nat.add_0_r in *;
        [done|lia|split; [done|intros j x Hj; by rewrite take_0 in Hj]|done|cbn; lia|done|done|].
      rewrite E1, bind_Ok. eauto.
  - destruct Hst as (b & n & -> & Hn & Hp & Hop & Hl).
    destruct (option_cmp_ok b n m c (Search st_wordcmp op bp len)) as (q' & E1 & E2); [done|lia|done..|lia|].
    rewrite E1, bind_Ok. eauto.
  - destruct Hst as ((c' & E1 & E2) & H1 & Hl). eexists _, _. split; [reflexivity|]. apply option_skip_ok; [done..|].
    apply (latest_extend k); [done|lia|]. intros i v Hi Hv. replace i with k in Hv by lia.
    destruct (wa_boundary _ _ _ Hv) as [|(c1 & E3 & E4)]; [lia|congruence].
  - destruct Hst as (b & v & -> & Hp & Hh). destruct (myisspace c) eqn:E.
    + eexists _, _. split; [reflexivity|]. split; [done|]. split; [by apply (boundary_S _ c)|]. right. exists b, v.
      csplit; [lia| | |done].
      * destruct Hp as [P1 P2]. split; [by destruct opt|done..|]. intros c' E'. rewrite length_app in E'. cbn [length] in E'.
        replace (b + (length opt + S (length v)))%nat with (b + length opt + 1 + length v)%nat in E' by lia. congruence.
      * intros j w Hj Hw. apply (not_boundary _ _ j Hp); [rewrite length_app; cbn [length]; lia|apply Hw].
    + cbn zeta. destruct (holding_next m bp len v c) as (m' & p & E1 & Hs' & Hh'); [unfold byte; lia|done..|].
      exists m', (Search st_bufcpy op p (len + 1)).
      assert (Hok : search_ok (S (b + length opt + 1 + length v)) m' (Search st_bufcpy op p (len + 1))).
      { split; [done|]. exists b, (v ++ [c]). csplit; [rewrite length_app; cbn [length]; lia| |done].
        change (equals_sign :: v ++ [c]) with ((equals_sign :: v) ++ [c]). rewrite app_assoc. apply prefix_snoc; [done| |done].
        rewrite length_app. cbn [length]. by replace (b + (length opt + S (length v)))%nat with (b + length opt + 1 + length v)%nat by lia. }
      split; [|done]. revert E1. destruct (len + 1 <? bufsize); [|intros E1; by simplify_eq].
      destruct (store m bp c) as [m1| |]; [rewrite !bind_Ok; intros E1; by simplify_eq|discriminate..].
Qed.

Lemma find_option_loop_ok turns k m q :
  (k <= length s)%nat -> search_ok k m q -> (length s - k < turns)%nat ->
  exists m' q', find_option_loop turns m (cmdline + Z.of_nat k) option buffer bufsize q = Ok (m', q') /\
    search_ok (length s) m' q'.
Proof.
  revert k m q. induction turns as [|turns IH]; intros k m q Hk Hq Ht; [lia|]. cbn [find_option_loop].
  rewrite (cstr_load m cmdline s k (same_cmdline m (proj1 Hq)) Hk), bind_Ok.
  destruct (s !! k) as [c|] eqn:Ec; cbn [default from_option id].
  - pose proof (Forall_lookup_1 _ _ _ _ (proj2 Hs) Ec) as Hc0. cbn beta in Hc0. rewrite (proj2 (Z.eqb_neq c 0)) by lia.
    destruct (option_step_ok k m c q Ec Hq) as (m' & q' & E & Hq'). rewrite E, bind_Ok. cbn beta iota.
    rewrite <- Z.add_assoc. replace (Z.of_nat k + 1) with (Z.of_nat (S k)) by lia.
    apply lookup_lt_Some in Ec. apply IH; [lia|done|lia].
  - apply lookup_ge_None in Ec. replace k with (length s) in Hq by lia. eauto.
Qed.

(** What is left at the end of the string. *)
Lemma search_done m q : search_ok (length s) m q -> latest (length s) m (s_bufptr q) (s_len q).
Proof.
  intros [_ H]. destruct (s_state q); [apply H| |apply H|].
  - destruct H as (b & n & Ek & Hn & Hp & _ & Hl). apply (latest_extend b); [done|lia|]. intros i v Hi Hv.
    assert (length (take n opt) = n) by (rewrite length_take; lia).
    destruct (decide (i = b)) as [->|]; [|apply (not_boundary b (take n opt) i Hp); [lia|apply Hv]].
    apply (mismatch b n v); [lia| |done]. intros c Hc. apply lookup_lt_Some in Hc. lia.
  - destruct H as (b & v & Ek & Hp & Hh). right. exists b, v. csplit; [lia| | |done].
    + destruct Hp as [P1 P2]. split; [by destruct opt|done..|]. intros c' E'. apply lookup_lt_Some in E'.
      rewrite length_app in E'. cbn [length] in E'. lia.
    + intros j w Hj Hw. apply (not_boundary _ _ j Hp); [rewrite length_app; cbn [length]; lia|apply Hw].
Qed.

Lemma latest_range m bufptr len : latest (length s) m bufptr len -> buffer <= bufptr < buffer + bufsize.
Proof. intros [(_ & -> & _)|(i & v & _ & _ & _ & _ & -> & _)]; unfold room; lia. Qed.

Lemma find_option_ok max :
  cmdline <> NULL -> Z.of_nat (length s) < max ->
  exists m' r, __cmdline_find_option m0 cmdline max option buffer bufsize = Ok (m', r) /\
    (forall a, ~ buffer <= a < buffer + bufsize -> m' !! a = m0 !! a) /\
    ((r = -1 /\ (forall i v, ~ value_at i v) /\ cstr m' buffer []) \/
     (exists i v, value_at i v /\ (forall j w, (i < j)%nat -> ~ value_at j w) /\
        r = Z.of_nat (length v) /\ cstr m' buffer (take room v))).
Proof.
  intros Hc Hmax. unfold __cmdline_find_option. rewrite (proj2 (Z.eqb_neq cmdline NULL)) by done.
  destruct (find_option_loop_ok (Z.to_nat max) 0 m0 (Search st_wordstart NULL buffer (-1))) as (m' & q & E & Hq); [lia| |lia|].
  { split; [by split|]. split; [by left|]. left. csplit; [done..|]. intros i v Hi. lia. }
  change (Z.of_nat 0) with 0 in E. rewrite Z.add_0_r in E. rewrite E, bind_Ok. cbn beta iota. clear E.
  rewrite (proj2 (Z.eqb_neq bufsize 0)) by lia. cbn [negb]. pose proof (search_done _ _ Hq) as Hl.
  pose proof (latest_range _ _ _ Hl) as Hr. pose proof (proj1 Hq) as Hsame.
  rewrite store_ok by (done || by apply (proj2 Hsame)). rewrite bind_Ok. eexists _, _. split; [reflexivity|].
  split; [by apply same_write|].
  assert (Hnone : forall i v, value_at i v -> (i < length s)%nat).
  { intros i v Hv. destruct (value_first _ _ Hv) as (c & Hi & _). by apply lookup_lt_Some in Hi. }
  destruct Hl as [(-> & -> & Hno)|(i & v & Hi & Hv & Hno & -> & -> & Hbytes)]; [left|right].
  - csplit; [done| |]. 
    + intros i v Hv. apply (Hno i v); [by apply (Hnone i v)|done].
    + apply cstr_nil. by rewrite write_inside, Z.sub_diag by (cbn [length]; lia).
  - exists i, v. csplit; [done| |done|].
    + intros j w Hj Hw. apply (Hno j w); [|done]. split; [done|by apply (Hnone j w)].
    + split.
      * apply bytes_at_app. rewrite length_take. replace (Nat.min room (length v)) with (Nat.min (length v) room) by lia.
        split; [apply bytes_at_write; [rewrite length_take; lia|done]|apply bytes_at_written].
      * apply Forall_take, Forall_lookup. intros j x Hj. apply (Forall_lookup_1 (fun b => 0 < b < 256) s (i + (length opt + S j)) x); [apply Hs|].
        apply (wa_chars _ _ _ Hv). rewrite lookup_app_r by lia. by replace (length opt + S j - length opt)%nat with (S j) by lia.
Qed.
End find_option.

(** C28. [cmdline_find_option] returns the length of the value of the last word
    of the form [option=value], and leaves as much of the value as fits in
    the buffer, terminated; without such a word it returns -1 and an empty
    string. It writes nothing outside the buffer. *)
Theorem cmdline_find_option_spec m cmdline max option buffer bufsize s opt :
  cstr m cmdline s -> cstr m option opt -> Forall (fun c => myisspace c = false) opt ->
  0 < bufsize -> mapped m buffer bufsize ->
  buffer + bufsize <= cmdline \/ cmdline + Z.of_nat (length s) < buffer ->
  buffer + bufsize <= option \/ option + Z.of_nat (length opt) < buffer ->
  cmdline <> NULL -> Z.of_nat (length s) < max ->
  exists m' r, __cmdline_find_option m cmdline max option buffer bufsize = Ok (m', r) /\
    (forall a, ~ buffer <= a < buffer + bufsize -> m' !! a = m !! a) /\
    ((r = -1 /\ (forall i v, ~ value_at s opt i v) /\ cstr m' buffer []) \/
     (exists i v, value_at s opt i v /\ (forall j w, (i < j)%nat -> ~ value_at s opt j w) /\
        r = Z.of_nat (length v) /\ cstr m' buffer (take (room bufsize) v))).
Proof. intros. by apply find_option_ok. Qed.

(** "root=/dev/ram0" with the option "root", the buffer after the option. *)
Lemma cmdline_find_option_spec_witness :
  let m := two_strings root_arg [114; 111; 111; 116] in
  (exists m' r, __cmdline_find_option m 4096 2048 8192 8200 5 = Ok (m', r) /\
    (forall a, ~ 8200 <= a < 8200 + 5 -> m' !! a = m !! a) /\
    ((r = -1 /\ (forall i v, ~ value_at root_arg [114; 111; 111; 116] i v) /\ cstr m' 8200 []) \/
     (exists i v, value_at root_arg [114; 111; 111; 116] i v /\
        (forall j w, (i < j)%nat -> ~ value_at root_arg [114; 111; 111; 116] j w) /\
        r = Z.of_nat (length v) /\ cstr m' 8200 (take (room 5) v)))) /\
  (r ← __cmdline_find_option m 4096 2048 8192 8200 5; Ok (r.2)) = Ok 9.
Proof.
  cbn zeta. split; [|by vm_compute].
  assert (H : mem_ok (two_strings root_arg [114; 111; 111; 116]) /\ cstr (two_strings root_arg [114; 111; 111; 116]) 4096 root_arg /\
    cstr (two_strings root_arg [114; 111; 111; 116]) 8192 [114; 111; 111; 116] /\
    mapped (two_strings root_arg [114; 111; 111; 116]) 8192 (4 + 32)).
  { apply (two_strings_ok root_arg [114; 111; 111; 116]); [cbn; lia|repeat constructor; lia..]. }
  destruct H as (_ & H1 & H2 & H3).
  apply (cmdline_find_option_spec (two_strings root_arg [114; 111; 111; 116]) 4096 2048 8192 8200 5 root_arg [114; 111; 111; 116] H1 H2).
  - repeat constructor.
  - lia.
  - mem_side.
  - cbn. lia.
  - cbn. lia.
  - done.
  - cbn. lia.
Defined.
