(* ===== verification/NextArg.v ===== *)
(** * lib/cmdline.c: what next_arg returns

    The shapes an argument can take ([name], [name=value], a quoted value, a
    quoted whole), and what [next_arg] makes of each: the name, the value and
    the place of the next argument, by writing terminators into the line. *)

From S2P Require Import Prelude Ctype StringMem Memmove LibString LibStringSpec Cmdline.

Local Open Scope Z_scope.

(** ** The scan *)

(** The quote state after [l], when the loop does not stop inside it. *)
Fixpoint runs (q : bool) (l : list Z) : option bool :=
  match l with
  | [] => Some q
  | c :: l => if (c =? 0) || isspace c && negb q then None else runs (if c =? quote then negb q else q) l
  end.

(** [equals] after [l]. *)
Fixpoint equals_of (i equals : Z) (l : list Z) : Z :=
  match l with
  | [] => equals
  | c :: l => equals_of (i + 1) (if (equals =? 0) && (c =? equals_sign) then i else equals) l
  end.

Definition stops (q : bool) (e : Z) : Prop := e = 0 \/ (isspace e = true /\ q = false).

Lemma next_arg_loop_ok m args l e fuel i eq q q' :
  bytes_at m (args + i) (l ++ [e]) -> runs q l = Some q' -> stops q' e -> (length l < fuel)%nat ->
  next_arg_loop fuel m args i eq q = Ok (i + Z.of_nat (length l), equals_of i eq l).
Proof.
  revert fuel i eq q. induction l as [|c l IH]; intros [|fuel] i eq q Hb Hr Hs Hf; cbn [length app] in *; try lia;
    apply bytes_at_cons in Hb as [Hc Hb]; cbn [next_arg_loop]; rewrite (load_ok _ _ _ Hc), bind_Ok; cbn [runs equals_of] in *.
  - simplify_eq. destruct Hs as [->|[Hsp ->]]; [by rewrite Z.add_0_r|]. rewrite Hsp. cbn [andb negb].
    by destruct (e =? 0); rewrite Z.add_0_r.
  - destruct (Z.eqb_spec c 0); [done|]. cbn [orb] in Hr. destruct (isspace c && negb q); [done|].
    cbn zeta. rewrite <- Z.add_assoc in Hb. rewrite (IH fuel) by (done || lia). do 2 f_equal. lia.
Qed.

Lemma runs_app q l k : runs q (l ++ k) = match runs q l with Some q' => runs q' k | None => None end.
Proof. revert q. induction l as [|c l IH]; intros q; cbn [runs app]; [done|]. by destruct (_ || _). Qed.

Definition plain (c : Z) : Prop := 0 < c < 256 /\ c <> quote /\ isspace c = false.
Definition quotable (c : Z) : Prop := 0 < c < 256 /\ c <> quote.

Lemma runs_plain q l : Forall plain l -> runs q l = Some q.
Proof.
  induction 1 as [|c l (Hc & Hq & Hs) _ IH]; cbn [runs]; [done|].
  rewrite (proj2 (Z.eqb_neq c 0)), (proj2 (Z.eqb_neq c quote)) by lia. by rewrite Hs.
Qed.

Lemma runs_quotable l : Forall quotable l -> runs true l = Some true.
Proof.
  induction 1 as [|c l (Hc & Hq) _ IH]; cbn [runs]; [done|].
  rewrite (proj2 (Z.eqb_neq c 0)), (proj2 (Z.eqb_neq c quote)) by lia. by rewrite andb_false_r.
Qed.

Lemma equals_of_app i eq l k : equals_of i eq (l ++ k) = equals_of (i + Z.of_nat (length l)) (equals_of i eq l) k.
Proof.
  revert i eq. induction l as [|c l IH]; intros i eq; cbn [equals_of app length]; [by rewrite Z.add_0_r|].
  rewrite IH. f_equal. lia.
Qed.

Lemma equals_of_set i eq l : eq <> 0 -> equals_of i eq l = eq.
Proof.
  intros H. revert i. induction l as [|c l IH]; intros i; cbn [equals_of]; [done|].
  rewrite (proj2 (Z.eqb_neq eq 0)) by done. apply IH.
Qed.

Lemma equals_of_none i eq l : Forall (fun c => c <> equals_sign) l -> equals_of i eq l = eq.
Proof.
  intros H. revert i. induction H as [|c l Hc _ IH]; intros i; cbn [equals_of]; [done|].
  rewrite (proj2 (Z.eqb_neq c equals_sign)), andb_false_r by done. apply IH.
Qed.

(** The first [=] of [p=rest]. *)
Lemma equals_of_pair p rest :
  p <> [] -> Forall (fun c => c <> equals_sign) p -> equals_of 0 0 (p ++ equals_sign :: rest) = Z.of_nat (length p).
Proof.
  intros Hp H. rewrite equals_of_app, (equals_of_none 0 0) by done. cbn [equals_of]. rewrite !Z.eqb_refl. cbn [andb].
  apply equals_of_set. destruct p; [done|]. cbn [length]. lia.
Qed.

(** ** Cutting *)

(** Terminators written at the addresses [ps]. *)
Definition cut (m : mem) (ps : list Z) : mem := foldr (fun p m => write m p [0]) m ps.

Lemma cut_outside m ps a : a ∉ ps -> cut m ps !! a = m !! a.
Proof.
  induction ps as [|p ps IH]; intros H; cbn [cut foldr]; [done|]. rewrite not_elem_of_cons in H. destruct H as [H1 H2].
  rewrite write_outside by (cbn [length]; lia). by apply IH.
Qed.

Lemma cut_at m ps a : a ∈ ps -> cut m ps !! a = Some 0.
Proof.
  induction ps as [|p ps IH]; intros H; [by apply not_elem_of_nil in H|]. cbn [cut foldr].
  destruct (decide (a = p)) as [->|Hne].
  - by rewrite write_inside, Z.sub_diag by (cbn [length]; lia).
  - apply elem_of_cons in H as [|H]; [done|]. rewrite write_outside by (cbn [length]; lia). by apply IH.
Qed.

Lemma cut_is_Some m ps a : is_Some (m !! a) -> is_Some (cut m ps !! a).
Proof. intros H. induction ps as [|p ps IH]; cbn [cut foldr]; [done|]. by apply write_is_Some. Qed.

Lemma cut_bytes m ps a l :
  bytes_at m a l -> Forall (fun p => p < a \/ a + Z.of_nat (length l) <= p) ps -> bytes_at (cut m ps) a l.
Proof.
  intros H Hps i x Hi. rewrite cut_outside; [by apply H|]. intros Hin. rewrite Forall_forall in Hps.
  specialize (Hps _ Hin). apply lookup_lt_Some in Hi. lia.
Qed.

(** A string that ends at a cut. *)
Lemma cut_cstr m ps a l :
  bytes_at m a l -> Forall (fun b => 0 < b < 256) l ->
  Forall (fun p => p < a \/ a + Z.of_nat (length l) <= p) ps ->
  a + Z.of_nat (length l) ∈ ps \/ m !! (a + Z.of_nat (length l)) = Some 0 -> cstr (cut m ps) a l.
Proof.
  intros H Hl Hps He. split; [|done]. apply bytes_at_app. split; [by apply cut_bytes|]. apply bytes_at_cons.
  split; [|apply bytes_at_nil]. destruct (decide (a + Z.of_nat (length l) ∈ ps)) as [Hin|Hout]; [by apply cut_at|].
  destruct He as [|He]; [done|]. by rewrite cut_outside.
Qed.

Lemma store_cut m ps p : is_Some (m !! p) -> store (cut m ps) p 0 = Ok (cut m (p :: ps)).
Proof. intros H. rewrite store_ok; [done|by apply cut_is_Some|done]. Qed.

(** ** The rest of the line *)

Fixpoint drop_spaces (l : list Z) : list Z :=
  match l with [] => [] | c :: l' => if isspace c then drop_spaces l' else l end.

Lemma drop_spaces_length l : (length (drop_spaces l) <= length l)%nat.
Proof. induction l as [|c l IH]; cbn [drop_spaces]; [done|]. destruct (isspace c); cbn [length]; lia. Qed.

Lemma skip_spaces_loop_ok m a s fuel :
  cstr m a s -> (length s < fuel)%nat ->
  let r := a + Z.of_nat (length s - length (drop_spaces s)) in
  skip_spaces_loop fuel m a = Ok r /\ cstr m r (drop_spaces s).
Proof.
  revert a fuel. induction s as [|c s IH]; intros a [|fuel] H Hf; cbn [length] in *; try lia; cbn [skip_spaces_loop drop_spaces]; cbn zeta.
  - pose proof H as H'. apply cstr_nil in H'. rewrite (load_ok _ _ _ H'), bind_Ok. rewrite Z.add_0_r. done.
  - pose proof H as H'. apply cstr_cons in H' as (H1 & H2 & H3). rewrite (load_ok _ _ _ H1), bind_Ok. destruct (isspace c).
    + pose proof (drop_spaces_length s). destruct (IH (a + 1) fuel H3) as [E1 E2]; [lia|].
      replace (a + Z.of_nat (S (length s) - length (drop_spaces s))) with (a + 1 + Z.of_nat (length s - length (drop_spaces s))) by lia.
      done.
    + rewrite Nat.sub_diag, Z.add_0_r. done.
Qed.

(** What follows the argument: nothing, or a space and the rest. *)
Definition tail_ok (tail : list Z) : Prop :=
  Forall (fun b => 0 < b < 256) tail /\ match tail with [] => True | c :: _ => isspace c = true end.
Definition rest_of (tail : list Z) : list Z := match tail with [] => [] | _ :: rest => drop_spaces rest end.
Definition next_of (p : Z) (tail : list Z) : Z := p + Z.of_nat (length tail - length (rest_of tail)).
Definition end_cut (p : Z) (tail : list Z) : list Z := match tail with [] => [] | _ => [p] end.

(** The end of [next_arg]. *)
Definition finish (m : mem) (args i param val : Z) : outcome (mem * Z * Z * Z) :=
  c ← load m (args + i);
  '(m, args) ← (if negb (c =? 0) then m ← store m (args + i) 0; Ok (m, args + i + 1)
                else Ok (m, args + i));
  next ← skip_spaces m args;
  Ok (m, next, param, val).

Lemma finish_ok m ps args i tail param val :
  bytes_at m (args + i) (tail ++ [0]) -> tail_ok tail -> Forall (fun p => p < args + i) ps ->
  let m' := cut m (end_cut (args + i) tail ++ ps) in
  finish (cut m ps) args i param val = Ok (m', next_of (args + i) tail, param, val) /\
  cstr m' (next_of (args + i) tail) (rest_of tail).
Proof.
  intros Hb [Hc Ht] Hps. cbn zeta. set (p := args + i) in *.
  assert (Hout : forall l, bytes_at m p l -> bytes_at (cut m ps) p l).
  { intros l Hl. apply cut_bytes; [done|]. eapply Forall_impl; [exact Hps|]. cbn beta. lia. }
  unfold finish. fold p. destruct tail as [|c tail]; cbn [app end_cut rest_of] in *.
  - assert (Hn : cstr (cut m ps) p []) by (split; [by apply Hout|done]).
    pose proof Hn as Hn'. apply cstr_nil in Hn'. rewrite (load_ok _ _ _ Hn'), bind_Ok. cbn [Z.eqb negb]. rewrite bind_Ok. cbn beta iota.
    destruct (skip_spaces_loop_ok (cut m ps) p [] (S (size (cut m ps))) Hn) as [E1 E2]; [cbn [length]; lia|].
    unfold skip_spaces. rewrite E1, bind_Ok. done.
  - pose proof (proj1 (bytes_at_cons _ _ _ _) Hb) as [Hp Hr]. inversion_clear Hc as [|? ? Hc0 Hc'].
    rewrite (load_ok (cut m ps) p c), bind_Ok by (apply (proj1 (proj1 (bytes_at_cons _ _ _ _) (Hout _ Hb)))).
    rewrite (proj2 (Z.eqb_neq c 0)) by lia. cbn [negb]. rewrite store_cut by eauto. rewrite !bind_Ok. cbn beta iota.
    assert (Hn : cstr (cut m (p :: ps)) (p + 1) tail).
    { split; [|done]. apply cut_bytes; [done|]. constructor; [left; lia|]. eapply Forall_impl; [exact Hps|]. cbn beta. lia. }
    destruct (skip_spaces_loop_ok _ _ _ (S (size (cut m (p :: ps)))) Hn) as [E1 E2]; [pose proof (cstr_size _ _ _ Hn); lia|].
    unfold skip_spaces. rewrite E1, bind_Ok. pose proof (drop_spaces_length tail).
    unfold next_of. cbn [rest_of length].
    replace (p + Z.of_nat (S (length tail) - length (drop_spaces tail))) with (p + 1 + Z.of_nat (length tail - length (drop_spaces tail))) by lia.
    done.
Qed.

(** ** After the scan *)

Definition value_part (m : mem) (args i equals : Z) : outcome (mem * Z) :=
  if equals =? 0 then Ok (m, NULL)
  else
    m ← store m (args + equals) 0;
    let val := args + equals + 1 in
    c ← load m val;
    if c =? quote then
      m ← drop_quote m args (i - 1);
      Ok (m, val + 1)
    else Ok (m, val).

Definition after_scan (m : mem) (args i equals : Z) (quoted : bool) : outcome (mem * Z * Z * Z) :=
  '(m, val) ← value_part m args i equals;
  m ← (if quoted then drop_quote m args (i - 1) else Ok m);
  finish m args i args val.

(** The scan of a token [tok], after the opening quote if there is one. *)
Lemma next_arg_scan m a tok tail (quoted : bool) :
  let args := if quoted then a + 1 else a in
  bytes_at m args (tok ++ tail ++ [0]) -> (quoted = true -> m !! a = Some quote) ->
  (quoted = false -> exists c rest, tok = c :: rest /\ c <> quote) ->
  runs quoted tok = Some false -> tail_ok tail ->
  next_arg m a = after_scan m args (Z.of_nat (length tok)) (equals_of 0 0 tok) quoted.
Proof.
  cbn zeta. intros Hb Hq Hnq Hr [Hc Ht]. unfold next_arg.
  assert (Hload : load m a = Ok (if quoted then quote else default 0 (tok !! 0%nat)) /\
                  ((if quoted then quote else default 0 (tok !! 0%nat)) =? quote) = quoted).
  { destruct quoted; [split; [by apply load_ok, Hq|done]|]. destruct (Hnq eq_refl) as (c & rest & -> & Hne).
    cbn. split; [apply load_ok; by apply (proj1 (bytes_at_cons _ _ _ _) Hb)|by apply Z.eqb_neq]. }
  destruct Hload as [-> Hqe]. rewrite bind_Ok. cbn zeta. rewrite Hqe. set (args := if quoted then a + 1 else a) in *.
  set (e := default 0 (tail !! 0%nat)).
  assert (He : bytes_at m (args + 0) (tok ++ [e]) /\ stops false e).
  { rewrite Z.add_0_r. apply bytes_at_app in Hb as [H1 H2]. rewrite bytes_at_app, bytes_at_cons. unfold e.
    destruct tail as [|c tail]; cbn [app] in H2; apply bytes_at_cons in H2 as [H3 _]; cbn;
      (split; [split; [done|split; [done|apply bytes_at_nil]]|]); [by left|by right]. }
  destruct He as [He Hst]. rewrite (next_arg_loop_ok m args tok e _ 0 0 quoted false He Hr Hst).
  - rewrite bind_Ok. reflexivity.
  - apply bytes_at_mapped, mapped_size in He. rewrite length_app in He. cbn [length] in He. lia.
Qed.

(** ** The shapes of an argument *)

Inductive arg : Type :=
| Bare (p : list Z)
| Valued (p v : list Z)
| QuotedValue (p v : list Z)
| QuotedAll (p v : list Z).

Definition text (a : arg) : list Z :=
  match a with
  | Bare p => p
  | Valued p v => p ++ [equals_sign] ++ v
  | QuotedValue p v => p ++ [equals_sign; quote] ++ v ++ [quote]
  | QuotedAll p v => [quote] ++ p ++ [equals_sign] ++ v ++ [quote]
  end.

Definition name (a : arg) : list Z := match a with Bare p | Valued p _ | QuotedValue p _ | QuotedAll p _ => p end.
Definition value (a : arg) : option (list Z) :=
  match a with Bare _ => None | Valued _ v | QuotedValue _ v | QuotedAll _ v => Some v end.

Definition arg_ok (a : arg) : Prop :=
  name a <> [] /\ Forall (fun c => c <> equals_sign) (name a) /\
  match a with
  | Bare p => Forall plain p
  | Valued p v => Forall plain p /\ Forall plain v
  | QuotedValue p v => Forall plain p /\ Forall quotable v
  | QuotedAll p v => Forall quotable p /\ Forall quotable v /\ v <> []
  end.

(** What [next_arg] must return for [a] at [args], followed by [tail]. *)
Definition parsed (m : mem) (args : Z) (a : arg) (tail : list Z) : Prop :=
  exists m' param val,
    let next := next_of (args + Z.of_nat (length (text a))) tail in
    next_arg m args = Ok (m', next, param, val) /\
    cstr m' param (name a) /\
    match value a with None => val = NULL | Some v => cstr m' val v end /\
    cstr m' next (rest_of tail).

Lemma plain_chars l : Forall plain l -> Forall (fun b => 0 < b < 256) l.
Proof. intros H. eapply Forall_impl; [exact H|]. intros x (Hx & _). done. Qed.

Lemma quotable_chars l : Forall quotable l -> Forall (fun b => 0 < b < 256) l.
Proof. intros H. eapply Forall_impl; [exact H|]. intros x (Hx & _). done. Qed.

Lemma plain_head p rest : p <> [] -> Forall plain p -> exists c rest', p ++ rest = c :: rest' /\ c <> quote.
Proof. intros Hne H. destruct H as [|c p (_ & Hq & _) _]; [done|]. exists c, (p ++ rest). done. Qed.

Lemma end_cut_in p tail m : bytes_at m p (tail ++ [0]) -> p ∈ end_cut p tail \/ m !! p = Some 0.
Proof.
  intros H. destruct tail as [|c tail]; cbn [end_cut app] in *; [right|left; by left].
  by apply (proj1 (bytes_at_cons _ _ _ _) H).
Qed.

Lemma end_cut_ge p tail : Forall (fun q => q = p) (end_cut p tail).
Proof. destruct tail; repeat constructor. Qed.

Lemma bare_parsed m args p tail :
  bytes_at m args (p ++ tail ++ [0]) -> arg_ok (Bare p) -> tail_ok tail -> parsed m args (Bare p) tail.
Proof.
  intros Hb (Hne & Heq & Hp) Ht. cbn [name] in *. pose proof (proj1 (bytes_at_app _ _ _ _) Hb) as [Hb1 Hb2].
  exists (cut m (end_cut (args + Z.of_nat (length p)) tail ++ [])), args, NULL. cbn zeta. cbn [text name value].
  rewrite (next_arg_scan m args p tail false); [|exact Hb|done| |by rewrite runs_plain|done].
  2:{ intros _. destruct (plain_head p [] Hne Hp) as (c & r & E & Hc). rewrite app_nil_r in E. eauto. }
  rewrite equals_of_none by done. unfold after_scan, value_part. cbn [Z.eqb]. rewrite !bind_Ok. cbn beta iota.
  destruct (finish_ok m [] args (Z.of_nat (length p)) tail args NULL Hb2 Ht) as [E1 E2]; [done|].
  csplit; [exact E1| |done|exact E2]. rewrite app_nil_r.
  apply cut_cstr; [done|by apply plain_chars| |by apply end_cut_in].
  eapply Forall_impl; [apply end_cut_ge|]. cbn beta. lia.
Qed.

(** The value part, when the value is not quoted. *)
Lemma value_plain m args i eq x :
  eq <> 0 -> is_Some (m !! (args + eq)) -> m !! (args + eq + 1) = Some x -> x <> quote ->
  value_part m args i eq = Ok (cut m [args + eq], args + eq + 1).
Proof.
  intros Heq Hs Hx Hq. unfold value_part. rewrite (proj2 (Z.eqb_neq eq 0)) by done. change m with (cut m []) at 1.
  rewrite store_cut by done. rewrite bind_Ok. cbn zeta. rewrite (load_ok _ _ x).
  - rewrite bind_Ok. by rewrite (proj2 (Z.eqb_neq x quote)).
  - rewrite cut_outside; [done|]. rewrite list_elem_of_singleton. lia.
Qed.

Lemma drop_quote_ok m ps args i :
  0 <= args -> 0 < i -> args + i < 2 ^ 32 -> m !! (args + (i - 1)) = Some quote -> args + (i - 1) ∉ ps ->
  drop_quote (cut m ps) args (i - 1) = Ok (cut m (args + (i - 1) :: ps)).
Proof.
  intros Ha Hi Hr Hq Hps. unfold drop_quote. rewrite (u32_small (i - 1)), u32_small by lia. cbn zeta.
  rewrite (load_ok _ _ quote) by (by rewrite cut_outside). rewrite bind_Ok, Z.eqb_refl. apply store_cut. eauto.
Qed.

Lemma value_quoted m args i eq :
  0 <= args -> 0 < eq -> eq + 2 <= i - 1 -> args + i < 2 ^ 32 -> is_Some (m !! (args + eq)) ->
  m !! (args + eq + 1) = Some quote -> m !! (args + (i - 1)) = Some quote ->
  value_part m args i eq = Ok (cut m [args + (i - 1); args + eq], args + eq + 1 + 1).
Proof.
  intros Ha Heq Hi Hr Hs Hq1 Hq2. unfold value_part. rewrite (proj2 (Z.eqb_neq eq 0)) by lia. change m with (cut m []) at 1.
  rewrite store_cut by done. rewrite bind_Ok. cbn zeta. rewrite (load_ok _ _ quote).
  - rewrite bind_Ok, Z.eqb_refl. rewrite drop_quote_ok; [done|done|lia|done..|]. rewrite list_elem_of_singleton. lia.
  - rewrite cut_outside; [done|]. rewrite list_elem_of_singleton. lia.
Qed.

Lemma bytes_at_at m a l k x r : bytes_at m a (l ++ x :: r) -> k = Z.of_nat (length l) -> m !! (a + k) = Some x.
Proof. intros H ->. apply bytes_at_app in H as [_ H]. by apply (proj1 (bytes_at_cons _ _ _ _) H). Qed.

Lemma valued_parsed m args p v tail :
  bytes_at m args ((p ++ [equals_sign] ++ v) ++ tail ++ [0]) -> arg_ok (Valued p v) -> tail_ok tail ->
  parsed m args (Valued p v) tail.
Proof.
  intros Hb (Hne & Heq & Hp & Hv) Ht. cbn [name] in *. set (tok := p ++ [equals_sign] ++ v) in *.
  pose proof (proj1 (bytes_at_app _ _ _ _) Hb) as [Hb1 Hb2].
  assert (Hlen : Z.of_nat (length tok) = Z.of_nat (length p) + 1 + Z.of_nat (length v))
    by (unfold tok; rewrite !length_app; cbn [length]; lia).
  assert (Hpl : 0 < Z.of_nat (length p)) by (destruct p; [done|cbn [length]; lia]).
  pose proof (proj1 (bytes_at_app _ _ _ _) Hb1) as [Hbp Hbv]. apply bytes_at_cons in Hbv as [Hbe Hbv].
  exists (cut m (end_cut (args + Z.of_nat (length tok)) tail ++ [args + Z.of_nat (length p)])), args, (args + Z.of_nat (length p) + 1).
  cbn zeta. cbn [text name value]. fold tok.
  rewrite (next_arg_scan m args tok tail false); [|exact Hb|done| | |done].
  2:{ intros _. by apply plain_head. }
  2:{ unfold tok. rewrite runs_app, runs_plain by done. cbn [app runs]. by rewrite runs_plain. }
  unfold tok at 2. cbn [app]. rewrite equals_of_pair by done. unfold after_scan.
  assert (Hx : exists x, m !! (args + Z.of_nat (length p) + 1) = Some x /\ x <> quote).
  { destruct v as [|x v].
    - rewrite Hlen in Hb2. cbn [length] in Hb2. rewrite Z.add_0_r, Z.add_assoc in Hb2. destruct tail as [|c tail]; cbn [app] in Hb2;
        apply bytes_at_cons in Hb2 as [Hx _]; (eexists; split; [exact Hx|]); [done|]. destruct Ht as [_ Ht]. intros ->. done.
    - apply bytes_at_cons in Hbv as [Hx _]. inversion_clear Hv as [|? ? (_ & Hq & _) _]. eauto. }
  destruct Hx as (x & Hx & Hxq). rewrite (value_plain m args _ _ x); [|lia|eauto|done..]. rewrite bind_Ok. cbn beta iota. rewrite bind_Ok.
  destruct (finish_ok m [args + Z.of_nat (length p)] args (Z.of_nat (length tok)) tail args (args + Z.of_nat (length p) + 1) Hb2 Ht) as [E1 E2].
  { constructor; [lia|done]. }
  csplit; [exact E1| | |exact E2]; (apply cut_cstr; [done|by apply plain_chars| |]).
  - apply Forall_app_2; [|repeat constructor; lia]. eapply Forall_impl; [apply end_cut_ge|]. cbn beta. lia.
  - left. apply elem_of_app. right. by left.
  - apply Forall_app_2; [|repeat constructor; lia]. eapply Forall_impl; [apply end_cut_ge|]. cbn beta. lia.
  - replace (args + Z.of_nat (length p) + 1 + Z.of_nat (length v)) with (args + Z.of_nat (length tok)) by lia.
    rewrite elem_of_app. pose proof (end_cut_in _ _ _ Hb2). tauto.
Qed.

(** The conditions on cuts: they are outside a part of the argument. *)
Ltac cuts_outside :=
  repeat (apply Forall_cons; split; [lia|]);
  first [ apply Forall_nil_2
        | apply Forall_app_2;
          [ eapply Forall_impl; [apply end_cut_ge|]; cbn beta; lia
          | repeat (apply Forall_cons; split; [lia|]); apply Forall_nil_2 ] ].

Lemma quoted_value_parsed m args p v tail :
  0 <= args -> args + Z.of_nat (length (text (QuotedValue p v))) < 2 ^ 32 ->
  bytes_at m args (text (QuotedValue p v) ++ tail ++ [0]) -> arg_ok (QuotedValue p v) -> tail_ok tail ->
  parsed m args (QuotedValue p v) tail.
Proof.
  intros Ha Hmax Hb (Hne & Heq & Hp & Hv) Ht. cbn [name] in *. set (tok := text (QuotedValue p v)) in *.
  pose proof (proj1 (bytes_at_app _ _ _ _) Hb) as [Hb1 Hb2].
  assert (Hlen : Z.of_nat (length tok) = Z.of_nat (length p) + 3 + Z.of_nat (length v))
    by (unfold tok; cbn [text]; rewrite !length_app; cbn [length]; lia).
  assert (Hpl : 0 < Z.of_nat (length p)) by (destruct p; [done|cbn [length]; lia]).
  pose proof (proj1 (bytes_at_app _ _ _ _) Hb1) as [Hbp Hbv]. apply bytes_at_cons in Hbv as [Hbe Hbv].
  apply bytes_at_cons in Hbv as [Hbq Hbv]. pose proof (bytes_at_at _ _ _ _ _ _ Hbv eq_refl) as Hbq2.
  apply bytes_at_app in Hbv as [Hbv _].
  set (i := Z.of_nat (length tok)) in *. set (n := Z.of_nat (length p)) in *.
  exists (cut m (end_cut (args + i) tail ++ [args + (i - 1); args + n])), args, (args + n + 1 + 1).
  cbn zeta. cbn [name value]. fold tok. fold i.
  rewrite (next_arg_scan m args tok tail false); [|exact Hb|done| | |done].
  2:{ intros _. by apply plain_head. }
  2:{ unfold tok. cbn [text app]. rewrite runs_app, runs_plain by done. cbn [runs]. cbn. rewrite runs_app, runs_quotable by done. done. }
  fold i. replace (equals_of 0 0 tok) with n by (unfold tok; cbn [text app]; by rewrite equals_of_pair). unfold after_scan.
  rewrite value_quoted; [|done|lia|lia|done|eauto|done|].
  2:{ by replace (args + (i - 1)) with (args + n + 1 + 1 + Z.of_nat (length v)) by lia. }
  rewrite bind_Ok. cbn beta iota. rewrite bind_Ok.
  destruct (finish_ok m [args + (i - 1); args + n] args i tail args (args + n + 1 + 1) Hb2 Ht) as [E1 E2].
  { repeat (apply Forall_cons; split; [lia|]). apply Forall_nil_2. }
  csplit; [exact E1| | |exact E2].
  - apply cut_cstr; [done|by apply plain_chars|cuts_outside|]. left. apply elem_of_app. right. right. left.
  - apply cut_cstr; [done|by apply quotable_chars|cuts_outside|]. left. apply elem_of_app. right. rewrite elem_of_cons. left. lia.
Qed.

Lemma quoted_all_parsed m args p v tail :
  0 <= args -> args + Z.of_nat (length (text (QuotedAll p v))) < 2 ^ 32 ->
  bytes_at m args (text (QuotedAll p v) ++ tail ++ [0]) -> arg_ok (QuotedAll p v) -> tail_ok tail ->
  parsed m args (QuotedAll p v) tail.
Proof.
  intros Ha Hmax Hb (Hne & Heq & Hp & Hv & Hvn) Ht. cbn [name] in *. set (tok := p ++ [equals_sign] ++ v ++ [quote]) in *.
  assert (Htext : text (QuotedAll p v) = quote :: tok) by done. rewrite Htext in *. cbn [app] in Hb.
  apply bytes_at_cons in Hb as [Hq0 Hb]. pose proof (proj1 (bytes_at_app _ _ _ _) Hb) as [Hb1 Hb2].
  assert (Hlen : Z.of_nat (length tok) = Z.of_nat (length p) + 2 + Z.of_nat (length v))
    by (unfold tok; rewrite !length_app; cbn [length]; lia).
  assert (Hpl : 0 < Z.of_nat (length p)) by (destruct p; [done|cbn [length]; lia]).
  assert (Hvl : 0 < Z.of_nat (length v)) by (destruct v; [done|cbn [length]; lia]).
  pose proof (proj1 (bytes_at_app _ _ _ _) Hb1) as [Hbp Hbv]. apply bytes_at_cons in Hbv as [Hbe Hbv].
  pose proof (bytes_at_at _ _ _ _ _ _ Hbv eq_refl) as Hbq2. apply bytes_at_app in Hbv as [Hbv _].
  cbn [length] in Hmax. set (i := Z.of_nat (length tok)) in *. set (n := Z.of_nat (length p)) in *.
  exists (cut m (end_cut (args + 1 + i) tail ++ [args + 1 + (i - 1); args + 1 + n])), (args + 1), (args + 1 + n + 1).
  cbn zeta. rewrite Htext. cbn [name value length]. replace (args + Z.of_nat (S (length tok))) with (args + 1 + i) by lia.
  rewrite (next_arg_scan m args tok tail true); [|exact Hb|done|done| |done].
  2:{ unfold tok. cbn [app]. rewrite runs_app, runs_quotable by done. cbn. rewrite runs_app, runs_quotable by done. done. }
  fold i. replace (equals_of 0 0 tok) with n by (unfold tok; cbn [app]; by rewrite equals_of_pair). unfold after_scan.
  destruct v as [|x v]; [done|]. pose proof (proj1 (bytes_at_cons _ _ _ _) Hbv) as [Hx _].
  inversion_clear Hv as [|? ? (Hx0 & Hxq) Hv']. rewrite (value_plain m (args + 1) _ _ x); [|lia|eauto|done..].
  rewrite bind_Ok. cbn beta iota. rewrite drop_quote_ok; [|lia|lia|lia| |rewrite list_elem_of_singleton; lia].
  2:{ replace (args + 1 + (i - 1)) with (args + 1 + n + 1 + Z.of_nat (length (x :: v))) by lia. done. }
  rewrite bind_Ok.
  destruct (finish_ok m [args + 1 + (i - 1); args + 1 + n] (args + 1) i tail (args + 1) (args + 1 + n + 1) Hb2 Ht) as [E1 E2].
  { repeat (apply Forall_cons; split; [lia|]). apply Forall_nil_2. }
  csplit; [exact E1| | |exact E2].
  - apply cut_cstr; [done|by apply quotable_chars|cuts_outside|]. left. apply elem_of_app. right. right. left.
  - apply cut_cstr; [done|constructor; [done|by apply quotable_chars]|cuts_outside|].
    left. apply elem_of_app. right. rewrite elem_of_cons. left. lia.
Qed.

(** C29. [next_arg] parses one argument of the command line, in each of its
    shapes (a bare name, [name=value], a value in quotes, a quoted whole):
    afterwards [*param] is the name, [*val] the value without its quotes
    ([NULL] for a bare name), and the pointer returned is at the next
    argument, the spaces between skipped. *)
Theorem next_arg_spec m args a tail :
  cstr m args (text a ++ tail) -> arg_ok a -> tail_ok tail ->
  0 <= args -> args + Z.of_nat (length (text a)) < 2 ^ 32 ->
  exists m' param val,
    let next := next_of (args + Z.of_nat (length (text a))) tail in
    next_arg m args = Ok (m', next, param, val) /\
    cstr m' param (name a) /\
    match value a with None => val = NULL | Some v => cstr m' val v end /\
    cstr m' next (rest_of tail).
Proof.
  intros [Hb _] Ha Ht H0 Hmax. rewrite <- app_assoc in Hb. destruct a as [p|p v|p v|p v].
  - by apply bare_parsed.
  - by apply valued_parsed.
  - by apply quoted_value_parsed.
  - by apply quoted_all_parsed.
Qed.

(** The value [b c] in quotes, and another argument. *)
Lemma next_arg_spec_witness :
  let m := two_strings (text (QuotedValue [97] [98; 32; 99]) ++ [32; 32; 100]) [] in
  exists m' param val,
    next_arg m 4096 = Ok (m', 4105, param, val) /\
    cstr m' param [97] /\ cstr m' val [98; 32; 99] /\ cstr m' 4105 [100].
Proof.
  cbn zeta.
  apply (next_arg_spec (two_strings (text (QuotedValue [97] [98; 32; 99]) ++ [32; 32; 100]) [])
           4096 (QuotedValue [97] [98; 32; 99]) [32; 32; 100]).
  - apply two_strings_ok; [cbn; lia|repeat constructor; lia|constructor].
  - repeat constructor; done.
  - repeat constructor; done.
  - lia.
  - cbn. lia.
Defined.
