(* ===== verification/Initramfs.v ===== *)
(** * init/initramfs.c: unpacking the initial file system

    The cpio reader is a state machine fed with pieces of an archive: each
    state has an action, and [write_buffer] runs actions until one asks for
    more input. Its static variables are the fields of [machine]. The calls
    into the file system go through the interface [Vfs].

    [victim] is the rest of the current piece, so that [byte_count] is its
    length. [collected] is what has been collected so far: either part of the
    piece itself or of one of the three buffers, whose sizes [capacity] gives
    and [do_collect] checks. A read past the collected bytes is a fault. For
    the name of a member, which the code reads as a string wherever it ends,
    what such a read gives is the parameter [Overrun]; it is a fault unless a
    theorem says otherwise. *)

From Stdlib Require Import String.
From S2P Require Import Prelude LibMath Ctype Kstrtox.

Local Open Scope Z_scope.

(** ** lib/vsprintf.c: numbers at the start of a string

    The value and how many characters it took. *)

Definition simple_strntoull (startp : list Z) (max_chars base : Z) : outcome (Z * Z) :=
  let '(cp, base) := _parse_integer_fixup_radix startp base in
  let prefix_chars := Z.of_nat (length startp - length cp) in
  if prefix_chars <? max_chars then
    '(rv, result) ← _parse_integer_limit cp base (max_chars - prefix_chars);
    Ok (result, prefix_chars + Z.land rv (U32_MAX - KSTRTOX_OVERFLOW))
  else Ok (0, max_chars).

Definition simple_strtoull (cp : list Z) (base : Z) : outcome (Z * Z) := simple_strntoull cp INT_MAX base.

Definition simple_strtoul (cp : list Z) (base : Z) : outcome (Z * Z) :=
  '(result, n) ← simple_strtoull cp base; Ok (u32 result, n).

(** The bytes before the first zero. *)
Fixpoint until_nul (s : list Z) : list Z :=
  match s with
  | [] => []
  | c :: s => if c =? 0 then [] else c :: until_nul s
  end.

(** What the code finds when it reads on past bytes that do not hold the end of
    a string. *)
Class Overrun := overrun : list Z -> outcome (list Z).

(** The C string at the start of some bytes. *)
Definition c_string `{Overrun} (s : list Z) : outcome (list Z) :=
  if bool_decide (0 ∈ s) then Ok (until_nul s) else overrun s.

(** The bytes of a string constant. *)
Definition bytes_of (s : string) : list Z := map (fun c => Z.of_nat (Ascii.nat_of_ascii c)) (list_ascii_of_string s).

(** ** File types and device numbers (include/linux/stat.h, kdev_t.h) *)

Definition S_IFMT : Z := 0xF000.
Definition S_IFSOCK : Z := 0xC000.
Definition S_IFLNK : Z := 0xA000.
Definition S_IFREG : Z := 0x8000.
Definition S_IFBLK : Z := 0x6000.
Definition S_IFDIR : Z := 0x4000.
Definition S_IFCHR : Z := 0x2000.
Definition S_IFIFO : Z := 0x1000.

Definition S_ISLNK (m : Z) : bool := Z.land m S_IFMT =? S_IFLNK.
Definition S_ISREG (m : Z) : bool := Z.land m S_IFMT =? S_IFREG.
Definition S_ISDIR (m : Z) : bool := Z.land m S_IFMT =? S_IFDIR.
Definition S_ISCHR (m : Z) : bool := Z.land m S_IFMT =? S_IFCHR.
Definition S_ISBLK (m : Z) : bool := Z.land m S_IFMT =? S_IFBLK.
Definition S_ISFIFO (m : Z) : bool := Z.land m S_IFMT =? S_IFIFO.
Definition S_ISSOCK (m : Z) : bool := Z.land m S_IFMT =? S_IFSOCK.

Definition MINORBITS : Z := 20.
Definition MAJOR (dev : Z) : Z := Z.shiftr dev MINORBITS.
Definition MINOR (dev : Z) : Z := Z.land dev (Z.ones MINORBITS).
Definition MKDEV (ma mi : Z) : Z := Z.lor (u32 (Z.shiftl ma MINORBITS)) mi.

Definition new_encode_dev (dev : Z) : Z :=
  let major := MAJOR dev in
  let minor := MINOR dev in
  Z.lor (Z.lor (Z.land minor 0xff) (u32 (Z.shiftl major 8))) (u32 (Z.shiftl (Z.land minor (U32_MAX - 0xff)) 12)).

Definition O_WRONLY : Z := 1.
Definition O_CREAT : Z := 64.
Definition O_TRUNC : Z := 512.
Definition AT_SYMLINK_NOFOLLOW : Z := 0x100.

Definition PATH_MAX : Z := 4096.
Definition EINTR : Z := 4.
Definition EAGAIN : Z := 11.

(** ** The file system, as the reader sees it

    [F] is the state of the file system and [file] an open file. Paths are
    byte strings. A call whose result the reader ignores returns the new
    state only. *)

Class Vfs (F file : Type) := {
  init_stat : F -> list Z -> option Z;
  init_rmdir : F -> list Z -> F;
  init_unlink : F -> list Z -> F;
  init_link : F -> list Z -> list Z -> F * Z;
  init_mkdir : F -> list Z -> Z -> F;
  init_mknod : F -> list Z -> Z -> Z -> F;
  init_symlink : F -> list Z -> list Z -> F;
  init_chown : F -> list Z -> Z -> Z -> Z -> F;
  init_chmod : F -> list Z -> Z -> F;
  filp_open : F -> list Z -> Z -> Z -> F * option file;
  vfs_fchown : F -> file -> Z -> Z -> F;
  vfs_fchmod : F -> file -> Z -> F;
  vfs_truncate : F -> file -> Z -> F;
  kernel_write : F -> file -> list Z -> Z -> F * Z;
  fput : F -> file -> F
}.

(** ** Static data *)

Definition N_ALIGN (len : Z) : Z := u32 (Z.land (u32 (len + 1)) (U32_MAX - 3) + 2).

(** An entry of the table of hard links ([struct hash]; a chain is a list). *)
Record hash := Hash { q_ino : Z; q_minor : Z; q_major : Z; q_mode : Z; q_name : list Z }.

(** The fields [parse_header] fills in. *)
Record header := Header {
  ino : Z; mode : Z; uid : Z; gid : Z; nlink : Z; mtime : Z; body_len : Z; major : Z; minor : Z;
  rdev : Z; name_len : Z; hdr_csum : Z
}.

Inductive cpio_state := Start | Collect | GotHeader | SkipIt | GotName | CopyFile | GotSymlink | Reset.

#[export] Instance cpio_state_eq_dec : EqDecision cpio_state.
Proof. solve_decision. Defined.

(** Where [collected] points: into the input, or to one of the buffers that
    [unpack_to_rootfs] allocates. *)
Inductive place := input | header_buf | symlink_buf | name_buf.

Definition capacity (p : place) : Z :=
  match p with
  | input => 0
  | header_buf => 110
  | symlink_buf => PATH_MAX + N_ALIGN PATH_MAX + 1
  | name_buf => N_ALIGN PATH_MAX
  end.

Section reader.
Context {F file : Type} `{Vfs F file} `{Overrun}.

Record machine := Machine {
  fs : F;
  csum_present : bool;
  io_csum : Z;
  message : option string;
  head : list (list hash);
  hdr : header;
  state : cpio_state;
  next_state : cpio_state;
  victim : list Z;
  this_header : Z;
  next_header : Z;
  collected : list Z;
  collected_in : place;
  remains : Z;
  wfile : option file;
  wfile_pos : Z;
  my_inptr : Z
}.

Definition byte_count (st : machine) : Z := Z.of_nat (length (victim st)).

Definition set_fs (x : F) (st : machine) : machine :=
  Machine x (csum_present st) (io_csum st) (message st) (head st) (hdr st) (state st) (next_state st) (victim st) (this_header st) (next_header st) (collected st) (collected_in st) (remains st) (wfile st) (wfile_pos st) (my_inptr st).
Definition set_csum_present (x : bool) (st : machine) : machine :=
  Machine (fs st) x (io_csum st) (message st) (head st) (hdr st) (state st) (next_state st) (victim st) (this_header st) (next_header st) (collected st) (collected_in st) (remains st) (wfile st) (wfile_pos st) (my_inptr st).
Definition set_io_csum (x : Z) (st : machine) : machine :=
  Machine (fs st) (csum_present st) x (message st) (head st) (hdr st) (state st) (next_state st) (victim st) (this_header st) (next_header st) (collected st) (collected_in st) (remains st) (wfile st) (wfile_pos st) (my_inptr st).
Definition set_message (x : option string) (st : machine) : machine :=
  Machine (fs st) (csum_present st) (io_csum st) x (head st) (hdr st) (state st) (next_state st) (victim st) (this_header st) (next_header st) (collected st) (collected_in st) (remains st) (wfile st) (wfile_pos st) (my_inptr st).
Definition set_head (x : list (list hash)) (st : machine) : machine :=
  Machine (fs st) (csum_present st) (io_csum st) (message st) x (hdr st) (state st) (next_state st) (victim st) (this_header st) (next_header st) (collected st) (collected_in st) (remains st) (wfile st) (wfile_pos st) (my_inptr st).
Definition set_hdr (x : header) (st : machine) : machine :=
  Machine (fs st) (csum_present st) (io_csum st) (message st) (head st) x (state st) (next_state st) (victim st) (this_header st) (next_header st) (collected st) (collected_in st) (remains st) (wfile st) (wfile_pos st) (my_inptr st).
Definition set_state (x : cpio_state) (st : machine) : machine :=
  Machine (fs st) (csum_present st) (io_csum st) (message st) (head st) (hdr st) x (next_state st) (victim st) (this_header st) (next_header st) (collected st) (collected_in st) (remains st) (wfile st) (wfile_pos st) (my_inptr st).
Definition set_next_state (x : cpio_state) (st : machine) : machine :=
  Machine (fs st) (csum_present st) (io_csum st) (message st) (head st) (hdr st) (state st) x (victim st) (this_header st) (next_header st) (collected st) (collected_in st) (remains st) (wfile st) (wfile_pos st) (my_inptr st).
Definition set_victim (x : list Z) (st : machine) : machine :=
  Machine (fs st) (csum_present st) (io_csum st) (message st) (head st) (hdr st) (state st) (next_state st) x (this_header st) (next_header st) (collected st) (collected_in st) (remains st) (wfile st) (wfile_pos st) (my_inptr st).
Definition set_this_header (x : Z) (st : machine) : machine :=
  Machine (fs st) (csum_present st) (io_csum st) (message st) (head st) (hdr st) (state st) (next_state st) (victim st) x (next_header st) (collected st) (collected_in st) (remains st) (wfile st) (wfile_pos st) (my_inptr st).
Definition set_next_header (x : Z) (st : machine) : machine :=
  Machine (fs st) (csum_present st) (io_csum st) (message st) (head st) (hdr st) (state st) (next_state st) (victim st) (this_header st) x (collected st) (collected_in st) (remains st) (wfile st) (wfile_pos st) (my_inptr st).
Definition set_collected (x : list Z) (st : machine) : machine :=
  Machine (fs st) (csum_present st) (io_csum st) (message st) (head st) (hdr st) (state st) (next_state st) (victim st) (this_header st) (next_header st) x (collected_in st) (remains st) (wfile st) (wfile_pos st) (my_inptr st).
Definition set_collected_in (x : place) (st : machine) : machine :=
  Machine (fs st) (csum_present st) (io_csum st) (message st) (head st) (hdr st) (state st) (next_state st) (victim st) (this_header st) (next_header st) (collected st) x (remains st) (wfile st) (wfile_pos st) (my_inptr st).
Definition set_remains (x : Z) (st : machine) : machine :=
  Machine (fs st) (csum_present st) (io_csum st) (message st) (head st) (hdr st) (state st) (next_state st) (victim st) (this_header st) (next_header st) (collected st) (collected_in st) x (wfile st) (wfile_pos st) (my_inptr st).
Definition set_wfile (x : option file) (st : machine) : machine :=
  Machine (fs st) (csum_present st) (io_csum st) (message st) (head st) (hdr st) (state st) (next_state st) (victim st) (this_header st) (next_header st) (collected st) (collected_in st) (remains st) x (wfile_pos st) (my_inptr st).
Definition set_wfile_pos (x : Z) (st : machine) : machine :=
  Machine (fs st) (csum_present st) (io_csum st) (message st) (head st) (hdr st) (state st) (next_state st) (victim st) (this_header st) (next_header st) (collected st) (collected_in st) (remains st) (wfile st) x (my_inptr st).
Definition set_my_inptr (x : Z) (st : machine) : machine :=
  Machine (fs st) (csum_present st) (io_csum st) (message st) (head st) (hdr st) (state st) (next_state st) (victim st) (this_header st) (next_header st) (collected st) (collected_in st) (remains st) (wfile st) (wfile_pos st) x.

Definition set_body_len (x : Z) (st : machine) : machine :=
  let h := hdr st in
  set_hdr (Header (ino h) (mode h) (uid h) (gid h) (nlink h) (mtime h) x (major h) (minor h) (rdev h) (name_len h)
             (hdr_csum h)) st.

(** The first error is the one reported. *)
Definition error (x : string) (st : machine) : machine :=
  match message st with
  | None => set_message (Some x) st
  | Some _ => st
  end.

(** ** Writing a file *)

Definition csum_add (csum : Z) (p : list Z) : Z := u32 (csum + fold_right Z.add 0 p).

(** Each call of [kernel_write] takes one unit of fuel; the value returned and
    the new state. *)
Fixpoint xwrite_loop (fuel : nat) (f : file) (p : list Z) (out : Z) (st : machine) : outcome (Z * machine) :=
  match fuel with
  | O => NoFuel
  | S fuel =>
      if bool_decide (p = []) then Ok (out, st)
      else
        let '(fs', rv) := kernel_write (fs st) f p (wfile_pos st) in
        let st := set_fs fs' st in
        if rv <? 0 then
          if (rv =? - EINTR) || (rv =? - EAGAIN) then xwrite_loop fuel f p out st
          else Ok (if out =? 0 then rv else out, st)
        else if rv =? 0 then Ok (out, st)
        else
          let n := Z.to_nat rv in
          let st := set_wfile_pos (wfile_pos st + rv) st in
          let st := if csum_present st then set_io_csum (csum_add (io_csum st) (take n p)) st else st in
          xwrite_loop fuel f (drop n p) (out + rv) st
  end.

Definition xwrite (f : file) (p : list Z) (st : machine) : outcome (Z * machine) :=
  xwrite_loop (2 * S (length p)) f p 0 st.

(** ** The table of hard links *)

Definition link_hash (major minor ino : Z) : Z :=
  let tmp := u32 (s32 (s32 (ino + minor) + s32 (Z.shiftl major 3))) in
  let tmp := u32 (tmp + Z.shiftr tmp 5) in
  Z.land tmp 31.

Definition link_matches (major minor ino mode : Z) (q : hash) : bool :=
  (q_ino q =? ino) && (q_minor q =? minor) && (q_major q =? major) &&
  (Z.land (Z.lxor (q_mode q) mode) S_IFMT =? 0).

(** The walk along a chain: the name found, or the chain with a new entry at
    its end. *)
Fixpoint link_chain (major minor ino mode : Z) (name : list Z) (p : list hash) : option (list Z) * list hash :=
  match p with
  | [] => (None, [Hash ino minor major mode name])
  | q :: p' =>
      if link_matches major minor ino mode q then (Some (q_name q), p)
      else let '(r, p'') := link_chain major minor ino mode name p' in (r, q :: p'')
  end.

(** The copy of the name into a new entry is checked in [maybe_link], the only
    caller. *)
Definition find_link (major minor ino mode : Z) (name : list Z) (head : list (list hash)) :
    option (list Z) * list (list hash) :=
  let i := Z.to_nat (link_hash major minor ino) in
  let '(r, p) := link_chain major minor ino mode name (head !!! i) in
  (r, <[i := p]> head).

Definition no_links : list (list hash) := replicate 32 [].

Definition free_hash (st : machine) : machine := set_head no_links st.

(** ** The header *)

(** Field [i] of a header. *)
Definition parse_field (s : list Z) (i : nat) : outcome Z :=
  _ ← BUG_ON (Z.of_nat (length s) <? 6 + 8 * Z.of_nat i + 8);
  '(v, _) ← simple_strtoul (until_nul (take 8 (drop (6 + 8 * i) s))) 16; Ok v.

Definition parse_header (s : list Z) : outcome header :=
  ino ← parse_field s 0;
  mode ← parse_field s 1;
  uid ← parse_field s 2;
  gid ← parse_field s 3;
  nlink ← parse_field s 4;
  mtime ← parse_field s 5;
  body_len ← parse_field s 6;
  major ← parse_field s 7;
  minor ← parse_field s 8;
  rmajor ← parse_field s 9;
  rminor ← parse_field s 10;
  name_len ← parse_field s 11;
  hdr_csum ← parse_field s 12;
  Ok (Header ino (u16 mode) uid gid nlink mtime body_len major minor
        (new_encode_dev (MKDEV rmajor rminor)) name_len hdr_csum).

(** ** The actions

    An action returns the new state and whether the loop of [write_buffer]
    stops. *)

Definition eat (n : Z) (st : machine) : outcome machine :=
  if byte_count st <? n then Bug
  else Ok (set_this_header (this_header st + n) (set_victim (drop (Z.to_nat n) (victim st)) st)).

Definition start_collect (buf : place) (size : Z) (next : cpio_state) (st : machine) : machine :=
  set_state Collect (set_next_state next (set_remains size (set_collected [] (set_collected_in buf st)))).

Definition read_into (buf : place) (size : Z) (next : cpio_state) (st : machine) : outcome machine :=
  if byte_count st >=? size then
    let st := set_collected (take (Z.to_nat size) (victim st)) (set_collected_in input st) in
    st ← eat size st;
    Ok (set_state next st)
  else Ok (start_collect buf size next st).

Definition do_start (st : machine) : outcome (bool * machine) :=
  st ← read_into header_buf 110 GotHeader st;
  Ok (false, st).

Definition do_collect (st : machine) : outcome (bool * machine) :=
  let n := if byte_count st <? remains st then byte_count st else remains st in
  _ ← BUG_ON (capacity (collected_in st) <? Z.of_nat (length (collected st)) + n);
  let st := set_collected (collected st ++ take (Z.to_nat n) (victim st)) st in
  st ← eat n st;
  let st := set_remains (remains st - n) st in
  if negb (remains st =? 0) then Ok (true, st)
  else Ok (false, set_state (next_state st) st).

(** [memcmp] with the six bytes of a magic. *)
Definition magic_is (s : string) (c : list Z) : outcome bool :=
  _ ← BUG_ON (Z.of_nat (length c) <? 6);
  Ok (bool_decide (take 6 c = bytes_of s)).

(** What follows the check of the magic. *)
Definition dispatch_header (st : machine) : outcome (bool * machine) :=
  h ← parse_header (collected st);
  let st := set_hdr h st in
  let next := this_header st + N_ALIGN (name_len h) + body_len h in
  let st := set_next_header (Z.land (next + 3) (- 4)) st in
  let st := set_state SkipIt st in
  if (name_len h <=? 0) || (name_len h >? PATH_MAX) then Ok (false, st)
  else if S_ISLNK (mode h) then
    if body_len h >? PATH_MAX then Ok (false, st)
    else Ok (false, start_collect symlink_buf (u32 (N_ALIGN (name_len h) + body_len h)) GotSymlink st)
  else if S_ISREG (mode h) || (body_len h =? 0) then
    st ← read_into name_buf (N_ALIGN (name_len h)) GotName st;
    Ok (false, st)
  else Ok (false, st).

Definition do_header (st : machine) : outcome (bool * machine) :=
  newc ← magic_is "070701" (collected st);
  if newc : bool then dispatch_header (set_csum_present false st)
  else
    crc ← magic_is "070702" (collected st);
    if crc : bool then dispatch_header (set_csum_present true st)
    else
      odc ← magic_is "070707" (collected st);
      if odc : bool then Ok (true, error "incorrect cpio method used: use -H newc option" st)
      else Ok (true, error "no cpio magic" st).

Definition do_skip (st : machine) : outcome (bool * machine) :=
  if this_header st + byte_count st <? next_header st then
    st ← eat (byte_count st) st;
    Ok (true, st)
  else
    st ← eat (u32 (next_header st - this_header st)) st;
    Ok (false, set_state (next_state st) st).

(** Eats the zeros at the front; structural in the input. *)
Fixpoint eat_zeros (v : list Z) (this_header : Z) : list Z * Z :=
  match v with
  | [] => ([], this_header)
  | c :: v' => if c =? 0 then eat_zeros v' (this_header + 1) else (v, this_header)
  end.

Definition do_reset (st : machine) : outcome (bool * machine) :=
  let '(v, t) := eat_zeros (victim st) (this_header st) in
  let st := set_this_header t (set_victim v st) in
  if negb (byte_count st =? 0) && negb (Z.land (this_header st) 3 =? 0)
  then Ok (true, error "broken padding" st)
  else Ok (true, st).

Definition clean_path (path : list Z) (fmode : Z) (f : F) : F :=
  match init_stat f path with
  | Some st_mode =>
      if negb (Z.land (Z.lxor st_mode fmode) S_IFMT =? 0) then
        if S_ISDIR st_mode then init_rmdir f path else init_unlink f path
      else f
  | None => f
  end.

(** [path] is [collected]. A new entry of the table has [N_ALIGN PATH_MAX] bytes
    for the name. *)
Definition maybe_link (path : list Z) (st : machine) : outcome (Z * machine) :=
  let h := hdr st in
  if nlink h >=? 2 then
    let '(old, head') := find_link (s32 (major h)) (s32 (minor h)) (s32 (ino h)) (mode h) path (head st) in
    let st := set_head head' st in
    match old with
    | Some old =>
        let st := set_fs (clean_path path 0 (fs st)) st in
        let '(fs', r) := init_link (fs st) old path in
        Ok (if r <? 0 then -1 else 1, set_fs fs' st)
    | None =>
        _ ← BUG_ON (N_ALIGN PATH_MAX <=? Z.of_nat (length path));
        Ok (0, st)
    end
  else Ok (0, st).

Definition do_name (st : machine) : outcome (bool * machine) :=
  let st := set_next_state Reset (set_state SkipIt st) in
  path ← c_string (collected st);
  let h := hdr st in
  if bool_decide (path = bytes_of "TRAILER!!!") then Ok (false, free_hash st)
  else
    let st := set_fs (clean_path path (mode h) (fs st)) st in
    if S_ISREG (mode h) then
      '(ml, st) ← maybe_link path st;
      if ml >=? 0 then
        let openflags := Z.lor O_WRONLY O_CREAT in
        let openflags := if negb (ml =? 1) then Z.lor openflags O_TRUNC else openflags in
        let '(fs', w) := filp_open (fs st) path openflags (mode h) in
        let st := set_wfile w (set_fs fs' st) in
        match w with
        | None => Ok (false, st)
        | Some f =>
            let st := set_io_csum 0 (set_wfile_pos 0 st) in
            let st := set_fs (vfs_fchown (fs st) f (uid h) (gid h)) st in
            let st := set_fs (vfs_fchmod (fs st) f (mode h)) st in
            let st := if negb (body_len h =? 0) then set_fs (vfs_truncate (fs st) f (body_len h)) st else st in
            Ok (false, set_state CopyFile st)
        end
      else Ok (false, st)
    else if S_ISDIR (mode h) then
      let st := set_fs (init_mkdir (fs st) path (mode h)) st in
      let st := set_fs (init_chown (fs st) path (uid h) (gid h) 0) st in
      Ok (false, set_fs (init_chmod (fs st) path (mode h)) st)
    else if S_ISBLK (mode h) || S_ISCHR (mode h) || S_ISFIFO (mode h) || S_ISSOCK (mode h) then
      '(ml, st) ← maybe_link path st;
      if ml =? 0 then
        let st := set_fs (init_mknod (fs st) path (mode h) (rdev h)) st in
        let st := set_fs (init_chown (fs st) path (uid h) (gid h) 0) st in
        Ok (false, set_fs (init_chmod (fs st) path (mode h)) st)
      else Ok (false, st)
    else Ok (false, st).

Definition do_copy (st : machine) : outcome (bool * machine) :=
  match wfile st with
  | None => Bug
  | Some f =>
      let n := body_len (hdr st) in
      if byte_count st >=? n then
        '(r, st) ← xwrite f (take (Z.to_nat n) (victim st)) st;
        let st := if negb (u32 r =? n) then error "write error" st else st in
        let st := set_fs (fput (fs st) f) st in
        let st := if csum_present st && negb (io_csum st =? hdr_csum (hdr st))
                  then error "bad data checksum" st else st in
        st ← eat n st;
        Ok (false, set_state SkipIt st)
      else
        '(r, st) ← xwrite f (victim st) st;
        let st := if negb (u32 r =? byte_count st) then error "write error" st else st in
        let st := set_body_len (n - byte_count st) st in
        st ← eat (byte_count st) st;
        Ok (true, st)
  end.

Definition do_symlink (st : machine) : outcome (bool * machine) :=
  let h := hdr st in
  let len := u32 (N_ALIGN (name_len h) + body_len h) in
  _ ← BUG_ON (capacity (collected_in st) <=? len);
  let c := <[Z.to_nat len := 0]> (collected st ++ [0]) in
  path ← c_string c;
  target ← c_string (drop (Z.to_nat (N_ALIGN (name_len h))) c);
  let st := set_collected c st in
  let st := set_fs (clean_path path 0 (fs st)) st in
  let st := set_fs (init_symlink (fs st) target path) st in
  let st := set_fs (init_chown (fs st) path (uid h) (gid h) AT_SYMLINK_NOFOLLOW) st in
  Ok (false, set_next_state Reset (set_state SkipIt st)).

Definition actions (s : cpio_state) : machine -> outcome (bool * machine) :=
  match s with
  | Start => do_start
  | Collect => do_collect
  | GotHeader => do_header
  | SkipIt => do_skip
  | GotName => do_name
  | CopyFile => do_copy
  | GotSymlink => do_symlink
  | Reset => do_reset
  end.

(** ** Feeding the machine *)

Fixpoint action_loop (fuel : nat) (st : machine) : outcome machine :=
  match fuel with
  | O => NoFuel
  | S fuel =>
      '(stop, st) ← actions (state st) st;
      if stop : bool then Ok st else action_loop fuel st
  end.

(** How many bytes were taken. A byte of input pays for eight actions, and no run
    of actions that takes none is as long as that. *)
Definition write_buffer (buf : list Z) (st : machine) : outcome (Z * machine) :=
  let len := Z.of_nat (length buf) in
  st ← action_loop (8 * S (length buf)) (set_victim buf st);
  Ok (len - byte_count st, st).

Fixpoint flush_loop (fuel : nat) (buf : list Z) (st : machine) : outcome machine :=
  match fuel with
  | O => NoFuel
  | S fuel =>
      '(written, st) ← write_buffer buf st;
      if (written <? Z.of_nat (length buf)) && bool_decide (message st = None) then
        let rest := drop (Z.to_nat written) buf in
        let c := hd 0 rest in
        if c =? 48 then flush_loop fuel rest (set_state Start st)
        else if c =? 0 then flush_loop fuel rest (set_state Reset st)
        else flush_loop fuel buf (error "junk within compressed archive" st)
      else Ok st
  end.

Definition flush_buffer (bufv : list Z) (st : machine) : outcome (Z * machine) :=
  match message st with
  | Some _ => Ok (-1, st)
  | None =>
      st ← flush_loop (2 * S (length bufv)) bufv st;
      Ok (Z.of_nat (length bufv), st)
  end.

(** ** lib/decompress.c

    A decompressor maps its input to the calls it makes, of [flush] with a
    piece of output and of [error] with a message, its result, and how much of
    the input it used; which of them are built in is a parameter ([NULL] for
    those that are not). *)

Inductive event := flushed (p : list Z) | complained (x : string).

Record decompressed := Decompressed { events : list event; res : Z; posp : Z }.

Definition compressed_formats : list (Z * Z * string) :=
  [(0x1f, 0x8b, "gzip"%string); (0x1f, 0x9e, "gzip"%string); (0x42, 0x5a, "bzip2"%string);
   (0x5d, 0x00, "lzma"%string); (0xfd, 0x37, "xz"%string); (0x89, 0x4c, "lzo"%string);
   (0x02, 0x21, "lz4"%string); (0x28, 0xb5, "zstd"%string)].

Context (decompressor : string -> option (list Z -> decompressed)).

Fixpoint find_format (formats : list (Z * Z * string)) (a b : Z) : option string :=
  match formats with
  | [] => None
  | (x, y, name) :: formats => if (a =? x) && (b =? y) then Some name else find_format formats a b
  end.

Definition decompress_method (inbuf : list Z) : option (list Z -> decompressed) * option string :=
  match inbuf with
  | a :: b :: _ =>
      match find_format compressed_formats a b with
      | Some name => (decompressor name, Some name)
      | None => (None, None)
      end
  | _ => (None, None)
  end.

(** Runs a decompressor: it fails when [flush] does not take a piece. *)
Fixpoint flush_pieces (es : list event) (res : Z) (st : machine) : outcome (Z * machine) :=
  match es with
  | [] => Ok (res, st)
  | complained x :: es => flush_pieces es res (error x st)
  | flushed p :: es =>
      '(r, st) ← flush_buffer p st;
      if r =? Z.of_nat (length p) then flush_pieces es res st else Ok (-1, st)
  end.

(** A decompressor that claims to have used more than there is takes the loop
    out of the buffer. *)
Fixpoint unpack_loop (fuel : nat) (buf : list Z) (st : machine) : outcome machine :=
  match fuel with
  | O => NoFuel
  | S fuel =>
      match message st, buf with
      | Some _, _ | None, [] => Ok st
      | None, c :: buf' =>
          let saved_offset := this_header st in
          if (c =? 48) && (Z.land (this_header st) 3 =? 0) then
            '(written, st) ← write_buffer buf (set_state Start st);
            unpack_loop fuel (drop (Z.to_nat written) buf) st
          else if c =? 0 then unpack_loop fuel buf' (set_this_header (this_header st + 1) st)
          else
            let st := set_this_header 0 st in
            st ← match decompress_method buf with
                 | (Some decompress, _) =>
                     let d := decompress buf in
                     '(res, st) ← flush_pieces (events d) (res d) st;
                     let st := set_my_inptr (posp d) st in
                     Ok (if negb (res =? 0) then error "decompressor failed" st else st)
                 | (None, Some compress_name) =>
                     Ok (error ("compression method " ++ compress_name ++ " not configured")%string st)
                 | (None, None) => Ok (error "invalid magic at start of compressed archive" st)
                 end;
            let st := if bool_decide (state st = Reset) then st
                      else error "junk at the end of compressed archive" st in
            let st := set_this_header (saved_offset + my_inptr st) st in
            _ ← BUG_ON (bool_decide (message st = None) &&
                        ((my_inptr st <? 0) || (Z.of_nat (length buf) <? my_inptr st)));
            unpack_loop fuel (drop (Z.to_nat (my_inptr st)) buf) st
      end
  end.

(** The message of the first error, if any. *)
Definition unpack_to_rootfs (buf : list Z) (st : machine) : outcome (option string * machine) :=
  let st := set_message None (set_this_header 0 (set_state Start st)) in
  st ← unpack_loop (S (length buf)) buf st;
  Ok (message st, st).

End reader.

Arguments machine : clear implicits.

(** Unless said otherwise. *)
#[export] Instance overrun_faults : Overrun | 100 := fun _ => Bug.

(** Computes with the fields of a machine. *)
Ltac machine :=
  cbn [set_fs set_csum_present set_io_csum set_message set_head set_hdr set_state set_next_state set_victim set_this_header set_next_header set_collected set_collected_in set_remains set_wfile set_wfile_pos set_my_inptr
    fs csum_present io_csum message head hdr state next_state victim this_header next_header collected collected_in remains wfile wfile_pos my_inptr].
