(* ===== verification/GenInitCpio.v ===== *)
(** * usr/gen_init_cpio.c: writing the initial file system

    The host program that turns a list of files into a cpio archive. Standard
    output is the list of bytes written so far and never fails; the static
    variables [offset] and [ino] are fields of [gen], and the settings from
    the command line, which do not change after it is read, are arguments.
    The host is a 64-bit machine. *)

From Stdlib Require Import String.
From S2P Require Import Prelude LibMath Ctype Kstrtox Initramfs.

Local Open Scope Z_scope.

Record gen := Gen { out : list Z; offset : Z; next_ino : Z }.

Definition gen_start : gen := Gen [] 0 721.

(** ** Output *)

(** [%08X] of an [unsigned int] and [%08lX] of a [long]: at least eight
    digits. *)
Definition upper_digit (d : Z) : Z := if d <? 10 then 48 + d else 55 + d.

Definition hex08 (v : Z) : list Z :=
  let ds := map upper_digit (to_digits 64 16 v) in
  replicate (8 - length ds) 48 ++ ds.

Definition X08 (v : Z) : list Z := hex08 (u32 v).
Definition lX08 (v : Z) : list Z := hex08 (u64 v).

Definition putchar (c : Z) (g : gen) : gen := Gen (out g ++ [c]) (u32 (offset g + 1)) (next_ino g).

Definition push_string (name : list Z) (g : gen) : gen :=
  let name_len := u32 (Z.of_nat (length name) + 1) in
  Gen (out g ++ name ++ [0]) (u32 (offset g + name_len)) (next_ino g).

(** Zeros while [offset & 3]; at most three. *)
Fixpoint pad_loop (fuel : nat) (g : gen) : outcome gen :=
  match fuel with
  | O => NoFuel
  | S fuel => if Z.land (offset g) 3 =? 0 then Ok g else pad_loop fuel (putchar 0 g)
  end.

Definition push_pad (g : gen) : outcome gen := pad_loop 4 g.

Fixpoint rest_loop (fuel : nat) (tmp_ofs : Z) (g : gen) : outcome gen :=
  match fuel with
  | O => NoFuel
  | S fuel => if Z.land tmp_ofs 3 =? 0 then Ok g else rest_loop fuel (u32 (tmp_ofs + 1)) (putchar 0 g)
  end.

Definition push_rest (name : list Z) (g : gen) : outcome gen :=
  let name_len := u32 (Z.of_nat (length name) + 1) in
  let g := Gen (out g ++ name ++ [0]) (u32 (offset g + name_len)) (next_ino g) in
  rest_loop 4 (u32 (name_len + 110)) g.

Definition push_hdr (s : list Z) (g : gen) : gen := Gen (out g ++ s) (u32 (offset g + 110)) (next_ino g).

Definition use_ino (g : gen) : gen := Gen (out g) (offset g) (u32 (next_ino g + 1)).

(** [name[0] == '/'] skips one character. *)
Definition skip_slash (name : list Z) : list Z :=
  match name with
  | c :: name' => if c =? 47 then name' else name
  | [] => []
  end.

Definition strlen_1 (s : list Z) : Z := Z.of_nat (length s) + 1.

(** ** A file of the host

    What [open], [fstat], [read] and [lseek] report for a path: [reads pos n]
    is the count a [read] of [n] bytes at [pos] returns. *)

Record hostfile := Hostfile {
  st : option (Z * Z);  (* st_mtime and st_size *)
  contents : list Z;
  reads : Z -> Z -> Z;
  seekable : bool
}.

Section settings.
Context (do_csum : bool) (default_mtime : Z).

Definition magic : list Z := bytes_of (if do_csum then "070702" else "070701").

(** ** The kinds of entries *)

Fixpoint block_loop (fuel : nat) (g : gen) : outcome gen :=
  match fuel with
  | O => NoFuel
  | S fuel => if offset g mod 512 =? 0 then Ok g else block_loop fuel (putchar 0 g)
  end.

Definition trailer_name : list Z := bytes_of "TRAILER!!!".

Definition cpio_trailer (g : gen) : outcome gen :=
  let s := magic ++ X08 0 ++ X08 0 ++ lX08 0 ++ lX08 0 ++ X08 1 ++ lX08 0 ++ X08 0 ++ X08 0 ++ X08 0 ++
           X08 0 ++ X08 0 ++ X08 (strlen_1 trailer_name) ++ X08 0 in
  let g := push_hdr s g in
  g ← push_rest trailer_name g;
  block_loop 513 g.

Definition cpio_mkslink (name target : list Z) (mode uid gid : Z) (g : gen) : outcome (Z * gen) :=
  let name := skip_slash name in
  let s := magic ++ X08 (next_ino g) ++ X08 (Z.lor S_IFLNK mode) ++ lX08 uid ++ lX08 gid ++ X08 1 ++
           lX08 default_mtime ++ X08 (strlen_1 target) ++ X08 3 ++ X08 1 ++ X08 0 ++ X08 0 ++
           X08 (strlen_1 name) ++ X08 0 in
  let g := push_hdr s (use_ino g) in
  g ← push_pad (push_string name g);
  g ← push_pad (push_string target g);
  Ok (0, g).

Definition cpio_mkgeneric (name : list Z) (mode uid gid : Z) (g : gen) : outcome (Z * gen) :=
  let name := skip_slash name in
  let s := magic ++ X08 (next_ino g) ++ X08 mode ++ lX08 uid ++ lX08 gid ++ X08 2 ++ lX08 default_mtime ++
           X08 0 ++ X08 3 ++ X08 1 ++ X08 0 ++ X08 0 ++ X08 (strlen_1 name) ++ X08 0 in
  let g := push_hdr s (use_ino g) in
  g ← push_rest name g;
  Ok (0, g).

Definition cpio_mknod (name : list Z) (mode uid gid dev_type maj min : Z) (g : gen) : outcome (Z * gen) :=
  let mode := if dev_type =? 98 then Z.lor mode S_IFBLK else Z.lor mode S_IFCHR in
  let name := skip_slash name in
  let s := magic ++ X08 (next_ino g) ++ X08 mode ++ lX08 uid ++ lX08 gid ++ X08 1 ++ lX08 default_mtime ++
           X08 0 ++ X08 3 ++ X08 1 ++ X08 maj ++ X08 min ++ X08 (strlen_1 name) ++ X08 0 in
  let g := push_hdr s (use_ino g) in
  g ← push_rest name g;
  Ok (0, g).

(** The bytes of a [read] of at most 65536 of the [size] bytes still wanted,
    or [None] when the caller gives up. *)
Definition read_some (f : hostfile) (pos size : Z) : option (list Z) :=
  let this_size := if size <? 65536 then size else 65536 in
  let this_read := reads f pos this_size in
  if (this_read <=? 0) || (this_read >? this_size) then None
  else Some (take (Z.to_nat this_read) (drop (Z.to_nat pos) (contents f))).

(** The checksum, or [None]. *)
Fixpoint csum_loop (fuel : nat) (f : hostfile) (pos size csum : Z) : outcome (option Z) :=
  match fuel with
  | O => NoFuel
  | S fuel =>
      if size =? 0 then Ok (if seekable f then Some csum else None)
      else
        match read_some f pos size with
        | None => Ok None
        | Some b =>
            let n := Z.of_nat (length b) in
            csum_loop fuel f (pos + n) (size - n) (csum_add csum b)
        end
  end.

Definition cpio_mkfile_csum (f : hostfile) (size : Z) : outcome (option Z) :=
  csum_loop (S (Z.to_nat size)) f 0 size 0.

(** Copies the contents; [false] is the error exit. *)
Fixpoint copy_loop (fuel : nat) (f : hostfile) (pos size : Z) (g : gen) : outcome (bool * gen) :=
  match fuel with
  | O => NoFuel
  | S fuel =>
      if size =? 0 then Ok (true, g)
      else
        match read_some f pos size with
        | None => Ok (false, g)
        | Some b =>
            let n := Z.of_nat (length b) in
            copy_loop fuel f (pos + n) (size - n) (Gen (out g ++ b) (u32 (offset g + n)) (next_ino g))
        end
  end.

(** The loop over the names, which lie one after the other in memory; [pos]
    is the position in the file. *)
Fixpoint names_loop (f : hostfile) (names : list (list Z)) (mode uid gid nlinks st_mtime st_size csum : Z) (g : gen) :
    outcome (Z * gen) :=
  match names with
  | [] => Ok (0, use_ino g)
  | name :: names =>
      let size := if bool_decide (names = []) then st_size else 0 in
      let name := skip_slash name in
      let namesize := strlen_1 name in
      let s := magic ++ X08 (next_ino g) ++ X08 mode ++ lX08 uid ++ lX08 gid ++ X08 nlinks ++ lX08 st_mtime ++
               lX08 size ++ X08 3 ++ X08 1 ++ X08 0 ++ X08 0 ++ X08 namesize ++
               X08 (if negb (size =? 0) then csum else 0) in
      g ← push_pad (push_string name (push_hdr s g));
      '(ok, g) ← copy_loop (S (Z.to_nat size)) f 0 size g;
      if ok : bool then
        g ← push_pad g;
        names_loop f names mode uid gid nlinks st_mtime st_size csum g
      else Ok (-1, g)
  end.

(** [file] is what [location] names, [None] when it cannot be opened. *)
Definition cpio_mkfile (names : list (list Z)) (file : option hostfile) (mode uid gid : Z) (g : gen) :
    outcome (Z * gen) :=
  let mode := Z.lor mode S_IFREG in
  let nlinks := Z.of_nat (length names) in
  match file with
  | None => Ok (-1, g)
  | Some f =>
      match st f with
      | None => Ok (-1, g)
      | Some (st_mtime, st_size) =>
          let st_mtime := if st_mtime >? 0xffffffff then 0xffffffff else st_mtime in
          if st_size >? 0xffffffff then Ok (-1, g)
          else
            csum ← (if do_csum then cpio_mkfile_csum f st_size else Ok (Some 0));
            match csum with
            | None => Ok (-1, g)
            | Some csum => names_loop f names mode uid gid nlinks st_mtime st_size csum g
            end
      end
  end.

End settings.
