(* ===== verification/GenInitCpioMain.v ===== *)
(** * usr/gen_init_cpio.c: the list of files

    The program reads its list line by line; the first word of a line names
    the kind of entry, and the rest is taken apart with [sscanf]. The
    conversions of [sscanf] that occur in the formats are modelled on the
    characters of the line; a conversion that does not match makes the whole
    line invalid, since every caller asks for all of them. The files of the
    host and its environment variables are parameters. *)

From Stdlib Require Import String.
From S2P Require Import Prelude LibMath Ctype Kstrtox Initramfs GenInitCpio.

Local Open Scope Z_scope.

(** ** The C library *)

Definition c_isspace (c : Z) : bool := ((9 <=? c) && (c <=? 13)) || (c =? 32).
Definition c_isgraph (c : Z) : bool := (33 <=? c) && (c <=? 126).

Fixpoint skip_while (p : Z -> bool) (s : list Z) : list Z :=
  match s with
  | [] => []
  | c :: s' => if p c then skip_while p s' else s
  end.

Fixpoint take_while (p : Z -> bool) (s : list Z) : list Z :=
  match s with
  | [] => []
  | c :: s' => if p c then c :: take_while p s' else []
  end.

(** A conversion takes the input and returns a value and the rest. *)
Definition scanner (A : Type) : Type := list Z -> option (A * list Z).

(** White space in a format. *)
Definition scan_space : scanner unit := fun s => Some (tt, skip_while c_isspace s).

(** [%4096s] *)
Definition scan_word : scanner (list Z) := fun s =>
  let s := skip_while c_isspace s in
  let w := take (Z.to_nat PATH_MAX) (take_while (fun c => negb (c_isspace c)) s) in
  if bool_decide (w = []) then None else Some (w, drop (length w) s).

(** [%c] *)
Definition scan_char : scanner Z := fun s =>
  match s with
  | [] => None
  | c :: s => Some (c, s)
  end.

(** The sign and the value of the digits, and the rest. *)
Definition scan_digits (base : Z) (s : list Z) : option (bool * Z * list Z) :=
  let s := skip_while c_isspace s in
  let '(neg, s) := match s with
                   | c :: s' => if c =? 45 then (true, s') else if c =? 43 then (false, s') else (false, s)
                   | [] => (false, [])
                   end in
  let ds := digits base s in
  if bool_decide (ds = []) then None else Some (neg, value base ds, drop (length ds) s).

(** [%o] and [%u]: [strtoul], stored in an [unsigned int]. *)
Definition scan_unsigned (base : Z) : scanner Z := fun s =>
  match scan_digits base s with
  | None => None
  | Some (neg, v, s) =>
      let v := if v >? U64_MAX then U64_MAX else if neg : bool then u64 (- v) else v in
      Some (u32 v, s)
  end.

(** [%d]: [strtol], stored in an [int]. *)
Definition scan_signed : scanner Z := fun s =>
  match scan_digits 10 s with
  | None => None
  | Some (neg, v, s) =>
      let v := if neg : bool then (if v >? 2 ^ 63 then - 2 ^ 63 else - v) else (if v >? 2 ^ 63 - 1 then 2 ^ 63 - 1 else v) in
      Some (s32 v, s)
  end.

Definition then_ {A B} (p : scanner A) (k : A -> scanner B) : scanner B := fun s =>
  match p s with
  | None => None
  | Some (a, s) => k a s
  end.

Definition return_ {A} (a : A) : scanner A := fun s => Some (a, s).

Local Notation "'scan' x '<-' p ';' k" := (then_ p (fun x => k)) (at level 10, x name, p at level 200, k at level 200).

(** ** The kinds of lines *)

Section program.
Context (do_csum : bool) (default_mtime : Z).
Context (open_file : list Z -> option hostfile) (getenv : list Z -> option (list Z)).

Definition slink_line : scanner (list Z * list Z * Z * Z * Z) :=
  scan name <- scan_word;
  scan _ <- scan_space;
  scan target <- scan_word;
  scan _ <- scan_space;
  scan mode <- scan_unsigned 8;
  scan _ <- scan_space;
  scan uid <- scan_signed;
  scan _ <- scan_space;
  scan gid <- scan_signed;
  return_ (name, target, mode, uid, gid).

Definition cpio_mkslink_line (line : list Z) (g : gen) : outcome (Z * gen) :=
  match slink_line line with
  | None => Ok (-1, g)
  | Some ((name, target, mode, uid, gid), _) => cpio_mkslink do_csum default_mtime name target mode (u32 uid) (u32 gid) g
  end.

Definition generic_line : scanner (list Z * Z * Z * Z) :=
  scan name <- scan_word;
  scan _ <- scan_space;
  scan mode <- scan_unsigned 8;
  scan _ <- scan_space;
  scan uid <- scan_signed;
  scan _ <- scan_space;
  scan gid <- scan_signed;
  return_ (name, mode, uid, gid).

Inductive generic_types := GT_DIR | GT_PIPE | GT_SOCK.

Definition generic_type_mode (gt : generic_types) : Z :=
  match gt with
  | GT_DIR => S_IFDIR
  | GT_PIPE => S_IFIFO
  | GT_SOCK => S_IFSOCK
  end.

Definition cpio_mkgeneric_line (line : list Z) (gt : generic_types) (g : gen) : outcome (Z * gen) :=
  match generic_line line with
  | None => Ok (-1, g)
  | Some ((name, mode, uid, gid), _) =>
      cpio_mkgeneric do_csum default_mtime name (Z.lor mode (generic_type_mode gt)) (u32 uid) (u32 gid) g
  end.

Definition cpio_mkdir_line (line : list Z) (g : gen) : outcome (Z * gen) := cpio_mkgeneric_line line GT_DIR g.
Definition cpio_mkpipe_line (line : list Z) (g : gen) : outcome (Z * gen) := cpio_mkgeneric_line line GT_PIPE g.
Definition cpio_mksock_line (line : list Z) (g : gen) : outcome (Z * gen) := cpio_mkgeneric_line line GT_SOCK g.

Definition nod_line : scanner (list Z * Z * Z * Z * Z * Z * Z) :=
  scan name <- scan_word;
  scan _ <- scan_space;
  scan mode <- scan_unsigned 8;
  scan _ <- scan_space;
  scan uid <- scan_signed;
  scan _ <- scan_space;
  scan gid <- scan_signed;
  scan _ <- scan_space;
  scan dev_type <- scan_char;
  scan _ <- scan_space;
  scan maj <- scan_unsigned 10;
  scan _ <- scan_space;
  scan min <- scan_unsigned 10;
  return_ (name, mode, uid, gid, dev_type, maj, min).

Definition cpio_mknod_line (line : list Z) (g : gen) : outcome (Z * gen) :=
  match nod_line line with
  | None => Ok (-1, g)
  | Some ((name, mode, uid, gid, dev_type, maj, min), _) =>
      cpio_mknod do_csum default_mtime name mode (u32 uid) (u32 gid) dev_type maj min g
  end.

(** [strstr] for a string of two characters, and [strchr]: what comes before
    and what comes after. *)
Fixpoint split_at2 (a b : Z) (s : list Z) : option (list Z * list Z) :=
  match s with
  | c :: ((d :: s2) as s') =>
      if (c =? a) && (d =? b) then Some ([], s2)
      else match split_at2 a b s' with Some (l, r) => Some (c :: l, r) | None => None end
  | _ => None
  end.

Fixpoint split_at1 (a : Z) (s : list Z) : option (list Z * list Z) :=
  match s with
  | c :: s' => if c =? a then Some ([], s') else match split_at1 a s' with Some (l, r) => Some (c :: l, r) | None => None end
  | [] => None
  end.

(** Replaces [${NAME}] until there is none left; a variable may expand to
    another, so that the rounds are not bounded by the length. *)
Fixpoint replace_env_loop (fuel : nat) (s : list Z) : outcome (list Z) :=
  match fuel with
  | O => NoFuel
  | S fuel =>
      match split_at2 36 123 s with
      | None => Ok s
      | Some (before, t) =>
          match split_at1 125 t with
          | None => Ok s
          | Some (var, after) =>
              replace_env_loop fuel (take (Z.to_nat PATH_MAX) (before ++ default [] (getenv var) ++ after))
          end
      end
  end.

Definition cpio_replace_env (new_location : list Z) : outcome (list Z) := replace_env_loop (Z.to_nat PATH_MAX) new_location.

Definition file_line : scanner (list Z * list Z * Z * Z * Z) :=
  scan name <- scan_word;
  scan _ <- scan_space;
  scan location <- scan_word;
  scan _ <- scan_space;
  scan mode <- scan_unsigned 8;
  scan _ <- scan_space;
  scan uid <- scan_signed;
  scan _ <- scan_space;
  scan gid <- scan_signed;
  scan _ <- scan_space;
  return_ (name, location, mode, uid, gid).

(** The further names of a file; each turn takes a word. *)
Fixpoint more_names (fuel : nat) (s : list Z) : list (list Z) :=
  match fuel with
  | O => []
  | S fuel =>
      match s with
      | c :: _ =>
          if c_isgraph c then
            match scan_word s with
            | None => []
            | Some (name, s) => name :: more_names fuel (skip_while c_isspace s)
            end
          else []
      | [] => []
      end
  end.

Definition cpio_mkfile_line (line : list Z) (g : gen) : outcome (Z * gen) :=
  match file_line line with
  | None => Ok (-1, g)
  | Some ((name, location, mode, uid, gid), rest) =>
      location ← cpio_replace_env location;
      cpio_mkfile do_csum (name :: more_names (length rest) rest) (open_file location) mode (u32 uid) (u32 gid) g
  end.

(** ** [main] *)

Definition file_handler_table : list (string * (list Z -> gen -> outcome (Z * gen))) :=
  [("file"%string, cpio_mkfile_line); ("nod"%string, cpio_mknod_line); ("dir"%string, cpio_mkdir_line);
   ("slink"%string, cpio_mkslink_line); ("pipe"%string, cpio_mkpipe_line); ("sock"%string, cpio_mksock_line)].

Fixpoint find_handler (table : list (string * (list Z -> gen -> outcome (Z * gen)))) (type : list Z) :
    option (list Z -> gen -> outcome (Z * gen)) :=
  match table with
  | [] => None
  | (t, h) :: table => if bool_decide (type = bytes_of t) then Some h else find_handler table type
  end.

Definition blank (c : Z) : bool := (c =? 32) || (c =? 9).
Definition newline (c : Z) : bool := c =? 10.

(** The body of the loop for one line; the first component tells to leave the
    loop. [strtok] ends the word in place, so that [line] is then the blanks
    before the word and the word. [sscanf] of a [NULL] pointer is a fault. *)
Definition main_line (line : list Z) (ec : Z) (g : gen) : outcome (bool * Z * gen) :=
  if hd 0 line =? 35 then Ok (false, ec, g)
  else
    let type := take_while (fun c => negb (blank c)) (skip_while blank line) in
    if bool_decide (type = []) then Ok (true, -1, g)
    else if hd 0 type =? 10 then Ok (false, ec, g)
    else if (length line =? length type)%nat then Ok (false, ec, g)
    else
      let line' := take_while blank line ++ type in
      let args := take_while (fun c => negb (newline c)) (skip_while newline (drop (length line' + 1) line)) in
      let ec := if bool_decide (args = []) then -1 else ec in
      match find_handler file_handler_table line' with
      | None => Ok (false, ec, g)
      | Some handler =>
          if bool_decide (args = []) then Bug
          else
            '(rc, g) ← handler args g;
            Ok (false, if negb (rc =? 0) then rc else ec, g)
      end.

Definition LINE_SIZE : Z := 2 * PATH_MAX + 50.

(** [fgets]: up to the newline, and at most [LINE_SIZE - 1] characters. *)
Fixpoint fgets (n : nat) (s : list Z) : list Z * list Z :=
  match n, s with
  | S n, c :: s => if c =? 10 then ([c], s) else let '(l, r) := fgets n s in (c :: l, r)
  | _, _ => ([], s)
  end.

(** Each turn reads at least one character. What follows a zero byte in a line
    is not seen. *)
Fixpoint main_loop (fuel : nat) (cpio_list : list Z) (ec : Z) (g : gen) : outcome (Z * gen) :=
  match fuel with
  | O => NoFuel
  | S fuel =>
      if bool_decide (cpio_list = []) then Ok (ec, g)
      else
        let '(line, cpio_list) := fgets (Z.to_nat (LINE_SIZE - 1)) cpio_list in
        '(stop, ec, g) ← main_line (until_nul line) ec g;
        if stop : bool then Ok (ec, g) else main_loop fuel cpio_list ec g
  end.

(** The check of the time stamp. *)
Definition timestamp_too_large : bool := default_mtime >? 0xffffffff.

(** What is passed to [exit], and what has been written. The options and the
    list have been read: they are the settings and [cpio_list]. *)
Definition main (cpio_list : list Z) : outcome (Z * list Z) :=
  if timestamp_too_large then Ok (1, [])
  else
    '(ec, g) ← main_loop (S (length cpio_list)) cpio_list 0 gen_start;
    if ec =? 0 then g ← cpio_trailer do_csum g; Ok (ec, out g) else Ok (ec, out g).

End program.
