(* ===== verification/CpioFormat.v ===== *)
(** * The archive format, as both programs use it

    A member of an archive is a header of thirteen numbers in eight
    hexadecimal digits, a name and contents, each padded to a multiple of
    four. [GenInitCpio] writes members and [Initramfs] takes the numbers
    apart again. *)

From Stdlib Require Import String.
From S2P Require Import Prelude LibMath Ctype Kstrtox Initramfs GenInitCpio.

Local Open Scope Z_scope.

(** ** Members *)

Record member := Member {
  m_csum : bool;  (* the magic that announces checksums *)
  m_ino : Z; m_mode : Z; m_uid : Z; m_gid : Z; m_nlink : Z; m_mtime : Z;
  m_major : Z; m_minor : Z; m_rmajor : Z; m_rminor : Z; m_check : Z;
  m_name : list Z;
  m_body : list Z
}.

Definition zlen (s : list Z) : Z := Z.of_nat (length s).

Definition fields (m : member) : list Z :=
  [m_ino m; m_mode m; m_uid m; m_gid m; m_nlink m; m_mtime m; zlen (m_body m); m_major m; m_minor m;
   m_rmajor m; m_rminor m; zlen (m_name m) + 1; m_check m].

Definition zeros (n : nat) : list Z := replicate n 0.

(** How many bytes bring [n] to a multiple of four. *)
Definition pad4 (n : Z) : nat := Z.to_nat ((- n) mod 4).

Definition header_part (m : member) : list Z := magic (m_csum m) ++ concat (map hex08 (fields m)).

Definition name_part (m : member) : list Z := m_name m ++ [0] ++ zeros (pad4 (110 + zlen (m_name m) + 1)).

Definition body_pad (m : member) : list Z := zeros (pad4 (zlen (m_body m))).

Definition encode (m : member) : list Z := header_part m ++ name_part m ++ m_body m ++ body_pad m.

(** What [parse_header] is to find. *)
Definition header_of (m : member) : header :=
  Header (m_ino m) (u16 (m_mode m)) (m_uid m) (m_gid m) (m_nlink m) (m_mtime m) (zlen (m_body m)) (m_major m)
    (m_minor m) (new_encode_dev (MKDEV (m_rmajor m) (m_rminor m))) (zlen (m_name m) + 1) (m_check m).

Definition number32 (v : Z) : Prop := 0 <= v < 2 ^ 32.

(** Bytes other than the terminator. *)
Definition chars (s : list Z) : Prop := Forall (fun c => 0 < c < 256) s.

(** ** Eight digits *)

Lemma upper_digit_ok d : 0 <= d < 16 -> digit_of (upper_digit d) = Some d /\ 0 < upper_digit d < 256.
Proof.
  intros Hd. unfold upper_digit, digit_of. destruct (Z.ltb_spec d 10).
  - replace ((48 <=? 48 + d) && (48 + d <=? 57)) with true by lia. split; [f_equal|]; lia.
  - replace ((48 <=? 55 + d) && (55 + d <=? 57)) with false by lia.
    replace ((65 <=? 55 + d) && (55 + d <=? 70)) with true by lia. split; [f_equal|]; lia.
Qed.

Lemma to_digits_short k fuel v : 0 <= v < 16 ^ Z.of_nat k -> (0 < k)%nat -> (length (to_digits fuel 16 v) <= k)%nat.
Proof.
  revert fuel v. induction k as [|k IH]; intros fuel v Hv Hk; [lia|]. destruct fuel as [|fuel]; cbn [to_digits length]; [lia|].
  destruct (Z.ltb_spec v 16); cbn [length]; [lia|]. rewrite length_app. cbn [length].
  rewrite Nat2Z.inj_succ, Z.pow_succ_r in Hv by lia.
  assert (Hq : 1 <= v / 16 < 16 ^ Z.of_nat k) by (split; [apply Z.div_le_lower_bound|apply Z.div_lt_upper_bound]; lia).
  destruct k as [|k]; [change (16 ^ Z.of_nat 0) with 1 in Hq; lia|]. specialize (IH fuel (v / 16)). lia.
Qed.

Lemma value_zeros n ds : value 16 (replicate n 0 ++ ds) = value 16 ds.
Proof. induction n as [|n IH]; [done|]. exact IH. Qed.

(** The digits of a number of 32 bits, with leading zeros. *)
Lemma hex08_digits v :
  number32 v -> exists ds, hex08 v = map upper_digit ds /\ length ds = 8%nat /\ value 16 ds = v /\
    Forall (fun d => 0 <= d < 16) ds.
Proof.
  intros Hv. unfold number32 in Hv. destruct (to_digits_ok 64 16 v) as (E & _ & Hds & _); [lia|cbn; lia|lia|].
  pose proof (to_digits_short 8 64 v ltac:(cbn; lia) ltac:(lia)) as Hl.
  exists (replicate (8 - length (to_digits 64 16 v)) 0 ++ to_digits 64 16 v). unfold hex08.
  rewrite length_map, map_app, length_app, length_replicate, value_zeros. csplit; [|lia|done|].
  - f_equal. generalize (8 - length (to_digits 64 16 v))%nat. intros n. induction n as [|n IH]; [done|].
    cbn. by f_equal.
  - apply Forall_app. split; [|done]. apply Forall_replicate. lia.
Qed.

Lemma hex08_length v : number32 v -> length (hex08 v) = 8%nat.
Proof. intros (ds & -> & Hl & _)%hex08_digits. by rewrite length_map. Qed.

Lemma digits_upper ds : Forall (fun d => 0 <= d < 16) ds -> digits 16 (map upper_digit ds) = ds.
Proof.
  induction ds as [|d ds IH]; intros H; [done|]. apply Forall_cons in H as [Hd H]. cbn [map digits].
  destruct (upper_digit_ok d) as (-> & _); [lia|]. rewrite (proj2 (Z.ltb_lt _ _)), IH by (done || lia). done.
Qed.

Lemma until_nul_chars s t : chars s -> until_nul (s ++ 0 :: t) = s.
Proof.
  induction s as [|c s IH]; intros H; [done|]. apply Forall_cons in H as [Hc H]. cbn.
  rewrite (proj2 (Z.eqb_neq _ _)) by lia. by rewrite IH.
Qed.

Lemma until_nul_all s : chars s -> until_nul s = s.
Proof.
  induction s as [|c s IH]; intros H; [done|]. apply Forall_cons in H as [Hc H]. cbn.
  rewrite (proj2 (Z.eqb_neq _ _)) by lia. by rewrite IH.
Qed.

Lemma strtoul_hex08 v : number32 v -> simple_strtoul (until_nul (hex08 v)) 16 = Ok (v, 8).
Proof.
  intros Hv. destruct (hex08_digits v Hv) as (ds & -> & Hl & Hval & Hds).
  assert (Hc : chars (map upper_digit ds)).
  { apply Forall_map. eapply Forall_impl; [exact Hds|]. intros d Hd. by apply upper_digit_ok. }
  rewrite until_nul_all by done. unfold simple_strtoul, simple_strtoull, simple_strntoull, _parse_integer_fixup_radix.
  change (16 =? 0) with false. change (16 =? 16) with true. cbn [andb].
  assert (Hx : (tolower_ (ch (map upper_digit ds) 1) =? 120) = false).
  { apply Z.eqb_neq. destruct ds as [|d [|e ds]]; [done..|]. cbn. apply Forall_cons in Hds as [_ [He _]%Forall_cons].
    destruct (upper_digit_ok e) as (E & _); [lia|]. by apply digit_of_range in E as (_ & _ & _ & ?). }
  rewrite Hx, andb_false_r, Nat.sub_diag. change (Z.of_nat 0 <? INT_MAX) with true. cbn beta iota.
  unfold _parse_integer_limit. pose proof (parse_loop_ok 16 (map upper_digit ds) 0 0 (INT_MAX - Z.of_nat 0)) as P.
  change (u64 0) with 0 in P. change (flagged 0 0) with 0 in P. rewrite P; clear P; [|lia| |lia..| |].
  - rewrite bind_Ok, digits_upper by done. change (value_from 16 0 ds) with (value 16 ds). rewrite Hval, Hl.
    unfold number32 in Hv. unfold flagged. rewrite (proj2 (Z.leb_gt _ _)) by lia. cbn beta iota.
    rewrite bind_Ok. cbn beta iota. rewrite u64_small, u32_small by lia. done.
  - eapply Forall_impl; [exact Hc|]. unfold byte. cbn. lia.
  - rewrite length_map, Hl. lia.
  - rewrite length_map, Hl. unfold INT_MAX. cbn. lia.
Qed.

(** ** The header *)

Lemma magic_length b : length (magic b) = 6%nat.
Proof. by destruct b. Qed.

Lemma fields_length l : Forall number32 l -> length (concat (map hex08 l)) = (8 * length l)%nat.
Proof.
  induction l as [|v l IH]; intros Hl; [done|]. apply Forall_cons in Hl as [Hv Hl]. cbn [map concat length].
  rewrite length_app, hex08_length, IH by done. lia.
Qed.

Lemma take_field l i v t :
  Forall number32 l -> l !! i = Some v -> take 8 (drop (8 * i) (concat (map hex08 l) ++ t)) = hex08 v.
Proof.
  revert i. induction l as [|w l IH]; intros i Hl Hi; [done|]. apply Forall_cons in Hl as [Hw Hl].
  cbn [map concat]. rewrite <- app_assoc. destruct i as [|i].
  - injection Hi as <-. change (8 * 0)%nat with 0%nat. rewrite drop_0, <- (hex08_length w Hw). apply take_app_length.
  - replace (8 * S i)%nat with (length (hex08 w) + 8 * i)%nat by (rewrite hex08_length; [lia|done]).
    rewrite drop_app_add. by apply IH.
Qed.

Lemma header_length m : Forall number32 (fields m) -> length (header_part m) = 110%nat.
Proof. intros Hf. unfold header_part. by rewrite length_app, magic_length, fields_length. Qed.

Lemma parse_field_ok m i v :
  Forall number32 (fields m) -> fields m !! i = Some v -> parse_field (header_part m) i = Ok v.
Proof.
  intros Hf Hi. unfold parse_field. rewrite header_length by done.
  assert (Hi13 : (i < 13)%nat) by (by apply lookup_lt_Some in Hi). rewrite (proj2 (Z.ltb_ge _ _)) by lia.
  cbn [BUG_ON]. rewrite bind_Ok. unfold header_part.
  replace (6 + 8 * i)%nat with (length (magic (m_csum m)) + 8 * i)%nat by (by rewrite magic_length).
  rewrite drop_app_add, <- (app_nil_r (concat _)), (take_field _ i v) by done.
  rewrite strtoul_hex08; [done|]. by eapply Forall_lookup_1.
Qed.

Lemma parse_header_ok m : Forall number32 (fields m) -> parse_header (header_part m) = Ok (header_of m).
Proof.
  intros Hf. unfold parse_header. pose proof (fun i v => parse_field_ok m i v Hf) as P.
  rewrite (P 0%nat (m_ino m)) by done. rewrite (P 1%nat (m_mode m)) by done. rewrite (P 2%nat (m_uid m)) by done.
  rewrite (P 3%nat (m_gid m)) by done. rewrite (P 4%nat (m_nlink m)) by done. rewrite (P 5%nat (m_mtime m)) by done.
  rewrite (P 6%nat (zlen (m_body m))) by done. rewrite (P 7%nat (m_major m)) by done.
  rewrite (P 8%nat (m_minor m)) by done. rewrite (P 9%nat (m_rmajor m)) by done.
  rewrite (P 10%nat (m_rminor m)) by done. rewrite (P 11%nat (zlen (m_name m) + 1)) by done.
  rewrite (P 12%nat (m_check m)) by done. done.
Qed.

(** ** Padding *)

Lemma pad4_lt n : (pad4 n < 4)%nat.
Proof. unfold pad4. pose proof (Z.mod_pos_bound (- n) 4). lia. Qed.

Lemma pad4_aligned n : (n + Z.of_nat (pad4 n)) mod 4 = 0.
Proof.
  unfold pad4. pose proof (Z.mod_pos_bound (- n) 4). rewrite Z2Nat.id by lia.
  rewrite Zplus_mod_idemp_r. by replace (n + - n) with 0 by lia.
Qed.

Lemma pad4_mod a b : a mod 4 = b mod 4 -> pad4 a = pad4 b.
Proof.
  intros E. unfold pad4. f_equal. rewrite <- !(Z.sub_0_l _). rewrite Zminus_mod, E, <- Zminus_mod. done.
Qed.

(** Masks of the last two bits. *)
Lemma land_3 x : Z.land x 3 = x mod 4.
Proof. change 3 with (Z.ones 2). by rewrite Z.land_ones. Qed.

Lemma land_m4 x : Z.land x (- 4) = x - x mod 4.
Proof. change (- 4) with (Z.lnot (Z.ones 2)). by rewrite land_lnot_ones. Qed.

(** [N_ALIGN] is the length of the padded name. *)
Lemma N_ALIGN_ok m : 0 < zlen (m_name m) + 1 <= PATH_MAX -> N_ALIGN (zlen (m_name m) + 1) = zlen (name_part m).
Proof.
  unfold N_ALIGN, name_part, zlen, zeros, PATH_MAX. intros Hl. rewrite !length_app, length_replicate. cbn [length].
  set (n := Z.of_nat (length (m_name m))) in *. rewrite (u32_small (n + 1 + 1)) by lia.
  replace (Z.land (n + 1 + 1) (U32_MAX - 3)) with (round_down (n + 1 + 1) 4) by done.
  rewrite (round_down_spec _ 4 2) by (unfold is_pow2; lia).
  pose proof (Z.mod_pos_bound (n + 1 + 1) 4). rewrite u32_small by lia.
  pose proof (pad4_aligned (110 + n + 1)). pose proof (pad4_lt (110 + n + 1)).
  rewrite !Nat2Z.inj_add. fold n. Z.to_euclidean_division_equations. lia.
Qed.
