(* ===== verification/InitramfsSafety.v ===== *)
(** * init/initramfs.c: the reader on arbitrary input

    Whatever bytes the archive holds, the reader stays inside its buffers and
    its loops end. [ok] is the invariant of the machine, with a case for each
    state; every action keeps it, given that names are terminated. The first
    part holds what is assumed of the file system and lemmas that the proof
    for well-formed archives shares. *)

From Stdlib Require Import String.
From S2P Require Import Prelude LibMath Ctype Kstrtox Initramfs GenInitCpio CpioFormat.

Local Open Scope Z_scope.

(** ** What is assumed of the file system

    For the safety of the reader: a write never takes more than it is given,
    and one that has been interrupted is not interrupted again when it is
    repeated at once. It may fail, or take nothing. *)

Definition interrupted (rv : Z) : Prop := rv = - EINTR \/ rv = - EAGAIN.

Class VfsWrites (F file : Type) `{Vfs F file} := {
  kernel_write_count f h p pos : p <> [] -> (kernel_write f h p pos).2 <= zlen p;
  kernel_write_again f h p pos :
    p <> [] -> interrupted (kernel_write f h p pos).2 -> ~ interrupted (kernel_write (kernel_write f h p pos).1 h p pos).2
}.

(** For what a whole archive does: writing makes progress, and the data may be
    written in any portions. *)

Class VfsOk (F file : Type) `{Vfs F file} := {
  store : F -> file -> list Z -> Z -> F;
  store_nil f h pos : store f h [] pos = f;
  store_app f h a b pos : store f h (a ++ b) pos = store (store f h a pos) h b (pos + zlen a);
  kernel_write_ok f h p pos :
    p <> [] -> exists n, 0 < n <= zlen p /\ kernel_write f h p pos = (store f h (take (Z.to_nat n) p) pos, n)
}.

#[export] Instance progress_writes {F file : Type} `{VfsOk F file} : VfsWrites F file.
Proof.
  split; intros f h p pos Hp; destruct (kernel_write_ok f h p pos Hp) as (n & Hn & ->); cbn [fst snd]; [lia|].
  unfold interrupted, EINTR, EAGAIN. lia.
Qed.

Section writing.
Context {F file : Type} `{VfsOk F file}.

Implicit Types st : machine F file.

(** ** Writing *)

Lemma csum_add_app c a b : csum_add (csum_add c a) b = csum_add c (a ++ b).
Proof.
  unfold csum_add, u32. rewrite Zplus_mod_idemp_l. f_equal. rewrite fold_right_app.
  enough (forall x, fold_right Z.add x a = fold_right Z.add 0 a + x) as E by (rewrite (E (fold_right Z.add 0 b)); lia).
  intros x. induction a as [|y a IH]; cbn; lia.
Qed.

(** The machine after [p] has been written. *)
Definition wrote (f : file) (p : list Z) (st : machine F file) : machine F file :=
  let st' := set_fs (store (fs st) f p (wfile_pos st)) (set_wfile_pos (wfile_pos st + zlen p) st) in
  if csum_present st && negb (bool_decide (p = [])) then set_io_csum (csum_add (io_csum st) p) st' else st'.

Lemma wrote_nil f st : wrote f [] st = st.
Proof. unfold wrote. rewrite bool_decide_true, andb_false_r, store_nil, Z.add_0_r by done. by destruct st. Qed.

Lemma wrote_app f a b st : a <> [] -> wrote f b (wrote f a st) = wrote f (a ++ b) st.
Proof.
  intros Ha. destruct b as [|c b]; [by rewrite wrote_nil, app_nil_r|].
  unfold wrote. rewrite (bool_decide_false (a = [])), (bool_decide_false (a ++ _ = [])) by (by destruct a).
  rewrite (bool_decide_false (_ :: _ = [])) by done. cbn [negb]. rewrite !andb_true_r.
  assert (E : zlen (a ++ c :: b) = zlen a + zlen (c :: b)) by (unfold zlen; rewrite length_app; lia).
  rewrite store_app, E, Z.add_assoc. destruct st as [? [] ? ? ? ? ? ? ? ? ? ? ? ? ? ? ?]; cbn; [|done].
  by rewrite csum_add_app.
Qed.

Lemma xwrite_loop_ok fuel f p out st :
  (length p < fuel)%nat -> 0 <= out -> xwrite_loop fuel f p out st = Ok (out + zlen p, wrote f p st).
Proof.
  revert p out st. induction fuel as [|fuel IH]; intros p out st Hf Ho; [lia|]. cbn [xwrite_loop].
  destruct (decide (p = [])) as [->|Hp].
  { rewrite bool_decide_true, wrote_nil by done. f_equal. f_equal. unfold zlen. cbn. lia. }
  rewrite bool_decide_false by done. destruct (kernel_write_ok (fs st) f p (wfile_pos st) Hp) as (n & Hn & ->).
  cbn beta iota zeta. rewrite (proj2 (Z.ltb_ge n 0)), (proj2 (Z.eqb_neq n 0)) by lia.
  set (a := take (Z.to_nat n) p). assert (Ha : a <> []).
  { unfold a. intros E%(f_equal length). rewrite length_take in E. unfold zlen in Hn. cbn in E. lia. }
  assert (Hza : zlen a = n) by (unfold a, zlen; rewrite length_take; unfold zlen in Hn; lia).
  assert (E : (if csum_present (set_wfile_pos (wfile_pos (set_fs (store (fs st) f a (wfile_pos st)) st) + n)
                 (set_fs (store (fs st) f a (wfile_pos st)) st))
      then set_io_csum (csum_add (io_csum st) a) (set_wfile_pos (wfile_pos st + n) (set_fs (store (fs st) f a (wfile_pos st)) st))
      else set_wfile_pos (wfile_pos st + n) (set_fs (store (fs st) f a (wfile_pos st)) st)) = wrote f a st).
  { unfold wrote. rewrite bool_decide_false, andb_true_r, Hza by done. by destruct st as [? [] ? ? ? ? ? ? ? ? ? ? ? ? ? ? ?]. }
  cbn in E |- *. rewrite E. rewrite IH; [|rewrite length_drop; unfold zlen in Hn; lia|lia].
  rewrite wrote_app by done. unfold a. rewrite take_drop. do 2 f_equal. unfold zlen in *. rewrite length_drop. lia.
Qed.

Lemma xwrite_ok f p st : xwrite f p st = Ok (zlen p, wrote f p st).
Proof. apply (xwrite_loop_ok _ f p 0 st); lia. Qed.

Lemma wrote_io f b st :
  csum_present st = true -> number32 (io_csum st) -> io_csum (wrote f b st) = csum_add (io_csum st) b.
Proof.
  intros Hc Hn. unfold wrote. rewrite Hc. destruct b as [|c b]; cbn; [|done].
  unfold csum_add. cbn. by rewrite Z.add_0_r, u32_small.
Qed.

(** Writing changes the file, its position and the checksum only. *)
Lemma wrote_rest f b st :
  message (wrote f b st) = message st /\ head (wrote f b st) = head st /\ hdr (wrote f b st) = hdr st /\
  csum_present (wrote f b st) = csum_present st /\ next_state (wrote f b st) = next_state st /\
  state (wrote f b st) = state st /\ victim (wrote f b st) = victim st /\ this_header (wrote f b st) = this_header st /\
  next_header (wrote f b st) = next_header st /\ wfile (wrote f b st) = wfile st /\
  fs (wrote f b st) = store (fs st) f b (wfile_pos st) /\ wfile_pos (wrote f b st) = wfile_pos st + zlen b.
Proof. unfold wrote. by case_cmp. Qed.

End writing.

Section safety.
Context {F file : Type} `{VfsWrites F file} `{Overrun}.

Implicit Types st : machine F file.

(** Whatever the file system makes of a write, [xwrite] returns, and changes
    nothing but the file, its position and the checksum. *)
Definition written (f : F) (pos csum : Z) st : machine F file := set_io_csum csum (set_wfile_pos pos (set_fs f st)).

Lemma xwrite_loop_any fuel f p out st :
  (2 * length p < fuel)%nat \/
    ((2 * length p <= fuel)%nat /\ p <> [] /\ ~ interrupted (kernel_write (fs st) f p (wfile_pos st)).2) ->
  exists r f' pos csum, xwrite_loop fuel f p out st = Ok (r, written f' pos csum st).
Proof.
  revert p out st. induction fuel as [|fuel IH]; intros p out st Hf.
  { destruct Hf as [|(Hl & Hp & _)]; [lia|]. destruct p; [done|cbn in Hl; lia]. }
  cbn [xwrite_loop]. destruct (decide (p = [])) as [->|Hp].
  { rewrite bool_decide_true by done. exists out, (fs st), (wfile_pos st), (io_csum st). by destruct st. }
  rewrite bool_decide_false by done. pose proof (kernel_write_count (fs st) f p (wfile_pos st) Hp) as Hn.
  pose proof (kernel_write_again (fs st) f p (wfile_pos st) Hp) as Ha.
  destruct (kernel_write (fs st) f p (wfile_pos st)) as [f' rv]. cbn [fst snd] in Hn, Ha, Hf.
  assert (Hret : forall r : Z, exists r0 f0 pos csum, Ok (r, set_fs f' st) = Ok (r0, written f0 pos csum st)).
  { intros r. exists r, f', (wfile_pos st), (io_csum st). by destruct st. }
  destruct (Z.ltb_spec rv 0).
  - destruct ((rv =? - EINTR) || (rv =? - EAGAIN)) eqn:Ei; [|apply Hret].
    assert (Hi : interrupted rv) by (unfold interrupted; lia).
    destruct (IH p out (set_fs f' st)) as (r & f0 & pos & csum & ->); [|by eexists _, _, _, _].
    right. cbn. destruct Hf as [Hf|(_ & _ & Hf)]; [|done]. csplit; [lia|done|by apply Ha].
  - destruct (Z.eqb_spec rv 0); [apply Hret|]. cbn zeta.
    set (st1 := if _ : bool then set_io_csum _ _ else _).
    assert (E1 : exists csum, st1 = written f' (wfile_pos st + rv) csum st).
    { unfold st1. cbn [csum_present set_wfile_pos set_fs]. destruct (csum_present st); [by eexists|].
      exists (io_csum st). by destruct st. }
    destruct E1 as [c ->]. destruct (IH (drop (Z.to_nat rv) p) (out + rv) (written f' (wfile_pos st + rv) c st))
      as (r & f0 & pos & csum & ->); [|by eexists _, _, _, _].
    left. rewrite length_drop. destruct p; [done|]. cbn [length] in *. lia.
Qed.

Lemma xwrite_any f p st : exists r f' pos csum, xwrite f p st = Ok (r, written f' pos csum st).
Proof. apply xwrite_loop_any. left. lia. Qed.

(** ** Taking bytes *)

Lemma split_at (a v more part after : list Z) n :
  a ++ v ++ more = part ++ after -> (length a + n = length part)%nat -> (n <= length v)%nat ->
  a ++ take n v = part /\ drop n v ++ more = after.
Proof.
  intros E Hl Hn. rewrite <- (take_drop n v), <- app_assoc, app_assoc in E. apply app_inj_1 in E; [done|].
  rewrite length_app, length_take. lia.
Qed.

Lemma drop_eaten n (v : list Z) : exists eaten, v = eaten ++ drop n v.
Proof. exists (take n v). by rewrite take_drop. Qed.

Lemma zlen_app a b : zlen (a ++ b) = zlen a + zlen b.
Proof. unfold zlen. rewrite length_app. lia. Qed.

Lemma zlen_zeros n : zlen (zeros n) = Z.of_nat n.
Proof. unfold zlen, zeros. by rewrite length_replicate. Qed.

Lemma to_nat_zlen a : Z.to_nat (zlen a) = length a.
Proof. apply Nat2Z.id. Qed.

Lemma zlen_nonneg a : 0 <= zlen a.
Proof. unfold zlen. lia. Qed.

Lemma eat_ok n st :
  n <= byte_count st ->
  eat n st = Ok (set_this_header (this_header st + n) (set_victim (drop (Z.to_nat n) (victim st)) st)).
Proof. intros Hn. unfold eat. by rewrite (proj2 (Z.ltb_ge _ _)). Qed.

Lemma c_string_ok s t : chars s -> c_string (s ++ 0 :: t) = Ok s.
Proof.
  intros Hs. unfold c_string. rewrite bool_decide_true by (apply elem_of_app; right; by left).
  by rewrite until_nul_chars.
Qed.

Definition rank (s : cpio_state) : nat :=
  match s with
  | Reset => 0 | SkipIt => 1 | Collect => 2 | Start => 3 | CopyFile => 3 | GotHeader => 4 | GotName => 4 | GotSymlink => 4
  end.

Definition measure (st : machine F file) : nat := 8 * length (victim st) + rank (state st).

Lemma rank_le s : (rank s <= 4)%nat.
Proof. destruct s; cbn; lia. Qed.

(** ** Numbers in any eight bytes *)

Lemma until_nul_bytes s : Forall byte s -> Forall byte (until_nul s) /\ (length (until_nul s) <= length s)%nat.
Proof.
  induction s as [|c s IH]; intros Hs; [done|]. apply Forall_cons in Hs as [Hc Hs]. cbn.
  destruct (IH Hs) as [Hb Hl]. destruct (c =? 0); cbn; [split; [constructor|lia]|]. split; [by constructor|lia].
Qed.

Lemma strtoul_total s base :
  2 <= base <= 16 -> Forall byte s -> Z.of_nat (length s) < 2 ^ 30 -> exists v n, simple_strtoul s base = Ok (v, n) /\ number32 v.
Proof.
  intros Hb Hs Hl. unfold simple_strtoul, simple_strtoull, simple_strntoull, _parse_integer_fixup_radix.
  rewrite (proj2 (Z.eqb_neq base 0)) by lia.
  assert (Hgo : forall k, (k <= 2)%nat -> exists rv res,
    parse_loop (drop k s) base (INT_MAX - Z.of_nat (length s - length (drop k s))) 0 0 = Ok (rv, res)).
  { intros k Hk. pose proof (parse_loop_ok base (drop k s) 0 0 (INT_MAX - Z.of_nat (length s - length (drop k s)))) as P.
    change (u64 0) with 0 in P. change (flagged 0 0) with 0 in P. unfold INT_MAX in *. rewrite length_drop in *.
    eexists _, _. apply P; try lia. by apply Forall_drop. }
  set (pre := (base =? 16) && _ && _). unfold _parse_integer_limit, INT_MAX in *. destruct pre.
  - destruct (Hgo 2%nat ltac:(lia)) as (rv & res & E). rewrite length_drop in *.
    rewrite (proj2 (Z.ltb_lt _ _)) by lia. rewrite E, !bind_Ok. eexists _, _. split; [reflexivity|apply u32_range].
  - destruct (Hgo 0%nat ltac:(lia)) as (rv & res & E). rewrite drop_0, Nat.sub_diag in *.
    rewrite (proj2 (Z.ltb_lt _ _)) by lia. rewrite E, !bind_Ok. eexists _, _. split; [reflexivity|apply u32_range].
Qed.

Lemma parse_field_total s i :
  Forall byte s -> zlen s = 110 -> (i < 13)%nat -> exists v, parse_field s i = Ok v /\ number32 v.
Proof.
  intros Hs Hz Hi. unfold zlen in Hz. unfold parse_field. rewrite (proj2 (Z.ltb_ge _ _)) by lia. cbn [BUG_ON]. rewrite bind_Ok. set (t := take 8 (drop (6 + 8 * i) s)).
  assert (Ht : Forall byte t) by (by apply Forall_take, Forall_drop).
  destruct (until_nul_bytes t Ht) as [Hb Hl].
  destruct (strtoul_total (until_nul t) 16) as (v & n & -> & Hv); [lia|done| |by exists v].
  assert (length t <= 8)%nat by (unfold t; rewrite length_take; lia). lia.
Qed.

Lemma parse_header_total s :
  Forall byte s -> zlen s = 110 -> exists h, parse_header s = Ok h /\ number32 (body_len h) /\ number32 (name_len h).
Proof.
  intros Hs Hz. unfold parse_header.
  assert (P : forall i, bool_decide (i < 13)%nat = true -> exists v, parse_field s i = Ok v /\ number32 v).
  { intros i Hi%bool_decide_eq_true_1. by apply parse_field_total. }
  destruct (P 0%nat eq_refl) as (v0 & -> & _), (P 1%nat eq_refl) as (v1 & -> & _), (P 2%nat eq_refl) as (v2 & -> & _),
    (P 3%nat eq_refl) as (v3 & -> & _), (P 4%nat eq_refl) as (v4 & -> & _), (P 5%nat eq_refl) as (v5 & -> & _),
    (P 6%nat eq_refl) as (v6 & -> & H6), (P 7%nat eq_refl) as (v7 & -> & _), (P 8%nat eq_refl) as (v8 & -> & _),
    (P 9%nat eq_refl) as (v9 & -> & _), (P 10%nat eq_refl) as (v10 & -> & _), (P 11%nat eq_refl) as (v11 & -> & H11),
    (P 12%nat eq_refl) as (v12 & -> & _). clear P.
  rewrite !bind_Ok. eexists. split; [reflexivity|]. by split.
Qed.

(** ** The invariant *)

(** Where [SkipIt] goes; [GotHeader] and [Start] are left over from the
    header before. *)
Definition resting (s : cpio_state) : Prop := s = Start \/ s = GotHeader \/ s = Reset.

Definition small_name (h : header) : Prop := 0 < name_len h <= PATH_MAX /\ 0 <= body_len h.

(** What is being collected fits its buffer. *)
Definition collect_ok st : Prop :=
  0 < remains st /\
  match next_state st with
  | GotHeader => collected_in st = header_buf /\ zlen (collected st) + remains st = 110
  | GotName =>
      collected_in st = name_buf /\ small_name (hdr st) /\
      zlen (collected st) + remains st = N_ALIGN (name_len (hdr st)) /\
      this_header st + remains st + body_len (hdr st) <= next_header st
  | GotSymlink =>
      collected_in st = symlink_buf /\ small_name (hdr st) /\ body_len (hdr st) <= PATH_MAX /\
      zlen (collected st) + remains st = N_ALIGN (name_len (hdr st)) + body_len (hdr st) /\
      this_header st + remains st <= next_header st
  | _ => False
  end.

Definition ok st : Prop :=
  Forall byte (collected st) /\
  match state st with
  | Start | Reset => resting (next_state st)
  | GotHeader => resting (next_state st) /\ zlen (collected st) = 110
  | Collect => collect_ok st
  | GotName =>
      0 <= body_len (hdr st) /\ this_header st + body_len (hdr st) <= next_header st /\
      zlen (collected st) <= N_ALIGN PATH_MAX
  | GotSymlink =>
      collected_in st = symlink_buf /\ small_name (hdr st) /\ body_len (hdr st) <= PATH_MAX /\
      zlen (collected st) = N_ALIGN (name_len (hdr st)) + body_len (hdr st) /\ this_header st <= next_header st
  | CopyFile =>
      (exists w, wfile st = Some w) /\ next_state st = Reset /\ 0 <= body_len (hdr st) /\
      this_header st + body_len (hdr st) <= next_header st
  | SkipIt =>
      resting (next_state st) /\ this_header st <= next_header st /\
      (next_state st <> Reset -> this_header st < next_header st) /\
      (next_state st = GotHeader -> zlen (collected st) = 110)
  end.

(** A piece of input: bytes, and no more than a 32-bit count. *)
Definition fed st : Prop := Forall byte (victim st) /\ zlen (victim st) < 2 ^ 32.

Lemma N_ALIGN_range n : 0 < n <= PATH_MAX -> 2 <= N_ALIGN n <= 4098.
Proof.
  unfold N_ALIGN, PATH_MAX. intros Hn. rewrite (u32_small (n + 1)) by lia.
  replace (Z.land (n + 1) (U32_MAX - 3)) with (round_down (n + 1) 4) by done.
  rewrite (round_down_spec _ 4 2) by (unfold is_pow2; lia). pose proof (Z.mod_pos_bound (n + 1) 4).
  pose proof (Z.mod_le (n + 1) 4). rewrite u32_small by lia. Z.to_euclidean_division_equations. lia.
Qed.

Lemma N_ALIGN_pos n : 0 <= n -> 2 <= N_ALIGN n.
Proof.
  intros Hn. unfold N_ALIGN. set (x := u32 (n + 1)). pose proof (u32_range (n + 1)) as Hx. fold x in Hx.
  replace (Z.land x (U32_MAX - 3)) with (round_down x 4) by done. destruct (round_down_max x 4 2) as ([q Hq] & Hr & _);
    [unfold is_pow2; lia|done|]. rewrite u32_small by lia. lia.
Qed.

(** ** The actions *)

Definition shorter st st' : Prop := (length (victim st') < length (victim st))%nat.

(** An error is not forgotten; the first two states take input as long as
    there is any, and [Reset] takes zeros. *)
Definition eager st stop st' : Prop :=
  (message st <> None -> message st' <> None) /\
  match state st with
  | Start => stop = false /\ (state st' = Collect /\ victim st' = victim st \/ shorter st st')
  | Collect => victim st <> [] -> shorter st st'
  | Reset => stop = true /\ (hd 1 (victim st) = 0 -> shorter st st')
  | _ => True
  end.

Definition steps st : Prop :=
  exists stop st', actions (state st) st = Ok (stop, st') /\ ok st' /\ (exists eaten, victim st = eaten ++ victim st') /\
    (if stop : bool then victim st' = [] \/ state st' = Reset \/ message st' <> None else (measure st' < measure st)%nat) /\
    eager st stop st'.

Lemma not_eager st stop st' :
  state st <> Start -> state st <> Collect -> state st <> Reset -> (message st <> None -> message st' <> None) ->
  eager st stop st'.
Proof. unfold eager. by destruct (state st). Qed.

(** [read_into] takes the bytes or starts to collect them. *)
Lemma read_into_cases buf size next st :
  0 < size ->
  (byte_count st < size /\ read_into buf size next st = Ok (start_collect buf size next st)) \/
  (size <= byte_count st /\ read_into buf size next st =
     Ok (set_state next (set_this_header (this_header st + size) (set_victim (drop (Z.to_nat size) (victim st))
       (set_collected (take (Z.to_nat size) (victim st)) (set_collected_in input st)))))).
Proof.
  intros Hs. unfold read_into. rewrite Z.geb_leb. destruct (Z.leb_spec size (byte_count st)) as [Hle|Hgt]; [right|by left].
  split; [done|]. rewrite eat_ok by done. by rewrite bind_Ok.
Qed.

Lemma steps_start st : state st = Start -> ok st -> fed st -> steps st.
Proof.
  intros Es [Hb Hok] [Hv _]. rewrite Es in Hok. unfold steps. rewrite Es. cbn [actions]. unfold do_start.
  destruct (read_into_cases header_buf 110 GotHeader st) as [(Hlt & ->)|(Hge & ->)]; [lia|..]; rewrite bind_Ok;
    eexists _, _; (split; [reflexivity|]); unfold byte_count in *.
  - csplit; [|by exists []|unfold measure; cbn; rewrite Es; cbn; lia|unfold eager; rewrite Es; split; [done|]; split; [done|by left]].
    split; [constructor|]. unfold collect_ok. by csplit; cbn.
  - csplit; [|apply drop_eaten|unfold measure; cbn; rewrite Es, length_drop; cbn; lia|].
    + split; [by apply Forall_take|]. cbn. split; [done|]. unfold zlen. rewrite length_take. lia.
    + unfold eager, shorter. rewrite Es. split; [done|]. split; [done|right]. cbn. rewrite length_drop. lia.
Qed.

Lemma collect_ok_fits st : collect_ok st -> zlen (collected st) + remains st <= capacity (collected_in st).
Proof.
  unfold collect_ok, small_name. intros [_ Hc]. change (capacity symlink_buf) with 8195 in *.
  destruct (next_state st); try done; destruct_and! Hc; match goal with E : collected_in st = _ |- _ => rewrite E end; cbn [capacity]; try lia.
  all: pose proof (N_ALIGN_range (name_len (hdr st))); change (N_ALIGN PATH_MAX) with 4098; unfold PATH_MAX in *; lia.
Qed.

Lemma steps_collect st : state st = Collect -> ok st -> fed st -> steps st.
Proof.
  intros Es [Hb Hok] [Hv _]. rewrite Es in Hok. pose proof (collect_ok_fits st Hok) as Hfit.
  unfold steps. rewrite Es. cbn [actions]. unfold do_collect. destruct Hok as [Hr Hok].
  destruct (Z.ltb_spec (byte_count st) (remains st)) as [Hlt|Hge].
  - unfold zlen in Hfit. rewrite (proj2 (Z.ltb_ge (capacity _) _)) by lia. cbn [BUG_ON]. rewrite bind_Ok.
    rewrite eat_ok, bind_Ok by done. unfold byte_count in *. rewrite Nat2Z.id, firstn_all. machine. rewrite drop_all.
    rewrite (proj2 (Z.eqb_neq _ 0)) by lia. eexists _, _. split; [reflexivity|].
    csplit; [|exists (victim st); cbn; by rewrite app_nil_r|by left|].
    + split; [by apply Forall_app|]. cbn. rewrite Es. split; [cbn; lia|]. cbn. unfold zlen. rewrite length_app, Nat2Z.inj_add.
      unfold zlen in Hok. destruct (next_state st); try done; destruct_and! Hok; csplit; try done; lia.
    + unfold eager, shorter. rewrite Es. split; [done|]. cbn. destruct (victim st); cbn; [done|lia].
  - unfold zlen in Hfit. rewrite (proj2 (Z.ltb_ge (capacity _) _)) by lia. cbn [BUG_ON]. rewrite bind_Ok.
    rewrite eat_ok, bind_Ok by done. unfold byte_count in *. machine. rewrite Z.sub_diag.
    eexists _, _. split; [reflexivity|]. csplit; [|apply drop_eaten| |].
    + split; [by apply Forall_app; split; [|apply Forall_take]|]. cbn.
      assert (Hz : zlen (collected st ++ take (Z.to_nat (remains st)) (victim st)) = zlen (collected st) + remains st).
      { unfold zlen. rewrite length_app, length_take. lia. }
      pose proof (N_ALIGN_range (name_len (hdr st))) as HN. change (N_ALIGN PATH_MAX) with 4098 in *.
      unfold small_name in Hok.
      destruct (next_state st) eqn:En; try done; destruct_and! Hok; rewrite ?Hz; unfold resting, small_name; cbn; csplit;
        try done; try lia; rewrite ?En; auto.
    + unfold measure. cbn. rewrite Es, length_drop. pose proof (rank_le (next_state st)). cbn. lia.
    + unfold eager, shorter. rewrite Es. split; [done|]. cbn. rewrite length_drop. destruct (victim st); cbn in *; [done|lia].
Qed.

Lemma steps_skip st : state st = SkipIt -> ok st -> fed st -> steps st.
Proof.
  intros Es [Hb Hok] [Hv Hl]. rewrite Es in Hok. destruct Hok as (Hr & Hle & Hlt & Hc).
  unfold steps. rewrite Es. cbn [actions]. unfold do_skip.
  destruct (Z.ltb_spec (this_header st + byte_count st) (next_header st)) as [Hs|Hs].
  - rewrite eat_ok, bind_Ok by lia. unfold byte_count in *. rewrite Nat2Z.id, drop_all. eexists _, _. split; [reflexivity|].
    csplit; [|exists (victim st); cbn; by rewrite app_nil_r|by left|apply not_eager; [by rewrite Es..|done]].
    split; [done|]. cbn. rewrite Es. csplit; [done|lia|lia|done].
  - unfold byte_count in *. unfold zlen in Hl. rewrite u32_small by lia. rewrite eat_ok, bind_Ok by (unfold byte_count; lia).
    eexists _, _. split; [reflexivity|]. csplit; [|apply drop_eaten| |apply not_eager; [by rewrite Es..|done]].
    + split; [done|]. cbn. unfold resting. destruct Hr as [E|[E|E]]; rewrite E; auto.
    + unfold measure. cbn. rewrite Es, length_drop. destruct (decide (next_state st = Reset)) as [->|Hne]; cbn; [lia|].
      specialize (Hlt Hne). pose proof (rank_le (next_state st)). lia.
Qed.

Lemma eat_zeros_split v t : exists n, v = zeros n ++ (eat_zeros v t).1 /\ (hd 1 v = 0 -> (0 < n)%nat).
Proof.
  revert t. induction v as [|c v IH]; intros t; [by exists 0%nat|]. cbn. destruct (Z.eqb_spec c 0) as [->|Hc].
  - destruct (IH (t + 1)) as (n & E & _). exists (S n). change (zeros (S n)) with (0 :: zeros n). cbn [app].
    split; [by f_equal|lia].
  - by exists 0%nat.
Qed.

Lemma steps_reset st : state st = Reset -> ok st -> fed st -> steps st.
Proof.
  intros Es [Hb Hok] _. rewrite Es in Hok. unfold steps. rewrite Es. cbn [actions]. unfold do_reset.
  destruct (eat_zeros_split (victim st) (this_header st)) as (n & E & Hn). destruct (eat_zeros _ _) as [v t]. cbn [fst] in E.
  set (s0 := set_this_header t (set_victim v st)).
  assert (Hst : forall s1, s1 = s0 \/ (exists x, s1 = set_message (Some x) s0) -> exists stop st', Ok (true, s1) = Ok (stop, st') /\
    ok st' /\ (exists eaten, victim st = eaten ++ victim st') /\
    (if stop : bool then victim st' = [] \/ state st' = Reset \/ message st' <> None else (measure st' < measure st)%nat) /\
    eager st stop st').
  { intros s1 Hs1. exists true, s1. split; [done|].
    assert (state s1 = Reset /\ collected s1 = collected st /\ next_state s1 = next_state st /\ victim s1 = v /\
      (message st <> None -> message s1 <> None)) as (E1 & E2 & E3 & E4 & E5) by (by destruct Hs1 as [->|[x ->]]).
    csplit; [unfold ok; by rewrite E1, E2, E3|exists (zeros n); by rewrite E4|auto|].
    unfold eager, shorter. rewrite Es, E4, E, length_app. csplit; [done|done|]. intros Hh. rewrite <- E in Hh.
    specialize (Hn Hh). unfold zeros. rewrite length_replicate. lia. }
  destruct (_ && _); apply Hst; [|by left]. unfold error. destruct (message s0); [by left|right; by eexists].
Qed.

Lemma error_cases (c : bool) x st :
  (if c then error x st else st) = st \/ (if c then error x st else st) = set_message (Some x) st.
Proof. destruct c; [|by left]. unfold error. destruct (message st); auto. Qed.

(** What [do_copy] does after a write leaves the rest of the machine alone. *)
Definition same_rest st st' : Prop :=
  state st' = state st /\ next_state st' = next_state st /\ victim st' = victim st /\ this_header st' = this_header st /\
  next_header st' = next_header st /\ collected st' = collected st /\ wfile st' = wfile st /\ hdr st' = hdr st /\
  (message st <> None -> message st' <> None).

Lemma same_rest_error (c : bool) x st st' : same_rest st st' -> same_rest st (if c then error x st' else st').
Proof. intros Hs. destruct (error_cases c x st') as [-> | ->]; unfold same_rest in *; cbn; [done|]. by destruct_and! Hs. Qed.

Lemma steps_copy st : state st = CopyFile -> ok st -> fed st -> steps st.
Proof.
  intros Es [Hb Hok] [Hv Hl]. rewrite Es in Hok. destruct Hok as ([w Ew] & Enx & Hbl & Hle).
  unfold steps. rewrite Es. cbn [actions]. unfold do_copy. rewrite Ew, Z.geb_leb.
  destruct (Z.leb_spec (body_len (hdr st)) (byte_count st)) as [Hge|Hlt].
  - destruct (xwrite_any w (take (Z.to_nat (body_len (hdr st))) (victim st)) st) as (r & f' & pos & csum & ->). rewrite bind_Ok.
    cbn beta iota zeta. set (s1 := if _ : bool then error "write error" _ else _).
    set (s3 := if _ : bool then error "bad data checksum" _ else _).
    assert (E3 : same_rest st s3).
    { unfold s3. apply same_rest_error. assert (E1 : same_rest st s1) by (unfold s1; by apply same_rest_error). exact E1. }
    clearbody s3. destruct E3 as (E1 & E2 & E3 & E4 & E5 & E6 & E7 & E8 & E9). rewrite eat_ok by (unfold byte_count; by rewrite E3).
    rewrite bind_Ok. eexists _, _. split; [reflexivity|]. csplit; [| | |apply not_eager; [by rewrite Es..|done]].
    + split; [cbn; by rewrite E6|]. cbn. rewrite E2, E4, E5, Enx. unfold resting. csplit; [auto|lia|done|done].
    + cbn. rewrite E3. apply drop_eaten.
    + unfold measure. cbn. rewrite Es, E3, length_drop. cbn. lia.
  - destruct (xwrite_any w (victim st) st) as (r & f' & pos & csum & ->). rewrite bind_Ok. cbn beta iota zeta.
    set (s1 := if _ : bool then error "write error" _ else _).
    assert (E1 : same_rest st s1) by (unfold s1; by apply same_rest_error).
    clearbody s1. destruct E1 as (E1 & E2 & E3 & E4 & E5 & E6 & E7 & E8 & E9).
    rewrite eat_ok by (unfold byte_count, set_body_len; cbn; lia). rewrite bind_Ok. eexists _, _. split; [reflexivity|].
    unfold byte_count in *. unfold set_body_len. cbn [victim set_hdr set_this_header set_victim]. rewrite E3, Nat2Z.id, drop_all.
    csplit; [|exists (victim st); by rewrite app_nil_r|by left|apply not_eager; [by rewrite Es..|done]].
    split; [cbn; by rewrite E6|]. cbn. rewrite E1, Es. cbn.
    rewrite E2, E4, E5, E7. csplit; [by exists w|done|lia|lia].
Qed.

Lemma steps_symlink st : state st = GotSymlink -> ok st -> fed st -> steps st.
Proof.
  intros Es [Hb Hok] _. rewrite Es in Hok. destruct Hok as (Hin & Hn & Hbl & Hl & Hle).
  unfold small_name in Hn. pose proof (N_ALIGN_range (name_len (hdr st)) ltac:(lia)) as HN.
  unfold steps. rewrite Es. cbn [actions]. unfold do_symlink. unfold PATH_MAX in *. rewrite u32_small, Hin by lia.
  change (capacity symlink_buf) with 8195. rewrite (proj2 (Z.leb_gt _ _)) by lia. cbn [BUG_ON]. rewrite bind_Ok.
  rewrite <- Hl, to_nat_zlen, insert_app_r_alt, Nat.sub_diag by lia. cbn [insert list_insert].
  assert (Hc : forall s, 0 ∈ s -> exists p, c_string s = Ok p).
  { intros s Hs. unfold c_string. rewrite bool_decide_true by done. by eexists. }
  destruct (Hc (collected st ++ [0])) as [p Hp]; [apply elem_of_app; right; by left|].
  destruct (Hc (drop (Z.to_nat (N_ALIGN (name_len (hdr st)))) (collected st ++ [0]))) as [t Ht].
  { rewrite drop_app_le by (unfold zlen in Hl; lia). apply elem_of_app. right. by left. }
  rewrite Hp, bind_Ok, Ht, bind_Ok. eexists _, _. split; [reflexivity|].
  csplit; [|by exists []|unfold measure; cbn; rewrite Es; cbn; lia|apply not_eager; [by rewrite Es..|done]].
  split; [apply Forall_app; split; [done|by repeat constructor]|]. cbn. unfold resting. csplit; [auto|done|done|done].
Qed.

(** The name of a member is a string that fits an entry of the table of links. *)
Definition has_name st : Prop := exists path, c_string (collected st) = Ok path /\ zlen path < N_ALIGN PATH_MAX.

Lemma until_nul_lt s : 0 ∈ s -> zlen (until_nul s) < zlen s.
Proof.
  unfold zlen. induction s as [|c s IH]; intros Hs; [by apply not_elem_of_nil in Hs|]. cbn. destruct (Z.eqb_spec c 0); cbn; [lia|].
  apply elem_of_cons in Hs as [E|Hs]; [congruence|]. specialize (IH Hs). lia.
Qed.

Lemma terminated_name st : state st = GotName -> ok st -> 0 ∈ collected st -> has_name st.
Proof.
  intros Es [_ Hok] H0c. rewrite Es in Hok. exists (until_nul (collected st)). unfold c_string. rewrite bool_decide_true by done.
  split; [done|]. pose proof (until_nul_lt _ H0c). lia.
Qed.

Lemma maybe_link_any path st :
  zlen path < N_ALIGN PATH_MAX -> exists ml hd f, maybe_link path st = Ok (ml, set_head hd (set_fs f st)).
Proof.
  intros Hl. unfold maybe_link. destruct (nlink _ >=? 2); [|exists 0, (head st), (fs st); by destruct st].
  destruct (find_link _ _ _ _ _ _) as [[old|] hd].
  - destruct (init_link _ _ _) as [f r]. by eexists _, hd, f.
  - rewrite (proj2 (Z.leb_gt _ _)) by done. cbn [BUG_ON]. rewrite bind_Ok. exists 0, hd, (fs st). by destruct st.
Qed.

(** [do_name] calls the file system and then skips or copies. *)
Lemma do_name_cases st :
  has_name st -> exists st', do_name st = Ok (false, st') /\ collected st' = collected st /\
    hdr st' = hdr st /\ next_state st' = Reset /\ victim st' = victim st /\ this_header st' = this_header st /\
    next_header st' = next_header st /\ message st' = message st /\ (state st' = SkipIt \/ state st' = CopyFile /\ exists w, wfile st' = Some w).
Proof.
  intros (path & Ep & Hl). unfold do_name. cbn [collected set_next_state set_state]. rewrite Ep, bind_Ok.
  destruct (bool_decide (path = _)); [by eexists; split; [reflexivity|]; csplit; try done; left|].
  set (st1 := set_fs _ _). destruct (maybe_link_any path st1 Hl) as (ml & hd & f & ->). rewrite !bind_Ok. cbn beta iota.
  destruct (S_ISREG _).
  - destruct (ml >=? 0); [|by eexists; split; [reflexivity|]; csplit; try done; left].
    destruct (filp_open _ _ _ _) as [f3 [w|]]; [|by eexists; split; [reflexivity|]; csplit; try done; left].
    destruct (negb (body_len _ =? 0)); eexists; (split; [reflexivity|]); csplit; try done; right; split; try done; by exists w.
  - destruct (S_ISDIR _); [by eexists; split; [reflexivity|]; csplit; try done; left|].
    destruct (_ || _ || _ || _); [|by eexists; split; [reflexivity|]; csplit; try done; left].
    destruct (ml =? 0); eexists; (split; [reflexivity|]); csplit; try done; by left.
Qed.

Lemma steps_name st : state st = GotName -> ok st -> has_name st -> steps st.
Proof.
  intros Es [Hb Hok] Hnm. rewrite Es in Hok. destruct Hok as (Hbl & Hle & _). unfold steps. rewrite Es. cbn [actions].
  destruct (do_name_cases st Hnm) as (st' & -> & E1 & E2 & E3 & E4 & E5 & E6 & E8 & E7).
  exists false, st'. split; [done|]. csplit; [|by exists []; rewrite E4| |apply not_eager; [by rewrite Es..|by rewrite E8]].
  - split; [by rewrite E1|]. destruct E7 as [->|[-> [w Ew]]]; rewrite ?E2, E3, E5, E6; unfold resting; csplit; auto; try done; try lia.
    by exists w.
  - unfold measure. rewrite E4, Es. destruct E7 as [->|[-> _]]; cbn; lia.
Qed.

Lemma dispatch_cases st :
  state st = GotHeader -> ok st -> fed st ->
  exists st', dispatch_header st = Ok (false, st') /\ ok st' /\ (exists eaten, victim st = eaten ++ victim st') /\
    (measure st' < measure st)%nat /\ message st' = message st.
Proof.
  intros Es [Hb Hok] [Hv _]. rewrite Es in Hok. destruct Hok as [Hr Hc]. unfold dispatch_header.
  destruct (parse_header_total (collected st) Hb Hc) as (h & -> & Hbl & Hnl). rewrite bind_Ok. cbn zeta.
  cbn [this_header set_hdr]. set (next := Z.land _ (- 4)). unfold number32 in *.
  assert (Hnext : this_header st + N_ALIGN (name_len h) + body_len h <= next).
  { unfold next. rewrite land_m4.
    pose proof (Z.mod_pos_bound (this_header st + N_ALIGN (name_len h) + body_len h + 3) 4). lia. }
  pose proof (N_ALIGN_pos (name_len h) ltac:(lia)) as HN.
  set (st1 := set_state SkipIt _).
  assert (Hskip : exists st', Ok (false, st1) = Ok (false, st') /\ ok st' /\ (exists eaten, victim st = eaten ++ victim st') /\
    (measure st' < measure st)%nat /\ message st' = message st).
  { exists st1. split; [done|]. csplit; [|by exists []|unfold measure; cbn; rewrite Es; cbn; lia|done].
    split; [done|]. cbn. csplit; [done|lia|lia|done]. }
  destruct ((name_len h <=? 0) || (name_len h >? PATH_MAX)) eqn:Ename; [exact Hskip|].
  pose proof (N_ALIGN_range (name_len h) ltac:(lia)) as HN2. unfold PATH_MAX in *. destruct (S_ISLNK (mode h)).
  - destruct (body_len h >? 4096) eqn:Ebl; [exact Hskip|]. eexists. split; [reflexivity|]. rewrite u32_small by lia.
    csplit; [|by exists []|unfold measure; cbn; rewrite Es; cbn; lia|done]. split; [constructor|]. cbn. unfold collect_ok, small_name. cbn.
    unfold PATH_MAX. csplit; try done; try lia.
  - destruct (S_ISREG (mode h) || (body_len h =? 0)); [|exact Hskip].
    destruct (read_into_cases name_buf (N_ALIGN (name_len h)) GotName st1) as [(Hlt & ->)|(Hge & ->)]; [lia|..];
      rewrite bind_Ok; eexists; (split; [reflexivity|]).
    + csplit; [|by exists []|unfold measure; cbn; rewrite Es; cbn; lia|done]. split; [constructor|]. cbn. unfold collect_ok, small_name. cbn.
      unfold PATH_MAX. csplit; try done; try lia.
    + unfold byte_count in Hge. cbn in Hge. csplit; [|apply drop_eaten|unfold measure; cbn; rewrite Es, length_drop; cbn; lia|done].
      split; [by apply Forall_take|]. cbn. change (N_ALIGN PATH_MAX) with 4098. unfold zlen. rewrite length_take. lia.
Qed.

Lemma steps_header st : state st = GotHeader -> ok st -> fed st -> steps st.
Proof.
  intros Es Hok0 Hf. pose proof Hok0 as [Hb Hok]. rewrite Es in Hok. unfold steps. rewrite Es. cbn [actions].
  assert (Hbad : forall x, exists stop st', Ok (true, error x st) = Ok (stop, st') /\ ok st' /\
    (exists eaten, victim st = eaten ++ victim st') /\
    (if stop : bool then victim st' = [] \/ state st' = Reset \/ message st' <> None else (measure st' < measure st)%nat) /\
    eager st stop st').
  { intros x. exists true, (error x st). split; [done|]. unfold error.
    destruct (message st) eqn:Em; (csplit; [|by exists []|right; right; cbn; congruence|apply not_eager; [by rewrite Es..|cbn; congruence]]);
      split; try done; cbn; by rewrite Es. }
  assert (Hgo : forall b, exists stop st', dispatch_header (set_csum_present b st) = Ok (stop, st') /\ ok st' /\
    (exists eaten, victim st = eaten ++ victim st') /\
    (if stop : bool then victim st' = [] \/ state st' = Reset \/ message st' <> None else (measure st' < measure st)%nat) /\
    eager st stop st').
  { intros b. destruct (dispatch_cases (set_csum_present b st)) as (st' & E & Hok' & He & Hm & Emsg); [done|exact Hok0|exact Hf|].
    exists false, st'. csplit; try done. apply not_eager; [by rewrite Es..|by rewrite Emsg]. }
  assert (Hmagic : forall x, exists b, magic_is x (collected st) = Ok b).
  { intros x. destruct Hok as [_ Hz]. unfold zlen in Hz. unfold magic_is. rewrite (proj2 (Z.ltb_ge _ _)) by lia. by eexists. }
  unfold do_header. destruct (Hmagic "070701"%string) as [b1 ->], (Hmagic "070702"%string) as [b2 ->],
    (Hmagic "070707"%string) as [b3 ->]. rewrite !bind_Ok. destruct b1; [apply Hgo|].
  destruct b2; [apply Hgo|]. destruct b3; apply Hbad.
Qed.

(** Every state: the action returns, given a name where there is to be one. *)
Lemma actions_step st : ok st -> fed st -> (state st = GotName -> has_name st) -> steps st.
Proof.
  intros Hok Hf Hnm. destruct (state st) eqn:Es.
  - by apply steps_start.
  - by apply steps_collect.
  - by apply steps_header.
  - by apply steps_skip.
  - apply steps_name; auto.
  - by apply steps_copy.
  - by apply steps_symlink.
  - by apply steps_reset.
Qed.

Lemma fed_suffix st st' : fed st -> (exists eaten, victim st = eaten ++ victim st') -> fed st'.
Proof.
  intros [Hb Hl] [e E]. rewrite E in Hb, Hl. apply Forall_app in Hb as [_ Hb]. split; [done|].
  rewrite zlen_app in Hl. pose proof (zlen_nonneg e). lia.
Qed.

(** ** The loops

    [overrun] is what [do_name] finds when it reads on past a name that has no
    terminator. When that is some string that fits an entry of the table of
    links, nothing else keeps the reader from returning. *)

Hypothesis overrun_fits : forall s, exists path, overrun s = Ok path /\ zlen path < N_ALIGN PATH_MAX.

Lemma any_name st : state st = GotName -> ok st -> has_name st.
Proof.
  intros Es Hok. destruct (decide (0 ∈ collected st)); [by apply terminated_name|]. unfold has_name, c_string.
  rewrite bool_decide_false by done. apply overrun_fits.
Qed.

(** A run that returns. *)
Definition ends {A} (r : outcome A) (P : A -> Prop) : Prop :=
  match r with
  | Ok a => P a
  | Bug | NoFuel => False
  end.

(** Where [write_buffer] leaves the machine. *)
Definition halted st : Prop := ok st /\ (victim st = [] \/ state st = Reset \/ message st <> None).

(** The states in which the next bytes are sure to be taken. *)
Definition hungry (buf : list Z) st : Prop := state st = Start \/ state st = Collect \/ state st = Reset /\ hd 1 buf = 0.

Lemma action_loop_ends fuel st :
  ok st -> fed st -> (measure st < fuel)%nat ->
  ends (action_loop fuel st) (fun st' => halted st' /\ (exists eaten, victim st = eaten ++ victim st') /\
    (message st <> None -> message st' <> None) /\
    (hungry (victim st) st -> victim st <> [] -> shorter st st')).
Proof.
  revert st. induction fuel as [|fuel IH]; intros st Hok Hf Hm; [lia|]. cbn [action_loop].
  destruct (actions_step st Hok Hf) as (stop & st1 & -> & Hok1 & He & Hs & Hk & Hg); [intros; by apply any_name|].
  rewrite bind_Ok. cbn beta iota. destruct stop.
  { cbn. csplit; [done..|]. intros [Es|[Es|[Es Hh]]]; rewrite Es in Hg; [by destruct Hg|done|by destruct Hg; auto]. }
  specialize (IH st1 Hok1 (fed_suffix _ _ Hf He) ltac:(lia)). destruct (action_loop fuel st1) as [st2| |]; try done.
  cbn in *. destruct IH as (Hh & [e2 E2] & Hk2 & Hp). destruct He as [e E].
  csplit; [done|exists (e ++ e2); by rewrite E, E2, app_assoc|by auto|].
  assert (length (victim st2) <= length (victim st1))%nat by (rewrite E2, length_app; lia).
  unfold shorter in *. intros [Es|[Es|[Es _]]] Hne; rewrite Es in Hg.
  - destruct Hg as [_ [[Ec Ev]|Hg]]; [|lia]. rewrite <- Ev in Hne |- *. apply Hp; [|done]. by right; left.
  - specialize (Hg Hne). lia.
  - by destruct Hg.
Qed.

Lemma write_buffer_ends buf st :
  ok st -> Forall byte buf -> zlen buf < 2 ^ 32 ->
  ends (write_buffer buf st) (fun '(written, st') => halted st' /\ 0 <= written <= zlen buf /\
    victim st' = drop (Z.to_nat written) buf /\ (message st <> None -> message st' <> None) /\
    (hungry buf st -> buf <> [] -> 0 < written)).
Proof.
  intros Hok Hb Hl. unfold write_buffer.
  pose proof (action_loop_ends (8 * S (length buf)) (set_victim buf st) Hok (conj Hb Hl)) as Hloop.
  assert (Hm : (measure (set_victim buf st) < 8 * S (length buf))%nat).
  { unfold measure. cbn [victim set_victim]. pose proof (rank_le (state (set_victim buf st))). lia. }
  specialize (Hloop Hm). destruct (action_loop _ _) as [st'| |]; try done. cbn in Hloop |- *.
  destruct Hloop as (Hh & [e Ee] & Hk & Hp).
  assert (Hz : Z.of_nat (length buf) - byte_count st' = zlen e) by (unfold byte_count, zlen; rewrite Ee, length_app; lia).
  rewrite Hz. csplit; [done|unfold zlen; lia|rewrite Ee at 1; unfold zlen; rewrite length_app; lia| |done|].
  - rewrite to_nat_zlen, Ee. by rewrite drop_app_length.
  - intros Es Hne. specialize (Hp Es Hne). unfold shorter in Hp. cbn in Hp. unfold byte_count in Hz. lia.
Qed.

Lemma ok_resting st s : ok st -> state st = Reset -> s = Start \/ s = Reset -> ok (set_state s st).
Proof. intros [Hb Hok] Es Hs. rewrite Es in Hok. split; [done|]. by destruct Hs as [->| ->]. Qed.

Lemma ok_error x st : ok st -> ok (error x st).
Proof. unfold error. by destruct (message st). Qed.

(** The number of turns [flush_loop] takes. *)
Lemma flush_loop_ends fuel buf st :
  ok st -> Forall byte buf -> zlen buf < 2 ^ 32 ->
  (message st <> None -> (0 < fuel)%nat) -> (message st = None -> (2 * length buf + 2 <= fuel)%nat \/
    hungry buf st /\ (2 * length buf + 1 <= fuel)%nat /\ (0 < fuel)%nat) ->
  ends (flush_loop fuel buf st) ok.
Proof.
  revert buf st. induction fuel as [|fuel IH]; intros buf st Hok Hb Hl Hm Hn.
  { destruct (message st); [specialize (Hm ltac:(done))|specialize (Hn ltac:(done))]; lia. }
  cbn [flush_loop]. pose proof (write_buffer_ends buf st Hok Hb Hl) as Hw.
  destruct (write_buffer buf st) as [[written st1]| |]; try done. rewrite bind_Ok. cbn in Hw. cbn beta iota.
  destruct Hw as ([Hok1 Hh] & Hwr & Ev & Hk & Hp).
  destruct (Z.ltb_spec written (Z.of_nat (length buf))) as [Hlt|]; [|by destruct (bool_decide _)]. cbn [andb].
  destruct (message st1) eqn:Em; [by rewrite bool_decide_false|]. rewrite bool_decide_true by done.
  assert (Hne : message st = None) by (destruct (message st); [by destruct (Hk ltac:(done))|done]).
  specialize (Hn Hne). set (rest := drop (Z.to_nat written) buf) in *.
  assert (Hrl : length rest = (length buf - Z.to_nat written)%nat) by (unfold rest; by rewrite length_drop).
  assert (Es1 : state st1 = Reset).
  { destruct Hh as [Hv|[Hv|Hv]]; [|done|congruence]. rewrite Ev in Hv. rewrite Hv in Hrl. cbn in Hrl. lia. }
  assert (Hfuel : (2 * length rest + 1 <= fuel)%nat).
  { destruct Hn as [Hn|(Hhu & Hn & _)]; [lia|]. assert (0 < written); [apply Hp; [done|intros ->; cbn in Hlt; lia]|]. lia. }
  assert (Hrb : Forall byte rest) by (by apply Forall_drop). assert (zlen rest < 2 ^ 32) by (unfold zlen in *; lia).
  destruct (Z.eqb_spec (hd 0 rest) 48).
  { apply IH; try done; [by apply ok_resting; [..|left]|]. intros _. right. csplit; [by left|lia|lia]. }
  destruct (Z.eqb_spec (hd 0 rest) 0) as [E0|].
  - apply IH; try done; [by apply ok_resting; [..|right]|]. intros _. right. csplit; [|lia|lia]. right; right. split; [done|].
    destruct rest; [cbn in Hrl; lia|done].
  - apply IH; try done; [by apply ok_error|intros _; lia|]. unfold error. rewrite Em. done.
Qed.

Lemma flush_buffer_ends buf st :
  ok st -> Forall byte buf -> zlen buf < 2 ^ 32 -> ends (flush_buffer buf st) (fun '(_, st') => ok st').
Proof.
  intros Hok Hb Hl. unfold flush_buffer. destruct (message st) eqn:Em; [done|].
  pose proof (flush_loop_ends (2 * S (length buf)) buf st Hok Hb Hl) as Hf.
  assert (Hx : ends (flush_loop (2 * S (length buf)) buf st) ok) by (apply Hf; [intros _; lia|intros _; left; lia]).
  by destruct (flush_loop _ _ _).
Qed.

(** ** Unpacking *)

Context (decompressor : string -> option (list Z -> decompressed)).

(** A decompressor hands out bytes, in pieces whose length is a 32-bit
    number, and when it succeeds it has used some or all of its input. *)
Definition event_ok (e : event) : Prop :=
  match e with
  | flushed p => Forall byte p /\ zlen p < 2 ^ 32
  | complained _ => True
  end.

Definition decompressor_ok : Prop :=
  forall name d buf, decompressor name = Some d -> Forall event_ok (events (d buf)) /\ (res (d buf) = 0 -> 1 <= posp (d buf) <= zlen buf).

Lemma flush_pieces_ends es r st :
  ok st -> Forall event_ok es -> ends (flush_pieces es r st) (fun '(r', st') => ok st' /\ (r' = 0 -> r = 0)).
Proof.
  intros Hok Hes. revert st Hok. induction Hes as [|[p|x] es He _ IH]; intros st Hok; [done|..]; cbn [flush_pieces];
    [|by apply IH, ok_error]. destruct He as [Hp Hl].
  pose proof (flush_buffer_ends p st Hok Hp Hl) as Hf. destruct (flush_buffer p st) as [[n st1]| |]; try done.
  rewrite bind_Ok. cbn beta iota. destruct (n =? _); [by apply IH|done].
Qed.

Lemma decompressor_cases buf :
  match decompress_method decompressor buf with
  | (Some d, Some name) => decompressor name = Some d
  | (Some d, None) => False
  | _ => True
  end.
Proof.
  unfold decompress_method. destruct buf as [|a [|b buf]]; [done..|]. destruct (find_format _ _ _) as [name|]; [|done].
  by destruct (decompressor name) eqn:E.
Qed.

(** Between members. *)
Definition waiting st : Prop := ok st /\ (message st = None -> state st = Start \/ state st = Reset).

Lemma waiting_ok st st' :
  state st = Start \/ state st = Reset -> ok st -> collected st' = collected st -> next_state st' = next_state st ->
  state st' = Start \/ state st' = Reset -> ok st'.
Proof.
  intros Es [Hb Hok] E1 E2 Es'. split; [by rewrite E1|]. rewrite E2.
  destruct Es as [Es|Es], Es' as [Es'|Es']; rewrite Es in Hok; by rewrite Es'.
Qed.

Lemma unpack_loop_ends fuel buf st :
  decompressor_ok -> waiting st -> Forall byte buf -> zlen buf < 2 ^ 32 ->
  (if bool_decide (message st = None) then length buf < fuel else 0 < fuel)%nat ->
  ends (unpack_loop decompressor fuel buf st) (fun _ => True).
Proof.
  intros Hd. revert buf st. induction fuel as [|fuel IH]; intros buf st [Hok Hw] Hb Hl Hf; [case_match; lia|].
  cbn [unpack_loop]. destruct (message st) eqn:Em; [done|]. rewrite bool_decide_true in Hf by done. specialize (Hw eq_refl).
  destruct buf as [|c buf']; [done|]. cbn [length] in Hf.
  assert (Hnext : forall n st', (0 < n)%nat -> waiting st' ->
    ends (unpack_loop decompressor fuel (drop n (c :: buf')) st') (fun _ => True)).
  { intros n st' Hn Hw'. apply IH; [done|by apply Forall_drop|unfold zlen in *; rewrite length_drop; lia|].
    rewrite length_drop. cbn. case_match; lia. }
  assert (Hstop : forall buf2 st2, message st2 <> None -> ends (unpack_loop decompressor fuel buf2 st2) (fun _ => True)).
  { intros buf2 st2 Hm. destruct fuel; [lia|]. cbn. by destruct (message st2). }
  destruct ((c =? 48) && (Z.land (this_header st) 3 =? 0)).
  - assert (Hok1 : ok (set_state Start st)) by (apply (waiting_ok st); auto).
    pose proof (write_buffer_ends (c :: buf') _ Hok1 Hb Hl) as Hwb.
    destruct (write_buffer _ _) as [[written st1]| |]; try done. rewrite bind_Ok. cbn in Hwb. cbn beta iota.
    destruct Hwb as ([Hok2 Hh] & Hwr & Ev & Hk & Hp). assert (0 < written) by (apply Hp; [by left|done]).
    destruct Hh as [Hv|Hh]; [|apply Hnext; [lia|]; split; [done|]; intros; destruct Hh; [by right|done]].
    rewrite <- Ev, Hv. destruct fuel; [lia|]. cbn. by destruct (message st1).
  - destruct (c =? 0); [apply (Hnext 1%nat); [lia|]; split; [|done]; by apply (waiting_ok st)|].
    set (st0 := set_this_header 0 st). assert (Hok0 : ok st0) by (apply (waiting_ok st); auto).
    assert (Hrest : forall st3 t, ok st3 -> (message st3 = None -> 1 <= my_inptr st3 <= zlen (c :: buf')) ->
      let st4 := if bool_decide (state st3 = Reset) then st3 else error "junk at the end of compressed archive" st3 in
      let st5 := set_this_header (t + my_inptr st4) st4 in
      ends (_ ← BUG_ON (bool_decide (message st5 = None) && ((my_inptr st5 <? 0) || (Z.of_nat (length (c :: buf')) <? my_inptr st5)));
        unpack_loop decompressor fuel (drop (Z.to_nat (my_inptr st5)) (c :: buf')) st5) (fun _ => True)).
    { intros st3 t Hok3 Hin. cbn zeta. destruct (decide (state st3 = Reset)) as [Er|Er].
      - rewrite bool_decide_true by done. cbn [message set_this_header my_inptr].
        destruct (message st3) eqn:Em3; [rewrite bool_decide_false by done; apply Hstop; cbn; congruence|].
        specialize (Hin eq_refl). unfold zlen in Hin. rewrite bool_decide_true, (proj2 (Z.ltb_ge _ _)), (proj2 (Z.ltb_ge _ _)) by (done || lia).
        apply Hnext; [lia|]. split; [apply (waiting_ok st3); auto|by right].
      - rewrite (bool_decide_false (state st3 = Reset)) by done.
        assert (Hm : message (error "junk at the end of compressed archive" st3) <> None)
          by (unfold error; destruct (message st3) eqn:Em3; cbn; congruence).
        cbn [message set_this_header]. rewrite bool_decide_false by done. by apply Hstop. }
    pose proof (decompressor_cases (c :: buf')) as Hdm. destruct (decompress_method decompressor (c :: buf')) as [[d|] [name|]]; [|done|..].
    1: destruct (Hd _ d (c :: buf') Hdm) as [Hps Hpos]; pose proof (flush_pieces_ends (events (d (c :: buf'))) (res (d (c :: buf'))) st0 Hok0 Hps) as Hfp;
      destruct (flush_pieces _ _ _) as [[r st1]| |]; try done; rewrite !bind_Ok; cbn in Hfp; cbn beta iota;
      destruct Hfp as [Hok1 Hr]; apply Hrest; [destruct (negb _); [by apply ok_error|done]|];
      destruct (Z.eqb_spec r 0) as [->|]; cbn [negb]; [intros _; cbn; auto|unfold error; cbn; destruct (message st1) eqn:E1; cbn; congruence].
    all: rewrite bind_Ok; apply Hrest; [by apply ok_error|]; unfold error; cbn; rewrite Em; done.
Qed.

(** C33. Unpacking returns, with or without an error message, whatever fewer than
    [2^32] bytes the archive holds, and whatever writes do: fail, take nothing
    or take any part of what they are given. At the start [next_state] is one
    that the image or a finished member leaves ([Start], [GotHeader] or
    [Reset]). Three things are assumed. A write that is interrupted, which
    [xwrite] repeats, is not interrupted again when repeated (else [xwrite] need
    not end). A decompressor hands out pieces of less than [2^32] bytes, and one
    that reports success has used some or all of its input. And when [do_name] reads on past a name that
    has no terminator in the bytes collected, it finds a string that fits the
    4098 bytes of an entry of the table of links; it is the only place where
    the reader depends on what lies outside its buffers. *)
Theorem unpack_terminates buf st :
  decompressor_ok -> Forall byte (collected st) -> resting (next_state st) -> Forall byte buf -> zlen buf < 2 ^ 32 ->
  exists message st', unpack_to_rootfs decompressor buf st = Ok (message, st').
Proof.
  intros Hd Hc Hn Hb Hl. unfold unpack_to_rootfs.
  assert (He : ends (unpack_loop decompressor (S (length buf)) buf (set_message None (set_this_header 0 (set_state Start st)))) (fun _ => True)).
  { apply unpack_loop_ends; try done; [split; [by split|by left]|cbn; lia]. }
  destruct (unpack_loop _ _ _ _) as [st'| |]; [by eexists _, st'|done..].
Qed.

End safety.

(** ** Every state that can be reached

    Here the read past the end of a name is a fault. *)

Section reachable.
Context {F file : Type} `{VfsWrites F file}.

Implicit Types st : machine F file.

(** [do_name] looks at a string that does not end inside what was collected. *)
Definition unterminated st : Prop := state st = GotName /\ 0 ∉ collected st.

Lemma action_unterminated st : unterminated st -> actions (state st) st = Bug.
Proof.
  intros [Es Hc]. rewrite Es. cbn [actions]. unfold do_name, c_string. cbn [collected set_next_state set_state].
  by rewrite bool_decide_false.
Qed.

Lemma action_or_overrun st : ok st -> fed st -> unterminated st \/ steps st.
Proof.
  intros Hok Hf. destruct (decide (state st = GotName)) as [Es|Es]; [|right; by apply actions_step].
  destruct (decide (0 ∈ collected st)); [right; apply actions_step; try done; intros; by apply terminated_name|left; by split].
Qed.

Inductive reach : machine F file -> Prop :=
  | reach_start st : Forall byte (collected st) -> resting (next_state st) -> fed st -> reach (set_state Start st)
  | reach_action st stop st' : reach st -> actions (state st) st = Ok (stop, st') -> reach st'
  | reach_piece st v : reach st -> Forall byte v -> zlen v < 2 ^ 32 -> reach (set_victim v st)
  | reach_member st s : reach st -> state st = Reset -> s = Start \/ s = Reset -> reach (set_state s st)
  | reach_offset st t : reach st -> state st = Start \/ state st = Reset -> reach (set_this_header t st)
  | reach_error st x : reach st -> reach (error x st).

Lemma reach_ok st : reach st -> ok st /\ fed st.
Proof.
  induction 1 as [st Hc Hn Hf|st stop st' _ [Hok Hf] Ha|st v _ [Hok Hf] Hb Hl|st s _ [Hok Hf] Es Hs|st t _ [Hok Hf] Es|st x _ [Hok Hf]].
  - by split.
  - destruct (action_or_overrun st Hok Hf) as [Hu|(stop2 & st2 & Ea & Hok2 & He & _)]; [by rewrite action_unterminated in Ha|].
    rewrite Ea in Ha. injection Ha as -> ->. split; [done|by eapply fed_suffix].
  - by split.
  - split; [by apply ok_resting|done].
  - split; [by apply (waiting_ok st)|done].
  - split; [by apply ok_error|]. unfold error. by destruct (message st).
Qed.


End reachable.
