(* ===== verification/CpioRead.v ===== *)
(** * init/initramfs.c: reading a well-formed archive

    What the reader is to do with each member of an archive ([apply]), and the
    proof that it does so however the archive is cut into pieces: [reading]
    says, for each state of the machine, how the bytes still to come and the
    work still to be done are related, and every action keeps it true. *)

From Stdlib Require Import String.
From S2P Require Import Prelude LibMath Ctype Kstrtox Initramfs GenInitCpio CpioFormat InitramfsSafety.

Local Open Scope Z_scope.

Section read.
Context {F file : Type} `{VfsOk F file}.

Abbreviation links := (list (list hash)).

Implicit Types st : machine F file.

(** ** What becomes of a member *)

Definition link_member (h : header) (path : list Z) (w : F * links) : Z * (F * links) :=
  let '(f, hd) := w in
  if nlink h >=? 2 then
    let '(old, hd) := find_link (s32 (major h)) (s32 (minor h)) (s32 (ino h)) (mode h) path hd in
    match old with
    | Some old => let '(f, r) := init_link (clean_path path 0 f) old path in (if r <? 0 then -1 else 1, (f, hd))
    | None => (0, (f, hd))
    end
  else (0, (f, hd)).

Definition open_flags (ml : Z) : Z :=
  if ml =? 1 then Z.lor O_WRONLY O_CREAT else Z.lor (Z.lor O_WRONLY O_CREAT) O_TRUNC.

(** An open file with owner, mode and size set. *)
Definition prepare (f : F) (w : file) (h : header) : F :=
  let f := vfs_fchmod (vfs_fchown f w (uid h) (gid h)) w (mode h) in
  if body_len h =? 0 then f else vfs_truncate f w (body_len h).

(** The name is dealt with; a file that was opened is returned. *)
Definition create (h : header) (path : list Z) (w : F * links) : F * links * option file :=
  let '(f, hd) := w in
  if bool_decide (path = bytes_of "TRAILER!!!") then (f, no_links, None)
  else
    let f := clean_path path (mode h) f in
    if S_ISREG (mode h) then
      let '(ml, (f, hd)) := link_member h path (f, hd) in
      if ml >=? 0 then
        match filp_open f path (open_flags ml) (mode h) with
        | (f, None) => (f, hd, None)
        | (f, Some w) => (prepare f w h, hd, Some w)
        end
      else (f, hd, None)
    else if S_ISDIR (mode h) then
      (init_chmod (init_chown (init_mkdir f path (mode h)) path (uid h) (gid h) 0) path (mode h), hd, None)
    else if S_ISBLK (mode h) || S_ISCHR (mode h) || S_ISFIFO (mode h) || S_ISSOCK (mode h) then
      let '(ml, (f, hd)) := link_member h path (f, hd) in
      if ml =? 0 then
        (init_chmod (init_chown (init_mknod f path (mode h) (rdev h)) path (uid h) (gid h) 0) path (mode h), hd, None)
      else (f, hd, None)
    else (f, hd, None).

Definition symlink (h : header) (target path : list Z) (f : F) : F :=
  init_chown (init_symlink (clean_path path 0 f) target path) path (uid h) (gid h) AT_SYMLINK_NOFOLLOW.

Definition apply (m : member) (w : F * links) : F * links :=
  let h := header_of m in
  if S_ISLNK (mode h) then (symlink h (until_nul (m_body m)) (m_name m) w.1, w.2)
  else
    match create h (m_name m) w with
    | (f, hd, None) => (f, hd)
    | (f, hd, Some o) => (fput (store f o (m_body m) 0) o, hd)
    end.

Definition apply_all (ms : list member) (w : F * links) : F * links := fold_left (fun w m => apply m w) ms w.

Definition member_ok (m : member) : Prop :=
  Forall number32 (fields m) /\ chars (m_name m) /\ zlen (m_name m) + 1 <= PATH_MAX /\
  (if S_ISLNK (u16 (m_mode m)) then zlen (m_body m) <= PATH_MAX /\ exists t, chars t /\ m_body m = t ++ [0]
   else S_ISREG (u16 (m_mode m)) = true \/ m_body m = []) /\
  (m_csum m = true -> S_ISREG (u16 (m_mode m)) = true -> m_check m = csum_add 0 (m_body m)).

(** Members from here on, and zeros. *)
Definition rest (ms : list member) (k : nat) : list Z := concat (map encode ms) ++ zeros k.

(** ** The invariant *)

Context (goal : F * links).

Definition owed (ms : list member) (st : machine F file) : Prop := apply_all ms (fs st, head st) = goal.

(** The header of [m] has been parsed and [left] bytes of it are to come. *)
Definition known (m : member) (left : Z) (st : machine F file) : Prop :=
  hdr st = header_of m /\ csum_present st = m_csum m /\ next_header st = this_header st + left /\
  next_header st mod 4 = 0.

Definition with_body_len (x : Z) (h : header) : header :=
  Header (ino h) (mode h) (uid h) (gid h) (nlink h) (mtime h) x (major h) (minor h) (rdev h) (name_len h) (hdr_csum h).

(** Collecting [part], with [after] to follow. *)
Definition collecting (buf : place) (part after todo : list Z) (st : machine F file) : Prop :=
  collected_in st = buf /\ 0 < remains st /\ zlen (collected st) + remains st = zlen part /\
  collected st ++ todo = part ++ after.

Definition after_name (m : member) : list Z := m_body m ++ body_pad m.

Definition reading_collect (m : member) (after todo : list Z) (st : machine F file) : Prop :=
  match next_state st with
  | GotHeader =>
      collecting header_buf (header_part m) (name_part m ++ after_name m ++ after) todo st /\
      (this_header st - zlen (collected st)) mod 4 = 0
  | GotName =>
      collecting name_buf (name_part m) (after_name m ++ after) todo st /\ S_ISLNK (u16 (m_mode m)) = false /\
      known m (zlen (name_part m ++ after_name m) - zlen (collected st)) st
  | GotSymlink =>
      collecting symlink_buf (name_part m ++ m_body m) (body_pad m ++ after) todo st /\
      S_ISLNK (u16 (m_mode m)) = true /\ known m (zlen (name_part m ++ after_name m) - zlen (collected st)) st
  | _ => False
  end.

Definition reading_copy (m : member) (ms : list member) (after todo : list Z) (st : machine F file) : Prop :=
  exists b w, wfile st = Some w /\ todo = b ++ body_pad m ++ after /\ next_state st = Reset /\
    hdr st = with_body_len (zlen b) (header_of m) /\ csum_present st = m_csum m /\
    (m_csum m = true -> csum_add (io_csum st) b = m_check m) /\ number32 (io_csum st) /\
    next_header st = this_header st + zlen (b ++ body_pad m) /\ next_header st mod 4 = 0 /\
    apply_all ms (fput (store (fs st) w b (wfile_pos st)) w, head st) = goal.

Definition reading_state (ms : list member) (k : nat) (todo : list Z) (st : machine F file) : Prop :=
  match state st with
  | Start => ms <> [] /\ todo = rest ms k /\ this_header st mod 4 = 0 /\ owed ms st
  | Collect => exists m, member_ok m /\ owed (m :: ms) st /\ reading_collect m (rest ms k) todo st
  | GotHeader => exists m, member_ok m /\ owed (m :: ms) st /\ collected st = header_part m /\
      todo = name_part m ++ after_name m ++ rest ms k /\ (this_header st - 110) mod 4 = 0
  | GotName => exists m, member_ok m /\ owed (m :: ms) st /\ S_ISLNK (u16 (m_mode m)) = false /\
      collected st = name_part m /\ todo = after_name m ++ rest ms k /\ known m (zlen (after_name m)) st
  | GotSymlink => exists m, member_ok m /\ owed (m :: ms) st /\ S_ISLNK (u16 (m_mode m)) = true /\
      collected_in st = symlink_buf /\ collected st = name_part m ++ m_body m /\ todo = body_pad m ++ rest ms k /\
      known m (zlen (body_pad m)) st
  | CopyFile => exists m, member_ok m /\ reading_copy m ms (rest ms k) todo st
  | SkipIt => next_state st = Reset /\ owed ms st /\ next_header st mod 4 = 0 /\
      exists skipped, todo = skipped ++ rest ms k /\ next_header st = this_header st + zlen skipped
  | Reset => owed ms st /\ exists j, todo = zeros j ++ rest ms k /\ (ms = [] \/ j = 0%nat /\ this_header st mod 4 = 0)
  end.

(** [todo] is what is still to be read. *)
Definition reading (st : machine F file) (todo : list Z) : Prop :=
  message st = None /\ exists ms k, Forall member_ok ms /\ reading_state ms k todo st.

(** Where the loop may stop: at the end of the piece, or between members. *)
Definition stopped (more : list Z) (st : machine F file) : Prop :=
  (victim st = [] /\ (more = [] -> state st = Reset)) \/
  (state st = Reset /\ this_header st mod 4 = 0 /\ exists v, victim st = 48 :: v).

(** One action. *)
Definition advances (st : machine F file) (more : list Z) : Prop :=
  exists stop st', actions (state st) st = Ok (stop, st') /\ reading st' (victim st' ++ more) /\
    (exists eaten, victim st = eaten ++ victim st') /\
    (if stop : bool then stopped more st' else (measure st' < measure st)%nat).

(** ** Taking bytes *)

(** [do_collect] stops at the end of the piece or completes the part. *)
Lemma do_collect_ok buf part after more st :
  collecting buf part after (victim st ++ more) st -> zlen part <= capacity buf ->
  (byte_count st < remains st /\
   do_collect st = Ok (true, set_remains (remains st - byte_count st) (set_this_header (this_header st + byte_count st)
     (set_victim [] (set_collected (collected st ++ victim st) st))))) \/
  (remains st <= byte_count st /\ drop (Z.to_nat (remains st)) (victim st) ++ more = after /\
   do_collect st = Ok (false, set_state (next_state st) (set_remains 0 (set_this_header (this_header st + remains st)
     (set_victim (drop (Z.to_nat (remains st)) (victim st)) (set_collected part st)))))).
Proof.
  intros (Hin & Hr & Hlen & E) Hcap. unfold do_collect. rewrite Hin. unfold zlen in Hlen. fold (zlen part) in Hlen.
  destruct (Z.ltb_spec (byte_count st) (remains st)) as [Hlt|Hge].
  - left. split; [done|]. rewrite (proj2 (Z.ltb_ge (capacity buf) _)) by lia. cbn [BUG_ON]. rewrite bind_Ok.
    rewrite eat_ok by (cbn; unfold byte_count; cbn; lia). rewrite bind_Ok. unfold byte_count in *. machine.
    rewrite (proj2 (Z.eqb_neq _ 0)) by lia. rewrite Nat2Z.id, firstn_all, drop_all. done.
  - right. rewrite (proj2 (Z.ltb_ge (capacity buf) _)) by lia. cbn [BUG_ON]. rewrite bind_Ok.
    unfold byte_count in Hge. destruct (split_at _ _ _ _ _ (Z.to_nat (remains st)) E) as [E1 E2];
      [unfold zlen in Hlen; lia|lia|].
    split; [done|]. split; [done|]. rewrite eat_ok by (unfold byte_count; machine; lia). rewrite bind_Ok. machine.
    rewrite E1, Z.sub_diag. done.
Qed.

Lemma read_into_ok buf part after more next st :
  victim st ++ more = part ++ after -> 0 < zlen part ->
  (byte_count st < zlen part /\ read_into buf (zlen part) next st = Ok (start_collect buf (zlen part) next st) /\
   collecting buf part after (victim st ++ more) (start_collect buf (zlen part) next st)) \/
  (zlen part <= byte_count st /\ drop (length part) (victim st) ++ more = after /\
   read_into buf (zlen part) next st =
     Ok (set_state next (set_this_header (this_header st + zlen part) (set_victim (drop (length part) (victim st))
       (set_collected part (set_collected_in input st)))))).
Proof.
  intros E Hp. unfold read_into. rewrite Z.geb_leb.
  destruct (Z.leb_spec (zlen part) (byte_count st)) as [Hle|Hgt].
  - right. split; [done|]. unfold byte_count, zlen in Hle.
    destruct (split_at [] _ _ _ _ (length part) E) as [E1 E2]; [cbn; lia|lia|]. split; [done|].
    rewrite eat_ok by (unfold byte_count, zlen; machine; lia). rewrite bind_Ok. machine. unfold zlen. rewrite !Nat2Z.id.
    cbn [app] in E1. rewrite E1. done.
  - left. split; [done|]. split; [done|]. unfold collecting, start_collect. machine. unfold zlen in *. cbn. by csplit; try lia.
Qed.

(** ** The actions *)

Lemma rest_cons m ms k : rest (m :: ms) k = header_part m ++ name_part m ++ after_name m ++ rest ms k.
Proof. unfold rest, encode, after_name. cbn [map concat]. by rewrite <- !app_assoc. Qed.

Lemma header_zlen m : member_ok m -> zlen (header_part m) = 110.
Proof. intros (Hf & _). unfold zlen. by rewrite header_length. Qed.

Lemma name_zlen m : member_ok m -> 0 < zlen (name_part m) <= N_ALIGN PATH_MAX.
Proof.
  intros (_ & _ & Hl & _). pose proof (pad4_lt (110 + zlen (m_name m) + 1)). pose proof (pad4_aligned (110 + zlen (m_name m) + 1)).
  pose proof (zlen_nonneg (m_name m)).
  unfold name_part. rewrite !zlen_app, zlen_zeros. change (zlen [0]) with 1.
  change (N_ALIGN PATH_MAX) with 4098. unfold PATH_MAX in Hl. Z.to_euclidean_division_equations. lia.
Qed.

Lemma advance_start st more : state st = Start -> reading st (victim st ++ more) -> advances st more.
Proof.
  intros Es (Hm & ms & k & Hms & Hr). unfold reading_state in Hr. rewrite Es in Hr.
  destruct Hr as (Hne & E & Hal & Ho). destruct ms as [|m ms]; [done|]. apply Forall_cons in Hms as [Hm1 Hms].
  rewrite rest_cons in E. pose proof (header_zlen m Hm1) as H110. unfold advances. rewrite Es. cbn [actions]. unfold do_start.
  destruct (read_into_ok header_buf _ _ _ GotHeader _ E) as [(Hlt & Er & Hc)|(Hge & Ed & Er)]; [lia|..];
    rewrite H110 in Er; rewrite Er, bind_Ok; eexists _, _; (split; [reflexivity|]).
  - split.
    + split; [done|]. exists ms, k. split; [done|]. exists m. split; [done|]. split; [done|].
      rewrite H110 in Hc. split; [exact Hc|]. cbn. unfold zlen. cbn. by rewrite Z.sub_0_r.
    + split; [by exists []|]. unfold measure. cbn. rewrite Es. cbn. lia.
  - split.
    + split; [done|]. exists ms, k. split; [done|]. exists m. csplit; try done. cbn.
      by replace (this_header st + 110 - 110) with (this_header st) by lia.
    + split; [apply drop_eaten|]. unfold measure. cbn. rewrite Es, length_drop. unfold byte_count, zlen in *. cbn. lia.
Qed.

(** The piece ends inside a part that is being collected. *)
Definition short (st : machine F file) : machine F file :=
  set_remains (remains st - byte_count st) (set_this_header (this_header st + byte_count st)
    (set_victim [] (set_collected (collected st ++ victim st) st))).

Lemma collecting_short buf part after more st :
  collecting buf part after (victim st ++ more) st -> byte_count st < remains st ->
  collecting buf part after more (short st) /\ more <> [].
Proof.
  intros (Hin & Hr & Hl & E) Hlt. unfold collecting, short. machine. unfold byte_count in *.
  rewrite app_assoc in E. rewrite zlen_app. csplit; try done; [unfold zlen in *; lia..|].
  intros ->. apply (f_equal length) in E. rewrite !length_app in E. cbn in E. unfold zlen in *. lia.
Qed.

Lemma known_moved m x y st st' :
  known m x st -> hdr st' = hdr st -> csum_present st' = csum_present st -> next_header st' = next_header st ->
  this_header st' + y = this_header st + x -> known m y st'.
Proof. unfold known. intros (-> & -> & E & Ha) -> -> -> E'. csplit; congruence. Qed.

(** The part is complete. *)
Definition full (part : list Z) (st : machine F file) : machine F file :=
  set_state (next_state st) (set_remains 0 (set_this_header (this_header st + remains st)
    (set_victim (drop (Z.to_nat (remains st)) (victim st)) (set_collected part st)))).

Lemma collect_advances buf part after more ms k st :
  state st = Collect -> message st = None -> Forall member_ok ms ->
  collecting buf part after (victim st ++ more) st -> zlen part <= capacity buf -> (rank (next_state st) <= 4)%nat ->
  (byte_count st < remains st -> reading_state ms k more (short st)) ->
  (remains st <= byte_count st -> reading_state ms k after (full part st)) -> advances st more.
Proof.
  intros Es Hm Hms Hc Hcap Hrk Hshort Hfull. unfold advances. rewrite Es. cbn [actions].
  destruct (do_collect_ok _ _ _ _ _ Hc Hcap) as [(Hlt & ->)|(Hge & Ed & ->)]; eexists _, _; (split; [reflexivity|]).
  - split; [split; [done|]; exists ms, k; split; [done|by apply Hshort]|].
    split; [exists (victim st); cbn; by rewrite app_nil_r|]. left. split; [done|].
    intros ->. by destruct (collecting_short _ _ _ _ _ Hc Hlt) as [_ []].
  - split; [split; [done|]; exists ms, k; split; [done|]; cbn; rewrite Ed; by apply Hfull|].
    split; [apply drop_eaten|]. destruct Hc as (_ & Hrem & _). unfold measure. cbn. rewrite Es, length_drop.
    unfold byte_count in *. cbn. lia.
Qed.

Lemma advance_collect st more : state st = Collect -> reading st (victim st ++ more) -> advances st more.
Proof.
  intros Es (Hm & ms & k & Hms & Hr). unfold reading_state in Hr. rewrite Es in Hr.
  destruct Hr as (m & Hm1 & Ho & Hr). pose proof (header_zlen m Hm1) as Hh. pose proof (name_zlen m Hm1) as Hn.
  assert (Hsh : forall todo, reading_collect m (rest ms k) todo (short st) -> reading_state ms k todo (short st)).
  { intros todo H'. unfold reading_state. cbn. rewrite Es. by exists m. }
  assert (Hz : zlen (collected st ++ victim st) = zlen (collected st) + byte_count st) by apply zlen_app.
  unfold reading_collect in Hr, Hsh. change (next_state (short st)) with (next_state st) in Hsh.
  destruct (next_state st) eqn:En; try done; destruct Hr as [Hc Hr];
    pose proof Hc as (_ & _ & Hlen & _); eapply collect_advances; try done; try (rewrite En; cbn; lia).
  - cbn. lia.
  - intros Hlt. apply Hsh. split; [by apply collecting_short|]. cbn. rewrite Hz.
    by replace (_ + _ - _) with (this_header st - zlen (collected st)) by lia.
  - intros _. unfold reading_state, full. cbn. rewrite En. exists m. csplit; try done.
    by replace (_ + _ - _) with (this_header st - zlen (collected st)) by lia.
  - cbn [capacity]. lia.
  - intros Hlt. apply Hsh. split; [by apply collecting_short|]. split; [by destruct Hr|].
    eapply known_moved; [apply Hr|done..|]. cbn. rewrite Hz. lia.
  - intros _. unfold reading_state, full. cbn. rewrite En. exists m. csplit; try done; [by destruct Hr|].
    eapply known_moved; [apply Hr|done..|]. cbn. rewrite zlen_app. lia.
  - cbn [capacity]. rewrite zlen_app. destruct Hm1 as (_ & _ & _ & Hl & _). destruct Hr as [Elnk _]. rewrite Elnk in Hl.
    unfold PATH_MAX in *. lia.
  - intros Hlt. apply Hsh. split; [by apply collecting_short|]. split; [by destruct Hr|].
    eapply known_moved; [apply Hr|done..|]. cbn. rewrite Hz. lia.
  - intros _. unfold reading_state, full. cbn. rewrite En. exists m. csplit; try done; [by destruct Hr|by destruct Hc|].
    eapply known_moved; [apply Hr|done..|]. cbn. unfold after_name. rewrite !zlen_app in *. lia.
Qed.

(** The name brings the header to a multiple of four, and the body is padded
    to the next one. *)
Lemma name_aligned m : (110 + zlen (name_part m)) mod 4 = 0.
Proof.
  unfold name_part. rewrite !zlen_app, zlen_zeros. change (zlen [0]) with 1.
  rewrite <- (pad4_aligned (110 + zlen (m_name m) + 1)). f_equal. lia.
Qed.

Lemma next_header_ok m t :
  (t - 110) mod 4 = 0 ->
  Z.land (t + zlen (name_part m) + zlen (m_body m) + 3) (- 4) = t + zlen (name_part m ++ after_name m) /\
  (t + zlen (name_part m ++ after_name m)) mod 4 = 0.
Proof.
  intros Ht. pose proof (name_aligned m) as Hn. unfold after_name, body_pad. rewrite land_m4, !zlen_app, zlen_zeros.
  pose proof (pad4_aligned (zlen (m_body m))) as Hp. pose proof (pad4_lt (zlen (m_body m))).
  Z.to_euclidean_division_equations. lia.
Qed.

(** The machine once the header has been parsed. *)
Definition parsed (m : member) (st : machine F file) : machine F file :=
  set_state SkipIt (set_next_header (this_header st + zlen (name_part m ++ after_name m))
    (set_hdr (header_of m) (set_csum_present (m_csum m) st))).

Lemma magic_ok m : take 6 (header_part m) = magic (m_csum m).
Proof. unfold header_part. rewrite <- (magic_length (m_csum m)). apply take_app_length. Qed.

Lemma do_header_ok m st :
  member_ok m -> collected st = header_part m -> (this_header st - 110) mod 4 = 0 ->
  do_header st =
    if S_ISLNK (u16 (m_mode m)) then
      Ok (false, start_collect symlink_buf (zlen (name_part m ++ m_body m)) GotSymlink (parsed m st))
    else
      st ← read_into name_buf (zlen (name_part m)) GotName (parsed m st); Ok (false, st).
Proof.
  intros Hm Ec Ht. pose proof Hm as (Hf & Hch & Hl & Hk & _). pose proof (name_zlen m Hm) as Hn.
  pose proof (zlen_nonneg (m_name m)). pose proof (zlen_nonneg (m_body m)).
  assert (HN : N_ALIGN (zlen (m_name m) + 1) = zlen (name_part m)) by (apply N_ALIGN_ok; lia).
  destruct (next_header_ok m _ Ht) as [En _].
  assert (Hgo : do_header st = dispatch_header (set_csum_present (m_csum m) st)).
  { unfold do_header, magic_is. rewrite Ec, header_length by done. cbn [BUG_ON Z.ltb Z.of_nat]. rewrite magic_ok. by destruct (m_csum m). }
  rewrite Hgo. unfold dispatch_header. change (collected (set_csum_present _ st)) with (collected st).
  rewrite Ec, parse_header_ok, bind_Ok by done. cbn [name_len body_len mode header_of]. cbn zeta. rewrite HN.
  change (this_header (set_hdr _ _)) with (this_header st). rewrite En.
  replace ((zlen (m_name m) + 1 <=? 0) || (zlen (m_name m) + 1 >? PATH_MAX)) with false by lia.
  destruct (S_ISLNK (u16 (m_mode m))).
  - rewrite Z.gtb_ltb, (proj2 (Z.ltb_ge _ _)) by lia. change (N_ALIGN PATH_MAX) with 4098 in Hn. unfold PATH_MAX in *.
    rewrite u32_small, <- zlen_app by lia. done.
  - replace (S_ISREG (u16 (m_mode m)) || (zlen (m_body m) =? 0)) with true; [done|].
    destruct Hk as [->| ->]; [done|]. by rewrite orb_true_r.
Qed.

Lemma advance_header st more : state st = GotHeader -> reading st (victim st ++ more) -> advances st more.
Proof.
  intros Es (Hm & ms & k & Hms & Hr). unfold reading_state in Hr. rewrite Es in Hr.
  destruct Hr as (m & Hm1 & Ho & Ec & E & Ht). pose proof (name_zlen m Hm1) as Hn.
  destruct (next_header_ok m _ Ht) as [_ Hal].
  unfold advances. rewrite Es. cbn [actions]. rewrite (do_header_ok m) by done.
  destruct (S_ISLNK (u16 (m_mode m))) eqn:Elnk.
  - eexists _, _. split; [reflexivity|]. split.
    + split; [done|]. exists ms, k. split; [done|]. exists m. split; [done|]. split; [done|]. split.
      * unfold collecting, start_collect. machine. csplit; try done; [rewrite zlen_app; pose proof (zlen_nonneg (m_body m)); lia|].
        cbn [app parsed]. unfold parsed. machine. rewrite E. unfold after_name. by rewrite <- !app_assoc.
      * split; [done|]. unfold known, start_collect, parsed. machine. csplit; try done. change (zlen []) with 0. lia.
    + split; [by exists []|]. unfold measure. cbn. rewrite Es. cbn. lia.
  - assert (Ev : victim (parsed m st) ++ more = name_part m ++ after_name m ++ rest ms k) by exact E.
    destruct (read_into_ok name_buf _ _ _ GotName _ Ev) as [(Hlt & -> & Hc)|(Hge & Ed & ->)]; [lia|..];
      rewrite bind_Ok; eexists _, _; (split; [reflexivity|]).
    + split.
      * split; [done|]. exists ms, k. split; [done|]. exists m. split; [done|]. split; [done|]. split; [exact Hc|].
        split; [done|]. unfold known, start_collect, parsed. machine. csplit; try done. change (zlen []) with 0. lia.
      * split; [by exists []|]. unfold measure. cbn. rewrite Es. cbn. lia.
    + split.
      * split; [done|]. exists ms, k. split; [done|]. exists m. csplit; try done. unfold known, parsed. machine.
        csplit; try done. rewrite zlen_app. lia.
      * split; [apply drop_eaten|]. unfold measure. cbn. rewrite Es, length_drop. unfold byte_count, parsed, zlen in *. cbn in *. lia.
Qed.

Lemma maybe_link_ok path st :
  zlen path + 1 <= PATH_MAX ->
  let '(ml, (f, hd)) := link_member (hdr st) path (fs st, head st) in
  maybe_link path st = Ok (ml, set_head hd (set_fs f st)).
Proof.
  intros Hl. unfold link_member, maybe_link. destruct (nlink (hdr st) >=? 2); [|by destruct st].
  destruct (find_link _ _ _ _ _ _) as [[old|] hd].
  2: { change (N_ALIGN PATH_MAX) with 4098. unfold zlen, PATH_MAX in Hl. rewrite (proj2 (Z.leb_gt _ _)) by lia. by destruct st. }
  cbn [fs head set_head set_fs]. by destruct (init_link _ _ _) as [f r].
Qed.

(** [do_name] does what [create] says and leaves the rest of the machine. *)
Definition named (f : F) (hd : links) (o : option file) (st st' : machine F file) : Prop :=
  fs st' = f /\ head st' = hd /\ message st' = message st /\ hdr st' = hdr st /\ csum_present st' = csum_present st /\
  next_state st' = Reset /\ victim st' = victim st /\ this_header st' = this_header st /\
  next_header st' = next_header st /\
  match o with
  | None => state st' = SkipIt
  | Some w => state st' = CopyFile /\ wfile st' = Some w /\ wfile_pos st' = 0 /\ io_csum st' = 0 /\ S_ISREG (mode (hdr st)) = true
  end.

Lemma do_name_ok m st :
  member_ok m -> collected st = name_part m ->
  let '(f, hd, o) := create (hdr st) (m_name m) (fs st, head st) in
  exists st', do_name st = Ok (false, st') /\ named f hd o st st'.
Proof.
  intros (_ & Hch & Hl & _) Ec. unfold create, do_name. cbn [collected set_next_state set_state]. rewrite Ec.
  unfold name_part. cbn [app]. rewrite c_string_ok, bind_Ok by done. cbn [hdr set_next_state set_state].
  destruct (bool_decide (m_name m = bytes_of "TRAILER!!!")); [by eexists; split; [reflexivity|]|].
  set (st1 := set_fs _ _). assert (E1 : hdr st1 = hdr st) by done.
  change (clean_path (m_name m) (mode (hdr st)) (fs st)) with (fs st1).
  change (head st) with (head st1). rewrite <- E1.
  pose proof (maybe_link_ok (m_name m) st1 Hl) as Hml. destruct (link_member (hdr st1) (m_name m) (fs st1, head st1)) as [ml [f2 hd2]].
  rewrite Hml, !bind_Ok. cbn beta iota. destruct (S_ISREG (mode (hdr st1))) eqn:Ereg.
  - destruct (ml >=? 0); [|by eexists; split; [reflexivity|]].
    change (if negb (ml =? 1) then _ else _) with (if negb (ml =? 1) then Z.lor (Z.lor O_WRONLY O_CREAT) O_TRUNC else Z.lor O_WRONLY O_CREAT).
    replace (if negb (ml =? 1) then _ else _) with (open_flags ml) by (unfold open_flags; by destruct (ml =? 1)).
    cbn [fs set_head set_fs]. destruct (filp_open f2 (m_name m) (open_flags ml) (mode (hdr st1))) as [f3 [w|]].
    + unfold prepare. destruct (body_len (hdr st1) =? 0); (eexists; split; [reflexivity|]); by rewrite E1 in Ereg.
    + by eexists; split; [reflexivity|].
  - destruct (S_ISDIR _); [by eexists; split; [reflexivity|]|].
    destruct (_ || _ || _ || _); [|by eexists; split; [reflexivity|]].
    destruct (ml =? 0); by eexists; split; [reflexivity|].
Qed.

Lemma advance_name st more : state st = GotName -> reading st (victim st ++ more) -> advances st more.
Proof.
  intros Es (Hm & ms & k & Hms & Hr). unfold reading_state in Hr. rewrite Es in Hr.
  destruct Hr as (m & Hm1 & Ho & Elnk & Ec & E & (Eh & Ecs & En & Ha)).
  pose proof (do_name_ok m st Hm1 Ec) as Hn. rewrite Eh in Hn. unfold owed in Ho. cbn [apply_all fold_left] in Ho.
  unfold apply in Ho. cbn [mode header_of] in Ho. rewrite Elnk in Ho.
  destruct (create (header_of m) (m_name m) (fs st, head st)) as [[f hd] o].
  destruct Hn as (st' & Ed & (Ef & Ehd & Emsg & Ehdr & Ecs' & Enx & Ev & Eth & Enh & Eo)).
  unfold advances. rewrite Es. cbn [actions]. exists false, st'. split; [done|]. rewrite Ev. split.
  - split; [congruence|]. exists ms, k. split; [done|]. unfold reading_state. destruct o as [w|].
    + destruct Eo as (-> & Ew & Ep & Eio & Ereg). exists m. split; [done|]. exists (m_body m), w.
      rewrite Ew, Ehdr, Ecs', Eth, Enh, Eio, Ef, Ehd, Ep. csplit; try done.
      * rewrite E. unfold after_name. by rewrite <- app_assoc.
      * intros Hcs. destruct Hm1 as (_ & _ & _ & _ & Hck). symmetry. apply Hck; [done|]. by rewrite Eh in Ereg.
    + rewrite Eo. csplit; [done|by unfold owed; rewrite Ef, Ehd|congruence|]. exists (after_name m). by rewrite Eth, Enh.
  - split; [by exists []|]. unfold measure. rewrite Ev, Es. destruct o as [w|]; [destruct Eo as (Eo & _)|]; rewrite Eo; cbn; lia.
Qed.

Lemma advance_symlink st more : state st = GotSymlink -> reading st (victim st ++ more) -> advances st more.
Proof.
  intros Es (Hm & ms & k & Hms & Hr). unfold reading_state in Hr. rewrite Es in Hr.
  destruct Hr as (m & Hm1 & Ho & Elnk & Ein & Ec & E & (Eh & Ecs & En & Ha)).
  pose proof Hm1 as (_ & Hch & Hl & Hk & _). rewrite Elnk in Hk. destruct Hk as (Hb & t & Ht & Eb).
  pose proof (name_zlen m Hm1) as Hn. pose proof (zlen_nonneg (m_name m)). pose proof (zlen_nonneg (m_body m)).
  unfold advances. rewrite Es. cbn [actions]. unfold do_symlink. rewrite Eh, Ein, Ec.
  cbn [name_len body_len header_of]. rewrite N_ALIGN_ok by lia. change (N_ALIGN PATH_MAX) with 4098 in Hn.
  unfold PATH_MAX in *. rewrite u32_small by lia.
  change (capacity symlink_buf) with 8195. rewrite (proj2 (Z.leb_gt _ _)) by lia. cbn [BUG_ON]. rewrite bind_Ok.
  rewrite <- zlen_app, !to_nat_zlen, insert_app_r_alt, Nat.sub_diag by lia. cbn [insert list_insert].
  replace ((name_part m ++ m_body m) ++ [0]) with (name_part m ++ m_body m ++ [0]) by (by rewrite app_assoc).
  assert (Hp : c_string (name_part m ++ m_body m ++ [0]) = Ok (m_name m)).
  { unfold name_part. rewrite <- app_assoc. by apply c_string_ok. }
  assert (Hs : c_string (m_body m ++ [0]) = Ok t) by (rewrite Eb, <- app_assoc; by apply c_string_ok).
  rewrite drop_app_length, Hp, bind_Ok, Hs, bind_Ok.
  eexists _, _. split; [reflexivity|]. split.
  - split; [done|]. exists ms, k. split; [done|]. unfold reading_state. cbn. csplit; try done; [|by exists (body_pad m)].
    unfold owed in *. cbn [apply_all fold_left] in Ho. unfold apply in Ho. cbn [mode header_of] in Ho. rewrite Elnk in Ho.
    unfold symlink in Ho. cbn in Ho |- *. rewrite Eb, until_nul_chars in Ho by done. exact Ho.
  - split; [by exists []|]. unfold measure. cbn. rewrite Es. cbn. lia.
Qed.

(** A piece that holds the rest of the file. *)
Lemma copy_all m ms k b w more st :
  member_ok m -> Forall member_ok ms -> message st = None -> state st = CopyFile -> zlen (victim st) < 2 ^ 32 ->
  reading_copy m ms (rest ms k) (victim st ++ more) st -> wfile st = Some w -> hdr st = with_body_len (zlen b) (header_of m) ->
  zlen b <= byte_count st -> advances st more.
Proof.
  intros Hm1 Hms Hm Es Hv (b' & w' & Ew' & E & Enx & Eh' & Ecs & Hck & Hio & En & Ha & Hg) Ew Eh Hge.
  assert (w' = w) as -> by congruence. rewrite Eh in Eh'. injection Eh' as Ezl.
  unfold advances. rewrite Es. cbn [actions]. unfold do_copy. rewrite Ew, Eh. cbn [body_len with_body_len].
  rewrite Z.geb_leb, (proj2 (Z.leb_le _ _)) by done. unfold byte_count in Hge.
  destruct (split_at [] (victim st) more b' _ (length b) E) as [E1 E2]; [unfold zlen in Ezl; cbn; lia|unfold zlen in Hge; lia|].
  cbn [app] in E1. rewrite to_nat_zlen, E1, xwrite_ok, bind_Ok. cbn beta iota.
  destruct (wrote_rest w b' st) as (Q1 & Q2 & Q3 & Q4 & Q5 & Q6 & Q7 & Q8 & Q9 & Q10 & Q11 & Q12).
  rewrite <- Ezl. rewrite u32_small by (unfold zlen in *; lia). rewrite Z.eqb_refl. cbn [negb].
  set (st1 := set_fs _ _).
  replace (csum_present st1 && negb (io_csum st1 =? hdr_csum (hdr st1))) with false; cycle 1.
  { change (csum_present st1) with (csum_present (wrote w b' st)). change (io_csum st1) with (io_csum (wrote w b' st)).
    change (hdr st1) with (hdr (wrote w b' st)). rewrite Q3, Q4, Ecs, Eh. destruct (m_csum m) eqn:Em; [|done].
    rewrite wrote_io by (done || congruence). rewrite Hck by done. cbn. by rewrite Z.eqb_refl. }
  rewrite eat_ok by (unfold byte_count; cbn; rewrite Q7; lia). rewrite bind_Ok.
  eexists _, _. split; [reflexivity|]. cbn [victim set_state set_this_header set_victim].
  change (victim st1) with (victim (wrote w b' st)). rewrite Q7. split.
  - split; [cbn; congruence|]. exists ms, k. split; [done|]. unfold reading_state. cbn. rewrite Q5, Q8, Q9.
    csplit; [done|unfold owed; cbn; by rewrite Q2, Q11|done|]. exists (body_pad m).
    rewrite to_nat_zlen. split; [|rewrite En, zlen_app; lia]. by rewrite <- E2.
  - split; [apply drop_eaten|]. unfold measure. cbn. rewrite Es, length_drop. cbn. lia.
Qed.

(** A piece that ends inside the file. *)
Lemma copy_some m ms k b w more st :
  member_ok m -> Forall member_ok ms -> message st = None -> state st = CopyFile -> zlen (victim st) < 2 ^ 32 ->
  reading_copy m ms (rest ms k) (victim st ++ more) st -> wfile st = Some w -> hdr st = with_body_len (zlen b) (header_of m) ->
  byte_count st < zlen b -> advances st more.
Proof.
  intros Hm1 Hms Hm Es Hv (b' & w' & Ew' & E & Enx & Eh' & Ecs & Hck & Hio & En & Ha & Hg) Ew Eh Hlt.
  assert (w' = w) as -> by congruence. rewrite Eh in Eh'. injection Eh' as Ezl.
  unfold advances. rewrite Es. cbn [actions]. unfold do_copy. rewrite Ew, Eh. cbn [body_len with_body_len].
  rewrite Z.geb_leb, (proj2 (Z.leb_gt _ _)) by done. rewrite xwrite_ok, bind_Ok. cbn beta iota.
  destruct (wrote_rest w (victim st) st) as (Q1 & Q2 & Q3 & Q4 & Q5 & Q6 & Q7 & Q8 & Q9 & Q10 & Q11 & Q12).
  unfold byte_count. rewrite Q7. fold (zlen (victim st)). rewrite u32_small by (unfold zlen in *; lia). rewrite Z.eqb_refl.
  cbn [negb]. rewrite eat_ok by (unfold byte_count, zlen; cbn; rewrite Q7; lia). rewrite bind_Ok.
  assert (exists b2, b' = victim st ++ b2 /\ more = b2 ++ body_pad m ++ rest ms k /\ b2 <> []) as (b2 & Eb & Emore & Hne).
  { exists (drop (length (victim st)) b'). rewrite <- (take_drop (length (victim st)) b'), <- app_assoc in E.
    unfold byte_count, zlen in *. apply app_inj_1 in E as [E1 E2]; [|rewrite length_take; lia].
    csplit; [rewrite <- (take_drop (length (victim st)) b') at 1; by rewrite <- E1|done|]. intros E0%(f_equal length). rewrite length_drop in E0. cbn in E0. lia. }
  eexists _, _. split; [reflexivity|]. cbn [victim set_this_header set_victim set_body_len set_hdr].
  rewrite Q7. unfold zlen at 2. rewrite Nat2Z.id, drop_all. split.
  - split; [cbn; congruence|]. exists ms, k. split; [done|]. unfold reading_state, set_body_len. cbn. rewrite Q6, Es.
    exists m. split; [done|]. exists b2, w. cbn. rewrite Q2, Q3, Q4, Q5, Q8, Q9, Q10, Q11, Q12, Eh.
    assert (Hz : zlen b' = zlen (victim st) + zlen b2) by (by rewrite Eb, zlen_app).
    csplit; try done.
    + unfold with_body_len. cbn. f_equal. unfold zlen in *. lia.
    + intros Hc. rewrite wrote_io by (done || congruence). by rewrite csum_add_app, <- Eb, Hck.
    + unfold wrote. case_cmp; cbn; [|done]. unfold csum_add, number32. apply u32_range.
    + rewrite En, !zlen_app. unfold zlen in *. lia.
    + by rewrite <- store_app, <- Eb.
  - split; [exists (victim st); by rewrite app_nil_r|]. left. split; [done|]. intros ->. by destruct b2.
Qed.

Lemma advance_copy st more :
  state st = CopyFile -> zlen (victim st) < 2 ^ 32 -> reading st (victim st ++ more) -> advances st more.
Proof.
  intros Es Hv (Hm & ms & k & Hms & Hr). unfold reading_state in Hr. rewrite Es in Hr.
  destruct Hr as (m & Hm1 & Hc). pose proof Hc as (b & w & Ew & _ & _ & Eh & _).
  destruct (Z.le_gt_cases (zlen b) (byte_count st)); [by eapply copy_all|by eapply copy_some].
Qed.

Lemma advance_skip st more :
  state st = SkipIt -> zlen (victim st) < 2 ^ 32 -> reading st (victim st ++ more) -> advances st more.
Proof.
  intros Es Hv (Hm & ms & k & Hms & Hr). unfold reading_state in Hr. rewrite Es in Hr.
  destruct Hr as (Enx & Ho & Ha & sk & E & En). unfold advances. rewrite Es. cbn [actions]. unfold do_skip. rewrite En.
  destruct (Z.ltb_spec (this_header st + byte_count st) (this_header st + zlen sk)) as [Hlt|Hge].
  - rewrite eat_ok, bind_Ok by lia. unfold byte_count in *. rewrite Nat2Z.id, drop_all.
    eexists _, _. split; [reflexivity|]. rewrite <- (take_drop (length (victim st)) sk), <- app_assoc in E.
    apply app_inj_1 in E as [E1 E2]; [|rewrite length_take; unfold zlen in *; lia]. split.
    + split; [done|]. exists ms, k. split; [done|]. unfold reading_state. cbn. rewrite Es. csplit; try done.
      exists (drop (length (victim st)) sk). split; [done|]. unfold zlen in *. rewrite length_drop. lia.
    + split; [exists (victim st); cbn; by rewrite app_nil_r|]. left. split; [done|]. intros ->. exfalso.
      symmetry in E2. apply app_nil in E2 as [E2 _]. apply (f_equal length) in E2. rewrite length_drop in E2.
      unfold zlen in *. cbn in E2. lia.
  - replace (this_header st + zlen sk - this_header st) with (zlen sk) by lia. unfold byte_count in *.
    pose proof (zlen_nonneg sk). rewrite u32_small by (unfold zlen in *; lia).
    rewrite eat_ok, bind_Ok by (unfold byte_count; lia). rewrite to_nat_zlen.
    destruct (split_at [] _ _ _ _ (length sk) E) as [E1 E2]; [cbn; lia|unfold zlen in *; lia|].
    eexists _, _. split; [reflexivity|]. split.
    + split; [done|]. exists ms, k. split; [done|]. unfold reading_state. cbn. rewrite Enx. split; [done|].
      exists 0%nat. rewrite E2. split; [done|]. right. split; [done|]. by rewrite <- En.
    + split; [apply drop_eaten|]. unfold measure. cbn. rewrite Es, Enx, length_drop. cbn. lia.
Qed.

Lemma eat_zeros_zeros n t : eat_zeros (zeros n) t = ([], t + Z.of_nat n).
Proof.
  revert t. induction n as [|n IH]; intros t; cbn; [by rewrite Z.add_0_r|]. unfold zeros in IH. rewrite IH. f_equal. lia.
Qed.

Lemma zeros_app a b n : a ++ b = zeros n -> a = zeros (length a) /\ b = zeros (length b).
Proof.
  intros E. assert (Hf : Forall (fun c => c = 0) (a ++ b)) by (rewrite E; by apply Forall_replicate).
  apply Forall_app in Hf as [Ha Hb]. split; [clear Hb E|clear Ha E]; [induction Ha as [|? ? -> _ IH]|induction Hb as [|? ? -> _ IH]];
    try done; cbn; by f_equal.
Qed.

Lemma rest_starts m ms k : exists t, rest (m :: ms) k = 48 :: t.
Proof. rewrite rest_cons. unfold header_part. destruct (m_csum m); by eexists. Qed.

Lemma advance_reset st more : state st = Reset -> reading st (victim st ++ more) -> advances st more.
Proof.
  intros Es (Hm & ms & k & Hms & Hr). unfold reading_state in Hr. rewrite Es in Hr.
  destruct Hr as (Ho & j & E & Hj). unfold advances. rewrite Es. cbn [actions]. unfold do_reset.
  destruct ms as [|m ms].
  - assert (E' : victim st ++ more = zeros (j + k)) by (rewrite E; unfold zeros; by rewrite replicate_add).
    apply zeros_app in E' as [Ev Em]. rewrite Ev, eat_zeros_zeros. cbn [byte_count victim set_this_header set_victim].
    eexists _, _. split; [reflexivity|]. split.
    + split; [done|]. exists [], 0%nat. split; [done|]. unfold reading_state. cbn. rewrite Es. split; [done|].
      exists (length more). split; [by rewrite app_nil_r|by left].
    + split; [exists (zeros (length (victim st))); by rewrite app_nil_r|]. by left.
  - destruct Hj as [Hj|[-> Hal]]; [done|]. destruct (rest_starts m ms k) as [t Et]. cbn [zeros replicate app] in E.
    assert (Hst : eat_zeros (victim st) (this_header st) = (victim st, this_header st) /\
      (victim st = [] \/ exists v, victim st = 48 :: v)).
    { rewrite Et in E. destruct (victim st) as [|c v]; [by auto|]. injection E as -> _. by eauto. }
    destruct Hst as [-> Hst]. cbn [this_header set_this_header]. rewrite land_3, Hal, andb_false_r.
    eexists _, _. split; [reflexivity|]. split; [|split].
    + split; [done|]. exists (m :: ms), k. split; [done|]. unfold reading_state. cbn. rewrite Es. split; [done|].
      exists 0%nat. split; [done|]. by right.
    + by exists [].
    + unfold stopped. cbn. destruct Hst as [Hst|Hst]; [by left|by right].
Qed.

(** ** The loops *)

Lemma actions_advance st more : zlen (victim st) < 2 ^ 32 -> reading st (victim st ++ more) -> advances st more.
Proof.
  intros Hv Hr. destruct (state st) eqn:Es.
  - by apply advance_start.
  - by apply advance_collect.
  - by apply advance_header.
  - by apply advance_skip.
  - by apply advance_name.
  - by apply advance_copy.
  - by apply advance_symlink.
  - by apply advance_reset.
Qed.

Lemma action_loop_ok fuel st more :
  zlen (victim st) < 2 ^ 32 -> reading st (victim st ++ more) -> (measure st < fuel)%nat ->
  exists st', action_loop fuel st = Ok st' /\ reading st' (victim st' ++ more) /\ stopped more st' /\
    exists eaten, victim st = eaten ++ victim st'.
Proof.
  revert st. induction fuel as [|fuel IH]; intros st Hv Hr Hf; [lia|]. cbn [action_loop].
  destruct (actions_advance st more Hv Hr) as (stop & st1 & -> & Hr1 & [e Ee] & Hs). rewrite bind_Ok. cbn beta iota.
  destruct stop; [by eauto 6|]. destruct (IH st1) as (st2 & -> & Hr2 & Hs2 & [e2 Ee2]); [|done|lia|].
  - rewrite Ee, zlen_app in Hv. pose proof (zlen_nonneg e). lia.
  - exists st2. csplit; try done. exists (e ++ e2). by rewrite Ee, Ee2, app_assoc.
Qed.

Lemma write_buffer_ok buf st more :
  zlen buf < 2 ^ 32 -> reading (set_victim buf st) (buf ++ more) ->
  exists st' eaten, write_buffer buf st = Ok (zlen eaten, st') /\ buf = eaten ++ victim st' /\
    reading st' (victim st' ++ more) /\ stopped more st'.
Proof.
  intros Hv Hr. unfold write_buffer.
  destruct (action_loop_ok (8 * S (length buf)) (set_victim buf st) more) as (st' & -> & Hr' & Hs & [e Ee]);
    [done|done| |].
  - unfold measure. cbn [victim set_victim]. pose proof (rank_le (state (set_victim buf st))). lia.
  - cbn [victim set_victim] in Ee. rewrite bind_Ok. exists st', e. csplit; try done. do 2 f_equal.
    unfold byte_count. rewrite Ee at 1. unfold zlen. rewrite length_app. lia.
Qed.

(** From the start of a member some input is taken. *)
Lemma loop_progress fuel st st' more :
  zlen (victim st) < 2 ^ 32 -> reading st (victim st ++ more) -> (measure st < fuel)%nat ->
  state st = Start \/ state st = Collect -> victim st <> [] -> action_loop fuel st = Ok st' -> shorter st st'.
Proof.
  revert st. induction fuel as [|fuel IH]; intros st Hv Hr Hf Hs Hne E; [done|].
  destruct (actions_advance st more Hv Hr) as (stop & st1 & Ea & Hr1 & [e Ee] & Hstop).
  cbn [action_loop] in E. rewrite Ea, bind_Ok in E. cbn beta iota in E.
  assert (Hl : shorter st st1 \/ stop = false /\ state st1 = Collect /\ victim st1 = victim st).
  { destruct Hs as [Es|Es]; rewrite Es in Ea; cbn [actions] in Ea.
    - unfold do_start in Ea. destruct (read_into_cases header_buf 110 GotHeader st) as [(Hlt & Er)|(Hge & Er)]; [lia|..];
        rewrite Er, bind_Ok in Ea; injection Ea as <- <-; [by right|left]. unfold shorter, byte_count in *. cbn.
      rewrite length_drop. lia.
    - left. destruct Hr as (_ & ms & k & _ & Hrs). unfold reading_state in Hrs. rewrite Es in Hrs.
      destruct Hrs as (m & Hm1 & _ & Hrs). assert (Hrem : 0 < remains st).
      { unfold reading_collect in Hrs. destruct (next_state st); try done; by destruct Hrs as [(_ & ? & _) _]. }
      unfold do_collect in Ea. apply bind_Ok_inv in Ea as ([] & _ & Ea).
      apply bind_Ok_inv in Ea as (s1 & Eeat & Ea). unfold eat in Eeat. case_cmp_in Eeat; [done|]. injection Eeat as <-.
      assert (victim st1 = drop (Z.to_nat (if byte_count st <? remains st then byte_count st else remains st)) (victim st)) as Ev
        by (case_cmp_in Ea; injection Ea as _ <-; done).
      unfold shorter. rewrite Ev, length_drop. unfold byte_count in *. destruct (victim st); cbn [length] in *; [done|].
      case_match; lia. }
  destruct Hl as [Hl|(-> & Es1 & Ev1)].
  - destruct stop; [by injection E as <-|]. destruct (action_loop_ok fuel st1 more) as (st2 & E2 & _ & _ & [e2 Ee2]);
      [rewrite Ee, zlen_app in Hv; pose proof (zlen_nonneg e); lia|done|lia|].
    rewrite E in E2. injection E2 as <-. unfold shorter in *. rewrite Ee2, length_app in Hl. lia.
  - unfold shorter in *. rewrite <- Ev1 in *. apply IH; try done; [lia|by right].
Qed.

Lemma write_buffer_start buf st more st' n :
  zlen buf < 2 ^ 32 -> reading (set_victim buf st) (buf ++ more) -> state st = Start -> buf <> [] ->
  write_buffer buf st = Ok (n, st') -> 0 < n.
Proof.
  intros Hl Hr Es Hne E. unfold write_buffer in E. apply bind_Ok_inv in E as (st1 & E1 & E). injection E as <- <-.
  eapply loop_progress in E1; [|done|done| |by left|done].
  - unfold shorter in E1. cbn in E1. unfold byte_count. lia.
  - unfold measure. cbn [victim set_victim]. pose proof (rank_le (state (set_victim buf st))). lia.
Qed.

(** Between members, a machine that is to go on with the next one. *)
Lemma reading_next st v more :
  reading st (48 :: v ++ more) -> state st = Reset -> this_header st mod 4 = 0 -> reading (set_state Start st) (48 :: v ++ more).
Proof.
  intros (Hm & ms & k & Hms & Hr) Es Hal. unfold reading_state in Hr. rewrite Es in Hr. destruct Hr as (Ho & j & E & Hj).
  split; [done|]. exists ms, k. split; [done|]. unfold reading_state. cbn. destruct Hj as [->|[-> _]].
  - exfalso. unfold rest in E. cbn in E. destruct j as [|j]; [destruct k|]; discriminate E.
  - csplit; try done. intros ->. unfold rest in E. cbn in E. by destruct k.
Qed.

Lemma reading_done st : reading st [] -> state st = Reset -> message st = None /\ (fs st, head st) = goal.
Proof.
  intros (Hm & ms & k & Hms & Hr) Es. split; [done|]. unfold reading_state in Hr. rewrite Es in Hr.
  destruct Hr as (Ho & j & E & _). destruct ms as [|m ms]; [exact Ho|].
  destruct (rest_starts m ms k) as [t Et]. rewrite Et in E. by destruct j.
Qed.

Lemma flush_loop_ok fuel buf st more :
  zlen buf < 2 ^ 32 -> reading st (buf ++ more) -> (length buf + (if decide (state st = Start) then 0 else 1) < fuel)%nat ->
  exists st', flush_loop fuel buf st = Ok st' /\ reading st' more /\ (more = [] -> state st' = Reset).
Proof.
  revert buf st. induction fuel as [|fuel IH]; intros buf st Hl Hr Hf; [lia|]. cbn [flush_loop].
  destruct (write_buffer_ok buf st more Hl Hr) as (st1 & e & E & Eb & Hr1 & Hs). rewrite E, bind_Ok. cbn beta iota.
  assert (Hm1 : message st1 = None) by apply Hr1. rewrite Hm1, bool_decide_true, andb_true_r by done.
  destruct Hs as [(Ev & Hrs)|(Es1 & Hal & v & Ev)].
  - rewrite Ev, app_nil_r in Eb. subst e. unfold zlen at 1. rewrite Z.ltb_irrefl. exists st1. rewrite Ev in Hr1. done.
  - assert (Hlt : (length (victim st1) < length buf)%nat \/ state st <> Start).
    { destruct (decide (state st = Start)) as [Es|]; [left|by right].
      assert (0 < zlen e); [eapply write_buffer_start; [..|exact E]; try done; rewrite Eb, Ev; by destruct e|].
      rewrite Eb, length_app. unfold zlen in *. lia. }
    assert (Hlen : zlen e < Z.of_nat (length buf)) by (unfold zlen; rewrite Eb, Ev, length_app; cbn; lia).
    rewrite (proj2 (Z.ltb_lt _ _)) by done.
    rewrite to_nat_zlen, Eb, drop_app_length, Ev. cbn [hd Z.eqb Pos.eqb]. rewrite Ev in Hr1.
    apply IH; [unfold zlen in *; rewrite Eb, Ev, length_app in Hl; lia|by apply reading_next|].
    cbn [state set_state]. rewrite decide_True by done. rewrite Eb, Ev, length_app in Hlt, Hf.
    case_decide; [|lia]. destruct Hlt as [Hlt|]; [lia|done].
Qed.

Lemma flush_buffer_ok buf st more :
  zlen buf < 2 ^ 32 -> reading st (buf ++ more) ->
  exists st', flush_buffer buf st = Ok (zlen buf, st') /\ reading st' more /\ (more = [] -> state st' = Reset).
Proof.
  intros Hl Hr. unfold flush_buffer. destruct Hr as (Hm & Hr). rewrite Hm.
  destruct (flush_loop_ok (2 * S (length buf)) buf st more) as (st' & -> & Hr' & Hs); [done|by split|case_decide; lia|].
  by exists st'.
Qed.

Lemma flush_pieces_ok ps r st :
  Forall (fun p => zlen p < 2 ^ 32) ps -> reading st (concat ps) ->
  exists st', flush_pieces (map flushed ps) r st = Ok (r, st') /\ reading st' [] /\ (ps <> [] -> state st' = Reset).
Proof.
  intros Hps. revert st. induction Hps as [|p ps Hp Hps IH]; intros st Hr; [by exists st|]. cbn [map flush_pieces concat] in *.
  destruct (flush_buffer_ok p st (concat ps) Hp Hr) as (st1 & -> & Hr1 & Hs). rewrite bind_Ok. cbn beta iota.
  unfold zlen. rewrite Z.eqb_refl. destruct ps as [|q ps]; [by exists st1; csplit; auto|].
  destruct (IH st1 Hr1) as (st2 & -> & Hr2 & Hs2). exists st2. csplit; try done. intros _. by apply Hs2.
Qed.

Context (decompressor : string -> option (list Z -> decompressed)).

Lemma unpack_loop_ok fuel buf st :
  zlen buf < 2 ^ 32 -> reading (set_state Start st) buf -> this_header st mod 4 = 0 -> hd 0 buf = 48 -> (length buf < fuel)%nat ->
  exists st', unpack_loop decompressor fuel buf st = Ok st' /\ message st' = None /\ (fs st', head st') = goal.
Proof.
  revert buf st. induction fuel as [|fuel IH]; intros buf st Hl Hr Hal Hh Hf; [lia|]. cbn [unpack_loop].
  assert (Hm : message st = None) by apply Hr. rewrite Hm. destruct buf as [|c v]; [done|]. cbn in Hh. subst c.
  rewrite land_3, Hal. cbn [Z.eqb Pos.eqb andb]. rewrite <- (app_nil_r (48 :: v)) in Hr.
  destruct (write_buffer_ok (48 :: v) (set_state Start st) [] Hl Hr) as (st1 & e & E & Eb & Hr1 & Hs).
  rewrite E, bind_Ok. cbn beta iota. rewrite to_nat_zlen, Eb, drop_app_length.
  destruct Hs as [(Ev & Hrs)|(Es1 & Hal1 & v1 & Ev)]; rewrite Ev in *.
  - cbn [app] in Hr1. destruct (reading_done st1 Hr1) as [Hm1 Hg]; [by apply Hrs|]. exists st1.
    destruct fuel; [cbn in Hf; lia|]. cbn. by rewrite Hm1.
  - assert (0 < zlen e) by (eapply write_buffer_start; [..|exact E]; done).
    apply (f_equal length) in Eb. rewrite length_app in Eb. unfold zlen in *.
    apply IH; [lia| |done|done|lia]. rewrite <- (app_nil_r v1). by apply reading_next.
Qed.
End read.

(** ** Whole archives *)

Section archives.
Context {F file : Type} `{VfsOk F file}.
Context (decompressor : string -> option (list Z -> decompressed)).

Implicit Types st : machine F file.

(** An archive in one piece, as the kernel image holds it. *)
Lemma unpack_members ms k st :
  ms <> [] -> Forall member_ok ms -> zlen (rest ms k) < 2 ^ 32 ->
  exists st', unpack_to_rootfs decompressor (rest ms k) st = Ok (None, st') /\
    (fs st', head st') = apply_all ms (fs st, head st).
Proof.
  intros Hne Hms Hl. unfold unpack_to_rootfs.
  destruct ms as [|m ms]; [done|]. destruct (rest_starts m ms k) as [t Et].
  destruct (unpack_loop_ok (apply_all (m :: ms) (fs st, head st)) decompressor (S (length (rest (m :: ms) k))) (rest (m :: ms) k)
    (set_message None (set_this_header 0 (set_state Start st)))) as (st' & -> & Hm & Hg); [done| |done|by rewrite Et|lia|].
  - split; [done|]. exists (m :: ms), k. split; [done|]. by csplit.
  - exists st'. by rewrite bind_Ok, Hm.
Qed.

(** An archive in pieces, as a decompressor hands it over. *)
Lemma flush_members ms k ps st :
  ms <> [] -> Forall member_ok ms -> concat ps = rest ms k -> Forall (fun p => zlen p < 2 ^ 32) ps ->
  state st = Start -> message st = None -> this_header st mod 4 = 0 ->
  exists st', flush_pieces (map flushed ps) 0 st = Ok (0, st') /\ state st' = Reset /\ message st' = None /\
    (fs st', head st') = apply_all ms (fs st, head st).
Proof.
  intros Hne Hms Ec Hps Es Hm Hal. destruct ms as [|m ms]; [done|]. destruct (rest_starts m ms k) as [t Et].
  destruct (flush_pieces_ok (apply_all (m :: ms) (fs st, head st)) ps 0 st Hps) as (st' & E & Hr & Hs).
  - split; [done|]. exists (m :: ms), k. split; [done|]. unfold reading_state. rewrite Es. by csplit.
  - assert (state st' = Reset) as Er by (apply Hs; intros ->; rewrite Et in Ec; done).
    destruct (reading_done _ st' Hr Er). by exists st'.
Qed.
End archives.
