(* ===== verification/CpioWrite.v ===== *)
(** * usr/gen_init_cpio.c: what the writer writes

    The entries of a list of files, the members of the archive that stand for
    them, and the proof that each of the writer's functions appends the
    encoding of those members, whatever portions the contents of a file are
    read in. *)

From Stdlib Require Import String.
From S2P Require Import Prelude LibMath Ctype Kstrtox Initramfs GenInitCpio CpioFormat InitramfsSafety CpioRead.

Local Open Scope Z_scope.

(** ** Entries *)

(** One line of the list, its numbers and strings read. *)
Inductive entry :=
  | Slink (name target : list Z) (mode uid gid : Z)
  | Generic (name : list Z) (mode uid gid : Z)
  | Nod (name : list Z) (mode uid gid dev_type maj min : Z)
  | File (names : list (list Z)) (file : hostfile) (mode uid gid : Z).

Definition nod_mode (dev_type mode : Z) : Z := if dev_type =? 98 then Z.lor mode S_IFBLK else Z.lor mode S_IFCHR.

(** Evaluates the tests of the type of a file, which [E] gives. *)
Ltac known_type E :=
  unfold S_ISLNK, S_ISREG, S_ISDIR, S_ISBLK, S_ISCHR, S_ISFIFO, S_ISSOCK in *; rewrite ?E in *; try done.

Section settings.
Context (do_csum : bool) (default_mtime : Z).

Definition emit (e : entry) (g : gen) : outcome (Z * gen) :=
  match e with
  | Slink name target mode uid gid => cpio_mkslink do_csum default_mtime name target mode uid gid g
  | Generic name mode uid gid => cpio_mkgeneric do_csum default_mtime name mode uid gid g
  | Nod name mode uid gid dev_type maj min => cpio_mknod do_csum default_mtime name mode uid gid dev_type maj min g
  | File names file mode uid gid => cpio_mkfile do_csum names (Some file) mode uid gid g
  end.

(** The entries one after the other, as [main] handles them: an entry that
    fails is reported at the end, and then there is no trailer. *)
Fixpoint emit_all (es : list entry) (ec : Z) (g : gen) : outcome (Z * gen) :=
  match es with
  | [] => if ec =? 0 then g ← cpio_trailer do_csum g; Ok (ec, g) else Ok (ec, g)
  | e :: es =>
      '(rc, g) ← emit e g;
      emit_all es (if rc =? 0 then ec else rc) g
  end.

(** ** Members *)

(** The time stamp of a file, clipped. *)
Definition file_mtime (f : hostfile) : Z :=
  match GenInitCpio.st f with
  | Some (t, _) => if t >? 0xffffffff then 0xffffffff else t
  | None => 0
  end.

Fixpoint file_members (ino mode uid gid nlinks mtime : Z) (data : list Z) (names : list (list Z)) : list member :=
  match names with
  | [] => []
  | name :: names =>
      let body := if bool_decide (names = []) then data else [] in
      Member do_csum ino mode uid gid nlinks mtime 3 1 0 0 (if do_csum then csum_add 0 body else 0) (skip_slash name) body ::
      file_members ino mode uid gid nlinks mtime data names
  end.

Definition members (e : entry) (ino : Z) : list member :=
  match e with
  | Slink name target mode uid gid =>
      [Member do_csum ino (Z.lor S_IFLNK mode) uid gid 1 default_mtime 3 1 0 0 0 (skip_slash name) (target ++ [0])]
  | Generic name mode uid gid =>
      [Member do_csum ino mode uid gid 2 default_mtime 3 1 0 0 0 (skip_slash name) []]
  | Nod name mode uid gid dev_type maj min =>
      [Member do_csum ino (nod_mode dev_type mode) uid gid 1 default_mtime 3 1 maj min 0 (skip_slash name) []]
  | File names file mode uid gid =>
      file_members ino (Z.lor mode S_IFREG) uid gid (Z.of_nat (length names)) (file_mtime file) (contents file) names
  end.

Definition trailer : member := Member do_csum 0 0 0 0 1 0 0 0 0 0 0 trailer_name [].

Fixpoint all_members (es : list entry) (ino : Z) : list member :=
  match es with
  | [] => [trailer]
  | e :: es => members e ino ++ all_members es (ino + 1)
  end.

(** ** What is asked of entries *)

Definition name_ok (name : list Z) : Prop := chars name /\ zlen (skip_slash name) < PATH_MAX.

(** The contents are bytes, and a [read] returns some of what is asked. *)
Definition hostfile_ok (f : hostfile) : Prop :=
  (exists t, GenInitCpio.st f = Some (t, zlen (contents f)) /\ 0 <= t) /\ zlen (contents f) < 2 ^ 32 /\ Forall byte (contents f) /\
  (forall pos n, 0 <= pos -> 0 < n -> pos + n <= zlen (contents f) -> 1 <= reads f pos n <= n) /\ seekable f = true.

Definition owner_ok (uid gid : Z) : Prop := number32 uid /\ number32 gid.

Definition permissions (mode : Z) : Prop := 0 <= mode < 0x1000.

Definition entry_ok (e : entry) : Prop :=
  match e with
  | Slink name target mode uid gid =>
      name_ok name /\ chars target /\ zlen target < PATH_MAX /\ permissions mode /\ owner_ok uid gid
  | Generic name mode uid gid =>
      name_ok name /\ owner_ok uid gid /\
      exists p, permissions p /\ (mode = Z.lor p S_IFDIR \/ mode = Z.lor p S_IFIFO \/ mode = Z.lor p S_IFSOCK)
  | Nod name mode uid gid _ maj min =>
      name_ok name /\ permissions mode /\ owner_ok uid gid /\ number32 maj /\ number32 min
  | File names file mode uid gid =>
      Forall name_ok names /\ names <> [] /\ Z.of_nat (length names) < 2 ^ 32 /\ hostfile_ok file /\ permissions mode /\ owner_ok uid gid
  end.

(** ** Padding *)

Definition aligned (g : gen) : Prop := offset g = u32 (zlen (out g)) /\ zlen (out g) mod 4 = 0.

(** [s] appended. *)
Definition push_bytes (s : list Z) (g : gen) : gen := Gen (out g ++ s) (u32 (offset g + zlen s)) (next_ino g).

Lemma push_bytes_app s t g : push_bytes t (push_bytes s g) = push_bytes (s ++ t) g.
Proof.
  unfold push_bytes. cbn. f_equal; [by rewrite app_assoc|]. unfold u32. rewrite Zplus_mod_idemp_l, zlen_app. f_equal. lia.
Qed.

Lemma push_bytes_nil g : offset g = u32 (offset g) -> push_bytes [] g = g.
Proof. intros Ho. unfold push_bytes. cbn. rewrite app_nil_r, Z.add_0_r, <- Ho. by destruct g. Qed.

Lemma u32_mod4 x : u32 x mod 4 = x mod 4.
Proof. unfold u32. change (2 ^ 32) with (4 * 2 ^ 30). rewrite Z.rem_mul_r by lia. Z.to_euclidean_division_equations. lia. Qed.

Lemma pad4_step x : x mod 4 <> 0 -> pad4 x = S (pad4 (x + 1)).
Proof. unfold pad4. intros Hx. Z.to_euclidean_division_equations. lia. Qed.

Lemma pad4_0 x : x mod 4 = 0 -> pad4 x = 0%nat.
Proof. unfold pad4. intros Hx. Z.to_euclidean_division_equations. lia. Qed.

Lemma putchar_push c g : putchar c g = push_bytes [c] g.
Proof. done. Qed.

Lemma pad_loop_ok fuel g : (pad4 (offset g) < fuel)%nat -> offset g = u32 (offset g) -> pad_loop fuel g = Ok (push_bytes (zeros (pad4 (offset g))) g).
Proof.
  revert g. induction fuel as [|fuel IH]; intros g Hf Ho; [lia|]. cbn [pad_loop]. rewrite land_3.
  destruct (Z.eqb_spec (offset g mod 4) 0) as [E|E].
  - rewrite pad4_0 by done. by rewrite push_bytes_nil.
  - rewrite pad4_step in Hf |- * by done.
    assert (Ep : pad4 (offset (putchar 0 g)) = pad4 (offset g + 1)) by (apply pad4_mod; cbn; by rewrite u32_mod4).
    rewrite IH; [|rewrite Ep; lia|cbn; by rewrite u32_idemp]. rewrite Ep, putchar_push, push_bytes_app. done.
Qed.

Lemma rest_loop_ok fuel tmp g :
  (pad4 tmp < fuel)%nat -> offset g = u32 (offset g) -> rest_loop fuel tmp g = Ok (push_bytes (zeros (pad4 tmp)) g).
Proof.
  revert tmp g. induction fuel as [|fuel IH]; intros tmp g Hf Ho; [lia|]. cbn [rest_loop]. rewrite land_3.
  destruct (Z.eqb_spec (tmp mod 4) 0) as [E|E].
  - rewrite pad4_0 by done. by rewrite push_bytes_nil.
  - rewrite pad4_step in Hf |- * by done.
    assert (Ep : pad4 (u32 (tmp + 1)) = pad4 (tmp + 1)) by (apply pad4_mod; by rewrite u32_mod4).
    rewrite IH; [|rewrite Ep; lia|cbn; by rewrite u32_idemp]. rewrite Ep, putchar_push, push_bytes_app. done.
Qed.

(** ** Headers *)

Definition with_ino (i : Z) (g : gen) : gen := Gen (out g) (offset g) i.

Lemma X08_ok v : number32 v -> X08 v = hex08 v.
Proof. intros Hv. unfold X08. by rewrite u32_small. Qed.

Lemma lX08_ok v : number32 v -> lX08 v = hex08 v.
Proof. unfold number32, lX08. intros Hv. by rewrite u64_small by lia. Qed.

Lemma push_hdr_ok s g : length s = 110%nat -> push_hdr s g = push_bytes s g.
Proof. intros Hs. unfold push_hdr, push_bytes, zlen. by rewrite Hs. Qed.

Lemma push_string_ok s g : zlen s + 1 < 2 ^ 32 -> push_string s g = push_bytes (s ++ [0]) g.
Proof.
  intros Hs. unfold push_string, push_bytes. rewrite zlen_app. change (zlen [0]) with 1. unfold zlen in *. by rewrite (u32_small (_ + 1)) by lia.
Qed.

Lemma push_rest_ok s g :
  zlen s + 1 < 2 ^ 32 -> push_rest s g = Ok (push_bytes ((s ++ [0]) ++ zeros (pad4 (u32 (zlen s + 1 + 110)))) g).
Proof.
  intros Hs. unfold push_rest. fold (zlen s). pose proof (zlen_nonneg s). rewrite (u32_small (zlen s + 1)) by lia.
  assert (E : Gen (out g ++ s ++ [0]) (u32 (offset g + (zlen s + 1))) (next_ino g) = push_bytes (s ++ [0]) g)
    by (unfold push_bytes; by rewrite zlen_app).
  rewrite E, rest_loop_ok, push_bytes_app; [done|apply pad4_lt|cbn; by rewrite u32_idemp].
Qed.

Lemma aligned_put s g : aligned g -> zlen s mod 4 = 0 -> aligned (push_bytes s g).
Proof.
  intros [Ho Ha] Hs. unfold aligned, push_bytes. cbn. rewrite zlen_app, Ho. split; [unfold u32; by rewrite Zplus_mod_idemp_l|].
  rewrite Zplus_mod, Ha, Hs. done.
Qed.

Lemma aligned_u32 g : aligned g -> offset g = u32 (offset g) /\ offset g mod 4 = 0.
Proof. intros [Ho Ha]. rewrite Ho, u32_idemp, u32_mod4. done. Qed.

Lemma pad_after s g : aligned g -> push_pad (push_bytes s g) = Ok (push_bytes (s ++ zeros (pad4 (zlen s))) g).
Proof.
  intros Hg. destruct (aligned_u32 g Hg) as [_ Hm]. unfold push_pad.
  assert (Ep : pad4 (offset (push_bytes s g)) = pad4 (zlen s)).
  { apply pad4_mod. cbn. rewrite u32_mod4, Zplus_mod, Hm, Z.add_0_l. apply Zmod_mod. }
  rewrite pad_loop_ok; [|rewrite Ep; apply pad4_lt|cbn; by rewrite u32_idemp]. by rewrite Ep, push_bytes_app.
Qed.

(** A header and a name, as [push_hdr], [push_string] and [push_pad] or
    [push_rest] write them. *)
Lemma name_pushed m g :
  Forall number32 (fields m) -> aligned g ->
  push_pad (push_string (m_name m) (push_hdr (header_part m) g)) = Ok (push_bytes (header_part m ++ name_part m) g) /\
  push_rest (m_name m) (push_hdr (header_part m) g) = Ok (push_bytes (header_part m ++ name_part m) g) /\
  aligned (push_bytes (header_part m ++ name_part m) g).
Proof.
  intros Hf Hg. pose proof (header_length m Hf) as Hh.
  assert (Hn : number32 (zlen (m_name m) + 1)) by (eapply (Forall_lookup_1 _ _ 11); [exact Hf|done]). unfold number32 in Hn.
  rewrite push_hdr_ok by done.
  assert (Hpad : pad4 (zlen (header_part m ++ m_name m ++ [0])) = pad4 (110 + zlen (m_name m) + 1)).
  { f_equal. rewrite !zlen_app. change (zlen [0]) with 1. unfold zlen at 1. rewrite Hh. lia. }
  assert (E : (header_part m ++ m_name m ++ [0]) ++ zeros (pad4 (110 + zlen (m_name m) + 1)) = header_part m ++ name_part m).
  { unfold name_part. by rewrite <- !app_assoc. }
  csplit.
  - rewrite push_string_ok, push_bytes_app, pad_after, Hpad, E by (done || lia). done.
  - rewrite push_rest_ok, push_bytes_app by lia.
    assert (pad4 (u32 (zlen (m_name m) + 1 + 110)) = pad4 (110 + zlen (m_name m) + 1)) as ->.
    { apply pad4_mod. rewrite u32_mod4. f_equal. lia. }
    by rewrite app_assoc, E.
  - apply aligned_put; [done|]. rewrite zlen_app. unfold zlen at 1. rewrite Hh. apply name_aligned.
Qed.

Lemma header_text m :
  Forall number32 (fields m) ->
  header_part m = magic (m_csum m) ++ X08 (m_ino m) ++ X08 (m_mode m) ++ lX08 (m_uid m) ++ lX08 (m_gid m) ++ X08 (m_nlink m) ++
    lX08 (m_mtime m) ++ X08 (zlen (m_body m)) ++ X08 (m_major m) ++ X08 (m_minor m) ++ X08 (m_rmajor m) ++ X08 (m_rminor m) ++
    X08 (zlen (m_name m) + 1) ++ X08 (m_check m).
Proof.
  intros Hf. unfold header_part. unfold fields in *. rewrite !Forall_cons in Hf. destruct_and! Hf.
  rewrite !X08_ok, !lX08_ok by done. cbn [map concat]. by rewrite app_nil_r.
Qed.

(** ** The members are what the reader takes *)

Lemma number32_small v : 0 <= v <= 2 ^ 31 -> number32 v.
Proof. unfold number32. lia. Qed.

Lemma lor_bound n a b : 0 <= n -> 0 <= a < 2 ^ n -> 0 <= b < 2 ^ n -> 0 <= Z.lor a b < 2 ^ n.
Proof.
  intros Hn Ha Hb. assert (0 <= Z.lor a b) by (apply Z.lor_nonneg; lia). split; [done|].
  assert (E : Z.shiftr (Z.lor a b) n = 0) by (rewrite Z.shiftr_lor, !Z.shiftr_div_pow2, !Z.div_small by lia; done).
  rewrite Z.shiftr_div_pow2 in E by done. apply Z.div_small_iff in E; lia.
Qed.

Lemma mode_type p t : permissions p -> 0 <= t < 2 ^ 16 -> number32 (Z.lor p t).
Proof. unfold permissions, number32. intros Hp Ht. pose proof (lor_bound 16 p t). lia. Qed.

Lemma name_number s : zlen s < PATH_MAX -> number32 (zlen s + 1).
Proof. unfold PATH_MAX, number32. pose proof (zlen_nonneg s). lia. Qed.

Ltac fields32 :=
  unfold fields; rewrite !Forall_cons; cbn [m_ino m_mode m_uid m_gid m_nlink m_mtime m_major m_minor m_rmajor m_rminor m_check m_name m_body];
  csplit; try done; try (by apply Forall_nil); try (by apply name_number); try (apply number32_small; cbn; lia).

(** The type in a mode. *)
Lemma mode_bits p t :
  permissions p -> 0 <= t < 2 ^ 16 -> Z.land t S_IFMT = t -> u16 (Z.lor p t) = Z.lor p t /\ Z.land (Z.lor p t) S_IFMT = t.
Proof.
  intros Hp Ht Et. unfold permissions in Hp. pose proof (lor_bound 16 p t). split; [unfold u16; apply Z.mod_small; lia|].
  rewrite Z.land_lor_distr_l, Et. assert (Z.land p S_IFMT = 0) as ->; [|done]. change S_IFMT with (Z.shiftl 15 12).
  apply Z.bits_inj'. intros n Hn. rewrite Z.land_spec, Z.shiftl_spec, Z.bits_0 by lia. destruct (Z.lt_ge_cases n 12).
  - by rewrite (Z.testbit_neg_r 15), andb_false_r by lia.
  - destruct (decide (p = 0)) as [->|]; [by rewrite Z.bits_0|]. rewrite (Z.bits_above_log2 p); [done|lia|].
    assert (Z.log2 p < 12) by (apply Z.log2_lt_pow2; lia). lia.
Qed.

Lemma chars_skip name : chars name -> chars (skip_slash name).
Proof. intros Hn. destruct name as [|c name]; [done|]. cbn. case_cmp; [|done]. by apply Forall_cons in Hn as [_ Hn]. Qed.

Context (Hmtime : number32 default_mtime).

(** A member without contents that is neither a link nor a file. *)
Lemma special_ok ino p t uid gid nlink rmajor rminor name :
  permissions p -> t = S_IFDIR \/ t = S_IFIFO \/ t = S_IFSOCK \/ t = S_IFBLK \/ t = S_IFCHR -> number32 ino -> owner_ok uid gid ->
  0 <= nlink <= 2 -> number32 rmajor -> number32 rminor -> name_ok name ->
  member_ok (Member do_csum ino (Z.lor p t) uid gid nlink default_mtime 3 1 rmajor rminor 0 (skip_slash name) []).
Proof.
  intros Hp Ht Hi [Hu Hg] Hn Hma Hmi [Hc Hl].
  assert (0 <= t < 2 ^ 16 /\ Z.land t S_IFMT = t) as [Hb Hb'] by (by destruct Ht as [->|[->|[->|[->| ->]]]]).
  destruct (mode_bits p t) as [E1 E2]; [done..|]. unfold member_ok. cbn [m_mode m_name m_body m_csum m_check]. rewrite E1.
  csplit.
  - fields32. by apply mode_type.
  - by apply chars_skip.
  - lia.
  - known_type E2. destruct Ht as [->|[->|[->|[->| ->]]]]; by right.
  - known_type E2.
Qed.

Lemma slink_ok ino name target mode uid gid :
  entry_ok (Slink name target mode uid gid) -> number32 ino ->
  member_ok (Member do_csum ino (Z.lor S_IFLNK mode) uid gid 1 default_mtime 3 1 0 0 0 (skip_slash name) (target ++ [0])).
Proof.
  intros ((Hc & Hl) & Ht & Htl & Hp & [Hu Hgid]) Hi. rewrite Z.lor_comm.
  destruct (mode_bits mode S_IFLNK) as [E1 E2]; [done..|]. unfold member_ok. cbn [m_mode m_name m_body m_csum m_check]. rewrite E1.
  assert (Hz : zlen (target ++ [0]) = zlen target + 1) by (by rewrite zlen_app). csplit.
  - fields32; [by apply mode_type|rewrite Hz; by apply name_number].
  - by apply chars_skip.
  - lia.
  - known_type E2. rewrite Z.eqb_refl. split; [lia|by exists target].
  - known_type E2.
Qed.

Lemma file_members_ok ino p uid gid nlinks mtime data names :
  permissions p -> number32 ino -> owner_ok uid gid -> number32 nlinks -> number32 mtime -> zlen data < 2 ^ 32 ->
  Forall name_ok names -> Forall member_ok (file_members ino (Z.lor p S_IFREG) uid gid nlinks mtime data names).
Proof.
  intros Hp Hi [Hu Hg] Hn Hm Hd Hns. destruct (mode_bits p S_IFREG) as [E1 E2]; [done..|].
  induction Hns as [|name names [Hc Hl] _ IH]; cbn [file_members]; [constructor|]. constructor; [|done]. clear IH.
  set (body := if bool_decide (names = []) then data else []).
  assert (Hb : number32 (zlen body)) by (unfold body, number32; case_bool_decide; [split; [apply zlen_nonneg|done]|done]).
  unfold member_ok. cbn [m_mode m_name m_body m_csum m_check]. rewrite E1. csplit.
  - fields32; [by apply mode_type|]. destruct do_csum; [unfold csum_add; apply u32_range|done].
  - by apply chars_skip.
  - lia.
  - known_type E2. by left.
  - by intros ->.
Qed.

Lemma file_mtime_ok f : hostfile_ok f -> number32 (file_mtime f).
Proof. intros ((t & E & Ht) & _). unfold file_mtime, number32. rewrite E. case_cmp; lia. Qed.

Lemma members_ok e ino : entry_ok e -> number32 ino -> Forall member_ok (members e ino).
Proof.
  intros He Hi. destruct e as [name target mode uid gid|name mode uid gid|name mode uid gid dev maj min|names f mode uid gid];
    cbn [members].
  - apply Forall_singleton. by apply slink_ok.
  - destruct He as (Hn & Ho & p & Hp & Hm). apply Forall_singleton.
    destruct Hm as [->|[->| ->]]; apply special_ok; try done; try (apply number32_small; lia); auto.
  - destruct He as (Hn & Hp & Ho & Hma & Hmi). apply Forall_singleton. unfold nod_mode. case_cmp; apply special_ok; auto; lia.
  - destruct He as (Hns & Hne & Hlen & Hf & Hp & Ho). apply file_members_ok; try done; [unfold number32; lia|by apply file_mtime_ok|by destruct Hf as (_ & ? & _)].
Qed.

Lemma member_fields e ino m : entry_ok e -> number32 ino -> members e ino = [m] -> Forall number32 (fields m).
Proof. intros He Hi E. pose proof (members_ok e ino He Hi) as Hm. rewrite E in Hm. by apply Forall_inv in Hm as (Hf & _). Qed.

(** ** Entries without contents *)

Lemma empty_body m : m_body m = [] -> encode m = header_part m ++ name_part m.
Proof. intros E. unfold encode, body_pad. rewrite E. by rewrite app_nil_r. Qed.

Definition emitted (ms : list member) (g : gen) : gen := with_ino (next_ino g + 1) (push_bytes (concat (map encode ms)) g).

Lemma emit_single e m g :
  members e (next_ino g) = [m] -> m_body m = [] -> Forall number32 (fields m) -> aligned g -> number32 (next_ino g + 1) ->
  emit e g = (g ← push_rest (m_name m) (push_hdr (header_part m) (use_ino g)); Ok (0, g)) ->
  emit e g = Ok (0, emitted (members e (next_ino g)) g) /\ aligned (emitted (members e (next_ino g)) g).
Proof.
  intros Em Eb Hf Hg Hi ->. rewrite Em. destruct (name_pushed m (use_ino g) Hf Hg) as (_ & -> & Ha).
  rewrite bind_Ok. unfold emitted. cbn [map concat]. rewrite app_nil_r, empty_body by done.
  split; [|exact Ha]. unfold use_ino, with_ino, push_bytes. cbn. by rewrite (u32_small (_ + 1)).
Qed.

Lemma emit_generic name mode uid gid g :
  entry_ok (Generic name mode uid gid) -> aligned g -> number32 (next_ino g) -> number32 (next_ino g + 1) ->
  let e := Generic name mode uid gid in
  emit e g = Ok (0, emitted (members e (next_ino g)) g) /\ aligned (emitted (members e (next_ino g)) g).
Proof.
  intros He Hg Hi Hi' e. set (m := hd trailer (members e (next_ino g))).
  assert (Hf : Forall number32 (fields m)) by (by apply (member_fields e (next_ino g))).
  apply (emit_single e m); try done. rewrite (header_text m Hf). done.
Qed.

Lemma emit_nod name mode uid gid dev_type maj min g :
  entry_ok (Nod name mode uid gid dev_type maj min) -> aligned g -> number32 (next_ino g) -> number32 (next_ino g + 1) ->
  let e := Nod name mode uid gid dev_type maj min in
  emit e g = Ok (0, emitted (members e (next_ino g)) g) /\ aligned (emitted (members e (next_ino g)) g).
Proof.
  intros He Hg Hi Hi' e. set (m := hd trailer (members e (next_ino g))).
  assert (Hf : Forall number32 (fields m)) by (by apply (member_fields e (next_ino g))).
  apply (emit_single e m); try done. rewrite (header_text m Hf). done.
Qed.

Lemma block_loop_ok fuel g :
  (- offset g) mod 512 < Z.of_nat fuel -> offset g = u32 (offset g) -> exists k, block_loop fuel g = Ok (push_bytes (zeros k) g).
Proof.
  revert g. induction fuel as [|fuel IH]; intros g Hf Ho; [pose proof (Z.mod_pos_bound (- offset g) 512); lia|]. cbn [block_loop].
  destruct (Z.eqb_spec (offset g mod 512) 0) as [E|E].
  - exists 0%nat. by rewrite push_bytes_nil.
  - destruct (IH (putchar 0 g)) as [k Ek].
    + cbn. unfold u32. change (2 ^ 32) with (512 * 2 ^ 23). Z.to_euclidean_division_equations. lia.
    + cbn. by rewrite u32_idemp.
    + exists (S k). rewrite Ek, putchar_push, push_bytes_app. done.
Qed.

Lemma trailer_fields : Forall number32 (fields trailer).
Proof. unfold trailer. fields32. Qed.

Lemma trailer_ok g : aligned g -> exists k, cpio_trailer do_csum g = Ok (push_bytes (rest [trailer] k) g).
Proof.
  intros Hg. unfold cpio_trailer. destruct (name_pushed trailer g trailer_fields Hg) as (_ & E & Ha).
  rewrite (header_text trailer trailer_fields) in E at 1. cbn [trailer m_csum m_ino m_mode m_uid m_gid m_nlink m_mtime m_major
    m_minor m_rmajor m_rminor m_check m_name m_body] in E. change (zlen []) with 0 in E.
  change (strlen_1 trailer_name) with (zlen trailer_name + 1). rewrite E, bind_Ok.
  destruct (block_loop_ok 513 (push_bytes (header_part trailer ++ name_part trailer) g)) as [k ->].
  - pose proof (Z.mod_pos_bound (- offset (push_bytes (header_part trailer ++ name_part trailer) g)) 512). lia.
  - cbn [offset push_bytes]. by rewrite u32_idemp.
  - exists k. rewrite push_bytes_app. f_equal. f_equal. unfold rest. cbn [map concat]. by rewrite empty_body, app_nil_r.
Qed.

(** ** Symbolic links and files *)

Lemma encode_body m : encode m = (header_part m ++ name_part m) ++ m_body m ++ body_pad m.
Proof. unfold encode. by rewrite <- app_assoc. Qed.

(** The body after the name. *)
Lemma body_pushed m g :
  aligned (push_bytes (header_part m ++ name_part m) g) ->
  push_pad (push_bytes (m_body m) (push_bytes (header_part m ++ name_part m) g)) = Ok (push_bytes (encode m) g) /\ aligned (push_bytes (encode m) g).
Proof.
  intros Ha. rewrite pad_after by done. fold (body_pad m). rewrite push_bytes_app, <- encode_body. split; [done|].
  rewrite encode_body, <- push_bytes_app. apply aligned_put; [done|]. rewrite zlen_app. unfold body_pad. rewrite zlen_zeros.
  apply pad4_aligned.
Qed.

Lemma emit_slink name target mode uid gid g :
  entry_ok (Slink name target mode uid gid) -> aligned g -> number32 (next_ino g) -> number32 (next_ino g + 1) ->
  let e := Slink name target mode uid gid in
  emit e g = Ok (0, emitted (members e (next_ino g)) g) /\ aligned (emitted (members e (next_ino g)) g).
Proof.
  intros He Hg Hi Hi' e. set (m := hd trailer (members e (next_ino g))). pose proof He as (_ & _ & Htl & _).
  assert (Hb : zlen (m_body m) = zlen target + 1) by apply zlen_app.
  assert (Hf : Forall number32 (fields m)) by (by apply (member_fields e (next_ino g))).
  destruct (name_pushed m (use_ino g) Hf Hg) as (E & _ & Ha). destruct (body_pushed m _ Ha) as [E2 Ha2].
  assert (E3 : emit e g = (g ← push_pad (push_string (m_name m) (push_hdr (header_part m) (use_ino g)));
    g ← push_pad (push_string target g); Ok (0, g))).
  { rewrite (header_text m Hf), Hb. done. }
  rewrite E3, E, bind_Ok, push_string_ok by (unfold PATH_MAX in *; lia). change (target ++ [0]) with (m_body m). rewrite E2, bind_Ok.
  unfold emitted. change (members e (next_ino g)) with [m]. cbn [map concat]. rewrite app_nil_r.
  split; [|exact Ha2]. unfold use_ino, with_ino, push_bytes. cbn [out offset next_ino]. by rewrite (u32_small (next_ino g + 1)).
Qed.

(** Reading a file to its end, in any portions. *)
Lemma read_some_ok f pos size :
  hostfile_ok f -> 0 <= pos -> 0 < size -> pos + size = zlen (contents f) ->
  exists b rest, read_some f pos size = Some b /\ drop (Z.to_nat pos) (contents f) = b ++ rest /\ 0 < zlen b <= size /\
    rest = drop (Z.to_nat (pos + zlen b)) (contents f).
Proof.
  intros (_ & _ & _ & Hr & _) Hpos Hs E. unfold read_some. set (n := if size <? 65536 then size else 65536).
  assert (Hn : 0 < n <= size) by (unfold n; case_cmp; lia). specialize (Hr pos n Hpos ltac:(lia) ltac:(lia)).
  replace ((reads f pos n <=? 0) || (reads f pos n >? n)) with false by lia.
  set (k := Z.to_nat (reads f pos n)). set (d := drop (Z.to_nat pos) (contents f)).
  assert (Hd : length d = Z.to_nat size) by (unfold d; rewrite length_drop; unfold zlen in E; lia).
  assert (Hk : zlen (take k d) = Z.of_nat k) by (unfold zlen; rewrite length_take; lia).
  exists (take k d), (drop k d). rewrite Hk. csplit; [done|by rewrite take_drop|lia|lia|].
  unfold d. rewrite drop_drop. f_equal. lia.
Qed.

Lemma csum_loop_ok fuel f pos size csum :
  hostfile_ok f -> 0 <= pos -> 0 <= size < Z.of_nat fuel -> pos + size = zlen (contents f) -> number32 csum ->
  csum_loop fuel f pos size csum = Ok (Some (csum_add csum (drop (Z.to_nat pos) (contents f)))).
Proof.
  intros Hf. revert pos size csum. induction fuel as [|fuel IH]; intros pos size csum Hpos Hs E Hc; [lia|]. cbn [csum_loop].
  destruct (Z.eqb_spec size 0) as [->|Hne].
  - destruct Hf as (_ & _ & _ & _ & ->). rewrite drop_ge by (unfold zlen in E; lia). unfold csum_add. cbn.
    by rewrite Z.add_0_r, u32_small.
  - destruct (read_some_ok f pos size Hf Hpos ltac:(lia) E) as (b & r & -> & Ed & Hb & Er). fold (zlen b).
    rewrite IH; [|lia..|unfold csum_add, number32; apply u32_range]. by rewrite Ed, csum_add_app, <- Er.
Qed.

Lemma copy_loop_ok fuel f pos size g :
  hostfile_ok f -> 0 <= pos -> 0 <= size < Z.of_nat fuel -> pos + size = zlen (contents f) -> offset g = u32 (offset g) ->
  copy_loop fuel f pos size g = Ok (true, push_bytes (drop (Z.to_nat pos) (contents f)) g).
Proof.
  intros Hf. revert pos size g. induction fuel as [|fuel IH]; intros pos size g Hpos Hs E Ho; [lia|]. cbn [copy_loop].
  destruct (Z.eqb_spec size 0) as [->|Hne].
  - rewrite drop_ge by (unfold zlen in E; lia). by rewrite push_bytes_nil.
  - destruct (read_some_ok f pos size Hf Hpos ltac:(lia) E) as (b & r & -> & Ed & Hb & Er). fold (zlen b).
    fold (push_bytes b g). rewrite IH; [|lia..|cbn; by rewrite u32_idemp]. by rewrite push_bytes_app, Ed, <- Er.
Qed.

Lemma names_loop_ok f names mode uid gid nlinks mtime g :
  hostfile_ok f -> number32 (next_ino g + 1) -> aligned g ->
  let data := contents f in
  let ms := file_members (next_ino g) mode uid gid nlinks mtime data names in
  Forall member_ok ms ->
  names_loop do_csum f names mode uid gid nlinks mtime (zlen data) (if do_csum then csum_add 0 data else 0) g =
    Ok (0, emitted ms g) /\ aligned (emitted ms g).
Proof.
  intros Hf. cbn zeta. revert g. induction names as [|name names IH]; intros g Hi Hg Hms.
  { cbn. unfold emitted, use_ino. cbn [map concat]. rewrite push_bytes_nil, (u32_small (_ + 1)) by (done || by apply aligned_u32).
    done. }
  cbn [names_loop file_members] in *. apply Forall_cons in Hms as [Hm1 Hms].
  set (body := if bool_decide (names = []) then contents f else []) in *.
  set (m := Member _ _ _ _ _ _ _ _ _ _ _ _ _ body) in *. destruct Hm1 as (Hfl & _).
  assert (Hbody : number32 (zlen (m_body m))) by (eapply (Forall_lookup_1 _ _ 6); [exact Hfl|done]).
  assert (Esize : (if bool_decide (names = []) then zlen (contents f) else 0) = zlen body) by (unfold body; by case_bool_decide).
  rewrite Esize.
  assert (Eck : (if negb (zlen body =? 0) then if do_csum then csum_add 0 (contents f) else 0 else 0) = m_check m).
  { unfold m. cbn [m_check]. destruct (Z.eqb_spec (zlen body) 0) as [E0|E0]; cbn [negb].
    - destruct body; [by destruct do_csum|done].
    - unfold body in *. by case_bool_decide. }
  rewrite Eck.
  assert (Hh : magic do_csum ++ X08 (next_ino g) ++ X08 mode ++ lX08 uid ++ lX08 gid ++ X08 nlinks ++ lX08 mtime ++ lX08 (zlen body) ++
    X08 3 ++ X08 1 ++ X08 0 ++ X08 0 ++ X08 (strlen_1 (skip_slash name)) ++ X08 (m_check m) = header_part m).
  { rewrite (header_text m Hfl), (X08_ok (zlen (m_body m))), <- (lX08_ok (zlen (m_body m))) by done. done. }
  rewrite Hh. change (skip_slash name) with (m_name m). destruct (name_pushed m g Hfl Hg) as (-> & _ & Ha). rewrite bind_Ok.
  set (g1 := push_bytes (header_part m ++ name_part m) g) in *. destruct (aligned_u32 g1 Ha) as [Ho1 _].
  assert (Ecopy : copy_loop (S (Z.to_nat (zlen body))) f 0 (zlen body) g1 = Ok (true, push_bytes (m_body m) g1)).
  { unfold m, body. cbn [m_body]. case_bool_decide.
    - pose proof (zlen_nonneg (contents f)). rewrite copy_loop_ok by (done || lia). by rewrite drop_0.
    - by rewrite push_bytes_nil. }
  rewrite Ecopy, bind_Ok. unfold g1. destruct (body_pushed m g Ha) as [-> Ha2]. rewrite bind_Ok.
  destruct (IH (push_bytes (encode m) g) Hi Ha2 Hms) as [-> Ha3].
  assert (E : forall ms, emitted (m :: ms) g = emitted ms (push_bytes (encode m) g)).
  { intros ms. unfold emitted, with_ino. cbn [map concat]. by rewrite <- push_bytes_app. }
  rewrite E. done.
Qed.

Lemma emit_file names f mode uid gid g :
  entry_ok (File names f mode uid gid) -> aligned g -> number32 (next_ino g) -> number32 (next_ino g + 1) ->
  let e := File names f mode uid gid in
  emit e g = Ok (0, emitted (members e (next_ino g)) g) /\ aligned (emitted (members e (next_ino g)) g).
Proof.
  intros (Hns & Hne & Hlen & Hf & Hp & Ho) Hg Hi Hi' e. unfold e. cbn [emit]. unfold cpio_mkfile.
  pose proof Hf as ((t & Est & Ht) & Hl & _ & _ & _). rewrite Est. pose proof (zlen_nonneg (contents f)) as H0.
  rewrite (Z.gtb_ltb (zlen _)), (proj2 (Z.ltb_ge _ (zlen _))) by lia.
  assert (Hcs : (if do_csum then cpio_mkfile_csum f (zlen (contents f)) else Ok (Some 0)) =
    Ok (Some (if do_csum then csum_add 0 (contents f) else 0))).
  { destruct do_csum; [|done]. unfold cpio_mkfile_csum. by rewrite csum_loop_ok by (done || lia || (apply number32_small; lia)). }
  rewrite Hcs, bind_Ok. cbn [members].
  assert (Emt : (if t >? 4294967295 then 4294967295 else t) = file_mtime f) by (unfold file_mtime; by rewrite Est).
  rewrite Emt. apply names_loop_ok; [done..|]. apply (members_ok e (next_ino g)); [by unfold e|done].
Qed.

Lemma emit_ok e g :
  entry_ok e -> aligned g -> number32 (next_ino g) -> number32 (next_ino g + 1) ->
  emit e g = Ok (0, emitted (members e (next_ino g)) g) /\ aligned (emitted (members e (next_ino g)) g).
Proof.
  destruct e; intros; [by apply emit_slink|by apply emit_generic|by apply emit_nod|by apply emit_file].
Qed.

(** The whole archive: the members of the entries, with inode numbers counted
    up, the trailer, and zeros up to a multiple of 512. *)
Lemma emit_all_ok es g :
  Forall entry_ok es -> aligned g -> 0 <= next_ino g -> next_ino g + Z.of_nat (length es) < 2 ^ 32 ->
  exists k g', emit_all es 0 g = Ok (0, g') /\ out g' = out g ++ rest (all_members es (next_ino g)) k.
Proof.
  intros Hes. revert g. induction Hes as [|e es He _ IH]; intros g Hg Hi Hn; cbn [emit_all all_members].
  - destruct (trailer_ok g Hg) as [k ->]. cbn [Z.eqb]. rewrite bind_Ok. by eexists k, _.
  - cbn [length] in Hn. destruct (emit_ok e g) as [-> Ha]; [done|done|unfold number32; lia..|]. rewrite bind_Ok. cbn [Z.eqb].
    destruct (IH _ Ha) as (k & g' & E & Eo); [cbn; lia..|]. exists k, g'. split; [done|]. rewrite Eo.
    unfold emitted, with_ino, push_bytes, rest. cbn [out next_ino]. rewrite map_app, concat_app, <- !app_assoc. done.
Qed.
End settings.
