(* ===== verification/CpioArchive.v ===== *)
(** * From the list of files to the root file system

    [install] says what calls an entry of the list stands for. The theorem:
    the archive that [gen_init_cpio] writes for a list of entries makes the
    kernel do exactly those calls, in order, and report no error, both when
    the archive is in the kernel image as it is and when a decompressor hands
    it over in pieces. *)

From Stdlib Require Import String.
From S2P Require Import Prelude LibMath Ctype Kstrtox Initramfs GenInitCpio CpioFormat InitramfsSafety CpioRead CpioWrite.

Local Open Scope Z_scope.

Section archive.
Context {F file : Type} `{VfsOk F file}.

Abbreviation links := (list (list hash)).

(** ** What an entry stands for *)

(** A file that is open: owner, mode and size, then the contents. *)
Definition fill (f : F) (w : file) (mode uid gid : Z) (data : list Z) : F :=
  let f := vfs_fchmod (vfs_fchown f w uid gid) w mode in
  let f := if zlen data =? 0 then f else vfs_truncate f w (zlen data) in
  fput (store f w data 0) w.

(** One name of a file. The first creates it, the others are linked to the
    first; nothing more happens when the file system refuses the link or
    the file. *)
Definition install_name (first : option (list Z)) (path : list Z) (mode uid gid : Z) (data : list Z) (f : F) : F :=
  let f := clean_path path mode f in
  let '(f, r) := match first with
                 | None => (f, 0)
                 | Some old => init_link (clean_path path 0 f) old path
                 end in
  if r <? 0 then f
  else
    let flags := match first with
                 | None => Z.lor (Z.lor O_WRONLY O_CREAT) O_TRUNC
                 | Some _ => Z.lor O_WRONLY O_CREAT
                 end in
    match filp_open f path flags mode with
    | (f, None) => f
    | (f, Some w) => fill f w mode uid gid data
    end.

(** The names of a file; the contents go with the last. *)
Fixpoint install_names (first : option (list Z)) (names : list (list Z)) (mode uid gid : Z) (data : list Z) (f : F) : F :=
  match names with
  | [] => f
  | name :: names =>
      let path := skip_slash name in
      let f := install_name first path mode uid gid (if bool_decide (names = []) then data else []) f in
      install_names (Some (default path first)) names mode uid gid data f
  end.

Definition owned (path : list Z) (mode uid gid : Z) (f : F) : F := init_chmod (init_chown f path uid gid 0) path mode.

Definition install (e : entry) (f : F) : F :=
  match e with
  | Slink name target mode uid gid =>
      let path := skip_slash name in
      init_chown (init_symlink (clean_path path 0 f) target path) path uid gid AT_SYMLINK_NOFOLLOW
  | Generic name mode uid gid =>
      let path := skip_slash name in
      let f := clean_path path mode f in
      owned path mode uid gid (if S_ISDIR mode then init_mkdir f path mode else init_mknod f path mode 0)
  | Nod name mode uid gid dev_type maj min =>
      let path := skip_slash name in
      let mode := nod_mode dev_type mode in
      owned path mode uid gid (init_mknod (clean_path path mode f) path mode (new_encode_dev (MKDEV maj min)))
  | File names hf mode uid gid =>
      install_names None names (Z.lor mode S_IFREG) uid gid (contents hf) f
  end.

Definition install_all (es : list entry) (f : F) : F := fold_left (fun f e => install e f) es f.

(** No name is that of the trailer. *)
Definition no_trailer (e : entry) : Prop :=
  match e with
  | Slink _ _ _ _ _ => True
  | Generic name _ _ _ | Nod name _ _ _ _ _ _ => skip_slash name <> bytes_of "TRAILER!!!"
  | File names _ _ _ _ => Forall (fun name => skip_slash name <> bytes_of "TRAILER!!!") names
  end.

(** ** The table of hard links *)

(** Only inode numbers below [n] are in the table. *)
Definition older (n : Z) (hd : links) : Prop :=
  length hd = 32%nat /\ Forall (Forall (fun q => exists i, 0 <= i < n /\ q_ino q = s32 i)) hd.

Lemma s32_inj a b : number32 a -> number32 b -> s32 a = s32 b -> a = b.
Proof. unfold number32, s32. intros Ha Hb E. Z.to_euclidean_division_equations. lia. Qed.

Lemma link_hash_range ma mi i : 0 <= link_hash ma mi i < 32.
Proof. unfold link_hash. change 31 with (Z.ones 5). rewrite Z.land_ones by lia. apply Z.mod_pos_bound. lia. Qed.

Lemma link_chain_new ma mi i md name p :
  Forall (fun q => link_matches ma mi i md q = false) p ->
  link_chain ma mi i md name p = (None, p ++ [Hash i mi ma md name]).
Proof. induction 1 as [|q p Hq _ IH]; [done|]. cbn. by rewrite Hq, IH. Qed.

Lemma link_chain_found ma mi i md name p q :
  Forall (fun q => link_matches ma mi i md q = false) p -> link_matches ma mi i md q = true ->
  link_chain ma mi i md name (p ++ [q]) = (Some (q_name q), p ++ [q]).
Proof. intros Hp Hq. induction Hp as [|q' p Hq' _ IH]; cbn; [by rewrite Hq|]. by rewrite Hq', IH. Qed.

Lemma link_matches_self ma mi i md name : link_matches ma mi i md (Hash i mi ma md name) = true.
Proof. unfold link_matches. cbn. by rewrite !Z.eqb_refl, Z.lxor_nilpotent. Qed.

(** A new inode number is not found, and is entered; later names with it find
    the first. *)
Lemma find_link_new ma mi n md name hd :
  older n hd -> 0 <= n -> n + 1 < 2 ^ 32 ->
  exists hd', find_link ma mi (s32 n) md name hd = (None, hd') /\ older (n + 1) hd' /\
    forall name', find_link ma mi (s32 n) md name' hd' = (Some name, hd').
Proof.
  intros [Hl Hold] Hn Hn1. unfold find_link. set (k := Z.to_nat (link_hash ma mi (s32 n))).
  assert (Hk : (k < length hd)%nat) by (pose proof (link_hash_range ma mi (s32 n)); lia).
  destruct (lookup_lt_is_Some_2 hd k Hk) as [p Hp]. rewrite (list_lookup_total_correct _ _ _ Hp).
  assert (Hno : Forall (fun q => link_matches ma mi (s32 n) md q = false) p).
  { eapply Forall_lookup_1 in Hold; [|exact Hp]. eapply Forall_impl; [exact Hold|]. intros q (i & Hi & Eq).
    unfold link_matches. rewrite Eq. destruct (Z.eqb_spec (s32 i) (s32 n)) as [E|]; [|done].
    apply s32_inj in E; unfold number32; lia. }
  rewrite link_chain_new by done. eexists. split; [reflexivity|]. split.
  - split; [by rewrite length_insert|]. apply Forall_insert.
    + eapply Forall_impl; [exact Hold|]. intros p' Hp'. eapply Forall_impl; [exact Hp'|]. intros q (i & Hi & Eq). exists i. lia.
    + apply Forall_app. split.
      * eapply Forall_lookup_1 in Hold; [|exact Hp]. eapply Forall_impl; [exact Hold|]. intros q (i & Hi & Eq). exists i. lia.
      * apply Forall_singleton. exists n. cbn. lia.
  - intros name'. rewrite list_lookup_total_insert_eq by done. rewrite link_chain_found by (done || apply link_matches_self).
    cbn [q_name]. by rewrite list_insert_insert_eq.
Qed.

Lemma older_weaken n m hd : older n hd -> n <= m -> older m hd.
Proof.
  intros [Hl Ho] Hm. split; [done|]. eapply Forall_impl; [exact Ho|]. intros p Hp. eapply Forall_impl; [exact Hp|].
  intros q (i & Hi & Eq). exists i. lia.
Qed.

Lemma older_none n : older n no_links.
Proof. split; [done|]. unfold no_links. apply Forall_replicate. constructor. Qed.

(** ** Members do what entries stand for *)

Context (do_csum : bool) (default_mtime : Z).

(** The member of a device, pipe, socket or directory. *)
Lemma apply_special ino p t uid gid nlink rmajor rminor name f (hd : links) :
  permissions p -> t = S_IFDIR \/ t = S_IFIFO \/ t = S_IFSOCK \/ t = S_IFBLK \/ t = S_IFCHR ->
  skip_slash name <> bytes_of "TRAILER!!!" -> older ino hd -> 0 <= ino -> ino + 1 < 2 ^ 32 ->
  exists hd',
    apply (Member do_csum ino (Z.lor p t) uid gid nlink default_mtime 3 1 rmajor rminor 0 (skip_slash name) []) (f, hd) =
      (let path := skip_slash name in let mode := Z.lor p t in let f := clean_path path mode f in
       owned path mode uid gid (if t =? S_IFDIR then init_mkdir f path mode
                                else init_mknod f path mode (new_encode_dev (MKDEV rmajor rminor))), hd') /\
    older (ino + 1) hd'.
Proof.
  intros Hp Ht Hn Ho Hi Hi'.
  assert (0 <= t < 2 ^ 16 /\ Z.land t S_IFMT = t) as [Hb Hb'] by (by destruct Ht as [->|[->|[->|[->| ->]]]]).
  destruct (mode_bits p t) as [E1 E2]; [done..|]. unfold apply, create. cbn [mode header_of m_mode m_name]. rewrite E1.
  rewrite bool_decide_false by done. known_type E2.
  assert (Hlink : exists hd', link_member (header_of (Member do_csum ino (Z.lor p t) uid gid nlink default_mtime 3 1 rmajor rminor 0
    (skip_slash name) [])) (skip_slash name) (clean_path (skip_slash name) (Z.lor p t) f, hd) =
    (0, (clean_path (skip_slash name) (Z.lor p t) f, hd')) /\ older (ino + 1) hd').
  { unfold link_member. cbn [Initramfs.nlink header_of m_nlink]. destruct (nlink >=? 2); [|exists hd; split; [done|eapply older_weaken; [done|lia]]].
    cbn [major minor Initramfs.ino header_of m_major m_minor m_ino].
    destruct (find_link_new (s32 3) (s32 1) ino (mode (header_of (Member do_csum ino (Z.lor p t) uid gid nlink default_mtime 3 1 rmajor
      rminor 0 (skip_slash name) []))) (skip_slash name) hd Ho Hi Hi') as (hd' & -> & Ho' & _). by exists hd'. }
  destruct Hlink as (hd' & El & Ho'). destruct Ht as [->|[->|[->|[->| ->]]]]; cbn -[find_link link_member clean_path Z.lor];
    [exists hd; split; [done|eapply older_weaken; [done|lia]]|..]; rewrite El; by exists hd'.
Qed.

Lemma apply_slink ino name target mode uid gid f (hd : links) :
  permissions mode -> chars target ->
  apply (Member do_csum ino (Z.lor S_IFLNK mode) uid gid 1 default_mtime 3 1 0 0 0 (skip_slash name) (target ++ [0])) (f, hd) =
    (install (Slink name target mode uid gid) f, hd).
Proof.
  intros Hp Ht. rewrite Z.lor_comm. destruct (mode_bits mode S_IFLNK) as [E1 E2]; [done..|].
  unfold apply. cbn [Initramfs.mode header_of m_mode m_name m_body]. rewrite E1. known_type E2. rewrite Z.eqb_refl.
  unfold symlink. by rewrite until_nul_chars.
Qed.

Section file.
Context (p uid gid nlinks ino mtime : Z) (data : list Z).
Context (Hp : permissions p).

Let md := Z.lor p S_IFREG.

(** The first name of a file, or its only one. *)
Lemma apply_first name body check f (hd : links) :
  skip_slash name <> bytes_of "TRAILER!!!" -> older ino hd -> 0 <= ino -> ino + 1 < 2 ^ 32 ->
  exists hd', apply (Member do_csum ino md uid gid nlinks mtime 3 1 0 0 check (skip_slash name) body) (f, hd) =
      (install_name None (skip_slash name) md uid gid body f, hd') /\ older (ino + 1) hd' /\
    (2 <= nlinks -> forall path, find_link 3 1 (s32 ino) md path hd' = (Some (skip_slash name), hd')).
Proof.
  intros Hn Ho Hi Hi'. destruct (mode_bits p S_IFREG Hp) as [E1 E2]; [done..|]. fold md in E1, E2.
  unfold apply, create. cbn [mode header_of m_mode m_name m_body]. rewrite E1. rewrite bool_decide_false by done.
  known_type E2. change (S_IFREG =? S_IFLNK) with false. change (S_IFREG =? S_IFREG) with true. cbn beta iota zeta.
  unfold link_member. cbn [nlink major minor Initramfs.ino mode header_of m_nlink m_major m_minor m_ino m_mode]. rewrite E1.
  change (s32 3) with 3. change (s32 1) with 1. fold md. unfold install_name, fill, prepare.
  cbn [Initramfs.uid Initramfs.gid body_len mode header_of m_uid m_gid m_body m_mode]. rewrite E1. fold md.
  destruct (Z.geb_spec nlinks 2) as [Hge|Hlt].
  - destruct (find_link_new 3 1 ino md (skip_slash name) hd Ho Hi Hi') as (hd' & -> & Ho' & Hf). exists hd'.
    cbn beta iota zeta. change (open_flags 0) with (Z.lor (Z.lor O_WRONLY O_CREAT) O_TRUNC).
    split; [by destruct (filp_open _ _ _ _) as [f2 [w|]]|]. by split.
  - exists hd. cbn beta iota zeta. change (open_flags 0) with (Z.lor (Z.lor O_WRONLY O_CREAT) O_TRUNC).
    split; [by destruct (filp_open _ _ _ _) as [f2 [w|]]|]. split; [eapply older_weaken; [done|lia]|lia].
Qed.

(** A further name. *)
Lemma apply_linked first name body check f (hd : links) :
  skip_slash name <> bytes_of "TRAILER!!!" -> 2 <= nlinks ->
  (forall path, find_link 3 1 (s32 ino) md path hd = (Some first, hd)) ->
  apply (Member do_csum ino md uid gid nlinks mtime 3 1 0 0 check (skip_slash name) body) (f, hd) =
    (install_name (Some first) (skip_slash name) md uid gid body f, hd).
Proof.
  intros Hn Hnl Hf. destruct (mode_bits p S_IFREG Hp) as [E1 E2]; [done..|]. fold md in E1, E2.
  unfold apply, create. cbn [mode header_of m_mode m_name m_body]. rewrite E1. rewrite bool_decide_false by done.
  known_type E2. change (S_IFREG =? S_IFLNK) with false. change (S_IFREG =? S_IFREG) with true. cbn beta iota zeta.
  unfold link_member. cbn [nlink major minor Initramfs.ino mode header_of m_nlink m_major m_minor m_ino m_mode]. rewrite E1.
  change (s32 3) with 3. change (s32 1) with 1. fold md. unfold install_name, fill, prepare.
  cbn [Initramfs.uid Initramfs.gid body_len mode header_of m_uid m_gid m_body m_mode]. rewrite E1. fold md.
  rewrite Z.geb_leb, (proj2 (Z.leb_le _ _)), Hf by done. destruct (init_link _ _ _) as [f1 r]. destruct (r <? 0); [done|].
  cbn beta iota zeta. change (open_flags 1) with (Z.lor O_WRONLY O_CREAT). by destruct (filp_open _ _ _ _) as [f2 [w|]].
Qed.

Lemma apply_names first names f (hd : links) :
  2 <= nlinks -> (forall path, find_link 3 1 (s32 ino) md path hd = (Some first, hd)) ->
  Forall (fun name => skip_slash name <> bytes_of "TRAILER!!!") names ->
  apply_all (file_members do_csum ino md uid gid nlinks mtime data names) (f, hd) =
    (install_names (Some first) names md uid gid data f, hd).
Proof.
  intros Hnl Hf Hns. revert f. induction Hns as [|name names Hn _ IH]; intros f; [done|].
  cbn [file_members apply_all fold_left install_names default]. rewrite (apply_linked first) by done. apply IH.
Qed.
End file.

Lemma apply_file names hf mode uid gid ino f (hd : links) :
  entry_ok (File names hf mode uid gid) -> no_trailer (File names hf mode uid gid) -> older ino hd -> 0 <= ino -> ino + 1 < 2 ^ 32 ->
  exists hd', apply_all (members do_csum default_mtime (File names hf mode uid gid) ino) (f, hd) =
    (install (File names hf mode uid gid) f, hd') /\ older (ino + 1) hd'.
Proof.
  intros (_ & Hne & _ & _ & Hp & _) Hns Ho Hi Hi'. cbn in Hns. destruct names as [|name names]; [done|].
  apply Forall_cons in Hns as [Hn Hns]. cbn [members file_members apply_all fold_left install install_names default].
  destruct (apply_first mode uid gid (Z.of_nat (length (name :: names))) ino (file_mtime hf) Hp name
    (if bool_decide (names = []) then contents hf else [])
    (if do_csum then csum_add 0 (if bool_decide (names = []) then contents hf else []) else 0) f hd Hn Ho Hi Hi') as (hd' & -> & Ho' & Hf).
  exists hd'. split; [|done]. destruct names as [|name2 names]; [done|].
  apply apply_names; [done|cbn; lia| |done]. apply Hf. cbn. lia.
Qed.

Lemma apply_entry e ino f (hd : links) :
  entry_ok e -> no_trailer e -> older ino hd -> 0 <= ino -> ino + 1 < 2 ^ 32 ->
  exists hd', apply_all (members do_csum default_mtime e ino) (f, hd) = (install e f, hd') /\ older (ino + 1) hd'.
Proof.
  intros He Hn Ho Hi Hi'. destruct e as [name target mode uid gid|name mode uid gid|name mode uid gid dev maj min|names hf mode uid gid];
    [| | |by apply apply_file]; cbn [members apply_all fold_left].
  - destruct He as (_ & Ht & _ & Hp & _). rewrite apply_slink by done. exists hd. split; [done|eapply older_weaken; [done|lia]].
  - destruct He as (_ & _ & p & Hp & Hm).
    assert (exists t, mode = Z.lor p t /\ (t = S_IFDIR \/ t = S_IFIFO \/ t = S_IFSOCK)) as (t & -> & Ht) by (naive_solver).
    assert (0 <= t < 2 ^ 16 /\ Z.land t S_IFMT = t) as [Hb Hb'] by (by destruct Ht as [->|[->| ->]]).
    destruct (apply_special ino p t uid gid 2 0 0 name f hd) as (hd' & -> & Ho'); [done|naive_solver|done..|].
    exists hd'. split; [|done]. cbn [install]. unfold S_ISDIR. destruct (mode_bits p t) as [_ ->]; [done..|]. done.
  - destruct He as (_ & Hp & _). cbn [install]. unfold nod_mode. destruct (dev =? 98).
    + destruct (apply_special ino mode S_IFBLK uid gid 1 maj min name f hd) as (hd' & -> & Ho'); [done|naive_solver|done..|by exists hd'].
    + destruct (apply_special ino mode S_IFCHR uid gid 1 maj min name f hd) as (hd' & -> & Ho'); [done|naive_solver|done..|by exists hd'].
Qed.

Lemma apply_all_app ms1 ms2 (w : F * links) : apply_all (ms1 ++ ms2) w = apply_all ms2 (apply_all ms1 w).
Proof. apply fold_left_app. Qed.

Lemma apply_entries es ino f (hd : links) :
  Forall entry_ok es -> Forall no_trailer es -> older ino hd -> 0 <= ino -> ino + Z.of_nat (length es) < 2 ^ 32 ->
  apply_all (all_members do_csum default_mtime es ino) (f, hd) = (install_all es f, no_links).
Proof.
  intros Hes. revert ino f hd. induction Hes as [|e es He _ IH]; intros ino f hd Hn Ho Hi Hl; [done|].
  apply Forall_cons in Hn as [Hn1 Hn]. cbn [all_members length] in *. rewrite apply_all_app.
  destruct (apply_entry e ino f hd) as (hd' & -> & Ho'); [done..|lia|]. rewrite IH; [done|done|done|lia|lia].
Qed.

Lemma all_members_ok es ino :
  number32 default_mtime -> Forall entry_ok es -> 0 <= ino -> ino + Z.of_nat (length es) < 2 ^ 32 ->
  Forall member_ok (all_members do_csum default_mtime es ino).
Proof.
  intros Hmt Hes. revert ino. induction Hes as [|e es He _ IH]; intros ino Hi Hl; cbn [all_members length] in *.
  - apply Forall_singleton. unfold member_ok. csplit; [apply trailer_fields|repeat constructor|done|by right|done].
  - apply Forall_app. split; [apply members_ok; [done|done|unfold number32; lia]|apply IH; lia].
Qed.

Lemma all_members_ne es ino : all_members do_csum default_mtime es ino <> [].
Proof. revert ino. induction es as [|e es IH]; intros ino; [done|]. cbn. by intros [_ ?%IH]%app_nil. Qed.

(** ** The theorems *)

Context (decompressor : string -> option (list Z -> decompressed)).

(** What is asked of a list: entries as they can be written, not one of them
    named like the trailer, and not so many that inode numbers run out. *)
Definition list_ok (es : list entry) : Prop :=
  number32 default_mtime /\ Forall entry_ok es /\ Forall no_trailer es /\ 721 + Z.of_nat (length es) < 2 ^ 32.

(** The archive of a list of entries is written, and unpacking it does what
    the entries stand for. *)
Lemma archive_installed es (st : machine F file) :
  list_ok es -> head st = no_links ->
  exists g, emit_all do_csum default_mtime es 0 gen_start = Ok (0, g) /\
    (zlen (out g) < 2 ^ 32 -> exists st', unpack_to_rootfs decompressor (out g) st = Ok (None, st') /\ fs st' = install_all es (fs st)).
Proof.
  intros (Hmt & Hes & Hn & Hl) Hh. destruct (emit_all_ok do_csum default_mtime Hmt es gen_start) as (k & g & E & Eo); [done..|].
  exists g. split; [done|]. rewrite Eo. intros Hz.
  destruct (unpack_members decompressor (all_members do_csum default_mtime es (next_ino gen_start)) k st) as (st' & E' & Ef);
    [apply all_members_ne|by apply all_members_ok|done|].
  exists st'. split; [done|]. rewrite Hh, apply_entries in Ef by (done || apply older_none). by injection Ef.
Qed.

(** Finding a format tells that the first byte is that of no member and not
    padding. *)
Lemma format_first a b name : find_format compressed_formats a b = Some name -> a <> 48 /\ a <> 0.
Proof. cbn. repeat (case_match; [intros _; lia|]). done. Qed.

(** C31. The same when the archive of a list of entries (that satisfy [list_ok])
    reaches the kernel compressed: when the decompressor succeeds, uses all of
    its input and hands over the archive, in whatever pieces of less than
    [2^32] bytes, without calling [error], the kernel does what the entries
    stand for and reports no error. *)
Theorem archive_compressed es (st : machine F file) name d buf ps :
  list_ok es -> head st = no_links ->
  decompress_method decompressor buf = (Some d, Some name) -> posp (d buf) = zlen buf -> res (d buf) = 0 ->
  events (d buf) = map flushed ps -> Forall (fun p => zlen p < 2 ^ 32) ps ->
  (exists g, emit_all do_csum default_mtime es 0 gen_start = Ok (0, g) /\ concat ps = out g) ->
  exists st', unpack_to_rootfs decompressor buf st = Ok (None, st') /\ fs st' = install_all es (fs st).
Proof.
  intros (Hmt & Hes & Hn & Hl) Hh Hd Hpos Hres Hev Hps (g & E & Ec).
  destruct (emit_all_ok do_csum default_mtime Hmt es gen_start) as (k & g' & E' & Eo); [done..|].
  rewrite E in E'. injection E' as <-. cbn [app gen_start out next_ino] in Eo.
  destruct buf as [|a [|b t]]; [done..|]. assert (a <> 48 /\ a <> 0) as [Ha48 Ha0].
  { unfold decompress_method in Hd. destruct (find_format _ a b) eqn:Ef; [|done]. by eapply format_first. }
  set (st0 := set_message None (set_this_header 0 (set_state Start st))). unfold unpack_to_rootfs. fold st0. cbn [unpack_loop].
  change (message st0) with (@None string). cbn beta iota.
  rewrite (proj2 (Z.eqb_neq a 48)), (proj2 (Z.eqb_neq a 0)), Hd by done. cbn [andb]. set (buf := a :: b :: t) in *.
  destruct (flush_members (all_members do_csum default_mtime es 721) k ps (set_this_header 0 st0)) as (st' & Ef & Er & Em & Eg);
    [apply all_members_ne|by apply all_members_ok|congruence|done..|].
  rewrite Hres, Hev, Ef, bind_Ok. cbn beta iota. rewrite bind_Ok. cbn beta iota. rewrite bool_decide_true by done.
  change (negb (0 =? 0)) with false. cbn beta iota. cbn [my_inptr set_my_inptr set_this_header]. rewrite Hpos. unfold zlen.
  rewrite (proj2 (Z.ltb_ge (Z.of_nat _) 0)), (Z.ltb_irrefl (Z.of_nat _)), andb_false_r by lia. cbn [BUG_ON]. rewrite bind_Ok, drop_ge by lia.
  cbn [length buf unpack_loop]. change (message (set_this_header _ _)) with (message st'). rewrite Em, bind_Ok. eexists. split; [by rewrite <- Em|].
  change (fs (set_this_header 0 st0), head (set_this_header 0 st0)) with (fs st, head st) in Eg.
  rewrite Hh, apply_entries in Eg by (done || apply older_none). by injection Eg.
Qed.
End archive.
