(* ===== verification/GenInitCpioText.v ===== *)
(** * usr/gen_init_cpio.c: the text of the list

    A list written down with one line per entry is read back as those entries:
    [main] does what the entries ask for, one after the other. With the round
    trip of the archive this gives the way from the text of the list to the
    root file system of the kernel. *)

From Stdlib Require Import String.
From S2P Require Import Prelude LibMath Ctype Kstrtox Initramfs GenInitCpio GenInitCpioMain CpioFormat InitramfsSafety CpioRead CpioWrite CpioArchive.

Local Open Scope Z_scope.

(** ** Lines *)

Inductive line :=
  | LSlink (name target : list Z) (mode uid gid : Z)
  | LGeneric (gt : generic_types) (name : list Z) (mode uid gid : Z)
  | LNod (name : list Z) (mode uid gid dev_type maj min : Z)
  | LFile (name location : list Z) (mode uid gid : Z) (others : list (list Z)).

Definition kind (l : line) : string :=
  match l with
  | LSlink _ _ _ _ _ => "slink"
  | LGeneric GT_DIR _ _ _ _ => "dir"
  | LGeneric GT_PIPE _ _ _ _ => "pipe"
  | LGeneric GT_SOCK _ _ _ _ => "sock"
  | LNod _ _ _ _ _ _ _ => "nod"
  | LFile _ _ _ _ _ _ => "file"
  end.

(** The words after the first: one at least. *)
Definition words (l : line) : list Z * list (list Z) :=
  match l with
  | LSlink name target mode uid gid => (name, [target; print 8 mode; print 10 uid; print 10 gid])
  | LGeneric _ name mode uid gid => (name, [print 8 mode; print 10 uid; print 10 gid])
  | LNod name mode uid gid dev_type maj min =>
      (name, [print 8 mode; print 10 uid; print 10 gid; [dev_type]; print 10 maj; print 10 min])
  | LFile name location mode uid gid others =>
      (name, location :: print 8 mode :: print 10 uid :: print 10 gid :: others)
  end.

Definition spaced (ws : list (list Z)) : list Z := concat (map (cons 32) ws).

Definition arguments (l : line) : list Z := (words l).1 ++ spaced (words l).2.

Definition line_text (l : line) : list Z := bytes_of (kind l) ++ 32 :: arguments l ++ [10].

(** A word that [%4096s] takes as a whole. *)
Definition plain_char (c : Z) : Prop := 0 < c < 256 /\ c_isspace c = false.
Definition plain (w : list Z) : Prop := Forall plain_char w /\ w <> [] /\ (length w <= Z.to_nat PATH_MAX)%nat.

Definition line_ok (l : line) : Prop :=
  zlen (line_text l) < LINE_SIZE /\
  match l with
  | LSlink name target mode uid gid => plain name /\ plain target /\ number32 mode /\ number32 uid /\ number32 gid
  | LGeneric _ name mode uid gid => plain name /\ number32 mode /\ number32 uid /\ number32 gid
  | LNod name mode uid gid dev_type maj min =>
      plain name /\ number32 mode /\ number32 uid /\ number32 gid /\ plain_char dev_type /\ number32 maj /\ number32 min
  | LFile name location mode uid gid others =>
      plain name /\ plain location /\ number32 mode /\ number32 uid /\ number32 gid /\
      Forall (fun w => plain w /\ c_isgraph (hd 0 w) = true) others
  end.

#[export] Instance plain_char_dec c : Decision (plain_char c).
Proof. unfold plain_char. apply _. Defined.
#[export] Instance plain_dec w : Decision (plain w).
Proof. unfold plain. apply _. Defined.
#[export] Instance number32_dec v : Decision (number32 v).
Proof. unfold number32. apply _. Defined.
#[export] Instance line_ok_dec l : Decision (line_ok l).
Proof. unfold line_ok. destruct l; apply _. Defined.

(** ** Conversions *)

(** The input ends, or a blank follows. *)
Definition at_end (t : list Z) : Prop := t = [] \/ c_isspace (hd 0 t) = true.

Lemma ends_spaced ws : at_end (spaced ws).
Proof. destruct ws; [by left|by right]. Qed.

Lemma skip_while_no p s : p (hd 0 s) = false -> skip_while p s = s.
Proof. destruct s as [|c s]; [done|]. cbn. by intros ->. Qed.

Lemma plain_first w t : plain w -> c_isspace (hd 0 (w ++ t)) = false.
Proof. intros ([|c w' [_ Hc] _] & Hne & _); [done|exact Hc]. Qed.

Lemma take_while_all p w t : Forall (fun c => p c = true) w -> (t = [] \/ p (hd 0 t) = false) -> take_while p (w ++ t) = w.
Proof.
  intros Hw Ht. induction Hw as [|c w Hc _ IH]; cbn; [|by rewrite Hc, IH].
  destruct t as [|c t]; [done|]. destruct Ht as [?|Ht]; [done|]. cbn in *. by rewrite Ht.
Qed.

Lemma scan_word_ok w t : plain w -> at_end t -> scan_word (w ++ t) = Some (w, t).
Proof.
  intros Hw Ht. unfold scan_word. rewrite skip_while_no by (by apply plain_first). destruct Hw as (Hc & Hne & Hl).
  rewrite take_while_all, take_ge by (done || (eapply Forall_impl; [exact Hc|]; intros c [_ Hcs]; cbn; by rewrite Hcs) ||
    (destruct Ht as [->|Ht]; [by left|right; by rewrite Ht])).
  rewrite bool_decide_false by done. by rewrite drop_app_length.
Qed.

Lemma scan_space_ok w t : plain w -> scan_space (32 :: w ++ t) = Some (tt, w ++ t).
Proof. intros Hw. unfold scan_space. cbn [skip_while]. change (c_isspace 32) with true. cbn beta iota. by rewrite skip_while_no by (by apply plain_first). Qed.

Lemma digit_char_plain d : 0 <= d < 10 -> plain_char (digit_char d) /\ (digit_char d =? 45) = false /\ (digit_char d =? 43) = false.
Proof.
  intros Hd. unfold digit_char, plain_char, c_isspace. rewrite (proj2 (Z.ltb_lt _ _)) by lia.
  split; [|split; lia]. split; [lia|]. apply orb_false_iff. rewrite andb_false_iff, !Z.leb_gt, Z.eqb_neq. lia.
Qed.

Lemma space_no_digit c : c_isspace c = true -> digit_of c = None.
Proof.
  unfold c_isspace, digit_of. rewrite orb_true_iff, andb_true_iff, !Z.leb_le, Z.eqb_eq. intros Hc.
  repeat (case_match; [rewrite andb_true_iff, !Z.leb_le in *; lia|]). done.
Qed.

Lemma digits_ends base ds t : base <= 16 -> Forall (fun d => 0 <= d < base) ds -> at_end t -> digits base (map digit_char ds ++ t) = ds.
Proof.
  intros Hb Hds Ht. induction Hds as [|d ds Hd _ IH]; cbn [map app digits].
  - destruct t as [|c t]; [done|]. destruct Ht as [?|Ht]; [done|]. cbn. by rewrite space_no_digit.
  - destruct (digit_char_ok d) as (-> & _); [lia|]. by rewrite (proj2 (Z.ltb_lt _ _)), IH by lia.
Qed.

(** The text of a number, as its digits. *)
Lemma print_digits base v : base = 8 \/ base = 10 -> number32 v ->
  exists ds, print base v = map digit_char ds /\ value base ds = v /\ ds <> [] /\ (length ds <= 64)%nat /\ Forall (fun d => 0 <= d < base) ds.
Proof.
  intros Hb Hv. unfold number32 in Hv. destruct (to_digits_ok 64 base v) as (E & Hne & Hds & Hl); [lia|lia|lia|].
  exists (to_digits 64 base v). unfold print. rewrite (proj2 (Z.ltb_ge _ _)) by lia. done.
Qed.

Lemma print_plain base v : base = 8 \/ base = 10 -> number32 v -> plain (print base v).
Proof.
  intros Hb Hv. destruct (print_digits base v Hb Hv) as (ds & -> & _ & Hne & Hl & Hds).
  split; [|split; [by destruct ds|rewrite length_map; change (Z.to_nat PATH_MAX) with 4096%nat; lia]].
  apply Forall_map. eapply Forall_impl; [exact Hds|]. intros d Hd. cbn in Hd. apply digit_char_plain. lia.
Qed.

Lemma scan_digits_ok base v t : base = 8 \/ base = 10 -> number32 v -> at_end t -> scan_digits base (print base v ++ t) = Some (false, v, t).
Proof.
  intros Hb Hv Ht. unfold scan_digits. rewrite skip_while_no by (by apply plain_first, print_plain).
  destruct (print_digits base v Hb Hv) as (ds & -> & Ev & Hne & _ & Hds). destruct ds as [|d ds]; [done|].
  pose proof (Forall_inv Hds) as Hd. cbn in Hd. destruct (digit_char_plain d) as (_ & E45 & E43); [lia|].
  cbn [map app]. rewrite E45, E43. change (digit_char d :: map digit_char ds ++ t) with (map digit_char (d :: ds) ++ t).
  rewrite digits_ends, bool_decide_false, Ev by (done || lia). by rewrite drop_app_length' by (by rewrite length_map).
Qed.

Lemma scan_unsigned_ok base v t : base = 8 \/ base = 10 -> number32 v -> at_end t -> scan_unsigned base (print base v ++ t) = Some (v, t).
Proof.
  intros Hb Hv Ht. unfold scan_unsigned. rewrite scan_digits_ok by done. unfold number32 in Hv.
  rewrite Z.gtb_ltb, (proj2 (Z.ltb_ge _ _)) by (unfold U64_MAX; lia). by rewrite u32_small by lia.
Qed.

Lemma scan_signed_ok v t : number32 v -> at_end t -> scan_signed (print 10 v ++ t) = Some (s32 v, t).
Proof.
  intros Hv Ht. unfold scan_signed. rewrite scan_digits_ok by (done || by right). unfold number32 in Hv.
  by rewrite Z.gtb_ltb, (proj2 (Z.ltb_ge _ _)) by lia.
Qed.

Lemma u32_s32 v : number32 v -> u32 (s32 v) = v.
Proof. unfold number32, u32, s32. intros Hv. Z.to_euclidean_division_equations. lia. Qed.

(** ** Lines are read back *)

Create HintDb scan discriminated.
#[export] Hint Resolve ends_spaced print_plain : scan.
#[export] Hint Extern 1 (_ \/ _) => (by left) || (by right) : scan.

Lemma spaced_cons w ws : spaced (w :: ws) = 32 :: w ++ spaced ws.
Proof. done. Qed.

Lemma then_Some {A B} (p : scanner A) (k : A -> scanner B) s a t : p s = Some (a, t) -> then_ p k s = k a t.
Proof. unfold then_. by intros ->. Qed.

Lemma then_space {B} (k : unit -> scanner B) w ws : plain w -> then_ scan_space k (spaced (w :: ws)) = k tt (w ++ spaced ws).
Proof. intros Hw. apply then_Some. by apply scan_space_ok. Qed.

(** One conversion, or the blank before one. *)
Ltac scan_step :=
  first [ rewrite then_space by eauto with scan
        | erewrite then_Some by (apply scan_word_ok; eauto with scan)
        | erewrite then_Some by (apply scan_unsigned_ok; eauto with scan)
        | erewrite then_Some by (apply scan_signed_ok; eauto with scan) ].

Lemma slink_line_ok name target mode uid gid :
  plain name -> plain target -> number32 mode -> number32 uid -> number32 gid ->
  slink_line (arguments (LSlink name target mode uid gid)) = Some ((name, target, mode, s32 uid, s32 gid), []).
Proof. intros. unfold slink_line, arguments. cbn [words fst snd]. by repeat scan_step. Qed.

Lemma generic_line_ok gt name mode uid gid :
  plain name -> number32 mode -> number32 uid -> number32 gid ->
  generic_line (arguments (LGeneric gt name mode uid gid)) = Some ((name, mode, s32 uid, s32 gid), []).
Proof. intros. unfold generic_line, arguments. cbn [words fst snd]. by repeat scan_step. Qed.

Lemma plain_single c : plain_char c -> plain [c].
Proof. intros Hc. split; [by constructor|]. split; [done|]. change (Z.to_nat PATH_MAX) with 4096%nat. cbn. lia. Qed.

#[export] Hint Resolve plain_single : scan.

Lemma nod_line_ok name mode uid gid dev_type maj min :
  plain name -> number32 mode -> number32 uid -> number32 gid -> plain_char dev_type -> number32 maj -> number32 min ->
  nod_line (arguments (LNod name mode uid gid dev_type maj min)) = Some ((name, mode, s32 uid, s32 gid, dev_type, maj, min), []).
Proof.
  intros. unfold nod_line, arguments. cbn [words fst snd]. repeat scan_step.
  erewrite then_Some by reflexivity. by repeat scan_step.
Qed.

(** What is left after the blanks. *)
Definition joined (ws : list (list Z)) : list Z :=
  match ws with
  | [] => []
  | w :: ws => w ++ spaced ws
  end.

Lemma skip_spaced ws : Forall plain ws -> skip_while c_isspace (spaced ws) = joined ws.
Proof.
  intros [|w ws' Hw _]; [done|]. rewrite spaced_cons. cbn [skip_while]. change (c_isspace 32) with true.
  by rewrite skip_while_no by (by apply plain_first).
Qed.

Lemma file_line_ok name location mode uid gid others :
  plain name -> plain location -> number32 mode -> number32 uid -> number32 gid -> Forall plain others ->
  file_line (arguments (LFile name location mode uid gid others)) = Some ((name, location, mode, s32 uid, s32 gid), joined others).
Proof.
  intros. unfold file_line, arguments. cbn [words fst snd]. repeat scan_step.
  unfold then_, scan_space. by rewrite skip_spaced.
Qed.

Lemma joined_length ws : (length (joined ws) <= length (spaced ws))%nat.
Proof. destruct ws; [done|]. rewrite spaced_cons. cbn [joined length]. lia. Qed.

(** Every name is found, and the turns are enough. *)
Lemma more_names_ok ws fuel :
  Forall (fun w => plain w /\ c_isgraph (hd 0 w) = true) ws -> (length (joined ws) <= fuel)%nat -> more_names fuel (joined ws) = ws.
Proof.
  intros Hws. revert fuel. induction Hws as [|w ws [Hw Hg] Hws IH]; intros fuel Hl; [by destruct fuel|].
  assert (Hp : Forall plain ws) by (eapply Forall_impl; [exact Hws|]; by intros ? []).
  destruct w as [|c w]; [by destruct Hw as (_ & ? & _)|]. cbn [hd] in Hg. destruct fuel as [|fuel]; [cbn in Hl; lia|].
  cbn [joined app more_names]. rewrite Hg. change (c :: w ++ spaced ws) with ((c :: w) ++ spaced ws).
  rewrite scan_word_ok by auto with scan. rewrite skip_spaced, IH; [done| |done].
  pose proof (joined_length ws). cbn [joined app length] in Hl. rewrite length_app in Hl. lia.
Qed.

(** ** The loop over the lines *)

Section program.
Context (do_csum : bool) (default_mtime : Z).
Context (open_file : list Z -> option hostfile) (getenv : list Z -> option (list Z)).

Definition entry_of (l : line) : option entry :=
  match l with
  | LSlink name target mode uid gid => Some (Slink name target mode uid gid)
  | LGeneric gt name mode uid gid => Some (Generic name (Z.lor mode (generic_type_mode gt)) uid gid)
  | LNod name mode uid gid dev_type maj min => Some (Nod name mode uid gid dev_type maj min)
  | LFile name location mode uid gid others =>
      match cpio_replace_env getenv location with
      | Ok location => (fun f => File (name :: others) f mode uid gid) <$> open_file location
      | _ => None
      end
  end.

Abbreviation handlers := (file_handler_table do_csum default_mtime open_file getenv).

(** The handler that is found for a line does what the entry asks for. *)
Lemma handler_ok l e :
  line_ok l -> entry_of l = Some e ->
  exists h, find_handler handlers (bytes_of (kind l)) = Some h /\ forall g, h (arguments l) g = emit do_csum default_mtime e g.
Proof.
  intros [_ Hl] He. destruct l as [name target mode uid gid|gt name mode uid gid|name mode uid gid dt maj min|name location mode uid gid others].
  - destruct Hl as (? & ? & ? & ? & ?). injection He as <-. eexists. split; [reflexivity|]. intros g.
    unfold cpio_mkslink_line. by rewrite slink_line_ok, !u32_s32 by done.
  - destruct Hl as (? & ? & ? & ?). injection He as <-. destruct gt; (eexists; split; [reflexivity|]); intros g;
      unfold cpio_mkdir_line, cpio_mkpipe_line, cpio_mksock_line, cpio_mkgeneric_line; by rewrite generic_line_ok, !u32_s32 by done.
  - destruct Hl as (? & ? & ? & ? & ? & ? & ?). injection He as <-. eexists. split; [reflexivity|]. intros g.
    unfold cpio_mknod_line. by rewrite nod_line_ok, !u32_s32 by done.
  - destruct Hl as (? & ? & ? & ? & ? & Ho). eexists. split; [reflexivity|]. intros g. unfold cpio_mkfile_line.
    assert (Hp : Forall plain others) by (eapply Forall_impl; [exact Ho|]; by intros ? []).
    rewrite file_line_ok, !u32_s32 by done. cbn [entry_of] in He. destruct (cpio_replace_env _ location) as [location'| |]; [|done..].
    rewrite bind_Ok, more_names_ok by done. destruct (open_file location') as [f|]; [|done]. by injection He as <-.
Qed.

(** ** A line is taken apart *)

(** Characters that neither end a line nor a string. *)
Definition in_line (c : Z) : Prop := c <> 0 /\ c <> 10.

Lemma plain_in_line w : plain w -> Forall in_line w.
Proof. intros (Hw & _). eapply Forall_impl; [exact Hw|]. intros c [Hc Hs]. split; [lia|]. by intros ->. Qed.

Lemma words_plain l : line_ok l -> plain (words l).1 /\ Forall plain (words l).2.
Proof.
  intros [_ Hl]. destruct l; cbn [words fst snd].
  - destruct Hl as (? & ? & ? & ? & ?). rewrite !Forall_cons, Forall_nil. split_and!; eauto with scan.
  - destruct Hl as (? & ? & ? & ?). rewrite !Forall_cons, Forall_nil. split_and!; eauto with scan.
  - destruct Hl as (? & ? & ? & ? & ? & ? & ?). rewrite !Forall_cons, Forall_nil. split_and!; eauto with scan.
  - destruct Hl as (? & ? & ? & ? & ? & Ho). rewrite !Forall_cons. split_and!; eauto with scan.
    eapply Forall_impl; [exact Ho|]. by intros ? [].
Qed.

Lemma arguments_ok l : line_ok l -> Forall in_line (arguments l) /\ arguments l <> [].
Proof.
  intros [Hw Hws]%words_plain. unfold arguments. split; [|destruct Hw as (_ & Hne & _); by intros [? _]%app_nil].
  apply Forall_app. split; [by apply plain_in_line|]. induction Hws as [|w ws Hp _ IH]; [constructor|].
  rewrite spaced_cons. constructor; [done|]. apply Forall_app. split; [by apply plain_in_line|done].
Qed.

Lemma kind_ok l : Forall (fun c => in_line c /\ blank c = false) (bytes_of (kind l)) /\ (hd 0 (bytes_of (kind l)) =? 35) = false /\
  bytes_of (kind l) <> [].
Proof. destruct l as [| [] | |]; (split; [repeat constructor; done|done]). Qed.

Lemma hd_app_ne (a b : list Z) : a <> [] -> hd 0 (a ++ b) = hd 0 a.
Proof. by destruct a. Qed.

Lemma skip_newlines a : Forall in_line a -> skip_while newline (a ++ [10]) = if bool_decide (a = []) then [] else a ++ [10].
Proof.
  intros [|c a' [_ Hc] _]; [done|]. rewrite bool_decide_false by done. cbn. unfold newline at 1.
  by rewrite (proj2 (Z.eqb_neq _ _) Hc).
Qed.

(** The first word and the rest of a line are found. *)
Lemma main_line_split t a ec g :
  Forall (fun c => in_line c /\ blank c = false) t -> t <> [] -> (hd 0 t =? 35) = false -> Forall in_line a -> a <> [] ->
  main_line do_csum default_mtime open_file getenv (t ++ 32 :: a ++ [10]) ec g =
  match find_handler handlers t with
  | None => Ok (false, ec, g)
  | Some h => '(rc, g) ← h a g; Ok (false, if negb (rc =? 0) then rc else ec, g)
  end.
Proof.
  intros Ht Hne H35 Ha Hane. unfold main_line. rewrite hd_app_ne, H35 by done.
  destruct t as [|c t']; [done|]. set (t := c :: t') in *. pose proof (Forall_inv Ht) as [[_ Hc10] Hcb]. cbn in Hc10, Hcb.
  rewrite (skip_while_no blank) by exact Hcb.
  rewrite (take_while_all _ t) by ((eapply Forall_impl; [exact Ht|]; intros ? [_ E]; cbn; by rewrite E) || by right).
  rewrite bool_decide_false by done. change (hd 0 t) with c. rewrite (proj2 (Z.eqb_neq _ _) Hc10).
  rewrite (proj2 (Nat.eqb_neq _ _)) by (rewrite length_app; cbn; lia).
  replace (take_while blank (t ++ 32 :: a ++ [10])) with (@nil Z) by (cbn; by rewrite Hcb). cbn [app].
  rewrite (drop_app_ge t) by lia. replace (length t + 1 - length t)%nat with 1%nat by lia. cbn [drop]. rewrite drop_0, skip_newlines by done.
  rewrite (bool_decide_false (a = [])) by done.
  rewrite take_while_all, bool_decide_false by (done || (by right) || (eapply Forall_impl; [exact Ha|]; intros x [_ Hx]; cbn; unfold newline; by rewrite (proj2 (Z.eqb_neq _ _) Hx))).
  done.
Qed.

Lemma main_line_ok l e ec g :
  line_ok l -> entry_of l = Some e ->
  main_line do_csum default_mtime open_file getenv (line_text l) ec g =
  '(rc, g) ← emit do_csum default_mtime e g; Ok (false, if rc =? 0 then ec else rc, g).
Proof.
  intros Hl He. destruct (arguments_ok l Hl) as [Ha Hne]. destruct (kind_ok l) as (Ht & H35 & Htne).
  unfold line_text. rewrite main_line_split by done. destruct (handler_ok l e Hl He) as (h & -> & Hh). rewrite Hh.
  destruct (emit _ _ _ _) as [[rc g']| |]; [|done..]. rewrite !bind_Ok. cbn beta iota. by destruct (rc =? 0).
Qed.

Lemma fgets_ok n s t : Forall in_line s -> (length s < n)%nat -> fgets n (s ++ 10 :: t) = (s ++ [10], t).
Proof.
  intros Hs. revert n. induction Hs as [|c s [_ Hc] _ IH]; intros [|n] Hn; cbn in *; [lia|done|lia|].
  rewrite (proj2 (Z.eqb_neq _ _) Hc), IH by lia. done.
Qed.

Lemma until_nul_line s : Forall in_line s -> until_nul (s ++ [10]) = s ++ [10].
Proof. induction 1 as [|c s [Hc _] _ IH]; [done|]. cbn. by rewrite (proj2 (Z.eqb_neq _ _) Hc), IH. Qed.

(** A line with its end split off. *)
Lemma line_text_end l : line_ok l -> exists s, line_text l = s ++ [10] /\ Forall in_line s /\ (length s < Z.to_nat (LINE_SIZE - 1))%nat.
Proof.
  intros Hl. destruct (arguments_ok l Hl) as [Ha _]. destruct (kind_ok l) as (Ht & _). destruct Hl as [Hz _].
  exists (bytes_of (kind l) ++ 32 :: arguments l). assert (E : line_text l = (bytes_of (kind l) ++ 32 :: arguments l) ++ [10]).
  { unfold line_text. by rewrite <- app_assoc. }
  split; [done|]. split.
  - apply Forall_app. split; [eapply Forall_impl; [exact Ht|]; by intros ? []|by constructor].
  - rewrite E in Hz. unfold zlen in Hz. rewrite length_app in Hz. cbn [length] in Hz. lia.
Qed.

(** The entries one after the other. *)
Fixpoint emits (es : list entry) (ec : Z) (g : gen) : outcome (Z * gen) :=
  match es with
  | [] => Ok (ec, g)
  | e :: es => '(rc, g) ← emit do_csum default_mtime e g; emits es (if rc =? 0 then ec else rc) g
  end.

Definition list_text (ls : list line) : list Z := concat (map line_text ls).

Lemma main_loop_ok ls es fuel ec g :
  Forall line_ok ls -> mapM entry_of ls = Some es -> (length ls < fuel)%nat ->
  main_loop do_csum default_mtime open_file getenv fuel (list_text ls) ec g = emits es ec g.
Proof.
  intros Hls Hes%mapM_Some_1. revert fuel ec g. induction Hes as [|l e ls es He Hes IH]; intros [|fuel] ec g Hf; try (cbn in Hf; lia); [done|].
  apply Forall_cons in Hls as [Hl Hls]. destruct (line_text_end l Hl) as (s & E & Hs & Hn).
  unfold list_text. cbn [map concat main_loop]. fold (list_text ls). rewrite bool_decide_false by (rewrite E; by destruct s).
  rewrite E at 1. rewrite <- app_assoc. cbn [app]. rewrite fgets_ok, until_nul_line, <- E, (main_line_ok l e) by done. cbn [emits].
  destruct (emit _ _ _ _) as [[rc g']| |]; [|done..]. rewrite !bind_Ok. cbn beta iota. apply IH; [done|cbn in Hf; lia].
Qed.

Lemma emits_all es ec g :
  emit_all do_csum default_mtime es ec g =
  '(ec, g) ← emits es ec g; (if ec =? 0 then g ← cpio_trailer do_csum g; Ok (ec, g) else Ok (ec, g)).
Proof.
  revert ec g. induction es as [|e es IH]; intros ec g; [done|].
  cbn [emit_all emits]. destruct (emit _ _ _ _) as [[rc g']| |]; [|done..]. rewrite !bind_Ok. apply IH.
Qed.

Lemma list_text_length ls : (length ls <= length (list_text ls))%nat.
Proof.
  induction ls as [|l ls IH]; [done|]. assert (1 <= length (line_text l))%nat by (unfold line_text; rewrite length_app; cbn [length]; lia).
  unfold list_text in *. cbn [map concat length]. rewrite length_app. lia.
Qed.

(** [main] on the text of a list handles its entries in order. *)
Lemma main_ok ls es :
  default_mtime <= 0xffffffff -> Forall line_ok ls -> mapM entry_of ls = Some es ->
  main do_csum default_mtime open_file getenv (list_text ls) =
  '(ec, g) ← emit_all do_csum default_mtime es 0 gen_start; Ok (ec, out g).
Proof.
  intros Hm Hls Hes. unfold main, timestamp_too_large. rewrite Z.gtb_ltb, (proj2 (Z.ltb_ge _ _)) by lia.
  rewrite (main_loop_ok ls es) by (done || (pose proof (list_text_length ls); lia)). rewrite emits_all.
  destruct (emits es 0 gen_start) as [[ec g]| |]; [|done..]. rewrite !bind_Ok. cbn beta iota.
  destruct (ec =? 0); [|done]. by destruct (cpio_trailer _ _).
Qed.

(** ** From the text to the root file system *)

Context {F file : Type} `{VfsOk F file} (decompressor : string -> option (list Z -> decompressed)).

(** C30. A list written down as text, one line per entry: [gen_init_cpio] succeeds
    on it, and unpacking the archive it writes, when that has less than [2^32]
    bytes, makes the kernel do exactly what the entries stand for, in order,
    without an error. By [line_ok] a line fits the line buffer, names are
    not empty and have no blanks in them, and numbers have 32 bits. By [list_ok]
    the default time is a 32-bit number and no file is older than 1970, no
    entry is named [TRAILER!!!], names and link targets fit [PATH_MAX], host
    files have less than [2^32] bytes and can be read, and inode numbers do not
    run out. Writes of the kernel make progress, and its table of links is
    empty at first. *)
Theorem list_to_rootfs ls es (st : machine F file) :
  Forall line_ok ls -> mapM entry_of ls = Some es -> list_ok default_mtime es -> head st = no_links ->
  exists archive, main do_csum default_mtime open_file getenv (list_text ls) = Ok (0, archive) /\
    (zlen archive < 2 ^ 32 ->
     exists st', unpack_to_rootfs decompressor archive st = Ok (None, st') /\ fs st' = install_all es (fs st)).
Proof.
  intros Hls Hes Hok Hh. destruct (archive_installed do_csum default_mtime decompressor es st Hok Hh) as (g & E & Hu).
  exists (out g). split; [|done]. rewrite (main_ok ls es), E by (done || (destruct Hok as [[? ?] _]; lia)). done.
Qed.

End program.
