(* ===== verification/CpioCases.v ===== *)
(** * The initial file system on concrete inputs

    A file system that records the calls it gets, and takes at most three bytes
    in a write; the theorems about reading and writing archives applied to it;
    and what the two programs do with lists and archives that they do not
    expect. *)

From Stdlib Require Import String.
From S2P Require Import Prelude LibMath Ctype Kstrtox Initramfs GenInitCpio GenInitCpioMain CpioFormat InitramfsSafety CpioRead CpioWrite CpioArchive GenInitCpioText.

Local Open Scope Z_scope.

(** ** A file system that records *)

Inductive call :=
  | Rmdir (path : list Z)
  | Unlink (path : list Z)
  | Link (old new : list Z)
  | Mkdir (path : list Z) (mode : Z)
  | Mknod (path : list Z) (mode dev : Z)
  | Symlink (target path : list Z)
  | Chown (path : list Z) (uid gid flags : Z)
  | Chmod (path : list Z) (mode : Z)
  | Open (path : list Z) (flags mode : Z)
  | Fchown (h uid gid : Z)
  | Fchmod (h mode : Z)
  | Truncate (h size : Z)
  | Byte (h pos c : Z)
  | Put (h : Z).

(** Bytes are recorded one by one; the latest call is first. *)
Fixpoint record_bytes (f : list call) (h : Z) (p : list Z) (pos : Z) : list call :=
  match p with
  | [] => f
  | c :: p => record_bytes (Byte h pos c :: f) h p (pos + 1)
  end.

#[export] Instance recorder : Vfs (list call) Z := {
  init_stat _ _ := None;
  init_rmdir f path := Rmdir path :: f;
  init_unlink f path := Unlink path :: f;
  init_link f old new := (Link old new :: f, 0);
  init_mkdir f path mode := Mkdir path mode :: f;
  init_mknod f path mode dev := Mknod path mode dev :: f;
  init_symlink f target path := Symlink target path :: f;
  init_chown f path uid gid flags := Chown path uid gid flags :: f;
  init_chmod f path mode := Chmod path mode :: f;
  filp_open f path flags mode := (Open path flags mode :: f, Some 3);
  vfs_fchown f h uid gid := Fchown h uid gid :: f;
  vfs_fchmod f h mode := Fchmod h mode :: f;
  vfs_truncate f h size := Truncate h size :: f;
  kernel_write f h p pos := (record_bytes f h (take 3 p) pos, zlen (take 3 p));
  fput f h := Put h :: f
}.

Lemma record_bytes_app f h a b pos : record_bytes f h (a ++ b) pos = record_bytes (record_bytes f h a pos) h b (pos + zlen a).
Proof.
  revert f pos. induction a as [|c a IH]; intros f pos; cbn [app record_bytes]; [by rewrite Z.add_0_r|].
  rewrite IH. f_equal. unfold zlen. cbn [length]. lia.
Qed.

#[export] Instance recorder_ok : VfsOk (list call) Z.
Proof.
  refine {| store := record_bytes |}; [done|apply record_bytes_app|]. intros f h p pos Hp. exists (zlen (take 3 p)).
  assert (Hl : (0 < length p)%nat) by (destruct p; [done|cbn; lia]). unfold zlen. split; [rewrite length_take; lia|].
  rewrite Nat2Z.id. cbn [kernel_write recorder]. unfold zlen. do 2 f_equal. by destruct p as [|a [|b [|c p]]].
Defined.

(** ** Samples *)

Definition nothing : header := Header 0 0 0 0 0 0 0 0 0 0 0 0.

(** The statics of initramfs.c as the image has them. *)
Definition boot : machine (list call) Z :=
  Machine [] false 0 None no_links nothing Start Start [] 0 0 [] input 0 None 0 0.

(** A file of five bytes that is read two bytes at a time. *)
Definition hello : hostfile := Hostfile (Some (1000, 5)) [104; 101; 108; 108; 111] (fun _ n => Z.min 2 n) true.

(** Every path of the host names that file. *)
Definition host_files (_ : list Z) : option hostfile := Some hello.
Definition no_env (_ : list Z) : option (list Z) := None.

Definition sample : list line :=
  [LGeneric GT_DIR (bytes_of "/dev") 493 0 0; LNod (bytes_of "/dev/console") 384 0 0 99 5 1;
   LSlink (bytes_of "/init") (bytes_of "hello") 511 0 0; LFile (bytes_of "/hello") (bytes_of "hello.txt") 420 1 2 [bytes_of "/hi"]].

Definition sample_entries : list entry :=
  [Generic (bytes_of "/dev") (Z.lor 493 S_IFDIR) 0 0; Nod (bytes_of "/dev/console") 384 0 0 99 5 1;
   Slink (bytes_of "/init") (bytes_of "hello") 511 0 0; File [bytes_of "/hello"; bytes_of "/hi"] hello 420 1 2].

(** The text is what one would write. *)
Example sample_text :
  list_text (firstn 2 sample) = bytes_of "dir /dev 755 0 0" ++ 10 :: bytes_of "nod /dev/console 600 0 0 c 5 1" ++ [10].
Proof. vm_compute. reflexivity. Qed.

(** ** Unexpected lists *)

Definition gen_main (default_mtime : Z) (text : list Z) : outcome (Z * list Z) := main false default_mtime host_files no_env text.

(** A line with a type and nothing after it: the error is reported and the
    handler is called all the same, with a null pointer. *)
Lemma empty_line_faults : gen_main 0 (bytes_of "dir " ++ [10]) = Bug.
Proof. vm_compute. reflexivity. Qed.

(** A blank before the type: [line] is compared, not [type], and the entry is
    left out with exit code 0. *)
Lemma indented_line_ignored : gen_main 0 (bytes_of " dir /dev 755 0 0" ++ [10]) = gen_main 0 [].
Proof. vm_compute. reflexivity. Qed.

(** A variable that expands to itself keeps [cpio_replace_env] busy forever. *)
Lemma replace_env_diverges fuel :
  replace_env_loop (fun _ => Some (bytes_of "${X}")) fuel (bytes_of "${X}") = NoFuel.
Proof. induction fuel as [|fuel IH]; [done|]. exact IH. Qed.

(** ** The theorems at the samples *)

Definition no_decompressor (_ : string) : option (list Z -> decompressed) := None.

(** Hands over everything after the two bytes that name the format, a byte at
    first and then the rest. *)
Definition stored (buf : list Z) : decompressed :=
  Decompressed [flushed (take 1 (drop 2 buf)); flushed (drop 3 buf)] 0 (zlen buf).

Definition only_gzip (name : string) : option (list Z -> decompressed) :=
  if String.eqb name "gzip" then Some stored else None.

Lemma sample_lines_ok : Forall line_ok sample.
Proof. apply (bool_decide_unpack _). vm_compute. exact I. Qed.

#[export] Instance chars_dec s : Decision (chars s).
Proof. unfold chars. apply _. Defined.
#[export] Instance name_ok_dec s : Decision (name_ok s).
Proof. unfold name_ok. apply _. Defined.

Ltac by_evaluation := apply (bool_decide_unpack _); vm_compute; exact I.

Lemma hello_ok : hostfile_ok hello.
Proof.
  split; [exists 1000; split; [reflexivity|lia]|]. split; [reflexivity|]. split; [repeat constructor; unfold byte; lia|].
  split; [|reflexivity]. cbn. lia.
Qed.

Lemma sample_entries_ok : list_ok 0 sample_entries.
Proof.
  split; [by_evaluation|]. split; [|split; [|reflexivity]].
  - unfold sample_entries. rewrite !Forall_cons, Forall_nil. unfold entry_ok, owner_ok, permissions. split_and!; try by_evaluation; try exact hello_ok; try done.
    exists 493. split; [lia|by left].
  - unfold sample_entries, no_trailer. rewrite !Forall_cons, !Forall_nil. split_and!; try done; by_evaluation.
Qed.

Lemma list_to_rootfs_witness :
  exists archive, gen_main 0 (list_text sample) = Ok (0, archive) /\
    (zlen archive < 2 ^ 32 -> exists st', unpack_to_rootfs no_decompressor archive boot = Ok (None, st') /\ fs st' = install_all sample_entries []).
Proof.
  apply (list_to_rootfs false 0 host_files no_env no_decompressor sample sample_entries boot);
    [exact sample_lines_ok|vm_compute; reflexivity|exact sample_entries_ok|reflexivity].
Defined.

Definition sample_archive : list Z := match gen_main 0 (list_text sample) with Ok (_, a) => a | _ => [] end.

Lemma sample_archive_ok :
  exists g, emit_all false 0 sample_entries 0 gen_start = Ok (0, g) /\ concat [take 1 sample_archive; drop 1 sample_archive] = out g.
Proof. eexists. split; vm_compute; reflexivity. Qed.

Lemma archive_compressed_witness :
  exists st', unpack_to_rootfs only_gzip (31 :: 139 :: sample_archive) boot = Ok (None, st') /\ fs st' = install_all sample_entries [].
Proof.
  apply (archive_compressed false 0 only_gzip sample_entries boot "gzip" stored (31 :: 139 :: sample_archive) [take 1 sample_archive; drop 1 sample_archive]);
    [exact sample_entries_ok|reflexivity|reflexivity|reflexivity|reflexivity|reflexivity|by_evaluation|exact sample_archive_ok].
Defined.

Lemma no_decompressor_ok : decompressor_ok no_decompressor.
Proof. by intros name d buf. Qed.

(** The header of an empty regular file whose name takes [name_len] bytes. *)
Definition file_header (name_len : Z) : list Z :=
  bytes_of "070701" ++ X08 1 ++ X08 33188 ++ X08 0 ++ X08 0 ++ X08 1 ++ X08 0 ++ X08 0 ++ X08 0 ++ X08 0 ++ X08 0 ++ X08 0 ++ X08 name_len ++ X08 0.

(** A file system that counts the writes: every other one is interrupted, the
    others take two bytes, and from the sixth on they fail with [-ENOSPC]. *)
Definition faulty_write (k : nat) (p : list Z) : nat * Z :=
  (S k, if Nat.even k then - EINTR else if (k <? 6)%nat then zlen (take 2 p) else -28).

Definition faulty : Vfs nat Z := {|
  init_stat _ _ := None; init_rmdir k _ := k; init_unlink k _ := k; init_link k _ _ := (k, 0); init_mkdir k _ _ := k;
  init_mknod k _ _ _ := k; init_symlink k _ _ := k; init_chown k _ _ _ _ := k; init_chmod k _ _ := k;
  filp_open k _ _ _ := (k, Some 3); vfs_fchown k _ _ _ := k; vfs_fchmod k _ _ := k; vfs_truncate k _ _ := k;
  kernel_write k _ p _ := faulty_write k p; fput k _ := k |}.

Lemma faulty_writes : @VfsWrites nat Z faulty.
Proof.
  split; intros k h p pos Hp; cbn [kernel_write faulty faulty_write fst snd]; unfold zlen.
  - rewrite length_take. unfold EINTR. case_match; [lia|]. case_match; lia.
  - unfold interrupted, EINTR, EAGAIN. destruct (Nat.even k) eqn:E; rewrite Nat.even_succ, <- Nat.negb_even, E; cbn [negb].
    + intros _. case_match; lia.
    + rewrite length_take. case_match; lia.
Qed.

(** A name that does not end in what was collected: an empty string is found. *)
Definition empty_overrun : Overrun := fun _ => Ok [].

Definition boot_faulty : machine nat Z := Machine 0%nat false 0 None no_links nothing Start Start [] 0 0 [] input 0 None 0 0.

(** A file of ten bytes, the last four of which cannot be written, with a name
    that is not terminated. *)
Definition ten_bytes : list Z :=
  bytes_of "070701" ++ X08 1 ++ X08 33188 ++ X08 0 ++ X08 0 ++ X08 1 ++ X08 0 ++ X08 10 ++ X08 0 ++ X08 0 ++ X08 0 ++ X08 0 ++ X08 4 ++ X08 0 ++
  bytes_of "abcdef" ++ bytes_of "0123456789" ++ [0; 0].

Lemma unpack_terminates_witness :
  (exists message st', @unpack_to_rootfs nat Z faulty empty_overrun no_decompressor ten_bytes boot_faulty = Ok (message, st')) /\
  match @unpack_to_rootfs nat Z faulty empty_overrun no_decompressor ten_bytes boot_faulty with
  | Ok (message, st') => message = Some "write error"%string /\ fs st' = 8%nat
  | _ => False
  end.
Proof.
  split; [|vm_compute; split; reflexivity].
  apply (@unpack_terminates nat Z faulty faulty_writes empty_overrun);
    [intros s; exists []; split; reflexivity|exact no_decompressor_ok|constructor|by left| |reflexivity].
  apply (Forall_impl (fun c => 0 <= c < 256)); [by_evaluation|done].
Defined.

(** The machine after one action. *)
Definition acted (st : machine (list call) Z) : machine (list call) Z :=
  match actions (state st) st with Ok (_, st') => st' | _ => st end.

(** Sixty bytes of a header have been collected; all of them have. *)
Definition half_header : machine (list call) Z := acted (acted (set_state Start (set_victim (take 60 (file_header 4)) boot))).
Definition whole_header : machine (list call) Z := acted (set_victim (drop 60 (file_header 4)) half_header).

Lemma half_header_reached : reach half_header.
Proof.
  apply (reach_action (acted (set_state Start (set_victim (take 60 (file_header 4)) boot))) true); [|vm_compute; reflexivity].
  apply (reach_action (set_state Start (set_victim (take 60 (file_header 4)) boot)) false); [|vm_compute; reflexivity].
  apply reach_start; [constructor|by left|split; [|reflexivity]].
  apply (Forall_impl (fun c => 0 <= c < 256)); [by_evaluation|done].
Qed.

Lemma whole_header_reached : reach whole_header.
Proof.
  apply (reach_action (set_victim (drop 60 (file_header 4)) half_header) false); [|vm_compute; reflexivity].
  apply reach_piece; [exact half_header_reached| |reflexivity].
  apply (Forall_impl (fun c => 0 <= c < 256)); [by_evaluation|done].
Qed.


(** ** Unexpected archives *)

(** A name whose bytes are all other than zero is used as a string: what
    follows it in memory is read. *)
Lemma unterminated_name_overruns : unpack_to_rootfs no_decompressor (file_header 4 ++ bytes_of "abcdef") boot = Bug.
Proof. vm_compute. reflexivity. Qed.

(** The first [n] bytes of the output in one piece, the rest in another. *)
Definition cut_at (n : nat) (_ : string) : option (list Z -> decompressed) :=
  Some (fun buf => Decompressed [flushed (take n (drop 2 buf)); flushed (drop n (drop 2 buf))] 0 (zlen buf)).

Definition calls (r : outcome (option string * machine (list call) Z)) : outcome (option string * list call) :=
  match r with
  | Ok (m, st) => Ok (m, rev (fs st))
  | Bug => Bug
  | NoFuel => NoFuel
  end.

Definition one_dir (default_mtime : Z) : list Z :=
  match gen_main default_mtime (bytes_of "dir /a 755 0 0" ++ [10]) with Ok (0, a) => a | _ => [] end.

Definition dir_calls : list call := [Mkdir [97] 16877; Chown [97] 0 0 0; Chmod [97] 16877].

(** A member without a name is skipped, and [next_state] is then what it was
    left at before: [Start] when the header lay in one piece, [GotHeader] when
    it had to be collected. In the second case the header is handled again and
    what follows it is lost. *)
Lemma skip_depends_on_pieces :
  let buf := 31 :: 139 :: file_header 0 ++ [0; 0] ++ one_dir 0 in
  calls (unpack_to_rootfs (cut_at 200) buf boot) = Ok (None, dir_calls) /\
  calls (unpack_to_rootfs (cut_at 1) buf boot) = Ok (Some "junk at the end of compressed archive"%string, []).
Proof. split; vm_compute; reflexivity. Qed.

(** A time stamp before 1970 passes the check of [main] and is written with
    sixteen digits. The directory is lost, and neither program reports it. *)
Lemma negative_timestamp_lost :
  calls (unpack_to_rootfs no_decompressor (one_dir 0) boot) = Ok (None, dir_calls) /\
  one_dir (-1) <> [] /\ calls (unpack_to_rootfs no_decompressor (one_dir (-1)) boot) = Ok (None, []).
Proof. split; [|split]; vm_compute; congruence || reflexivity. Qed.
