(* ===== verification/Klist.v ===== *)
(** * include/linux/list.h: circular doubly linked lists

    A list is a ring through its head. Memory is a map from addresses to
    [list_head]s; a read or a write elsewhere is a fault. The operations are
    shown to refine operations on lists of addresses, for any number of rings
    that share the memory. *)

From stdpp Require Import gmap.
From S2P Require Import Prelude.

Local Open Scope Z_scope.

(** ** The code *)

Record list_head := ListHead { next : Z; prev : Z }.

Local Abbreviation lmem := (gmap Z list_head).

Definition LIST_POISON1 : Z := 0x100.
Definition LIST_POISON2 : Z := 0x122.

Definition list_at (m : lmem) (a : Z) : outcome list_head := match m !! a with Some n => Ok n | None => Bug end.

Definition set_next (a v : Z) (m : lmem) : outcome lmem := n ← list_at m a; Ok (<[a := ListHead v (prev n)]> m).
Definition set_prev (a v : Z) (m : lmem) : outcome lmem := n ← list_at m a; Ok (<[a := ListHead (next n) v]> m).

Definition INIT_LIST_HEAD (list : Z) (m : lmem) : outcome lmem :=
  m ← set_next list list m;
  set_prev list list m.

(** [__list_add_valid] and [__list_del_entry_valid] are constants. *)
Definition __list_add (new prev next : Z) (m : lmem) : outcome lmem :=
  m ← set_prev next new m;
  m ← set_next new next m;
  m ← set_prev new prev m;
  set_next prev new m.

Definition list_add (new head : Z) (m : lmem) : outcome lmem :=
  h ← list_at m head;
  __list_add new head (next h) m.

Definition list_add_tail (new head : Z) (m : lmem) : outcome lmem :=
  h ← list_at m head;
  __list_add new (prev h) head m.

Definition __list_del (prev next : Z) (m : lmem) : outcome lmem :=
  m ← set_prev next prev m;
  set_next prev next m.

Definition __list_del_entry (entry : Z) (m : lmem) : outcome lmem :=
  e ← list_at m entry;
  __list_del (prev e) (next e) m.

Definition list_del (entry : Z) (m : lmem) : outcome lmem :=
  m ← __list_del_entry entry m;
  m ← set_next entry LIST_POISON1 m;
  set_prev entry LIST_POISON2 m.

Definition list_replace (old new : Z) (m : lmem) : outcome lmem :=
  o ← list_at m old;
  m ← set_next new (next o) m;
  n ← list_at m new;
  m ← set_prev (next n) new m;
  o ← list_at m old;
  m ← set_prev new (prev o) m;
  n ← list_at m new;
  set_next (prev n) new m.

Definition list_replace_init (old new : Z) (m : lmem) : outcome lmem :=
  m ← list_replace old new m;
  INIT_LIST_HEAD old m.

Definition list_del_init (entry : Z) (m : lmem) : outcome lmem :=
  m ← __list_del_entry entry m;
  INIT_LIST_HEAD entry m.

Definition list_move (list head : Z) (m : lmem) : outcome lmem :=
  m ← __list_del_entry list m;
  list_add list head m.

Definition list_move_tail (list head : Z) (m : lmem) : outcome lmem :=
  m ← __list_del_entry list m;
  list_add_tail list head m.

Definition list_is_head (list head : Z) : bool := list =? head.

Definition list_empty (head : Z) (m : lmem) : outcome bool :=
  h ← list_at m head;
  Ok (next h =? head).

Definition list_del_init_careful (entry : Z) (m : lmem) : outcome lmem :=
  m ← __list_del_entry entry m;
  m ← set_prev entry entry m;
  set_next entry entry m.

Definition list_empty_careful (head : Z) (m : lmem) : outcome bool :=
  h ← list_at m head;
  let next := next h in
  Ok (list_is_head next head && (next =? prev h)).

Definition list_is_singular (head : Z) (m : lmem) : outcome bool :=
  empty ← list_empty head m;
  h ← list_at m head;
  Ok (negb empty && (next h =? prev h)).

Definition __list_splice (list prev_ next_ : Z) (m : lmem) : outcome lmem :=
  l ← list_at m list;
  let first := next l in
  let last := prev l in
  m ← set_prev first prev_ m;
  m ← set_next prev_ first m;
  m ← set_next last next_ m;
  set_prev next_ last m.

Definition list_splice (list head : Z) (m : lmem) : outcome lmem :=
  empty ← list_empty list m;
  if negb empty then
    h ← list_at m head;
    __list_splice list head (next h) m
  else Ok m.

Definition list_splice_init (list head : Z) (m : lmem) : outcome lmem :=
  empty ← list_empty list m;
  if negb empty then
    h ← list_at m head;
    m ← __list_splice list head (next h) m;
    INIT_LIST_HEAD list m
  else Ok m.

Definition list_splice_tail_init (list head : Z) (m : lmem) : outcome lmem :=
  empty ← list_empty list m;
  if negb empty then
    h ← list_at m head;
    m ← __list_splice list (prev h) head m;
    INIT_LIST_HEAD list m
  else Ok m.

(** The positions that [list_for_each] goes through. *)
Fixpoint list_for_each (fuel : nat) (pos head : Z) (m : lmem) : outcome (list Z) :=
  match fuel with
  | O => NoFuel
  | S fuel =>
      if list_is_head pos head then Ok []
      else
        n ← list_at m pos;
        l ← list_for_each fuel (next n) head m;
        Ok (pos :: l)
  end.

(** And [list_for_each_entry_reverse]. *)
Fixpoint list_for_each_reverse (fuel : nat) (pos head : Z) (m : lmem) : outcome (list Z) :=
  match fuel with
  | O => NoFuel
  | S fuel =>
      if list_is_head pos head then Ok []
      else
        n ← list_at m pos;
        l ← list_for_each_reverse fuel (prev n) head m;
        Ok (pos :: l)
  end.

(** ** Paths and rings *)

Definition nx (m : lmem) (a : Z) : option Z := next <$> m !! a.
Definition pv (m : lmem) (a : Z) : option Z := prev <$> m !! a.

Definition link (m : lmem) (a b : Z) : Prop := nx m a = Some b /\ pv m b = Some a.

Fixpoint path (m : lmem) (l : list Z) : Prop :=
  match l with
  | a :: ((b :: _) as l') => link m a b /\ path m l'
  | _ => True
  end.

(** The nodes of a ring, from any of them on. *)
Definition ring (m : lmem) (C : list Z) : Prop :=
  NoDup C /\ path m C /\ exists a b, head C = Some a /\ last C = Some b /\ link m b a.

Lemma path_app m l1 l2 :
  path m (l1 ++ l2) <-> path m l1 /\ path m l2 /\ forall a b, last l1 = Some a -> head l2 = Some b -> link m a b.
Proof.
  induction l1 as [|x l1 IH]; [naive_solver|]. destruct l1 as [|y l1].
  - destruct l2 as [|z l2]; cbn; naive_solver.
  - change (path m ((x :: y :: l1) ++ l2)) with (link m x y /\ path m ((y :: l1) ++ l2)). rewrite IH.
    change (last (x :: y :: l1)) with (last (y :: l1)). cbn [path]. naive_solver.
Qed.

Lemma path_frame m m' l :
  NoDup l -> path m l -> (forall x, x ∈ l -> last l <> Some x -> nx m' x = nx m x) -> (forall x, x ∈ l -> head l <> Some x -> pv m' x = pv m x) -> path m' l.
Proof.
  induction l as [|a l IH]; [done|]. destruct l as [|b l]; [done|]. intros Hnd [[Hn Hp] Hl] HN HP.
  apply NoDup_cons in Hnd as [Ha Hnd]. split.
  - split; [rewrite HN; [done|set_solver|]|rewrite HP; [done|set_solver|]].
    + intros E. change (last (b :: l) = Some a) in E. apply last_Some_elem_of in E. by apply Ha.
    + intros [= ->]. apply Ha. set_solver.
  - apply IH; [done|done|..].
    + intros x Hx Hlast. apply HN; [set_solver|done].
    + intros x Hx _. apply HP; [set_solver|]. intros [= ->]. by apply Ha.
Qed.

Lemma ring_frame m m' C : ring m C -> (forall x, x ∈ C -> nx m' x = nx m x /\ pv m' x = pv m x) -> ring m' C.
Proof.
  intros (Hnd & Hp & a & b & Ha & Hb & Hl) H. split; [done|]. split; [apply (path_frame m); [done|done|intros; by apply H..]|].
  assert (Hina : a ∈ C) by (by destruct C; [done|injection Ha as ->; left]). assert (Hinb : b ∈ C) by (by apply last_Some_elem_of).
  destruct Hl as [Hn Hv]. exists a, b. do 2 (split; [done|]). split; [by rewrite (proj1 (H b Hinb))|by rewrite (proj2 (H a Hina))].
Qed.

Lemma head_app_l {A} (l1 l2 : list A) a : head l1 = Some a -> head (l1 ++ l2) = Some a.
Proof. by destruct l1. Qed.

Lemma last_app_r {A} (l1 l2 : list A) a : last l2 = Some a -> last (l1 ++ l2) = Some a.
Proof. intros H. by rewrite last_app, H. Qed.

Lemma ring_rotate m l1 l2 : ring m (l1 ++ l2) -> ring m (l2 ++ l1).
Proof.
  destruct l1 as [|x l1], l2 as [|y l2]; rewrite ?app_nil_r; try done.
  intros (Hnd & Hp & a & b & Ha & Hb & Hl). rewrite path_app in Hp. destruct Hp as (Hp1 & Hp2 & Hm).
  cbn in Ha. injection Ha as <-. rewrite last_app_cons in Hb.
  destruct (last (x :: l1)) as [c|] eqn:Hc; [|by apply last_None in Hc].
  split; [rewrite Permutation_app_comm; done|]. split.
  - apply path_app. split_and!; [done..|]. intros ? ? Hx [= <-]. rewrite Hb in Hx. by injection Hx as <-.
  - exists y, c. split; [done|]. split; [by apply last_app_r|]. by apply Hm.
Qed.

(** ** Writes *)

(** [m'] has the nodes of [m], with the links [N] and [P]. *)
Definition wrote (m m' : lmem) (N P : Z -> option Z) : Prop :=
  (forall x, is_Some (m' !! x) <-> is_Some (m !! x)) /\ (forall x, nx m' x = N x) /\ (forall x, pv m' x = P x).

(** [f] with [v] at [a]. *)
Definition at_ (f : Z -> option Z) (a v : Z) : Z -> option Z := fun x => if decide (x = a) then Some v else f x.

Lemma at_eq f a v : at_ f a v a = Some v.
Proof. unfold at_. by rewrite decide_True. Qed.

Lemma at_ne f a v x : x <> a -> at_ f a v x = f x.
Proof. intros. unfold at_. by rewrite decide_False. Qed.

Lemma list_at_ok m a : is_Some (m !! a) -> exists n, list_at m a = Ok n /\ nx m a = Some (next n) /\ pv m a = Some (prev n).
Proof. intros [n E]. exists n. unfold list_at, nx, pv. by rewrite E. Qed.

Lemma list_at_links m a n p : nx m a = Some n -> pv m a = Some p -> list_at m a = Ok (ListHead n p).
Proof. unfold list_at, nx, pv. destruct (m !! a) as [[]|]; [|done]. cbn. by intros [= ->] [= ->]. Qed.

Lemma insert_wrote m a n : is_Some (m !! a) -> wrote m (<[a := n]> m) (at_ (nx m) a (next n)) (at_ (pv m) a (prev n)).
Proof.
  intros Hm. unfold wrote, nx, pv, at_. split; [|split]; intros x; destruct (decide (x = a)) as [->|]; rewrite ?lookup_insert_eq, ?lookup_insert_ne by done; try done.
Qed.

Lemma set_next_ok m m0 N P a v :
  wrote m0 m N P -> is_Some (m0 !! a) -> exists m', set_next a v m = Ok m' /\ wrote m0 m' (at_ N a v) P.
Proof.
  intros (Hd & HN & HP) Ha. destruct (list_at_ok m a) as (n & E & _ & Ep); [by apply Hd|]. unfold set_next. rewrite E. eexists. split; [done|].
  destruct (insert_wrote m a (ListHead v (prev n))) as (Hd' & HN' & HP'); [by apply Hd|]. split; [intros x; by rewrite Hd', Hd|].
  split; intros x; rewrite ?HN', ?HP'; unfold at_; case_decide; subst; rewrite <- ?HP; auto.
Qed.

Lemma set_prev_ok m m0 N P a v :
  wrote m0 m N P -> is_Some (m0 !! a) -> exists m', set_prev a v m = Ok m' /\ wrote m0 m' N (at_ P a v).
Proof.
  intros (Hd & HN & HP) Ha. destruct (list_at_ok m a) as (n & E & En & _); [by apply Hd|]. unfold set_prev. rewrite E. eexists. split; [done|].
  destruct (insert_wrote m a (ListHead (next n) v)) as (Hd' & HN' & HP'); [by apply Hd|]. split; [intros x; by rewrite Hd', Hd|].
  split; intros x; rewrite ?HN', ?HP'; unfold at_; case_decide; subst; rewrite <- ?HN; auto.
Qed.

Lemma wrote_refl m : wrote m m (nx m) (pv m).
Proof. done. Qed.

Lemma read_ok m m0 N P a n p : wrote m0 m N P -> N a = Some n -> P a = Some p -> list_at m a = Ok (ListHead n p).
Proof. intros (_ & HN & HP) En Ep. apply list_at_links; [by rewrite HN|by rewrite HP]. Qed.

(** One write or read after another. *)
Ltac wstep :=
  match goal with
  | H : wrote _ ?m _ _ |- context [set_next ?a ?v ?m ≫= _] =>
      let E := fresh in let m' := fresh "m" in let H' := fresh "Hw" in
      destruct (set_next_ok _ _ _ _ a v H) as (m' & E & H'); [try done|rewrite E; clear E H; cbn [mbind outcome_bind]]
  | H : wrote _ ?m _ _ |- context [set_prev ?a ?v ?m ≫= _] =>
      let E := fresh in let m' := fresh "m" in let H' := fresh "Hw" in
      destruct (set_prev_ok _ _ _ _ a v H) as (m' & E & H'); [try done|rewrite E; clear E H; cbn [mbind outcome_bind]]
  | H : wrote _ ?m _ _ |- context [set_next ?a ?v ?m] =>
      let E := fresh in let m' := fresh "m" in let H' := fresh "Hw" in
      destruct (set_next_ok _ _ _ _ a v H) as (m' & E & H'); [try done|rewrite E; clear E H]
  | H : wrote _ ?m _ _ |- context [set_prev ?a ?v ?m] =>
      let E := fresh in let m' := fresh "m" in let H' := fresh "Hw" in
      destruct (set_prev_ok _ _ _ _ a v H) as (m' & E & H'); [try done|rewrite E; clear E H]
  end.

Lemma init_ok m m0 N P a :
  wrote m0 m N P -> is_Some (m0 !! a) -> exists m', INIT_LIST_HEAD a m = Ok m' /\ wrote m0 m' (at_ N a a) (at_ P a a).
Proof. intros Hw Ha. unfold INIT_LIST_HEAD. repeat wstep. eauto. Qed.

Lemma add_ok m m0 N P n p x :
  wrote m0 m N P -> is_Some (m0 !! n) -> is_Some (m0 !! p) -> is_Some (m0 !! x) ->
  exists m', __list_add n p x m = Ok m' /\ wrote m0 m' (at_ (at_ N n x) p n) (at_ (at_ P x n) n p).
Proof. intros Hw Hn Hp Hx. unfold __list_add. repeat wstep. eauto. Qed.

Lemma del_ok m m0 N P p x :
  wrote m0 m N P -> is_Some (m0 !! p) -> is_Some (m0 !! x) -> exists m', __list_del p x m = Ok m' /\ wrote m0 m' (at_ N p x) (at_ P x p).
Proof. intros Hw Hp Hx. unfold __list_del. repeat wstep. eauto. Qed.

Lemma splice_ok m l p x first last :
  list_at m l = Ok (ListHead first last) -> is_Some (m !! first) -> is_Some (m !! last) -> is_Some (m !! p) -> is_Some (m !! x) ->
  exists m', __list_splice l p x m = Ok m' /\ wrote m m' (at_ (at_ (nx m) p first) last x) (at_ (at_ (pv m) first p) x last).
Proof.
  intros E Hf Hl Hp Hx. unfold __list_splice. rewrite E. cbn [mbind outcome_bind next prev].
  pose proof (wrote_refl m) as Hw. repeat wstep. eauto.
Qed.

(** ** Rings after writes *)

(** The last node of a ring that starts with [b]. *)
Definition lst (b : Z) (R : list Z) : Z := default b (last R).

Lemma lst_last b R : last (b :: R) = Some (lst b R).
Proof. revert b. induction R as [|c R IH]; [done|]. intros b. change (last (b :: c :: R)) with (last (c :: R)). unfold lst. by rewrite IH. Qed.

Lemma lst_in b R : lst b R ∈ b :: R.
Proof. apply last_Some_elem_of, lst_last. Qed.

Lemma lst_app b R n : lst b (R ++ [n]) = n.
Proof. unfold lst. by rewrite last_snoc. Qed.

Lemma ring_cons m p R :
  ring m (p :: R) <-> NoDup (p :: R) /\ match R with [] => link m p p | b :: R' => link m p b /\ path m (b :: R') /\ link m (lst b R') p end.
Proof.
  unfold ring. destruct R as [|b R].
  - split; [intros (? & _ & a & c & [= <-] & [= <-] & ?); done|]. intros [? ?]. split; [done|]. split; [done|]. by exists p, p.
  - change (path m (p :: b :: R)) with (link m p b /\ path m (b :: R)). change (last (p :: b :: R)) with (last (b :: R)). rewrite lst_last.
    split; [intros (? & [? ?] & a & c & [= <-] & [= <-] & ?); done|]. intros (? & ? & ? & ?). split; [done|]. split; [done|]. eauto.
Qed.

Lemma ring_nodup m C : ring m C -> NoDup C.
Proof. by intros [? _]. Qed.

(** The neighbours of the first node. *)
Lemma ring_ends m p R : ring m (p :: R) -> nx m p = Some (default p (head R)) /\ pv m p = Some (lst p R).
Proof. rewrite ring_cons. intros [_ H]. destruct R as [|b R]; cbn; [by destruct H|]. destruct H as ([? _] & _ & [_ ?]). unfold lst in *. by rewrite lst_last. Qed.

Lemma link_in m a b : link m a b -> is_Some (m !! a) /\ is_Some (m !! b).
Proof. unfold link, nx, pv. destruct (m !! a), (m !! b); naive_solver. Qed.

Lemma path_in m a l x : path m (a :: l) -> is_Some (m !! a) -> x ∈ a :: l -> is_Some (m !! x).
Proof.
  revert a. induction l as [|b l IH]; intros a Hp Ha Hx; [set_solver|]. apply elem_of_cons in Hx as [->|Hx]; [done|].
  destruct Hp as [Hl Hp]. by apply link_in in Hl as [_ ?]; apply (IH b).
Qed.

Lemma ring_in m C x : ring m C -> x ∈ C -> is_Some (m !! x).
Proof.
  intros (_ & Hp & a & b & Ha & _ & Hl) Hx. apply link_in in Hl as [_ Hl]. destruct C as [|c C]; [done|]. injection Ha as ->. by eapply path_in.
Qed.

Lemma ne_in (x y : Z) (l : list Z) : x ∉ l -> y ∈ l -> x <> y.
Proof. by intros ? ? ->. Qed.

(** [x] is not [y], which is in the list that [H] says [x] is not in. *)
Ltac apart H y := pose proof (ne_in _ y _ H ltac:(solve [repeat first [assumption | left | right]])).

(** Links and paths of the new memory, from those of the old one. *)
Ltac relink Hw :=
  let HN := fresh "HN" in let HP := fresh "HP" in destruct Hw as (_ & HN & HP);
  unfold link in *; rewrite ?HN, ?HP; unfold at_; repeat case_decide; subst; try done; try congruence.

Ltac reframe m Hw :=
  let HN := fresh "HN" in let HP := fresh "HP" in destruct Hw as (_ & HN & HP);
  apply (path_frame m); [done|done|..]; intros z Hz Hne; rewrite ?HN, ?HP; unfold at_; repeat case_decide; subst; try done; try congruence.

Lemma ring_insert m m' p R n :
  ring m (p :: R) -> n ∉ p :: R -> let x := default p (head R) in
  wrote m m' (at_ (at_ (nx m) n x) p n) (at_ (at_ (pv m) x n) n p) -> ring m' (p :: n :: R).
Proof.
  intros Hr Hn x Hw. rewrite ring_cons in Hr |- *. destruct Hr as [Hnd Hr]. apply not_elem_of_cons in Hn as [Hnp Hn].
  pose proof (proj1 (NoDup_cons _ _) Hnd) as [Hp HndR].
  split; [apply NoDup_cons; split; [set_solver|by apply NoDup_cons]|]. destruct R as [|b R]; cbn in x; subst x.
  - cbn [lst last default path]. split; [relink Hw|]. split; [done|]. relink Hw.
  - destruct Hr as (H1 & H2 & H3). pose proof (lst_in b R) as Hlst.
    apart Hp b. apart Hn b. apart Hp (lst b R). apart Hn (lst b R).
    split; [relink Hw|]. split.
    + split; [relink Hw|]. reframe m Hw.
    + unfold lst at 1. rewrite lst_last. cbn [default id]. relink Hw.
Qed.

Lemma ring_remove m m' e x R :
  ring m (e :: x :: R) -> wrote m m' (at_ (nx m) (lst x R) x) (at_ (pv m) x (lst x R)) -> ring m' (x :: R).
Proof.
  intros Hr Hw. rewrite ring_cons in Hr |- *. destruct Hr as (Hnd & H1 & H2 & H3). apply NoDup_cons in Hnd as [He Hnd]. split; [done|].
  destruct R as [|b R]; [relink Hw|]. destruct H2 as [H2 H2']. pose proof (proj1 (NoDup_cons _ _) Hnd) as [Hx HndR].
  pose proof (lst_in b R) as Hlst. apart Hx b. apart Hx (lst b R).
  assert (E : lst x (b :: R) = lst b R) by (unfold lst at 1; by rewrite lst_last). rewrite E in Hw.
  split; [destruct R as [|c R]; relink Hw|]. split; [reframe m Hw; by rewrite lst_last in Hne|relink Hw].
Qed.

Lemma ring_splice m m' l f L p R :
  ring m (l :: f :: L) -> ring m (p :: R) -> (forall z, z ∈ p :: R -> z ∉ l :: f :: L) -> let x := default p (head R) in
  wrote m m' (at_ (at_ (nx m) p f) (lst f L) x) (at_ (at_ (pv m) f p) x (lst f L)) -> ring m' (p :: (f :: L) ++ R).
Proof.
  intros Hr1 Hr2 Hd x Hw. rewrite ring_cons in Hr1, Hr2. destruct Hr1 as (Hnd1 & _ & Hp1 & _), Hr2 as (Hnd2 & Hr2).
  pose proof (proj1 (NoDup_cons _ _) Hnd1) as [Hl HndL]. pose proof (proj1 (NoDup_cons _ _) Hnd2) as [Hp HndR].
  assert (Hd' : forall z, z ∈ p :: R -> z ∉ f :: L) by (intros z Hz Hz'; by apply (Hd z Hz); right). clear Hd Hl Hnd1.
  pose proof (lst_in f L) as HlstL. pose proof (Hd' p ltac:(left)) as Hpd. apart Hpd f. apart Hpd (lst f L).
  assert (Hnd : NoDup (p :: (f :: L) ++ R)).
  { apply NoDup_cons. split; [by rewrite not_elem_of_app|]. apply NoDup_app. split; [done|]. split; [|done]. intros z Hz HzR. by apply (Hd' z); [right|]. }
  apply ring_cons. split; [done|]. change ((f :: L) ++ R) with (f :: (L ++ R)). destruct R as [|b R]; cbn in x; subst x.
  - assert (HpL : path m' (f :: L)) by (reframe m Hw; by rewrite lst_last in Hne). rewrite app_nil_r. split_and!; [relink Hw|done|relink Hw].
  - destruct Hr2 as (H1 & H2 & H3). pose proof (lst_in b R) as HlstR. pose proof (Hd' b ltac:(right; left)) as Hbd. apart Hbd f. apart Hbd (lst f L).
    pose proof (Hd' (lst b R) ltac:(by right)) as Hrd. apart Hrd f. apart Hrd (lst f L). apart Hp b. apart Hp (lst b R).
    assert (HpL : path m' (f :: L)) by (reframe m Hw; by rewrite lst_last in Hne).
    assert (HpR : path m' (b :: R)) by (reframe m Hw; exfalso; (eapply Hd'; [right; exact Hz|]); first [done|left]).
    assert (Hlb : link m' (lst f L) b) by (relink Hw). split; [relink Hw|]. split.
    + change (f :: L ++ b :: R) with ((f :: L) ++ b :: R). apply path_app. split_and!; [done..|]. intros a c. rewrite lst_last. by intros [= <-] [= <-].
    + replace (lst f (L ++ b :: R)) with (lst b R); [relink Hw|]. unfold lst at 2. by rewrite last_app, lst_last.
Qed.

Lemma ring_replace m m' o n x R :
  ring m (o :: x :: R) -> n ∉ o :: x :: R ->
  wrote m m' (at_ (at_ (nx m) n x) (lst x R) n) (at_ (at_ (pv m) x n) n (lst x R)) -> ring m' (n :: x :: R).
Proof.
  intros Hr Hn Hw. rewrite ring_cons in Hr |- *. destruct Hr as (Hnd & H1 & H2 & H3). apply NoDup_cons in Hnd as [Ho HndR].
  apply not_elem_of_cons in Hn as [_ Hn]. pose proof (lst_in x R) as Hlst. apart Hn x. apart Hn (lst x R).
  split; [by apply NoDup_cons|]. split; [relink Hw|]. split; [|relink Hw]. reframe m Hw. by rewrite lst_last in Hne.
Qed.

Lemma ring_single m a : nx m a = Some a -> pv m a = Some a -> ring m [a].
Proof. intros. apply ring_cons. split; [apply NoDup_singleton|done]. Qed.

(** ** Several rings in one memory *)

(** The list of each head. *)
Local Abbreviation rings := (gmap Z (list Z)).

Definition rep (m : lmem) (A : rings) : Prop :=
  (forall h L, A !! h = Some L -> ring m (h :: L)) /\
  (forall h1 L1 h2 L2 x, A !! h1 = Some L1 -> A !! h2 = Some L2 -> x ∈ h1 :: L1 -> x ∈ h2 :: L2 -> h1 = h2).

(** In no ring. *)
Definition outside (A : rings) (x : Z) : Prop := forall h L, A !! h = Some L -> x ∉ h :: L.

(** The new memory is the old one away from the addresses in [l]. *)
Definition same_but (l : list Z) (m m' : lmem) : Prop :=
  (forall x, is_Some (m' !! x) <-> is_Some (m !! x)) /\ forall x, x ∉ l -> nx m' x = nx m x /\ pv m' x = pv m x.

Lemma same_but_trans l m1 m2 m3 : same_but l m1 m2 -> same_but l m2 m3 -> same_but l m1 m3.
Proof. intros [Hd1 H1] [Hd2 H2]. split; [intros x; by rewrite Hd2, Hd1|]. intros x Hx. destruct (H1 x Hx), (H2 x Hx). split; congruence. Qed.

Lemma same_but_weaken l l' m m' : same_but l m m' -> (forall x, x ∈ l -> x ∈ l') -> same_but l' m m'.
Proof. intros [Hd H] Hl. split; [done|]. intros x Hx. apply H. auto. Qed.

Lemma rep_delete m A n : rep m A -> rep m (delete n A).
Proof.
  intros [Hr Hd]. split.
  - intros h L Hh. apply lookup_delete_Some in Hh as [_ Hh]. auto.
  - intros h1 L1 h2 L2 x H1 H2. apply lookup_delete_Some in H1 as [_ H1]. apply lookup_delete_Some in H2 as [_ H2]. eauto.
Qed.

(** A ring is changed, and takes up nodes that were in no ring. *)
Lemma rep_put m m' A h L L' :
  rep m A -> A !! h = Some L -> ring m' (h :: L') -> (forall x, x ∈ L' -> x ∈ L \/ outside A x) ->
  same_but (h :: L ++ L') m m' -> rep m' (<[h := L']> A).
Proof.
  intros [Hr Hd] Hh Hr' Hin [_ Hs].
  assert (Hout : forall h2 L2 x, A !! h2 = Some L2 -> x ∈ h2 :: L2 -> x ∈ h :: L' -> h2 = h).
  { intros h2 L2 x H2 Hx2 Hx. apply elem_of_cons in Hx as [->|Hx]; [eapply Hd; [done..|left]|].
    destruct (Hin x Hx) as [?|Ho]; [eapply Hd; [done..|by right]|by destruct (Ho h2 L2 H2)]. }
  split.
  - intros h2 L2 H2. destruct (decide (h2 = h)) as [->|Hne]; [rewrite lookup_insert_eq in H2; by injection H2 as <-|].
    rewrite lookup_insert_ne in H2 by done. apply (ring_frame m); [by apply Hr|]. intros x Hx2. apply Hs. intros Hx. apply Hne.
    apply elem_of_cons in Hx as [->|Hx]; [by eapply Hout; [..|left]|]. apply elem_of_app in Hx as [Hx|Hx]; [by eapply Hd; [..|right]|by eapply Hout; [..|right]].
  - intros h1 L1 h2 L2 x H1 H2 Hx1 Hx2. destruct (decide (h1 = h)) as [->|Hne1], (decide (h2 = h)) as [->|Hne2]; [done|..].
    + rewrite lookup_insert_eq in H1. injection H1 as <-. rewrite lookup_insert_ne in H2 by done. symmetry. by eapply Hout.
    + rewrite lookup_insert_eq in H2. injection H2 as <-. rewrite lookup_insert_ne in H1 by done. by eapply Hout.
    + rewrite lookup_insert_ne in H1 by done. rewrite lookup_insert_ne in H2 by done. by eapply Hd.
Qed.

(** Nodes that were in no ring are one. *)
Lemma rep_new m m' A n L l :
  rep m A -> (forall x, x ∈ l -> outside A x) -> (forall x, x ∈ n :: L -> x ∈ l) -> ring m' (n :: L) -> same_but l m m' -> rep m' (<[n := L]> A).
Proof.
  intros [Hr Hd] Ho Hl Hr' [_ Hs].
  assert (Hne : forall h K, A !! h = Some K -> h <> n) by (intros h K Hh ->; apply (Ho n (Hl n ltac:(left)) n K Hh); left).
  split.
  - intros h K. rewrite lookup_insert_Some. intros [[<- <-]|[_ Hh]]; [done|]. apply (ring_frame m); [by apply Hr|]. intros x Hx. apply Hs. intros Hx'. by apply (Ho x Hx' h K Hh).
  - intros h1 L1 h2 L2 x. rewrite !lookup_insert_Some. intros [[<- <-]|[_ H1]] [[<- <-]|[_ H2]] Hx1 Hx2; [done|..|by eapply Hd].
    + by destruct (Ho x (Hl x Hx1) h2 L2 H2).
    + by destruct (Ho x (Hl x Hx2) h1 L1 H1).
Qed.

(** ** The operations on one of several rings *)

Lemma wrote_same l m m' N P :
  wrote m m' N P -> (forall x, x ∉ l -> N x = nx m x /\ P x = pv m x) -> same_but l m m'.
Proof. intros (Hd & HN & HP) H. split; [done|]. intros x Hx. rewrite HN, HP. by apply H. Qed.

(** Writes at addresses of the list [l]. *)
Ltac same_at := eapply wrote_same; [eassumption|]; intros z Hz; split; rewrite ?at_ne; try done; intros ->; apply Hz; set_solver.

Lemma head_default_in (p : Z) R : default p (head R) ∈ p :: R.
Proof. destruct R; cbn; [left|right; left]. Qed.

Lemma list_add_rep m A n h L :
  rep m A -> outside A n -> is_Some (m !! n) -> A !! h = Some L ->
  exists m', list_add n h m = Ok m' /\ rep m' (<[h := n :: L]> A) /\ same_but (n :: h :: L) m m'.
Proof.
  intros HA Ho Hn Hh. pose proof (proj1 HA h L Hh) as Hr. destruct (ring_ends _ _ _ Hr) as [Enx Epv]. pose proof (head_default_in h L) as Hx.
  unfold list_add. rewrite (list_at_links _ _ _ _ Enx Epv). cbn [mbind outcome_bind next].
  destruct (add_ok m m _ _ n h (default h (head L)) (wrote_refl m) Hn) as (m' & -> & Hw); [by eapply ring_in; [|left]|by eapply ring_in|].
  assert (Hs : same_but (n :: h :: L) m m') by same_at. exists m'. split; [done|]. split; [|done]. eapply (rep_put m); [done|done| |..].
  - by apply (ring_insert m); [..|apply (Ho h L Hh)|].
  - intros x Hx'. apply elem_of_cons in Hx' as [->|?]; auto.
  - eapply same_but_weaken; [done|]. set_solver.
Qed.

Lemma list_add_tail_rep m A n h L :
  rep m A -> outside A n -> is_Some (m !! n) -> A !! h = Some L ->
  exists m', list_add_tail n h m = Ok m' /\ rep m' (<[h := L ++ [n]]> A) /\ same_but (n :: h :: L) m m'.
Proof.
  intros HA Ho Hn Hh. pose proof (proj1 HA h L Hh) as Hr. destruct (ring_ends _ _ _ Hr) as [Enx Epv]. pose proof (lst_in h L) as Hl.
  unfold list_add_tail. rewrite (list_at_links _ _ _ _ Enx Epv). cbn [mbind outcome_bind prev].
  destruct (add_ok m m _ _ n (lst h L) h (wrote_refl m) Hn) as (m' & -> & Hw); [by eapply ring_in|by eapply ring_in; [|left]|].
  assert (Hs : same_but (n :: h :: L) m m') by same_at. exists m'. split; [done|]. split; [|done].
  destruct (exists_last (l := h :: L)) as (C & p & EC); [done|]. assert (Ep : lst h L = p) by (pose proof (lst_last h L) as E; rewrite EC, last_snoc in E; by injection E).
  rewrite Ep in *. assert (Ehd : default p (head C) = h) by (destruct C; cbn in EC; by injection EC).
  eapply (rep_put m); [done|done| |..].
  - change (h :: L ++ [n]) with ((h :: L) ++ [n]). rewrite EC, <- app_assoc. apply (ring_rotate _ [p; n] C). cbn.
    apply (ring_insert m); [apply (ring_rotate _ C [p]); by rewrite <- EC| |by rewrite Ehd].
    intros Hin. apply (Ho h L Hh). rewrite EC. set_solver.
  - intros x Hx'. apply elem_of_app in Hx' as [?|Hx'%list_elem_of_singleton]; subst; auto.
  - eapply same_but_weaken; [done|]. set_solver.
Qed.

(** A node that can be taken out: a member of a list, or a ring of its own. *)
Definition linked (A : rings) (e : Z) : Prop := (exists h L, A !! h = Some L /\ e ∈ L) \/ A !! e = Some [].

Definition without (e : Z) (A : rings) : rings := filter (fun x => x <> e) <$> delete e A.

Lemma filter_ne e (l : list Z) : e ∉ l -> filter (fun x => x <> e) l = l.
Proof.
  induction l as [|x l IH]; intros H; [done|]. apply not_elem_of_cons in H as [Hx H]. rewrite filter_cons_True by congruence. by rewrite IH.
Qed.

Lemma without_ring e A k L : without e A !! k = Some L -> exists K, A !! k = Some K /\ k <> e /\ L = filter (fun x => x <> e) K.
Proof. unfold without. rewrite lookup_fmap_Some. intros (K & <- & HK). apply lookup_delete_Some in HK as [? ?]. eauto. Qed.

Lemma outside_without e A : outside (without e A) e.
Proof.
  intros h L H Hin. apply without_ring in H as (K & _ & Hne & ->). apply elem_of_cons in Hin as [->|Hin]; [done|].
  by apply list_elem_of_filter in Hin as [? _].
Qed.

Lemma without_member m A e h L1 L2 :
  rep m A -> A !! h = Some (L1 ++ e :: L2) -> without e A = <[h := L1 ++ L2]> A.
Proof.
  intros [Hr Hd] Hh. pose proof (ring_nodup _ _ (Hr _ _ Hh)) as Hnd. apply NoDup_cons in Hnd as [Hhe Hnd].
  assert (He : e <> h) by (intros ->; apply Hhe; set_solver).
  apply map_eq. intros k. unfold without. rewrite lookup_fmap. destruct (decide (k = h)) as [->|Hk].
  - rewrite lookup_delete_ne, lookup_insert_eq, Hh by done. cbn. rewrite filter_app, filter_cons_False by naive_solver.
    apply NoDup_app in Hnd as (Hnd1 & Hdis & Hnd2). apply NoDup_cons in Hnd2 as [He2 _]. rewrite !filter_ne; [done|done|]. intros He1. apply (Hdis e He1). set_solver.
  - rewrite lookup_insert_ne by done. destruct (decide (k = e)) as [->|Hke].
    + rewrite lookup_delete_eq. cbn. destruct (A !! e) as [K|] eqn:E; [|done]. destruct He. eapply (Hd e K h); [done|done|left|set_solver].
    + rewrite lookup_delete_ne by done. destruct (A !! k) as [K|] eqn:E; [|done]. cbn. f_equal. apply filter_ne. intros HeK.
      destruct Hk. eapply (Hd k K h); [done|done|by right|set_solver].
Qed.

Lemma without_own m A e : rep m A -> A !! e = Some [] -> without e A = delete e A.
Proof.
  intros [Hr Hd] He. apply map_eq. intros k. unfold without. rewrite lookup_fmap. destruct (delete e A !! k) as [K|] eqn:E; [|done]. cbn.
  apply lookup_delete_Some in E as [Hne E]. f_equal. apply filter_ne. intros Hin. destruct Hne. eapply (Hd e [] k K); [done|done|left|by right].
Qed.

Lemma del_entry_rep m A e :
  rep m A -> linked A e -> exists m', __list_del_entry e m = Ok m' /\ rep m' (without e A) /\ forall x, is_Some (m' !! x) <-> is_Some (m !! x).
Proof.
  intros HA [(h & L & Hh & He)|He].
  - apply list_elem_of_split in He as (L1 & L2 & ->). pose proof (proj1 HA _ _ Hh) as Hr.
    apply (ring_rotate m (h :: L1) (e :: L2)) in Hr. rewrite (without_member m A e h L1 L2) by done.
    assert (Hback : forall m', ring m' (L2 ++ h :: L1) -> ring m' (h :: L1 ++ L2)) by (intros m' ?; by apply (ring_rotate m' L2 (h :: L1))).
    cbn in Hr. assert (Hsub : forall z, z ∈ L2 ++ h :: L1 -> z ∈ h :: (L1 ++ e :: L2) ++ L1 ++ L2) by set_solver.
    destruct (L2 ++ h :: L1) as [|x R] eqn:E; [by destruct L2|]. destruct (ring_ends _ _ _ Hr) as [Enx Epv]. cbn in Enx.
    unfold __list_del_entry. rewrite (list_at_links _ _ _ _ Enx Epv). cbn [mbind outcome_bind prev next].
    assert (El : lst e (x :: R) = lst x R) by (unfold lst at 1; by rewrite lst_last). rewrite El. pose proof (lst_in x R) as Hl.
    destruct (del_ok m m _ _ (lst x R) x (wrote_refl m)) as (m' & -> & Hw); [eapply ring_in; [done|by right]|eapply ring_in; [done|right; left]|].
    exists m'. split; [done|]. split; [|apply Hw]. eapply (rep_put m); [done|done|apply Hback; by eapply ring_remove| |].
    + intros z Hz. left. set_solver.
    + eapply wrote_same; [done|]. intros z Hz. split; rewrite ?at_ne; try done; intros ->; apply Hz, Hsub; [done|left].
  - pose proof (proj1 HA _ _ He) as Hr. destruct (ring_ends _ _ _ Hr) as [Enx Epv]. cbn in Enx, Epv.
    unfold __list_del_entry. rewrite (list_at_links _ _ _ _ Enx Epv). cbn [mbind outcome_bind prev next lst last default]. rewrite (without_own m) by done.
    destruct (del_ok m m _ _ e e (wrote_refl m)) as (m' & -> & Hw); [by eapply ring_in; [|left]..|]. exists m'. split; [done|]. split; [|apply Hw].
    apply rep_delete. rewrite <- (insert_id A e []) by done. eapply (rep_put m); [done|done| |set_solver|same_at]. destruct Hw as (_ & HN & HP). apply ring_single; [rewrite HN|rewrite HP]; apply at_eq.
Qed.

Lemma init_rep m A n :
  rep m A -> outside A n -> is_Some (m !! n) -> exists m', INIT_LIST_HEAD n m = Ok m' /\ rep m' (<[n := []]> A) /\ forall x, is_Some (m' !! x) <-> is_Some (m !! x).
Proof.
  intros HA Ho Hn. destruct (init_ok m m _ _ n (wrote_refl m) Hn) as (m' & -> & Hw). exists m'. split; [done|]. split; [|apply Hw].
  eapply (rep_new m _ _ _ _ [n]); [done| |done| |same_at].
  - intros x Hx%list_elem_of_singleton. by subst.
  - destruct Hw as (_ & HN & HP). apply ring_single; [rewrite HN|rewrite HP]; apply at_eq.
Qed.

(** Writes to a node that is in no ring. *)
Lemma outside_rep m m' A n : rep m A -> outside A n -> same_but [n] m m' -> rep m' A.
Proof.
  intros [Hr Hd] Ho [_ Hs]. split; [|done]. intros h L Hh. apply (ring_frame m); [by apply Hr|]. intros x Hx. apply Hs.
  intros Hx'%list_elem_of_singleton. subst. by apply (Ho h L Hh).
Qed.

Lemma empty_rep m A h L : rep m A -> A !! h = Some L -> list_empty h m = Ok (bool_decide (L = [])).
Proof.
  intros HA Hh. pose proof (proj1 HA h L Hh) as Hr. destruct (ring_ends _ _ _ Hr) as [Enx Epv]. unfold list_empty. rewrite (list_at_links _ _ _ _ Enx Epv). cbn [mbind outcome_bind next].
  f_equal. destruct L as [|x L]; cbn; [by rewrite Z.eqb_refl|]. apply Z.eqb_neq. intros ->. apply ring_nodup, NoDup_cons in Hr as [Hr _]. set_solver.
Qed.

(** One list is moved to the front, or the end, of another. *)
Lemma splice_rep m A l L h K p R :
  rep m A -> A !! l = Some L -> A !! h = Some K -> l <> h -> L <> [] -> ring m (p :: R) -> (forall x, x ∈ p :: R <-> x ∈ h :: K) ->
  exists m', __list_splice l p (default p (head R)) m = Ok m' /\ ring m' (p :: L ++ R) /\ same_but (h :: K ++ L) m m'.
Proof.
  intros HA Hl Hh Hne HL Hr Hin. pose proof (proj1 HA l L Hl) as Hrl. destruct L as [|f L]; [done|]. destruct (ring_ends _ _ _ Hrl) as [Enx Epv].
  assert (E : lst l (f :: L) = lst f L) by (unfold lst at 1; by rewrite lst_last). rewrite E in Epv. cbn in Enx. pose proof (lst_in f L) as Hlst. pose proof (head_default_in p R) as Hx.
  destruct (splice_ok m l p (default p (head R)) f (lst f L)) as (m' & -> & Hw);
    [by apply list_at_links|eapply ring_in; [done|right; left]|eapply ring_in; [done|by right]|eapply ring_in; [exact Hr|left]|exact (ring_in _ _ _ Hr Hx)|].
  exists m'. split; [done|]. split.
  - eapply ring_splice; [done|done| |done]. intros z Hz Hzl. apply Hne. apply Hin in Hz. by eapply (proj2 HA l _ h).
  - assert (Hp : p ∈ h :: K) by (apply Hin; left). apply Hin in Hx.
    assert (H1 : forall x, x ∈ h :: K -> x ∈ h :: K ++ f :: L) by (intros x; rewrite !elem_of_cons, elem_of_app; tauto).
    assert (H2 : forall x, x ∈ f :: L -> x ∈ h :: K ++ f :: L) by (intros x ?; rewrite elem_of_cons, elem_of_app; tauto).
    eapply wrote_same; [done|]. intros z Hz. split; rewrite ?at_ne; try done; intros ->; apply Hz; first [by apply H1|by apply H2|apply H2; left].
Qed.

Lemma replace_mem m o n R :
  ring m (o :: R) -> n ∉ o :: R -> is_Some (m !! n) ->
  exists m', list_replace o n m = Ok m' /\ ring m' (n :: R) /\ same_but (n :: o :: R) m m'.
Proof.
  intros Hr Hn [[n0 p0] En]. assert (Hno : n <> o) by (intros ->; apply Hn; left). destruct (ring_ends _ _ _ Hr) as [Enx Epv].
  assert (Epn : pv m n = Some p0) by (unfold pv; by rewrite En). assert (Hdn : is_Some (m !! n)) by (by eexists).
  assert (Hdo : is_Some (m !! o)) by (by eapply ring_in; [|left]). pose proof (head_default_in o R) as Hx. pose proof (ring_in _ _ _ Hr Hx) as Hdx.
  unfold list_replace. rewrite (list_at_links _ _ _ _ Enx Epv). cbn [mbind outcome_bind next prev]. pose proof (wrote_refl m) as Hw. wstep.
  set (x := default o (head R)) in *. assert (Hnx : n <> x) by (by intros ->). set (y := if decide (x = o) then n else lst o R).
  erewrite (read_ok _ _ _ _ n x p0 Hw0); [|apply at_eq|done]. cbn [mbind outcome_bind next prev]. wstep.
  assert (Eo : at_ (pv m) x n o = Some y) by (unfold at_, y; do 2 case_decide; congruence).
  erewrite (read_ok _ _ _ _ o x y Hw); [|by rewrite at_ne|done]. cbn [mbind outcome_bind next prev]. wstep.
  erewrite (read_ok _ _ _ _ n x y Hw0); [|apply at_eq|apply at_eq]. cbn [mbind outcome_bind next prev]. destruct R as [|b R]; cbn in x; subst x.
  - subst y. rewrite decide_True in Hw0 |- * by done. wstep. eexists. split; [done|]. split; [|same_at].
    destruct Hw as (_ & HN & HP). apply ring_single; [rewrite HN|rewrite HP]; apply at_eq.
  - assert (Hbo : b <> o) by (intros ->; apply ring_nodup, NoDup_cons in Hr as [Hr _]; apply Hr; left). subst y. rewrite decide_False in Hw0 |- * by done.
    assert (E : lst o (b :: R) = lst b R) by (unfold lst at 1; by rewrite lst_last). rewrite E in *. pose proof (lst_in b R) as Hl.
    wstep; [eapply ring_in; [done|by right]|]. eexists. split; [done|]. split; [by eapply ring_replace|same_at].
Qed.

(** ** Sequences of operations *)

Inductive list_op :=
  | LInit (list : Z)
  | LAdd (new head : Z)
  | LAddTail (new head : Z)
  | LDel (entry : Z)
  | LReplace (old new : Z)
  | LReplaceInit (old new : Z)
  | LDelInit (entry : Z)
  | LDelInitCareful (entry : Z)
  | LMove (list head : Z)
  | LMoveTail (list head : Z)
  | LSplice (list head : Z)
  | LSpliceInit (list head : Z)
  | LSpliceTailInit (list head : Z).

Definition list_exec (op : list_op) : lmem -> outcome lmem :=
  match op with
  | LInit list => INIT_LIST_HEAD list
  | LAdd new head => list_add new head
  | LAddTail new head => list_add_tail new head
  | LDel entry => list_del entry
  | LReplace old new => list_replace old new
  | LReplaceInit old new => list_replace_init old new
  | LDelInit entry => list_del_init entry
  | LDelInitCareful entry => list_del_init_careful entry
  | LMove list head => list_move list head
  | LMoveTail list head => list_move_tail list head
  | LSplice list head => list_splice list head
  | LSpliceInit list head => list_splice_init list head
  | LSpliceTailInit list head => list_splice_tail_init list head
  end.

Fixpoint list_run (ops : list list_op) (m : lmem) : outcome lmem :=
  match ops with
  | [] => Ok m
  | op :: ops => m ← list_exec op m; list_run ops m
  end.

(** What they mean: [new] is in no list but perhaps a ring of its own, which
    it stops to be. *)
Definition replace_in (old new : Z) (A : rings) : rings :=
  match A !! old with
  | Some L => <[new := L]> (delete old A)
  | None => map (fun x => if x =? old then new else x) <$> A
  end.

Definition splice_in (tail : bool) (list head : Z) (A : rings) : rings :=
  match A !! list with
  | Some ((_ :: _) as L) => alter (fun K => if tail then K ++ L else L ++ K) head (delete list A)
  | _ => A
  end.

Definition list_spec (op : list_op) (A : rings) : rings :=
  match op with
  | LInit list => <[list := []]> A
  | LAdd new head => alter (cons new) head (delete new A)
  | LAddTail new head => alter (fun L => L ++ [new]) head (delete new A)
  | LDel entry => without entry A
  | LReplace old new => replace_in old new (delete new A)
  | LReplaceInit old new => <[old := []]> (replace_in old new (delete new A))
  | LDelInit entry | LDelInitCareful entry => <[entry := []]> (without entry A)
  | LMove list head => alter (cons list) head (without list A)
  | LMoveTail list head => alter (fun L => L ++ [list]) head (without list A)
  | LSplice list head => splice_in false list head A
  | LSpliceInit list head => <[list := []]> (splice_in false list head A)
  | LSpliceTailInit list head => <[list := []]> (splice_in true list head A)
  end.

(** A node of the memory [D] that can be put into a list. *)
Definition spare (D : gset Z) (A : rings) (n : Z) : Prop := n ∈ D /\ outside (delete n A) n /\ (A !! n = None \/ A !! n = Some []).

Definition list_pre (D : gset Z) (op : list_op) (A : rings) : Prop :=
  match op with
  | LInit list => spare D A list
  | LAdd new head | LAddTail new head => spare D A new /\ is_Some (A !! head) /\ new <> head
  | LDel entry | LDelInit entry | LDelInitCareful entry => linked A entry
  | LReplace old new | LReplaceInit old new => spare D A new /\ (linked A old \/ is_Some (A !! old)) /\ new <> old
  | LMove list head | LMoveTail list head => linked A list /\ is_Some (A !! head) /\ list <> head
  | LSplice list head | LSpliceInit list head | LSpliceTailInit list head => is_Some (A !! list) /\ is_Some (A !! head) /\ list <> head
  end.

Fixpoint list_pres (D : gset Z) (ops : list list_op) (A : rings) : Prop :=
  match ops with
  | [] => True
  | op :: ops => list_pre D op A /\ list_pres D ops (list_spec op A)
  end.

Definition list_specs (ops : list list_op) (A : rings) : rings := fold_left (fun A op => list_spec op A) ops A.

Lemma same_dom l m m' : same_but l m m' -> dom m' = dom m.
Proof. intros [Hd _]. apply set_eq. intros x. by rewrite !elem_of_dom. Qed.

Lemma iff_dom (m m' : lmem) : (forall x, is_Some (m' !! x) <-> is_Some (m !! x)) -> dom m' = dom m.
Proof. intros Hd. apply set_eq. intros x. by rewrite !elem_of_dom. Qed.

Lemma alter_insert_lookup {A} (f : A -> A) (M : gmap Z A) k x : M !! k = Some x -> alter f k M = <[k := f x]> M.
Proof. intros H. rewrite <- (insert_id M k x H) at 1. by rewrite alter_insert_eq. Qed.

Lemma spare_outside D A n : spare D A n -> A !! n = None -> outside A n.
Proof. intros (_ & Ho & _) Hn. by rewrite delete_id in Ho. Qed.

Lemma spare_out D A (m : lmem) n : dom m = D -> spare D A n -> outside (delete n A) n /\ is_Some (m !! n).
Proof. intros <- (Hn & Ho & _). by rewrite elem_of_dom in Hn. Qed.

Lemma init_dom m A n : rep m A -> outside A n -> n ∈ dom m -> exists m', INIT_LIST_HEAD n m = Ok m' /\ rep m' (<[n := []]> A) /\ dom m' = dom m.
Proof. intros HA Ho Hn. destruct (init_rep m A n) as (m' & ? & ? & ?); [done|done|by apply elem_of_dom|]. eauto using iff_dom. Qed.

Lemma linked_dom m A e : rep m A -> linked A e -> e ∈ dom m.
Proof. intros [Hr _] [(h & L & Hh & He)|He]; apply elem_of_dom; (eapply ring_in; [by apply Hr|]); [by right|left]. Qed.

Lemma alter_rep_add m A n h :
  rep m A -> outside A n -> n ∈ dom m -> is_Some (A !! h) ->
  (exists m', list_add n h m = Ok m' /\ rep m' (alter (cons n) h A) /\ dom m' = dom m) /\
  (exists m', list_add_tail n h m = Ok m' /\ rep m' (alter (fun L => L ++ [n]) h A) /\ dom m' = dom m).
Proof.
  intros HA Ho Hn [L Hh]. apply elem_of_dom in Hn. rewrite !(alter_insert_lookup _ _ _ _ Hh). split.
  - destruct (list_add_rep m A n h L) as (m' & ? & ? & ?); eauto using same_dom.
  - destruct (list_add_tail_rep m A n h L) as (m' & ? & ? & ?); eauto using same_dom.
Qed.

Lemma without_head e A h : is_Some (A !! h) -> e <> h -> is_Some (without e A !! h).
Proof. intros [L Hh] Hne. unfold without. rewrite lookup_fmap, lookup_delete_ne, Hh by done. by eexists. Qed.

Lemma delete_head (e : Z) (A : rings) h : is_Some (A !! h) -> e <> h -> is_Some (delete e A !! h).
Proof. intros Hh Hne. by rewrite lookup_delete_ne. Qed.

Definition step_ok (m : lmem) (A : rings) (op : list_op) : Prop :=
  exists m', list_exec op m = Ok m' /\ rep m' (list_spec op A) /\ dom m' = dom m.

Lemma add_steps m A op :
  rep m A -> list_pre (dom m) op A -> match op with LInit _ | LAdd _ _ | LAddTail _ _ => True | _ => False end -> step_ok m A op.
Proof.
  intros HA Hpre Hop. destruct op as [n|n h|n h| | | | | | | | | |]; try done; unfold step_ok; cbn [list_pre list_exec list_spec] in *.
  - destruct Hpre as (Hn & Ho & _). rewrite <- insert_delete_eq. by apply init_dom; [apply rep_delete|..].
  - destruct Hpre as ((Hn & Ho & _) & Hh & Hne). apply (alter_rep_add m (delete n A)); [by apply rep_delete|done|done|by apply delete_head].
  - destruct Hpre as ((Hn & Ho & _) & Hh & Hne). apply (alter_rep_add m (delete n A)); [by apply rep_delete|done|done|by apply delete_head].
Qed.

Lemma del_steps m A op :
  rep m A -> list_pre (dom m) op A ->
  match op with LDel _ | LDelInit _ | LDelInitCareful _ | LMove _ _ | LMoveTail _ _ => True | _ => False end -> step_ok m A op.
Proof.
  intros HA Hpre Hop. unfold step_ok. destruct op as [| | |e| | |e|e|e h|e h| | |]; try done; cbn [list_pre list_exec list_spec] in *.
  all: assert (Hl : linked A e) by tauto; pose proof (linked_dom m A e HA Hl) as He; destruct (del_entry_rep m A e HA Hl) as (m1 & E1 & HA1 & Hd1).
  all: apply iff_dom in Hd1; rewrite <- Hd1 in He |- *; pose proof (outside_without e A) as Ho; pose proof (proj1 (elem_of_dom _ _) He) as Hs.
  - unfold list_del. rewrite E1. cbn [mbind outcome_bind]. pose proof (wrote_refl m1) as Hw. repeat wstep.
    match goal with H : wrote m1 ?m' _ _ |- _ => exists m'; assert (Hsame : same_but [e] m1 m') by same_at; rename H into Hw' end. split; [done|]. split; [by eapply outside_rep|by eapply same_dom].
  - unfold list_del_init. rewrite E1. cbn [mbind outcome_bind]. by apply init_dom.
  - unfold list_del_init_careful. rewrite E1. cbn [mbind outcome_bind]. pose proof (wrote_refl m1) as Hw. repeat wstep.
    match goal with H : wrote m1 ?m' _ _ |- _ => exists m'; assert (Hsame : same_but [e] m1 m') by same_at; rename H into Hw' end. split; [done|]. split; [|by eapply same_dom]. eapply (rep_new m1 _ _ _ _ [e]); [done|intros x Hx%list_elem_of_singleton; by subst|done| |done].
    destruct Hw' as (_ & HN & HP). apply ring_single; [rewrite HN|rewrite HP]; apply at_eq.
  - destruct Hpre as (_ & Hh & Hne). unfold list_move. rewrite E1. cbn [mbind outcome_bind]. apply (alter_rep_add m1 (without e A)); [done..|by apply without_head].
  - destruct Hpre as (_ & Hh & Hne). unfold list_move_tail. rewrite E1. cbn [mbind outcome_bind]. apply (alter_rep_add m1 (without e A)); [done..|by apply without_head].
Qed.

Lemma map_replace o n (l : list Z) : o ∉ l -> map (fun x => if x =? o then n else x) l = l.
Proof.
  induction l as [|x l IH]; intros H; [done|]. apply not_elem_of_cons in H as [Hx H]. cbn. rewrite IH by done. by rewrite (proj2 (Z.eqb_neq x o)) by congruence.
Qed.

Lemma outside_replace m A o n : rep m A -> outside A n -> n <> o -> outside (replace_in o n A) o.
Proof.
  intros [Hr Hd] Hn Hne h L. unfold replace_in. destruct (A !! o) as [K|] eqn:E.
  - rewrite lookup_insert_Some, lookup_delete_Some. intros [[<- <-]|(Hh & Ho & HL)] Hin.
    + apply elem_of_cons in Hin as [?|Hin]; [done|]. apply Hr, ring_nodup, NoDup_cons in E as [E _]. done.
    + apply Ho. eapply (Hd o K h L); [done|done|left|done].
  - rewrite lookup_fmap_Some. intros (K & <- & HK) Hin. apply elem_of_cons in Hin as [<-|Hin]; [congruence|].
    apply list_elem_of_In, in_map_iff in Hin as (x & Ex & _). destruct (Z.eqb_spec x o); congruence.
Qed.

Lemma replace_rep m A o n :
  rep m A -> outside A n -> n ∈ dom m -> linked A o \/ is_Some (A !! o) -> n <> o ->
  exists m', list_replace o n m = Ok m' /\ rep m' (replace_in o n A) /\ dom m' = dom m.
Proof.
  intros HA Hn Hd Ho Hne. pose proof HA as [Hr Hdis]. apply elem_of_dom in Hd. unfold replace_in. destruct (A !! o) as [L|] eqn:E.
  - destruct (replace_mem m o n L) as (m' & -> & Hring & Hs); [by apply Hr|by apply Hn|done|]. exists m'. split; [done|]. split; [|by eapply same_dom].
    eapply (rep_new m _ _ _ _ (n :: o :: L)); [by apply rep_delete| |set_solver|done|done].
    intros x Hx h K Hh Hin. apply lookup_delete_Some in Hh as [Hho Hh]. apply elem_of_cons in Hx as [->|Hx]; [by apply (Hn h K)|].
    apply Hho. by eapply (Hdis o L h K).
  - destruct Ho as [[(h & L & Hh & Ho)|Ho]|[? Ho]]; [|congruence..]. apply list_elem_of_split in Ho as (L1 & L2 & ->).
    pose proof (Hr _ _ Hh) as Hring. pose proof (Hn _ _ Hh) as HnL. apply (ring_rotate m (h :: L1) (o :: L2)) in Hring.
    destruct (replace_mem m o n (L2 ++ h :: L1)) as (m' & -> & Hring' & Hs); [done|set_solver|done|]. exists m'. split; [done|]. split; [|by eapply same_dom].
    replace (map _ <$> A) with (<[h := L1 ++ n :: L2]> A).
    + eapply (rep_put m); [done|done|by apply (ring_rotate m' (n :: L2) (h :: L1))| |eapply same_but_weaken; [done|set_solver]].
      intros x Hx. destruct (decide (x = n)) as [->|]; [by right|left; set_solver].
    + apply map_eq. intros k. rewrite lookup_fmap. pose proof (ring_nodup _ _ (Hr _ _ Hh)) as Hnd. apply NoDup_cons in Hnd as [_ Hnd]. apply NoDup_app in Hnd as (_ & Hd1 & Hd2).
      apply NoDup_cons in Hd2 as [Hd2 _]. destruct (decide (k = h)) as [->|Hk].
      * rewrite lookup_insert_eq, Hh. cbn. rewrite map_app. cbn. rewrite Z.eqb_refl, !map_replace; [done|done|]. intros Hin. apply (Hd1 o Hin). left.
      * rewrite lookup_insert_ne by done. destruct (A !! k) as [K|] eqn:EK; [|done]. cbn. rewrite map_replace; [done|]. intros Hin. apply Hk. eapply (Hdis k K h); [done|done|by right|set_solver].
Qed.

Lemma linked_delete (A : rings) n o : linked A o -> A !! n = None \/ A !! n = Some [] -> n <> o -> linked (delete n A) o.
Proof.
  intros [(h & L & Hh & Hin)|?] Hown Hne; [left|right; by rewrite lookup_delete_ne]. exists h, L. split; [|done]. rewrite lookup_delete_ne; [done|].
  intros ->. destruct Hown as [E|E]; rewrite Hh in E; [done|]. injection E as ->. by apply not_elem_of_nil in Hin.
Qed.

Lemma replace_steps m A op :
  rep m A -> list_pre (dom m) op A -> match op with LReplace _ _ | LReplaceInit _ _ => True | _ => False end -> step_ok m A op.
Proof.
  intros HA Hpre Hop. unfold step_ok. destruct op as [| | | |o n|o n| | | | | | |]; try done; cbn [list_pre list_exec list_spec] in *.
  all: destruct Hpre as ((Hn & Ho & Hown) & Hl & Hne); pose proof (rep_delete m A n HA) as HA'.
  all: assert (Hl' : linked (delete n A) o \/ is_Some (delete n A !! o)) by (destruct Hl; [left; by apply linked_delete|right; by apply delete_head]).
  all: assert (Hd : o ∈ dom m) by (destruct Hl as [?|[L HL]]; [by apply (linked_dom m A)|apply elem_of_dom; eapply ring_in; [by apply (proj1 HA)|left]]).
  all: destruct (replace_rep m (delete n A) o n HA' Ho Hn Hl' Hne) as (m1 & E1 & HA1 & Hd1).
  - eauto.
  - unfold list_replace_init. rewrite E1. cbn [mbind outcome_bind]. rewrite <- Hd1 in Hd |- *. apply init_dom; [done| |done]. by apply (outside_replace m).
Qed.

(** The head [l] gives its nodes to the list of [h]. *)
Lemma spliced_rep m m' A l L h K K' :
  rep m A -> A !! l = Some L -> A !! h = Some K -> l <> h -> ring m' (h :: K') -> K' ≡ₚ K ++ L -> same_but (h :: K ++ L) m m' ->
  rep m' (<[h := K']> (delete l A)) /\ outside (<[h := K']> (delete l A)) l.
Proof.
  intros HA Hl Hh Hne Hr HK Hs. pose proof HA as [_ Hd]. split.
  - eapply (rep_put m); [by apply rep_delete|by rewrite lookup_delete_ne|done| |eapply same_but_weaken; [done|intros x; rewrite HK; set_solver]].
    intros x. rewrite HK, elem_of_app. intros [?|Hx]; [by left|right]. intros k J Hk Hin. apply lookup_delete_Some in Hk as [Hkl Hk].
    apply Hkl. eapply (Hd l L k J); [done|done|by right|done].
  - intros k J. rewrite lookup_insert_Some, lookup_delete_Some. intros [[<- <-]|(_ & Hkl & Hk)] Hin.
    + rewrite HK in Hin. apply elem_of_cons in Hin as [?|Hin]; [done|]. apply elem_of_app in Hin as [Hin|Hin].
      * apply Hne. eapply (Hd l L h K); [done|done|left|by right].
      * pose proof (proj1 HA l L Hl) as Hnd. apply ring_nodup, NoDup_cons in Hnd as [? _]. done.
    + apply Hkl. eapply (Hd l L k J); [done|done|left|done].
Qed.

Lemma splice_front m A l L h K :
  rep m A -> A !! l = Some L -> A !! h = Some K -> l <> h -> L <> [] ->
  exists m', (x ← list_at m h; __list_splice l h (next x) m) = Ok m' /\ rep m' (<[h := L ++ K]> (delete l A)) /\
    outside (<[h := L ++ K]> (delete l A)) l /\ dom m' = dom m.
Proof.
  intros HA Hl Hh Hne HL. pose proof (proj1 HA h K Hh) as Hr. destruct (ring_ends _ _ _ Hr) as [Enx Epv].
  rewrite (list_at_links _ _ _ _ Enx Epv). cbn [mbind outcome_bind next].
  destruct (splice_rep m A l L h K h K HA Hl Hh Hne HL Hr) as (m' & -> & Hr' & Hs); [done|]. exists m'. split; [done|].
  apply and_assoc. split; [|by eapply same_dom]. eapply spliced_rep; [done..|apply Permutation_app_comm|done].
Qed.

Lemma splice_back m A l L h K :
  rep m A -> A !! l = Some L -> A !! h = Some K -> l <> h -> L <> [] ->
  exists m', (x ← list_at m h; __list_splice l (prev x) h m) = Ok m' /\ rep m' (<[h := K ++ L]> (delete l A)) /\
    outside (<[h := K ++ L]> (delete l A)) l /\ dom m' = dom m.
Proof.
  intros HA Hl Hh Hne HL. pose proof (proj1 HA h K Hh) as Hr. destruct (ring_ends _ _ _ Hr) as [Enx Epv].
  rewrite (list_at_links _ _ _ _ Enx Epv). cbn [mbind outcome_bind prev].
  destruct (exists_last (l := h :: K)) as (C & p & EC); [done|]. assert (Ep : lst h K = p) by (pose proof (lst_last h K) as E; rewrite EC, last_snoc in E; by injection E).
  rewrite Ep. assert (Ehd : default p (head C) = h) by (destruct C; cbn in EC; by injection EC). rewrite EC in Hr. apply ring_rotate in Hr. cbn in Hr.
  destruct (splice_rep m A l L h K p C HA Hl Hh Hne HL Hr) as (m' & E & Hr' & Hs); [intros x; rewrite EC; set_solver|]. rewrite Ehd in E. exists m'. split; [done|].
  apply and_assoc. split; [|by eapply same_dom]. eapply spliced_rep; [done..| |reflexivity|done].
  change (h :: K ++ L) with ((h :: K) ++ L). rewrite EC, <- app_assoc. by apply (ring_rotate m' (p :: L) C).
Qed.

Lemma splice_steps m A op :
  rep m A -> list_pre (dom m) op A -> match op with LSplice _ _ | LSpliceInit _ _ | LSpliceTailInit _ _ => True | _ => False end -> step_ok m A op.
Proof.
  intros HA Hpre Hop. unfold step_ok. destruct op as [| | | | | | | | | |l h|l h|l h]; try done; cbn [list_pre list_exec list_spec] in *.
  all: destruct Hpre as ([L Hl] & [K Hh] & Hne); unfold list_splice, list_splice_init, list_splice_tail_init, splice_in;
    rewrite (empty_rep m A l L HA Hl), Hl; cbn [mbind outcome_bind].
  all: destruct L as [|x L]; [cbn; rewrite ?insert_id by done; by exists m|].
  all: assert (Hl' : l ∈ dom m) by (apply elem_of_dom; exact (ring_in _ _ _ (proj1 HA _ _ Hl) ltac:(left))).
  all: rewrite bool_decide_eq_false_2 by done; cbn [negb]; rewrite (alter_insert_lookup _ _ _ K) by (by rewrite lookup_delete_ne).
  - destruct (splice_front m A l (x :: L) h K) as (m1 & E1 & HA1 & _ & Hd1); [done..|]. eauto.
  - destruct (splice_front m A l (x :: L) h K) as (m1 & E1 & HA1 & Ho & Hd1); [done..|]. apply bind_Ok_inv in E1 as (y & -> & E1).
    cbn [mbind outcome_bind]. rewrite E1. cbn [mbind outcome_bind]. rewrite <- Hd1 in Hl' |- *. by apply init_dom.
  - destruct (splice_back m A l (x :: L) h K) as (m1 & E1 & HA1 & Ho & Hd1); [done..|]. apply bind_Ok_inv in E1 as (y & -> & E1).
    cbn [mbind outcome_bind]. rewrite E1. cbn [mbind outcome_bind]. rewrite <- Hd1 in Hl' |- *. by apply init_dom.
Qed.

Lemma list_step_ok m A op : rep m A -> list_pre (dom m) op A -> step_ok m A op.
Proof.
  intros HA Hpre. destruct op; first [by apply add_steps|by apply del_steps|by apply replace_steps|by apply splice_steps].
Qed.

(** ** Looking at a list *)

Lemma for_each_path m h L fuel :
  (forall x, x ∈ L -> x <> h) -> path m (L ++ [h]) -> (length L < fuel)%nat ->
  list_for_each fuel (default h (head L)) h m = Ok L.
Proof.
  revert fuel. induction L as [|x L IH]; intros fuel Hne Hp Hf; (destruct fuel; [cbn in Hf; lia|]); cbn [list_for_each head default].
  - unfold list_is_head. cbn. by rewrite Z.eqb_refl.
  - unfold list_is_head. cbn [id from_option]. rewrite (proj2 (Z.eqb_neq x h)) by (apply Hne; left).
    assert (Hl : link m x (default h (head L)) /\ path m (L ++ [h])) by (destruct L; [cbn in Hp; tauto|exact Hp]). destruct Hl as [[Hn _] Hp'].
    unfold nx in Hn. apply fmap_Some in Hn as (n & En & Hn). unfold list_at. rewrite En. cbn [mbind outcome_bind]. rewrite <- Hn.
    rewrite IH; [done|intros y Hy; apply Hne; by right|done|cbn in Hf; lia].
Qed.

Lemma for_each_back m h L fuel :
  (forall x, x ∈ L -> x <> h) -> path m (h :: L) -> (length L < fuel)%nat ->
  list_for_each_reverse fuel (lst h L) h m = Ok (rev L).
Proof.
  revert fuel. induction L as [|x L IH] using rev_ind; intros fuel Hne Hp Hf; (destruct fuel; [rewrite ?length_app in Hf; cbn in Hf; lia|]); cbn [list_for_each_reverse].
  - unfold list_is_head, lst. cbn. by rewrite Z.eqb_refl.
  - rewrite lst_app, rev_app_distr. unfold list_is_head. rewrite (proj2 (Z.eqb_neq x h)) by (apply Hne; set_solver).
    change (h :: L ++ [x]) with ((h :: L) ++ [x]) in Hp. apply path_app in Hp as (Hp & _ & Hl). destruct (Hl (lst h L) x (lst_last h L) eq_refl) as [_ Hv].
    unfold pv in Hv. apply fmap_Some in Hv as (n & En & Hv). unfold list_at. rewrite En. cbn [mbind outcome_bind]. rewrite <- Hv.
    rewrite IH; [done|intros y Hy; apply Hne; set_solver|done|]. rewrite length_app in Hf. cbn in Hf. lia.
Qed.

Lemma ring_path m h L : ring m (h :: L) -> path m (h :: L) /\ path m (L ++ [h]).
Proof.
  intros (_ & Hp & a & b & [= <-] & Hb & Hl). split; [done|]. apply path_app. split_and!; [destruct L; [done|apply Hp]|done|].
  intros c d Hc [= <-]. destruct L as [|x L]; [done|]. change (last (x :: L) = Some b) in Hb. congruence.
Qed.

(** What the queries tell of a list. *)
Definition list_shows (m : gmap Z list_head) (h : Z) (L : list Z) : Prop :=
  list_empty h m = Ok (bool_decide (L = [])) /\ list_empty_careful h m = Ok (bool_decide (L = [])) /\
  list_is_singular h m = Ok (bool_decide (length L = 1%nat)) /\
  exists n, list_at m h = Ok n /\ list_for_each (S (size m)) (next n) h m = Ok L /\ list_for_each_reverse (S (size m)) (prev n) h m = Ok (rev L).

Lemma rep_shows m A h L : rep m A -> A !! h = Some L -> list_shows m h L.
Proof.
  intros HA Hh. pose proof (proj1 HA h L Hh) as Hr. pose proof (empty_rep m A h L HA Hh) as He. destruct (ring_ends _ _ _ Hr) as [Enx Epv].
  destruct (ring_path _ _ _ Hr) as [Hp1 Hp2]. pose proof (ring_nodup _ _ Hr) as Hnd. apply NoDup_cons in Hnd as [Hh' Hnd].
  assert (Hne : forall x, x ∈ L -> x <> h) by (by intros x Hx ->). pose proof (list_at_links _ _ _ _ Enx Epv) as Eat.
  assert (Hlen : (length L < S (size m))%nat).
  { rewrite <- size_dom, <- (size_list_to_set (C := gset Z) L Hnd). apply le_n_S, subseteq_size. intros x Hx%elem_of_list_to_set. apply elem_of_dom. eapply ring_in; [done|by right]. }
  split_and!; [done| | |eexists; split_and!; [done|by apply for_each_path|by apply for_each_back]].
  - unfold list_empty_careful, list_is_head. rewrite Eat. cbn [mbind outcome_bind next prev]. f_equal. destruct L as [|x L]; cbn.
    + by rewrite !Z.eqb_refl.
    + apply andb_false_intro1, Z.eqb_neq, Hne. left.
  - unfold list_is_singular. rewrite He, Eat. cbn [mbind outcome_bind next prev]. f_equal. destruct L as [|x L]; [done|]. unfold lst. rewrite lst_last.
    rewrite bool_decide_eq_false_2 by done. cbn [negb andb head default id from_option]. apply NoDup_cons in Hnd as [Hx Hnd]. destruct L as [|y L]; [cbn; by rewrite Z.eqb_refl|].
    rewrite bool_decide_eq_false_2 by done. unfold lst. rewrite lst_last. cbn. apply Z.eqb_neq. intros E. apply Hx. rewrite E. apply lst_in.
Qed.

(** C20. Lists in memory behave as lists. From a memory that holds some lists, any
    sequence of operations whose arguments are lists and nodes as the code
    expects them returns; the memory then holds the lists that the operations
    mean, on the same nodes; and for each of them [list_empty],
    [list_is_singular] and the walks in both directions tell what it is. *)
Theorem list_refines (m : gmap Z list_head) (A : gmap Z (list Z)) (ops : list list_op) (Hrep : rep m A) (Hpre : list_pres (dom m) ops A) :
  exists m', list_run ops m = Ok m' /\ rep m' (list_specs ops A) /\ dom m' = dom m /\
    forall h L, list_specs ops A !! h = Some L -> list_shows m' h L.
Proof.
  revert m A Hrep Hpre. induction ops as [|op ops IH]; intros m A Hrep Hpre; cbn [list_run].
  - exists m. split_and!; [done..|]. intros h L. by apply rep_shows.
  - destruct Hpre as [Hpre Hpres]. destruct (list_step_ok m A op Hrep Hpre) as (m1 & -> & HA1 & Hd1). cbn [mbind outcome_bind].
    rewrite <- Hd1 in *. exact (IH m1 _ HA1 Hpres).
Qed.

(** Three nodes are queued, the first one is moved to the end, and the list is
    handed over to another head. *)
Definition sample_ops : list list_op := [LInit 16; LInit 32; LAddTail 48 16; LAddTail 64 16; LAdd 80 16; LMoveTail 80 16; LDel 64; LSpliceInit 16 32].

Definition sample_mem : gmap Z list_head := list_to_map ((fun a => (a, ListHead 0 0)) <$> [16; 32; 48; 64; 80]).

#[export] Instance outside_dec (A : gmap Z (list Z)) (x : Z) : Decision (outside A x).
Proof. change (Decision (map_Forall (fun h (L : list Z) => x ∉ h :: L) A)). apply _. Defined.

Lemma member_list (A : gmap Z (list Z)) e : (exists h L, A !! h = Some L /\ e ∈ L) <-> Exists (fun p => e ∈ p.2) (map_to_list A).
Proof.
  rewrite Exists_exists. split.
  - intros (h & L & Hh & He). exists (h, L). split; [by apply elem_of_map_to_list|done].
  - intros ([h L] & Hh & He). exists h, L. split; [by apply elem_of_map_to_list|done].
Qed.

#[export] Instance linked_dec (A : gmap Z (list Z)) (e : Z) : Decision (linked A e).
Proof.
  refine (cast_if (decide (Exists (fun p => e ∈ p.2) (map_to_list A) \/ A !! e = Some []))); unfold linked; by rewrite member_list.
Defined.

#[export] Instance list_pre_dec (D : gset Z) (op : list_op) (A : gmap Z (list Z)) : Decision (list_pre D op A).
Proof. destruct op; unfold list_pre, spare; apply _. Defined.

#[export] Instance list_pres_dec (D : gset Z) (ops : list list_op) (A : gmap Z (list Z)) : Decision (list_pres D ops A).
Proof. revert A. induction ops; intros A; cbn [list_pres]; apply _. Defined.

Lemma list_refines_witness :
  exists m', list_run sample_ops sample_mem = Ok m' /\ list_shows m' 32 [48; 80] /\ list_shows m' 16 [].
Proof.
  destruct (list_refines sample_mem ∅ sample_ops) as (m' & Hrun & _ & _ & Hshow).
  - split; [intros h L Hh|intros h1 L1 h2 L2 x Hh]; by rewrite lookup_empty in Hh.
  - by apply (bool_decide_unpack (list_pres (dom sample_mem) sample_ops ∅)); vm_compute.
  - exists m'. split; [done|]. split; apply Hshow; by vm_compute.
Defined.
