(* ===== verification/RbTree.v ===== *)
(** * lib/rbtree.c: red-black trees

    The nodes of a tree are structures in memory that the tree links together;
    [nodes] maps the address of a node to its three words. The parent and the
    colour of a node share a word: addresses are multiples of four, and the
    lowest bit is the colour. Reading or writing at an address that is not
    that of a node, 0 ([NULL]) above all, is a fault.

    The callbacks of an augmented tree keep further data about the nodes, which
    is the field [extra]: a callback may look at the tree and changes [extra]
    alone.

    Where the source has a branch for the left and one for the right, with
    every [rb_left] and [rb_right] exchanged, there is one definition, with
    the side as an argument. *)

From stdpp Require Import gmap.
From Stdlib Require Import ZifyBool.
From S2P Require Import Prelude.

Local Open Scope Z_scope.

Record rb_node := RbNode { __rb_parent_color : Z; rb_right : Z; rb_left : Z }.

Inductive side := Left | Right.

Definition opposite (s : side) : side := match s with Left => Right | Right => Left end.

Definition child (s : side) (n : rb_node) : Z := match s with Left => rb_left n | Right => rb_right n end.

Definition with_child (s : side) (v : Z) (n : rb_node) : rb_node :=
  match s with
  | Left => RbNode (__rb_parent_color n) (rb_right n) v
  | Right => RbNode (__rb_parent_color n) v (rb_left n)
  end.

Definition RB_RED : Z := 0.
Definition RB_BLACK : Z := 1.

Definition __rb_parent (pc : Z) : Z := Z.land pc (U32_MAX - 3).
Definition __rb_color (pc : Z) : Z := Z.land pc 1.
Definition __rb_is_black (pc : Z) : bool := negb (__rb_color pc =? 0).
Definition __rb_is_red (pc : Z) : bool := __rb_color pc =? 0.

Definition rb_parent (n : rb_node) : Z := __rb_parent (__rb_parent_color n).
Definition rb_color (n : rb_node) : Z := __rb_color (__rb_parent_color n).
Definition rb_is_red (n : rb_node) : bool := __rb_is_red (__rb_parent_color n).
Definition rb_is_black (n : rb_node) : bool := __rb_is_black (__rb_parent_color n).
Definition rb_red_parent (red : rb_node) : Z := __rb_parent_color red.

Section code.
Context {X : Type}.

(** A tree: the nodes, [root->rb_node], and the data of the callbacks. *)
Record rbtree := RbRoot { nodes : gmap Z rb_node; root_node : Z; extra : X }.

Definition node_at (st : rbtree) (a : Z) : outcome rb_node :=
  match nodes st !! a with
  | Some n => Ok n
  | None => Bug
  end.

Definition put_node (a : Z) (n : rb_node) (st : rbtree) : rbtree := RbRoot (<[a := n]> (nodes st)) (root_node st) (extra st).

Definition set_root (v : Z) (st : rbtree) : rbtree := RbRoot (nodes st) v (extra st).

Definition set_extra (x : X) (st : rbtree) : rbtree := RbRoot (nodes st) (root_node st) x.

Definition set_child (s : side) (a v : Z) (st : rbtree) : outcome rbtree :=
  n ← node_at st a;
  Ok (put_node a (with_child s v n) st).

Definition set_parent_color_word (a pc : Z) (st : rbtree) : outcome rbtree :=
  n ← node_at st a;
  Ok (put_node a (RbNode pc (rb_right n) (rb_left n)) st).

Definition rb_set_parent_color (a p color : Z) (st : rbtree) : outcome rbtree := set_parent_color_word a (Z.lor p color) st.

Definition rb_set_parent (a p : Z) (st : rbtree) : outcome rbtree :=
  n ← node_at st a;
  set_parent_color_word a (Z.lor (rb_color n) p) st.

Definition rb_set_black (a : Z) (st : rbtree) : outcome rbtree :=
  n ← node_at st a;
  set_parent_color_word a (Z.lor (__rb_parent_color n) RB_BLACK) st.

(** [if (a) f(a)] *)
Definition if_node (a : Z) (f : rbtree -> outcome rbtree) (st : rbtree) : outcome rbtree := if a =? 0 then Ok st else f st.

(** [a && rb_is_red(a)], and [!a || rb_is_black(a)] is its negation. *)
Definition is_red_node (a : Z) (st : rbtree) : outcome bool :=
  if a =? 0 then Ok false else n ← node_at st a; Ok (rb_is_red n).

Definition __rb_change_child (old new parent : Z) (st : rbtree) : outcome rbtree :=
  if negb (parent =? 0) then
    p ← node_at st parent;
    if rb_left p =? old then set_child Left parent new st else set_child Right parent new st
  else Ok (set_root new st).

Definition __rb_rotate_set_parents (old new color : Z) (st : rbtree) : outcome rbtree :=
  o ← node_at st old;
  let parent := rb_parent o in
  st ← set_parent_color_word new (__rb_parent_color o) st;
  st ← rb_set_parent_color old new color st;
  __rb_change_child old new parent st.

Section augmented.
Context (augment_rotate augment_copy augment_propagate : Z -> Z -> rbtree -> X).

Definition rotate (old new : Z) (st : rbtree) : rbtree := set_extra (augment_rotate old new st) st.
Definition copy (old new : Z) (st : rbtree) : rbtree := set_extra (augment_copy old new st) st.
Definition propagate (node stop : Z) (st : rbtree) : rbtree := set_extra (augment_propagate node stop st) st.

(** ** Insertion *)

(** [node] is turned to the side of [parent]; the new [parent] and its inner
    child. *)
Definition insert_inner (s : side) (node parent tmp : Z) (st : rbtree) : outcome (Z * Z * rbtree) :=
  if node =? tmp then
    n ← node_at st node;
    let tmp := child s n in
    st ← set_child (opposite s) parent tmp st;
    st ← set_child s node parent st;
    st ← if_node tmp (rb_set_parent_color tmp parent RB_BLACK) st;
    st ← rb_set_parent_color parent node RB_RED st;
    let st := rotate parent node st in
    n ← node_at st node;
    Ok (node, child (opposite s) n, st)
  else Ok (parent, tmp, st).

(** The body of the loop when [parent] is the child of [gparent] on side [s]:
    the next [node] and [parent], if the loop goes on. *)
Definition insert_side (s : side) (node parent gparent : Z) (st : rbtree) : outcome (option (Z * Z) * rbtree) :=
  g ← node_at st gparent;
  let tmp := child (opposite s) g in
  red ← is_red_node tmp st;
  if red : bool then
    st ← rb_set_parent_color tmp gparent RB_BLACK st;
    st ← rb_set_parent_color parent gparent RB_BLACK st;
    let node := gparent in
    n ← node_at st node;
    let parent := rb_parent n in
    st ← rb_set_parent_color node parent RB_RED st;
    Ok (Some (node, parent), st)
  else
    p ← node_at st parent;
    '(parent, tmp, st) ← insert_inner s node parent (child (opposite s) p) st;
    st ← set_child s gparent tmp st;
    st ← set_child (opposite s) parent gparent st;
    st ← if_node tmp (rb_set_parent_color tmp gparent RB_BLACK) st;
    st ← __rb_rotate_set_parents gparent parent RB_RED st;
    Ok (None, rotate gparent parent st).

Fixpoint insert_loop (fuel : nat) (node parent : Z) (st : rbtree) : outcome rbtree :=
  match fuel with
  | O => NoFuel
  | S fuel =>
      if parent =? 0 then rb_set_parent_color node 0 RB_BLACK st
      else
        p ← node_at st parent;
        if rb_is_black p then Ok st
        else
          let gparent := rb_red_parent p in
          g ← node_at st gparent;
          '(next, st) ← insert_side (if negb (parent =? rb_right g) then Left else Right) node parent gparent st;
          match next with
          | Some (node, parent) => insert_loop fuel node parent st
          | None => Ok st
          end
  end.

(** Each turn goes two levels up. *)
Definition __rb_insert (node : Z) (st : rbtree) : outcome rbtree :=
  n ← node_at st node;
  insert_loop (S (size (nodes st))) node (rb_red_parent n) st.

(** ** Removal *)

(** A red sibling is turned up; the new sibling. *)
Definition erase_red_sibling (s : side) (parent sibling : Z) (st : rbtree) : outcome (Z * rbtree) :=
  n ← node_at st sibling;
  if rb_is_red n then
    let tmp1 := child s n in
    st ← set_child (opposite s) parent tmp1 st;
    st ← set_child s sibling parent st;
    st ← rb_set_parent_color tmp1 parent RB_BLACK st;
    st ← __rb_rotate_set_parents parent sibling RB_RED st;
    Ok (tmp1, rotate parent sibling st)
  else Ok (sibling, st).

(** The sibling has no red child: it becomes red; the next [node] and
    [parent], if the loop goes on. *)
Definition erase_recolor (parent sibling : Z) (st : rbtree) : outcome (option (Z * Z) * rbtree) :=
  st ← rb_set_parent_color sibling parent RB_RED st;
  p ← node_at st parent;
  if rb_is_red p then
    st ← rb_set_black parent st;
    Ok (None, st)
  else
    let node := parent in
    let parent := rb_parent p in
    if negb (parent =? 0) then Ok (Some (node, parent), st) else Ok (None, st).

(** The inner child [tmp2] of the sibling is turned up. *)
Definition erase_inner (s : side) (parent sibling tmp2 : Z) (st : rbtree) : outcome rbtree :=
  t ← node_at st tmp2;
  let tmp1 := child (opposite s) t in
  st ← set_child s sibling tmp1 st;
  st ← set_child (opposite s) tmp2 sibling st;
  st ← set_child (opposite s) parent tmp2 st;
  st ← if_node tmp1 (rb_set_parent_color tmp1 sibling RB_BLACK) st;
  Ok (rotate sibling tmp2 st).

(** The sibling is turned up over [parent]; [tmp1] is its outer child. *)
Definition erase_outer (s : side) (parent sibling tmp1 : Z) (st : rbtree) : outcome rbtree :=
  n ← node_at st sibling;
  let tmp2 := child s n in
  st ← set_child (opposite s) parent tmp2 st;
  st ← set_child s sibling parent st;
  st ← rb_set_parent_color tmp1 sibling RB_BLACK st;
  st ← if_node tmp2 (rb_set_parent tmp2 parent) st;
  st ← __rb_rotate_set_parents parent sibling RB_BLACK st;
  Ok (rotate parent sibling st).

(** The rest of the body of the loop, below a sibling that is black. *)
Definition erase_black_side (s : side) (parent sibling : Z) (st : rbtree) : outcome (option (Z * Z) * rbtree) :=
  n ← node_at st sibling;
  let tmp1 := child (opposite s) n in
  red1 ← is_red_node tmp1 st;
  if negb red1 then
    let tmp2 := child s n in
    red2 ← is_red_node tmp2 st;
    if negb red2 then erase_recolor parent sibling st
    else
      st ← erase_inner s parent sibling tmp2 st;
      st ← erase_outer s parent tmp2 sibling st;
      Ok (None, st)
  else
    st ← erase_outer s parent sibling tmp1 st;
    Ok (None, st).

(** The body of the loop when [node] is the child of [parent] on side [s]. *)
Definition erase_side (s : side) (parent : Z) (st : rbtree) : outcome (option (Z * Z) * rbtree) :=
  p ← node_at st parent;
  '(sibling, st) ← erase_red_sibling s parent (child (opposite s) p) st;
  erase_black_side s parent sibling st.

Fixpoint erase_loop (fuel : nat) (node parent : Z) (st : rbtree) : outcome rbtree :=
  match fuel with
  | O => NoFuel
  | S fuel =>
      p ← node_at st parent;
      '(next, st) ← erase_side (if negb (node =? rb_right p) then Left else Right) parent st;
      match next with
      | Some (node, parent) => erase_loop fuel node parent st
      | None => Ok st
      end
  end.

(** Each turn goes one level up. *)
Definition ____rb_erase_color (parent : Z) (st : rbtree) : outcome rbtree :=
  erase_loop (S (size (nodes st))) 0 parent st.

Definition __rb_erase_color (parent : Z) (st : rbtree) : outcome rbtree := ____rb_erase_color parent st.

(** The leftmost node below [successor], and its parent. *)
Fixpoint leftmost_below (fuel : nat) (parent successor tmp : Z) (st : rbtree) : outcome (Z * Z) :=
  match fuel with
  | O => NoFuel
  | S fuel =>
      let parent := successor in
      let successor := tmp in
      n ← node_at st tmp;
      let tmp := rb_left n in
      if negb (tmp =? 0) then leftmost_below fuel parent successor tmp st else Ok (parent, successor)
  end.

(** The successor is taken out of its place: [parent], [successor] and
    [child2]. *)
Definition take_successor (node child : Z) (st : rbtree) : outcome (Z * Z * Z * rbtree) :=
  c ← node_at st child;
  let tmp := rb_left c in
  if tmp =? 0 then Ok (child, child, rb_right c, copy node child st)
  else
    '(parent, successor) ← leftmost_below (S (size (nodes st))) child child tmp st;
    s ← node_at st successor;
    let child2 := rb_right s in
    st ← set_child Left parent child2 st;
    st ← set_child Right successor child st;
    st ← rb_set_parent child successor st;
    let st := copy node successor st in
    Ok (parent, successor, child2, propagate parent successor st).

(** The node from which the colours have to be mended, or 0. *)
Definition __rb_erase_augmented (node : Z) (st : rbtree) : outcome (Z * rbtree) :=
  n ← node_at st node;
  let child := rb_right n in
  let tmp := rb_left n in
  '(rebalance, tmp, st) ←
    (if tmp =? 0 then
       let pc := __rb_parent_color n in
       let parent := __rb_parent pc in
       st ← __rb_change_child node child parent st;
       if negb (child =? 0) then
         st ← set_parent_color_word child pc st;
         Ok (0, parent, st)
       else Ok (if __rb_is_black pc then parent else 0, parent, st)
     else if child =? 0 then
       let pc := __rb_parent_color n in
       st ← set_parent_color_word tmp pc st;
       let parent := __rb_parent pc in
       st ← __rb_change_child node tmp parent st;
       Ok (0, parent, st)
     else
       '(parent, successor, child2, st) ← take_successor node child st;
       n ← node_at st node;
       let tmp := rb_left n in
       st ← set_child Left successor tmp st;
       st ← rb_set_parent tmp successor st;
       n ← node_at st node;
       let pc := __rb_parent_color n in
       let tmp := __rb_parent pc in
       st ← __rb_change_child node successor tmp st;
       '(rebalance, st) ←
         (if negb (child2 =? 0) then
            st ← rb_set_parent_color child2 parent RB_BLACK st;
            Ok (0, st)
          else
            s ← node_at st successor;
            Ok (if rb_is_black s then parent else 0, st));
       st ← set_parent_color_word successor pc st;
       Ok (rebalance, successor, st));
  Ok (rebalance, propagate tmp 0 st).

Definition rb_erase_augmented (node : Z) (st : rbtree) : outcome rbtree :=
  '(rebalance, st) ← __rb_erase_augmented node st;
  if negb (rebalance =? 0) then __rb_erase_color rebalance st else Ok st.

Definition __rb_insert_augmented (node : Z) (st : rbtree) : outcome rbtree := __rb_insert node st.

Definition rb_insert_augmented (node : Z) (st : rbtree) : outcome rbtree := __rb_insert_augmented node st.

End augmented.

(** ** Trees without further data *)

Definition dummy (old new : Z) (st : rbtree) : X := extra st.

Definition rb_insert_color (node : Z) (st : rbtree) : outcome rbtree := __rb_insert dummy node st.

Definition rb_erase (node : Z) (st : rbtree) : outcome rbtree :=
  '(rebalance, st) ← __rb_erase_augmented dummy dummy node st;
  if negb (rebalance =? 0) then ____rb_erase_color dummy rebalance st else Ok st.

(** ** Walking *)

Definition RB_EMPTY_NODE (a : Z) (n : rb_node) : bool := __rb_parent_color n =? a.

Fixpoint leftmost_from (fuel : nat) (node : Z) (st : rbtree) : outcome Z :=
  match fuel with
  | O => NoFuel
  | S fuel =>
      n ← node_at st node;
      if negb (rb_left n =? 0) then leftmost_from fuel (rb_left n) st else Ok node
  end.

(** The first ancestor that is reached from its left. *)
Fixpoint ancestor_from (fuel : nat) (node : Z) (st : rbtree) : outcome Z :=
  match fuel with
  | O => NoFuel
  | S fuel =>
      n ← node_at st node;
      let parent := rb_parent n in
      if parent =? 0 then Ok 0
      else
        p ← node_at st parent;
        if node =? rb_right p then ancestor_from fuel parent st else Ok parent
  end.

Definition rb_next (node : Z) (st : rbtree) : outcome Z :=
  n ← node_at st node;
  if RB_EMPTY_NODE node n then Ok 0
  else if negb (rb_right n =? 0) then leftmost_from (S (size (nodes st))) (rb_right n) st
  else ancestor_from (S (size (nodes st))) node st.

End code.

Arguments rbtree : clear implicits.
