(* ===== verification/RbTreeShape.v ===== *)
(** * Red-black trees as data

    The tree that linked nodes form, a tree with a hole, what it means that
    the nodes in memory form such a tree, and the red-black invariant. The
    nodes in order are the abstract view of a tree. *)

From stdpp Require Import gmap.
From Stdlib Require Import ZifyBool.
From S2P Require Import Prelude RbTree.

Local Open Scope Z_scope.

Inductive color := Red | Black.

Definition color_bit (c : color) : Z := match c with Red => RB_RED | Black => RB_BLACK end.

(** ** Trees and trees with a hole *)

(** A node is known by its address. *)
Inductive tree :=
  | E
  | T (c : color) (l : tree) (a : Z) (r : tree).

Definition root (t : tree) : Z := match t with E => 0 | T _ _ a _ => a end.

Fixpoint inorder (t : tree) : list Z :=
  match t with
  | E => []
  | T _ l a r => inorder l ++ a :: inorder r
  end.

(** One step down: the side that was taken, the node, and the other subtree. *)
Record frame := Frame { f_side : side; f_color : color; f_addr : Z; f_other : tree }.

Definition join (f : frame) (t : tree) : tree :=
  match f_side f with
  | Left => T (f_color f) t (f_addr f) (f_other f)
  | Right => T (f_color f) (f_other f) (f_addr f) t
  end.

(** The steps from the hole up to the root. *)
Fixpoint plug (k : list frame) (t : tree) : tree :=
  match k with
  | [] => t
  | f :: k => plug k (join f t)
  end.

(** The parent of the hole. *)
Definition above (k : list frame) : Z := match k with [] => 0 | f :: _ => f_addr f end.

(** The nodes before and after the hole, in order. *)
Fixpoint before (k : list frame) : list Z :=
  match k with
  | [] => []
  | f :: k => before k ++ match f_side f with Left => [] | Right => inorder (f_other f) ++ [f_addr f] end
  end.

Fixpoint after (k : list frame) : list Z :=
  match k with
  | [] => []
  | f :: k => match f_side f with Left => f_addr f :: inorder (f_other f) | Right => [] end ++ after k
  end.

Lemma inorder_plug k t : inorder (plug k t) = before k ++ inorder t ++ after k.
Proof.
  revert t. induction k as [|[s c a y] k IH]; intros t; cbn; [by rewrite app_nil_r|]. rewrite IH. unfold join.
  destruct s; cbn; rewrite ?app_nil_r, <- ?app_assoc; done.
Qed.

(** The nodes of a tree with a hole. *)
Definition outside (k : list frame) : list Z := before k ++ after k.

Lemma outside_cons s c a y k : outside (Frame s c a y :: k) ≡ₚ a :: inorder y ++ outside k.
Proof. unfold outside. destruct s; cbn; rewrite ?app_nil_r; solve_Permutation. Qed.

Lemma plug_perm k t : inorder (plug k t) ≡ₚ inorder t ++ outside k.
Proof. rewrite inorder_plug. unfold outside. solve_Permutation. Qed.

(** ** Trees in memory *)

Definition addr_ok (a : Z) : Prop := 0 < a < 2 ^ 32 /\ a mod 4 = 0.

(** The word that holds the parent [p] and the colour [c]. *)
Definition word (p : Z) (c : color) : Z := Z.lor p (color_bit c).

(** The nodes at [h] form the tree [t] below [p]. *)
Fixpoint repr (h : gmap Z rb_node) (p : Z) (t : tree) : Prop :=
  match t with
  | E => True
  | T c l a r => h !! a = Some (RbNode (word p c) (root r) (root l)) /\ addr_ok a /\ repr h a l /\ repr h a r
  end.

Definition frame_node (f : frame) (p x : Z) : rb_node :=
  match f_side f with
  | Left => RbNode (word p (f_color f)) (root (f_other f)) x
  | Right => RbNode (word p (f_color f)) x (root (f_other f))
  end.

(** The nodes around a hole that holds the address [x]; [rt] is the root. *)
Fixpoint around (h : gmap Z rb_node) (rt : Z) (k : list frame) (x : Z) : Prop :=
  match k with
  | [] => rt = x
  | f :: k => h !! f_addr f = Some (frame_node f (above k) x) /\ addr_ok (f_addr f) /\ repr h (f_addr f) (f_other f) /\
              around h rt k (f_addr f)
  end.

(** The tree [t] in the hole of [k], no node twice. *)
Record holds {X} (st : rbtree X) (k : list frame) (t : tree) : Prop := {
  ho_around : around (nodes st) (root_node st) k (root t);
  ho_tree : repr (nodes st) (above k) t;
  ho_nodup : NoDup (inorder t ++ outside k)
}.

(** Moving the hole down and up. *)
Lemma holds_join {X} (st : rbtree X) f k t : holds st (f :: k) t <-> holds st k (join f t).
Proof.
  assert (Hp : inorder t ++ outside (f :: k) ≡ₚ inorder (join f t) ++ outside k).
  { destruct f as [s c a y]. rewrite outside_cons. unfold join. destruct s; cbn; solve_Permutation. }
  split; intros [Ha Ht Hn]; destruct f as [s c a y]; unfold join, frame_node in *; cbn in *.
  - destruct Ha as (Hl & Hok & Hy & Ha). split; [by destruct s| |by rewrite <- Hp]. destruct s; cbn; by split_and!.
  - split; [|by destruct s; cbn in *; destruct_and!|by rewrite Hp]. destruct s; cbn in *; destruct_and!; by split_and!.
Qed.

Lemma holds_plug {X} (st : rbtree X) k t : holds st k t <-> holds st [] (plug k t).
Proof. revert t. induction k as [|f k IH]; intros t; [done|]. rewrite holds_join. apply IH. Qed.

(** A part of the way down, below the node [p]; the hole holds the address
    [x]. *)
Definition above_or (p : Z) (k : list frame) : Z := match k with [] => p | f :: _ => f_addr f end.

Fixpoint top (k : list frame) (x : Z) : Z := match k with [] => x | f :: k => top k (f_addr f) end.

Fixpoint seg (h : gmap Z rb_node) (p : Z) (k : list frame) (x : Z) : Prop :=
  match k with
  | [] => True
  | f :: k => h !! f_addr f = Some (frame_node f (above_or p k) x) /\ addr_ok (f_addr f) /\ repr h (f_addr f) (f_other f) /\
              seg h p k (f_addr f)
  end.

Lemma root_plug k t : root (plug k t) = top k (root t).
Proof. revert t. induction k as [|[[] c a y] k IH]; intros t; [done|apply IH..]. Qed.

Lemma repr_plug h p k t : repr h p (plug k t) <-> seg h p k (root t) /\ repr h (above_or p k) t.
Proof.
  revert t. induction k as [|[s c a y] k IH]; intros t; cbn [plug seg]; [by cbn; naive_solver|]. rewrite IH. unfold frame_node, join.
  destruct s; cbn; naive_solver.
Qed.

Lemma top_ok h p k x : seg h p k x -> addr_ok x -> addr_ok (top k x).
Proof. revert x. induction k as [|f k IH]; intros x; [done|]. intros (_ & Hf & _ & Hk) _. by apply IH. Qed.

Lemma holds_app {X} (st : rbtree X) k1 k2 t : holds st (k1 ++ k2) t <-> holds st k2 (plug k1 t).
Proof. revert t. induction k1 as [|f k1 IH]; intros t; [done|]. cbn [app plug]. by rewrite holds_join, IH. Qed.

(** Every node of the tree is in memory, so that the way up is not longer than
    there are nodes. *)
Lemma repr_mapped h p t a : repr h p t -> a ∈ inorder t -> is_Some (h !! a) /\ addr_ok a.
Proof.
  revert p. induction t as [|c l IHl b r IHr]; intros p; cbn; [by intros _ ?%not_elem_of_nil|].
  intros (Hb & Hok & Hl & Hr) [Ha|[->|Ha]%elem_of_cons]%elem_of_app; [by eapply IHl|split; eauto|by eapply IHr].
Qed.

Lemma length_outside k : (length k <= length (outside k))%nat.
Proof. induction k as [|[s c a y] k IH]; [done|]. rewrite outside_cons. cbn. rewrite length_app. lia. Qed.

Lemma holds_length {X} (st : rbtree X) k t : holds st k t -> (length (inorder t) + length k <= size (nodes st))%nat.
Proof.
  intros H. pose proof (proj1 (holds_plug st k t) H) as [_ Ht Hnd]. unfold outside in Hnd. cbn in Hnd. rewrite !app_nil_r in Hnd.
  assert (Hsub : list_to_set (inorder (plug k t)) ⊆ dom (nodes st)).
  { intros a Ha. apply elem_of_list_to_set in Ha. apply elem_of_dom. by eapply repr_mapped. }
  apply subseteq_size in Hsub. rewrite size_list_to_set, size_dom, plug_perm, length_app in Hsub by done. pose proof (length_outside k). lia.
Qed.

(** ** The shared word *)

Lemma word_parent p c : p = 0 \/ addr_ok p -> __rb_parent (word p c) = p.
Proof.
  intros Hp. unfold __rb_parent, word. rewrite Z.land_lor_distr_l.
  assert (Z.land (color_bit c) (U32_MAX - 3) = 0) as -> by (by destruct c). rewrite Z.lor_0_r.
  destruct Hp as [->|[Hr Hm]]; [done|]. pose proof (round_down_spec p 4 2) as E. unfold round_down in E.
  change (u32 (4 - 1)) with 3 in E. rewrite E; [lia|by split|lia].
Qed.

Lemma word_color p c : p = 0 \/ addr_ok p -> __rb_color (word p c) = color_bit c.
Proof.
  intros Hp. unfold __rb_color, word. rewrite Z.land_lor_distr_l.
  assert (Z.land p 1 = 0) as ->.
  { change 1 with (Z.ones 1). rewrite Z.land_ones by lia. destruct Hp as [->|[_ Hm]]; [done|].
    change (2 ^ 1) with 2. Z.to_euclidean_division_equations. lia. }
  by destruct c.
Qed.

Lemma word_red p : word p Red = p.
Proof. apply Z.lor_0_r. Qed.

Lemma word_recolor p c : Z.lor (word p c) RB_BLACK = word p Black.
Proof. unfold word. rewrite <- Z.lor_assoc. by destruct c. Qed.

(** ** Writing outside a tree *)

Lemma repr_put h p t a n : a ∉ inorder t -> repr (<[a := n]> h) p t <-> repr h p t.
Proof.
  revert p. induction t as [|c l IHl b r IHr]; intros p Ha; [done|]. cbn in *.
  rewrite elem_of_app, elem_of_cons in Ha. rewrite lookup_insert_ne, IHl, IHr by (intros; subst; tauto). done.
Qed.

Lemma around_put h rt k x a n : a ∉ outside k -> around (<[a := n]> h) rt k x <-> around h rt k x.
Proof.
  revert x. induction k as [|[s c b y] k IH]; intros x Ha; [done|]. rewrite outside_cons, elem_of_cons, elem_of_app in Ha.
  cbn [around f_addr f_other]. rewrite lookup_insert_ne, repr_put, IH by (intros; subst; tauto). done.
Qed.

Lemma seg_put h p k x a n : a ∉ outside k -> seg (<[a := n]> h) p k x <-> seg h p k x.
Proof.
  revert x. induction k as [|[s c b y] k IH]; intros x Ha; [done|]. rewrite outside_cons, elem_of_cons, elem_of_app in Ha.
  cbn [seg f_addr f_other]. rewrite lookup_insert_ne, repr_put, IH by (intros; subst; tauto). done.
Qed.

Lemma repr_addr h p t : repr h p t -> root t = 0 \/ addr_ok (root t).
Proof. destruct t; cbn; [by left|]. intros (_ & ? & _). by right. Qed.

Lemma above_addr h rt k x : around h rt k x -> above k = 0 \/ addr_ok (above k).
Proof. destruct k; cbn; [by left|]. intros (_ & ? & _). by right. Qed.

(** ** The red-black invariant *)

(** No red node has a red child, and every way down passes the same number of
    black nodes: the colour of the root and that number. *)
Inductive rbt : tree -> color -> nat -> Prop :=
  | rbt_E : rbt E Black 0
  | rbt_R l a r n : rbt l Black n -> rbt r Black n -> rbt (T Red l a r) Red n
  | rbt_B l a r cl cr n : rbt l cl n -> rbt r cr n -> rbt (T Black l a r) Black (S n).

(** A tree of colour [c] and black height [n] fits the hole. *)
Inductive fits : list frame -> color -> nat -> Prop :=
  | fits_nil n : fits [] Black n
  | fits_R s a y k n : rbt y Black n -> fits k Red n -> fits (Frame s Red a y :: k) Black n
  | fits_B s a y cy k c n : rbt y cy n -> fits k Black (S n) -> fits (Frame s Black a y :: k) c n.

Definition rb_ok (t : tree) : Prop := exists n, rbt t Black n.

Create HintDb rb discriminated.
#[export] Hint Constructors rbt fits : rb.

Lemma fits_plug k t c n : fits k c n -> rbt t c n -> rb_ok (plug k t).
Proof.
  intros Hk. revert t. induction Hk as [n|s a y k n Hy _ IH|s a y cy k c n Hy _ IH]; intros t Ht; cbn; [by exists n|..];
    apply IH; destruct s; unfold join; cbn; eauto with rb.
Qed.

(** A valid tree around a hole that holds a valid tree. *)
Lemma plug_fits k t m : rbt (plug k t) Black m -> exists c' n, rbt t c' n /\ fits k c' n.
Proof.
  revert t m. induction k as [|[s c a y] k IH]; intros t m Ht; [by exists Black, m; eauto with rb|].
  cbn in Ht. destruct (IH _ _ Ht) as (c' & n & Hj & Hk). unfold join in Hj. destruct s; cbn in Hj; inversion Hj; subst; eauto with rb.
Qed.

(** ** Running code *)

(** [m] returns, and the result satisfies [Q]. *)
Definition wp {A} (m : outcome A) (Q : A -> Prop) : Prop := match m with Ok x => Q x | _ => False end.

Lemma wp_bind {A B} (m : outcome A) (k : A -> outcome B) Q : wp m (fun x => wp (k x) Q) -> wp (x ← m; k x) Q.
Proof. by destruct m. Qed.

Lemma wp_Ok {A} (x : A) (Q : A -> Prop) : Q x -> wp (Ok x) Q.
Proof. done. Qed.

Lemma wp_mono {A} (m : outcome A) (P Q : A -> Prop) : wp m P -> (forall x, P x -> Q x) -> wp m Q.
Proof. destruct m; cbn; auto. Qed.

Lemma wp_exists {A} (m : outcome A) (Q : A -> Prop) : wp m Q -> exists x, m = Ok x /\ Q x.
Proof. destruct m; cbn; [eauto|done..]. Qed.

Section rules.
Context {X : Type}.
Implicit Types st : rbtree X.

(** Reading and writing where the nodes are known to be [h] and the root to
    be [rt]. *)
Lemma wp_node_at st h a n Q : nodes st = h -> h !! a = Some n -> Q n -> wp (node_at st a) Q.
Proof. intros <- Ha HQ. unfold node_at. by rewrite Ha. Qed.

Lemma wp_set_child st h rt s a v n Q :
  nodes st = h -> root_node st = rt -> h !! a = Some n ->
  (forall st', nodes st' = <[a := with_child s v n]> h -> root_node st' = rt -> Q st') -> wp (set_child s a v st) Q.
Proof. intros <- <- Ha HQ. unfold set_child, node_at. rewrite Ha. by apply HQ. Qed.

Lemma wp_set_word st h rt a pc n Q :
  nodes st = h -> root_node st = rt -> h !! a = Some n ->
  (forall st', nodes st' = <[a := RbNode pc (rb_right n) (rb_left n)]> h -> root_node st' = rt -> Q st') ->
  wp (set_parent_color_word a pc st) Q.
Proof. intros <- <- Ha HQ. unfold set_parent_color_word, node_at. rewrite Ha. by apply HQ. Qed.

Lemma wp_set_parent st h rt a p q c r l Q :
  nodes st = h -> root_node st = rt -> h !! a = Some (RbNode (word q c) r l) -> q = 0 \/ addr_ok q ->
  (forall st', nodes st' = <[a := RbNode (word p c) r l]> h -> root_node st' = rt -> Q st') -> wp (rb_set_parent a p st) Q.
Proof.
  intros Hh Hr Ha Hq HQ. unfold rb_set_parent. apply wp_bind. eapply wp_node_at; [done..|].
  unfold rb_color. cbn [__rb_parent_color]. rewrite word_color, Z.lor_comm by done. by eapply wp_set_word.
Qed.

(** The hole gets another address. *)
Definition relink (k : list frame) (new : Z) (h : gmap Z rb_node) : gmap Z rb_node :=
  match k with [] => h | f :: k => <[f_addr f := frame_node f (above k) new]> h end.

Lemma wp_relink st h rt k old new Q :
  nodes st = h -> root_node st = rt -> around h rt k old -> old ∉ outside k -> old <> 0 ->
  (forall st', nodes st' = relink k new h -> root_node st' = match k with [] => new | _ => rt end -> Q st') ->
  wp (__rb_change_child old new (above k) st) Q.
Proof.
  intros <- <- Hk Hold H0 HQ. unfold __rb_change_child. destruct k as [|[s c a y] k]; [by apply HQ|].
  cbn in Hk. destruct Hk as (Ha & Hok & Hy & Hk). cbn [above f_addr]. rewrite (proj2 (Z.eqb_neq a 0)) by (destruct Hok; lia). cbn [negb].
  apply wp_bind. eapply wp_node_at; [done..|]. rewrite outside_cons in Hold.
  assert (Hgo : forall s', s' = s -> wp (set_child s' a new st) Q).
  { intros s' ->. eapply wp_set_child; [done..|]. intros st' Hh' Hr'. apply HQ; [|done]. rewrite Hh'. by destruct s. }
  destruct s; cbn in *; [by rewrite Z.eqb_refl; apply Hgo|].
  destruct (Z.eqb_spec (root y) old) as [E|]; [|by apply Hgo]. exfalso. apply Hold. destruct y; cbn in *; [done|].
  subst old. set_solver.
Qed.

(** The last step of a turn: the hole gets a new subtree, whose nodes are in
    place already. *)
Lemma wp_change_child st h rt k old t Q :
  nodes st = h -> root_node st = rt -> around h rt k old -> old ∉ outside k -> old <> 0 ->
  repr h (above k) t -> NoDup (inorder t ++ outside k) ->
  (forall st', holds st' k t -> (forall a, a ∉ outside k -> nodes st' !! a = h !! a) -> Q st') ->
  wp (__rb_change_child old (root t) (above k) st) Q.
Proof.
  intros Hh Hr Hk Hold H0 Ht Hnd HQ. eapply wp_relink; [done..|]. intros st' Hh' Hr'. destruct k as [|[s c a y] k].
  { apply HQ; [|by rewrite Hh']. by split; rewrite ?Hh'. }
  cbn in Hk. destruct Hk as (Ha & Hok & Hy & Hk). cbn in Hh'. pose proof Hnd as Hnd'.
  rewrite outside_cons in Hnd'. rewrite <- Permutation_middle in Hnd'. apply NoDup_cons in Hnd' as [Hna Hnd']. rewrite !elem_of_app in Hna.
  apply HQ.
  - split; [| |done]; rewrite Hh'; cbn [around above f_addr f_other].
    + rewrite lookup_insert_eq, repr_put, around_put by tauto. rewrite Hr'. by split_and!.
    + by rewrite repr_put by tauto.
  - intros b Hb. rewrite outside_cons, elem_of_cons in Hb. rewrite Hh', lookup_insert_ne; [done|]. intros ->. tauto.
Qed.

End rules.

(** ** Automation for steps on a known part of the tree *)

Definition red_root (t : tree) : bool := match t with T Red _ _ _ => true | _ => false end.

Lemma addr_ok_nonzero a : addr_ok a -> a <> 0.
Proof. unfold addr_ok. lia. Qed.

Lemma wp_if_null {X} (f : rbtree X -> outcome (rbtree X)) st Q : Q st -> wp (if_node 0 f st) Q.
Proof. done. Qed.

Lemma wp_if_node {X} (f : rbtree X -> outcome (rbtree X)) a st Q : addr_ok a -> wp (f st) Q -> wp (if_node a f st) Q.
Proof. intros Ha. unfold if_node. by rewrite (proj2 (Z.eqb_neq a 0)) by (by apply addr_ok_nonzero). Qed.

Lemma rb_is_red_word p c r l : p = 0 \/ addr_ok p -> rb_is_red (RbNode (word p c) r l) = match c with Red => true | Black => false end.
Proof. intros Hp. unfold rb_is_red, __rb_is_red. cbn. rewrite word_color by done. by destruct c. Qed.

Lemma rb_is_black_word p c r l : p = 0 \/ addr_ok p -> rb_is_black (RbNode (word p c) r l) = match c with Red => false | Black => true end.
Proof. intros Hp. unfold rb_is_black, __rb_is_black. cbn. rewrite word_color by done. by destruct c. Qed.

Lemma rb_parent_word p c r l : p = 0 \/ addr_ok p -> rb_parent (RbNode (word p c) r l) = p.
Proof. apply word_parent. Qed.

Lemma wp_is_red {X} (st : rbtree X) h p t Q :
  nodes st = h -> repr h p t -> p = 0 \/ addr_ok p -> Q (red_root t) -> wp (is_red_node (root t) st) Q.
Proof.
  intros Hh Ht Hp HQ. destruct t as [|c l a r]; [done|]. destruct Ht as (Ha & Hok & _). unfold is_red_node. cbn [root].
  rewrite (proj2 (Z.eqb_neq a 0)) by (by apply addr_ok_nonzero). apply wp_bind. eapply wp_node_at; [done..|].
  rewrite rb_is_red_word by done. by destruct c.
Qed.

#[export] Hint Resolve or_introl or_intror : rb.

(** Pulls the addresses that are named out of a list without duplicates. *)
Ltac nodup_facts H :=
  cbn [inorder app] in H; repeat (first [rewrite plug_perm in H | rewrite outside_cons in H | rewrite <- app_assoc in H | progress cbn [inorder app] in H | rewrite <- Permutation_middle in H]);
  repeat (first [rewrite NoDup_cons in H | rewrite not_elem_of_cons in H | rewrite not_elem_of_app in H]); destruct_and? H.

(** Evaluates a lookup after some writes. *)
Ltac look := rewrite ?root_plug; cbn [root]; repeat (first [rewrite lookup_insert_eq | rewrite lookup_insert_ne by congruence]); first [eassumption | reflexivity].

Ltac node_simpl := cbn [with_child child opposite rb_right rb_left __rb_parent_color root].

(** The parent and the colour of a node that was read. *)
Ltac ok_addr := first [eapply above_addr; eassumption | right; assumption | left; reflexivity].
Ltac was_read := node_simpl; rewrite ?rb_parent_word, ?rb_is_red_word, ?rb_is_black_word, ?word_parent by ok_addr.

(** The state after a write. *)
Ltac wrote :=
  let H := fresh "Hnew" in intros ? H ?; cbn [with_child rb_right rb_left __rb_parent_color root] in H; node_simpl.

Ltac step :=
  match goal with
  | |- wp (mbind _ _) _ => apply wp_bind
  | |- wp (Ok _) _ => apply wp_Ok
  | |- wp (node_at _ _) _ => eapply wp_node_at; [eassumption|look|was_read]
  | |- wp (set_child _ _ _ _) _ => eapply wp_set_child; [eassumption|eassumption|look|wrote]
  | |- wp (set_parent_color_word _ _ _) _ => eapply wp_set_word; [eassumption|eassumption|look|wrote]
  | |- wp (rb_set_parent_color _ _ _ _) _ => unfold rb_set_parent_color
  | |- wp (rb_set_parent _ _ _) _ => eapply wp_set_parent; [eassumption|eassumption|look|ok_addr|wrote]
  | |- wp (if_node 0 _ _) _ => apply wp_if_null
  | |- wp (if_node _ _ _) _ => apply wp_if_node; [assumption|]
  | |- wp (is_red_node _ _) _ => eapply wp_is_red; [eassumption|eassumption|by auto with rb|]
  end.

Lemma root_other a t : addr_ok a -> a ∉ inorder t -> (a =? root t) = false.
Proof.
  intros Ha Hn. apply Z.eqb_neq. intros ->. destruct t; cbn in *; [by apply (addr_ok_nonzero 0)|]. apply Hn. set_solver.
Qed.

(** The state in which a run starts. *)
Ltac start st := pose proof (eq_refl (nodes st)); pose proof (eq_refl (root_node st)).

(** Nothing but the nodes in [L] changes. *)
Definition only {X} (L : list Z) (st st' : rbtree X) : Prop := forall b, b ∉ L -> nodes st' !! b = nodes st !! b.

Lemma only_refl {X} L (st : rbtree X) : only L st st.
Proof. done. Qed.

Lemma only_trans {X} L L' (st st1 st2 : rbtree X) : L ≡ₚ L' -> only L st st1 -> only L' st1 st2 -> only L st st2.
Proof. intros HL H1 H2 b Hb. rewrite H2 by (by rewrite <- HL). by apply H1. Qed.

(** The data of the callbacks does not matter. *)
Lemma holds_extra {X} (st : rbtree X) x k t : holds st k t -> holds (set_extra x st) k t.
Proof. by intros [? ? ?]. Qed.

Lemma only_extra {X} L (st st' : rbtree X) x : only L st st' -> only L st (set_extra x st').
Proof. done. Qed.

#[export] Hint Resolve holds_extra only_extra only_refl addr_ok_nonzero : rb.

(** A subtree and a node after writes elsewhere. *)
Ltac in_place :=
  repeat match goal with
  | |- _ /\ _ => split
  | |- repr _ _ (T _ _ _ _) => cbn [repr root]
  | |- repr _ _ (plug _ _) => rewrite repr_plug; cbn [repr root]
  | |- repr (<[_ := _]> _) _ _ => rewrite repr_put by assumption
  | |- around (<[_ := _]> _) _ _ _ => rewrite around_put by assumption
  | |- seg (<[_ := _]> _) _ _ _ => rewrite seg_put by assumption
  | |- _ !! _ = Some _ => look
  | |- True => exact I
  end; try first [assumption|reflexivity].

(** The same nodes in another order. *)
Ltac same_nodes :=
  match goal with
  | H : NoDup ?l |- NoDup ?l' => let E := fresh in assert (E : l' ≡ₚ l) by (repeat (first [rewrite plug_perm | rewrite outside_cons | progress cbn [inorder]]); solve_Permutation); rewrite E; exact H
  end.

(** The same nodes without [a]. *)
Ltac gone a :=
  match goal with
  | H : NoDup ?l |- NoDup ?l' =>
      let E := fresh in
      assert (E : l ≡ₚ a :: l') by (repeat (first [rewrite plug_perm | rewrite outside_cons | progress cbn [inorder]]); solve_Permutation);
      rewrite E in H; apply NoDup_cons in H; apply H
  end.

(** A node outside the tree after writes to some nodes of the tree. *)
Ltac unchanged :=
  let b := fresh "b" in let Hb := fresh "Hb" in
  intros b Hb; repeat (first [rewrite plug_perm in Hb | rewrite outside_cons in Hb | progress cbn [inorder] in Hb | rewrite not_elem_of_app in Hb | rewrite not_elem_of_cons in Hb]); destruct_and? Hb;
  match goal with H : forall a, a ∉ _ -> nodes ?s !! a = _ |- nodes ?s !! b = _ => rewrite H by assumption | _ => idtac end;
  match goal with H : nodes ?s = _ |- nodes ?s !! b = _ => rewrite H | _ => idtac end;
  rewrite ?lookup_insert_ne by congruence; reflexivity.

(** The last step of a turn; [HQ] says which tree it is to leave. *)
Ltac turn_done HQ :=
  match type of HQ with
  | forall st', holds st' _ ?t -> _ =>
      match goal with |- wp (__rb_change_child _ ?v _ _) _ => change v with (root t) end
  end;
  eapply wp_change_child;
  [eassumption|eassumption|in_place|assumption|by auto with rb|cbn [repr]; in_place|same_nodes|intros ? ? ?];
  repeat step; apply HQ; [by apply holds_extra|apply only_extra; unchanged].

(** Takes apart what is known of the nodes of the tree [H] is about. *)
Ltac open_tree H :=
  let Hd := fresh "Hd" in let Hk := fresh "Hk" in let Ht := fresh "Ht" in let Hnd := fresh "Hnd" in
  destruct H as [Hk Ht Hnd]; cbn [repr root] in Ht; repeat (first [rewrite repr_plug in Ht | rewrite root_plug in Ht | progress cbn [repr root] in Ht]); cbn [around above f_addr f_other root] in Ht, Hk; destruct_and? Ht; destruct_and? Hk; pose proof Hnd as Hd; nodup_facts Hd;
  match goal with st : rbtree _ |- _ => start st end.

(** Two trees have the same nodes in the same order. *)
Ltac in_order := unfold join; cbn [f_side f_color f_addr f_other opposite inorder app];
  repeat (first [rewrite <- app_assoc | progress cbn [app]]); reflexivity.

(** Both sides. *)
Ltac sides s := destruct s; unfold join in *; cbn [f_side f_color f_addr f_other opposite] in *.

(** The tree [t] is in the hole after some writes. *)
Ltac written_with nodes_tac :=
  split;
  [ repeat match goal with H : nodes ?s = _ |- around (nodes ?s) (root_node ?s) _ _ => rewrite H; clear H end;
    repeat match goal with H : root_node ?s = _ |- context [root_node ?s] => rewrite H; clear H end;
    cbn [around above f_addr f_other root]; in_place
  | match goal with H : nodes ?s = _ |- repr (nodes ?s) _ _ => rewrite H end; cbn [repr above f_addr]; in_place
  | nodes_tac ].

Ltac written := written_with ltac:(idtac; same_nodes).
