(* ===== verification/RbTreeInsert.v ===== *)
(** * lib/rbtree.c: insertion

    Linking a red leaf and running [rb_insert_color] leaves a red-black tree
    with the nodes in the same order. *)

From stdpp Require Import gmap.
From Stdlib Require Import ZifyBool.
From S2P Require Import Prelude RbTree RbTreeShape.

Local Open Scope Z_scope.

Section insert.
Context {X : Type} (augment_rotate : Z -> Z -> rbtree X -> X).
Implicit Types st : rbtree X.

(** The node is on the outer side: one turn. *)
Lemma insert_outer_ok s st k g p n a b y u Q :
  let t := join (Frame s Black g u) (join (Frame s Red p y) (T Red a n b)) in
  holds st k t -> red_root u = false -> red_root y = false ->
  (forall st', holds st' k (join (Frame s Black p (join (Frame s Red g u) y)) (T Red a n b)) ->
    only (inorder t ++ outside k) st st' -> Q (None, st')) ->
  wp (insert_side augment_rotate s n p g st) Q.
Proof.
  intros t H Hu Hy HQ. subst t. sides s.
  all: assert (Hyn : (n =? root y) = false) by
    (destruct H as [_ Ht Hd]; cbn [repr] in Ht; destruct_and? Ht; nodup_facts Hd; by apply root_other).
  all: destruct y as [|[] yl ya yr]; [|done|]; cbn [root] in Hyn; open_tree H.
  all: unfold insert_side; repeat step; rewrite Hu; repeat step; unfold insert_inner; rewrite Hyn; repeat step.
  all: unfold __rb_rotate_set_parents; repeat step; turn_done HQ.
Qed.

(** The node is on the inner side: two turns. *)
Lemma insert_inner_ok s st k g p n a b y u Q :
  let t := join (Frame s Black g u) (join (Frame (opposite s) Red p y) (join (Frame s Red n b) a)) in
  holds st k t -> red_root u = false -> red_root a = false -> red_root b = false ->
  (forall st', holds st' k (join (Frame s Black n (join (Frame s Red g u) b)) (join (Frame (opposite s) Red p y) a)) ->
    only (inorder t ++ outside k) st st' -> Q (None, st')) ->
  wp (insert_side augment_rotate s n p g st) Q.
Proof.
  intros t H Hu Ha Hb HQ. subst t. sides s.
  all: destruct a as [|[] al aa ar]; [|done|]; (destruct b as [|[] bl ba br]; [|done|]); open_tree H.
  all: unfold insert_side; repeat step; rewrite Hu; repeat step; unfold insert_inner; rewrite Z.eqb_refl; repeat step.
  all: unfold __rb_rotate_set_parents; repeat step; turn_done HQ.
Qed.

(** The other child of the grandparent is red: colours only. *)
Lemma insert_red_ok s s' st k g p n x y ul ua ur Q :
  let t := join (Frame s Black g (T Red ul ua ur)) (join (Frame s' Red p y) x) in
  holds st k t ->
  (forall st', holds st' k (join (Frame s Red g (T Black ul ua ur)) (join (Frame s' Black p y) x)) ->
    only (inorder t ++ outside k) st st' -> Q (Some (g, above k), st')) ->
  wp (insert_side augment_rotate s n p g st) Q.
Proof.
  intros t H HQ. subst t. sides s. all: sides s'. all: open_tree H. all: unfold insert_side; repeat step.
  all: match goal with |- wp (is_red_node ?a ?s0) _ => change a with (root (T Red ul ua ur)) end.
  all: eapply wp_is_red; [eassumption|cbn [repr root]; split_and!; eassumption|by auto with rb|]. all: cbn [red_root]; repeat step.
  all: apply HQ; [written|unchanged].
Qed.

(** The side that the code finds a child on. *)
Lemma found_side st s c a y k x h :
  holds st (Frame s c a y :: k) x -> nodes st !! a = Some h -> x <> E ->
  (if negb (root x =? rb_right h) then Left else Right) = s.
Proof.
  intros [Hk Ht Hnd] Ha Hx. cbn in Hk. destruct Hk as (Ha' & _ & _ & _). rewrite Ha in Ha'. injection Ha' as ->.
  destruct x as [|cx xl xa xr]; [done|]. destruct Ht as (_ & Hxok & _). rewrite outside_cons in Hnd. nodup_facts Hnd.
  destruct s; cbn; [by rewrite root_other|by rewrite Z.eqb_refl].
Qed.

(** What a run of the loop leaves. *)
Definition balanced (t : tree) st st' : Prop :=
  exists t', holds st' [] t' /\ rb_ok t' /\ inorder t' = inorder t /\ only (inorder t) st st'.

Lemma balanced_here st st' k t0 t c n :
  holds st' k t -> rbt t c n -> fits k c n -> inorder t = inorder t0 -> only (inorder t0 ++ outside k) st st' ->
  balanced (plug k t0) st st'.
Proof.
  intros Hh Ht Hk Hi Ho. exists (plug k t). split_and!.
  - by rewrite <- holds_plug.
  - by eapply fits_plug.
  - by rewrite !inorder_plug, Hi.
  - intros b Hb. apply Ho. by rewrite plug_perm in Hb.
Qed.

Lemma rbt_black t n : rbt t Black n -> red_root t = false.
Proof. by inversion 1. Qed.

Lemma rbt_red t n : rbt t Red n -> exists l a r, t = T Red l a r /\ rbt l Black n /\ rbt r Black n.
Proof. inversion 1; subst. eauto 10. Qed.

(** The turn at a grandparent whose other child is not red. *)
Lemma insert_turn_ok s s' st k g p n l r y u cu h Q :
  let t := join (Frame s Black g u) (join (Frame s' Red p y) (T Red l n r)) in
  holds st k t -> rbt l Black h -> rbt r Black h -> rbt y Black h -> rbt u cu h -> red_root u = false -> fits k Black (S h) ->
  (forall st', balanced (plug k t) st st' -> Q (None, st')) -> wp (insert_side augment_rotate s n p g st) Q.
Proof.
  intros t H Hl Hr Hy Hu Hred Hk HQ. destruct cu; [by destruct (rbt_red _ _ Hu) as (? & ? & ? & -> & _)|].
  assert (Hs : s' = s \/ s' = opposite s) by (destruct s, s'; auto). destruct Hs as [->| ->].
  - eapply insert_outer_ok; [exact H|done|by eapply rbt_black|]. intros st' Hh Ho. apply HQ. eapply balanced_here; [exact Hh| |exact Hk| |exact Ho].
    + destruct s; unfold join; cbn; eauto with rb.
    + subst t; destruct s; in_order.
  - destruct s.
    + eapply (insert_inner_ok Left _ _ g p n l r y u); [exact H|done|by eapply rbt_black..|]. intros st' Hh Ho. apply HQ.
      eapply balanced_here; [exact Hh| |exact Hk| |exact Ho]; [unfold join; cbn; eauto with rb|subst t; in_order].
    + eapply (insert_inner_ok Right _ _ g p n r l y u); [exact H|done|by eapply rbt_black..|]. intros st' Hh Ho. apply HQ.
      eapply balanced_here; [exact Hh| |exact Hk| |exact Ho]; [unfold join; cbn; eauto with rb|subst t; in_order].
Qed.

Lemma balanced_trans t0 t1 st st1 st' :
  inorder t1 = inorder t0 -> only (inorder t0) st st1 -> balanced t1 st1 st' -> balanced t0 st st'.
Proof.
  intros Ei Ho (t' & Hh & Hrb & Hi & Ho'). rewrite Ei in *. exists t'. split_and!; [done..|]. by eapply only_trans.
Qed.

(** What the code reads at a red parent, below a black grandparent. *)
Lemma red_parent st s p y s2 g u k x :
  holds st (Frame s Red p y :: Frame s2 Black g u :: k) x ->
  exists hp hg, nodes st !! p = Some hp /\ rb_is_black hp = false /\ rb_red_parent hp = g /\ p <> 0 /\
    nodes st !! g = Some hg /\ (if negb (p =? rb_right hg) then Left else Right) = s2.
Proof.
  intros H. pose proof H as Hj. rewrite holds_join in Hj. destruct H as [(Hp & Hpok & _ & Hg & Hgok & _) _ _]. cbn in Hp, Hpok, Hg, Hgok.
  eexists _, _. split_and!; [exact Hp| | |by apply addr_ok_nonzero|exact Hg|].
  - unfold frame_node. destruct s; cbn; by rewrite rb_is_black_word by (by right).
  - unfold frame_node. destruct s; apply word_red.
  - assert (Er : p = root (join (Frame s Red p y) x)) by (by destruct s). rewrite Er at 1. eapply found_side; [exact Hj|exact Hg|by destruct s].
Qed.

Lemma black_parent st s p y k x :
  holds st (Frame s Black p y :: k) x -> exists hp, nodes st !! p = Some hp /\ rb_is_black hp = true /\ p <> 0.
Proof.
  intros [(Hp & Hpok & _ & Hk) _ _]. cbn in Hp, Hpok, Hk. eexists. split_and!; [exact Hp| |by apply addr_ok_nonzero].
  unfold frame_node. destruct s; cbn; by rewrite rb_is_black_word by (by eapply above_addr).
Qed.

(** The loop, from a red node below a tree that wants a black one. *)
Lemma insert_loop_ok fuel k st l n r h Q :
  holds st k (T Red l n r) -> rbt l Black h -> rbt r Black h -> fits k Black h -> (length k < fuel)%nat ->
  (forall st', balanced (plug k (T Red l n r)) st st' -> Q st') -> wp (insert_loop augment_rotate fuel n (above k) st) Q.
Proof.
  revert k st l n r h Q. induction fuel as [|fuel IH]; intros k st l n r h Q H Hl Hr Hk Hf HQ; [lia|]. cbn [insert_loop].
  inversion Hk as [|s p y k1 n1 Hy Hk1|s p y cy k1 c1 n1 Hy Hk1]; subst; cbn [above f_addr].
  - cbn [Z.eqb]. open_tree H. repeat step. apply HQ. eapply (balanced_here _ _ [] _ (T Black l n r)); [written|eauto with rb..|done|unchanged].
  - inversion Hk1 as [| |s2 g u cu k2 c2 n2 Hu Hk2]; subst.
    destruct (red_parent _ _ _ _ _ _ _ _ _ H) as (hp & hg & Hp & Hbp & Hrp & Hp0 & Hg & Hside). rewrite !holds_join in H.
    rewrite (proj2 (Z.eqb_neq p 0) Hp0). apply wp_bind. eapply wp_node_at; [done|exact Hp|]. rewrite Hbp, Hrp.
    apply wp_bind. eapply wp_node_at; [done|exact Hg|]. rewrite Hside. apply wp_bind. destruct (red_root u) eqn:Eu.
    + destruct u as [|[] ul ua ur]; [done| |done]. assert (rbt ul Black h /\ rbt ur Black h) as [Hul Hur] by (by inversion Hu).
      eapply insert_red_ok; [exact H|]. intros st' Hh Ho. repeat step.
      assert (Ht' : exists l' r', join (Frame s2 Red g (T Black ul ua ur)) (join (Frame s Black p y) (T Red l n r)) = T Red l' g r' /\
        rbt l' Black (S h) /\ rbt r' Black (S h)) by (destruct s2, s; unfold join; cbn; eauto 10 with rb).
      destruct Ht' as (l' & r' & Et & Hl' & Hr'). pose proof Hh as Hh'. rewrite Et in Hh'.
      eapply IH; [exact Hh'|exact Hl'|exact Hr'|exact Hk2|cbn in Hf; lia|]. intros st2 Hb. apply HQ.
      eapply balanced_trans; [| |exact Hb]; [|intros b; cbn [plug]; rewrite plug_perm; apply Ho].
      cbn [plug]. rewrite <- Et, !inorder_plug. by destruct s2, s.
    + eapply insert_turn_ok; [exact H|exact Hl|exact Hr|exact Hy|exact Hu|exact Eu|exact Hk2|]. intros st' Hb. repeat step. by apply HQ.
  - destruct (black_parent _ _ _ _ _ _ H) as (hp & Hp & Hbp & Hp0). rewrite (proj2 (Z.eqb_neq p 0) Hp0).
    apply wp_bind. eapply wp_node_at; [done|exact Hp|]. rewrite Hbp. apply HQ.
    eapply balanced_here; [exact H|by apply rbt_R|by econstructor|done|by apply only_refl].
Qed.

(** [__rb_insert], and with it [rb_insert_color], after a node has been linked
    into the place of a leaf. *)
Lemma rb_insert_ok k st n Q :
  holds st k (T Red E n E) -> rb_ok (plug k E) ->
  (forall st', balanced (plug k (T Red E n E)) st st' -> Q st') -> wp (__rb_insert augment_rotate n st) Q.
Proof.
  intros H [m Hm] HQ. destruct (plug_fits _ _ _ Hm) as (c & h & He & Hk). inversion He; subst. pose proof (holds_length _ _ _ H) as Hlen.
  unfold __rb_insert. apply wp_bind. eapply wp_node_at; [done|apply (ho_tree _ _ _ H)|]. unfold rb_red_parent. cbn [__rb_parent_color].
  rewrite word_red. eapply insert_loop_ok; [exact H|constructor|constructor|exact Hk|cbn in Hlen; lia|exact HQ].
Qed.

End insert.
