(* ===== verification/RbTreeErase.v ===== *)
(** * lib/rbtree.c: removal

    [rb_erase] takes a node out and leaves a red-black tree with the other
    nodes in the same order. *)

From stdpp Require Import gmap.
From Stdlib Require Import ZifyBool.
From S2P Require Import Prelude RbTree RbTreeShape RbTreeInsert.

Local Open Scope Z_scope.

Section erase.
Context {X : Type} (augment_rotate augment_copy augment_propagate : Z -> Z -> rbtree X -> X).
Implicit Types st : rbtree X.

(** ** The turns *)

(** A red sibling, with a black inner child. *)
Lemma erase_red_sibling_ok s st k p sb al aa ar b x Q :
  let a := T Black al aa ar in
  let t := join (Frame s Black p (join (Frame s Red sb b) a)) x in
  holds st k t ->
  (forall st', holds st' k (join (Frame s Black sb b) (join (Frame s Red p a) x)) ->
    only (inorder t ++ outside k) st st' -> Q (aa, st')) ->
  wp (erase_red_sibling augment_rotate s p sb st) Q.
Proof.
  intros a t H HQ. subst a t. sides s. all: open_tree H.
  all: unfold erase_red_sibling; repeat step. all: unfold __rb_rotate_set_parents; repeat step. all: turn_done HQ.
Qed.

Lemma erase_black_sibling s st h p sb q c r l Q :
  nodes st = h -> h !! sb = Some (RbNode (word q c) r l) -> c = Black -> q = 0 \/ addr_ok q ->
  Q (sb, st) -> wp (erase_red_sibling augment_rotate s p sb st) Q.
Proof.
  intros Hh Hs -> Hq HQ. unfold erase_red_sibling. apply wp_bind. eapply wp_node_at; [done..|]. by rewrite rb_is_red_word by done.
Qed.

(** The outer child of the sibling is red. *)
Lemma erase_outer_ok s st k cp p sb near fl fa fr x Q :
  let t := join (Frame s cp p (join (Frame s Black sb (T Red fl fa fr)) near)) x in
  holds st k t ->
  (forall st', holds st' k (join (Frame s cp sb (T Black fl fa fr)) (join (Frame s Black p near) x)) ->
    only (inorder t ++ outside k) st st' -> Q st') ->
  wp (erase_outer augment_rotate s p sb fa st) Q.
Proof.
  intros t H HQ. subst t. sides s. all: destruct near as [|cn nl na nr]. all: open_tree H.
  all: unfold erase_outer; repeat step. all: unfold __rb_rotate_set_parents; repeat step. all: turn_done HQ.
Qed.

(** The inner child of the sibling is red. *)
Lemma erase_inner_ok s st k cp p sb nb n1 n2 far x Q :
  let t := join (Frame s cp p (join (Frame s Black sb far) (join (Frame s Red nb n2) n1))) x in
  holds st k t -> red_root n2 = false ->
  (forall st', holds st' k (join (Frame s cp nb (join (Frame s Black sb far) n2)) (join (Frame s Black p n1) x)) ->
    only (inorder t ++ outside k) st st' -> Q st') ->
  wp (st ← erase_inner augment_rotate s p sb nb st; erase_outer augment_rotate s p nb sb st) Q.
Proof.
  intros t H Hn2 HQ. subst t. sides s. all: destruct n1 as [|c1 l1 a1 r1]. all: destruct n2 as [|[] l2 a2 r2]; try done. all: open_tree H.
  all: unfold erase_inner, erase_outer; repeat step. all: unfold __rb_rotate_set_parents; repeat step. all: turn_done HQ.
Qed.

(** ** One turn of the loop *)

(** What a turn at a node of colour [c] leaves: a red-black tree, or, where the
    node was black, a subtree that is one black node short, one level up. *)
Definition mended (c : color) (k : list frame) (t : tree) st (r : option (Z * Z) * rbtree X) : Prop :=
  match r.1 with
  | None => balanced (plug k t) st r.2
  | Some (a, p) => exists t' n, c = Black /\ a = root t' /\ p = above k /\ k <> [] /\ holds r.2 k t' /\ rbt t' Black n /\ fits k Black (S n) /\
                     inorder t' = inorder t /\ only (inorder t ++ outside k) st r.2
  end.

Lemma recolor_ok s st k cp p sl sb sr x Q :
  let t := join (Frame s cp p (T Black sl sb sr)) x in
  holds st k t ->
  (forall st', holds st' k (join (Frame s Black p (T Red sl sb sr)) x) -> only (inorder t ++ outside k) st st' ->
    Q (match cp with Red => None | Black => if above k =? 0 then None else Some (p, above k) end, st')) ->
  wp (erase_recolor p sb st) Q.
Proof.
  intros t H HQ. subst t. sides s. all: open_tree H.
  all: unfold erase_recolor; repeat step. all: destruct cp; unfold rb_set_black; repeat step.
  all: repeat match goal with H : context [Z.lor (word _ _) RB_BLACK] |- _ => rewrite word_recolor in H end.
  all: try (destruct (above k =? 0); cbn [negb]; repeat step).
  all: apply HQ; [written|unchanged].
Qed.

Lemma fits_black k c n : fits k c n -> fits k Black n.
Proof. destruct c; [|done]. inversion 1; eauto with rb. Qed.

Lemma at_top st k t : holds st k t -> above k = 0 -> k = [].
Proof. intros [Ha _ _] H0. destruct k; [done|]. cbn in Ha, H0. destruct_and? Ha. exfalso. by eapply addr_ok_nonzero. Qed.

Lemma erase_recolor_ok s st k cp p sl sb sr x n Q :
  let sib := T Black sl sb sr in
  let t := join (Frame s cp p sib) x in
  holds st k t -> rbt x Black n -> rbt sl Black n -> rbt sr Black n -> fits (Frame s cp p sib :: k) Black (S n) ->
  (forall r, mended cp k t st r -> Q r) -> wp (erase_recolor p sb st) Q.
Proof.
  intros sib t H Hx Hl Hr Hf HQ. eapply recolor_ok; [exact H|]. intros st' Hh Ho. apply HQ.
  assert (Hi : inorder (join (Frame s Black p (T Red sl sb sr)) x) = inorder t) by (by destruct s).
  assert (Ht : rbt (join (Frame s Black p (T Red sl sb sr)) x) Black (S n)) by (destruct s; unfold join; cbn; eauto with rb).
  inversion Hf as [|s' p' y' k' n' Hy Hk|s' p' y' c' k' c'' n' Hy Hk]; subst; unfold mended; cbn [fst snd].
  - eapply balanced_here; [exact Hh|exact Ht|by eapply fits_black|exact Hi|exact Ho].
  - destruct (Z.eqb_spec (above k) 0) as [E0|E0].
    + eapply balanced_here; [exact Hh|exact Ht| |exact Hi|exact Ho]. rewrite (at_top _ _ _ Hh E0). constructor.
    + eexists _, (S n). split_and!; [done| |done| |exact Hh|exact Ht|exact Hk|exact Hi|exact Ho]; [by destruct s|by intros ->].
Qed.

(** A turn that ends the loop: two black subtrees of the same height below a
    node that has the colour of the old one. *)
Lemma mended_turn s st st' k cp p sib a A B n t :
  fits (Frame s cp p sib :: k) Black (S n) -> rbt A Black (S n) -> rbt B Black (S n) ->
  holds st' k (join (Frame s cp a A) B) -> inorder (join (Frame s cp a A) B) = inorder t ->
  only (inorder t ++ outside k) st st' -> mended cp k t st (None, st').
Proof.
  intros Hf HA HB Hh Hi Ho.
  assert (exists m, rbt (join (Frame s cp a A) B) cp m /\ fits k cp m) as (m & Ht & Hk)
    by (inversion Hf; subst; destruct s; unfold join; cbn; eauto with rb).
  by eapply balanced_here.
Qed.

Lemma rbt_not_red t c n : rbt t c n -> red_root t = false -> rbt t Black n.
Proof. destruct c; [|done]. by inversion 1. Qed.

Lemma erase_inner_turn s st k cp p sb nb n1 n2 far x n Q :
  let sib := join (Frame s Black sb far) (join (Frame s Red nb n2) n1) in
  let t := join (Frame s cp p sib) x in
  holds st k t -> rbt x Black n -> rbt n1 Black n -> rbt n2 Black n -> rbt far Black n -> fits (Frame s cp p sib :: k) Black (S n) ->
  (forall r, mended cp k t st r -> Q r) ->
  wp (st ← erase_inner augment_rotate s p sb nb st; st ← erase_outer augment_rotate s p nb sb st; Ok (None, st)) Q.
Proof.
  intros sib t H Hx H1 H2 Hfar Hf HQ.
  assert (Hw : wp (st ← erase_inner augment_rotate s p sb nb st; erase_outer augment_rotate s p nb sb st) (fun st' => Q (None, st'))).
  { eapply erase_inner_ok; [exact H|by eapply rbt_black|]. intros st' Hh Ho. apply HQ. eapply mended_turn; [exact Hf| | |exact Hh| |exact Ho].
    - destruct s; unfold join; cbn; eauto with rb.
    - destruct s; unfold join; cbn; eauto with rb.
    - subst t sib. destruct s; in_order. }
  destruct (erase_inner _ _ _ _ _ _) as [st1| |]; [|done..]. cbn in *. by destruct (erase_outer _ _ _ _ _ _).
Qed.

Lemma erase_black_ok s st k cp p sb near far cn cf x n Q :
  let sib := join (Frame s Black sb far) near in
  let t := join (Frame s cp p sib) x in
  holds st k t -> rbt x Black n -> rbt near cn n -> rbt far cf n -> fits (Frame s cp p sib :: k) Black (S n) ->
  (forall r, mended cp k t st r -> Q r) -> wp (erase_black_side augment_rotate s p sb st) Q.
Proof.
  intros sib t H Hx Hn Hfar Hf HQ.
  assert (Hread : exists q r l, nodes st !! sb = Some (RbNode q r l) /\ child s (RbNode q r l) = root near /\
    child (opposite s) (RbNode q r l) = root far /\ repr (nodes st) sb near /\ repr (nodes st) sb far /\ addr_ok sb).
  { subst sib t. clear Hf HQ. sides s. all: open_tree H. all: eexists _, _, _; split_and!; [eassumption|done..]. }
  destruct Hread as (q & r & l & Hsb & Hcn & Hcf & Hrn & Hrf & Hok).
  unfold erase_black_side. apply wp_bind. eapply wp_node_at; [done|exact Hsb|]. rewrite Hcn, Hcf.
  apply wp_bind. eapply wp_is_red; [done|exact Hrf|by right|]. destruct (red_root far) eqn:Ef; cbn [negb].
  - destruct far as [|[] fl fa fr]; try done. apply wp_bind. eapply erase_outer_ok; [exact H|]. intros st' Hh Ho. apply HQ.
    eapply mended_turn; [exact Hf| | |exact Hh| |exact Ho].
    + inversion Hfar; subst; eauto with rb.
    + destruct s; unfold join; cbn; eauto with rb.
    + subst t sib. destruct s; in_order.
  - apply wp_bind. eapply wp_is_red; [done|exact Hrn|by right|]. destruct (red_root near) eqn:En; cbn [negb].
    + destruct near as [|[] nl nb nr]; try done. assert (cn = Red /\ rbt nl Black n /\ rbt nr Black n) as (-> & Hnl & Hnr) by (by inversion Hn).
      destruct s; [eapply (erase_inner_turn Left _ _ _ _ _ _ nl nr)|eapply (erase_inner_turn Right _ _ _ _ _ _ nr nl)]; (eassumption || (by eapply rbt_not_red)).
    + pose proof (rbt_not_red _ _ _ Hfar Ef). pose proof (rbt_not_red _ _ _ Hn En).
      destruct s; [eapply (erase_recolor_ok Left)|eapply (erase_recolor_ok Right)]; (exact H || eassumption).
Qed.

(** A red sibling has a black child on either side. *)
Lemma red_sibling s sb l r n : rbt (T Red l sb r) Red (S n) ->
  exists b al aa ar, T Red l sb r = join (Frame s Red sb b) (T Black al aa ar) /\ rbt b Black (S n) /\ rbt (T Black al aa ar) Black (S n).
Proof.
  intros H. inversion H as [|? ? ? ? Hl Hr|]; subst. destruct s.
  - inversion Hl; subst. by eexists _, _, _, _.
  - inversion Hr; subst. by eexists _, _, _, _.
Qed.

Lemma black_sibling s sb l r n : rbt (T Black l sb r) Black (S n) ->
  exists near far cn cf, T Black l sb r = join (Frame s Black sb far) near /\ rbt near cn n /\ rbt far cf n.
Proof. intros H. inversion H; subst. destruct s; [exists l, r|exists r, l]; by eexists _, _. Qed.

Lemma erase_side_ok s st k cp p sib x n Q :
  let t := join (Frame s cp p sib) x in
  holds st k t -> rbt x Black n -> fits (Frame s cp p sib :: k) Black (S n) ->
  (forall r, mended cp k t st r -> Q r) -> wp (erase_side augment_rotate s p st) Q.
Proof.
  intros t H Hx Hf HQ. pose proof H as Hj. subst t. rewrite <- holds_join in Hj. destruct Hj as [(Hp & Hpok & Hsib & _) _ _]. cbn in Hp, Hpok, Hsib.
  assert (Hch : child (opposite s) (frame_node (Frame s cp p sib) (above k) (root x)) = root sib) by (by destruct s).
  unfold erase_side. apply wp_bind. eapply wp_node_at; [done|exact Hp|]. rewrite Hch. apply wp_bind. clear Hch Hp.
  assert (Hc : exists c, rbt sib c (S n) /\ (c = Red -> cp = Black /\ fits k Black (S (S n))))
    by (inversion Hf; subst; eexists; split; [eassumption|done| eassumption|done]).
  destruct Hc as ([] & Hrb & Hcp).
  - destruct (Hcp eq_refl) as (-> & Hk). destruct (rbt_red _ _ Hrb) as (l & sb & r & -> & _).
    destruct (red_sibling s _ _ _ _ Hrb) as (b & al & aa & ar & E & Hb & Ha). rewrite E in *. cbn [root].
    assert (root (join (Frame s Red sb b) (T Black al aa ar)) = sb) as -> by (by destruct s).
    eapply erase_red_sibling_ok; [exact H|]. intros st' Hh Ho. rewrite <- holds_join in Hh.
    destruct (black_sibling s _ _ _ _ Ha) as (near & far & cn & cf & E2 & Hnear & Hfar). rewrite E2 in *.
    eapply (erase_black_ok s _ _ Red); [exact Hh|exact Hx|exact Hnear|exact Hfar|by eauto with rb|]. intros [[[a' p']|] st2]; unfold mended; cbn [fst snd].
    { by intros (? & ? & ? & _). }
    intros Hbal. apply HQ. eapply balanced_trans; [| |exact Hbal].
    + cbn [plug]. rewrite !inorder_plug. f_equal. f_equal. destruct s; in_order.
    + intros b'. rewrite plug_perm. apply Ho.
  - inversion Hrb as [| |l sb r cl cr n' Hl Hr]; subst. cbn [root] in *. destruct Hsib as (Hsb & Hok & _).
    eapply erase_black_sibling; [done|exact Hsb|done|by right|].
    destruct (black_sibling s _ _ _ _ Hrb) as (near & far & cn & cf & E & Hnear & Hfar). rewrite E in *.
    by eapply erase_black_ok.
Qed.

(** ** The loop *)

(** The side that the code finds the hole on, which may be a leaf: the sibling
    is none. *)
Lemma sibling_side st s c a y k x n :
  holds st (Frame s c a y :: k) x -> fits (Frame s c a y :: k) Black (S n) ->
  (if negb (root x =? rb_right (frame_node (Frame s c a y) (above k) (root x))) then Left else Right) = s.
Proof.
  intros H Hk. assert (Hy : exists cy, rbt y cy (S n)) by (inversion Hk; subst; eauto). destruct Hy as [cy Hy].
  destruct x as [|cx xl xa xr].
  - destruct (ho_around _ _ _ H) as (_ & _ & Hr & _). cbn in Hr. destruct s; [|done].
    destruct y as [|c' yl ya yr]; [by inversion Hy|]. destruct Hr as (_ & Hok & _). unfold frame_node. cbn [f_side f_other rb_right root]. by rewrite (proj2 (Z.eqb_neq 0 ya)) by (destruct Hok; lia).
  - eapply found_side; [exact H| |done]. apply (ho_around _ _ _ H).
Qed.

Lemma erase_loop_ok fuel k st x n Q :
  holds st k x -> rbt x Black n -> fits k Black (S n) -> k <> [] -> (length k <= fuel)%nat ->
  (forall st', balanced (plug k x) st st' -> Q st') -> wp (erase_loop augment_rotate fuel (root x) (above k) st) Q.
Proof.
  revert k st x n Q. induction fuel as [|fuel IH]; intros k st x n Q H Hx Hk Hne Hf HQ; (destruct k as [|[s c p sib] k]; [done|]); [cbn in Hf; lia|].
  cbn [erase_loop above f_addr]. pose proof (ho_around _ _ _ H) as (Hp & _ & _ & _). cbn in Hp.
  apply wp_bind. eapply wp_node_at; [done|exact Hp|]. rewrite (sibling_side _ _ _ _ _ _ _ _ H Hk).
  apply wp_bind. rewrite holds_join in H. eapply erase_side_ok; [exact H|exact Hx|exact Hk|]. intros [[[a' p']|] st1]; unfold mended; cbn [fst snd].
  - intros (t' & n' & _ & -> & -> & Hk1 & Hh & Ht' & Hfit & Hi & Ho). eapply IH; [exact Hh|exact Ht'|exact Hfit|exact Hk1|cbn in Hf; lia|].
    intros st2 Hb. apply HQ. eapply balanced_trans; [| |exact Hb]; [cbn [plug]; by rewrite !inorder_plug, Hi|intros b'; cbn [plug]; rewrite plug_perm; apply Ho].
  - intros Hb. by apply HQ.
Qed.

End erase.
