(* ===== verification/RbTreeDelete.v ===== *)
(** * lib/rbtree.c: taking a node out of the tree

    [__rb_erase_augmented] takes a node out of its place, which its successor
    takes where it has two children, and says where a black node is missing;
    with the loop that mends the colours this is [rb_erase]. *)

From stdpp Require Import gmap.
From Stdlib Require Import ZifyBool.
From S2P Require Import Prelude RbTree RbTreeShape RbTreeInsert RbTreeErase.

Local Open Scope Z_scope.

Lemma plug_app k1 k2 t : plug (k1 ++ k2) t = plug k2 (plug k1 t).
Proof. revert t. induction k1 as [|f k1 IH]; intros t; [done|]. apply IH. Qed.

Lemma above_or_app p k f k' : above_or p (k ++ f :: k') = above_or (f_addr f) k.
Proof. by destruct k. Qed.

(** ** The leftmost node *)

Lemma leftmost_below_ok {X} (st : rbtree X) t p fuel par suc :
  repr (nodes st) p t -> t <> E -> (length (inorder t) <= fuel)%nat ->
  exists k cs s sr, t = plug k (T cs E s sr) /\ Forall (fun f => f_side f = Left) k /\
    leftmost_below fuel par suc (root t) st = Ok (above_or suc k, s).
Proof.
  revert p fuel par suc. induction t as [|c l IHl a r _]; intros p fuel par suc Ht Hne Hf; [done|].
  cbn in Ht. destruct Ht as (Ha & Hok & Hl & _). cbn [inorder] in Hf. rewrite length_app in Hf. cbn in Hf.
  destruct fuel as [|fuel]; [lia|]. cbn [leftmost_below root]. unfold node_at. rewrite Ha. cbn [mbind outcome_bind rb_left].
  destruct l as [|cl ll la lr]; [by exists [], c, a, r|].
  destruct (IHl a fuel suc a Hl ltac:(done) ltac:(lia)) as (k & cs & s & sr & E & HF & Erun).
  exists (k ++ [Frame Left c a r]), cs, s, sr. rewrite plug_app, above_or_app, <- E. split_and!; [done|by apply Forall_app; auto|].
  cbn [root] in *. destruct Hl as (_ & Hlok & _). by rewrite (proj2 (Z.eqb_neq la 0)) by (by apply addr_ok_nonzero).
Qed.

(** ** Nodes with one child *)

(** The node that took the place of a black node is black. *)
Definition blacken (t : tree) : tree := match t with E => E | T _ l a r => T Black l a r end.

(** What is left when a node was taken out: the other nodes [L] in order, and
    [r.1] is the node below which a black node is missing, if it is not 0. *)
Definition unlinked {X} (L : list Z) (r : Z * rbtree X) : Prop :=
  exists k y, holds r.2 k y /\ inorder (plug k y) = L /\
    (r.1 = 0 /\ rb_ok (plug k y) \/ r.1 = above k /\ k <> [] /\ y = E /\ fits k Black 1).

(** A node with at most one child has no child or a red one. *)
Lemma one_child c l a r y n :
  rbt (T c l a r) c n -> l = E /\ r = y \/ l = y /\ r = E ->
  y = E /\ n = (match c with Red => 0 | Black => 1 end)%nat \/ c = Black /\ n = 1%nat /\ exists b, y = T Red E b E.
Proof.
  intros Ht Hlr.
  assert (Hy : exists m cy, rbt y cy m /\ m = 0%nat /\ (c = Red -> cy = Black) /\ n = match c with Red => m | Black => S m end).
  { destruct Hlr as [[-> ->]|[-> ->]]; inversion Ht as [|? ? ? ? Hl Hr|? ? ? ? ? ? Hl Hr]; subst.
    all: match goal with H : rbt E _ _ |- _ => inversion H; subst end. all: eexists _, _; split_and!; [eassumption|done..]. }
  destruct Hy as (m & cy & Hy & -> & Hc & Hn). inversion Hy as [|? ? ? ? Hl Hr|]; subst; [by destruct c; auto|].
  destruct c; [by specialize (Hc eq_refl)|]. right. inversion Hl; inversion Hr; subst. eauto.
Qed.

Lemma unlinked_ok {X} (st : rbtree X) k c l a r y n :
  rbt (T c l a r) c n -> fits k c n -> l = E /\ r = y \/ l = y /\ r = E -> holds st k (blacken y) ->
  unlinked (inorder (plug k y)) (match y, c with E, Black => above k | _, _ => 0 end, st).
Proof.
  intros Ht Hk Hlr Hh. exists k, (blacken y). split; [done|]. split; [rewrite !inorder_plug; by destruct y|]. cbn [fst].
  destruct (one_child _ _ _ _ _ _ Ht Hlr) as [[-> ->]|(-> & -> & b & ->)]; cbn [blacken] in *.
  - destruct c; [left; split; [done|]; eapply fits_plug; [by eapply fits_black|constructor]|].
    destruct k as [|f k]; [by left; split; [|exists O; constructor]|by right].
  - left. split; [done|]. eapply fits_plug; [exact Hk|eauto with rb].
Qed.

(** The step that gives the hole another address. *)
Ltac relinked :=
  match goal with
  | |- wp (__rb_change_child _ _ 0 _) _ => eapply (wp_relink _ _ _ [])
  | H : _ !! ?g = Some (frame_node ?f (above ?k) _) |- wp (__rb_change_child _ _ ?g _) _ => eapply (wp_relink _ _ _ (f :: k))
  end;
  [eassumption|eassumption|cbn [around f_addr f_other]; in_place
  |rewrite ?outside_cons, ?not_elem_of_cons, ?not_elem_of_app; split_and?; first [assumption|by apply not_elem_of_nil]
  |by auto with rb|wrote; match goal with H : nodes _ = relink _ _ _ |- _ => cbn [relink f_addr] in H end].

(** The tests for null pointers. *)
Ltac null_tests :=
  change (0 =? 0) with true;
  repeat match goal with H : addr_ok ?b |- context [?b =? 0] => rewrite (proj2 (Z.eqb_neq b 0) (addr_ok_nonzero b H)) end;
  cbn [negb].

Lemma is_black_word p c : p = 0 \/ addr_ok p -> __rb_is_black (word p c) = match c with Red => false | Black => true end.
Proof. apply (rb_is_black_word _ _ 0 0). Qed.

Ltac run := repeat (first [step | relinked | progress null_tests]).

(** The end of a run that takes out [a]. *)
Ltac unlink_done a :=
  cbn [fst snd blacken];
  split_and!; [rewrite ?is_black_word by ok_addr; first [reflexivity | match goal with |- context [match ?c with Red => _ | Black => _ end] => destruct c; reflexivity end]|apply holds_extra; written_with ltac:(idtac; gone a)|apply only_extra; unchanged].

Section delete.
Context {X : Type} (augment_copy augment_propagate : Z -> Z -> rbtree X -> X).
Implicit Types st : rbtree X.

Lemma erase_no_left st k c a r n Q :
  holds st k (T c E a r) -> rbt (T c E a r) c n -> fits k c n ->
  (forall res, unlinked (inorder (plug k r)) res -> only (inorder r ++ outside k) st res.2 -> Q res) ->
  wp (__rb_erase_augmented augment_copy augment_propagate a st) Q.
Proof.
  intros H Ht Hk HQ. pose proof (one_child _ _ _ _ _ _ Ht (or_introl (conj eq_refl eq_refl))) as Hc.
  assert (Hrun : wp (__rb_erase_augmented augment_copy augment_propagate a st) (fun res => 
    res.1 = match r, c with E, Black => above k | _, _ => 0 end /\ holds res.2 k (blacken r) /\ only (inorder r ++ outside k) st res.2)).
  { clear HQ Ht Hk. unfold __rb_erase_augmented. destruct Hc as [[-> _]|(-> & _ & b & ->)].
    all: destruct k as [|[s2 c2 g y2] k]. all: open_tree H. all: run. all: unlink_done a. }
  eapply wp_mono; [exact Hrun|]. intros [reb st'] (Hreb & Hh & Ho). cbn [fst snd] in *. apply HQ; [|exact Ho]. rewrite Hreb.
  eapply unlinked_ok; [exact Ht|exact Hk|by left|exact Hh].
Qed.

Lemma erase_no_right st k c a l n Q :
  holds st k (T c l a E) -> l <> E -> rbt (T c l a E) c n -> fits k c n ->
  (forall res, unlinked (inorder (plug k l)) res -> only (inorder l ++ outside k) st res.2 -> Q res) ->
  wp (__rb_erase_augmented augment_copy augment_propagate a st) Q.
Proof.
  intros H Hl Ht Hk HQ. pose proof (one_child _ _ _ _ _ _ Ht (or_intror (conj eq_refl eq_refl))) as Hc.
  assert (Hrun : wp (__rb_erase_augmented augment_copy augment_propagate a st) (fun res =>
    res.1 = match l, c with E, Black => above k | _, _ => 0 end /\ holds res.2 k (blacken l) /\ only (inorder l ++ outside k) st res.2)).
  { clear HQ Ht Hk. unfold __rb_erase_augmented. destruct Hc as [[-> _]|(-> & _ & b & ->)]; [done|].
    destruct k as [|[s2 c2 g y2] k]. all: open_tree H. all: run. all: unlink_done a. }
  eapply wp_mono; [exact Hrun|]. intros [reb st'] (Hreb & Hh & Ho). cbn [fst snd] in *. apply HQ; [|exact Ho]. rewrite Hreb.
  eapply unlinked_ok; [exact Ht|exact Hk|by right|exact Hh].
Qed.

(** The successor is the right child. *)
Lemma erase_child st k c l a cs s sr Q :
  holds st k (T c l a (T cs E s sr)) -> l <> E -> sr = E \/ cs = Black /\ (exists b, sr = T Red E b E) ->
  let k' := Frame Right c s l :: k in
  (forall st', holds st' k' (blacken sr) -> only (inorder l ++ inorder (T cs E s sr) ++ outside k) st st' ->
    Q (match sr, cs with E, Black => above k' | _, _ => 0 end, st')) ->
  wp (__rb_erase_augmented augment_copy augment_propagate a st) Q.
Proof.
  intros H Hl Hsr k' HQ. subst k'. eapply wp_mono with (P := fun res => res.1 = match sr, cs with E, Black => s | _, _ => 0 end /\
    holds res.2 (Frame Right c s l :: k) (blacken sr) /\ only (inorder l ++ inorder (T cs E s sr) ++ outside k) st res.2).
  2: { intros [reb st'] (Hreb & Hh & Ho). cbn [fst snd] in *. rewrite Hreb. by apply HQ. }
  clear HQ. unfold __rb_erase_augmented, take_successor. destruct l as [|cl ll la lr]; [done|]. destruct Hsr as [->|(-> & b & ->)].
  all: destruct k as [|[s2 c2 g y2] k]. all: open_tree H. all: run. all: unlink_done a.
Qed.

(** The successor is the left child of the right child. *)
Lemma erase_grandchild st k c l a cb b rb cs s sr Q :
  let t := T cb (T cs E s sr) b rb in
  holds st k (T c l a t) -> l <> E -> sr = E \/ cs = Black /\ (exists b, sr = T Red E b E) ->
  leftmost_below (S (size (nodes st))) b b s st = Ok (b, s) ->
  let k' := Frame Left cb b rb :: Frame Right c s l :: k in
  (forall st', holds st' k' (blacken sr) -> only (inorder l ++ inorder t ++ outside k) st st' ->
    Q (match sr, cs with E, Black => above k' | _, _ => 0 end, st')) ->
  wp (__rb_erase_augmented augment_copy augment_propagate a st) Q.
Proof.
  intros t H Hl Hsr Hlm k' HQ. subst k' t. eapply wp_mono with (P := fun res => res.1 = match sr, cs with E, Black => b | _, _ => 0 end /\
    holds res.2 (Frame Left cb b rb :: Frame Right c s l :: k) (blacken sr) /\ only (inorder l ++ inorder (T cb (T cs E s sr) b rb) ++ outside k) st res.2).
  2: { intros [reb st'] (Hreb & Hh & Ho). cbn [fst snd] in *. rewrite Hreb. by apply HQ. }
  clear HQ. unfold __rb_erase_augmented, take_successor. destruct l as [|cl ll la lr]; [done|]. destruct Hsr as [->|(-> & d & ->)].
  all: destruct k as [|[s2 c2 g y2] k]. all: open_tree H. all: run. all: rewrite Hlm; run. all: unlink_done a.
Qed.

(** The successor is further below. *)
Lemma erase_descendant st k c l a cb b rb k3 cp p yp cs s sr Q :
  let t := T cb (plug k3 (T cp (T cs E s sr) p yp)) b rb in
  holds st k (T c l a t) -> l <> E -> sr = E \/ cs = Black /\ (exists b, sr = T Red E b E) ->
  leftmost_below (S (size (nodes st))) b b (top k3 p) st = Ok (p, s) ->
  (forall st', holds st' k (T c l s (T cb (plug k3 (T cp (blacken sr) p yp)) b rb)) -> only (inorder l ++ inorder t ++ outside k) st st' ->
    Q (match sr, cs with E, Black => p | _, _ => 0 end, st')) ->
  wp (__rb_erase_augmented augment_copy augment_propagate a st) Q.
Proof.
  intros t H Hl Hsr Hlm HQ. subst t.
  eapply wp_mono with (P := fun res => res.1 = match sr, cs with E, Black => p | _, _ => 0 end /\
    holds res.2 k (T c l s (T cb (plug k3 (T cp (blacken sr) p yp)) b rb)) /\
    only (inorder l ++ inorder (T cb (plug k3 (T cp (T cs E s sr) p yp)) b rb) ++ outside k) st res.2).
  2: { intros [reb st'] (Hreb & Hh & Ho). cbn [fst snd] in *. rewrite Hreb. by apply HQ. }
  clear HQ. unfold __rb_erase_augmented, take_successor. destruct l as [|cl ll la lr]; [done|]. destruct Hsr as [->|(-> & d & ->)].
  all: destruct k as [|[s2 c2 g y2] k]. all: open_tree H.
  all: assert (addr_ok (top k3 p)) by (eapply top_ok; eassumption).
  all: run. all: rewrite Hlm; run. all: unlink_done a.
Qed.

End delete.
