(* ===== verification/RbTreeSpec.v ===== *)
(** * Red-black trees: the operations

    [rb_erase] leaves a red-black tree with the other nodes in the same order,
    and [rb_next] returns the node that follows in that order. *)

From stdpp Require Import gmap.
From Stdlib Require Import ZifyBool.
From S2P Require Import Prelude RbTree RbTreeShape RbTreeInsert RbTreeErase RbTreeDelete.

Local Open Scope Z_scope.

(** ** The successor takes the place of a node *)

Lemma fits_rename k1 s c a a' y k cc n : fits (k1 ++ Frame s c a y :: k) cc n -> fits (k1 ++ Frame s c a' y :: k) cc n.
Proof. revert cc n. induction k1 as [|f k1 IH]; intros cc n; cbn; inversion 1; subst; eauto with rb. Qed.

Lemma before_app k1 k2 : before (k1 ++ k2) = before k2 ++ before k1.
Proof. induction k1 as [|f k1 IH]; cbn; [by rewrite app_nil_r|]. by rewrite IH, <- app_assoc. Qed.

Lemma after_app k1 k2 : after (k1 ++ k2) = after k1 ++ after k2.
Proof. induction k1 as [|f k1 IH]; cbn; [done|]. by rewrite IH, <- app_assoc. Qed.

Lemma before_left k : Forall (fun f => f_side f = Left) k -> before k = [].
Proof. induction 1 as [|f k Hf _ IH]; [done|]. cbn. by rewrite IH, Hf. Qed.

(** Where the successor [s] of [a] is, and its only child. *)
Lemma successor_fits k k1 c l a cs s sr :
  rb_ok (plug k (T c l a (plug k1 (T cs E s sr)))) ->
  exists n, rbt (T cs E s sr) cs n /\ fits (k1 ++ Frame Right c s l :: k) cs n.
Proof.
  intros [m Hm]. change (T c l a (plug k1 (T cs E s sr))) with (plug [Frame Right c a l] (plug k1 (T cs E s sr))) in Hm.
  rewrite <- !plug_app in Hm. apply plug_fits in Hm as (cs' & n & Ht & Hf). cbn in Hf.
  assert (cs' = cs) as -> by (by inversion Ht). exists n. split; [done|]. by eapply fits_rename.
Qed.

Lemma successor_child k k1 c l a cs s sr :
  rb_ok (plug k (T c l a (plug k1 (T cs E s sr)))) -> sr = E \/ cs = Black /\ (exists b, sr = T Red E b E).
Proof.
  intros (n & Ht & _)%successor_fits. destruct (one_child _ _ _ _ _ _ Ht (or_introl (conj eq_refl eq_refl))) as [[? _]|(? & _ & ?)]; auto.
Qed.

Lemma successor_unlinked {X} (st : rbtree X) k k1 c l a cs s sr :
  rb_ok (plug k (T c l a (plug k1 (T cs E s sr)))) -> Forall (fun f => f_side f = Left) k1 ->
  holds st (k1 ++ Frame Right c s l :: k) (blacken sr) ->
  unlinked (before k ++ inorder l ++ inorder (plug k1 (T cs E s sr)) ++ after k)
    (match sr, cs with E, Black => above (k1 ++ Frame Right c s l :: k) | _, _ => 0 end, st).
Proof.
  intros Hok Hk1 Hh. destruct (successor_fits _ _ _ _ _ _ _ _ Hok) as (n & Ht & Hf).
  pose proof (unlinked_ok _ _ _ _ _ _ _ _ Ht Hf (or_introl (conj eq_refl eq_refl)) Hh) as Hu.
  assert (E : inorder (plug (k1 ++ Frame Right c s l :: k) sr) = before k ++ inorder l ++ inorder (plug k1 (T cs E s sr)) ++ after k); [|by rewrite E in Hu].
  rewrite plug_app. cbn [plug]. rewrite !inorder_plug. unfold join. cbn [f_side f_color f_addr f_other inorder].
  rewrite !inorder_plug, (before_left _ Hk1). cbn [inorder before after f_side f_other f_addr app]. repeat (first [rewrite <- app_assoc | progress cbn [app]]). done.
Qed.

Section spec.
Context {X : Type} (augment_rotate augment_copy augment_propagate : Z -> Z -> rbtree X -> X).
Implicit Types st : rbtree X.

Lemma erase_unlinks st k c l a r Q :
  holds st k (T c l a r) -> rb_ok (plug k (T c l a r)) ->
  (forall res, unlinked (before k ++ inorder l ++ inorder r ++ after k) res -> only (inorder l ++ inorder r ++ outside k) st res.2 -> Q res) ->
  wp (__rb_erase_augmented augment_copy augment_propagate a st) Q.
Proof.
  intros H Hok HQ. assert (Hc : l = E \/ l <> E) by (destruct l; auto). destruct Hc as [->|Hl]; [|destruct r as [|cb rl b rb]].
  - destruct Hok as (m & (c' & n & Ht & Hf)%plug_fits). assert (c' = c) as -> by (by inversion Ht).
    eapply erase_no_left; [exact H|exact Ht|exact Hf|]. intros res Hu Ho. apply HQ; [|done]. by rewrite inorder_plug in Hu.
  - destruct Hok as (m & (c' & n & Ht & Hf)%plug_fits). assert (c' = c) as -> by (by inversion Ht).
    eapply erase_no_right; [exact H|exact Hl|exact Ht|exact Hf|]. intros res Hu Ho. apply HQ; [|done]. by rewrite inorder_plug in Hu.
  - destruct rl as [|cl' ll' la' lr'].
    { eapply erase_child; [exact H|exact Hl|by apply (successor_child k [] _ _ _ _ _ _ Hok)|]. intros st' Hh Ho. apply HQ; [|done].
      by apply (successor_unlinked _ k [] _ _ _ _ _ _ Hok). }
    assert (Hrl : repr (nodes st) b (T cl' ll' la' lr')) by (apply (ho_tree _ _ _ H)). pose proof (holds_length _ _ _ H) as Hlen.
    destruct (leftmost_below_ok st _ _ (S (size (nodes st))) b b Hrl ltac:(done)) as (k3 & cs & s & sr & E & Hk3 & Hlm).
    { cbn [inorder] in Hlen |- *. repeat (first [rewrite length_app in Hlen | progress cbn [length] in Hlen]).
      repeat (first [rewrite length_app | progress cbn [length]]). lia. }
    rewrite E in *. rewrite root_plug in Hlm. clear E. destruct k3 as [|[s3 c3 p y3] k3].
    + eapply erase_grandchild; [exact H|exact Hl|by apply (successor_child k [Frame Left cb b rb] _ _ _ _ _ _ Hok)|exact Hlm|].
      intros st' Hh Ho. apply HQ; [|done]. apply (successor_unlinked _ k [Frame Left cb b rb] _ _ _ _ _ _ Hok); [by repeat constructor|exact Hh].
    + pose proof (Forall_inv Hk3) as Hs3. cbn in Hs3. subst s3.
      assert (Hk1 : Forall (fun f => f_side f = Left) ((Frame Left c3 p y3 :: k3) ++ [Frame Left cb b rb])) by (apply Forall_app; auto).
      assert (Er : T cb (plug (Frame Left c3 p y3 :: k3) (T cs E s sr)) b rb = plug ((Frame Left c3 p y3 :: k3) ++ [Frame Left cb b rb]) (T cs E s sr))
        by (by rewrite plug_app).
      rewrite Er in Hok. eapply erase_descendant; [exact H|exact Hl|by eapply successor_child|exact Hlm|].
      intros st' Hh Ho. apply HQ; [|exact Ho]. rewrite Er. eapply successor_unlinked in Hok; [exact Hok|exact Hk1|].
      rewrite <- app_assoc, holds_app. cbn [app]. rewrite !holds_join. exact Hh.
Qed.

(** The nodes that are left, in a red-black tree. *)
Lemma erase_color_ok L (res : Z * rbtree X) Q :
  unlinked L res ->
  (forall st' t, holds st' [] t -> rb_ok t -> inorder t = L -> only L res.2 st' -> Q st') ->
  wp (if negb (res.1 =? 0) then ____rb_erase_color augment_rotate res.1 res.2 else Ok res.2) Q.
Proof.
  destruct res as [reb st1]. cbn [fst snd]. intros (k & y & Hh & Hi & Hr) HQ. cbn [fst snd] in *. destruct Hr as [(-> & Hok)|(-> & Hk & -> & Hf)].
  - apply (HQ _ (plug k y)); [by rewrite <- holds_plug|done|done|by apply only_refl].
  - destruct (Z.eqb_spec (above k) 0) as [E0|E0]; [by destruct (Hk (at_top _ _ _ Hh E0))|]. cbn [negb]. unfold ____rb_erase_color.
    pose proof (holds_length _ _ _ Hh) as Hlen. change 0 with (root E).
    eapply erase_loop_ok; [exact Hh|constructor|exact Hf|exact Hk|lia|]. intros st' (t & Ht & Hok & Hi' & Ho). rewrite Hi in *. by apply (HQ _ t).
Qed.

End spec.

(** ** [rb_erase] *)

(** Every node of the tree is below some hole. *)
Lemma node_in_tree t L1 a L2 :
  inorder t = L1 ++ a :: L2 ->
  exists k c l r, t = plug k (T c l a r) /\ L1 = before k ++ inorder l /\ L2 = inorder r ++ after k.
Proof.
  revert L1 L2. induction t as [|c l IHl b r IHr]; intros L1 L2 H; cbn in H; [by destruct L1|].
  apply app_eq_inv in H as [(L & Hl & H)|(L & -> & H)].
  - destruct L as [|a' L]; cbn in H.
    + injection H as -> ->. exists [], c, l, r. rewrite !app_nil_r in *. by split_and!.
    + injection H as <- ->. destruct (IHl _ _ Hl) as (k & c' & l' & r' & -> & -> & ->).
      exists (k ++ [Frame Left c b r]), c', l', r'. rewrite plug_app, before_app, after_app. split_and!; [done..|]. cbn. by rewrite app_nil_r, <- app_assoc.
  - destruct L as [|a' L]; cbn in H.
    + injection H as -> <-. exists [], c, l, r. by rewrite !app_nil_r.
    + injection H as -> H. destruct (IHr _ _ H) as (k & c' & l' & r' & -> & -> & ->).
      exists (k ++ [Frame Right c a' l]), c', l', r'. rewrite plug_app, before_app, after_app. split_and!; [done|..|by rewrite app_nil_r]. cbn. by rewrite <- !app_assoc.
Qed.

Lemma rb_erase_ok {X} (st : rbtree X) t L1 a L2 :
  holds st [] t -> rb_ok t -> inorder t = L1 ++ a :: L2 ->
  exists st' t', rb_erase a st = Ok st' /\ holds st' [] t' /\ rb_ok t' /\ inorder t' = L1 ++ L2 /\ only (L1 ++ L2) st st'.
Proof.
  intros Ht Hok (k & c & l & r & -> & -> & ->)%node_in_tree. rewrite <- holds_plug in Ht.
  assert (Hw : wp (rb_erase a st) (fun st' => exists t', holds st' [] t' /\ rb_ok t' /\
    inorder t' = (before k ++ inorder l) ++ inorder r ++ after k /\ only ((before k ++ inorder l) ++ inorder r ++ after k) st st')).
  { unfold rb_erase. apply wp_bind. eapply erase_unlinks; [exact Ht|exact Hok|]. intros [reb st1] Hu Ho.
    apply (erase_color_ok dummy _ _ _ Hu). intros st' t' Ht' Hok' Hi Ho'. exists t'. rewrite <- app_assoc. split_and!; [done..|].
    intros b Hb. rewrite Ho' by done. apply Ho. unfold outside. set_solver. }
  apply wp_exists in Hw as (st' & E & t' & ? & ? & ? & ?). exists st', t'. by split_and!.
Qed.

(** ** [rb_next] *)

Lemma leftmost_from_ok {X} (st : rbtree X) t p fuel :
  repr (nodes st) p t -> t <> E -> (length (inorder t) <= fuel)%nat -> leftmost_from fuel (root t) st = Ok (hd 0 (inorder t)).
Proof.
  revert p fuel. induction t as [|c l IHl a r _]; intros p fuel Ht Hne Hf; [done|].
  cbn in Ht. destruct Ht as (Ha & Hok & Hl & _). cbn [inorder] in Hf. rewrite length_app in Hf. cbn in Hf.
  destruct fuel as [|fuel]; [lia|]. cbn [leftmost_from root]. unfold node_at. rewrite Ha. cbn [mbind outcome_bind rb_left].
  destruct l as [|cl ll la lr]; [done|]. rewrite (IHl a fuel Hl) by (done || lia).
  assert (Hla : addr_ok la) by apply Hl. cbn [root]. rewrite (proj2 (Z.eqb_neq la 0)) by (by apply addr_ok_nonzero). cbn. by destruct (inorder ll).
Qed.

Lemma ancestor_from_ok {X} (st : rbtree X) fuel k t :
  holds st k t -> t <> E -> (length k < fuel)%nat -> ancestor_from fuel (root t) st = Ok (hd 0 (after k)).
Proof.
  revert k t. induction fuel as [|fuel IH]; intros k t H Ht Hf; [lia|]. cbn [ancestor_from].
  pose proof (above_addr _ _ _ _ (ho_around _ _ _ H)) as Hab. pose proof (at_top _ _ _ H) as Htop.
  destruct t as [|c l a r]; [done|]. destruct (ho_tree _ _ _ H) as (Ha & _). unfold node_at. cbn [root]. rewrite Ha. cbn [mbind outcome_bind].
  rewrite rb_parent_word by done. destruct (Z.eqb_spec (above k) 0) as [E0|E0]; [by rewrite (Htop E0)|].
  destruct k as [|[s c' p y] k]; [done|]. pose proof (ho_around _ _ _ H) as (Hp & _). cbn [above f_addr] in *. rewrite Hp. cbn [mbind outcome_bind].
  pose proof (found_side _ _ _ _ _ _ _ _ H Hp Ht) as Hs. cbn [root] in Hs. destruct (a =? _); cbn [negb] in Hs; subst s; [|done].
  rewrite holds_join in H. apply (IH _ _ H); [done|cbn in Hf; lia].
Qed.

Lemma not_empty p c a : p = 0 \/ addr_ok p -> addr_ok a -> p <> a -> (word p c =? a) = false.
Proof.
  intros Hp Ha Hpa. apply Z.eqb_neq. intros E. apply Hpa. rewrite <- (word_parent p c Hp), E.
  transitivity (__rb_parent (word a Red)); [by rewrite word_red|]. apply word_parent. by right.
Qed.

Lemma rb_next_ok {X} (st : rbtree X) t L1 a L2 :
  holds st [] t -> inorder t = L1 ++ a :: L2 -> rb_next a st = Ok (hd 0 L2).
Proof.
  intros H (k & c & l & r & -> & -> & ->)%node_in_tree. rewrite <- holds_plug in H. pose proof (holds_length _ _ _ H) as Hlen.
  pose proof (ho_tree _ _ _ H) as (Ha & Hok & _ & Hr). unfold rb_next, RB_EMPTY_NODE, node_at. rewrite Ha. cbn [mbind outcome_bind __rb_parent_color rb_right].
  rewrite not_empty; [|by eapply above_addr, ho_around|done|].
  - cbn [inorder] in Hlen. rewrite length_app in Hlen. cbn in Hlen. destruct r as [|cr rl b rr].
    + by apply (ancestor_from_ok _ _ _ _ H); [|lia].
    + assert (Hb : addr_ok b) by apply Hr. cbn [root]. rewrite (proj2 (Z.eqb_neq b 0)) by (by apply addr_ok_nonzero). cbn [negb].
      rewrite (leftmost_from_ok st _ _ (S (size (nodes st))) Hr) by (done || lia). cbn. by destruct (inorder rl).
  - pose proof (ho_nodup _ _ _ H) as Hnd. destruct k as [|[s c' p y] k]; [intros E0; by eapply addr_ok_nonzero|].
    nodup_facts Hnd. cbn. congruence.
Qed.
