(* ===== verification/RbTreeCached.v ===== *)
(** * include/linux/rbtree.h: insertion by a comparison, and cached trees

    [rb_add] walks down a tree to the place of a new node, links it there and
    mends the colours. A cached tree ([rb_root_cached]) also keeps
    the leftmost node. Where the comparison agrees with the order of the nodes
    in the tree, the new node comes after those that are not greater. *)

From stdpp Require Import gmap sorting.
From Stdlib Require Import ZifyBool.
From S2P Require Import Prelude RbTree RbTreeShape RbTreeInsert RbTreeErase RbTreeDelete RbTreeSpec.

Local Open Scope Z_scope.

(** ** The code *)

(** [struct rb_node **link]: the word of the root, or that of a child. *)
Inductive rb_link := RootLink | ChildLink (parent : Z) (s : side).

Record rb_root_cached X := RbRootCached { rb_root : rbtree X; rb_leftmost : Z }.
Arguments RbRootCached {X} _ _.
Arguments rb_root {X} _.
Arguments rb_leftmost {X} _.

Section code.
Context {X : Type}.
Implicit Types st : rbtree X.

Definition read_link (link : rb_link) st : outcome Z :=
  match link with
  | RootLink => Ok (root_node st)
  | ChildLink p s => n ← node_at st p; Ok (child s n)
  end.

Definition write_link (link : rb_link) (v : Z) st : outcome (rbtree X) :=
  match link with
  | RootLink => Ok (set_root v st)
  | ChildLink p s => set_child s p v st
  end.

Definition rb_link_node (node parent : Z) (link : rb_link) st : outcome (rbtree X) :=
  st ← set_parent_color_word node parent st;
  st ← set_child Right node 0 st;
  st ← set_child Left node 0 st;
  write_link link node st.

Definition RB_EMPTY_ROOT st : bool := root_node st =? 0.
Definition RB_CLEAR_NODE (node : Z) st : outcome (rbtree X) := set_parent_color_word node node st.

Definition rb_first_cached (root : rb_root_cached X) : Z := rb_leftmost root.

Definition rb_insert_color_cached (node : Z) (root : rb_root_cached X) (leftmost : bool) : outcome (rb_root_cached X) :=
  let first := if leftmost then node else rb_leftmost root in
  st ← rb_insert_color node (rb_root root);
  Ok (RbRootCached st first).

(** The new root, and the new leftmost node if it changed. *)
Definition rb_erase_cached (node : Z) (root : rb_root_cached X) : outcome (Z * rb_root_cached X) :=
  '(leftmost, first) ←
    (if rb_leftmost root =? node then
       next ← rb_next node (rb_root root);
       Ok (next, next)
     else Ok (0, rb_leftmost root));
  st ← rb_erase node (rb_root root);
  Ok (leftmost, RbRootCached st first).

(** The same for augmented trees. *)
Definition rb_insert_augmented_cached (augment_rotate : Z -> Z -> rbtree X -> X) (node : Z) (root : rb_root_cached X) (newleft : bool) :
    outcome (rb_root_cached X) :=
  let first := if newleft then node else rb_leftmost root in
  st ← rb_insert_augmented augment_rotate node (rb_root root);
  Ok (RbRootCached st first).

Definition rb_erase_augmented_cached (augment_rotate augment_copy augment_propagate : Z -> Z -> rbtree X -> X) (node : Z) (root : rb_root_cached X) :
    outcome (rb_root_cached X) :=
  first ← (if rb_leftmost root =? node then rb_next node (rb_root root) else Ok (rb_leftmost root));
  st ← rb_erase_augmented augment_rotate augment_copy augment_propagate node (rb_root root);
  Ok (RbRootCached st first).

Section less.
Context (less : Z -> Z -> outcome bool).

Fixpoint walk_loop (fuel : nat) (node : Z) (link : rb_link) (parent : Z) (leftmost : bool) st : outcome (rb_link * Z * bool) :=
  match fuel with
  | O => NoFuel
  | S fuel =>
      v ← read_link link st;
      if negb (v =? 0) then
        let parent := v in
        before ← less node parent;
        if before : bool then walk_loop fuel node (ChildLink parent Left) parent leftmost st
        else walk_loop fuel node (ChildLink parent Right) parent false st
      else Ok (link, parent, leftmost)
  end.

Definition rb_add_cached (node : Z) (tree : rb_root_cached X) : outcome (Z * rb_root_cached X) :=
  '(link, parent, leftmost) ← walk_loop (S (size (nodes (rb_root tree)))) node RootLink 0 true (rb_root tree);
  st ← rb_link_node node parent link (rb_root tree);
  tree ← rb_insert_color_cached node (RbRootCached st (rb_leftmost tree)) leftmost;
  Ok (if leftmost : bool then node else 0, tree).

(** The walk of [rb_add] is the same, without [leftmost]. *)
Definition rb_add (node : Z) (tree : rbtree X) : outcome (rbtree X) :=
  '(link, parent, _) ← walk_loop (S (size (nodes tree))) node RootLink 0 true tree;
  st ← rb_link_node node parent link tree;
  rb_insert_color node st.

End less.

End code.

(** ** The walk down *)

Fixpoint height (t : tree) : nat := match t with E => 0 | T _ l _ r => S (Nat.max (height l) (height r)) end.

Lemma height_le t : (height t <= length (inorder t))%nat.
Proof. induction t; cbn; [done|]. rewrite length_app. cbn. lia. Qed.

(** A red-black tree is not higher than twice its black height, and has enough
    nodes for that. *)
Lemma rbt_height t c n : rbt t c n -> (height t <= 2 * n + match c with Red => 1 | Black => 0 end)%nat.
Proof. induction 1; cbn in *; [done|lia|]. destruct cl, cr; lia. Qed.

Lemma rbt_size t c n : rbt t c n -> (2 ^ n <= S (length (inorder t)))%nat.
Proof. induction 1; cbn [inorder]; rewrite ?Nat.pow_succ_r', ?length_app; cbn [length]; [done|lia|lia]. Qed.

Lemma rb_height t : rb_ok t -> (height t <= 2 * Nat.log2 (S (length (inorder t))))%nat.
Proof.
  intros [n Hn]. pose proof (rbt_height _ _ _ Hn) as Hh. cbv iota in Hh. pose proof (rbt_size _ _ _ Hn) as Hs. apply Nat.log2_le_pow2 in Hs; lia.
Qed.

Definition link_of (k : list frame) : rb_link := match k with [] => RootLink | Frame s _ a _ :: _ => ChildLink a s end.

Section walk.
Context {X : Type}.
Implicit Types st : rbtree X.

Lemma read_link_ok st k t : holds st k t -> read_link (link_of k) st = Ok (root t).
Proof.
  intros [Hk _ _]. destruct k as [|[s c a y] k]; cbn in *; [by rewrite Hk|]. destruct Hk as (Ha & _). unfold node_at. rewrite Ha. by destruct s.
Qed.

Lemma wp_write_link st h rt k x v Q :
  nodes st = h -> root_node st = rt -> around h rt k x ->
  (forall st', nodes st' = relink k v h -> root_node st' = match k with [] => v | _ => rt end -> Q st') ->
  wp (write_link (link_of k) v st) Q.
Proof.
  intros <- <- Hk HQ. destruct k as [|[s c a y] k]; [by apply HQ|]. cbn in Hk. destruct Hk as (Ha & _). cbn [link_of write_link].
  eapply wp_set_child; [done..|]. intros st' Hh Hr. apply HQ; [|done]. rewrite Hh. by destruct s.
Qed.

Lemma link_node_ok st k a Q :
  holds st k E -> a ∉ outside k -> is_Some (nodes st !! a) -> addr_ok a ->
  (forall st', holds st' k (T Red E a E) -> only (a :: outside k) st st' -> Q st') -> wp (rb_link_node a (above k) (link_of k) st) Q.
Proof.
  intros H Ha [[pc r l] Hn] Hok HQ. pose proof (ho_around _ _ _ H) as Hk.
  assert (Hnd : NoDup (a :: outside k)) by (apply NoDup_cons; split; [done|apply H]). unfold rb_link_node. start st. repeat step.
  eapply wp_write_link; [eassumption..|by rewrite !around_put|]. intros st4 Hh Hr. destruct k as [|[s c p y] k].
  - cbn [relink] in Hh. apply HQ; [|unchanged]. split; [done| |done]. rewrite Hh. cbn [repr root above]. rewrite word_red. in_place.
  - pose proof Hnd as Hd. nodup_facts Hd. cbn [relink f_addr] in Hh. cbn in Hk. destruct_and? Hk.
    apply HQ; [|unchanged]. split; [rewrite Hh, Hr; cbn [around root f_addr f_other]; in_place| |done].
    rewrite Hh. cbn [repr root above f_addr]. rewrite word_red. in_place.
Qed.

(** ** The place of a new node *)

(** The nodes that the new node goes behind are [L1]. *)
Section place.
Context (lt : Z -> bool) (L1 L2 : list Z).
Hypothesis not_before : forall b, b ∈ L1 -> lt b = false.
Hypothesis before_all : forall b, b ∈ L2 -> lt b = true.

(** A subtree that holds the end [A] of [L1] and the start [B] of [L2]: which
    way the place is. *)
Lemma place_left k c l b r A B :
  inorder (T c l b r) = A ++ B -> L1 = before k ++ A -> L2 = B ++ after k -> lt b = true ->
  exists B', inorder l = A ++ B' /\ L2 = B' ++ after (Frame Left c b r :: k).
Proof.
  intros H E1 E2 Hb. cbn in H. apply app_eq_inv in H as [(L & Hl & HB)|(L & HA & HB)].
  - exists L. split; [done|]. rewrite E2, HB. cbn. by rewrite <- app_assoc.
  - destruct L as [|b' L]; cbn in HB.
    + exists []. rewrite app_nil_r in *. split; [done|]. by rewrite E2, <- HB.
    + injection HB as <- HB. rewrite not_before in Hb; [done|]. rewrite E1, HA. set_solver.
Qed.

Lemma place_right k c l b r A B :
  inorder (T c l b r) = A ++ B -> L1 = before k ++ A -> L2 = B ++ after k -> lt b = false ->
  exists A', inorder r = A' ++ B /\ L1 = before (Frame Right c b l :: k) ++ A'.
Proof.
  intros H E1 E2 Hb. cbn in H. apply app_eq_inv in H as [(L & Hl & HB)|(L & HA & HB)].
  - rewrite before_all in Hb; [done|]. rewrite E2, HB. set_solver.
  - destruct L as [|b' L]; cbn in HB.
    + rewrite before_all in Hb; [done|]. rewrite E2, <- HB. set_solver.
    + injection HB as <- HB. exists L. split; [done|]. rewrite E1, HA. cbn. by rewrite <- !app_assoc.
Qed.

Lemma walk_loop_ok (less : Z -> Z -> outcome bool) node st t k A B fuel :
  (forall b, b ∈ L1 ++ L2 -> less node b = Ok (lt b)) ->
  holds st k t -> inorder t = A ++ B -> L1 = before k ++ A -> L2 = B ++ after k -> (height t < fuel)%nat ->
  exists k', walk_loop less fuel node (link_of k) (above k) (bool_decide (before k = [])) st = Ok (link_of k', above k', bool_decide (L1 = [])) /\
    plug k t = plug k' E /\ before k' = L1 /\ after k' = L2.
Proof.
  intros Hless. revert k A B fuel. induction t as [|c l IHl b r IHr]; intros k A B fuel H Hi E1 E2 Hf; (destruct fuel as [|fuel]; [lia|]); cbn [walk_loop].
  - rewrite (read_link_ok _ _ _ H). cbn in Hi. symmetry in Hi. apply app_eq_nil in Hi as [-> ->]. rewrite app_nil_r in E1. cbn in E2. subst. by exists k.
  - rewrite (read_link_ok _ _ _ H). cbn [root mbind outcome_bind].
    assert (Hok : addr_ok b) by apply (ho_tree _ _ _ H). rewrite (proj2 (Z.eqb_neq b 0)) by (by apply addr_ok_nonzero). cbn [negb].
    assert (Hin : b ∈ inorder (plug k (T c l b r))) by (rewrite plug_perm; cbn; set_solver).
    rewrite inorder_plug, Hi in Hin. rewrite Hless by (rewrite E1, E2; set_solver). cbn [mbind outcome_bind].
    cbn in Hf. destruct (lt b) eqn:Hb.
    + destruct (place_left _ _ _ _ _ _ _ Hi E1 E2 Hb) as (B' & Hl & E2'). apply (holds_join st (Frame Left c b r)) in H.
      destruct (IHl (Frame Left c b r :: k) A B' fuel H Hl) as (k' & Hrun & ? & ? & ?); [cbn; by rewrite app_nil_r|done|lia|].
      exists k'. cbn in Hrun. rewrite app_nil_r in Hrun. by split_and!.
    + destruct (place_right _ _ _ _ _ _ _ Hi E1 E2 Hb) as (A' & Hr & E1'). apply (holds_join st (Frame Right c b l)) in H.
      destruct (IHr (Frame Right c b l :: k) A' B fuel H Hr) as (k' & Hrun & ? & ? & ?); [done|done|lia|].
      exists k'. rewrite bool_decide_eq_false_2 in Hrun by (cbn; intros E0; by destruct (before k), (inorder l)). by split_and!.
Qed.

End place.
End walk.

(** ** Ordered lists *)

(** [a] is put behind the elements that are not greater. *)
Fixpoint enqueue (key : Z -> Z) (a : Z) (L : list Z) : list Z :=
  match L with
  | [] => [a]
  | b :: L' => if key a <? key b then a :: L else b :: enqueue key a L'
  end.

Definition ordered (key : Z -> Z) (L : list Z) : Prop := StronglySorted (fun a b => key a <= key b) L.

Lemma enqueue_split key a L :
  ordered key L -> exists L1 L2, L = L1 ++ L2 /\ enqueue key a L = L1 ++ a :: L2 /\
    (forall b, b ∈ L1 -> (key a <? key b) = false) /\ (forall b, b ∈ L2 -> (key a <? key b) = true).
Proof.
  induction 1 as [|b L HL IH Hb]; [by exists [], []; split_and!; [done..|set_solver|set_solver]|]. cbn. destruct (key a <? key b) eqn:E.
  - exists [], (b :: L). split_and!; [done..|set_solver|]. intros b' [->|Hb']%elem_of_cons; [done|].
    rewrite Forall_forall in Hb. specialize (Hb _ Hb'). lia.
  - destruct IH as (L1 & L2 & -> & -> & H1 & H2). exists (b :: L1), L2. split_and!; [done..| |done].
    intros b' [->|Hb']%elem_of_cons; auto.
Qed.

Lemma enqueue_perm key a L : enqueue key a L ≡ₚ a :: L.
Proof. induction L as [|b L IH]; cbn; [done|]. destruct (_ <? _); [done|]. rewrite IH. solve_Permutation. Qed.

Lemma enqueue_ordered key a L : ordered key L -> ordered key (enqueue key a L).
Proof.
  induction 1 as [|b L HL IH Hb]; cbn; [by repeat constructor|]. rewrite Forall_forall in Hb. destruct (key a <? key b) eqn:E.
  - constructor; [by constructor; [|apply Forall_forall]|]. constructor; [lia|]. apply Forall_forall. intros b' Hb'. specialize (Hb _ Hb'). lia.
  - constructor; [done|]. apply Forall_forall. intros b' Hb'. rewrite enqueue_perm in Hb'. apply elem_of_cons in Hb' as [->|Hb']; [lia|auto].
Qed.

Lemma ordered_remove key L1 a L2 : ordered key (L1 ++ a :: L2) -> ordered key (L1 ++ L2).
Proof.
  unfold ordered. rewrite !StronglySorted_app. intros (H & H1 & H2). apply StronglySorted_inv in H2 as [H2 _]. split_and!; [|done|done].
  intros x y Hx Hy. apply H; set_solver.
Qed.

(** ** The operations *)

(** The nodes at [st] form a red-black tree; in order they are [L]. *)
Definition tree_of {X} (st : rbtree X) (L : list Z) : Prop := exists t, holds st [] t /\ rb_ok t /\ inorder t = L.

(** The same for a cached tree. *)
Definition cached_of {X} (root : rb_root_cached X) (L : list Z) : Prop := tree_of (rb_root root) L /\ rb_leftmost root = hd 0 L.

Section operations.
Context {X : Type}.
Implicit Types st : rbtree X.

Lemma tree_of_nil h (x : X) : tree_of (RbRoot h 0 x) [].
Proof. exists E. split_and!; [|by exists O; constructor|done]. by split; [| |constructor]. Qed.

Lemma tree_of_nodup st L : tree_of st L -> NoDup L.
Proof. intros (t & [_ _ H] & _ & <-). unfold outside in H. cbn in H. by rewrite app_nil_r in H. Qed.

Lemma tree_of_mapped st L a : tree_of st L -> a ∈ L -> is_Some (nodes st !! a) /\ addr_ok a.
Proof. intros (t & [_ H _] & _ & <-) Ha. by eapply repr_mapped. Qed.

Lemma tree_of_empty st L : tree_of st L -> RB_EMPTY_ROOT st = bool_decide (L = []).
Proof.
  intros (t & [Hr Ht _] & _ & <-). cbn in Hr. unfold RB_EMPTY_ROOT. rewrite Hr. destruct t as [|c l a r]; [done|]. cbn [root].
  rewrite bool_decide_eq_false_2 by (cbn; by destruct (inorder l)). apply Z.eqb_neq, addr_ok_nonzero, Ht.
Qed.

(** A tree is not changed by a write to another node. *)
Lemma tree_of_put st L a n : tree_of st L -> a ∉ L -> tree_of (put_node a n st) L.
Proof.
  intros (t & [Hr Ht Hnd] & Hok & <-) Ha. exists t. split_and!; [|done|done]. split; [done| |done]. cbn [nodes put_node]. by rewrite repr_put.
Qed.

Lemma rb_erase_tree st L1 a L2 :
  tree_of st (L1 ++ a :: L2) -> exists st', rb_erase a st = Ok st' /\ tree_of st' (L1 ++ L2) /\ only (L1 ++ L2) st st'.
Proof. intros (t & Ht & Hok & Hi). destruct (rb_erase_ok _ _ _ _ _ Ht Hok Hi) as (st' & t' & ? & ? & ? & ? & ?). exists st'. split_and!; [done|by exists t'|done]. Qed.

Lemma rb_next_tree st L1 a L2 : tree_of st (L1 ++ a :: L2) -> rb_next a st = Ok (hd 0 L2).
Proof. intros (t & Ht & _ & Hi). by eapply rb_next_ok. Qed.

Lemma rb_erase_cached_ok (root : rb_root_cached X) L1 a L2 :
  cached_of root (L1 ++ a :: L2) ->
  exists root', rb_erase_cached a root = Ok (if bool_decide (L1 = []) then hd 0 L2 else 0, root') /\
    cached_of root' (L1 ++ L2) /\ only (L1 ++ L2) (rb_root root) (rb_root root').
Proof.
  intros [Ht Hf]. destruct (rb_erase_tree _ _ _ _ Ht) as (st' & Hrun & Ht' & Ho). unfold rb_erase_cached. rewrite Hf, (rb_next_tree _ _ _ _ Ht).
  destruct L1 as [|b L1].
  - cbn [app hd]. rewrite Z.eqb_refl. cbn [mbind outcome_bind]. rewrite Hrun. cbn [mbind outcome_bind]. by eexists.
  - pose proof (tree_of_nodup _ _ Ht) as Hnd. nodup_facts Hnd.
    cbn [app hd]. rewrite (proj2 (Z.eqb_neq b a)) by done. cbn [mbind outcome_bind]. rewrite Hrun. cbn [mbind outcome_bind]. by eexists.
Qed.

(** A node is linked into the place of a leaf, and the colours are mended. *)
Lemma link_insert_ok st k a Q :
  holds st k E -> rb_ok (plug k E) -> a ∉ outside k -> is_Some (nodes st !! a) -> addr_ok a ->
  (forall st', tree_of st' (before k ++ a :: after k) -> only (before k ++ a :: after k) st st' -> Q st') ->
  wp (st ← rb_link_node a (above k) (link_of k) st; rb_insert_color a st) Q.
Proof.
  intros H Hok Ha Hm Hao HQ. apply wp_bind. eapply link_node_ok; [done..|]. intros st1 H1 Ho1. unfold rb_insert_color.
  eapply rb_insert_ok; [done..|]. intros st' (t & Ht & Hrb & Hi & Ho). rewrite inorder_plug in Hi, Ho. cbn in Hi, Ho.
  apply HQ; [by exists t|]. intros b Hb. rewrite Ho by done. apply Ho1. unfold outside. set_solver.
Qed.

End operations.

Section add.
Context {X : Type} (less : Z -> Z -> outcome bool) (lt : Z -> bool) (node : Z) (st : rbtree X) (L1 L2 : list Z).
Hypothesis tree : tree_of st (L1 ++ L2).
Hypothesis fresh_node : node ∉ L1 ++ L2.
Hypothesis mapped_node : is_Some (nodes st !! node).
Hypothesis aligned_node : addr_ok node.
Hypothesis compares : forall b, b ∈ L1 ++ L2 -> less node b = Ok (lt b).
Hypothesis not_before : forall b, b ∈ L1 -> lt b = false.
Hypothesis before_all : forall b, b ∈ L2 -> lt b = true.

(** The walk ends at a leaf between [L1] and [L2]. *)
Lemma walk_ok : exists k,
  walk_loop less (S (size (nodes st))) node RootLink 0 true st = Ok (link_of k, above k, bool_decide (L1 = [])) /\
  holds st k E /\ rb_ok (plug k E) /\ before k = L1 /\ after k = L2.
Proof.
  destruct tree as (t & Ht & Hok & Hi). pose proof (holds_length _ _ _ Ht) as Hlen. pose proof (height_le t).
  destruct (walk_loop_ok lt L1 L2 not_before before_all less node st t [] L1 L2 (S (size (nodes st))) compares Ht Hi) as (k & Hrun & Hp & Hb & Ha);
    [done|by rewrite app_nil_r|cbn in Hlen; lia|].
  cbn in Hp. exists k. split_and!; [exact Hrun|by rewrite holds_plug, <- Hp|by rewrite <- Hp|done|done].
Qed.

Lemma rb_add_ok : exists st', rb_add less node st = Ok st' /\ tree_of st' (L1 ++ node :: L2) /\ only (L1 ++ node :: L2) st st'.
Proof.
  destruct walk_ok as (k & Hrun & Hk & Hok & <- & <-). unfold rb_add. rewrite Hrun. cbn [mbind outcome_bind].
  apply wp_exists. eapply link_insert_ok; [done..|]. intros st' Ht Ho. by split.
Qed.

Lemma rb_add_cached_ok first : first = hd 0 (L1 ++ L2) ->
  exists root', rb_add_cached less node (RbRootCached st first) = Ok (if bool_decide (L1 = []) then node else 0, root') /\
    cached_of root' (L1 ++ node :: L2) /\ only (L1 ++ node :: L2) st (rb_root root').
Proof.
  intros Hfirst. destruct walk_ok as (k & Hrun & Hk & Hok & <- & <-).
  assert (Hw : wp (st ← rb_link_node node (above k) (link_of k) st; rb_insert_color node st)
    (fun st' => tree_of st' (before k ++ node :: after k) /\ only (before k ++ node :: after k) st st')) by (by eapply link_insert_ok).
  apply wp_exists in Hw as (st' & E & Ht & Ho). unfold rb_add_cached. cbn [rb_root rb_leftmost]. rewrite Hrun. cbn [mbind outcome_bind].
  destruct (rb_link_node _ _ _ _) as [st1| |]; [|done..]. cbn [mbind outcome_bind] in E |- *. unfold rb_insert_color_cached. cbn [rb_root rb_leftmost].
  rewrite E. cbn [mbind outcome_bind]. eexists. split; [done|]. split; [split|]; [done| |done]. cbn [rb_leftmost]. subst first.
  by destruct (before k).
Qed.

End add.

(** C22. Insertion by a comparison: the new node is in the tree behind the nodes
    that are not greater, the tree is a red-black tree still, and no other
    node of memory changed. *)
Theorem rb_add_spec {X} (less : Z -> Z -> outcome bool) (key : Z -> Z) (node : Z) (st : rbtree X) (L : list Z)
  (Htree : tree_of st L) (Hordered : ordered key L) (Hfresh : node ∉ L) (Hmapped : is_Some (nodes st !! node)) (Haligned : addr_ok node)
  (Hless : forall b, b ∈ L -> less node b = Ok (key node <? key b)) :
  exists st', rb_add less node st = Ok st' /\ tree_of st' (enqueue key node L) /\ ordered key (enqueue key node L) /\
    forall b, b ∉ node :: L -> nodes st' !! b = nodes st !! b.
Proof.
  pose proof (enqueue_ordered key node L Hordered) as Ho. destruct (enqueue_split key node L Hordered) as (L1 & L2 & -> & El & H1 & H2). rewrite El in *.
  destruct (rb_add_ok less (fun b => key node <? key b) node st L1 L2) as (st' & Hrun & Ht & Hsame); [done..|].
  exists st'. split_and!; [done..|]. intros b Hb. apply Hsame. set_solver.
Qed.

(** A node at each of seven addresses, in an order that makes the tree turn
    both ways. *)
Definition example_nodes : rbtree () :=
  RbRoot (list_to_map ((fun a => (a, RbNode a 0 0)) <$> [8; 16; 24; 32; 40; 48; 56])) 0 ().

Definition example_less (a b : Z) : outcome bool := Ok (a <? b).

Definition example_tree : rbtree () :=
  match foldl (fun st a => st ← st; rb_add example_less a st) (Ok example_nodes) [8; 24; 16; 56; 40; 48] with
  | Ok st => st
  | _ => example_nodes
  end.

Definition example_shape : tree :=
  T Black (T Black E 8 E) 16 (T Red (T Black E 24 E) 40 (T Black (T Red E 48 E) 56 E)).

Lemma example_tree_of : tree_of example_tree [8; 16; 24; 40; 48; 56].
Proof.
  exists example_shape. split_and!; [|exists 2%nat; repeat econstructor|done].
  split; [by vm_compute| |by apply (bool_decide_unpack _); vm_compute]. vm_compute. repeat split; done.
Qed.

Lemma rb_add_spec_witness :
  exists st', rb_add example_less 32 example_tree = Ok st' /\ tree_of st' [8; 16; 24; 32; 40; 48; 56] /\
    ordered (fun a => a) [8; 16; 24; 32; 40; 48; 56] /\ forall b, b ∉ [32; 8; 16; 24; 40; 48; 56] -> nodes st' !! b = nodes example_tree !! b.
Proof.
  apply (rb_add_spec example_less (fun a => a) 32 example_tree [8; 16; 24; 40; 48; 56]).
  - apply example_tree_of.
  - repeat (constructor; [|by apply (bool_decide_unpack _); vm_compute]). constructor.
  - by apply (bool_decide_unpack _); vm_compute.
  - by eexists.
  - by split.
  - done.
Defined.

(** C23. The walk to the place of a new node passes at most twice the binary
    logarithm of the number of nodes plus one. *)
Theorem add_walk_logarithmic {X} (less : Z -> Z -> outcome bool) (key : Z -> Z) (node : Z) (st : rbtree X) (L : list Z)
  (Htree : tree_of st L) (Hordered : ordered key L) (Hless : forall b, b ∈ L -> less node b = Ok (key node <? key b)) :
  exists link parent leftmost,
    walk_loop less (S (2 * Nat.log2 (S (length L)))) node RootLink 0 true st = Ok (link, parent, leftmost) /\ read_link link st = Ok 0.
Proof.
  destruct Htree as (t & Ht & Hok & Hi). pose proof (rb_height t Hok) as Hh. rewrite Hi in Hh.
  destruct (enqueue_split key node L Hordered) as (L1 & L2 & EL & _ & H1 & H2). rewrite EL in *.
  destruct (walk_loop_ok _ L1 L2 H1 H2 less node st t [] L1 L2 (S (2 * Nat.log2 (S (length (L1 ++ L2))))) Hless Ht Hi) as (k & Hrun & Hp & _);
    [done|by rewrite app_nil_r|lia|].
  eexists _, _, _. split; [exact Hrun|]. apply (read_link_ok _ _ E). by rewrite holds_plug, <- Hp.
Qed.

Lemma add_walk_logarithmic_witness :
  exists link parent leftmost, walk_loop example_less 5 32 RootLink 0 true example_tree = Ok (link, parent, leftmost) /\ read_link link example_tree = Ok 0.
Proof.
  apply (add_walk_logarithmic example_less (fun a => a) 32 example_tree [8; 16; 24; 40; 48; 56]).
  - apply example_tree_of.
  - repeat (constructor; [|by apply (bool_decide_unpack _); vm_compute]). constructor.
  - done.
Defined.

(** C21. Removal, with any callbacks that keep data about the subtrees: the other
    nodes stay in a red-black tree in their order, and nothing else of memory
    changed, the removed node included. *)
Theorem rb_erase_augmented_spec {X} (augment_rotate augment_copy augment_propagate : Z -> Z -> rbtree X -> X) (st : rbtree X) (L1 : list Z) (a : Z) (L2 : list Z)
  (Htree : tree_of st (L1 ++ a :: L2)) :
  exists st', rb_erase_augmented augment_rotate augment_copy augment_propagate a st = Ok st' /\ tree_of st' (L1 ++ L2) /\
    forall b, b ∉ L1 ++ L2 -> nodes st' !! b = nodes st !! b.
Proof.
  destruct Htree as (t & Ht & Hok & Hi). destruct (node_in_tree _ _ _ _ Hi) as (k & c & l & r & -> & -> & ->). rewrite <- holds_plug in Ht.
  apply wp_exists. unfold rb_erase_augmented. apply wp_bind. eapply erase_unlinks; [done..|]. intros [reb st1] Hu Ho.
  eapply (erase_color_ok augment_rotate _ (reb, st1)); [done|]. intros st' t' Ht' Hok' Hi' Ho'. rewrite <- app_assoc. split; [by exists t'|].
  intros b Hb. rewrite Ho' by done. apply Ho. unfold outside. set_solver.
Qed.

(** The root, which has two children, goes. *)
Lemma rb_erase_augmented_spec_witness :
  exists st', rb_erase_augmented (fun _ _ _ => ()) (fun _ _ _ => ()) (fun _ _ _ => ()) 16 example_tree = Ok st' /\ tree_of st' [8; 24; 40; 48; 56] /\
    forall b, b ∉ [8; 24; 40; 48; 56] -> nodes st' !! b = nodes example_tree !! b.
Proof. apply (rb_erase_augmented_spec _ _ _ example_tree [8] 16 [24; 40; 48; 56]). apply example_tree_of. Defined.
