(* ===== verification/Timerqueue.v ===== *)
(** * lib/timerqueue.c: timers in the order of their expiry

    A cached red-black tree of timers. It refines a list that is sorted by the
    expiry, in which timers of the same expiry keep the order in which they
    were added. *)

From stdpp Require Import gmap sorting.
From Stdlib Require Import ZifyBool.
From S2P Require Import Prelude RbTree RbTreeShape RbTreeSpec RbTreeCached.

Local Open Scope Z_scope.

(** ** The code *)

(** A [timerqueue_node] starts with its [rb_node], so that both have the same
    address; [expires] reads the field of that name. *)
Section code.
Context (expires : Z -> outcome Z).

Definition timerqueue_head := rb_root_cached ().

Definition __timerqueue_less (a b : Z) : outcome bool :=
  ea ← expires a;
  eb ← expires b;
  Ok (ea <? eb).

(** [WARN_ON_ONCE] of include/asm/bug.h evaluates its condition and nothing
    else. *)
Definition timerqueue_add (head : timerqueue_head) (node : Z) : outcome (bool * timerqueue_head) :=
  n ← node_at (rb_root head) node;
  let _ := negb (RB_EMPTY_NODE node n) in
  '(first, head) ← rb_add_cached __timerqueue_less node head;
  Ok (negb (first =? 0), head).

Definition timerqueue_del (head : timerqueue_head) (node : Z) : outcome (bool * timerqueue_head) :=
  n ← node_at (rb_root head) node;
  let _ := RB_EMPTY_NODE node n in
  '(_, head) ← rb_erase_cached node head;
  st ← RB_CLEAR_NODE node (rb_root head);
  Ok (negb (RB_EMPTY_ROOT st), RbRootCached st (rb_leftmost head)).

Definition timerqueue_iterate_next (head : timerqueue_head) (node : Z) : outcome Z :=
  if node =? 0 then Ok 0
  else
    next ← rb_next node (rb_root head);
    if next =? 0 then Ok 0 else Ok next.

Definition timerqueue_getnext (head : timerqueue_head) : Z := rb_first_cached head.

Definition timerqueue_init (node : Z) (st : rbtree ()) : outcome (rbtree ()) := RB_CLEAR_NODE node st.

Definition timerqueue_init_head (head : timerqueue_head) : timerqueue_head := RbRootCached (set_root 0 (rb_root head)) 0.

End code.

(** ** The queue implements the list *)

Section spec.
Context (expires : Z -> outcome Z) (key : Z -> Z).

(** The queue holds the timers [L], whose expiry can be read. *)
Definition queue_of (head : timerqueue_head) (L : list Z) : Prop :=
  cached_of head L /\ ordered key L /\ forall a, a ∈ L -> expires a = Ok (key a).

Lemma queue_of_nodup head L : queue_of head L -> NoDup L.
Proof. intros [[Ht _] _]. by eapply tree_of_nodup. Qed.

Lemma timerqueue_add_ok head L a :
  queue_of head L -> a ∉ L -> is_Some (nodes (rb_root head) !! a) -> addr_ok a -> expires a = Ok (key a) ->
  exists head', timerqueue_add expires head a = Ok (hd 0 (enqueue key a L) =? a, head') /\
    queue_of head' (enqueue key a L) /\ only (a :: L) (rb_root head) (rb_root head').
Proof.
  intros ([Ht Hf] & Hs & He) Ha [n Hn] Hok Hea. pose proof (enqueue_ordered key a L Hs) as Hs'.
  destruct (enqueue_split key a L Hs) as (L1 & L2 & -> & El & H1 & H2). rewrite El in *. destruct head as [st first]. cbn in *.
  destruct (rb_add_cached_ok (__timerqueue_less expires) (fun b => key a <? key b) a st L1 L2) with (first := first) as (root' & Hrun & Hc & Ho);
    [done|done|by exists n|done| |done|done|done|].
  { intros b Hb. unfold __timerqueue_less. rewrite Hea, (He _ Hb). done. }
  unfold timerqueue_add, node_at. cbn [rb_root]. rewrite Hn. cbn [mbind outcome_bind]. rewrite Hrun. cbn [mbind outcome_bind].
  exists root'. split_and!.
  - f_equal. f_equal. destruct L1 as [|b L1]; cbn.
    + rewrite Z.eqb_refl. by rewrite (proj2 (Z.eqb_neq a 0)) by (by apply addr_ok_nonzero).
    + symmetry. apply Z.eqb_neq. set_solver.
  - split_and!; [done..|]. intros b Hb. assert (b = a \/ b ∈ L1 ++ L2) as [->|Hb'] by set_solver; auto.
  - intros b Hb. apply Ho. set_solver.
Qed.

Lemma timerqueue_del_ok head L1 a L2 :
  queue_of head (L1 ++ a :: L2) ->
  exists head', timerqueue_del head a = Ok (negb (bool_decide (L1 ++ L2 = [])), head') /\
    queue_of head' (L1 ++ L2) /\ only (L1 ++ a :: L2) (rb_root head) (rb_root head') /\
    exists n, nodes (rb_root head') !! a = Some n /\ RB_EMPTY_NODE a n = true.
Proof.
  intros (Hc & Hs & He). pose proof (tree_of_nodup _ _ (proj1 Hc)) as Hnd.
  destruct (tree_of_mapped _ _ a (proj1 Hc)) as [[n Hn] Hok]; [set_solver|].
  destruct (rb_erase_cached_ok _ _ _ _ Hc) as (root' & Hrun & [Ht' Hf'] & Ho).
  assert (Ha : a ∉ L1 ++ L2) by (nodup_facts Hnd; by apply not_elem_of_app).
  unfold timerqueue_del. unfold node_at at 1. rewrite Hn. cbn [mbind outcome_bind]. rewrite Hrun. cbn [mbind outcome_bind].
  pose proof (Ho a Ha) as Hn'. rewrite Hn in Hn'. unfold RB_CLEAR_NODE, set_parent_color_word, node_at. rewrite Hn'. cbn [mbind outcome_bind].
  assert (Ht2 : tree_of (put_node a (RbNode a (rb_right n) (rb_left n)) (rb_root root')) (L1 ++ L2)) by (by apply tree_of_put).
  rewrite (tree_of_empty _ _ Ht2). eexists. split; [done|]. split_and!.
  - split; [by split|]. split; [by eapply ordered_remove|]. intros b Hb. apply He. set_solver.
  - intros b Hb. cbn. rewrite lookup_insert_ne by set_solver. apply Ho. set_solver.
  - eexists. cbn. rewrite lookup_insert_eq. split; [done|]. apply Z.eqb_refl.
Qed.

Lemma timerqueue_iterate_next_ok head L1 a L2 :
  queue_of head (L1 ++ a :: L2) -> timerqueue_iterate_next head a = Ok (hd 0 L2).
Proof.
  intros ([Ht _] & _). destruct (tree_of_mapped _ _ a Ht) as [_ Hok]; [set_solver|]. unfold timerqueue_iterate_next.
  rewrite (proj2 (Z.eqb_neq a 0)) by (by apply addr_ok_nonzero). rewrite (rb_next_tree _ _ _ _ Ht). cbn [mbind outcome_bind].
  by destruct (Z.eqb_spec (hd 0 L2) 0) as [->|].
Qed.

Lemma timerqueue_getnext_ok head L : queue_of head L -> timerqueue_getnext head = hd 0 L.
Proof. by intros [[_ H] _]. Qed.

End spec.

(** ** Runs *)

Inductive tq_op := TqAdd (a : Z) | TqDel (a : Z) | TqFirst | TqNext (a : Z).

Definition tq_step (expires : Z -> outcome Z) (op : tq_op) (head : timerqueue_head) : outcome (Z * timerqueue_head) :=
  match op with
  | TqAdd a => '(b, head) ← timerqueue_add expires head a; Ok (Z.b2z b, head)
  | TqDel a => '(b, head) ← timerqueue_del head a; Ok (Z.b2z b, head)
  | TqFirst => Ok (timerqueue_getnext head, head)
  | TqNext a => r ← timerqueue_iterate_next head a; Ok (r, head)
  end.

Fixpoint tq_run (expires : Z -> outcome Z) (ops : list tq_op) (head : timerqueue_head) : outcome (list Z * timerqueue_head) :=
  match ops with
  | [] => Ok ([], head)
  | op :: ops =>
      '(r, head) ← tq_step expires op head;
      '(rs, head) ← tq_run expires ops head;
      Ok (r :: rs, head)
  end.

(** The same on the list: what is returned, and the list after it. *)
Definition list_remove (a : Z) (L : list Z) : list Z := filter (fun b => b <> a) L.

Fixpoint successor_in (a : Z) (L : list Z) : Z :=
  match L with
  | [] => 0
  | b :: L => if b =? a then hd 0 L else successor_in a L
  end.

Definition tq_spec (key : Z -> Z) (op : tq_op) (L : list Z) : Z * list Z :=
  match op with
  | TqAdd a => let L' := enqueue key a L in (Z.b2z (hd 0 L' =? a), L')
  | TqDel a => let L' := list_remove a L in (Z.b2z (negb (bool_decide (L' = []))), L')
  | TqFirst => (hd 0 L, L)
  | TqNext a => (successor_in a L, L)
  end.

Fixpoint tq_spec_run (key : Z -> Z) (ops : list tq_op) (L : list Z) : list Z * list Z :=
  match ops with
  | [] => ([], L)
  | op :: ops =>
      let '(r, L) := tq_spec key op L in
      let '(rs, L) := tq_spec_run key ops L in
      (r :: rs, L)
  end.

(** A timer is added when it is not queued, and only queued timers are removed
    or asked for the next. [M] are the timers in memory. *)
Definition tq_pre (M : list Z) (op : tq_op) (L : list Z) : bool :=
  match op with
  | TqAdd a => bool_decide (a ∈ M) && negb (bool_decide (a ∈ L))
  | TqDel a | TqNext a => bool_decide (a ∈ L)
  | TqFirst => true
  end.

Fixpoint tq_valid (key : Z -> Z) (M : list Z) (ops : list tq_op) (L : list Z) : bool :=
  match ops with
  | [] => true
  | op :: ops => tq_pre M op L && tq_valid key M ops (tq_spec key op L).2
  end.

Section refinement.
Context (expires : Z -> outcome Z) (key : Z -> Z) (M : list Z).

(** The timers of [M] are in memory. *)
Definition in_memory (st : rbtree ()) : Prop := forall a, a ∈ M -> is_Some (nodes st !! a) /\ addr_ok a /\ expires a = Ok (key a).

(** What the operations leave is in memory still. *)
Lemma in_memory_only st st' L : in_memory st -> only L st st' -> (forall a, a ∈ L -> is_Some (nodes st' !! a)) -> in_memory st'.
Proof.
  intros Hm Ho HL a Ha. destruct (Hm a Ha) as (Hs & Hr). split; [|done].
  destruct (decide (a ∈ L)) as [Hin|Hn]; [by apply HL|by rewrite (Ho _ Hn)].
Qed.

Lemma list_remove_id a L : a ∉ L -> list_remove a L = L.
Proof.
  unfold list_remove. induction L as [|b L IH]; [done|]. rewrite not_elem_of_cons. intros [Hb HL].
  by rewrite filter_cons, decide_True, IH by congruence.
Qed.

Lemma list_remove_mid L1 a L2 : NoDup (L1 ++ a :: L2) -> list_remove a (L1 ++ a :: L2) = L1 ++ L2.
Proof.
  intros Hnd. nodup_facts Hnd. unfold list_remove. rewrite filter_app, filter_cons, decide_False by (intros HF; by apply HF).
  fold (list_remove a L1) (list_remove a L2). by rewrite !list_remove_id.
Qed.

Lemma successor_in_mid L1 a L2 : NoDup (L1 ++ a :: L2) -> successor_in a (L1 ++ a :: L2) = hd 0 L2.
Proof.
  induction L1 as [|b L1 IH]; cbn; intros Hnd; [by rewrite Z.eqb_refl|]. pose proof Hnd as Hnd'. apply NoDup_cons in Hnd' as [Hb Hnd'].
  rewrite (proj2 (Z.eqb_neq b a)) by set_solver. by apply IH.
Qed.

Lemma tq_step_ok op head L :
  queue_of expires key head L -> in_memory (rb_root head) -> tq_pre M op L = true ->
  exists head', tq_step expires op head = Ok ((tq_spec key op L).1, head') /\
    queue_of expires key head' (tq_spec key op L).2 /\ in_memory (rb_root head').
Proof.
  intros Hq Hm Hpre. pose proof (queue_of_nodup _ _ _ _ Hq) as Hnd. destruct op as [a|a| |a]; cbn in *.
  - apply andb_true_iff in Hpre as [Ha%bool_decide_eq_true_1 Hn%negb_true_iff%bool_decide_eq_false_1]. destruct (Hm a Ha) as (Hs & Hok & He).
    destruct (timerqueue_add_ok _ _ _ _ _ Hq Hn Hs Hok He) as (head' & -> & Hq' & Ho). exists head'. split_and!; [done..|].
    eapply in_memory_only; [done|exact Ho|]. intros b Hb. destruct Hq' as [[Ht _] _]. eapply tree_of_mapped; [done|]. by rewrite enqueue_perm.
  - apply bool_decide_eq_true_1 in Hpre. apply list_elem_of_split in Hpre as (L1 & L2 & ->). rewrite list_remove_mid by done.
    destruct (timerqueue_del_ok _ _ _ _ _ _ Hq) as (head' & -> & Hq' & Ho & n & Hn & _). exists head'. split_and!; [done..|].
    eapply in_memory_only; [done|exact Ho|]. intros b Hb. destruct (decide (b = a)) as [->|Hne]; [by exists n|].
    destruct Hq' as [[Ht _] _]. eapply tree_of_mapped; [done|]. set_solver.
  - exists head. by rewrite (timerqueue_getnext_ok _ _ _ _ Hq).
  - apply bool_decide_eq_true_1 in Hpre. apply list_elem_of_split in Hpre as (L1 & L2 & ->). rewrite successor_in_mid by done.
    rewrite (timerqueue_iterate_next_ok _ _ _ _ _ _ Hq). by exists head.
Qed.

End refinement.

(** C19. The queue of timers refines the sorted list: from the state with no timer,
    in every run that adds timers of memory that are not queued, and removes
    and follows queued ones, each call returns, and it returns what it does on
    the list; the queue stays a red-black tree of the timers of the list, in
    their order, with the first one cached. *)
Theorem timerqueue_refines (expires : Z -> outcome Z) (key : Z -> Z) (M : list Z) (ops : list tq_op) (head : timerqueue_head) (L : list Z)
  (Hqueue : queue_of expires key head L) (Hmemory : in_memory expires key M (rb_root head)) (Hvalid : tq_valid key M ops L = true) :
  exists head', tq_run expires ops head = Ok ((tq_spec_run key ops L).1, head') /\ queue_of expires key head' (tq_spec_run key ops L).2.
Proof.
  revert head L Hqueue Hmemory Hvalid. induction ops as [|op ops IH]; intros head L Hq Hm Hv; [by exists head|].
  cbn [tq_valid tq_run tq_spec_run] in *. apply andb_true_iff in Hv as [Hpre Hv]. destruct (tq_step_ok _ _ _ _ _ _ Hq Hm Hpre) as (head1 & -> & Hq1 & Hm1).
  destruct (tq_spec key op L) as [r L1]. cbn [fst snd mbind outcome_bind] in *. destruct (IH _ _ Hq1 Hm1 Hv) as (head2 & -> & Hq2).
  destruct (tq_spec_run key ops L1) as [rs L2]. cbn [fst snd mbind outcome_bind] in *. by exists head2.
Qed.

(** Three timers, two of which expire at the same time. *)
Definition example_expires (a : Z) : Z := if a =? 32 then 5 else 9.
Definition example_ops : list tq_op := [TqAdd 16; TqAdd 32; TqAdd 48; TqFirst; TqNext 32; TqNext 16; TqDel 32; TqFirst; TqDel 16; TqDel 48].
Definition example_queue : timerqueue_head :=
  timerqueue_init_head (RbRootCached (RbRoot (list_to_map [(16, RbNode 16 0 0); (32, RbNode 32 0 0); (48, RbNode 48 0 0)]) 0 ()) 0).

Lemma timerqueue_refines_witness :
  exists head', tq_run (fun a => Ok (example_expires a)) example_ops example_queue = Ok ([1; 1; 0; 32; 16; 48; 1; 16; 1; 0], head') /\
    queue_of (fun a => Ok (example_expires a)) example_expires head' [].
Proof.
  apply (timerqueue_refines (fun a => Ok (example_expires a)) example_expires [16; 32; 48] example_ops example_queue []).
  - split; [split; [apply tree_of_nil|done]|split; [constructor|set_solver]].
  - intros a Ha. repeat (apply elem_of_cons in Ha as [->|Ha]; [split; [by eexists|by split]|]). by apply not_elem_of_nil in Ha.
  - by vm_compute.
Defined.
