(* ===== verification/Hrtimer.v ===== *)
(** * kernel/time/hrtimer.c: timers of high resolution

    One CPU, without CONFIG_HIGH_RES_TIMERS, CONFIG_PREEMPT_RT and
    CONFIG_TIME_LOW_RES. There are eight clock bases, four for timers that
    expire in the timer interrupt and four for those that expire in a soft
    interrupt; each has a queue of timers. All queues link the nodes of the
    same memory.

    The locks and the sequence counters keep other CPUs and interrupts out;
    the definitions are the code between taking and giving back the lock. A
    clock base is known by its index. The clocks are read by
    kernel/time/timekeeping.c: the time that was read is an argument. *)

From stdpp Require Import gmap.
From Stdlib Require Import ZifyBool.
From S2P Require Import Prelude RbTree RbTreeCached Timerqueue.

Local Open Scope Z_scope.

(** ** Constants *)

Definition HRTIMER_MODE_ABS : Z := 0.
Definition HRTIMER_MODE_REL : Z := 1.
Definition HRTIMER_MODE_SOFT : Z := 4.
Definition HRTIMER_MODE_HARD : Z := 8.

Definition HRTIMER_NORESTART : Z := 0.

Definition HRTIMER_STATE_INACTIVE : Z := 0.
Definition HRTIMER_STATE_ENQUEUED : Z := 1.

Definition HRTIMER_BASE_MONOTONIC : Z := 0.
Definition HRTIMER_BASE_REALTIME : Z := 1.
Definition HRTIMER_BASE_BOOTTIME : Z := 2.
Definition HRTIMER_BASE_TAI : Z := 3.
Definition HRTIMER_BASE_MONOTONIC_SOFT : Z := 4.
Definition HRTIMER_BASE_REALTIME_SOFT : Z := 5.
Definition HRTIMER_BASE_BOOTTIME_SOFT : Z := 6.
Definition HRTIMER_BASE_TAI_SOFT : Z := 7.
Definition HRTIMER_MAX_CLOCK_BASES : Z := 8.

Definition MASK_SHIFT : Z := HRTIMER_BASE_MONOTONIC_SOFT.
Definition HRTIMER_ACTIVE_HARD : Z := Z.shiftl 1 MASK_SHIFT - 1.
Definition HRTIMER_ACTIVE_SOFT : Z := Z.shiftl HRTIMER_ACTIVE_HARD MASK_SHIFT.

Definition CLOCK_REALTIME : Z := 0.
Definition CLOCK_MONOTONIC : Z := 1.
Definition CLOCK_BOOTTIME : Z := 7.
Definition CLOCK_TAI : Z := 11.
Definition MAX_CLOCKS : Z := 16.

Definition NSEC_PER_SEC : Z := 1000000000.
Definition KTIME_MAX : Z := 2 ^ 63 - 1.
Definition KTIME_SEC_MAX : Z := KTIME_MAX / NSEC_PER_SEC.

(** ** Times *)

Definition ktime_set (secs nsecs : Z) : Z := if secs >=? KTIME_SEC_MAX then KTIME_MAX else s64 (secs * NSEC_PER_SEC + nsecs).
Definition ktime_sub (lhs rhs : Z) : Z := s64 (lhs - rhs).
Definition ktime_add (lhs rhs : Z) : Z := s64 (lhs + rhs).
Definition ktime_add_unsafe (lhs rhs : Z) : Z := u64 (u64 lhs + u64 rhs).
Definition ns_to_ktime (ns : Z) : Z := s64 ns.

Definition ktime_compare (cmp1 cmp2 : Z) : Z := if cmp1 <? cmp2 then -1 else if cmp1 >? cmp2 then 1 else 0.
Definition ktime_before (cmp1 cmp2 : Z) : bool := ktime_compare cmp1 cmp2 <? 0.

Definition ktime_add_safe (lhs rhs : Z) : Z :=
  let res := s64 (ktime_add_unsafe lhs rhs) in
  if (res <? 0) || (res <? lhs) || (res <? rhs) then ktime_set KTIME_SEC_MAX 0 else res.

(** What is read of [struct timekeeper]: [tk_nsecs] is what
    [timekeeping_get_ns(&tk->tkr_mono)] returned. *)
Record timekeeper := Timekeeper {
  tk_base : Z;
  tk_nsecs : Z;
  tk_clock_was_set_seq : Z;
  offs_real : Z;
  offs_boot : Z;
  offs_tai : Z;
  next_leap_ktime : Z
}.

(** The time, the sequence number and the three offsets; no writer comes
    between, so that the first round of the loop decides. *)
Definition ktime_get_update_offsets_now (tk : timekeeper) (cwsseq real boot tai : Z) : Z * Z * Z * Z * Z :=
  let base := s64 (tk_base tk + tk_nsecs tk) in
  let '(cwsseq, real, boot, tai) :=
    if negb (cwsseq =? tk_clock_was_set_seq tk) then (tk_clock_was_set_seq tk, offs_real tk, offs_boot tk, offs_tai tk)
    else (cwsseq, real, boot, tai) in
  let real := if base >=? next_leap_ktime tk then ktime_sub (offs_real tk) (ktime_set 1 0) else real in
  (base, cwsseq, real, boot, tai).

(** ** Timers and bases *)

(** [function] is the address of the callback. The node of the queue, which
    the structure starts with, is kept with the other nodes. *)
Record hrtimer := Hrtimer {
  node_expires : Z;
  _softexpires : Z;
  function : Z;
  base : Z;
  state : Z;
  is_soft : bool;
  is_hard : bool
}.

(** The queue of a base is the root and the leftmost node. *)
Record hrtimer_clock_base := HrtimerClockBase {
  running : Z;
  active_root : Z;
  active_leftmost : Z;
  offset : Z
}.

Record hrtimer_cpu_base := HrtimerCpuBase {
  active_bases : Z;
  clock_was_set_seq : Z;
  in_hrtirq : bool;
  softirq_activated : bool;
  expires_next : Z;
  next_timer : Z;
  softirq_expires_next : Z;
  softirq_next_timer : Z;
  clock_base : list hrtimer_clock_base
}.

(** Memory, the per-CPU data, whether [HRTIMER_SOFTIRQ] is raised, and the
    rest of the kernel, which the callbacks change. *)
Record hstate W := HState {
  hr_nodes : gmap Z rb_node;
  hr_timers : gmap Z hrtimer;
  cpu_base : hrtimer_cpu_base;
  softirq_pending : bool;
  env : W
}.
Arguments HState {W} _ _ _ _ _.
Arguments hr_nodes {W} _.
Arguments hr_timers {W} _.
Arguments cpu_base {W} _.
Arguments softirq_pending {W} _.
Arguments env {W} _.

(** ** Writing fields *)

Definition set_active_bases v c := HrtimerCpuBase v (clock_was_set_seq c) (in_hrtirq c) (softirq_activated c) (expires_next c) (next_timer c) (softirq_expires_next c) (softirq_next_timer c) (clock_base c).
Definition set_clock_was_set_seq v c := HrtimerCpuBase (active_bases c) v (in_hrtirq c) (softirq_activated c) (expires_next c) (next_timer c) (softirq_expires_next c) (softirq_next_timer c) (clock_base c).
Definition set_softirq_activated v c := HrtimerCpuBase (active_bases c) (clock_was_set_seq c) (in_hrtirq c) v (expires_next c) (next_timer c) (softirq_expires_next c) (softirq_next_timer c) (clock_base c).
Definition set_expires_next v c := HrtimerCpuBase (active_bases c) (clock_was_set_seq c) (in_hrtirq c) (softirq_activated c) v (next_timer c) (softirq_expires_next c) (softirq_next_timer c) (clock_base c).
Definition set_next_timer v c := HrtimerCpuBase (active_bases c) (clock_was_set_seq c) (in_hrtirq c) (softirq_activated c) (expires_next c) v (softirq_expires_next c) (softirq_next_timer c) (clock_base c).
Definition set_softirq_expires_next v c := HrtimerCpuBase (active_bases c) (clock_was_set_seq c) (in_hrtirq c) (softirq_activated c) (expires_next c) (next_timer c) v (softirq_next_timer c) (clock_base c).
Definition set_softirq_next_timer v c := HrtimerCpuBase (active_bases c) (clock_was_set_seq c) (in_hrtirq c) (softirq_activated c) (expires_next c) (next_timer c) (softirq_expires_next c) v (clock_base c).
Definition set_clock_base v c := HrtimerCpuBase (active_bases c) (clock_was_set_seq c) (in_hrtirq c) (softirq_activated c) (expires_next c) (next_timer c) (softirq_expires_next c) (softirq_next_timer c) v.

Definition set_state v t := Hrtimer (node_expires t) (_softexpires t) (function t) (base t) v (is_soft t) (is_hard t).

Section code.
Context {W : Type}.
Implicit Types s : hstate W.

Definition upd_cpu (f : hrtimer_cpu_base -> hrtimer_cpu_base) s : hstate W := HState (hr_nodes s) (hr_timers s) (f (cpu_base s)) (softirq_pending s) (env s).

Definition timer_at s (a : Z) : outcome hrtimer := match hr_timers s !! a with Some t => Ok t | None => Bug end.

Definition put_timer (a : Z) (t : hrtimer) s : hstate W := HState (hr_nodes s) (<[a := t]> (hr_timers s)) (cpu_base s) (softirq_pending s) (env s).

Definition base_at s (i : Z) : outcome hrtimer_clock_base :=
  match clock_base (cpu_base s) !! Z.to_nat i with
  | Some b => Ok b
  | None => Bug
  end.

Definition put_base (i : Z) (b : hrtimer_clock_base) s : hstate W := upd_cpu (fun c => set_clock_base (<[Z.to_nat i := b]> (clock_base c)) c) s.

(** [base->active] *)
Definition queue_at s (b : hrtimer_clock_base) : timerqueue_head :=
  RbRootCached (RbRoot (hr_nodes s) (active_root b) ()) (active_leftmost b).

Definition put_queue (i : Z) (b : hrtimer_clock_base) (q : timerqueue_head) s : hstate W :=
  let s := HState (nodes (rb_root q)) (hr_timers s) (cpu_base s) (softirq_pending s) (env s) in
  put_base i (HrtimerClockBase (running b) (root_node (rb_root q)) (rb_leftmost q) (offset b)) s.

Definition expires_of s (a : Z) : outcome Z := t ← timer_at s a; Ok (node_expires t).

Definition hrtimer_set_expires_range_ns (a time delta : Z) s : outcome (hstate W) :=
  t ← timer_at s a;
  Ok (put_timer a (Hrtimer (ktime_add_safe time (ns_to_ktime delta)) time (function t) (base t) (state t) (is_soft t) (is_hard t)) s).

Definition hrtimer_set_expires_tv64 (a tv64 : Z) s : outcome (hstate W) :=
  t ← timer_at s a;
  Ok (put_timer a (Hrtimer tv64 tv64 (function t) (base t) (state t) (is_soft t) (is_hard t)) s).

(** ** The next event *)

(** The next base of [active], and the others. *)
Definition __next_base (active : Z) : option (Z * Z) :=
  if active =? 0 then None
  else
    let idx := __ffs 0 active in
    Some (idx, Z.land active (U32_MAX - u32 (Z.shiftl 1 idx))).

Fixpoint next_event_loop (fuel : nat) (exclude active expires_next : Z) s : outcome (Z * hstate W) :=
  match fuel with
  | O => NoFuel
  | S fuel =>
      match __next_base active with
      | None => Ok (expires_next, s)
      | Some (i, active) =>
          b ← base_at s i;
          let next := timerqueue_getnext (queue_at s b) in
          timer ← (if next =? exclude then
                     next ← timerqueue_iterate_next (queue_at s b) next;
                     Ok (if next =? 0 then None else Some next)
                   else Ok (Some next));
          match timer with
          | None => next_event_loop fuel exclude active expires_next s
          | Some timer =>
            t ← timer_at s timer;
            let expires := ktime_sub (node_expires t) (offset b) in
            if expires <? expires_next then
              let expires_next := expires in
              if negb (exclude =? 0) then next_event_loop fuel exclude active expires_next s
              else
                next_event_loop fuel exclude active expires_next
                  (upd_cpu (if is_soft t then set_softirq_next_timer timer else set_next_timer timer) s)
            else next_event_loop fuel exclude active expires_next s
          end
      end
  end.

(** Each turn clears a bit of [active], which has 32. *)
Definition __hrtimer_next_event_base (exclude active expires_next : Z) s : outcome (Z * hstate W) :=
  '(expires_next, s) ← next_event_loop 33 exclude active expires_next s;
  Ok (if expires_next <? 0 then 0 else expires_next, s).

Definition __hrtimer_get_next_event (active_mask : Z) s : outcome (Z * hstate W) :=
  '(next_timer, expires_next, s) ←
    (if negb (softirq_activated (cpu_base s)) && negb (Z.land active_mask HRTIMER_ACTIVE_SOFT =? 0) then
       let active := Z.land (active_bases (cpu_base s)) HRTIMER_ACTIVE_SOFT in
       let s := upd_cpu (set_softirq_next_timer 0) s in
       '(expires_next, s) ← __hrtimer_next_event_base 0 active KTIME_MAX s;
       Ok (softirq_next_timer (cpu_base s), expires_next, s)
     else Ok (0, KTIME_MAX, s));
  if negb (Z.land active_mask HRTIMER_ACTIVE_HARD =? 0) then
    let active := Z.land (active_bases (cpu_base s)) HRTIMER_ACTIVE_HARD in
    let s := upd_cpu (set_next_timer next_timer) s in
    __hrtimer_next_event_base 0 active expires_next s
  else Ok (expires_next, s).

Definition hrtimer_update_next_event s : outcome (Z * hstate W) :=
  '(soft, s) ←
    (if negb (softirq_activated (cpu_base s)) then
       '(soft, s) ← __hrtimer_get_next_event HRTIMER_ACTIVE_SOFT s;
       Ok (soft, upd_cpu (set_softirq_expires_next soft) s)
     else Ok (KTIME_MAX, s));
  '(expires_next, s) ← __hrtimer_get_next_event HRTIMER_ACTIVE_HARD s;
  if expires_next >? soft then Ok (soft, upd_cpu (fun c => set_next_timer (softirq_next_timer c) c) s)
  else Ok (expires_next, s).

(** Without CONFIG_HIGH_RES_TIMERS. *)
Definition __hrtimer_hres_active : bool := false.

(** The clock event device is not programmed, as [__hrtimer_hres_active] is
    0. *)
Definition __hrtimer_reprogram (expires_next : Z) s : hstate W := upd_cpu (set_expires_next expires_next) s.

Definition hrtimer_force_reprogram (skip_equal : bool) s : outcome (hstate W) :=
  '(expires_next, s) ← hrtimer_update_next_event s;
  if skip_equal && (expires_next =? Hrtimer.expires_next (cpu_base s)) then Ok s
  else Ok (__hrtimer_reprogram expires_next s).

Definition set_offset (i v : Z) s : outcome (hstate W) :=
  b ← base_at s i;
  Ok (put_base i (HrtimerClockBase (running b) (active_root b) (active_leftmost b) v) s).

Definition hrtimer_update_base (tk : timekeeper) s : outcome (Z * hstate W) :=
  real ← base_at s HRTIMER_BASE_REALTIME;
  boot ← base_at s HRTIMER_BASE_BOOTTIME;
  tai ← base_at s HRTIMER_BASE_TAI;
  let '(now, seq, offs_real, offs_boot, offs_tai) :=
    ktime_get_update_offsets_now tk (clock_was_set_seq (cpu_base s)) (offset real) (offset boot) (offset tai) in
  let s := upd_cpu (set_clock_was_set_seq seq) s in
  s ← set_offset HRTIMER_BASE_REALTIME offs_real s;
  s ← set_offset HRTIMER_BASE_BOOTTIME offs_boot s;
  s ← set_offset HRTIMER_BASE_TAI offs_tai s;
  s ← set_offset HRTIMER_BASE_REALTIME_SOFT offs_real s;
  s ← set_offset HRTIMER_BASE_BOOTTIME_SOFT offs_boot s;
  s ← set_offset HRTIMER_BASE_TAI_SOFT offs_tai s;
  Ok (now, s).

(** On one CPU every base is a base of this CPU. *)
Definition hrtimer_reprogram (timer : Z) (reprogram : bool) s : outcome (hstate W) :=
  t ← timer_at s timer;
  b ← base_at s (base t);
  let expires := ktime_sub (node_expires t) (offset b) in
  let expires := if expires <? 0 then 0 else expires in
  let hard s :=
    if expires >=? Hrtimer.expires_next (cpu_base s) then Ok s
    else if in_hrtirq (cpu_base s) then Ok s
    else Ok (__hrtimer_reprogram expires (upd_cpu (set_next_timer timer) s)) in
  if is_soft t then
    if softirq_activated (cpu_base s) then Ok s
    else if negb (ktime_before expires (softirq_expires_next (cpu_base s))) then Ok s
    else
      let s := upd_cpu (fun c => set_softirq_expires_next expires (set_softirq_next_timer timer c)) s in
      if negb (ktime_before expires (Hrtimer.expires_next (cpu_base s))) || negb reprogram then Ok s else hard s
  else hard s.

(** ** Queueing *)

Definition enqueue_hrtimer (timer i : Z) s : outcome (bool * hstate W) :=
  b ← base_at s i;
  let s := upd_cpu (fun c => set_active_bases (u32 (Z.lor (active_bases c) (Z.shiftl 1 i))) c) s in
  t ← timer_at s timer;
  let s := put_timer timer (set_state HRTIMER_STATE_ENQUEUED t) s in
  '(first, q) ← timerqueue_add (expires_of s) (queue_at s b) timer;
  Ok (first, put_queue i b q s).

Definition __remove_hrtimer (timer i newstate : Z) (reprogram : bool) s : outcome (hstate W) :=
  t ← timer_at s timer;
  let s := put_timer timer (set_state newstate t) s in
  if Z.land (state t) HRTIMER_STATE_ENQUEUED =? 0 then Ok s
  else
    b ← base_at s i;
    '(more, q) ← timerqueue_del (queue_at s b) timer;
    let s := put_queue i b q s in
    let s := if negb more then upd_cpu (fun c => set_active_bases (Z.land (active_bases c) (U32_MAX - u32 (Z.shiftl 1 i))) c) s else s in
    if reprogram && (timer =? next_timer (cpu_base s)) then hrtimer_force_reprogram true s else Ok s.

Definition remove_hrtimer (timer i : Z) (restart keep_local : bool) s : outcome (Z * hstate W) :=
  t ← timer_at s timer;
  if negb (Z.land (state t) HRTIMER_STATE_ENQUEUED =? 0) then
    let reprogram := true in
    let newstate := if negb restart then HRTIMER_STATE_INACTIVE else state t in
    let reprogram := if negb restart then reprogram else reprogram && negb keep_local in
    s ← __remove_hrtimer timer i newstate reprogram s;
    Ok (1, s)
  else Ok (0, s).

Definition hrtimer_update_softirq_timer (reprogram : bool) s : outcome (hstate W) :=
  '(expires, s) ← __hrtimer_get_next_event HRTIMER_ACTIVE_SOFT s;
  if expires =? KTIME_MAX then Ok s else hrtimer_reprogram (softirq_next_timer (cpu_base s)) reprogram s.

(** [get_time] is what [base->get_time()] returned. *)
Definition __hrtimer_start_range_ns (timer tim delta_ns mode i get_time : Z) s : outcome (bool * hstate W) :=
  let force_local := next_timer (cpu_base s) =? timer in
  '(_, s) ← remove_hrtimer timer i true force_local s;
  let tim := if negb (Z.land mode HRTIMER_MODE_REL =? 0) then ktime_add_safe tim get_time else tim in
  s ← hrtimer_set_expires_range_ns timer tim delta_ns s;
  '(first, s) ← enqueue_hrtimer timer i s;
  if negb force_local then Ok (first, s)
  else
    s ← hrtimer_force_reprogram true s;
    Ok (false, s).

Definition hrtimer_start_range_ns (timer tim delta_ns mode get_time : Z) s : outcome (hstate W) :=
  t ← timer_at s timer;
  '(first, s) ← __hrtimer_start_range_ns timer tim delta_ns mode (base t) get_time s;
  if first : bool then hrtimer_reprogram timer true s else Ok s.

Definition hrtimer_start_expires (timer mode get_time : Z) s : outcome (hstate W) :=
  t ← timer_at s timer;
  let delta := u64 (ktime_sub (node_expires t) (_softexpires t)) in
  hrtimer_start_range_ns timer (_softexpires t) delta mode get_time s.

(** Without other CPUs the first round of the loop decides. *)
Definition hrtimer_active (timer : Z) s : outcome bool :=
  t ← timer_at s timer;
  b ← base_at s (base t);
  Ok (negb (state t =? HRTIMER_STATE_INACTIVE) || (running b =? timer)).

Definition hrtimer_callback_running (timer : Z) s : outcome bool :=
  t ← timer_at s timer;
  b ← base_at s (base t);
  Ok (running b =? timer).

Definition hrtimer_try_to_cancel (timer : Z) s : outcome (Z * hstate W) :=
  active ← hrtimer_active timer s;
  if negb active then Ok (0, s)
  else
    t ← timer_at s timer;
    run ← hrtimer_callback_running timer s;
    if negb run then remove_hrtimer timer (base t) false false s else Ok (-1, s).

(** ** New timers *)

Definition hrtimer_clock_to_base_table (clock_id : Z) : Z :=
  if clock_id =? CLOCK_REALTIME then HRTIMER_BASE_REALTIME
  else if clock_id =? CLOCK_MONOTONIC then HRTIMER_BASE_MONOTONIC
  else if clock_id =? CLOCK_BOOTTIME then HRTIMER_BASE_BOOTTIME
  else if clock_id =? CLOCK_TAI then HRTIMER_BASE_TAI
  else HRTIMER_MAX_CLOCK_BASES.

(** An index below 0 is outside the table. *)
Definition hrtimer_clockid_to_base (clock_id : Z) : outcome Z :=
  if clock_id <? MAX_CLOCKS then
    if clock_id <? 0 then Bug
    else
      let base := hrtimer_clock_to_base_table clock_id in
      if negb (base =? HRTIMER_MAX_CLOCK_BASES) then Ok base else Ok HRTIMER_BASE_MONOTONIC
  else Ok HRTIMER_BASE_MONOTONIC.

(** [timer] is the address of the structure, which is overwritten. *)
Definition __hrtimer_init (timer clock_id mode : Z) s : outcome (hstate W) :=
  let softtimer := negb (Z.land mode HRTIMER_MODE_SOFT =? 0) in
  let clock_id := if (clock_id =? CLOCK_REALTIME) && negb (Z.land mode HRTIMER_MODE_REL =? 0) then CLOCK_MONOTONIC else clock_id in
  let base := if softtimer then HRTIMER_MAX_CLOCK_BASES / 2 else 0 in
  i ← hrtimer_clockid_to_base clock_id;
  let base := base + i in
  let s := put_timer timer (Hrtimer 0 0 0 base 0 softtimer (negb (Z.land mode HRTIMER_MODE_HARD =? 0))) s in
  st ← timerqueue_init timer (RbRoot (<[timer := RbNode 0 0 0]> (hr_nodes s)) 0 ());
  Ok (HState (nodes st) (hr_timers s) (cpu_base s) (softirq_pending s) (env s)).

Definition hrtimer_init (timer clock_id mode : Z) s : outcome (hstate W) := __hrtimer_init timer clock_id mode s.

(** ** Expiry *)

(** [fn(timer)]: the callback at an address. *)
Section callbacks.
Context (call : Z -> Z -> hstate W -> outcome (Z * hstate W)).

Definition set_running (i v : Z) s : outcome (hstate W) :=
  b ← base_at s i;
  Ok (put_base i (HrtimerClockBase v (active_root b) (active_leftmost b) (offset b)) s).

Definition __run_hrtimer (i timer : Z) s : outcome (hstate W) :=
  s ← set_running i timer s;
  s ← __remove_hrtimer timer i HRTIMER_STATE_INACTIVE false s;
  t ← timer_at s timer;
  let fn := function t in
  '(restart, s) ← call fn timer s;
  t ← timer_at s timer;
  s ← (if negb (restart =? HRTIMER_NORESTART) && (Z.land (state t) HRTIMER_STATE_ENQUEUED =? 0) then
         '(_, s) ← enqueue_hrtimer timer i s;
         Ok s
       else Ok s);
  set_running i 0 s.

(** The timers of a base. *)
Fixpoint run_base_loop (fuel : nat) (i basenow : Z) s : outcome (hstate W) :=
  match fuel with
  | O => NoFuel
  | S fuel =>
      b ← base_at s i;
      let timer := timerqueue_getnext (queue_at s b) in
      if timer =? 0 then Ok s
      else
        t ← timer_at s timer;
        if basenow <? _softexpires t then Ok s
        else
          s ← __run_hrtimer i timer s;
          run_base_loop fuel i basenow s
  end.

Fixpoint run_queues_loop (fuel : nat) (now active : Z) s : outcome (hstate W) :=
  match fuel with
  | O => NoFuel
  | S fuel =>
      match __next_base active with
      | None => Ok s
      | Some (i, active) =>
          b ← base_at s i;
          let basenow := ktime_add now (offset b) in
          s ← run_base_loop (S (size (hr_timers s))) i basenow s;
          run_queues_loop fuel now active s
      end
  end.

(** A base runs each of its timers once when none is set to expire again
    before [basenow]; [active] has 32 bits. *)
Definition __hrtimer_run_queues (now active_mask : Z) s : outcome (hstate W) :=
  run_queues_loop 33 now (Z.land (active_bases (cpu_base s)) active_mask) s.

Definition hrtimer_run_softirq (tk : timekeeper) s : outcome (hstate W) :=
  '(now, s) ← hrtimer_update_base tk s;
  s ← __hrtimer_run_queues now HRTIMER_ACTIVE_SOFT s;
  hrtimer_update_softirq_timer true (upd_cpu (set_softirq_activated false) s).

(** [tick_check_oneshot_change] is 0 without CONFIG_TICK_ONESHOT. *)
Definition hrtimer_run_queues (tk : timekeeper) s : outcome (hstate W) :=
  if __hrtimer_hres_active then Ok s
  else
    '(now, s) ← hrtimer_update_base tk s;
    let s :=
      if negb (ktime_before now (softirq_expires_next (cpu_base s))) then
        let s := upd_cpu (fun c => set_softirq_activated true (set_softirq_expires_next KTIME_MAX c)) s in
        HState (hr_nodes s) (hr_timers s) (cpu_base s) true (env s)
      else s in
    __hrtimer_run_queues now HRTIMER_ACTIVE_HARD s.

End callbacks.

Definition hrtimers_prepare_cpu s : hstate W :=
  upd_cpu (fun c =>
    HrtimerCpuBase 0 (clock_was_set_seq c) (in_hrtirq c) (softirq_activated c) KTIME_MAX 0 KTIME_MAX 0
      ((fun b => let q := timerqueue_init_head (queue_at s b) in
                 HrtimerClockBase (running b) (root_node (rb_root q)) (rb_leftmost q) (offset b)) <$> clock_base c)) s.

End code.

(** ** Sleeping tasks *)

(** The task of each [hrtimer_sleeper], and the tasks that were handed to
    [wake_up_process] (kernel/sched/core.c) with the timers that did so. *)
Record sleepers := Sleepers { sleeper_task : gmap Z Z; woken : list (Z * Z) }.

Definition hrtimer_wakeup (timer : Z) (s : hstate sleepers) : outcome (Z * hstate sleepers) :=
  let set_env e := HState (hr_nodes s) (hr_timers s) (cpu_base s) (softirq_pending s) e in
  match sleeper_task (env s) !! timer with
  | None => Bug
  | Some task =>
      let tasks := <[timer := 0]> (sleeper_task (env s)) in
      if negb (task =? 0) then Ok (HRTIMER_NORESTART, set_env (Sleepers tasks (woken (env s) ++ [(timer, task)])))
      else Ok (HRTIMER_NORESTART, set_env (Sleepers tasks (woken (env s))))
  end.

(** [wakeup] is the address of [hrtimer_wakeup], [current] the running task. *)
Definition __hrtimer_init_sleeper (wakeup current sl clock_id mode : Z) (s : hstate sleepers) : outcome (hstate sleepers) :=
  s ← __hrtimer_init sl clock_id mode s;
  t ← timer_at s sl;
  let s := put_timer sl (Hrtimer (node_expires t) (_softexpires t) wakeup (base t) (state t) (is_soft t) (is_hard t)) s in
  Ok (HState (hr_nodes s) (hr_timers s) (cpu_base s) (softirq_pending s) (Sleepers (<[sl := current]> (sleeper_task (env s))) (woken (env s)))).
