(* ===== verification/HrtimerInv.v ===== *)
(** * kernel/time/hrtimer.c: the queues

    The invariant of the clock bases: the queue of each base is a red-black
    tree of its timers in the order of their expiry, no timer is in two
    queues, a timer is queued when its state says so, and [active_bases] has
    the bits of the bases that have timers. Queueing and dequeueing keep it,
    and the search for the next event finds the earliest timer. *)

From stdpp Require Import gmap.
From Stdlib Require Import ZifyBool.
From S2P Require Import Prelude LibBits RbTree RbTreeShape RbTreeCached Timerqueue Hrtimer.

Local Open Scope Z_scope.

(** ** Queues that share memory *)

Lemma repr_same h h' p t : (forall a, a ∈ inorder t -> h' !! a = h !! a) -> repr h p t -> repr h' p t.
Proof.
  revert p. induction t as [|c l IHl a r IHr]; intros p Hs; [done|]. cbn in *. intros (Ha & Hok & Hl & Hr).
  split_and!; [rewrite Hs by set_solver; done|done|apply IHl; [set_solver|done]|apply IHr; [set_solver|done]].
Qed.

Lemma tree_of_frame (st st' : rbtree ()) L :
  tree_of st L -> root_node st' = root_node st -> (forall a, a ∈ L -> nodes st' !! a = nodes st !! a) -> tree_of st' L.
Proof.
  intros (t & [Hr Ht Hnd] & Hok & <-) Er Hs. exists t. split_and!; [|done|done]. split; [by rewrite Er| |done]. by eapply repr_same.
Qed.

(** ** The bits of the bases *)

Lemma shift_one i : 0 <= i < 32 -> u32 (Z.shiftl 1 i) = 2 ^ i.
Proof. intros Hi. rewrite Z.shiftl_1_l, u32_small; [done|]. split; [lia|]. apply Z.pow_lt_mono_r; lia. Qed.

Lemma pow2_range i : 0 <= i < 32 -> 0 <= 2 ^ i < 2 ^ 32.
Proof. intros Hi. split; [lia|]. apply Z.pow_lt_mono_r; lia. Qed.

Lemma clear_bit x i : 0 <= x < 2 ^ 32 -> 0 <= i < 32 ->
  let y := Z.land x (U32_MAX - u32 (Z.shiftl 1 i)) in
  0 <= y < 2 ^ 32 /\ forall j, 0 <= j -> Z.testbit y j = Z.testbit x j && negb (j =? i).
Proof.
  intros Hx Hi y. subst y. rewrite shift_one by done. pose proof (pow2_range i Hi). split; [apply land_range; unfold U32_MAX; lia|].
  intros j Hj. rewrite Z.land_spec. destruct (Z.lt_ge_cases j 32) as [H32|H32].
  - rewrite not_word_bit by lia. by rewrite Z.pow2_bits_eqb, Z.eqb_sym by lia.
  - by rewrite (bits_above x j).
Qed.

Lemma set_bit x i : 0 <= x < 2 ^ 32 -> 0 <= i < 32 ->
  let y := u32 (Z.lor x (Z.shiftl 1 i)) in
  0 <= y < 2 ^ 32 /\ forall j, 0 <= j -> Z.testbit y j = Z.testbit x j || (j =? i).
Proof.
  intros Hx Hi y. subst y. rewrite Z.shiftl_1_l. pose proof (pow2_range i Hi).
  assert (Hr : 0 <= Z.lor x (2 ^ i) < 2 ^ 32).
  { assert (H0 : 0 <= Z.lor x (2 ^ i)) by (apply Z.lor_nonneg; lia). split; [done|]. apply low_bits_range; [done|].
    intros j Hj. rewrite Z.lor_spec, (bits_above x j), (bits_above (2 ^ i) j); done. }
  rewrite u32_small by done. split; [done|]. intros j Hj. by rewrite Z.lor_spec, Z.pow2_bits_eqb, Z.eqb_sym by lia.
Qed.

(** A turn of [for_each_active_base]; the bits below [m] have been seen. *)
Lemma next_base_ok active m :
  0 <= active < 2 ^ 32 -> (forall j, 0 <= j < m -> Z.testbit active j = false) -> 0 <= m ->
  match __next_base active with
  | None => forall j, 0 <= j -> Z.testbit active j = false
  | Some (i, active') => m <= i < 32 /\ Z.testbit active i = true /\ 0 <= active' < 2 ^ 32 /\
      (forall j, 0 <= j -> Z.testbit active' j = Z.testbit active j && negb (j =? i)) /\ forall j, 0 <= j < i + 1 -> Z.testbit active' j = false
  end.
Proof.
  intros Ha Hm Hm0. unfold __next_base. destruct (Z.eqb_spec active 0) as [->|H0]; [intros; apply Z.bits_0|].
  destruct (ffs_testbit 0 active) as (Hi & Ht & Hlow); [lia|]. destruct (clear_bit active (__ffs 0 active) Ha Hi) as [Hr Hb].
  set (i := __ffs 0 active) in *. split_and!; try lia; [|done..|].
  - destruct (Z.lt_ge_cases i m); [|done]. by rewrite Hm in Ht by lia.
  - intros j Hj. rewrite Hb by lia. destruct (Z.eqb_spec j i) as [->|]; [apply andb_false_r|]. by rewrite Hlow by lia.
Qed.

Section inv.
Context {W : Type}.
Implicit Types s : hstate W.

Definition key_of s (a : Z) : Z := match hr_timers s !! a with Some t => node_expires t | None => 0 end.

(** The queue of a base. *)
Definition base_queue s (b : hrtimer_clock_base) (L : list Z) : Prop := queue_of (expires_of s) (key_of s) (queue_at s b) L.

(** What the queue depends on. *)
Lemma base_queue_frame s s' b b' L :
  base_queue s b L -> active_root b' = active_root b -> active_leftmost b' = active_leftmost b ->
  (forall a, a ∈ L -> hr_nodes s' !! a = hr_nodes s !! a) ->
  (forall a t, a ∈ L -> hr_timers s !! a = Some t -> exists t', hr_timers s' !! a = Some t' /\ node_expires t' = node_expires t) ->
  base_queue s' b' L.
Proof.
  intros ([Ht Hf] & Ho & He) Er El Hn Ht'.
  assert (Hk : forall a, a ∈ L -> expires_of s' a = Ok (key_of s' a) /\ key_of s' a = key_of s a).
  { intros a Ha. specialize (He a Ha). unfold expires_of, timer_at, key_of in *. destruct (hr_timers s !! a) as [t|] eqn:E; [|done].
    destruct (Ht' a t Ha E) as (t' & -> & E'). cbn. by rewrite E'. }
  split; [split|split].
  - eapply tree_of_frame; [exact Ht|exact Er|exact Hn].
  - cbn in *. by rewrite El.
  - clear -Ho Hk. unfold ordered in *. induction Ho as [|a L HL IH Ha]; constructor; [apply IH; intros; apply Hk; set_solver|].
    rewrite Forall_forall in *. intros b Hb. destruct (Hk a) as [_ ->]; [set_solver|]. destruct (Hk b) as [_ ->]; [set_solver|]. auto.
  - intros a Ha. by apply Hk.
Qed.

(** A timer that is in transit between two queues, if [x] is not 0. *)
Record hr_inv (x : Z) (Q : list (list Z)) s : Prop := {
  hi_bases : length Q = 8%nat /\ length (clock_base (cpu_base s)) = 8%nat;
  hi_queue : forall i b L, clock_base (cpu_base s) !! i = Some b -> Q !! i = Some L -> base_queue s b L;
  hi_active_range : 0 <= active_bases (cpu_base s) < 2 ^ 32;
  hi_active : forall i : nat, Z.testbit (active_bases (cpu_base s)) (Z.of_nat i) = match Q !! i with Some (_ :: _) => true | _ => false end;
  hi_transit : forall i L, Q !! i = Some L -> x ∉ L;
  hi_timer : forall a t, hr_timers s !! a = Some t ->
    is_Some (hr_nodes s !! a) /\ addr_ok a /\ 0 <= base t < 8 /\ is_soft t = (4 <=? base t) /\ _softexpires t <= node_expires t /\
    (a <> x -> state t = if bool_decide (a ∈ default [] (Q !! Z.to_nat (base t))) then 1 else 0);
  hi_own : forall i L a t, Q !! i = Some L -> a ∈ L -> hr_timers s !! a = Some t -> Z.of_nat i = base t
}.

(** A queued timer is one. *)
Lemma queued_timer x Q s i L a :
  hr_inv x Q s -> Q !! i = Some L -> a ∈ L -> exists t, hr_timers s !! a = Some t.
Proof.
  intros [Hlen Hq _ _ _ _] Hi Ha. destruct (lookup_lt_is_Some_2 (clock_base (cpu_base s)) i) as [b Hb].
  { apply lookup_lt_Some in Hi. lia. }
  destruct (Hq _ _ _ Hb Hi) as (_ & _ & He). specialize (He a Ha). unfold expires_of, timer_at in He.
  destruct (hr_timers s !! a) as [t|]; [by exists t|done].
Qed.

(** The parts of the state that the invariant is about. *)
Definition same_core s s' : Prop :=
  hr_nodes s' = hr_nodes s /\ hr_timers s' = hr_timers s /\ clock_base (cpu_base s') = clock_base (cpu_base s) /\
  active_bases (cpu_base s') = active_bases (cpu_base s) /\ env s' = env s.

Lemma same_core_refl s : same_core s s.
Proof. done. Qed.

Lemma same_core_trans s1 s2 s3 : same_core s1 s2 -> same_core s2 s3 -> same_core s1 s3.
Proof. unfold same_core. intros (? & ? & ? & ? & ?) (? & ? & ? & ? & ?). split_and!; congruence. Qed.

(** The links of the bases, and so the invariant, depend on no other field. *)
Definition links (b : hrtimer_clock_base) : Z * Z := (active_root b, active_leftmost b).

Lemma hr_inv_links x Q s s' :
  hr_nodes s' = hr_nodes s -> hr_timers s' = hr_timers s -> links <$> clock_base (cpu_base s') = links <$> clock_base (cpu_base s) ->
  active_bases (cpu_base s') = active_bases (cpu_base s) -> hr_inv x Q s -> hr_inv x Q s'.
Proof.
  intros Hn Ht Hb Ha [[HQ Hl] H2 H3 H4 H5 H6 H7]. split; rewrite ?Hn, ?Ht, ?Ha; [| |done..].
  - split; [done|]. by rewrite <- (length_fmap links), Hb, length_fmap.
  - intros i b L Hi EQ. pose proof (f_equal (lookup i) Hb) as E. rewrite !list_lookup_fmap, Hi in E.
    destruct (clock_base (cpu_base s) !! i) as [b0|] eqn:E0; [|done]. cbn in E. injection E as Er El.
    eapply base_queue_frame; [by eapply H2|done|done|by rewrite Hn|]. intros a t _ E. exists t. by rewrite Ht.
Qed.

Lemma hr_inv_core x Q s s' : same_core s s' -> hr_inv x Q s -> hr_inv x Q s'.
Proof. intros (? & ? & Hb & ? & _). apply hr_inv_links; [done..| |done]. by rewrite Hb. Qed.

Lemma base_at_ok x Q s i : hr_inv x Q s -> 0 <= i < 8 ->
  exists b L, base_at s i = Ok b /\ clock_base (cpu_base s) !! Z.to_nat i = Some b /\ Q !! Z.to_nat i = Some L /\ base_queue s b L.
Proof.
  intros H Hi. destruct (hi_bases _ _ _ H) as [HQ Hb].
  destruct (lookup_lt_is_Some_2 (clock_base (cpu_base s)) (Z.to_nat i)) as [b Eb]; [lia|].
  destruct (lookup_lt_is_Some_2 Q (Z.to_nat i)) as [L EL]; [lia|].
  exists b, L. unfold base_at. rewrite Eb. split_and!; [done..|]. by eapply hi_queue.
Qed.

(** An active base has a first timer. *)
Lemma active_base x Q s i : hr_inv x Q s -> 0 <= i -> Z.testbit (active_bases (cpu_base s)) i = true ->
  i < 8 /\ exists b a L t, base_at s i = Ok b /\ clock_base (cpu_base s) !! Z.to_nat i = Some b /\ Q !! Z.to_nat i = Some (a :: L) /\
    base_queue s b (a :: L) /\ timerqueue_getnext (queue_at s b) = a /\ a <> 0 /\ timer_at s a = Ok t /\ hr_timers s !! a = Some t.
Proof.
  intros H Hi Ht. pose proof (hi_active _ _ _ H (Z.to_nat i)) as Ha. rewrite Z2Nat.id, Ht in Ha by done.
  destruct (Q !! Z.to_nat i) as [[|a L]|] eqn:EQ; [done| |done]. pose proof (lookup_lt_Some _ _ _ EQ). destruct (hi_bases _ _ _ H) as [HQ _].
  assert (Hi8 : i < 8) by lia. split; [done|]. destruct (base_at_ok _ _ _ i H) as (b & L' & Eb & Eb' & EL & Hq); [lia|].
  rewrite EQ in EL. injection EL as <-. destruct (queued_timer _ _ _ _ _ a H EQ) as [t Et]; [set_solver|].
  exists b, a, L, t. split_and!; [done..| | | |done].
  - by apply (timerqueue_getnext_ok _ _ _ _ Hq).
  - apply addr_ok_nonzero. by apply (hi_timer _ _ _ H a t Et).
  - unfold timer_at. by rewrite Et.
Qed.

(** ** The next event *)

(** When the timer [a] of the base [i] expires, on the monotonic clock. *)
Definition event s (i a : Z) : Z := ktime_sub (key_of s a) (match clock_base (cpu_base s) !! Z.to_nat i with Some b => offset b | None => 0 end).

(** The field of [s'] that the search writes for the timer [t]. *)
Definition next_for (t : hrtimer) s : Z := if is_soft t then softirq_next_timer (cpu_base s) else next_timer (cpu_base s).

(** [r] is the least of [e] and the events of the first timers of [active], and
    [s'] names the timer. *)
Definition least_event (Q : list (list Z)) s s' (active e r : Z) : Prop :=
  r <= e /\ (forall i a L, 0 <= i -> Z.testbit active i = true -> Q !! Z.to_nat i = Some (a :: L) -> r <= event s i a) /\
  (r = e /\ (forall t, next_for t s' = next_for t s) \/
   exists i a L t, 0 <= i /\ Z.testbit active i = true /\ Q !! Z.to_nat i = Some (a :: L) /\ r = event s i a /\ hr_timers s !! a = Some t /\ next_for t s' = a).

Lemma event_core s s' i a : same_core s s' -> event s' i a = event s i a.
Proof. intros (_ & Ht & Hb & _). unfold event, key_of. by rewrite Ht, Hb. Qed.

Lemma least_event_step Q s s1 s' active active' e i a L t r :
  same_core s s1 -> 0 <= i -> Z.testbit active i = true -> Q !! Z.to_nat i = Some (a :: L) -> hr_timers s !! a = Some t ->
  (forall j, 0 <= j -> Z.testbit active' j = Z.testbit active j && negb (j =? i)) ->
  (event s i a < e -> next_for t s1 = a) -> (e <= event s i a -> s1 = s) ->
  least_event Q s1 s' active' (Z.min e (event s i a)) r -> least_event Q s s' active e r.
Proof.
  intros Hs Hi Hb EQ Et Hrest Hset Hkeep (H1 & H2 & H3). split; [lia|]. split.
  - intros j a' L' Hj Hbj EQ'. destruct (Z.eq_dec j i) as [->|Hne]; [rewrite EQ in EQ'; injection EQ' as <- <-; lia|].
    rewrite <- (event_core _ _ _ _ Hs). eapply H2; [done| |done]. rewrite Hrest, Hbj by done. by rewrite (proj2 (Z.eqb_neq j i) Hne).
  - destruct H3 as [[-> Hn]|(j & a' & L' & t' & Hj & Hbj & EQ' & -> & Et' & Hn)].
    + destruct (Z.le_gt_cases e (event s i a)) as [Hle|Hlt].
      * rewrite Z.min_l by done. left. by rewrite <- (Hkeep Hle).
      * rewrite Z.min_r by lia. right. exists i, a, L, t. rewrite Hn. by auto 10.
    + right. exists j, a', L', t'. rewrite (event_core _ _ _ _ Hs). rewrite Hrest in Hbj by done. apply andb_true_iff in Hbj as [? _].
      destruct Hs as (_ & Ht & _). rewrite Ht in Et'. by split_and!.
Qed.

Lemma next_event_loop_ok x Q fuel s active e m :
  hr_inv x Q s -> 0 <= active < 2 ^ 32 -> (forall j, 0 <= j -> Z.testbit active j = true -> Z.testbit (active_bases (cpu_base s)) j = true) ->
  (forall j, 0 <= j < m -> Z.testbit active j = false) -> 0 <= m <= 32 -> 33 - m <= Z.of_nat fuel ->
  exists r s', next_event_loop fuel 0 active e s = Ok (r, s') /\ same_core s s' /\ least_event Q s s' active e r.
Proof.
  revert s active e m. induction fuel as [|fuel IH]; intros s active e m H Ha Hsub Hm Hm0 Hf; [lia|]. cbn [next_event_loop].
  pose proof (next_base_ok active m Ha Hm ltac:(lia)) as Hn. destruct (__next_base active) as [[i active']|].
  2: { exists e, s. split_and!; [done|done|]. split; [lia|]. split; [intros i a L Hi Hb; by rewrite Hn in Hb|by left]. }
  destruct Hn as (Hi & Hb & Ha' & Hrest & Hm'). assert (Hi0 : 0 <= i) by lia.
  destruct (active_base _ _ _ i H Hi0 (Hsub i Hi0 Hb)) as (Hi8 & b & a & L & t & -> & Eb & EQ & Hq & Hnext & Ha0 & Et & Et').
  cbn [mbind outcome_bind]. rewrite Hnext, (proj2 (Z.eqb_neq a 0) Ha0). cbn [mbind outcome_bind]. rewrite Et. cbn [mbind outcome_bind negb Z.eqb].
  assert (Hev : ktime_sub (node_expires t) (offset b) = event s i a) by (unfold event, key_of; by rewrite Et', Eb). rewrite Hev.
  assert (Hsub' : forall j, 0 <= j -> Z.testbit active' j = true -> Z.testbit (active_bases (cpu_base s)) j = true).
  { intros j Hj. rewrite Hrest by done. intros [? _]%andb_true_iff. by apply Hsub. }
  assert (Hgo : forall e' s1, same_core s s1 -> e' = Z.min e (event s i a) -> (event s i a < e -> next_for t s1 = a) -> (e <= event s i a -> s1 = s) ->
    exists r s', next_event_loop fuel 0 active' e' s1 = Ok (r, s') /\ same_core s s' /\ least_event Q s s' active e r).
  { intros e' s1 Hs -> Hset Hkeep. destruct (IH s1 active' (Z.min e (event s i a)) (i + 1)) as (r & s' & Hrun & Hs' & Hl);
      [by eapply hr_inv_core|done| |done|lia|lia|].
    { destruct Hs as (_ & _ & _ & -> & _). done. }
    exists r, s'. split; [done|]. split; [by eapply same_core_trans|]. by eapply least_event_step. }
  destruct (Z.ltb_spec (event s i a) e); apply Hgo; try done; try lia; unfold next_for; destruct (is_soft t); done.
Qed.

(** [r] is the time of the earliest first timer of the bases [B]: no timer
    expires before 0, the past. *)
Definition earliest (Q : list (list Z)) s (B : Z -> bool) (r : Z) : Prop :=
  0 <= r <= KTIME_MAX /\ (forall i a L, 0 <= i -> B i = true -> Q !! Z.to_nat i = Some (a :: L) -> r <= Z.max 0 (event s i a)) /\
  (r = KTIME_MAX \/ exists i a L, 0 <= i /\ B i = true /\ Q !! Z.to_nat i = Some (a :: L) /\ r = Z.max 0 (event s i a)).

Lemma earliest_core Q s s' B r : same_core s s' -> earliest Q s' B r -> earliest Q s B r.
Proof.
  intros Hs (H1 & H2 & H3). split; [done|]. split; [intros; rewrite <- (event_core _ _ _ _ Hs); eauto|].
  destruct H3 as [?|(i & a & L & ? & ? & ? & ->)]; [by left|right]. exists i, a, L. by rewrite (event_core _ _ _ _ Hs).
Qed.

Lemma earliest_ext Q s B B' r : (forall i, 0 <= i -> B i = B' i) -> earliest Q s B r -> earliest Q s B' r.
Proof.
  intros HB (H1 & H2 & H3). split; [done|]. split; [intros i a L Hi; rewrite <- HB by done; eauto|].
  destruct H3 as [?|(i & a & L & ? & ? & ? & ->)]; [by left|right]. exists i, a, L. by rewrite <- HB.
Qed.

Lemma earliest_none Q s : earliest Q s (fun _ => false) KTIME_MAX.
Proof. split; [by split|]. split; [done|by left]. Qed.

Lemma next_event_base_ok x Q s active e B :
  hr_inv x Q s -> 0 <= active < 2 ^ 32 -> (forall j, 0 <= j -> Z.testbit active j = true -> Z.testbit (active_bases (cpu_base s)) j = true) ->
  earliest Q s B e ->
  exists r s', __hrtimer_next_event_base 0 active e s = Ok (r, s') /\ same_core s s' /\ earliest Q s (fun i => B i || Z.testbit active i) r /\
    (r = e \/ exists i a L t, 0 <= i /\ Z.testbit active i = true /\ Q !! Z.to_nat i = Some (a :: L) /\ hr_timers s !! a = Some t /\ next_for t s' = a).
Proof.
  intros H Ha Hsub (He & HB & He'). destruct (next_event_loop_ok x Q 33 s active e 0 H Ha Hsub) as (r & s' & Hrun & Hs & H1 & H2 & H3); [lia|lia|lia|].
  unfold __hrtimer_next_event_base. rewrite Hrun. cbn [mbind outcome_bind]. exists (Z.max 0 r), s'.
  split; [destruct (Z.ltb_spec r 0); f_equal; f_equal; lia|]. split; [done|]. split; [split; [lia|split]|].
  - intros i a L Hi [Hb|Hb]%orb_true_iff HQ; [specialize (HB _ _ _ Hi Hb HQ)|specialize (H2 _ _ _ Hi Hb HQ)]; lia.
  - destruct H3 as [[-> _]|(i & a & L & t & ? & Hb & ? & -> & _)].
    + destruct He' as [->|(i & a & L & ? & Hb & ? & ->)]; [by left|right]. exists i, a, L. rewrite Hb. split_and!; [done..|lia].
    + right. exists i, a, L. rewrite Hb. by rewrite orb_true_r.
  - destruct H3 as [[-> _]|(i & a & L & t & ? & Hb & ? & -> & ? & ?)]; [left; lia|right]. by exists i, a, L, t.
Qed.

Lemma masked_sub s mask j : Z.testbit (Z.land (active_bases (cpu_base s)) mask) j = true -> Z.testbit (active_bases (cpu_base s)) j = true.
Proof. rewrite Z.land_spec. by intros [? _]%andb_true_iff. Qed.

(** The bases that a search looks at. *)
Definition hard_bases s (i : Z) : bool := Z.testbit (Z.land (active_bases (cpu_base s)) HRTIMER_ACTIVE_HARD) i.
Definition soft_bases s (i : Z) : bool := Z.testbit (Z.land (active_bases (cpu_base s)) HRTIMER_ACTIVE_SOFT) i.

Lemma get_next_hard x Q s :
  hr_inv x Q s -> exists r s', __hrtimer_get_next_event HRTIMER_ACTIVE_HARD s = Ok (r, s') /\ same_core s s' /\ earliest Q s (hard_bases s) r.
Proof.
  intros H. unfold __hrtimer_get_next_event. rewrite andb_false_r. cbn [mbind outcome_bind].
  change (negb (Z.land HRTIMER_ACTIVE_HARD HRTIMER_ACTIVE_HARD =? 0)) with true. cbv iota.
  assert (Hs : same_core s (upd_cpu (set_next_timer 0) s)) by done. pose proof (hr_inv_core _ _ _ _ Hs H) as H'.
  destruct (next_event_base_ok x Q _ (Z.land (active_bases (cpu_base s)) HRTIMER_ACTIVE_HARD) KTIME_MAX (fun _ => false) H') as (r & s' & Hrun & Hs' & He & Hp).
  - apply land_range; [apply H|done].
  - intros j _. exact (masked_sub s _ j).
  - apply earliest_none.
  - exists r, s'. split; [exact Hrun|]. split; [by eapply same_core_trans|]. eapply earliest_core; [exact Hs|]. by eapply earliest_ext; [|exact He].
Qed.

Lemma get_next_soft x Q s :
  hr_inv x Q s -> softirq_activated (cpu_base s) = false ->
  exists r s', __hrtimer_get_next_event HRTIMER_ACTIVE_SOFT s = Ok (r, s') /\ same_core s s' /\ earliest Q s (soft_bases s) r /\
    (r = KTIME_MAX \/ exists t, hr_timers s !! softirq_next_timer (cpu_base s') = Some t).
Proof.
  intros H Hact. unfold __hrtimer_get_next_event. rewrite Hact.
  change (negb false && negb (Z.land HRTIMER_ACTIVE_SOFT HRTIMER_ACTIVE_SOFT =? 0)) with true.
  change (negb (Z.land HRTIMER_ACTIVE_SOFT HRTIMER_ACTIVE_HARD =? 0)) with false. cbv iota.
  assert (Hs : same_core s (upd_cpu (set_softirq_next_timer 0) s)) by done. pose proof (hr_inv_core _ _ _ _ Hs H) as H'.
  destruct (next_event_base_ok x Q _ (Z.land (active_bases (cpu_base s)) HRTIMER_ACTIVE_SOFT) KTIME_MAX (fun _ => false) H') as (r & s' & Hrun & Hs' & He & Hp).
  - apply land_range; [apply H|done].
  - intros j _. exact (masked_sub s _ j).
  - apply earliest_none.
  - rewrite Hrun. exists r, s'. split; [done|]. split; [by eapply same_core_trans|]. split; [eapply earliest_core; [exact Hs|]; by eapply earliest_ext; [|exact He]|].
    destruct Hp as [->|(i & a & L & t & Hi & Hb & HQ & Et & Hn)]; [by left|right]. exists t.
    destruct (hi_timer _ _ _ H _ _ Et) as (_ & _ & _ & Hsoft & _). pose proof (hi_own _ _ _ H _ _ a _ HQ ltac:(set_solver) Et) as Eb.
    rewrite Z2Nat.id in Eb by done. rewrite Z.land_spec in Hb. apply andb_true_iff in Hb as [_ Hb].
    assert (4 <= i) by (destruct (Z.lt_ge_cases i 4); [|done]; assert (i = 0 \/ i = 1 \/ i = 2 \/ i = 3) as [->|[->|[->| ->]]] by lia; done).
    unfold next_for in Hn. rewrite Hsoft, (proj2 (Z.leb_le _ _)) in Hn by lia. by rewrite Hn.
Qed.

Lemma earliest_min Q s B1 B2 r1 r2 : earliest Q s B1 r1 -> earliest Q s B2 r2 -> earliest Q s (fun i => B2 i || B1 i) (Z.min r1 r2).
Proof.
  intros (H1 & H2 & H3) (G1 & G2 & G3). split; [lia|]. split.
  - intros i a L Hi [Hb|Hb]%orb_true_iff HQ; [specialize (G2 _ _ _ Hi Hb HQ)|specialize (H2 _ _ _ Hi Hb HQ)]; lia.
  - destruct (Z.min_spec r1 r2) as [[_ ->]|[_ ->]]; [destruct H3 as [?|(i & a & L & ? & Hb & ? & ?)]|destruct G3 as [?|(i & a & L & ? & Hb & ? & ?)]];
      [by left| |by left|]; right; exists i, a, L; by rewrite Hb, ?orb_true_r.
Qed.

(** [hrtimer_update_next_event] *)
Definition watched_bases s (i : Z) : bool := hard_bases s i || negb (softirq_activated (cpu_base s)) && soft_bases s i.

Lemma update_next_event_ok x Q s :
  hr_inv x Q s -> exists r s', hrtimer_update_next_event s = Ok (r, s') /\ same_core s s' /\ earliest Q s (watched_bases s) r.
Proof.
  intros H. unfold hrtimer_update_next_event, watched_bases. destruct (softirq_activated (cpu_base s)) eqn:Hact; cbn [negb].
  - destruct (get_next_hard x Q s H) as (r & s' & Hrun & Hs & He). cbn [mbind outcome_bind]. rewrite Hrun. cbn [mbind outcome_bind].
    assert (r <= KTIME_MAX) by apply He. destruct (Z.gtb_spec r KTIME_MAX); [lia|]. exists r, s'. split_and!; [done..|].
    eapply earliest_ext; [|exact He]. intros i _. by rewrite orb_false_r.
  - destruct (get_next_soft x Q s H Hact) as (r1 & s1 & Hrun1 & Hs1 & He1 & _). rewrite Hrun1. cbn [mbind outcome_bind].
    assert (Hs1' : same_core s (upd_cpu (set_softirq_expires_next r1) s1)) by (eapply same_core_trans; [exact Hs1|done]).
    destruct (get_next_hard x Q _ (hr_inv_core _ _ _ _ Hs1' H)) as (r2 & s2 & Hrun2 & Hs2 & He2). rewrite Hrun2. cbn [mbind outcome_bind].
    apply (earliest_core _ _ _ _ _ Hs1') in He2. pose proof (same_core_trans _ _ _ Hs1' Hs2) as Hs'.
    assert (Hmin : earliest Q s (fun i => hard_bases s i || (true && soft_bases s i)) (Z.min r1 r2)).
    { eapply earliest_ext; [|exact (earliest_min _ _ _ _ _ _ He1 He2)]. intros i _. unfold hard_bases. destruct Hs1' as (_ & _ & _ & -> & _). done. }
    destruct (Z.gtb_spec r2 r1).
    + exists r1, (upd_cpu (fun c => set_next_timer (softirq_next_timer c) c) s2). split; [done|]. split; [eapply same_core_trans; [exact Hs'|done]|].
      by rewrite Z.min_l in Hmin by lia.
    + exists r2, s2. split_and!; [done..|]. by rewrite Z.min_r in Hmin by lia.
Qed.

Lemma force_reprogram_ok x Q s skip : hr_inv x Q s -> exists s', hrtimer_force_reprogram skip s = Ok s' /\ same_core s s'.
Proof.
  intros H. destruct (update_next_event_ok x Q s H) as (r & s' & Hrun & Hs & _). unfold hrtimer_force_reprogram. rewrite Hrun. cbn [mbind outcome_bind].
  destruct (_ && _); eexists; (split; [done|]); [done|]. eapply same_core_trans; [exact Hs|done].
Qed.

Lemma reprogram_ok x Q s a t flag : hr_inv x Q s -> hr_timers s !! a = Some t -> exists s', hrtimer_reprogram a flag s = Ok s' /\ same_core s s'.
Proof.
  intros H Et. destruct (hi_timer _ _ _ H _ _ Et) as (_ & _ & Hb & _). destruct (base_at_ok _ _ _ _ H Hb) as (b & L & Eb & _).
  unfold hrtimer_reprogram, timer_at. rewrite Et. cbn [mbind outcome_bind]. rewrite Eb. cbn [mbind outcome_bind]. repeat case_match; by eexists.
Qed.

End inv.
