(* ===== verification/HrtimerQueue.v ===== *)
(** * kernel/time/hrtimer.c: queueing and dequeueing

    What [enqueue_hrtimer], [__remove_hrtimer] and the functions above them do
    to the queues. *)

From stdpp Require Import gmap.
From Stdlib Require Import ZifyBool.
From S2P Require Import Prelude RbTree RbTreeShape RbTreeCached Timerqueue Hrtimer HrtimerInv.

Local Open Scope Z_scope.

Section queue.
Context {W : Type}.
Implicit Types s : hstate W.

(** What a queue operation leaves alone. *)
Definition keeps s s' : Prop :=
  env s' = env s /\ (fun b => (running b, offset b)) <$> clock_base (cpu_base s') = (fun b => (running b, offset b)) <$> clock_base (cpu_base s).

Lemma keeps_refl s : keeps s s.
Proof. done. Qed.

Lemma hr_keeps_trans s1 s2 s3 : keeps s1 s2 -> keeps s2 s3 -> keeps s1 s3.
Proof. intros [? ?] [? ?]. split; congruence. Qed.

Lemma keeps_core s s' : same_core s s' -> keeps s s'.
Proof. intros (_ & _ & Hb & _ & He). split; [done|]. by rewrite Hb. Qed.

(** The nodes of a queue are in memory. *)
Lemma base_queue_mapped s b L a : base_queue s b L -> a ∈ L -> is_Some (hr_nodes s !! a) /\ addr_ok a.
Proof. intros [[Ht _] _] Ha. by apply (tree_of_mapped _ _ a Ht). Qed.

Lemma null_not_queued s b L : base_queue s b L -> 0 ∉ L.
Proof. intros H H0. destruct (base_queue_mapped _ _ _ _ H H0) as [_ Ha]. by eapply addr_ok_nonzero. Qed.

(** One queue and one timer change. *)
Section update.
Context (x x' : Z) (Q : list (list Z)) (s s' : hstate W) (i : nat) (b b' : hrtimer_clock_base) (L L' : list Z) (a : Z) (t t' : hrtimer).
Hypothesis inv : hr_inv x Q s.
Hypothesis at_base : clock_base (cpu_base s) !! i = Some b.
Hypothesis at_queue : Q !! i = Some L.
Hypothesis bases' : clock_base (cpu_base s') = <[i := b']> (clock_base (cpu_base s)).
Hypothesis timers' : hr_timers s' = <[a := t']> (hr_timers s).
Hypothesis at_timer : hr_timers s !! a = Some t.
Hypothesis own_base : base t = Z.of_nat i.
Hypothesis same_base : base t' = base t.
Hypothesis same_soft : is_soft t' = is_soft t.
Hypothesis soft_first : _softexpires t' <= node_expires t'.
Hypothesis queue' : base_queue s' b' L'.
Hypothesis nodes_same : forall c, c ∉ a :: L -> hr_nodes s' !! c = hr_nodes s !! c.
Hypothesis nodes_mapped : forall c, c ∈ a :: L -> is_Some (hr_nodes s' !! c).
Hypothesis others : forall c, c <> a -> c ∈ L' <-> c ∈ L.
Hypothesis active_range' : 0 <= active_bases (cpu_base s') < 2 ^ 32.
Hypothesis active' : forall j, 0 <= j -> Z.testbit (active_bases (cpu_base s')) j =
  if j =? Z.of_nat i then negb (bool_decide (L' = [])) else Z.testbit (active_bases (cpu_base s)) j.
Hypothesis state' : a <> x' -> state t' = if bool_decide (a ∈ L') then 1 else 0.
Hypothesis transit : x = 0 \/ x = a.
Hypothesis transit' : x' = 0 \/ x' = a /\ a ∉ L'.

Lemma own_queue j M : Q !! j = Some M -> a ∈ M -> j = i.
Proof. intros Hj Ha. pose proof (hi_own _ _ _ inv _ _ _ _ Hj Ha at_timer). lia. Qed.

Lemma disjoint_queue j M c : Q !! j = Some M -> c ∈ M -> j <> i -> c ∉ a :: L.
Proof.
  intros Hj Hc Hne Hin. apply elem_of_cons in Hin as [->|Hin]; [by apply Hne, (own_queue _ M)|].
  destruct (queued_timer _ _ _ _ _ c inv Hj Hc) as [tc Htc].
  pose proof (hi_own _ _ _ inv _ _ _ _ Hj Hc Htc). pose proof (hi_own _ _ _ inv _ _ _ _ at_queue Hin Htc). lia.
Qed.

Lemma updated_queue j b0 M : clock_base (cpu_base s') !! j = Some b0 -> <[i := L']> Q !! j = Some M -> base_queue s' b0 M.
Proof.
  intros Hb HQ. pose proof (lookup_lt_Some _ _ _ at_base). pose proof (lookup_lt_Some _ _ _ at_queue).
  rewrite bases' in Hb. destruct (decide (j = i)) as [->|Hne].
  - rewrite list_lookup_insert_eq in Hb by done. rewrite list_lookup_insert_eq in HQ by done. by injection Hb as <-; injection HQ as <-.
  - rewrite list_lookup_insert_ne in Hb by done. rewrite list_lookup_insert_ne in HQ by done. eapply base_queue_frame; [by eapply (hi_queue _ _ _ inv)|done|done|..].
    + intros c Hc. apply nodes_same. by eapply disjoint_queue.
    + intros c tc Hc Htc. exists tc. rewrite timers', lookup_insert_ne; [done|]. intros <-. by apply Hne, (own_queue j M).
Qed.

Lemma updated_timer c tc : hr_timers s' !! c = Some tc ->
  is_Some (hr_nodes s' !! c) /\ addr_ok c /\ 0 <= base tc < 8 /\ is_soft tc = (4 <=? base tc) /\ _softexpires tc <= node_expires tc /\
  (c <> x' -> state tc = if bool_decide (c ∈ default [] (<[i := L']> Q !! Z.to_nat (base tc))) then 1 else 0).
Proof.
  intros Htc. pose proof (lookup_lt_Some _ _ _ at_queue). rewrite timers' in Htc. destruct (decide (c = a)) as [->|Hne].
  - rewrite lookup_insert_eq in Htc. injection Htc as <-. destruct (hi_timer _ _ _ inv _ _ at_timer) as (_ & ? & ? & ? & _).
    rewrite same_base, same_soft. split; [apply nodes_mapped; set_solver|]. do 4 (split; [done|]). intros Hx. rewrite own_base, Nat2Z.id, list_lookup_insert_eq by done. by apply state'.
  - rewrite lookup_insert_ne in Htc by done. destruct (hi_timer _ _ _ inv _ _ Htc) as (Hm & ? & ? & ? & ? & Hst). split; [|do 4 (split; [done|])].
    + destruct (decide (c ∈ a :: L)) as [Hin|Hn]; [by apply nodes_mapped|by rewrite nodes_same].
    + intros Hx. rewrite Hst by (destruct transit as [->| ->]; [|done]; intros ->; by eapply (addr_ok_nonzero 0)).
      destruct (decide (Z.to_nat (base tc) = i)) as [E|Hni].
      * rewrite E, list_lookup_insert_eq, at_queue by done. cbn. by rewrite (bool_decide_ext _ _ (others c Hne)).
      * by rewrite list_lookup_insert_ne.
Qed.

Lemma hr_inv_update : hr_inv x' (<[i := L']> Q) s'.
Proof.
  pose proof (lookup_lt_Some _ _ _ at_queue) as Hlt. pose proof inv as [[HQ Hb] H2 H3 H4 H5 H6 H7]. split.
  - rewrite bases', !length_insert. done.
  - apply updated_queue.
  - done.
  - intros j. rewrite active' by lia. destruct (Z.eqb_spec (Z.of_nat j) (Z.of_nat i)) as [E|E].
    + apply Nat2Z.inj in E as ->. rewrite list_lookup_insert_eq by done. by destruct L'.
    + rewrite list_lookup_insert_ne by lia. apply H4.
  - intros j M Hj. destruct transit' as [->|[-> HaL]].
    + destruct (lookup_lt_is_Some_2 (clock_base (cpu_base s')) j) as [b0 Hb0].
      { apply lookup_lt_Some in Hj. rewrite length_insert in Hj. rewrite bases', length_insert. lia. }
      eapply null_not_queued, updated_queue; done.
    + destruct (decide (j = i)) as [->|Hne]; [by rewrite list_lookup_insert_eq in Hj by done; injection Hj as <-|].
      rewrite list_lookup_insert_ne in Hj by done. intros Ha. by apply Hne, (own_queue j M).
  - apply updated_timer.
  - intros j M c tc Hj Hc Htc. rewrite timers' in Htc.
    assert (Hc' : c = a \/ c <> a) by lia. destruct Hc' as [->|Hne].
    + rewrite lookup_insert_eq in Htc. injection Htc as <-. rewrite same_base, own_base. f_equal.
      destruct (decide (j = i)) as [->|Hni]; [done|]. rewrite list_lookup_insert_ne in Hj by done. by eapply own_queue.
    + rewrite lookup_insert_ne in Htc by done. destruct (decide (j = i)) as [->|Hni].
      * rewrite list_lookup_insert_eq in Hj by done. injection Hj as <-. eapply H7; [exact at_queue|by apply others|done].
      * rewrite list_lookup_insert_ne in Hj by done. by eapply H7.
Qed.

End update.
Lemma hr_inv_transit Q s a : hr_inv 0 Q s -> (forall i L, Q !! i = Some L -> a ∉ L) -> hr_inv a Q s.
Proof.
  intros [H1 H2 H3 H4 H5 H6 H7] Ha. split; try done. intros c t Hc. destruct (H6 c t Hc) as (? & Hok & ? & ? & ? & Hst).
  do 5 (split; [done|]). intros _. by apply Hst, addr_ok_nonzero.
Qed.

Lemma queue_at_eq (q : timerqueue_head) : RbRootCached (RbRoot (nodes (rb_root q)) (root_node (rb_root q)) ()) (rb_leftmost q) = q.
Proof. by destruct q as [[h r []] f]. Qed.

Lemma enqueue_ext key key' a L : (forall c, c ∈ a :: L -> key c = key' c) -> enqueue key a L = enqueue key' a L.
Proof.
  induction L as [|c L IH]; intros H; [done|]. cbn. rewrite !H by set_solver. destruct (_ <? _); [done|]. f_equal. apply IH. set_solver.
Qed.

Lemma enqueue_nonempty key a L : enqueue key a L <> [].
Proof. destruct L; cbn; [done|]. by destruct (_ <? _). Qed.

Lemma keeps_put_base s s' i b b' :
  clock_base (cpu_base s) !! i = Some b -> running b' = running b -> offset b' = offset b ->
  clock_base (cpu_base s') = <[i := b']> (clock_base (cpu_base s)) -> env s' = env s -> keeps s s'.
Proof.
  intros Hb Hr Ho E He. split; [done|]. rewrite E, list_fmap_insert. apply list_insert_id. by rewrite list_lookup_fmap, Hb, Hr, Ho.
Qed.

(** ** [enqueue_hrtimer] *)

Lemma enqueue_hrtimer_ok Q s a t L :
  hr_inv a Q s -> hr_timers s !! a = Some t -> Q !! Z.to_nat (base t) = Some L ->
  exists s', enqueue_hrtimer a (base t) s = Ok (hd 0 (enqueue (key_of s) a L) =? a, s') /\
    hr_inv 0 (<[Z.to_nat (base t) := enqueue (key_of s) a L]> Q) s' /\
    hr_timers s' = <[a := set_state HRTIMER_STATE_ENQUEUED t]> (hr_timers s) /\ keeps s s'.
Proof.
  intros H Et EQ. destruct (hi_timer _ _ _ H _ _ Et) as (Hm & Hok & Hb & Hsoft & Hse & _). pose proof (hi_transit _ _ _ H _ _ EQ) as Ha.
  destruct (base_at_ok _ _ _ _ H Hb) as (b & L0 & Eb & Eb' & EL & Hq). rewrite EQ in EL. injection EL as <-.
  set (s1 := upd_cpu (fun c => set_active_bases (u32 (Z.lor (active_bases c) (Z.shiftl 1 (base t)))) c) s).
  set (s2 := put_timer a (set_state HRTIMER_STATE_ENQUEUED t) s1).
  assert (Hkey : forall c, key_of s2 c = key_of s c).
  { intros c. unfold key_of. cbn. destruct (decide (c = a)) as [->|]; [by rewrite lookup_insert_eq, Et|by rewrite lookup_insert_ne]. }
  assert (Hq2 : base_queue s2 b L).
  { eapply base_queue_frame; [exact Hq|done..|]. intros c tc Hc Htc. exists tc. cbn. by rewrite lookup_insert_ne by (intros ->; done). }
  assert (He : expires_of s2 a = Ok (key_of s2 a)) by (unfold expires_of, timer_at, key_of; cbn; by rewrite lookup_insert_eq).
  destruct (timerqueue_add_ok _ _ _ _ a Hq2 Ha Hm Hok He) as (q & Hrun & Hq' & Ho).
  rewrite (enqueue_ext (key_of s2) (key_of s)) in Hrun, Hq' by (intros; apply Hkey).
  unfold enqueue_hrtimer. rewrite Eb. cbn [mbind outcome_bind]. fold s1. unfold timer_at. cbn [s1 upd_cpu hr_timers]. rewrite Et. cbn [mbind outcome_bind].
  fold s1. fold s2. rewrite Hrun. cbn [mbind outcome_bind]. eexists. split; [done|].
  assert (Hb32 : 0 <= base t < 32) by lia. pose proof (set_bit _ _ (hi_active_range _ _ _ H) Hb32) as [Hr Hbits].
  split; [|split; [done|split; [done|]]].
  - eapply (hr_inv_update a 0 Q s _ (Z.to_nat (base t)) b _ L _ a t); [done|done|done|done|done|done|lia|done|done|done|..].
    + unfold base_queue, queue_at. cbn [put_queue put_base upd_cpu hr_nodes active_root active_leftmost]. rewrite queue_at_eq. exact Hq'.
    + exact Ho.
    + intros c Hc. apply (tree_of_mapped _ _ c (proj1 (proj1 Hq'))). by rewrite enqueue_perm.
    + intros c Hc. rewrite enqueue_perm, elem_of_cons. naive_solver.
    + exact Hr.
    + intros j Hj. etransitivity; [exact (Hbits j Hj)|]. rewrite Z2Nat.id by lia. rewrite (bool_decide_eq_false_2 (_ = [])) by (by apply enqueue_nonempty).
      destruct (Z.eqb_spec j (base t)) as [->|]; [apply orb_true_r|apply orb_false_r].
    + intros _. rewrite bool_decide_eq_true_2; [done|]. rewrite enqueue_perm. set_solver.
    + by right.
    + by left.
  - by eapply (keeps_put_base _ _ _ b (HrtimerClockBase (running b) (root_node (rb_root q)) (rb_leftmost q) (offset b))).
Qed.

(** ** [__remove_hrtimer] *)

Lemma remove_queued Q s a t L1 L2 newstate reprogram :
  hr_inv 0 Q s -> hr_timers s !! a = Some t -> Q !! Z.to_nat (base t) = Some (L1 ++ a :: L2) ->
  let x := if newstate =? 0 then 0 else a in
  exists s', __remove_hrtimer a (base t) newstate reprogram s = Ok s' /\
    hr_inv x (<[Z.to_nat (base t) := L1 ++ L2]> Q) s' /\ hr_timers s' = <[a := set_state newstate t]> (hr_timers s) /\ keeps s s'.
Proof.
  intros H Et EQ x. destruct (hi_timer _ _ _ H _ _ Et) as (Hm & Hok & Hb & Hsoft & Hse & Hst).
  rewrite EQ in Hst. cbn in Hst. rewrite bool_decide_eq_true_2 in Hst by set_solver. specialize (Hst (addr_ok_nonzero _ Hok)).
  destruct (base_at_ok _ _ _ _ H Hb) as (b & L0 & Eb & Eb' & EL & Hq). rewrite EQ in EL. injection EL as <-.
  pose proof (queue_of_nodup _ _ _ _ Hq) as Hnd. assert (HaL : a ∉ L1 ++ L2) by (nodup_facts Hnd; by apply not_elem_of_app).
  unfold __remove_hrtimer. unfold timer_at. rewrite Et. cbn [mbind outcome_bind]. rewrite Hst. cbn [Z.land].
  set (s1 := put_timer a (set_state newstate t) s).
  assert (Hq1 : base_queue s1 b (L1 ++ a :: L2)).
  { eapply base_queue_frame; [exact Hq|done..|]. intros c tc Hc Htc. cbn. destruct (decide (c = a)) as [->|]; [|by exists tc; rewrite lookup_insert_ne].
    rewrite lookup_insert_eq. eexists. split; [done|]. cbn. congruence. }
  change (base_at s1 (base t)) with (base_at s (base t)). rewrite Eb. cbn [mbind outcome_bind].
  destruct (timerqueue_del_ok _ _ _ _ _ _ Hq1) as (q & Hrun & Hq' & Ho & n & Hn & _). rewrite Hrun. cbn [mbind outcome_bind].
  assert (Hb32 : 0 <= base t < 32) by lia. pose proof (clear_bit _ _ (hi_active_range _ _ _ H) Hb32) as [Hr Hbits].
  pose proof (hi_active _ _ _ H (Z.to_nat (base t))) as Hact. rewrite EQ, Z2Nat.id in Hact by lia.
  match goal with |- exists s', (if _ then _ else if _ && (_ =? next_timer (cpu_base ?s0)) then _ else _) = Ok s' /\ _ => set (s2 := s0) end.
  set (b' := HrtimerClockBase (running b) (root_node (rb_root q)) (rb_leftmost q) (offset b)).
  assert (E2 : hr_nodes s2 = nodes (rb_root q) /\ hr_timers s2 = <[a := set_state newstate t]> (hr_timers s) /\
    clock_base (cpu_base s2) = <[Z.to_nat (base t) := b']> (clock_base (cpu_base s)) /\ env s2 = env s) by (subst s2 b'; by destruct (bool_decide (L1 ++ L2 = []))).
  destruct E2 as (En & Etm & Ecb & Eenv).
  assert (Hinv : hr_inv x (<[Z.to_nat (base t) := L1 ++ L2]> Q) s2).
  { eapply (hr_inv_update 0 x Q s s2 (Z.to_nat (base t)) b b' _ _ a t _); [done|done|done|done|done|done|lia|done|done|done|..].
    - unfold base_queue, queue_at. rewrite En. cbn [active_root active_leftmost b']. rewrite queue_at_eq. subst s2. by destruct (bool_decide (L1 ++ L2 = [])).
    - rewrite En. intros c Hc. apply Ho. set_solver.
    - rewrite En. intros c Hc. destruct (decide (c = a)) as [->|]; [by exists n|]. apply (tree_of_mapped _ _ c (proj1 (proj1 Hq'))). set_solver.
    - set_solver.
    - subst s2. destruct (bool_decide (L1 ++ L2 = [])); [exact Hr|apply H].
    - intros j Hj. rewrite Z2Nat.id by lia. subst s2. destruct (bool_decide (L1 ++ L2 = [])) eqn:El; cbn [negb].
      + etransitivity; [exact (Hbits j Hj)|]. destruct (Z.eqb_spec j (base t)); [apply andb_false_r|apply andb_true_r].
      + destruct (Z.eqb_spec j (base t)) as [->|]; [|done]. etransitivity; [exact Hact|]. by destruct L1.
    - intros Hx. rewrite bool_decide_eq_false_2 by done. subst x. cbn. destruct (Z.eqb_spec newstate 0); [done|by destruct Hx].
    - by left.
    - subst x. destruct (newstate =? 0); [by left|by right]. }
  assert (Hk : keeps s s2) by (by eapply (keeps_put_base _ _ _ b b')).
  cbn [Z.eqb HRTIMER_STATE_ENQUEUED Z.land]. destruct (_ && _); [|by exists s2].
  destruct (force_reprogram_ok _ _ _ true Hinv) as (s3 & Hrun3 & Hs3). exists s3. split; [exact Hrun3|]. split; [by eapply hr_inv_core|].
  split; [destruct Hs3 as (_ & -> & _); done|]. eapply hr_keeps_trans; [exact Hk|by apply keeps_core].
Qed.

End queue.
