(* ===== verification/HrtimerOps.v ===== *)
(** * kernel/time/hrtimer.c: starting, cancelling and initialising timers

    Every operation of the interface returns and keeps the invariant of the
    queues; a started timer is in the queue of its base, a cancelled one is in
    none. *)

From stdpp Require Import gmap.
From Stdlib Require Import ZifyBool.
From S2P Require Import Prelude RbTree RbTreeShape RbTreeCached Timerqueue Hrtimer HrtimerInv HrtimerQueue.

Local Open Scope Z_scope.

(** ** Times *)

Lemma ktime_add_safe_ok lhs rhs : - 2 ^ 63 <= lhs < 2 ^ 63 -> lhs <= ktime_add_safe lhs rhs <= KTIME_MAX.
Proof.
  intros Hl. unfold ktime_add_safe. set (res := s64 _). assert (Hr : - 2 ^ 63 <= res < 2 ^ 63) by (subst res; unfold s64; Z.to_euclidean_division_equations; lia).
  change (ktime_set KTIME_SEC_MAX 0) with KTIME_MAX. unfold KTIME_MAX. destruct ((res <? 0) || (res <? lhs) || (res <? rhs)) eqn:E; lia.
Qed.

Section ops.
Context {W : Type}.
Implicit Types s : hstate W.

(** The queues without a timer. *)
Definition without (a : Z) (Q : list (list Z)) : list (list Z) := list_remove a <$> Q.

Lemma without_id a Q : (forall i L, Q !! i = Some L -> a ∉ L) -> without a Q = Q.
Proof.
  intros H. apply list_eq. intros i. unfold without. rewrite list_lookup_fmap. destruct (Q !! i) as [L|] eqn:E; [|done]. cbn. f_equal.
  by apply list_remove_id, (H i).
Qed.

Lemma list_remove_elem a L : a ∉ list_remove a L.
Proof. unfold list_remove. rewrite list_elem_of_filter. naive_solver. Qed.

Lemma without_elem a Q i L : without a Q !! i = Some L -> a ∉ L.
Proof. unfold without. rewrite list_lookup_fmap, fmap_Some. intros (M & _ & ->). apply list_remove_elem. Qed.

Lemma state_cases Q s a t :
  hr_inv 0 Q s -> hr_timers s !! a = Some t ->
  state t = 1 /\ (exists L1 L2, Q !! Z.to_nat (base t) = Some (L1 ++ a :: L2) /\ <[Z.to_nat (base t) := L1 ++ L2]> Q = without a Q) \/
  state t = 0 /\ (forall i L, Q !! i = Some L -> a ∉ L) /\ without a Q = Q.
Proof.
  intros H Et. destruct (hi_timer _ _ _ H _ _ Et) as (_ & Hok & Hb & _ & _ & Hst). specialize (Hst (addr_ok_nonzero _ Hok)).
  destruct (base_at_ok _ _ _ _ H Hb) as (b & L & _ & _ & EQ & Hq). rewrite EQ in Hst. cbn in Hst.
  assert (Hother : forall i M, Q !! i = Some M -> a ∈ M -> i = Z.to_nat (base t)).
  { intros i M Hi Ha. pose proof (hi_own _ _ _ H _ _ _ _ Hi Ha Et). lia. }
  destruct (decide (a ∈ L)) as [Ha|Ha].
  - left. rewrite bool_decide_eq_true_2 in Hst by done. split; [done|]. apply list_elem_of_split in Ha as (L1 & L2 & ->). exists L1, L2. split; [done|].
    apply list_eq. intros i. unfold without. rewrite list_lookup_fmap. destruct (decide (i = Z.to_nat (base t))) as [->|Hne].
    + rewrite list_lookup_insert_eq by (by eapply lookup_lt_Some). rewrite EQ. cbn. by rewrite list_remove_mid by (by eapply queue_of_nodup).
    + rewrite list_lookup_insert_ne by done. destruct (Q !! i) as [M|] eqn:EM; [|done]. cbn. rewrite list_remove_id; [done|]. intros Ha. by apply Hne, (Hother i M).
  - right. rewrite bool_decide_eq_false_2 in Hst by done. split; [done|]. assert (Hno : forall i M, Q !! i = Some M -> a ∉ M).
    { intros i M Hi Hin. pose proof (Hother i M Hi Hin) as ->. rewrite EQ in Hi. by injection Hi as <-. }
    split; [done|]. by apply without_id.
Qed.

(** ** [remove_hrtimer] *)

Lemma remove_hrtimer_ok Q s a t (restart keep : bool) :
  hr_inv 0 Q s -> hr_timers s !! a = Some t ->
  let newstate := if restart then state t else 0 in
  exists s', remove_hrtimer a (base t) restart keep s = Ok (state t, s') /\ hr_inv (if restart then a else 0) (without a Q) s' /\
    hr_timers s' = <[a := set_state newstate t]> (hr_timers s) /\ keeps s s'.
Proof.
  intros H Et newstate. unfold remove_hrtimer, timer_at. rewrite Et. cbn [mbind outcome_bind].
  destruct (state_cases _ _ _ _ H Et) as [(Hst & L1 & L2 & EQ & <-)|(Hst & Hno & ->)]; rewrite Hst; cbn [Z.land HRTIMER_STATE_ENQUEUED Z.eqb negb].
  - set (rp := if negb restart then true else true && negb keep). fold rp.
    assert (En : (if negb restart then HRTIMER_STATE_INACTIVE else 1) = newstate) by (subst newstate; rewrite Hst; by destruct restart). rewrite En.
    destruct (remove_queued _ _ _ _ _ _ newstate rp H Et EQ) as (s' & Hrun & Hinv & Ht & Hk). rewrite Hrun. exists s'. split; [done|]. split; [|done].
    subst newstate. rewrite Hst in Hinv. by destruct restart.
  - exists s. split; [done|]. split; [destruct restart; [by apply hr_inv_transit|done]|]. split; [|done].
    assert (E : set_state newstate t = t) by (subst newstate; rewrite Hst; destruct t; cbn in *; subst; by destruct restart). rewrite E. by rewrite insert_id.
Qed.

(** ** [hrtimer_start_range_ns] *)

Lemma put_timer_transit Q s a t t' :
  hr_inv a Q s -> hr_timers s !! a = Some t -> base t' = base t -> is_soft t' = is_soft t -> _softexpires t' <= node_expires t' ->
  hr_inv a Q (put_timer a t' s).
Proof.
  intros [H1 H2 H3 H4 H5 H6 H7] Et Hb Hs Hse. split; cbn [put_timer hr_timers hr_nodes cpu_base]; try done.
  - intros i b L Hi HQ. eapply base_queue_frame; [by eapply H2|done..|]. intros c tc Hc Htc. exists tc. cbn. rewrite lookup_insert_ne; [done|].
    intros <-. by apply (H5 _ _ HQ).
  - intros c tc Htc. destruct (decide (c = a)) as [->|Hne].
    + rewrite lookup_insert_eq in Htc. injection Htc as <-. destruct (H6 _ _ Et) as (? & ? & ? & ? & _). rewrite Hb, Hs. do 5 (split; [done|]). done.
    + rewrite lookup_insert_ne in Htc by done. by apply H6.
  - intros i L c tc HQ Hc Htc. rewrite lookup_insert_ne in Htc by (intros <-; by apply (H5 _ _ HQ)). by eapply H7.
Qed.

(** The timer when it has been started. *)
Definition started (t : hrtimer) (tim delta_ns : Z) : hrtimer :=
  Hrtimer (ktime_add_safe tim (ns_to_ktime delta_ns)) tim (function t) (base t) HRTIMER_STATE_ENQUEUED (is_soft t) (is_hard t).

(** When it expires: [tim] counts from now in a relative mode. *)
Definition start_time (tim mode get_time : Z) : Z := if negb (Z.land mode HRTIMER_MODE_REL =? 0) then ktime_add_safe tim get_time else tim.

(** The queues with the timer in its place. *)
Definition with_timer (key : Z -> Z) (a : Z) (t : hrtimer) (Q : list (list Z)) : list (list Z) :=
  alter (enqueue key a) (Z.to_nat (base t)) (without a Q).

Lemma without_lookup a Q i L : Q !! i = Some L -> without a Q !! i = Some (list_remove a L).
Proof. intros E. unfold without. by rewrite list_lookup_fmap, E. Qed.

Lemma start_range_ok Q s a t tim delta_ns mode get_time :
  hr_inv 0 Q s -> hr_timers s !! a = Some t -> - 2 ^ 63 <= tim < 2 ^ 63 ->
  exists first s', __hrtimer_start_range_ns a tim delta_ns mode (base t) get_time s = Ok (first, s') /\
    hr_inv 0 (with_timer (key_of s') a t Q) s' /\
    hr_timers s' = <[a := started t (start_time tim mode get_time) delta_ns]> (hr_timers s) /\ keeps s s'.
Proof.
  intros H Et Htim. unfold __hrtimer_start_range_ns. set (local := next_timer (cpu_base s) =? a).
  destruct (remove_hrtimer_ok _ _ _ _ true local H Et) as (s1 & Hrun1 & H1 & Ht1 & Hk1). rewrite Hrun1. cbn [mbind outcome_bind]. fold (start_time tim mode get_time).
  assert (Htim' : - 2 ^ 63 <= start_time tim mode get_time < 2 ^ 63).
  { unfold start_time. pose proof (ktime_add_safe_ok tim get_time Htim) as Ha. unfold KTIME_MAX in Ha. case_match; lia. }
  set (tim' := start_time tim mode get_time) in *. pose proof (ktime_add_safe_ok tim' (ns_to_ktime delta_ns) Htim') as Hexp.
  set (t1 := set_state (state t) t) in *. assert (Et1 : hr_timers s1 !! a = Some t1) by (by rewrite Ht1, lookup_insert_eq).
  unfold hrtimer_set_expires_range_ns, timer_at. rewrite Et1. cbn [mbind outcome_bind].
  set (t2 := Hrtimer _ _ _ _ _ _ _). pose proof (put_timer_transit _ _ _ _ t2 H1 Et1 eq_refl eq_refl (proj1 Hexp)) as H2. set (s2 := put_timer a t2 s1) in *.
  assert (Et2 : hr_timers s2 !! a = Some t2) by apply lookup_insert_eq.
  destruct (hi_timer _ _ _ H _ _ Et) as (_ & _ & Hb & _). destruct (base_at_ok _ _ _ _ H Hb) as (b & L & _ & _ & EQ & _).
  pose proof (without_lookup a _ _ _ EQ) as EQ'.
  destruct (enqueue_hrtimer_ok _ _ _ t2 (list_remove a L) H2 Et2 EQ') as (s3 & Hrun3 & H3 & Ht3 & Hk3).
  change (base t) with (base t2). rewrite Hrun3. cbn [mbind outcome_bind].
  assert (Ht3' : hr_timers s3 = <[a := started t tim' delta_ns]> (hr_timers s)) by (rewrite Ht3; cbn; by rewrite Ht1, !insert_insert_eq).
  assert (H3' : hr_inv 0 (with_timer (key_of s3) a t Q) s3).
  { assert (E : with_timer (key_of s3) a t Q = <[Z.to_nat (base t2) := enqueue (key_of s2) a (list_remove a L)]> (without a Q)); [|by rewrite E].
    change (base t2) with (base t).
    unfold with_timer. apply list_eq. intros j. destruct (decide (j = Z.to_nat (base t))) as [->|Hne].
    - rewrite list_lookup_alter_eq, EQ', list_lookup_insert_eq by (by eapply lookup_lt_Some). cbn. f_equal. apply enqueue_ext. intros c _.
      unfold key_of. rewrite Ht3. cbn. destruct (decide (c = a)) as [->|]; [by rewrite !lookup_insert_eq|by rewrite !lookup_insert_ne].
    - by rewrite list_lookup_alter_ne, list_lookup_insert_ne. }
  assert (Hk : keeps s s3) by (eapply hr_keeps_trans; [exact Hk1|exact Hk3]).
  destruct (negb local); [by eexists _, s3|]. destruct (force_reprogram_ok _ _ _ true H3') as (s4 & Hrun4 & Hs4). rewrite Hrun4.
  eexists _, s4. split; [done|]. pose proof Hs4 as (_ & Ht4 & _).
  assert (Ek : key_of s4 = key_of s3) by (unfold key_of; by rewrite Ht4). rewrite Ek. split; [by eapply hr_inv_core|]. rewrite Ht4. split; [done|].
  eapply hr_keeps_trans; [exact Hk|by apply keeps_core].
Qed.

Lemma hrtimer_start_ok Q s a t tim delta_ns mode get_time :
  hr_inv 0 Q s -> hr_timers s !! a = Some t -> - 2 ^ 63 <= tim < 2 ^ 63 ->
  exists s', hrtimer_start_range_ns a tim delta_ns mode get_time s = Ok s' /\ hr_inv 0 (with_timer (key_of s') a t Q) s' /\
    hr_timers s' = <[a := started t (start_time tim mode get_time) delta_ns]> (hr_timers s) /\ keeps s s'.
Proof.
  intros H Et Htim. unfold hrtimer_start_range_ns, timer_at. rewrite Et. cbn [mbind outcome_bind].
  destruct (start_range_ok _ _ _ _ _ delta_ns mode get_time H Et Htim) as (first & s1 & -> & H1 & Ht1 & Hk1). cbn [mbind outcome_bind].
  destruct first; [|by exists s1]. destruct (reprogram_ok _ _ _ a (started t (start_time tim mode get_time) delta_ns) true H1) as (s2 & -> & Hs2); [by rewrite Ht1, lookup_insert_eq|].
  exists s2. split; [done|]. pose proof Hs2 as (_ & Ht2 & _). assert (Ek : key_of s2 = key_of s1) by (unfold key_of; by rewrite Ht2). rewrite Ek.
  split; [by eapply hr_inv_core|]. rewrite Ht2. split; [done|]. eapply hr_keeps_trans; [exact Hk1|by apply keeps_core].
Qed.

(** ** [hrtimer_try_to_cancel] *)

Lemma hrtimer_cancel_ok Q s a t :
  hr_inv 0 Q s -> hr_timers s !! a = Some t ->
  exists r s', hrtimer_try_to_cancel a s = Ok (r, s') /\ keeps s s' /\
    (r = -1 /\ s' = s /\ hrtimer_callback_running a s = Ok true \/
     r = state t /\ hr_inv 0 (without a Q) s' /\ hr_timers s' = <[a := set_state 0 t]> (hr_timers s)).
Proof.
  intros H Et. destruct (hi_timer _ _ _ H _ _ Et) as (_ & _ & Hb & _). destruct (base_at_ok _ _ _ _ H Hb) as (b & L & Eb & _).
  unfold hrtimer_try_to_cancel, hrtimer_active, hrtimer_callback_running, timer_at. rewrite Et. cbn [mbind outcome_bind]. rewrite Eb. cbn [mbind outcome_bind].
  destruct (remove_hrtimer_ok _ _ _ _ false false H Et) as (s' & Hrun & H' & Ht' & Hk).
  destruct (Z.eqb_spec (running b) a) as [Er|Er].
  - rewrite orb_true_r. cbn [negb]. exists (-1), s. split_and!; [done..|]. left. by split_and!.
  - rewrite orb_false_r. cbn [negb]. destruct (Z.eqb_spec (state t) HRTIMER_STATE_INACTIVE) as [E0|E0]; cbn [negb].
    + exists 0, s. split_and!; [done..|]. right. destruct (state_cases _ _ _ _ H Et) as [(Hst & _)|(Hst & _ & ->)]; [by rewrite E0 in Hst|].
      split_and!; [done..|]. rewrite insert_id; [done|]. rewrite Et. f_equal. destruct t; cbn in *. by subst.
    + rewrite Hrun. exists (state t), s'. split_and!; [done..|]. by right.
Qed.

End ops.
