(* ===== verification/HrtimerRun.v ===== *)
(** * kernel/time/hrtimer.c: expiry

    [__hrtimer_run_queues] runs the callback of every timer that is due and of
    none that is not, whatever the callbacks do to their own timers, as long as
    they do not set them to expire in the past again. *)

From stdpp Require Import gmap.
From Stdlib Require Import ZifyBool.
From S2P Require Import Prelude LibBits RbTree RbTreeShape RbTreeCached Timerqueue Hrtimer HrtimerInv HrtimerQueue HrtimerOps.

Local Open Scope Z_scope.

(** ** What is asked of the callbacks *)

(** A callback gets the timer it is called for, which is in no queue. It may
    change that timer's expiry and the rest of the kernel. If it asks for the
    timer to be queued again, then for a time after [limit]. [cb_env] is what it
    needs, and [cb_done] what it has achieved for a timer. *)
Class HrtimerCallback {W} (call : Z -> Z -> hstate W -> outcome (Z * hstate W)) (limit : Z) := {
  cb_env : hstate W -> Prop;
  cb_done : W -> Z -> Prop;
  cb_env_same s s' :
    cb_env s -> env s' = env s -> (forall a, function <$> hr_timers s' !! a = function <$> hr_timers s !! a) -> cb_env s';
  cb_call s a t :
    cb_env s -> hr_timers s !! a = Some t -> _softexpires t <= node_expires t ->
    exists r s' t', call (function t) a s = Ok (r, s') /\ hr_nodes s' = hr_nodes s /\ cpu_base s' = cpu_base s /\
      hr_timers s' = <[a := t']> (hr_timers s) /\ base t' = base t /\ is_soft t' = is_soft t /\ state t' = state t /\
      _softexpires t' <= node_expires t' /\ (r <> HRTIMER_NORESTART -> limit < _softexpires t') /\
      cb_env s' /\ cb_done (env s') a /\ forall b, cb_done (env s) b -> cb_done (env s') b
}.

Section fields.
Context {W : Type}.
Implicit Types s : hstate W.

Definition offsets s : list Z := offset <$> clock_base (cpu_base s).

Lemma keeps_offsets s s' : keeps s s' -> offsets s' = offsets s.
Proof.
  intros [_ H]. apply (f_equal (fmap snd)) in H. rewrite <- !list_fmap_compose in H. exact H.
Qed.

Lemma set_running_ok x Q s i v :
  hr_inv x Q s -> 0 <= i < 8 ->
  exists s', set_running i v s = Ok s' /\ hr_inv x Q s' /\ hr_timers s' = hr_timers s /\ env s' = env s /\ offsets s' = offsets s.
Proof.
  intros H Hi. destruct (base_at_ok _ _ _ _ H Hi) as (b & L & Eb & Eb' & _). unfold set_running. rewrite Eb. cbn [mbind outcome_bind].
  eexists. split; [done|]. split; [|split; [done|split; [done|]]].
  - apply (hr_inv_links x Q s); [done|done| |done|exact H]. cbn. rewrite list_fmap_insert. apply list_insert_id. by rewrite list_lookup_fmap, Eb'.
  - unfold offsets. cbn. rewrite list_fmap_insert. apply list_insert_id. by rewrite list_lookup_fmap, Eb'.
Qed.

Lemma hr_inv_settle Q s a t : hr_inv a Q s -> hr_timers s !! a = Some t -> state t = 0 -> hr_inv 0 Q s.
Proof.
  intros H Et Hst. pose proof H as [[HQ Hl] H2 H3 H4 H5 H6 H7]. split; try done.
  - intros i L EQ. destruct (lookup_lt_is_Some_2 (clock_base (cpu_base s)) i) as [b Hb]; [apply lookup_lt_Some in EQ; lia|].
    by eapply null_not_queued, H2.
  - intros c tc Htc. destruct (H6 c tc Htc) as (? & ? & ? & ? & ? & Hc). do 5 (split; [done|]). intros _. destruct (decide (c = a)) as [->|]; [|by apply Hc].
    rewrite Et in Htc. injection Htc as <-. rewrite Hst, bool_decide_eq_false_2; [done|].
    destruct (Q !! Z.to_nat (base t)) as [L|] eqn:EQ; cbn; [by apply (H5 _ _ EQ)|apply not_elem_of_nil].
Qed.

End fields.

(** ** One timer *)

Section run.
Context {W : Type} (call : Z -> Z -> hstate W -> outcome (Z * hstate W)) (limit : Z) {callback : HrtimerCallback call limit}.
Implicit Types s : hstate W.

(** What running timers of the base [i] at the time [basenow] leaves. *)
Record ran (i : nat) (basenow : Z) (Q : list (list Z)) s (Q' : list (list Z)) s' : Prop := {
  ran_inv : hr_inv 0 Q' s';
  ran_other : forall j, j <> i -> Q' !! j = Q !! j;
  ran_sub : forall L L' b, Q !! i = Some L -> Q' !! i = Some L' -> b ∈ L' -> b ∈ L;
  ran_offsets : offsets s' = offsets s;
  ran_env : cb_env s';
  ran_done : forall b, cb_done (env s) b -> cb_done (env s') b;
  ran_outside : forall L b, Q !! i = Some L -> b ∉ L -> hr_timers s' !! b = hr_timers s !! b;
  ran_dom : forall b, is_Some (hr_timers s' !! b) <-> is_Some (hr_timers s !! b);
  ran_each : forall L L' b, Q !! i = Some L -> Q' !! i = Some L' -> b ∈ L ->
    cb_done (env s') b \/ b ∈ L' /\ hr_timers s' !! b = hr_timers s !! b;
  ran_early : forall L L' b t, Q !! i = Some L -> Q' !! i = Some L' -> b ∈ L -> hr_timers s !! b = Some t -> basenow < _softexpires t ->
    b ∈ L' /\ hr_timers s' !! b = Some t
}.

Lemma ran_refl i basenow Q s : hr_inv 0 Q s -> cb_env s -> ran i basenow Q s Q s.
Proof. intros H Hc. split; try done; naive_solver. Qed.

Lemma ran_trans i basenow Q s Q1 s1 Q' s' L1 :
  Q1 !! i = Some L1 -> ran i basenow Q s Q1 s1 -> ran i basenow Q1 s1 Q' s' -> ran i basenow Q s Q' s'.
Proof.
  intros E1 [A1 A2 A3 A4 A5 A6 A7 A8 A9 A10] [B1 B2 B3 B4 B5 B6 B7 B8 B9 B10]. split; try done.
  - intros j Hj. by rewrite B2, A2.
  - intros L L' b EL EL' Hb. by eapply A3, B3.
  - congruence.
  - auto.
  - intros L b EL Hb. rewrite (B7 L1), (A7 L); [done..|]. intros Hb1. by apply Hb, (A3 L L1).
  - intros b. by rewrite B8, A8.
  - intros L L' b EL EL' Hb. destruct (A9 L L1 b EL E1 Hb) as [Hd|[Hb1 Hs]]; [by left; apply B6|].
    destruct (B9 L1 L' b E1 EL' Hb1) as [?|[? ?]]; [by left|right]. split; [done|congruence].
  - intros L L' b t EL EL' Hb Ht He. destruct (A10 L L1 b t EL E1 Hb Ht He) as [Hb1 Ht1]. by eapply B10.
Qed.

Lemma ran_one i basenow Q s s' a t t' L L' :
  hr_inv 0 (<[i := L']> Q) s' -> Q !! i = Some (a :: L) -> (forall b, b ∈ L' -> b ∈ a :: L) -> (forall b, b ∈ L -> b ∈ L') ->
  hr_timers s !! a = Some t -> hr_timers s' = <[a := t']> (hr_timers s) -> _softexpires t <= basenow -> offsets s' = offsets s ->
  cb_env s' -> cb_done (env s') a -> (forall b, cb_done (env s) b -> cb_done (env s') b) -> ran i basenow Q s (<[i := L']> Q) s'.
Proof.
  intros H EQ Hsub Hsup Et Et' Hdue Ho Hc Hd Hm. pose proof (lookup_lt_Some _ _ _ EQ) as Hlt. split; try done.
  - intros j Hj. by rewrite list_lookup_insert_ne.
  - intros M M' b EM EM'. rewrite list_lookup_insert_eq in EM' by done. rewrite EQ in EM. injection EM as <-. injection EM' as <-. auto.
  - intros M b EM Hb. rewrite EQ in EM. injection EM as <-. rewrite Et', lookup_insert_ne; [done|]. intros <-. set_solver.
  - intros b. rewrite Et'. destruct (decide (b = a)) as [->|]; [rewrite lookup_insert_eq, Et; split; by eexists|by rewrite lookup_insert_ne].
  - intros M M' b EM EM' Hb. rewrite list_lookup_insert_eq in EM' by done. rewrite EQ in EM. injection EM as <-. injection EM' as <-.
    destruct (decide (b = a)) as [->|]; [by left|right]. rewrite Et', lookup_insert_ne by done. split; [set_solver|done].
  - intros M M' b tb EM EM' Hb Htb He. rewrite list_lookup_insert_eq in EM' by done. rewrite EQ in EM. injection EM as <-. injection EM' as <-.
    destruct (decide (b = a)) as [->|]; [rewrite Et in Htb; injection Htb as <-; lia|]. rewrite Et', lookup_insert_ne by done. split; [set_solver|done].
Qed.

(** A callback has been called for a timer that was taken out of its queue. *)
Lemma called_transit Q s s' a t t' :
  hr_inv 0 Q s -> hr_timers s !! a = Some t -> state t = 0 -> hr_nodes s' = hr_nodes s -> cpu_base s' = cpu_base s ->
  hr_timers s' = <[a := t']> (hr_timers s) -> base t' = base t -> is_soft t' = is_soft t -> _softexpires t' <= node_expires t' -> hr_inv a Q s'.
Proof.
  intros H Et Hst Hn Hcpu Ht Hb Hs He.
  assert (Ha : hr_inv a Q s) by (apply hr_inv_transit; [done|]; destruct (state_cases _ _ _ _ H Et) as [[Hst' _]|(_ & ? & _)]; [by rewrite Hst in Hst'|done]).
  apply (hr_inv_links a Q (put_timer a t' s)); [done|by rewrite Ht|by rewrite Hcpu..|]. by eapply put_timer_transit.
Qed.

Lemma run_hrtimer_ok Q s a t L basenow :
  hr_inv 0 Q s -> cb_env s -> hr_timers s !! a = Some t -> Q !! Z.to_nat (base t) = Some (a :: L) -> _softexpires t <= basenow ->
  exists s' t' L', __run_hrtimer call (base t) a s = Ok s' /\ ran (Z.to_nat (base t)) basenow Q s (<[Z.to_nat (base t) := L']> Q) s' /\
    hr_timers s' = <[a := t']> (hr_timers s) /\ (L' = L \/ L' ≡ₚ a :: L /\ limit < _softexpires t').
Proof.
  intros H Hc Et EQ Hdue. destruct (hi_timer _ _ _ H _ _ Et) as (_ & _ & Hb & _ & Hse & _). pose proof (lookup_lt_Some _ _ _ EQ) as Hlt.
  unfold __run_hrtimer. destruct (set_running_ok _ _ _ (base t) a H Hb) as (s1 & -> & H1 & Ht1 & He1 & Ho1). cbn [mbind outcome_bind].
  pose proof Et as Et0. rewrite <- Ht1 in Et.
  destruct (remove_queued _ _ _ _ [] L HRTIMER_STATE_INACTIVE false H1 Et EQ) as (s2 & Hrun2 & H2 & Ht2 & Hk2). rewrite Hrun2. cbn [mbind outcome_bind app] in *.
  cbn [HRTIMER_STATE_INACTIVE Z.eqb] in H2, Ht2. set (t2 := set_state 0 t) in *. set (i := Z.to_nat (base t)) in *.
  assert (Et2 : hr_timers s2 !! a = Some t2) by (by rewrite Ht2, lookup_insert_eq). unfold timer_at. rewrite Et2. cbn [mbind outcome_bind].
  assert (Hc2 : cb_env s2).
  { apply (cb_env_same s); [done|destruct Hk2 as [-> _]; done|]. intros c. rewrite Ht2, Ht1. destruct (decide (c = a)) as [->|]; [by rewrite lookup_insert_eq, Et0|by rewrite lookup_insert_ne]. }
  destruct (cb_call s2 a t2 Hc2 Et2 Hse) as (r & s3 & t3 & Hcall & Hn3 & Hcpu3 & Ht3 & Hb3 & Hs3 & Hst3 & Hse3 & Hr3 & Hc3 & Hd3 & Hm3).
  rewrite Hcall. cbn [mbind outcome_bind]. assert (Et3 : hr_timers s3 !! a = Some t3) by (by rewrite Ht3, lookup_insert_eq).
  rewrite Et3. cbn [mbind outcome_bind]. rewrite Hst3. change (Z.land (state t2) HRTIMER_STATE_ENQUEUED =? 0) with true. rewrite andb_true_r.
  pose proof (called_transit _ _ _ _ _ _ H2 Et2 eq_refl Hn3 Hcpu3 Ht3 Hb3 Hs3 Hse3) as H3.
  assert (Ho3 : offsets s3 = offsets s) by (rewrite <- Ho1, <- (keeps_offsets _ _ Hk2); unfold offsets; by rewrite Hcpu3).
  assert (Et3' : hr_timers s3 = <[a := t3]> (hr_timers s)) by (by rewrite Ht3, Ht2, insert_insert_eq, Ht1).
  assert (Hm : forall b, cb_done (env s) b -> cb_done (env s3) b) by (intros b Hb'; apply Hm3; destruct Hk2 as [-> _]; by rewrite He1).
  destruct (Z.eqb_spec r HRTIMER_NORESTART) as [Er|Er]; cbn [negb mbind outcome_bind].
  - assert (H3' : hr_inv 0 (<[i := L]> Q) s3) by (eapply hr_inv_settle; [done|exact Et3|by rewrite Hst3]).
    destruct (set_running_ok _ _ _ (base t) 0 H3' Hb) as (s4 & -> & H4 & Ht4 & He4 & Ho4).
    exists s4, t3, L. split; [done|]. split; [|split; [by rewrite Ht4|by left]].
    eapply (ran_one i basenow Q s s4 a t t3 L L); try done; [set_solver|congruence|congruence|..].
    + apply (cb_env_same s3); [done..|]. by rewrite Ht4.
    + by rewrite He4.
    + by rewrite He4.
  - change (base t) with (base t2). rewrite <- Hb3.
    assert (EQ3 : <[i := L]> Q !! Z.to_nat (base t3) = Some L) by (rewrite Hb3; by apply list_lookup_insert_eq).
    destruct (enqueue_hrtimer_ok _ _ _ _ _ H3 Et3 EQ3) as (s4 & -> & H4 & Ht4 & Hk4). cbn [mbind outcome_bind].
    rewrite Hb3 in *. change (Z.to_nat (base t2)) with i in *. rewrite list_insert_insert_eq in H4.
    destruct (set_running_ok _ _ _ (base t2) 0 H4 Hb) as (s5 & -> & H5 & Ht5 & He5 & Ho5). destruct Hk4 as [He4 Hk4].
    eexists s5, _, _. split; [done|]. split; [|split; [by rewrite Ht5, Ht4, Et3', insert_insert_eq|right; split; [by apply enqueue_perm|by apply Hr3]]].
    eapply (ran_one i basenow Q s s5 a t _ L); try done.
    + intros b. by rewrite enqueue_perm.
    + intros b. rewrite enqueue_perm. set_solver.
    + by rewrite Ht5, Ht4, Et3', insert_insert_eq.
    + rewrite Ho5, <- Ho3. by apply keeps_offsets.
    + apply (cb_env_same s3); [done|congruence|]. intros c. rewrite Ht5, Ht4. destruct (decide (c = a)) as [->|]; [by rewrite lookup_insert_eq, Et3|by rewrite lookup_insert_ne].
    + by rewrite He5, He4.
    + by rewrite He5, He4.
Qed.

(** ** The timers of a base *)

Definition soft_of s (b : Z) : Z := match hr_timers s !! b with Some t => _softexpires t | None => 0 end.

(** The timers that may be run: each is run once. *)
Definition pending s (L : list Z) : nat := length (filter (fun b => soft_of s b <= limit) L).

Lemma pending_ext s s' L : (forall b, b ∈ L -> soft_of s' b = soft_of s b) -> pending s' L = pending s L.
Proof.
  unfold pending. induction L as [|b L IH]; intros H; [done|]. rewrite !filter_cons, H by set_solver.
  destruct (decide _); cbn; rewrite IH; [done|set_solver|done|set_solver].
Qed.

Lemma pending_step s s' a t t' L L' :
  hr_timers s !! a = Some t -> hr_timers s' = <[a := t']> (hr_timers s) -> a ∉ L -> _softexpires t <= limit ->
  L' = L \/ L' ≡ₚ a :: L /\ limit < _softexpires t' -> pending s (a :: L) = S (pending s' L').
Proof.
  intros Et Et' Ha Hdue HL. unfold pending at 1. assert (Es : soft_of s a = _softexpires t) by (unfold soft_of; by rewrite Et).
  rewrite filter_cons, decide_True by (by rewrite Es). cbn [length]. f_equal.
  assert (Hrest : pending s' L = pending s L).
  { apply pending_ext. intros b Hb. unfold soft_of. by rewrite Et', lookup_insert_ne by (intros ->; done). }
  destruct HL as [->|[HL Hlim]]; [done|]. change (pending s L = pending s' L'). rewrite <- Hrest. unfold pending. rewrite HL, filter_cons, decide_False; [done|].
  unfold soft_of. rewrite Et', lookup_insert_eq. lia.
Qed.

Lemma run_base_loop_ok fuel i Q s L basenow :
  hr_inv 0 Q s -> cb_env s -> 0 <= i -> Q !! Z.to_nat i = Some L -> basenow <= limit -> (pending s L < fuel)%nat ->
  exists s' Q' L', run_base_loop call fuel i basenow s = Ok s' /\ ran (Z.to_nat i) basenow Q s Q' s' /\ Q' !! Z.to_nat i = Some L' /\
    match L' with [] => True | a :: _ => basenow < soft_of s' a end.
Proof.
  revert Q s L. induction fuel as [|fuel IH]; intros Q s L H Hc Hi EQ Hlim Hf; [lia|]. cbn [run_base_loop].
  assert (Hi8 : 0 <= i < 8) by (apply lookup_lt_Some in EQ; destruct (hi_bases _ _ _ H); lia).
  destruct (base_at_ok _ _ _ _ H Hi8) as (b & L0 & -> & _ & EL & Hq). rewrite EQ in EL. injection EL as <-. cbn [mbind outcome_bind].
  rewrite (timerqueue_getnext_ok _ _ _ _ Hq). destruct L as [|a L]; cbn [hd].
  - exists s, Q, []. split_and!; [done|by apply ran_refl|done|done].
  - destruct (queued_timer _ _ _ _ _ a H EQ) as [t Et]; [set_solver|]. destruct (hi_timer _ _ _ H _ _ Et) as (_ & Hok & _).
    rewrite (proj2 (Z.eqb_neq a 0)) by (by apply addr_ok_nonzero). unfold timer_at. rewrite Et. cbn [mbind outcome_bind].
    destruct (Z.ltb_spec basenow (_softexpires t)) as [He|He].
    { exists s, Q, (a :: L). split_and!; [done|by apply ran_refl|done|]. unfold soft_of. by rewrite Et. }
    pose proof (hi_own _ _ _ H _ _ a _ EQ ltac:(set_solver) Et) as Eb. rewrite Z2Nat.id in Eb by done. subst i.
    destruct (run_hrtimer_ok _ _ _ _ _ basenow H Hc Et EQ He) as (s1 & t' & L1 & -> & Hran & Et' & HL1). cbn [mbind outcome_bind].
    pose proof (queue_of_nodup _ _ _ _ Hq) as Hnd. apply NoDup_cons in Hnd as [Ha _].
    pose proof (pending_step _ _ _ _ _ _ _ Et Et' Ha ltac:(lia) HL1) as Hp.
    assert (EQ1 : <[Z.to_nat (base t) := L1]> Q !! Z.to_nat (base t) = Some L1) by (apply list_lookup_insert_eq; by eapply lookup_lt_Some).
    destruct (IH _ _ _ (ran_inv _ _ _ _ _ _ Hran) (ran_env _ _ _ _ _ _ Hran) Hi EQ1 Hlim ltac:(lia)) as (s' & Q' & L' & Hrun & Hran' & EQ' & Hend).
    exists s', Q', L'. split_and!; [done| |done|done]. exact (ran_trans _ _ _ _ _ _ _ _ _ EQ1 Hran Hran').
Qed.

(** All that is left expires later. *)
Lemma later s Q i L a b basenow :
  hr_inv 0 Q s -> Q !! i = Some (a :: L) -> basenow < soft_of s a -> b ∈ a :: L -> basenow < key_of s b.
Proof.
  intros H EQ Hs Hb. destruct (lookup_lt_is_Some_2 (clock_base (cpu_base s)) i) as [cb Hcb].
  { apply lookup_lt_Some in EQ. destruct (hi_bases _ _ _ H). lia. }
  destruct (hi_queue _ _ _ H _ _ _ Hcb EQ) as (_ & Hord & _). destruct (queued_timer _ _ _ _ _ a H EQ) as [t Et]; [set_solver|].
  destruct (hi_timer _ _ _ H _ _ Et) as (_ & _ & _ & _ & Hse & _). unfold soft_of in Hs. rewrite Et in Hs.
  assert (Ha : basenow < key_of s a) by (unfold key_of; rewrite Et; lia). apply elem_of_cons in Hb as [->|Hb]; [done|].
  apply StronglySorted_inv in Hord as [_ Hord]. rewrite Forall_forall in Hord. specialize (Hord b Hb). cbn in Hord. lia.
Qed.

Lemma queue_size Q s i L : hr_inv 0 Q s -> Q !! i = Some L -> (length L <= size (hr_timers s))%nat.
Proof.
  intros H EQ. destruct (lookup_lt_is_Some_2 (clock_base (cpu_base s)) i) as [b Hb].
  { apply lookup_lt_Some in EQ. destruct (hi_bases _ _ _ H). lia. }
  pose proof (queue_of_nodup _ _ _ _ (hi_queue _ _ _ H _ _ _ Hb EQ)) as Hnd.
  rewrite <- (size_list_to_set (C := gset Z) L), <- size_dom by done. apply subseteq_size. intros a Ha. apply elem_of_list_to_set in Ha.
  apply elem_of_dom. destruct (queued_timer _ _ _ _ _ a H EQ Ha) as [t Et]. by exists t.
Qed.

(** ** All bases *)

Definition offset_at s (i : nat) : Z := default 0 (offsets s !! i).

(** What running the timers of the bases [A] leaves: of the timers [L] of such
    a base [L'] are queued still, or again, and expire after the time of the
    base; the callback has been run for those that had expired; those that
    are not due are untouched. *)
Record ran_all (A : nat -> bool) (now : Z) (Q : list (list Z)) s (Q' : list (list Z)) s' : Prop := {
  ra_inv : hr_inv 0 Q' s';
  ra_offsets : offsets s' = offsets s;
  ra_env : cb_env s';
  ra_done : forall b, cb_done (env s) b -> cb_done (env s') b;
  ra_rest : forall j L b, A j = false -> Q !! j = Some L -> Q' !! j = Some L /\ (b ∈ L -> hr_timers s' !! b = hr_timers s !! b);
  ra_run : forall i L L' b, A i = true -> Q !! i = Some L -> Q' !! i = Some L' ->
    let basenow := ktime_add now (offset_at s i) in
    (b ∈ L' -> basenow < key_of s' b) /\ (b ∈ L -> key_of s b <= basenow -> cb_done (env s') b) /\
    (b ∈ L -> basenow < soft_of s b -> b ∈ L' /\ hr_timers s' !! b = hr_timers s !! b)
}.

Lemma ran_base now Q s Q' s' i L L' :
  let basenow := ktime_add now (offset_at s i) in
  hr_inv 0 Q s -> ran i basenow Q s Q' s' -> Q !! i = Some L -> Q' !! i = Some L' ->
  match L' with [] => True | a :: _ => basenow < soft_of s' a end -> forall b,
  (b ∈ L' -> basenow < key_of s' b) /\ (b ∈ L -> key_of s b <= basenow -> cb_done (env s') b) /\
  (b ∈ L -> basenow < soft_of s b -> b ∈ L' /\ hr_timers s' !! b = hr_timers s !! b).
Proof.
  intros basenow H Hran EQ EQ' Hend b.
  assert (Hlater : b ∈ L' -> basenow < key_of s' b).
  { destruct L' as [|a L']; [by intros ?%not_elem_of_nil|]. by eapply later; [apply Hran|..]. }
  split_and!; [done|..].
  - intros Hb Hk. destruct (ran_each _ _ _ _ _ _ Hran _ _ b EQ EQ' Hb) as [?|[Hb' Et]]; [done|]. specialize (Hlater Hb').
    unfold key_of in *. rewrite Et in Hlater. lia.
  - intros Hb He. destruct (queued_timer _ _ _ _ _ b H EQ Hb) as [t Et]. unfold soft_of in He. rewrite Et in He.
    destruct (ran_early _ _ _ _ _ _ Hran _ _ b t EQ EQ' Hb Et He) as [? ->]. by rewrite Et.
Qed.

Lemma ran_all_step now Q s Q1 s1 Q' s' i A A' L L1 :
  hr_inv 0 Q s -> ran i (ktime_add now (offset_at s i)) Q s Q1 s1 -> Q !! i = Some L -> Q1 !! i = Some L1 ->
  match L1 with [] => True | a :: _ => ktime_add now (offset_at s i) < soft_of s1 a end ->
  A i = true -> (forall j, A' j = A j && negb (bool_decide (j = i))) -> ran_all A' now Q1 s1 Q' s' -> ran_all A now Q s Q' s'.
Proof.
  intros H Hran EQ EQ1 Hend HAi HA [B1 B2 B3 B4 B5 B6]. pose proof (ran_base now _ _ _ _ _ _ _ H Hran EQ EQ1 Hend) as Hbase. cbn in Hbase.
  assert (Hout : forall j M b, j <> i -> Q !! j = Some M -> b ∈ M -> hr_timers s1 !! b = hr_timers s !! b).
  { intros j M b Hj EM Hb. apply (ran_outside _ _ _ _ _ _ Hran L); [done|]. intros Hb'. destruct (queued_timer _ _ _ _ _ b H EQ Hb') as [t Et].
    pose proof (hi_own _ _ _ H _ _ _ _ EM Hb Et). pose proof (hi_own _ _ _ H _ _ _ _ EQ Hb' Et). lia. }
  assert (Eo : forall j, offset_at s1 j = offset_at s j) by (intros j; unfold offset_at; by rewrite (ran_offsets _ _ _ _ _ _ Hran)).
  assert (HA'i : A' i = false) by (rewrite HA, bool_decide_eq_true_2 by done; apply andb_false_r). split; [done| |done|..].
  - rewrite B2. apply Hran.
  - intros b Hb. by apply B4, Hran.
  - intros j M b Hj EM. assert (Hji : j <> i) by (intros ->; by rewrite HAi in Hj). assert (HA'j : A' j = false) by (by rewrite HA, Hj).
    destruct (B5 j M b HA'j) as [E' Hb']; [by rewrite (ran_other _ _ _ _ _ _ Hran)|]. split; [done|]. intros Hb. rewrite Hb' by done. by eapply Hout.
  - intros j M M' b Hj EM EM'. cbn. destruct (decide (j = i)) as [->|Hji].
    + rewrite EQ in EM. injection EM as <-. destruct (B5 i L1 b HA'i EQ1) as [E' Hb']. rewrite EM' in E'. injection E' as ->.
      destruct (Hbase b) as (C1 & C2 & C3). split_and!.
      * intros Hb. specialize (C1 Hb). unfold key_of in *. by rewrite Hb'.
      * intros Hb Hk. by apply B4, C2.
      * intros Hb He. destruct (C3 Hb He) as [Hb1 E1]. split; [done|]. by rewrite Hb', E1.
    + assert (HA'j : A' j = true) by (rewrite HA, Hj, bool_decide_eq_false_2; done).
      destruct (B6 j M M' b HA'j) as (C1 & C2 & C3); [by rewrite (ran_other _ _ _ _ _ _ Hran)|done|]. cbn in *. rewrite Eo in C1, C2, C3. split_and!; [done|..].
      * intros Hb Hk. apply C2; [done|]. unfold key_of in *. by rewrite (Hout j M).
      * intros Hb He. assert (E1 : hr_timers s1 !! b = hr_timers s !! b) by (by eapply Hout). rewrite <- E1. apply C3; [done|]. unfold soft_of in *. by rewrite E1.
Qed.

Lemma ran_all_none now Q s A : hr_inv 0 Q s -> cb_env s -> (forall j, A j = false) -> ran_all A now Q s Q s.
Proof. intros H Hc HA. split; try done. intros i L L' b Hi. by rewrite HA in Hi. Qed.

Lemma run_queues_loop_ok now fuel active m Q s :
  hr_inv 0 Q s -> cb_env s -> (forall i, ktime_add now (offset_at s i) <= limit) -> 0 <= active < 2 ^ 32 ->
  (forall j, 0 <= j -> Z.testbit active j = true -> j < 8) -> (forall j, 0 <= j < m -> Z.testbit active j = false) -> 0 <= m <= 32 -> 33 - m <= Z.of_nat fuel ->
  exists s' Q', run_queues_loop call fuel now active s = Ok s' /\ ran_all (fun j => Z.testbit active (Z.of_nat j)) now Q s Q' s'.
Proof.
  revert active m Q s. induction fuel as [|fuel IH]; intros active m Q s H Hc Hlim Ha H8 Hm Hm0 Hf; [lia|]. cbn [run_queues_loop].
  pose proof (next_base_ok active m Ha Hm ltac:(lia)) as Hn. destruct (__next_base active) as [[i active']|].
  2: { exists s, Q. split; [done|]. apply ran_all_none; [done..|]. intros j. apply Hn. lia. }
  destruct Hn as (Hi & Hb & Ha' & Hrest & Hm'). assert (Hi8 : 0 <= i < 8) by (pose proof (H8 i ltac:(lia) Hb); lia).
  destruct (base_at_ok _ _ _ _ H Hi8) as (b & L & -> & Eb & EQ & _). cbn [mbind outcome_bind].
  assert (Eo : offset b = offset_at s (Z.to_nat i)) by (unfold offset_at, offsets; by rewrite list_lookup_fmap, Eb). rewrite Eo.
  pose proof (queue_size _ _ _ _ H EQ) as Hsz. assert (Hp : (pending s L < S (size (hr_timers s)))%nat) by (pose proof (length_filter (fun b => soft_of s b <= limit) L); unfold pending; lia).
  destruct (run_base_loop_ok _ i _ _ _ (ktime_add now (offset_at s (Z.to_nat i))) H Hc ltac:(lia) EQ (Hlim _) Hp) as (s1 & Q1 & L1 & -> & Hran & EQ1 & Hend).
  cbn [mbind outcome_bind].
  destruct (IH active' (i + 1) Q1 s1) as (s' & Q' & Hrun & Hall).
  - apply Hran.
  - apply Hran.
  - intros j. unfold offset_at. rewrite (ran_offsets _ _ _ _ _ _ Hran). apply Hlim.
  - done.
  - intros j Hj. rewrite Hrest by done. intros [? _]%andb_true_iff. by apply H8.
  - done.
  - lia.
  - lia.
  - exists s', Q'. split; [done|]. eapply ran_all_step; [exact H|exact Hran|exact EQ|exact EQ1|exact Hend|by rewrite Z2Nat.id by lia| |exact Hall].
    intros j. cbn. rewrite Hrest by lia. f_equal. f_equal. destruct (decide (j = Z.to_nat i)) as [->|Hne].
    + rewrite bool_decide_eq_true_2 by done. apply Z.eqb_eq. lia.
    + rewrite bool_decide_eq_false_2 by done. apply Z.eqb_neq. lia.
Qed.

Lemma run_queues_ok now mask Q s :
  hr_inv 0 Q s -> cb_env s -> 0 <= mask -> (forall i, ktime_add now (offset_at s i) <= limit) ->
  exists s' Q', __hrtimer_run_queues call now mask s = Ok s' /\ ran_all (fun j => Z.testbit mask (Z.of_nat j)) now Q s Q' s'.
Proof.
  intros H Hc Hmask Hlim. unfold __hrtimer_run_queues. set (active := Z.land _ _).
  assert (Ha : 0 <= active < 2 ^ 32) by (apply land_range; [apply H|done]).
  assert (H8 : forall j, 0 <= j -> Z.testbit active j = true -> j < 8).
  { intros j Hj Hb. unfold active in Hb. rewrite Z.land_spec in Hb. apply andb_true_iff in Hb as [Hb _]. by apply (active_base _ _ _ j H). }
  destruct (run_queues_loop_ok now 33 active 0 Q s H Hc Hlim Ha H8) as (s' & Q' & Hrun & Hall); [lia|lia|lia|].
  exists s', Q'. split; [done|]. pose proof Hall as [B1 B2 B3 B4 B5 B6].
  assert (Hact : forall j, Z.testbit active (Z.of_nat j) = Z.testbit mask (Z.of_nat j) && match Q !! j with Some (_ :: _) => true | _ => false end).
  { intros j. unfold active. rewrite Z.land_spec, (hi_active _ _ _ H). apply andb_comm. }
  split; [done..| |].
  - intros j L b Hj EL. apply B5; [|done]. by rewrite Hact, Hj.
  - intros i L L' b Hi EL EL'. destruct L as [|a L].
    + destruct (B5 i [] b) as [E' _]; [by rewrite Hact, EL, andb_false_r|done|]. rewrite EL' in E'. injection E' as ->.
      split_and!; by intros ?%not_elem_of_nil.
    + apply B6; [|done..]. by rewrite Hact, Hi, EL.
Qed.

End run.
