(* ===== verification/HrtimerTop.v ===== *)
(** * kernel/time/hrtimer.c: the timers of sleeping tasks

    The system of the timers and the tasks that wait for them, as a state
    machine: in every state that can be reached the queues are in order and
    every call returns; each tick wakes the tasks whose time has come. *)

From stdpp Require Import gmap.
From Stdlib Require Import ZifyBool.
From S2P Require Import Prelude RbTree RbTreeShape RbTreeCached Timerqueue Hrtimer HrtimerInv HrtimerQueue HrtimerOps HrtimerRun.

Local Open Scope Z_scope.

(** ** New timers *)

Section new.
Context {W : Type}.
Implicit Types s : hstate W.

(** A timer that no queue holds is overwritten. *)
Lemma hr_inv_new Q s s' a t :
  hr_inv 0 Q s -> (forall i L, Q !! i = Some L -> a ∉ L) -> cpu_base s' = cpu_base s -> hr_timers s' = <[a := t]> (hr_timers s) ->
  (forall c, c <> a -> hr_nodes s' !! c = hr_nodes s !! c) -> is_Some (hr_nodes s' !! a) -> addr_ok a ->
  0 <= base t < 8 -> is_soft t = (4 <=? base t) -> _softexpires t <= node_expires t -> state t = 0 -> hr_inv 0 Q s'.
Proof.
  intros [H1 H2 H3 H4 H5 H6 H7] Ha Hc Ht Hn Hm Hok Hb Hs He Hst. split; rewrite ?Hc; try done.
  - intros i b L Hi EQ. pose proof (Ha _ _ EQ) as HaL. eapply base_queue_frame; [by eapply H2|done|done|..].
    + intros c Hc'. apply Hn. intros ->. done.
    + intros c tc Hc' Htc. exists tc. by rewrite Ht, lookup_insert_ne by (intros ->; done).
  - intros c tc. rewrite Ht. destruct (decide (c = a)) as [->|Hne].
    + rewrite lookup_insert_eq. intros [= <-]. do 5 (split; [done|]). intros _. rewrite Hst, bool_decide_eq_false_2; [done|].
      destruct (Q !! Z.to_nat (base t)) as [L|] eqn:EQ; cbn; [by apply (Ha _ _ EQ)|apply not_elem_of_nil].
    + rewrite lookup_insert_ne by done. intros Htc. destruct (H6 c tc Htc) as (Hm' & ?). split; [by rewrite Hn|done].
  - intros i L c tc EQ Hc'. rewrite Ht, lookup_insert_ne by (intros ->; by apply (Ha _ _ EQ)). by apply (H7 _ _ _ _ EQ).
Qed.

Lemma clockid_to_base_ok clock_id : 0 <= clock_id -> exists i, hrtimer_clockid_to_base clock_id = Ok i /\ 0 <= i < 4.
Proof.
  intros H. unfold hrtimer_clockid_to_base. destruct (clock_id <? MAX_CLOCKS); [|by exists 0]. rewrite (proj2 (Z.ltb_ge clock_id 0)) by done.
  unfold hrtimer_clock_to_base_table. repeat case_match; (eexists; split; [reflexivity|done]).
Qed.

Lemma hrtimer_init_ok Q s a clock_id mode :
  hr_inv 0 Q s -> (forall i L, Q !! i = Some L -> a ∉ L) -> addr_ok a -> 0 <= clock_id ->
  exists s' t, __hrtimer_init a clock_id mode s = Ok s' /\ hr_inv 0 Q s' /\ hr_timers s' = <[a := t]> (hr_timers s) /\ env s' = env s /\ state t = 0.
Proof.
  intros H Ha Hok Hclk. unfold __hrtimer_init. set (softtimer := negb (Z.land mode HRTIMER_MODE_SOFT =? 0)).
  set (clk := if (clock_id =? CLOCK_REALTIME) && negb (Z.land mode HRTIMER_MODE_REL =? 0) then CLOCK_MONOTONIC else clock_id).
  destruct (clockid_to_base_ok clk) as (i & -> & Hi); [subst clk; by case_match|]. cbn [mbind outcome_bind].
  unfold timerqueue_init, RB_CLEAR_NODE, set_parent_color_word, node_at. cbn [nodes put_timer hr_nodes]. rewrite lookup_insert_eq. cbn [mbind outcome_bind].
  change (HRTIMER_MAX_CLOCK_BASES / 2) with 4. eexists _, _. split; [done|]. split; [|split; [done|split; done]].
  eapply (hr_inv_new Q s _ a); [done|done|done|done|..]; cbn.
  - intros c Hc. by rewrite !lookup_insert_ne.
  - rewrite lookup_insert_eq. by eexists.
  - done.
  - destruct softtimer; cbn; lia.
  - destruct softtimer; cbn; lia.
  - done.
  - done.
Qed.

(** ** The clocks *)

Lemma set_offset_ok x Q s i v :
  hr_inv x Q s -> 0 <= i < 8 ->
  exists s', set_offset i v s = Ok s' /\ hr_inv x Q s' /\ hr_timers s' = hr_timers s /\ env s' = env s.
Proof.
  intros H Hi. destruct (base_at_ok _ _ _ _ H Hi) as (b & L & Eb & Eb' & _). unfold set_offset. rewrite Eb. cbn [mbind outcome_bind].
  eexists. split; [done|]. split; [|done]. apply (hr_inv_links x Q s); [done|done| |done|exact H].
  cbn. rewrite list_fmap_insert. apply list_insert_id. by rewrite list_lookup_fmap, Eb'.
Qed.

(** The time that the code works with. *)
Definition tk_now (tk : timekeeper) : Z := s64 (tk_base tk + tk_nsecs tk).

Lemma update_base_ok x Q s tk :
  hr_inv x Q s -> exists s', hrtimer_update_base tk s = Ok (tk_now tk, s') /\ hr_inv x Q s' /\ hr_timers s' = hr_timers s /\ env s' = env s.
Proof.
  intros H. unfold hrtimer_update_base.
  destruct (base_at_ok _ _ _ HRTIMER_BASE_REALTIME H) as (b1 & _ & -> & _); [done|].
  destruct (base_at_ok _ _ _ HRTIMER_BASE_BOOTTIME H) as (b2 & _ & -> & _); [done|].
  destruct (base_at_ok _ _ _ HRTIMER_BASE_TAI H) as (b3 & _ & -> & _); [done|]. cbn [mbind outcome_bind].
  destruct (ktime_get_update_offsets_now _ _ _ _ _) as [[[[now seq] real] boot] tai] eqn:E.
  assert (Hnow : now = tk_now tk) by (unfold ktime_get_update_offsets_now in E; destruct (negb _); by inversion E). subst now.
  assert (H0 : hr_inv x Q (upd_cpu (set_clock_was_set_seq seq) s)) by (by apply (hr_inv_links x Q s)).
  assert (E0 : hr_timers (upd_cpu (set_clock_was_set_seq seq) s) = hr_timers s /\ env (upd_cpu (set_clock_was_set_seq seq) s) = env s) by done.
  revert H0 E0. generalize (upd_cpu (set_clock_was_set_seq seq) s). intros s0 H0 [Et0 Ee0].
  do 6 (match goal with |- context [set_offset ?i ?v ?s0] =>
    let s1 := fresh "s" in let H1 := fresh "H" in let Et := fresh "Et" in let Ee := fresh "Ee" in
    destruct (set_offset_ok x Q s0 i v) as (s1 & -> & H1 & Et & Ee); [assumption|done|] end; cbn [mbind outcome_bind]).
  eexists. split; [done|]. split; [done|]. split; congruence.
Qed.

End new.

(** ** Ticks and soft interrupts *)

Section expiry.
Context {W : Type} (call : Z -> Z -> hstate W -> outcome (Z * hstate W)) (limit : Z) {callback : HrtimerCallback call limit}.
Implicit Types s : hstate W.

Lemma cb_env_timers s s' : cb_env (limit := limit) s -> hr_timers s' = hr_timers s -> env s' = env s -> cb_env s'.
Proof. intros H Ht He. apply (cb_env_same s); [done|done|]. by rewrite Ht. Qed.

(** The state when the queues are run. *)
Lemma run_queues_start Q s tk :
  hr_inv 0 Q s -> cb_env s -> exists s1, hr_inv 0 Q s1 /\ cb_env s1 /\ hr_timers s1 = hr_timers s /\ env s1 = env s /\
    hrtimer_run_queues call tk s = __hrtimer_run_queues call (tk_now tk) HRTIMER_ACTIVE_HARD s1.
Proof.
  intros H Hc. unfold hrtimer_run_queues. cbn [__hrtimer_hres_active]. destruct (update_base_ok 0 Q s tk H) as (s1 & -> & H1 & Et1 & Ee1).
  cbn [mbind outcome_bind]. eexists. split; [|split; [|split; [|split; [|reflexivity]]]].
  - case_match; [|done]. by apply (hr_inv_links 0 Q s1).
  - eapply cb_env_timers; [exact Hc|..]; by case_match.
  - by case_match.
  - by case_match.
Qed.

Lemma ktime_add_max x y : ktime_add x y <= KTIME_MAX.
Proof. unfold ktime_add, s64, KTIME_MAX. Z.to_euclidean_division_equations. lia. Qed.

Lemma run_tick_ok Q s tk :
  hr_inv 0 Q s -> cb_env s -> KTIME_MAX <= limit -> exists s' Q', hrtimer_run_queues call tk s = Ok s' /\ hr_inv 0 Q' s' /\ cb_env s'.
Proof.
  intros H Hc Hlim. destruct (run_queues_start Q s tk H Hc) as (s1 & H1 & Hc1 & _ & _ & ->).
  destruct (run_queues_ok call limit (tk_now tk) HRTIMER_ACTIVE_HARD Q s1 H1 Hc1) as (s' & Q' & Hrun & Hall); [done|intros i; pose proof (ktime_add_max (tk_now tk) (offset_at s1 i)); lia|].
  exists s', Q'. split_and!; [done|apply Hall..].
Qed.

Lemma update_softirq_ok Q s flag :
  hr_inv 0 Q s -> softirq_activated (cpu_base s) = false -> exists s', hrtimer_update_softirq_timer flag s = Ok s' /\ same_core s s'.
Proof.
  intros H Hact. destruct (get_next_soft 0 Q s H Hact) as (r & s1 & Hrun & Hs & _ & Hn). unfold hrtimer_update_softirq_timer. rewrite Hrun. cbn [mbind outcome_bind].
  destruct (Z.eqb_spec r KTIME_MAX) as [|Hr]; [by exists s1|]. destruct Hn as [?|[t Et]]; [done|].
  destruct (reprogram_ok 0 Q s1 (softirq_next_timer (cpu_base s1)) t flag) as (s2 & -> & Hs2); [by eapply hr_inv_core|by destruct Hs as (_ & -> & _)|].
  exists s2. split; [done|]. by eapply same_core_trans.
Qed.

Lemma run_softirq_ok Q s tk :
  hr_inv 0 Q s -> cb_env s -> KTIME_MAX <= limit -> exists s' Q', hrtimer_run_softirq call tk s = Ok s' /\ hr_inv 0 Q' s' /\ cb_env s'.
Proof.
  intros H Hc Hlim. unfold hrtimer_run_softirq. destruct (update_base_ok 0 Q s tk H) as (s1 & -> & H1 & Et1 & Ee1). cbn [mbind outcome_bind].
  assert (Hc1 : cb_env s1) by (by eapply cb_env_timers).
  destruct (run_queues_ok call limit (tk_now tk) HRTIMER_ACTIVE_SOFT Q s1 H1 Hc1) as (s2 & Q' & -> & Hall); [done|intros i; pose proof (ktime_add_max (tk_now tk) (offset_at s1 i)); lia|].
  cbn [mbind outcome_bind]. set (s3 := upd_cpu (set_softirq_activated false) s2).
  assert (H3 : hr_inv 0 Q' s3) by (apply (hr_inv_links 0 Q' s2); [done..|apply Hall]).
  destruct (update_softirq_ok Q' s3 true H3 eq_refl) as (s4 & -> & Hs4). exists s4, Q'. split; [done|]. split; [by eapply hr_inv_core|].
  eapply (cb_env_timers s2); [apply Hall|by destruct Hs4 as (_ & -> & _)|by destruct Hs4 as (_ & _ & _ & _ & ->)].
Qed.

End expiry.

(** ** Tasks that sleep *)

Section sleep.
Context (wakeup : Z).

(** Every timer is that of a sleeper; [wakeup] is the address of
    [hrtimer_wakeup]. *)
Definition sleeper_call (fn timer : Z) (s : hstate sleepers) : outcome (Z * hstate sleepers) :=
  if fn =? wakeup then hrtimer_wakeup timer s else Bug.

Definition all_sleepers (s : hstate sleepers) : Prop :=
  forall a t, hr_timers s !! a = Some t -> function t = wakeup /\ is_Some (sleeper_task (env s) !! a).

(** [hrtimer_wakeup] clears the task, which tells the sleeper that its time
    has come, and never asks for more. *)
#[export] Program Instance wakeup_callback (limit : Z) : HrtimerCallback sleeper_call limit := {
  cb_env := all_sleepers;
  cb_done e a := sleeper_task e !! a = Some 0
}.
Next Obligation.
  intros limit s s' H He Hf a t Ht. pose proof (Hf a) as E. rewrite Ht in E. cbn in E. symmetry in E. apply fmap_Some in E as (t0 & Et0 & ->).
  destruct (H a t0 Et0) as [? ?]. by rewrite He.
Qed.
Next Obligation.
  intros limit s a t H Et Hse. destruct (H a t Et) as [Hf [task Htask]]. unfold sleeper_call, hrtimer_wakeup. rewrite Hf, Z.eqb_refl, Htask.
  assert (Henv : forall w, all_sleepers (HState (hr_nodes s) (hr_timers s) (cpu_base s) (softirq_pending s) (Sleepers (<[a := 0]> (sleeper_task (env s))) w))).
  { intros w c tc Htc. destruct (H c tc Htc) as [? Hc]. split; [done|]. cbn. destruct (decide (c = a)) as [->|]; [rewrite lookup_insert_eq; by eexists|by rewrite lookup_insert_ne]. }
  exists HRTIMER_NORESTART. destruct (negb (task =? 0)); eexists _, t; (split; [done|]); cbn.
  all: do 2 (split; [done|]); split; [by rewrite insert_id|]; do 5 (split; [done|]); split; [apply Henv|]; split; [apply lookup_insert_eq|].
  all: intros b Hb; destruct (decide (b = a)) as [->|]; [apply lookup_insert_eq|by rewrite lookup_insert_ne].
Qed.
(** ** The state machine *)

(** The calls: [hrtimer_init_sleeper], [hrtimer_start_range_ns],
    [hrtimer_try_to_cancel], the tick and the soft interrupt. *)
Inductive hr_op :=
  | HrInit (current sl clock_id mode : Z)
  | HrStart (timer tim delta_ns mode get_time : Z)
  | HrCancel (timer : Z)
  | HrTick (tk : timekeeper)
  | HrSoftirq (tk : timekeeper).

Definition hr_step (op : hr_op) (s : hstate sleepers) : outcome (hstate sleepers) :=
  match op with
  | HrInit current sl clock_id mode => __hrtimer_init_sleeper wakeup current sl clock_id mode s
  | HrStart timer tim delta_ns mode get_time => hrtimer_start_range_ns timer tim delta_ns mode get_time s
  | HrCancel timer => '(_, s) ← hrtimer_try_to_cancel timer s; Ok s
  | HrTick tk => hrtimer_run_queues sleeper_call tk s
  | HrSoftirq tk => hrtimer_run_softirq sleeper_call tk s
  end.

(** A timer is initialised where none is active, and used when it has been. *)
Definition hr_pre (op : hr_op) (s : hstate sleepers) : Prop :=
  match op with
  | HrInit _ sl clock_id _ => addr_ok sl /\ 0 <= clock_id /\ match hr_timers s !! sl with Some t => state t = HRTIMER_STATE_INACTIVE | None => True end
  | HrStart timer tim _ _ _ => is_Some (hr_timers s !! timer) /\ - 2 ^ 63 <= tim < 2 ^ 63
  | HrCancel timer => is_Some (hr_timers s !! timer)
  | HrTick _ | HrSoftirq _ => True
  end.

(** The states from [hrtimers_init] on, when there is no timer yet. *)
Inductive hr_reach : hstate sleepers -> Prop :=
  | hr_reach_init s : hr_timers s = ∅ -> length (clock_base (cpu_base s)) = 8%nat -> hr_reach (hrtimers_prepare_cpu s)
  | hr_reach_step s op s' : hr_reach s -> hr_pre op s -> hr_step op s = Ok s' -> hr_reach s'.

(** The queues are in order, and every timer is a sleeper's. *)
Definition hr_ok (s : hstate sleepers) : Prop := exists Q, hr_inv 0 Q s /\ all_sleepers s.

Lemma prepare_ok (s : hstate sleepers) : hr_timers s = ∅ -> length (clock_base (cpu_base s)) = 8%nat -> hr_ok (hrtimers_prepare_cpu s).
Proof.
  intros Ht Hlen. exists (replicate 8 []). split; [|intros a t Ha; cbn in Ha; by rewrite Ht in Ha].
  assert (Hnil : forall i L, replicate 8 (@nil Z) !! i = Some L -> L = []) by (intros i L HL; by apply lookup_replicate in HL as [-> _]).
  split; cbn [hrtimers_prepare_cpu upd_cpu cpu_base hr_timers hr_nodes clock_base active_bases].
  - split; [done|]. by rewrite length_fmap.
  - intros i b L Hb HL. apply Hnil in HL as ->. rewrite list_lookup_fmap in Hb. apply fmap_Some in Hb as (b0 & _ & ->).
    split; [split; [apply tree_of_nil|done]|split; [constructor|set_solver]].
  - lia.
  - intros i. rewrite Z.bits_0. destruct (replicate 8 [] !! i) as [L|] eqn:E; [|done]. by rewrite (Hnil _ _ E).
  - intros i L HL. apply Hnil in HL as ->. apply not_elem_of_nil.
  - intros a t Ha. by rewrite Ht in Ha.
  - intros i L a t HL Ha. apply Hnil in HL as ->. by apply not_elem_of_nil in Ha.
Qed.

Lemma sleepers_keep (s s' : hstate sleepers) a t t' :
  all_sleepers s -> hr_timers s !! a = Some t -> hr_timers s' = <[a := t']> (hr_timers s) -> function t' = function t -> env s' = env s -> all_sleepers s'.
Proof.
  intros H Et Ht Hf He c tc. rewrite Ht, He. destruct (decide (c = a)) as [->|]; [rewrite lookup_insert_eq; intros [= <-]; rewrite Hf; by apply H|].
  rewrite lookup_insert_ne by done. apply H.
Qed.

Lemma init_step s op : hr_ok s -> match op with HrInit _ _ _ _ => True | _ => False end -> hr_pre op s -> exists s', hr_step op s = Ok s' /\ hr_ok s'.
Proof.
  intros (Q & H & Hs) Hop Hpre. destruct op as [current sl clock_id mode| | | |]; try done. destruct Hpre as (Hok & Hclk & Hst). cbn [hr_step].
  assert (Hno : forall i L, Q !! i = Some L -> sl ∉ L).
  { intros i L EQ Hin. destruct (queued_timer _ _ _ _ _ sl H EQ Hin) as [t Et]. rewrite Et in Hst.
    destruct (state_cases _ _ _ _ H Et) as [[Hst' _]|(_ & Hno & _)]; [by rewrite Hst in Hst'|by apply (Hno i L)]. }
  destruct (hrtimer_init_ok Q s sl clock_id mode H Hno Hok Hclk) as (s1 & t & Hrun & H1 & Et1 & Ee1 & Hst1).
  unfold __hrtimer_init_sleeper. rewrite Hrun. cbn [mbind outcome_bind]. unfold timer_at. rewrite Et1, lookup_insert_eq. cbn [mbind outcome_bind].
  eexists. split; [done|]. exists Q. destruct (hi_timer _ _ _ H1 sl t) as (Hm & _ & Hb & Hsoft & Hse & _); [by rewrite Et1, lookup_insert_eq|]. split.
  - eapply (hr_inv_new Q s1 _ sl); [exact H1|exact Hno|done|done|done|exact Hm|exact Hok|exact Hb|exact Hsoft|exact Hse|exact Hst1].
  - intros c tc. cbn. rewrite Ee1, Et1, insert_insert_eq. destruct (decide (c = sl)) as [->|].
    + rewrite !lookup_insert_eq. intros [= <-]. split; [done|by eexists].
    + rewrite !lookup_insert_ne by done. apply Hs.
Qed.

Lemma hr_step_ok s op : hr_ok s -> hr_pre op s -> exists s', hr_step op s = Ok s' /\ hr_ok s'.
Proof.
  intros Hok Hpre. pose proof Hok as (Q & H & Hs). destruct op as [current sl clock_id mode|a tim delta mode get_time|a|tk|tk].
  - by apply init_step.
  - destruct Hpre as [[t Et] Htim]. cbn [hr_step].
    destruct (hrtimer_start_ok _ _ _ _ _ delta mode get_time H Et Htim) as (s' & -> & H' & Et' & [He _]). exists s'. split; [done|].
    eexists. split; [exact H'|]. by eapply (sleepers_keep s s').
  - destruct Hpre as [t Et]. cbn [hr_step]. destruct (hrtimer_cancel_ok _ _ _ _ H Et) as (r & s' & -> & [He _] & Hr). exists s'. split; [done|].
    destruct Hr as [(_ & -> & _)|(_ & H' & Et')]; [by exists Q|]. eexists. split; [exact H'|]. by eapply (sleepers_keep s s').
  - destruct (run_tick_ok sleeper_call KTIME_MAX (callback := wakeup_callback KTIME_MAX) Q s tk H Hs ltac:(lia)) as (s' & Q' & Hrun & H' & Hs'). exists s'. split; [exact Hrun|by exists Q'].
  - destruct (run_softirq_ok sleeper_call KTIME_MAX (callback := wakeup_callback KTIME_MAX) Q s tk H Hs ltac:(lia)) as (s' & Q' & Hrun & H' & Hs'). exists s'. split; [exact Hrun|by exists Q'].
Qed.

(** C17. In every state that is reached from [hrtimers_init] by initialising,
    starting and cancelling timers, by ticks and by soft interrupts, the
    invariant of the queues holds and each further call returns. *)
Theorem hrtimers_safe (s : hstate sleepers) (Hreach : hr_reach s) : hr_ok s /\ forall op, hr_pre op s -> exists s', hr_step op s = Ok s'.
Proof.
  assert (Hok : hr_ok s).
  { induction Hreach as [s Ht Hl|s op s' _ IH Hpre Hrun]; [by apply prepare_ok|]. destruct (hr_step_ok s op IH Hpre) as (s1 & E & Hok).
    rewrite Hrun in E. by injection E as <-. }
  split; [done|]. intros op Hpre. destruct (hr_step_ok s op Hok Hpre) as (s' & E & _). by exists s'.
Qed.

End sleep.

(** ** What the queues are for *)

(** The invariant, for some queues; a timer is queued when its state says so. *)
Definition hr_good {W} (s : hstate W) : Prop := exists Q, hr_inv 0 Q s.

(** The time of the base of a timer. *)
Definition base_time {W} (now : Z) (t : hrtimer) (s : hstate W) : Z := ktime_add now (offset_at s (Z.to_nat (base t))).

Lemma enqueued {W} Q (s : hstate W) a t :
  hr_inv 0 Q s -> hr_timers s !! a = Some t -> state t = HRTIMER_STATE_ENQUEUED ->
  exists L, Q !! Z.to_nat (base t) = Some L /\ a ∈ L.
Proof.
  intros H Et Hst. destruct (state_cases _ _ _ _ H Et) as [(_ & L1 & L2 & EQ & _)|(Hst' & _)]; [|by rewrite Hst in Hst'].
  eexists. split; [exact EQ|set_solver].
Qed.

(** C16. Expiry is live, and never early. When the queues of the bases in [mask]
    are run, the call returns; every queued timer whose expiry has come has
    had its callback run; every queued timer that may not run yet is as it
    was; and no timer is left queued that has expired. *)
Theorem run_queues_live {W} (call : Z -> Z -> hstate W -> outcome (Z * hstate W)) (limit : Z) {callback : HrtimerCallback call limit}
  (now mask : Z) (s : hstate W) (Hgood : hr_good s) (Henv : cb_env s) (Hmask : 0 <= mask) (Hlimit : forall i, ktime_add now (offset_at s i) <= limit) :
  exists s', __hrtimer_run_queues call now mask s = Ok s' /\ hr_good s' /\
    (forall a t, hr_timers s !! a = Some t -> Z.testbit mask (base t) = true -> state t = HRTIMER_STATE_ENQUEUED ->
      (node_expires t <= base_time now t s -> cb_done (env s') a) /\ (base_time now t s < _softexpires t -> hr_timers s' !! a = Some t)) /\
    (forall a t, hr_timers s' !! a = Some t -> Z.testbit mask (base t) = true -> state t = HRTIMER_STATE_ENQUEUED -> base_time now t s < node_expires t).
Proof.
  destruct Hgood as [Q H]. destruct (run_queues_ok call limit now mask Q s H Henv Hmask Hlimit) as (s' & Q' & Hrun & Hall). exists s'.
  pose proof (ra_inv _ _ _ _ _ _ _ _ Hall) as H'. split; [done|]. split; [by exists Q'|]. unfold base_time. split.
  - intros a t Et Hb Hst. destruct (hi_timer _ _ _ H _ _ Et) as (_ & _ & Hb8 & _). destruct (enqueued _ _ _ _ H Et Hst) as (L & EQ & Ha).
    destruct (base_at_ok _ _ _ _ H' Hb8) as (_ & L' & _ & _ & EQ' & _).
    destruct (ra_run _ _ _ _ _ _ _ _ Hall (Z.to_nat (base t)) L L' a) as (_ & B2 & B3); [by rewrite Z2Nat.id by lia|done|done|]. split.
    + intros He. apply B2; [done|]. unfold key_of. by rewrite Et.
    + intros He. rewrite <- Et. apply B3; [done|]. unfold soft_of. by rewrite Et.
  - intros a t Et Hb Hst. destruct (hi_timer _ _ _ H' _ _ Et) as (_ & _ & Hb8 & _). destruct (enqueued _ _ _ _ H' Et Hst) as (L' & EQ' & Ha).
    destruct (base_at_ok _ _ _ _ H Hb8) as (_ & L & _ & _ & EQ & _).
    destruct (ra_run _ _ _ _ _ _ _ _ Hall (Z.to_nat (base t)) L L' a) as (B1 & _); [by rewrite Z2Nat.id by lia|done|done|].
    specialize (B1 Ha). unfold key_of in B1. by rewrite Et in B1.
Qed.

Lemma watched_base {W} Q (s : hstate W) a t L :
  hr_inv 0 Q s -> hr_timers s !! a = Some t -> Q !! Z.to_nat (base t) = Some L -> a ∈ L ->
  watched_bases s (base t) = negb (is_soft t) || negb (softirq_activated (cpu_base s)).
Proof.
  intros H Et EQ Ha. destruct (hi_timer _ _ _ H _ _ Et) as (_ & _ & Hb & -> & _). pose proof (hi_active _ _ _ H (Z.to_nat (base t))) as Hact.
  rewrite EQ, Z2Nat.id in Hact by lia. destruct L as [|c L]; [by apply not_elem_of_nil in Ha|].
  unfold watched_bases, hard_bases, soft_bases. rewrite !Z.land_spec, Hact.
  assert (Hc : base t = 0 \/ base t = 1 \/ base t = 2 \/ base t = 3 \/ base t = 4 \/ base t = 5 \/ base t = 6 \/ base t = 7) by lia.
  decompose [or] Hc; match goal with E : base t = _ |- _ => rewrite E end; by destruct (softirq_activated _).
Qed.

(** Without overflow, the events of a base are in the order of its queue. *)
Lemma event_value {W} Q (s : hstate W) a t L :
  hr_inv 0 Q s -> hr_timers s !! a = Some t -> Q !! Z.to_nat (base t) = Some L -> a ∈ L ->
  - 2 ^ 63 <= node_expires t - offset_at s (Z.to_nat (base t)) < 2 ^ 63 -> event s (base t) a = node_expires t - offset_at s (Z.to_nat (base t)).
Proof.
  intros H Et EQ Ha Hr. unfold event, key_of. rewrite Et. unfold ktime_sub, offset_at, offsets in *. rewrite list_lookup_fmap in *.
  destruct (hi_timer _ _ _ H _ _ Et) as (_ & _ & Hb & _). destruct (base_at_ok _ _ _ _ H Hb) as (b & _ & _ & Eb & _). rewrite Eb in *. cbn in *. by apply s64_small.
Qed.

(** C18. The search for the next event finds the earliest of all queued timers: of
    those that expire in the interrupt, and of those of the soft interrupt
    unless that is about to run; 0 if it has passed, [KTIME_MAX] if there is
    none before. *)
Theorem next_event_earliest {W} (s : hstate W) (Hgood : hr_good s)
  (Hrange : forall a t, hr_timers s !! a = Some t -> - 2 ^ 63 <= node_expires t - offset_at s (Z.to_nat (base t)) < 2 ^ 63) :
  let watched t := negb (is_soft t) || negb (softirq_activated (cpu_base s)) in
  let due t := Z.max 0 (node_expires t - offset_at s (Z.to_nat (base t))) in
  exists r s', hrtimer_update_next_event s = Ok (r, s') /\ hr_good s' /\ 0 <= r <= KTIME_MAX /\
    (forall a t, hr_timers s !! a = Some t -> state t = HRTIMER_STATE_ENQUEUED -> watched t = true -> r <= due t) /\
    (r = KTIME_MAX \/ exists a t, hr_timers s !! a = Some t /\ state t = HRTIMER_STATE_ENQUEUED /\ watched t = true /\ r = due t).
Proof.
  intros watched due. destruct Hgood as [Q H]. destruct (update_next_event_ok 0 Q s H) as (r & s' & Hrun & Hs & Hr & Hmin & Hex).
  exists r, s'. split; [done|]. split; [exists Q; by eapply hr_inv_core|]. split; [done|]. split.
  - intros a t Et Hst Hw. destruct (enqueued _ _ _ _ H Et Hst) as (L & EQ & Ha). unfold watched in Hw. rewrite <- (watched_base _ _ _ _ _ H Et EQ Ha) in Hw.
    destruct (hi_timer _ _ _ H _ _ Et) as (_ & _ & Hb & _). destruct (base_at_ok _ _ _ _ H Hb) as (b & L0 & _ & _ & EQ0 & Hq).
    rewrite EQ in EQ0. injection EQ0 as <-. destruct L as [|c L]; [by apply not_elem_of_nil in Ha|].
    specialize (Hmin (base t) c L ltac:(lia) Hw EQ). destruct (queued_timer _ _ _ _ _ c H EQ) as [tc Etc]; [set_solver|].
    pose proof (hi_own _ _ _ H _ _ c _ EQ ltac:(set_solver) Etc) as Eb. rewrite Z2Nat.id in Eb by lia.
    assert (Hle : key_of s c <= key_of s a).
    { destruct Hq as (_ & Hord & _). apply elem_of_cons in Ha as [->|Ha]; [done|]. apply StronglySorted_inv in Hord as [_ Hord]. rewrite Forall_forall in Hord. by apply Hord. }
    unfold key_of in Hle. rewrite Et, Etc in Hle. subst due. cbn. rewrite Eb in Hmin, EQ.
    rewrite (event_value _ _ _ _ _ H Etc EQ) in Hmin by (set_solver || by apply (Hrange c)). rewrite <- Eb in Hmin. lia.
  - destruct Hex as [->|(i & a & L & Hi & Hw & EQ & ->)]; [by left|right]. destruct (queued_timer _ _ _ _ _ a H EQ) as [t Et]; [set_solver|].
    pose proof (hi_own _ _ _ H _ _ a _ EQ ltac:(set_solver) Et) as Eb. rewrite Z2Nat.id in Eb by lia. subst i.
    assert (Ha : a ∈ a :: L) by set_solver. exists a, t. split; [done|]. split.
    { destruct (state_cases _ _ _ _ H Et) as [(? & _)|(_ & Hno & _)]; [done|by destruct (Hno _ _ EQ Ha)]. }
    split; [unfold watched; by rewrite <- (watched_base _ _ _ _ _ H Et EQ Ha)|]. by rewrite (event_value _ _ _ _ _ H Et EQ Ha) by (by apply (Hrange a)).
Qed.

(** ** An example *)

(** Two tasks sleep, until 50 and until 200; the clock is at 10 when they start
    to. *)
Definition example_wakeup : Z := 4096.

Definition example_boot : hstate sleepers :=
  HState ∅ ∅ (HrtimerCpuBase 0 0 false false 0 0 0 0 (replicate 8 (HrtimerClockBase 0 0 0 0))) false (Sleepers ∅ []).

Definition result {A} (d : A) (m : outcome A) : A := match m with Ok x => x | _ => d end.

Definition example_step (op : hr_op) (s : hstate sleepers) : hstate sleepers := result s (hr_step example_wakeup op s).

Definition example_s0 : hstate sleepers := hrtimers_prepare_cpu example_boot.
Definition example_s1 : hstate sleepers := example_step (HrInit 111 16 CLOCK_MONOTONIC HRTIMER_MODE_REL) example_s0.
Definition example_s2 : hstate sleepers := example_step (HrInit 222 80 CLOCK_MONOTONIC HRTIMER_MODE_REL) example_s1.
Definition example_s3 : hstate sleepers := example_step (HrStart 80 190 0 HRTIMER_MODE_REL 10) example_s2.
Definition example_s4 : hstate sleepers := example_step (HrStart 16 40 0 HRTIMER_MODE_REL 10) example_s3.

Lemma hrtimers_safe_witness :
  hr_reach example_wakeup example_s4 /\ hr_ok example_wakeup example_s4 /\
  exists s', hr_step example_wakeup (HrTick (Timekeeper 60 0 0 0 0 0 KTIME_MAX)) example_s4 = Ok s'.
Proof.
  assert (Hreach : hr_reach example_wakeup example_s4).
  { apply (hr_reach_step _ example_s3 (HrStart 16 40 0 HRTIMER_MODE_REL 10)); [|by split; [by eexists|]|by vm_compute].
    apply (hr_reach_step _ example_s2 (HrStart 80 190 0 HRTIMER_MODE_REL 10)); [|by split; [by eexists|]|by vm_compute].
    apply (hr_reach_step _ example_s1 (HrInit 222 80 CLOCK_MONOTONIC HRTIMER_MODE_REL)); [|by split; [|split]|by vm_compute].
    apply (hr_reach_step _ example_s0 (HrInit 111 16 CLOCK_MONOTONIC HRTIMER_MODE_REL)); [|by split; [|split]|by vm_compute].
    by apply hr_reach_init. }
  destruct (hrtimers_safe example_wakeup example_s4 Hreach) as [Hok Hstep]. split; [done|]. split; [done|]. by apply Hstep.
Defined.

Lemma example_step_ok op s : hr_ok example_wakeup s -> hr_pre op s -> hr_ok example_wakeup (example_step op s).
Proof. intros Hok Hpre. destruct (hr_step_ok example_wakeup s op Hok Hpre) as (s' & E & Hok'). unfold example_step. by rewrite E. Qed.

Lemma example_ok : hr_ok example_wakeup example_s4.
Proof.
  apply example_step_ok; [|by split; [by eexists|]]. apply example_step_ok; [|by split; [by eexists|]].
  apply example_step_ok; [|by split; [|split]]. apply example_step_ok; [|by split; [|split]]. by apply prepare_ok.
Qed.

(** At 60 the first task is woken and the second one is not. *)
Lemma run_queues_live_witness :
  exists s', __hrtimer_run_queues (sleeper_call example_wakeup) 60 HRTIMER_ACTIVE_HARD example_s4 = Ok s' /\ hr_good s' /\
    sleeper_task (env s') !! 16 = Some 0 /\ hr_timers s' !! 80 = Some (Hrtimer 200 200 example_wakeup 0 HRTIMER_STATE_ENQUEUED false false).
Proof.
  destruct example_ok as (Q & Hinv & Hs).
  destruct (run_queues_live (sleeper_call example_wakeup) KTIME_MAX (callback := wakeup_callback example_wakeup KTIME_MAX)
    60 HRTIMER_ACTIVE_HARD example_s4) as (s' & Hrun & Hgood & Hdue & _); [by exists Q|exact Hs|done|intros; apply ktime_add_max|].
  exists s'. split; [exact Hrun|]. split; [exact Hgood|]. split.
  - apply (Hdue 16 (Hrtimer 50 50 example_wakeup 0 HRTIMER_STATE_ENQUEUED false false)); [by vm_compute|done|done|by vm_compute].
  - apply (Hdue 80); [by vm_compute|done|done|by vm_compute].
Defined.

Lemma next_event_earliest_witness :
  exists r s', hrtimer_update_next_event example_s4 = Ok (r, s') /\ hr_good s' /\ r = 50.
Proof.
  destruct example_ok as (Q & Hinv & Hs). destruct (next_event_earliest example_s4) as (r & s' & Hrun & Hgood & _); [by exists Q| |].
  - intros a t Ht. assert (E : hr_timers example_s4 = <[16 := Hrtimer 50 50 example_wakeup 0 HRTIMER_STATE_ENQUEUED false false]>
      (<[80 := Hrtimer 200 200 example_wakeup 0 HRTIMER_STATE_ENQUEUED false false]> ∅)) by (by vm_compute).
    rewrite E in Ht. apply lookup_insert_Some in Ht as [[_ <-]|[_ [[_ <-]|[_ Ht]]%lookup_insert_Some]];
      [clear; vm_compute; split; [intros [=]|reflexivity]..|clear -Ht; by rewrite lookup_empty in Ht].
  - exists r, s'. split; [exact Hrun|]. split; [exact Hgood|]. 
    assert (E : match hrtimer_update_next_event example_s4 with Ok (r, _) => r | _ => 0 end = 50) by (by vm_compute). by rewrite Hrun in E.
Defined.
