(* ===== verification/KconfigExpr.v ===== *)
(** * scripts/kconfig/expr.c: the expressions of the configuration language

    Dependencies between configuration symbols are expressions over the three
    values [no], [mod] and [yes]. The tool rewrites them (negations pushed to
    the leaves, duplicates removed, constants folded). The definitions here
    are the rewriting functions, over trees: an expression is owned by one
    pointer, so that freeing and reusing its nodes is building the new tree.
    The one place where two pointers into the same tree matter,
    [expr_eliminate_dups1], works on positions in the tree.

    [E_LIST] and [E_RANGE] nodes, which only occur as the expression of a
    choice or a range property, are not expressions here. *)

From S2P Require Import Prelude.

Local Open Scope Z_scope.

(** ** Symbols and expressions *)

Inductive symbol : Set := symbol_yes | symbol_mod | symbol_no | Sym (n : nat).

#[global] Instance symbol_eq_dec : EqDecision symbol.
Proof. solve_decision. Defined.

Inductive symbol_type : Set := S_UNKNOWN | S_BOOLEAN | S_TRISTATE | S_INT | S_HEX | S_STRING.

#[global] Instance symbol_type_eq_dec : EqDecision symbol_type.
Proof. solve_decision. Defined.

(** The comparisons among the [expr_type]s. *)
Inductive comparison_op : Set := E_EQUAL | E_UNEQUAL | E_LTH | E_LEQ | E_GTH | E_GEQ.

#[global] Instance comparison_op_eq_dec : EqDecision comparison_op.
Proof. solve_decision. Defined.

Inductive expr : Set :=
| ESymbol (s : symbol)
| ENot (e : expr)
| EComp (op : comparison_op) (s1 s2 : symbol)
| EAnd (e1 e2 : expr)
| EOr (e1 e2 : expr).

#[global] Instance expr_eq_dec : EqDecision expr.
Proof. solve_decision. Defined.

(** The two types the elimination functions are called with. *)
Inductive junction : Set := E_OR | E_AND.

#[global] Instance junction_eq_dec : EqDecision junction.
Proof. solve_decision. Defined.

(** The operands of [e], when it is of the given type. *)
Definition operands (type : junction) (e : expr) : option (expr * expr) :=
  match type, e with
  | E_OR, EOr a b => Some (a, b)
  | E_AND, EAnd a b => Some (a, b)
  | _, _ => None
  end.

Definition junction_of (e : expr) : option junction :=
  match e with EOr _ _ => Some E_OR | EAnd _ _ => Some E_AND | _ => None end.

Definition join (type : junction) (a b : expr) : expr := match type with E_OR => EOr a b | E_AND => EAnd a b end.

(** The constant that is neutral for a type. *)
Definition neutral (type : junction) : symbol := match type with E_OR => symbol_no | E_AND => symbol_yes end.

Definition expr_alloc_and (e1 e2 : option expr) : option expr :=
  match e1, e2 with
  | None, _ => e2
  | Some a, Some b => Some (EAnd a b)
  | Some a, None => e1
  end.

Definition expr_alloc_or (e1 e2 : option expr) : option expr :=
  match e1, e2 with
  | None, _ => e2
  | Some a, Some b => Some (EOr a b)
  | Some a, None => e1
  end.

Definition expr_is_yes (e : option expr) : bool :=
  match e with None => true | Some (ESymbol s) => bool_decide (s = symbol_yes) | _ => false end.

(** ** expr_eliminate_yn *)

Definition yn_and (e1 e2 : expr) : expr :=
  if decide (e1 = ESymbol symbol_no) then ESymbol symbol_no
  else if decide (e1 = ESymbol symbol_yes) then e2
  else if decide (e2 = ESymbol symbol_no) then ESymbol symbol_no
  else if decide (e2 = ESymbol symbol_yes) then e1
  else EAnd e1 e2.

Definition yn_or (e1 e2 : expr) : expr :=
  if decide (e1 = ESymbol symbol_no) then e2
  else if decide (e1 = ESymbol symbol_yes) then ESymbol symbol_yes
  else if decide (e2 = ESymbol symbol_no) then e1
  else if decide (e2 = ESymbol symbol_yes) then ESymbol symbol_yes
  else EOr e1 e2.

Fixpoint expr_eliminate_yn (e : expr) : expr :=
  match e with
  | EAnd a b => yn_and (expr_eliminate_yn a) (expr_eliminate_yn b)
  | EOr a b => yn_or (expr_eliminate_yn a) (expr_eliminate_yn b)
  | _ => e
  end.

(** ** expr_eliminate_eq and expr_eq *)

Section eliminate.
Context (eq : expr -> expr -> outcome bool).

(** [__expr_eliminate_eq]: the two trees afterwards, and [trans_count]. *)
Fixpoint __expr_eliminate_eq (fuel : nat) (type : junction) (e1 e2 : expr) (trans_count : Z) : outcome (expr * expr * Z) :=
  match fuel with
  | O => NoFuel
  | S fuel =>
      match operands type e1 with
      | Some (a, b) =>
          '(a, e2, n) ← __expr_eliminate_eq fuel type a e2 trans_count;
          '(b, e2, n) ← __expr_eliminate_eq fuel type b e2 n;
          Ok (join type a b, e2, n)
      | None =>
          match operands type e2 with
          | Some (a, b) =>
              '(e1, a, n) ← __expr_eliminate_eq fuel type e1 a trans_count;
              '(e1, b, n) ← __expr_eliminate_eq fuel type e1 b n;
              Ok (e1, join type a b, n)
          | None =>
              if decide (e1 = e2 /\ (e1 = ESymbol symbol_yes \/ e1 = ESymbol symbol_no)) then Ok (e1, e2, trans_count)
              else
                same ← eq e1 e2;
                if same : bool then Ok (ESymbol (neutral type), ESymbol (neutral type), trans_count + 1)
                else Ok (e1, e2, trans_count)
          end
      end
  end.

Fixpoint expr_size (e : expr) : nat :=
  match e with
  | ESymbol _ | EComp _ _ _ => 1
  | ENot e => S (expr_size e)
  | EAnd a b | EOr a b => S (expr_size a + expr_size b)
  end.

Definition eliminate_eq (e1 e2 : expr) (trans_count : Z) : outcome (expr * expr * Z) :=
  '(e1, e2, n) ← match junction_of e1 with
                 | Some type => __expr_eliminate_eq (expr_size e1 + expr_size e2) type e1 e2 trans_count
                 | None => Ok (e1, e2, trans_count)
                 end;
  '(e1, e2, n) ← (if decide (junction_of e1 = junction_of e2) then Ok (e1, e2, n)
                  else match junction_of e2 with
                       | Some type => __expr_eliminate_eq (expr_size e1 + expr_size e2) type e1 e2 n
                       | None => Ok (e1, e2, n)
                       end);
  Ok (expr_eliminate_yn e1, expr_eliminate_yn e2, n).
End eliminate.

(** [expr_eq] of two expressions; it works on copies and restores
    [trans_count]. *)
Fixpoint expr_eq (fuel : nat) (e1 e2 : expr) : outcome bool :=
  match fuel with
  | O => NoFuel
  | S fuel =>
      match e1, e2 with
      | EComp op s1 s2, EComp op' s1' s2' => Ok (bool_decide (op = op' /\ s1 = s1' /\ s2 = s2'))
      | ESymbol s, ESymbol s' => Ok (bool_decide (s = s'))
      | ENot a, ENot b => expr_eq fuel a b
      | EAnd _ _, EAnd _ _ | EOr _ _, EOr _ _ =>
          '(e1, e2, _) ← eliminate_eq (expr_eq fuel) e1 e2 0;
          Ok (match e1, e2 with ESymbol s, ESymbol s' => bool_decide (s = s') | _, _ => false end)
      | _, _ => Ok false
      end
  end.

Definition eq_fuel (e1 e2 : expr) : nat := expr_size e1 + expr_size e2.

Definition expr_eq_ptr (e1 e2 : option expr) : outcome bool :=
  match e1, e2 with
  | Some a, Some b => expr_eq (eq_fuel a b) a b
  | _, _ => Ok (expr_is_yes e1 && expr_is_yes e2)
  end.

Definition expr_eliminate_eq (ep1 ep2 : option expr) (trans_count : Z) : outcome (option expr * option expr * Z) :=
  match ep1, ep2 with
  | Some e1, Some e2 =>
      '(e1, e2, n) ← eliminate_eq (expr_eq (eq_fuel e1 e2)) e1 e2 trans_count;
      Ok (Some e1, Some e2, n)
  | _, _ => Ok (ep1, ep2, trans_count)
  end.

(** ** Joining two operands *)

Definition is_symbol (e : expr) : bool := match e with ESymbol _ => true | _ => false end.
Definition is_not_symbol (e : expr) : bool := match e with ENot (ESymbol _) => true | _ => false end.

(** [e->type == op && e->right.sym == r]. *)
Definition compares (op : comparison_op) (r : symbol) (e : expr) : bool :=
  match e with EComp op' _ s2 => bool_decide (op' = op /\ s2 = r) | _ => false end.

(** The right symbol of a comparison of the given kind. *)
Definition right_of (op : comparison_op) (e : expr) : option symbol :=
  match e with EComp op' _ s2 => if decide (op' = op) then Some s2 else None | _ => None end.

Definition leaf_symbol (e : expr) : option symbol :=
  match e with
  | ESymbol s => Some s
  | EComp E_EQUAL s _ | EComp E_UNEQUAL s _ => Some s
  | _ => None
  end.

(** [sym1] and [sym2]; [None] for the early [return NULL]. *)
Definition first_symbol (e : expr) : option symbol := match e with ENot t => leaf_symbol t | _ => leaf_symbol e end.
Definition second_symbol (e : expr) : option symbol :=
  match e with ENot (ESymbol s) => Some s | ENot _ => None | _ => leaf_symbol e end.

Section joins.
Context (sym_type : symbol -> symbol_type) (sym_const : symbol -> bool).

(** Two tests in either order. *)
Definition either (p q : expr -> bool) (e1 e2 : expr) : bool := (p e1 && q e2) || (q e1 && p e2).

Definition join_or_symbol (sym1 : symbol) (e1 e2 : expr) : option expr :=
  let eqs r := compares E_EQUAL r in
  if decide (sym_type sym1 = S_TRISTATE) then
    if either (eqs symbol_yes) (eqs symbol_mod) e1 e2 then Some (EComp E_UNEQUAL sym1 symbol_no)
    else if either (eqs symbol_yes) (eqs symbol_no) e1 e2 then Some (EComp E_UNEQUAL sym1 symbol_mod)
    else if either (eqs symbol_mod) (eqs symbol_no) e1 e2 then Some (EComp E_UNEQUAL sym1 symbol_yes)
    else None
  else if decide (sym_type sym1 = S_BOOLEAN) then
    if (is_not_symbol e1 && is_symbol e2) || (is_not_symbol e2 && is_symbol e1) then Some (ESymbol symbol_yes)
    else None
  else None.

Definition expr_join_or (e1 e2 : expr) : outcome (option expr) :=
  same ← expr_eq (eq_fuel e1 e2) e1 e2;
  if same : bool then Ok (Some e1)
  else
    Ok (match first_symbol e1, second_symbol e2 with
        | Some sym1, Some sym2 => if decide (sym1 = sym2) then join_or_symbol sym1 e1 e2 else None
        | _, _ => None
        end).

(** The comparison [e1] is [sym1 = b] and [e2] is [sym1 != c], both constant. *)
Definition join_consts (sym1 b c : symbol) : option expr :=
  if sym_const c && sym_const b
  then Some (if decide (b <> c) then EComp E_EQUAL sym1 b else ESymbol symbol_no)
  else None.

Definition join_and_tristate (sym1 : symbol) (e1 e2 : expr) : option expr :=
  let neqs r := compares E_UNEQUAL r in
  match right_of E_EQUAL e1, right_of E_UNEQUAL e2 with
  | Some b, Some c => join_consts sym1 b c
  | _, _ =>
      match right_of E_UNEQUAL e1, right_of E_EQUAL e2 with
      | Some c, Some b => join_consts sym1 b c
      | _, _ =>
          if either (neqs symbol_yes) (neqs symbol_no) e1 e2 then Some (EComp E_EQUAL sym1 symbol_mod)
          else if either (neqs symbol_yes) (neqs symbol_mod) e1 e2 then Some (EComp E_EQUAL sym1 symbol_no)
          else if either (neqs symbol_mod) (neqs symbol_no) e1 e2 then Some (EComp E_EQUAL sym1 symbol_yes)
          else None
      end
  end.

Definition join_and_symbol (sym1 : symbol) (e1 e2 : expr) : option expr :=
  if decide (sym_type sym1 <> S_BOOLEAN /\ sym_type sym1 <> S_TRISTATE) then None
  else if either is_symbol (compares E_EQUAL symbol_yes) e1 e2 then Some (EComp E_EQUAL sym1 symbol_yes)
  else if either is_symbol (compares E_UNEQUAL symbol_no) e1 e2 then Some (ESymbol sym1)
  else if either is_symbol (compares E_UNEQUAL symbol_mod) e1 e2 then Some (EComp E_EQUAL sym1 symbol_yes)
  else if decide (sym_type sym1 = S_TRISTATE) then join_and_tristate sym1 e1 e2
  else None.

Definition expr_join_and (e1 e2 : expr) : outcome (option expr) :=
  same ← expr_eq (eq_fuel e1 e2) e1 e2;
  if same : bool then Ok (Some e1)
  else
    Ok (match first_symbol e1, second_symbol e2 with
        | Some sym1, Some sym2 => if decide (sym1 = sym2) then join_and_symbol sym1 e1 e2 else None
        | _, _ => None
        end).

(** ** expr_eliminate_dups *)

(** A position in a tree: [false] is the left operand of a junction. *)
Definition position : Set := list bool.

Fixpoint get (t : expr) (p : position) {struct p} : option expr :=
  match p with
  | [] => Some t
  | d :: p =>
      match t with
      | EAnd a b | EOr a b => get (if d then b else a) p
      | _ => None
      end
  end.

Fixpoint set (t : expr) (p : position) (x : expr) {struct p} : expr :=
  match p with
  | [] => x
  | d :: p =>
      match t with
      | EAnd a b => if d then EAnd a (set b p x) else EAnd (set a p x) b
      | EOr a b => if d then EOr a (set b p x) else EOr (set a p x) b
      | _ => t
      end
  end.

Definition get_ok (t : expr) (p : position) : outcome expr := match get t p with Some e => Ok e | None => Bug end.

(** [expr_eliminate_dups1(type, &t at p1, &t at p2)]: the tree and
    [trans_count] afterwards. Different positions hold different nodes. *)
Fixpoint expr_eliminate_dups1 (fuel : nat) (type : junction) (t : expr) (p1 p2 : position) (trans_count : Z) :
    outcome (expr * Z) :=
  match fuel with
  | O => NoFuel
  | S fuel =>
      e1 ← get_ok t p1;
      match operands type e1 with
      | Some _ =>
          '(t, n) ← expr_eliminate_dups1 fuel type t (p1 ++ [false]) p2 trans_count;
          expr_eliminate_dups1 fuel type t (p1 ++ [true]) p2 n
      | None =>
          e2 ← get_ok t p2;
          match operands type e2 with
          | Some _ =>
              '(t, n) ← expr_eliminate_dups1 fuel type t p1 (p2 ++ [false]) trans_count;
              expr_eliminate_dups1 fuel type t p1 (p2 ++ [true]) n
          | None =>
              if decide (p1 = p2) then Ok (t, trans_count)
              else
                '(e1, n) ← match junction_of e1 with
                           | Some type' => expr_eliminate_dups1 fuel type' e1 [] [] trans_count
                           | None => Ok (e1, trans_count)
                           end;
                let t := set t p1 e1 in
                tmp ← match type with E_OR => expr_join_or e1 e2 | E_AND => expr_join_and e1 e2 end;
                match tmp with
                | Some tmp => Ok (set (set t p1 (ESymbol (neutral type))) p2 tmp, n + 1)
                | None => Ok (t, n)
                end
          end
      end
  end.

Definition dups1_fuel (t : expr) : nat := S (expr_size t * expr_size t).

(** [while (1)]. *)
Fixpoint eliminate_dups_loop (fuel : nat) (e : expr) : outcome expr :=
  match fuel with
  | O => NoFuel
  | S fuel =>
      '(e, n) ← match junction_of e with
                | Some type => expr_eliminate_dups1 (dups1_fuel e) type e [] [] 0
                | None => Ok (e, 0)
                end;
      if n =? 0 then Ok e else eliminate_dups_loop fuel (expr_eliminate_yn e)
  end.

Definition expr_eliminate_dups (e : option expr) : outcome (option expr) :=
  match e with
  | None => Ok None
  | Some e => e ← eliminate_dups_loop (S (expr_size e)) e; Ok (Some e)
  end.

(** ** expr_trans_bool *)

Fixpoint trans_bool (e : expr) : expr :=
  match e with
  | EAnd a b => EAnd (trans_bool a) (trans_bool b)
  | EOr a b => EOr (trans_bool a) (trans_bool b)
  | ENot a => ENot (trans_bool a)
  | EComp E_UNEQUAL s1 s2 => if decide (sym_type s1 = S_TRISTATE /\ s2 = symbol_no) then ESymbol s1 else e
  | _ => e
  end.

Definition expr_trans_bool (e : option expr) : option expr := trans_bool <$> e.

(** ** expr_transform *)

(** The first [switch] on a comparison. *)
Definition transform_comp (op : comparison_op) (s1 s2 : symbol) : expr :=
  match op with
  | E_EQUAL =>
      if decide (sym_type s1 <> S_BOOLEAN) then EComp op s1 s2
      else if decide (s2 = symbol_no) then ENot (ESymbol s1)
      else if decide (s2 = symbol_mod) then ESymbol symbol_no
      else if decide (s2 = symbol_yes) then ESymbol s1
      else EComp op s1 s2
  | E_UNEQUAL =>
      if decide (sym_type s1 <> S_BOOLEAN) then EComp op s1 s2
      else if decide (s2 = symbol_no) then ESymbol s1
      else if decide (s2 = symbol_mod) then ESymbol symbol_yes
      else if decide (s2 = symbol_yes) then ENot (ESymbol s1)
      else EComp op s1 s2
  | _ => EComp op s1 s2
  end.

Definition negated_op (op : comparison_op) : comparison_op :=
  match op with
  | E_EQUAL => E_UNEQUAL | E_UNEQUAL => E_EQUAL
  | E_LEQ => E_GTH | E_GEQ => E_LTH
  | E_LTH => E_GEQ | E_GTH => E_LEQ
  end.

Fixpoint transform (fuel : nat) (e : expr) : outcome expr :=
  match fuel with
  | O => NoFuel
  | S fuel =>
      match e with
      | ESymbol s => Ok e
      | EComp op s1 s2 => Ok (transform_comp op s1 s2)
      | EAnd a b => a ← transform fuel a; b ← transform fuel b; Ok (EAnd a b)
      | EOr a b => a ← transform fuel a; b ← transform fuel b; Ok (EOr a b)
      | ENot a =>
          a ← transform fuel a;
          match a with
          | ENot b => transform fuel b
          | EComp op s1 s2 => Ok (EComp (negated_op op) s1 s2)
          | EOr b c => transform fuel (EAnd (ENot b) (ENot c))
          | EAnd b c => transform fuel (EOr (ENot b) (ENot c))
          | ESymbol symbol_yes => Ok (ESymbol symbol_no)
          | ESymbol symbol_mod => Ok (ESymbol symbol_mod)
          | ESymbol symbol_no => Ok (ESymbol symbol_yes)
          | ESymbol (Sym n) => Ok (ENot a)
          end
      end
  end.

Fixpoint height (e : expr) : nat :=
  match e with
  | ESymbol _ => 1
  | EComp _ _ _ => 2
  | ENot a => S (height a)
  | EAnd a b | EOr a b => S (Nat.max (height a) (height b))
  end.

Definition expr_transform (e : option expr) : outcome (option expr) :=
  match e with
  | None => Ok None
  | Some e => e ← transform (2 * height e + 1) e; Ok (Some e)
  end.
End joins.
