(* ===== verification/KconfigValue.v ===== *)
(** * scripts/kconfig/expr.c: the value of an expression

    The values of symbols are calculated before the expressions that use them,
    so they are an environment here: [sym_calc_value] of a symbol marked valid
    changes nothing. Comparisons go by the text of the symbols, or by numbers
    where both texts are numbers; [strtoll] and [strtoull] are those of the C
    library, on a string without its terminating zero. *)

From S2P Require Import Prelude Kstrtox KconfigExpr.

Local Open Scope Z_scope.

(** ** tristate *)

Definition no : Z := 0.
Definition mod_ : Z := 1.
Definition yes : Z := 2.

Definition EXPR_OR (dep1 dep2 : Z) : Z := if dep1 >? dep2 then dep1 else dep2.
Definition EXPR_AND (dep1 dep2 : Z) : Z := if dep1 <? dep2 then dep1 else dep2.
Definition EXPR_NOT (dep : Z) : Z := 2 - dep.

(** ** Numbers of the C library *)

Definition c_isspace (c : Z) : bool := ((9 <=? c) && (c <=? 13)) || (c =? 32).
Definition c_isxdigit (c : Z) : bool := match digit_of c with Some _ => true | None => false end.

Fixpoint skip_space (s : list Z) : list Z :=
  match s with c :: s' => if c_isspace c then skip_space s' else s | [] => [] end.

(** The sign, [true] for a minus, and the rest. *)
Definition sign_of (s : list Z) : bool * list Z :=
  match s with
  | c :: s' => if c =? 45 then (true, s') else if c =? 43 then (false, s') else (false, s)
  | [] => (false, [])
  end.

(** [0x] and a digit after it. *)
Definition has_0x (s : list Z) : bool :=
  (ch s 0 =? 48) && ((ch s 1 =? 120) || (ch s 1 =? 88)) && c_isxdigit (ch s 2).

Definition radix (base : Z) (s : list Z) : list Z * Z :=
  if ((base =? 0) || (base =? 16)) && has_0x s then (drop 2 s, 16)
  else if base =? 0 then (s, if ch s 0 =? 48 then 8 else 10)
  else (s, base).

(** What [strtoll] and [strtoull] find: the sign, the number, and the length
    of the text they used; [None] when there are no digits. *)
Definition scan_number (str : list Z) (base : Z) : option (bool * Z * nat) :=
  let '(minus, s) := sign_of (skip_space str) in
  let '(s, base) := radix base s in
  let ds := digits base s in
  match ds with
  | [] => None
  | _ => Some (minus, value base ds, length str - length s + length ds)%nat
  end.

(** The bits stored, the length used (0 when nothing is converted), [errno]. *)
Definition strtoll (str : list Z) (base : Z) : Z * nat * bool :=
  match scan_number str base with
  | None => (0, 0%nat, false)
  | Some (minus, v, n) =>
      let v := if minus : bool then - v else v in
      if v <? - 2 ^ 63 then (- 2 ^ 63, n, true)
      else if 2 ^ 63 <=? v then (2 ^ 63 - 1, n, true)
      else (v, n, false)
  end.

Definition strtoull (str : list Z) (base : Z) : Z * nat * bool :=
  match scan_number str base with
  | None => (0, 0%nat, false)
  | Some (minus, v, n) =>
      if 2 ^ 64 <=? v then (2 ^ 64 - 1, n, true) else (u64 (if minus : bool then - v else v), n, false)
  end.

(** The sign of [c_strcmp], on unsigned characters. *)
Fixpoint c_strcmp (s1 s2 : list Z) : Z :=
  match s1, s2 with
  | [], [] => 0
  | [], _ :: _ => -1
  | _ :: _, [] => 1
  | c :: s1, d :: s2 => if c <? d then -1 else if d <? c then 1 else c_strcmp s1 s2
  end.

(** ** Comparisons *)

Inductive string_value_kind : Set := k_string | k_signed | k_unsigned.

#[global] Instance string_value_kind_eq_dec : EqDecision string_value_kind.
Proof. solve_decision. Defined.

Definition txt_n : list Z := [110].
Definition txt_m : list Z := [109].
Definition txt_y : list Z := [121].

(** The kind, and the 64 bits of the union. *)
Definition expr_parse_string (str : list Z) (type : symbol_type) : string_value_kind * Z :=
  let number kind (r : Z * nat * bool) :=
    let '(v, n, errno) := r in
    (if negb errno && (n =? length str)%nat && (0 <? n)%nat && c_isxdigit (ch str (n - 1)) then kind else k_string, u64 v) in
  match type with
  | S_BOOLEAN | S_TRISTATE =>
      (k_signed, u64 (if c_strcmp str txt_n =? 0 then 0 else if c_strcmp str txt_m =? 0 then 1
                      else if c_strcmp str txt_y =? 0 then 2 else -1))
  | S_INT => number k_signed (strtoll str 10)
  | S_HEX => number k_unsigned (strtoull str 16)
  | _ => number k_signed (strtoll str 0)
  end.

Record environment : Type := Environment {
  sym_type : symbol -> symbol_type;
  curr_tri : symbol -> Z;
  curr_val : symbol -> list Z;
  sym_const : symbol -> bool;
  modules_sym : symbol
}.

Section value.
Context (env : environment).

Definition sym_get_string_value (sym : symbol) : list Z :=
  match sym_type env sym with
  | S_BOOLEAN | S_TRISTATE =>
      if curr_tri env sym =? no then txt_n
      else if curr_tri env sym =? mod_ then
        if curr_tri env (modules_sym env) =? no then txt_n else txt_m
      else if curr_tri env sym =? yes then txt_y
      else curr_val env sym
  | _ => curr_val env sym
  end.

(** [(a > b) - (a < b)]. *)
Definition three_way (a b : Z) : Z := Z.b2z (a >? b) - Z.b2z (a <? b).

Definition compare_symbols (s1 s2 : symbol) : Z :=
  let str1 := sym_get_string_value s1 in
  let str2 := sym_get_string_value s2 in
  let '(k1, lval, k2, rval) :=
    if decide (sym_type env s1 <> S_STRING \/ sym_type env s2 <> S_STRING) then
      let '(k1, lval) := expr_parse_string str1 (sym_type env s1) in
      let '(k2, rval) := expr_parse_string str2 (sym_type env s2) in
      (k1, lval, k2, rval)
    else (k_string, 0, k_string, 0) in
  if decide (k1 = k_string \/ k2 = k_string) then c_strcmp str1 str2
  else if decide (k1 = k_unsigned \/ k2 = k_unsigned) then three_way lval rval
  else three_way (s64 lval) (s64 rval).

Definition relation (op : comparison_op) (res : Z) : bool :=
  match op with
  | E_EQUAL => res =? 0
  | E_GEQ => res >=? 0
  | E_GTH => res >? 0
  | E_LEQ => res <=? 0
  | E_LTH => res <? 0
  | E_UNEQUAL => negb (res =? 0)
  end.

Fixpoint calc_value (e : expr) : Z :=
  match e with
  | ESymbol s => curr_tri env s
  | EAnd a b => EXPR_AND (calc_value a) (calc_value b)
  | EOr a b => EXPR_OR (calc_value a) (calc_value b)
  | ENot a => EXPR_NOT (calc_value a)
  | EComp op s1 s2 => if relation op (compare_symbols s1 s2) then yes else no
  end.

Definition expr_calc_value (e : option expr) : Z := match e with None => yes | Some e => calc_value e end.
End value.

(** ** Symbols in an expression *)

Fixpoint contains_symbol (dep : expr) (sym : symbol) : bool :=
  match dep with
  | EAnd a b | EOr a b => contains_symbol a sym || contains_symbol b sym
  | ESymbol s => bool_decide (s = sym)
  | EComp _ s1 s2 => bool_decide (s1 = sym) || bool_decide (s2 = sym)
  | ENot a => contains_symbol a sym
  end.

Definition expr_contains_symbol (dep : option expr) (sym : symbol) : bool :=
  match dep with None => false | Some dep => contains_symbol dep sym end.

Fixpoint depends_symbol (dep : expr) (sym : symbol) : bool :=
  match dep with
  | EAnd a b => depends_symbol a sym || depends_symbol b sym
  | ESymbol s => bool_decide (s = sym)
  | EComp E_EQUAL s1 s2 => bool_decide (s1 = sym) && bool_decide (s2 = symbol_yes \/ s2 = symbol_mod)
  | EComp E_UNEQUAL s1 s2 => bool_decide (s1 = sym) && bool_decide (s2 = symbol_no)
  | _ => false
  end.

Definition expr_depends_symbol (dep : option expr) (sym : symbol) : bool :=
  match dep with None => false | Some dep => depends_symbol dep sym end.

(** ** expr_trans_compare *)

(** The type is [E_EQUAL] or [E_UNEQUAL], as the callers have it. *)
Definition not_if (type : comparison_op) (e : expr) : expr := if decide (type = E_UNEQUAL) then ENot e else e.

(** [None] where the code returns [NULL]. *)
Fixpoint trans_compare (e : expr) (type : comparison_op) (sym : symbol) : option expr :=
  match e with
  | EAnd a b =>
      let e1 := trans_compare a E_EQUAL sym in
      let e2 := trans_compare b E_EQUAL sym in
      match sym with
      | symbol_yes => a ← e1; b ← e2; Some (not_if type (EAnd a b))
      | symbol_no => a ← e1; b ← e2; Some (not_if type (EOr a b))
      | _ => Some (not_if type e)
      end
  | EOr a b =>
      let e1 := trans_compare a E_EQUAL sym in
      let e2 := trans_compare b E_EQUAL sym in
      match sym with
      | symbol_yes => a ← e1; b ← e2; Some (not_if type (EOr a b))
      | symbol_no => a ← e1; b ← e2; Some (not_if type (EAnd a b))
      | _ => Some (not_if type e)
      end
  | ENot a => trans_compare a (if decide (type = E_EQUAL) then E_UNEQUAL else E_EQUAL) sym
  | EComp _ _ _ =>
      if decide (type = E_EQUAL) then
        match sym with
        | symbol_yes => Some e
        | symbol_mod => Some (ESymbol symbol_no)
        | symbol_no => Some (ENot e)
        | Sym _ => None
        end
      else
        match sym with
        | symbol_yes => Some (ENot e)
        | symbol_mod => Some (ESymbol symbol_yes)
        | symbol_no => Some e
        | Sym _ => None
        end
  | ESymbol s => Some (EComp type s sym)
  end.

Definition expr_trans_compare (e : option expr) (type : comparison_op) (sym : symbol) : option expr :=
  match e with
  | None => Some (not_if type (ESymbol sym))
  | Some e => trans_compare e type sym
  end.

(** ** menu.c: rewrite_m *)

Section menu.
Context (modules_sym : symbol).

Fixpoint rewrite_m (e : expr) : expr :=
  match e with
  | ENot a => ENot (rewrite_m a)
  | EOr a b => EOr (rewrite_m a) (rewrite_m b)
  | EAnd a b => EAnd (rewrite_m a) (rewrite_m b)
  | ESymbol symbol_mod => EAnd e (ESymbol modules_sym)
  | _ => e
  end.
End menu.

(** ** menu.c: menu_finalize, the dependencies of an entry *)

Section finalize.
Context (env : environment).
Abbreviation alloc_and_dups e1 e2 := (expr_eliminate_dups (sym_type env) (sym_const env) (expr_alloc_and e1 e2)).

(** [menu->dep] of an entry below an entry with the condition [parentdep]. *)
Definition entry_dep (parentdep dep : option expr) : outcome (option expr) :=
  basedep ← expr_transform (sym_type env) (rewrite_m (modules_sym env) <$> dep);
  alloc_and_dups parentdep basedep.

(** [prop->visible.expr] of a property of the entry; [sym] is the symbol of
    the entry, when it has one. *)
Definition visible_dep (sym : option symbol) (basedep dep : option expr) : outcome (option expr) :=
  dep ← expr_transform (sym_type env) (rewrite_m (modules_sym env) <$> dep);
  dep ← alloc_and_dups basedep dep;
  match sym with
  | Some sym => Ok (if decide (sym_type env sym <> S_TRISTATE) then expr_trans_bool (sym_type env) dep else dep)
  | None => Ok dep
  end.
End finalize.
