(* ===== verification/KconfigTransform.v ===== *)
(** * scripts/kconfig/expr.c: what the rewriting of negations preserves

    The conditions on the values of symbols under which the rewriting is
    correct, the value of comparisons with the constants [y], [m] and [n], and
    the theorem about [expr_transform]: it returns, its result is in a normal
    form with negations on symbols only, and has the value of its argument. *)

From S2P Require Import Prelude Kstrtox KconfigExpr KconfigValue.

Local Open Scope Z_scope.

(** ** Values of symbols *)

(** The three constants, with their values. *)
Definition tristate_of (s : symbol) : option Z :=
  match s with symbol_yes => Some yes | symbol_mod => Some mod_ | symbol_no => Some no | Sym _ => None end.

Definition text_of (v : Z) : list Z := if v =? no then txt_n else if v =? mod_ then txt_m else txt_y.

(** What [sym_calc_value] leaves behind: a [bool] symbol is never [m], no
    symbol is [m] without modules, and constants are the symbols that
    [sym_lookup] makes for words, one for each word. *)
Record env_ok (env : environment) : Prop := EnvOk {
  tri_range s : no <= curr_tri env s <= yes;
  const_tri s v : tristate_of s = Some v -> curr_tri env s = v /\ curr_val env s = text_of v /\ sym_const env s = true;
  const_type s : sym_const env s = true -> sym_type env s = S_UNKNOWN;
  const_name s s' :
    sym_const env s = true -> sym_const env s' = true -> curr_val env s = curr_val env s' -> s = s';
  bool_tri s : sym_type env s = S_BOOLEAN -> curr_tri env s <> mod_;
  mod_modules s : sym_type env s = S_TRISTATE -> curr_tri env s = mod_ -> curr_tri env (modules_sym env) <> no
}.

(** Symbols that hold one of the three values. *)
Definition logical (env : environment) (s : symbol) : Prop :=
  sym_type env s = S_BOOLEAN \/ sym_type env s = S_TRISTATE.

Lemma EXPR_OR_max a b : EXPR_OR a b = Z.max a b.
Proof. unfold EXPR_OR. case_cmp; lia. Qed.

Lemma EXPR_AND_min a b : EXPR_AND a b = Z.min a b.
Proof. unfold EXPR_AND. case_cmp; lia. Qed.

Lemma c_strcmp_eq s1 s2 : c_strcmp s1 s2 = 0 <-> s1 = s2.
Proof.
  revert s2. induction s1 as [|c s1 IH]; intros [|d s2]; cbn [c_strcmp]; try (split; [lia|congruence]); [done|].
  case_cmp; [split; [lia|intros [= -> ->]; lia]|]. case_cmp; [split; [lia|intros [= -> ->]; lia]|].
  rewrite IH. split; [intros ->; f_equal; lia|congruence].
Qed.

Section env.
Context (env : environment) (Henv : env_ok env).

Lemma calc_range e : no <= calc_value env e <= yes.
Proof.
  pose proof (tri_range _ Henv). unfold no, yes in *.
  induction e; cbn [calc_value]; rewrite ?EXPR_OR_max, ?EXPR_AND_min; unfold EXPR_NOT, yes, no; try lia; eauto.
  case_cmp; lia.
Qed.

Lemma const_parse s v : tristate_of s = Some v -> fst (expr_parse_string (curr_val env s) (sym_type env s)) = k_string.
Proof.
  intros Hs. destruct (const_tri _ Henv _ _ Hs) as (_ & -> & Hc). rewrite (const_type _ Henv _ Hc).
  destruct s; cbn in Hs; simplify_eq; vm_compute; reflexivity.
Qed.

Lemma const_string s v : tristate_of s = Some v -> sym_get_string_value env s = text_of v.
Proof.
  intros Hs. destruct (const_tri _ Henv _ _ Hs) as (_ & <- & Hc). unfold sym_get_string_value.
  by rewrite (const_type _ Henv _ Hc).
Qed.

Lemma logical_string s : logical env s -> sym_get_string_value env s = text_of (curr_tri env s).
Proof.
  intros Hl. pose proof (tri_range _ Henv s). unfold sym_get_string_value, text_of.
  destruct Hl as [Ht|Ht]; rewrite Ht; unfold no, mod_, yes in *.
  - pose proof (bool_tri _ Henv _ Ht). unfold mod_ in *.
    repeat case_cmp; try reflexivity; lia.
  - pose proof (mod_modules _ Henv _ Ht). unfold mod_, no in *. repeat case_cmp; try reflexivity; lia.
Qed.

Lemma text_of_inj v w : no <= v <= yes -> no <= w <= yes -> text_of v = text_of w -> v = w.
Proof. unfold text_of, txt_n, txt_m, txt_y, no, yes, mod_. intros. repeat case_cmp_in H1; try discriminate; lia. Qed.

Lemma tristate_range s v : tristate_of s = Some v -> no <= v <= yes.
Proof. unfold no, yes. destruct s; cbn; intros [= <-]; cbv; split; congruence. Qed.

(** A symbol of the configuration compared with a word. *)
Lemma compare_word s c :
  logical env s -> sym_type env c = S_UNKNOWN -> fst (expr_parse_string (curr_val env c) S_UNKNOWN) = k_string ->
  (compare_symbols env s c =? 0) = bool_decide (text_of (curr_tri env s) = curr_val env c).
Proof.
  intros Hl Hc Hw. unfold compare_symbols. rewrite (logical_string s Hl).
  replace (sym_get_string_value env c) with (curr_val env c) by (unfold sym_get_string_value; by rewrite Hc).
  rewrite Hc, decide_True by (left; destruct Hl as [-> | ->]; done).
  destruct (expr_parse_string (text_of (curr_tri env s)) _) as [k1 l1].
  destruct (expr_parse_string (curr_val env c) _) as [k2 l2]. cbn in Hw. subst k2.
  rewrite decide_True by auto. pose proof (c_strcmp_eq (text_of (curr_tri env s)) (curr_val env c)) as E.
  destruct (bool_decide_reflect (text_of (curr_tri env s) = curr_val env c)); [by rewrite (proj2 E)|].
  apply Z.eqb_neq. by rewrite E.
Qed.

Lemma const_word s v : tristate_of s = Some v -> fst (expr_parse_string (curr_val env s) S_UNKNOWN) = k_string.
Proof. intros Hs. destruct (const_tri _ Henv _ _ Hs) as (_ & _ & Hc). rewrite <- (const_type _ Henv _ Hc). by apply (const_parse s v). Qed.

Lemma compare_const s c v :
  logical env s -> tristate_of c = Some v -> (compare_symbols env s c =? 0) = (curr_tri env s =? v).
Proof.
  intros Hl Hc. destruct (const_tri _ Henv _ _ Hc) as (_ & Hv & Hk).
  rewrite (compare_word s c Hl (const_type _ Henv _ Hk) (const_word c v Hc)), Hv.
  destruct (bool_decide_reflect (text_of (curr_tri env s) = text_of v)) as [E|E].
  - apply text_of_inj in E; [lia|apply (tri_range _ Henv)|by apply (tristate_range c)].
  - destruct (curr_tri env s =? v) eqn:Hz; [|done]. destruct E. f_equal. lia.
Qed.

Lemma calc_equal s c v :
  logical env s -> tristate_of c = Some v ->
  calc_value env (EComp E_EQUAL s c) = (if curr_tri env s =? v then yes else no).
Proof. intros. cbn [calc_value relation]. by rewrite (compare_const s c v). Qed.

Lemma calc_unequal s c v :
  logical env s -> tristate_of c = Some v ->
  calc_value env (EComp E_UNEQUAL s c) = (if curr_tri env s =? v then no else yes).
Proof. intros. cbn [calc_value relation]. rewrite (compare_const s c v) by done. by destruct (_ =? _). Qed.

Lemma calc_const c v : tristate_of c = Some v -> calc_value env (ESymbol c) = v.
Proof. intros Hc. apply (const_tri _ Henv _ _ Hc). Qed.

Lemma tri_yes : curr_tri env symbol_yes = yes.
Proof. by apply (const_tri _ Henv symbol_yes yes). Qed.

Lemma tri_mod : curr_tri env symbol_mod = mod_.
Proof. by apply (const_tri _ Henv symbol_mod mod_). Qed.

Lemma tri_no : curr_tri env symbol_no = no.
Proof. by apply (const_tri _ Henv symbol_no no). Qed.

Lemma const_not_logical s v : tristate_of s = Some v -> ~ logical env s.
Proof.
  intros Hs Hl. destruct (const_tri _ Henv _ _ Hs) as (_ & _ & Hc).
  apply (const_type _ Henv) in Hc. destruct Hl; congruence.
Qed.
End env.

(** ** The normal form *)

Section normal.
Context (sym_type : symbol -> symbol_type).

Fixpoint normal (e : expr) : bool :=
  match e with
  | ESymbol _ => true
  | ENot (ESymbol (Sym _)) => true
  | ENot _ => false
  | EComp op s1 s2 => bool_decide (transform_comp sym_type op s1 s2 = e)
  | EAnd a b | EOr a b => normal a && normal b
  end.

(** The negation of an expression in normal form. *)
Fixpoint neg (e : expr) : expr :=
  match e with
  | ESymbol symbol_yes => ESymbol symbol_no
  | ESymbol symbol_mod => ESymbol symbol_mod
  | ESymbol symbol_no => ESymbol symbol_yes
  | ESymbol (Sym n) => ENot e
  | ENot a => a
  | EComp op s1 s2 => EComp (negated_op op) s1 s2
  | EAnd a b => EOr (neg a) (neg b)
  | EOr a b => EAnd (neg a) (neg b)
  end.

(** What [expr_transform] computes. *)
Fixpoint nnf (e : expr) : expr :=
  match e with
  | ESymbol _ => e
  | EComp op s1 s2 => transform_comp sym_type op s1 s2
  | EAnd a b => EAnd (nnf a) (nnf b)
  | EOr a b => EOr (nnf a) (nnf b)
  | ENot a => neg (nnf a)
  end.

Context (Hconst : forall s, tristate_of s <> None -> sym_type s <> S_BOOLEAN).

Lemma bool_symbol s : sym_type s = S_BOOLEAN -> exists n, s = Sym n.
Proof using Hconst. intros Hs. destruct s; try (by exfalso; eapply Hconst; [|exact Hs]). eauto. Qed.

Lemma transform_comp_normal op s1 s2 : normal (transform_comp sym_type op s1 s2) = true.
Proof using Hconst.
  assert (forall e, e = transform_comp sym_type op s1 s2 -> e = EComp op s1 s2 -> normal e = true) as Hsame.
  { intros e He ->. cbn [normal]. by apply bool_decide_eq_true. }
  destruct op; cbn [transform_comp]; try by apply Hsame.
  all: repeat (destruct (decide _) as [?|?]; [try reflexivity|try reflexivity]).
  all: try (apply Hsame; [cbn [transform_comp]; repeat (rewrite ?decide_False by tauto; rewrite ?decide_True by tauto)|]; reflexivity).
  all: destruct (bool_symbol s1) as [? ->]; [destruct (decide (sym_type s1 = S_BOOLEAN)); tauto|reflexivity].
Qed.

Lemma neg_normal e : normal e = true -> normal (neg e) = true.
Proof using Type.
  induction e as [s|e IH|op s1 s2|a IHa b IHb|a IHa b IHb]; cbn [normal neg].
  - by destruct s.
  - by destruct e as [[]| | | |].
  - intros H%bool_decide_eq_true. apply bool_decide_eq_true.
    destruct op; cbn [negated_op transform_comp] in *; try done.
    all: repeat (destruct (decide _) as [?|?]; try done).
  - intros [??]%andb_true_iff. apply andb_true_iff. auto.
  - intros [??]%andb_true_iff. apply andb_true_iff. auto.
Qed.

Lemma nnf_normal e : normal (nnf e) = true.
Proof using Hconst.
  induction e; cbn [nnf]; auto using neg_normal, transform_comp_normal; cbn [normal]; by apply andb_true_iff.
Qed.

Lemma nnf_id e : normal e = true -> nnf e = e.
Proof using Type.
  induction e as [s|e IH|op s1 s2|a IHa b IHb|a IHa b IHb]; cbn [normal nnf]; try done.
  - by destruct e as [[]| | | |].
  - by intros H%bool_decide_eq_true.
  - intros [??]%andb_true_iff. f_equal; auto.
  - intros [??]%andb_true_iff. f_equal; auto.
Qed.

Lemma neg_height e : normal e = true -> (height (neg e) <= S (height e))%nat.
Proof using Type.
  induction e as [s|e IH|op s1 s2|a IHa b IHb|a IHa b IHb]; cbn [normal neg height]; intros H.
  - destruct s; cbn; lia.
  - lia.
  - lia.
  - apply andb_true_iff in H as [Ha Hb]. specialize (IHa Ha). specialize (IHb Hb). lia.
  - apply andb_true_iff in H as [Ha Hb]. specialize (IHa Ha). specialize (IHb Hb). lia.
Qed.

Lemma nnf_height e : (height (nnf e) <= height e)%nat.
Proof using Hconst.
  induction e as [s|e IH|op s1 s2|a IHa b IHb|a IHa b IHb]; cbn [nnf height]; try lia.
  - pose proof (neg_height (nnf e) (nnf_normal e)). lia.
  - destruct op; cbn [transform_comp]; repeat (destruct (decide _)); cbn; lia.
Qed.

Lemma transform_id fuel e : normal e = true -> (height e <= fuel)%nat -> transform sym_type fuel e = Ok e.
Proof using Type.
  revert e. induction fuel as [|fuel IH]; intros e Hn Hf; [destruct e; cbn in Hf; lia|].
  destruct e as [s|e|op s1 s2|a b|a b]; cbn [normal transform height] in *; try done.
  - destruct e as [[]| | | |]; try done. rewrite IH by (cbn in *; auto; lia). reflexivity.
  - apply bool_decide_eq_true in Hn. by rewrite Hn.
  - apply andb_true_iff in Hn as [??]. rewrite !IH by (auto; lia). reflexivity.
  - apply andb_true_iff in Hn as [??]. rewrite !IH by (auto; lia). reflexivity.
Qed.

(** A negation over a normal form. *)
Lemma transform_neg e : forall fuel,
  normal e = true -> (2 * height e + 1 <= fuel)%nat -> transform sym_type fuel (ENot e) = Ok (neg e).
Proof using Type.
  induction e as [s|e IH|op s1 s2|a IHa b IHb|a IHa b IHb]; intros [|fuel] Hn Hf; try lia; cbn [transform].
  all: rewrite transform_id by (auto; cbn [height] in *; lia); rewrite bind_Ok; cbn [neg].
  - by destruct s.
  - destruct e as [[]| | | |]; try done. apply transform_id; [done|cbn in *; lia].
  - done.
  - cbn [height normal] in *. destruct fuel as [|fuel]; [lia|]. cbn [transform]. apply andb_true_iff in Hn as [??].
    rewrite IHa, bind_Ok, IHb, bind_Ok by (auto; lia). done.
  - cbn [height normal] in *. destruct fuel as [|fuel]; [lia|]. cbn [transform]. apply andb_true_iff in Hn as [??].
    rewrite IHa, bind_Ok, IHb, bind_Ok by (auto; lia). done.
Qed.

Lemma transform_nnf e : forall fuel, (2 * height e + 1 <= fuel)%nat -> transform sym_type fuel e = Ok (nnf e).
Proof using Hconst.
  induction e as [s|e IH|op s1 s2|a IHa b IHb|a IHa b IHb]; intros [|fuel] Hf; try lia; cbn [height nnf] in *.
  - done.
  - pose proof (nnf_height e). pose proof (nnf_normal e) as Hn.
    rewrite <- (transform_neg (nnf e) (S fuel)) by (auto; lia). cbn [transform].
    by rewrite IH, (transform_id fuel (nnf e)) by (auto; lia).
  - done.
  - cbn [transform]. rewrite IHa, bind_Ok, IHb, bind_Ok by lia. done.
  - cbn [transform]. rewrite IHa, bind_Ok, IHb, bind_Ok by lia. done.
Qed.
End normal.

(** ** Values *)

Section values.
Context (env : environment) (Henv : env_ok env).

Lemma const_not_bool s : tristate_of s <> None -> sym_type env s <> S_BOOLEAN.
Proof using Henv.
  destruct (tristate_of s) as [v|] eqn:Hs; [|done]. intros _ Hb.
  apply (const_not_logical env Henv s v Hs). by left.
Qed.

Lemma calc_neg e : normal (sym_type env) e = true -> calc_value env (neg e) = EXPR_NOT (calc_value env e).
Proof using Henv.
  unfold EXPR_NOT. induction e as [s|e IH|op s1 s2|a IHa b IHb|a IHa b IHb]; cbn [normal neg]; intros Hn.
  - destruct s; cbn [calc_value]; rewrite ?tri_yes, ?tri_mod, ?tri_no by done; reflexivity.
  - cbn [calc_value]. unfold EXPR_NOT. lia.
  - cbn [calc_value]. destruct op; cbn [negated_op relation]; unfold yes, no; repeat case_cmp; lia.
  - apply andb_true_iff in Hn as [Ha Hb]. specialize (IHa Ha). specialize (IHb Hb).
    cbn [calc_value]. rewrite EXPR_OR_max, EXPR_AND_min. lia.
  - apply andb_true_iff in Hn as [Ha Hb]. specialize (IHa Ha). specialize (IHb Hb).
    cbn [calc_value]. rewrite EXPR_OR_max, EXPR_AND_min. lia.
Qed.

(** A [bool] symbol compared with a constant is the symbol or its negation. *)
Lemma calc_transform_comp op s1 s2 :
  calc_value env (transform_comp (sym_type env) op s1 s2) = calc_value env (EComp op s1 s2).
Proof using Henv.
  destruct (decide (sym_type env s1 = S_BOOLEAN)) as [Hb|Hb];
    [|destruct op; cbn [transform_comp]; rewrite ?decide_True by done; reflexivity].
  assert (logical env s1) as Hl by by left.
  pose proof (bool_tri _ Henv _ Hb) as Hm. pose proof (tri_range _ Henv s1) as Hr.
  destruct op; cbn [transform_comp]; try reflexivity; rewrite decide_False by tauto; destruct s2 as [| | |n]; try reflexivity.
  all: first [erewrite calc_equal by (exact Hl || reflexivity || done) | erewrite calc_unequal by (exact Hl || reflexivity || done)].
  all: repeat (destruct (decide _) as [?|?]; [simplify_eq|try done]); cbn [calc_value].
  all: rewrite ?tri_yes, ?tri_mod, ?tri_no by done; unfold EXPR_NOT, no, mod_, yes in *; case_cmp; lia.
Qed.

Lemma calc_nnf e : calc_value env (nnf (sym_type env) e) = calc_value env e.
Proof using Henv.
  induction e as [s|e IH|op s1 s2|a IHa b IHb|a IHa b IHb]; cbn [nnf]; try done.
  - rewrite calc_neg by apply nnf_normal, const_not_bool. cbn [calc_value]. by rewrite IH.
  - apply calc_transform_comp.
  - cbn [calc_value]. by rewrite IHa, IHb.
  - cbn [calc_value]. by rewrite IHa, IHb.
Qed.

Lemma expr_transform_nnf e : expr_transform (sym_type env) e = Ok (nnf (sym_type env) <$> e).
Proof using Henv.
  destruct e as [e|]; [|done]. unfold expr_transform. rewrite transform_nnf; [done|apply const_not_bool|lia].
Qed.
End values.

(** C36. [expr_transform] returns, with fuel twice the height of the tree; the
    result is in normal form (negations on configuration symbols only, no
    [bool] symbol compared with a constant), transforming it again changes
    nothing, and it has the value of the expression. *)
Theorem expr_transform_spec env (e : option expr) :
  env_ok env ->
  exists e', expr_transform (sym_type env) e = Ok e' /\
    match e' with Some x => normal (sym_type env) x = true | None => e = None end /\
    expr_transform (sym_type env) e' = Ok e' /\
    expr_calc_value env e' = expr_calc_value env e.
Proof.
  intros Henv. exists (nnf (sym_type env) <$> e). rewrite !expr_transform_nnf by done.
  destruct e as [e|]; [|done]. cbn. pose proof (nnf_normal _ (const_not_bool env Henv) e). csplit; try done.
  - by rewrite nnf_id.
  - by apply calc_nnf.
Qed.

(** A configuration with a [tristate] symbol 0 that is [m], [bool] symbols 1
    ([y]) and 2 (modules, [y]), and undefined symbols. *)
Definition sample_env : environment := {|
  sym_type s := match s with Sym 0 => S_TRISTATE | Sym 1 | Sym 2 => S_BOOLEAN | _ => S_UNKNOWN end;
  curr_tri s := match s with symbol_yes | Sym 1 | Sym 2 => yes | symbol_mod | Sym 0 => mod_ | _ => no end;
  curr_val s := match s with symbol_yes => txt_y | symbol_mod => txt_m | symbol_no => txt_n | Sym _ => [65] end;
  sym_const s := match s with Sym _ => false | _ => true end;
  modules_sym := Sym 2
|}.

Lemma sample_env_ok : env_ok sample_env.
Proof.
  split; cbn.
  - intros [| | |[|[|[|n]]]]; cbv; split; congruence.
  - intros [| | |n] v; cbn; intros; simplify_eq; done.
  - by intros [| | |n].
  - by intros [| | |n] [| | |n'].
  - by intros [| | |[|[|[|n]]]].
  - by intros [| | |[|[|[|n]]]].
Qed.

Lemma expr_transform_spec_witness :
  let e := ENot (EAnd (EComp E_EQUAL (Sym 1) symbol_no) (ENot (EOr (ESymbol (Sym 0)) (ENot (ESymbol (Sym 1)))))) in
  env_ok sample_env /\
  exists e', expr_transform (sym_type sample_env) (Some e) = Ok e' /\
    match e' with Some x => normal (sym_type sample_env) x = true | None => Some e = None end /\
    expr_transform (sym_type sample_env) e' = Ok e' /\
    expr_calc_value sample_env e' = expr_calc_value sample_env (Some e).
Proof.
  intros e. split; [exact sample_env_ok|]. apply (expr_transform_spec sample_env (Some e)). exact sample_env_ok.
Defined.
