(* ===== verification/KconfigEq.v ===== *)
(** * scripts/kconfig/expr.c: equality of expressions

    [expr_eq] compares two junctions by eliminating what they have in common
    from copies of both. It returns for every pair of trees, with fuel for
    the sum of their sizes, and expressions it finds equal have the same
    value. *)

From S2P Require Import Prelude Kstrtox KconfigExpr KconfigValue KconfigTransform.

Local Open Scope Z_scope.

(** The operation on values of a junction. *)
Definition jop (type : junction) : Z -> Z -> Z := match type with E_OR => Z.max | E_AND => Z.min end.

Lemma operands_join type e a b : operands type e = Some (a, b) -> e = join type a b.
Proof. destruct type, e; cbn; intros; simplify_eq; reflexivity. Qed.

Lemma operands_of_join type a b : operands type (join type a b) = Some (a, b).
Proof. by destruct type. Qed.

Lemma junction_operands type e : junction_of e = Some type <-> operands type e <> None.
Proof. destruct type, e; cbn; naive_solver. Qed.

Lemma size_pos e : (1 <= expr_size e)%nat.
Proof. destruct e; cbn; lia. Qed.

Lemma join_size type a b : expr_size (join type a b) = S (expr_size a + expr_size b).
Proof. by destruct type. Qed.

Section value.
Context (env : environment) (Henv : env_ok env).
Abbreviation val := (calc_value env).

Lemma calc_join type a b : val (join type a b) = jop type (val a) (val b).
Proof using Type. destruct type; cbn; auto using EXPR_OR_max, EXPR_AND_min. Qed.

Lemma calc_neutral type : val (ESymbol (neutral type)) = match type with E_OR => no | E_AND => yes end.
Proof using Henv. destruct type; cbn; auto using tri_no, tri_yes. Qed.

Lemma jop_neutral type e : jop type (val (ESymbol (neutral type))) (val e) = val e.
Proof using Henv.
  rewrite calc_neutral. pose proof (calc_range env Henv e). destruct type; cbn [jop]; unfold no, yes in *; lia.
Qed.

(** ** expr_eliminate_yn *)

Lemma calc_yn e : val (expr_eliminate_yn e) = val e.
Proof using Henv.
  pose proof (calc_range env Henv) as Hr. pose proof (tri_yes env Henv). pose proof (tri_no env Henv). unfold yes, no in *.
  induction e as [s|e IH|op s1 s2|a IHa b IHb|a IHa b IHb]; cbn [expr_eliminate_yn]; try done.
  all: set (a' := expr_eliminate_yn a) in *; set (b' := expr_eliminate_yn b) in *; pose proof (Hr a); pose proof (Hr b).
  all: cbn [calc_value]; rewrite <- IHa, <- IHb in *; unfold yn_and, yn_or; rewrite ?EXPR_AND_min, ?EXPR_OR_max.
  all: repeat (destruct (decide _) as [E|?]; [rewrite E in *; cbn [calc_value] in *; try lia|]).
  all: cbn [calc_value]; rewrite ?EXPR_AND_min, ?EXPR_OR_max; lia.
Qed.

Lemma size_yn e : (expr_size (expr_eliminate_yn e) <= expr_size e)%nat.
Proof using Type.
  induction e as [s|e IH|op s1 s2|a IHa b IHb|a IHa b IHb]; cbn [expr_eliminate_yn expr_size]; try lia.
  all: unfold yn_and, yn_or; repeat (destruct (decide _) as [?|?]); cbn [expr_size]; lia.
Qed.

(** ** __expr_eliminate_eq *)

(** What a call returns: the trees keep their junctions and do not grow, and
    what was taken from both is the same. *)
Definition eliminated (type : junction) (e1 e2 : expr) (r : outcome (expr * expr * Z)) : Prop :=
  exists e1' e2' n, r = Ok (e1', e2', n) /\
    (operands type e1 <> None -> operands type e1' <> None) /\
    (operands type e2 <> None -> operands type e2' <> None) /\
    (expr_size e1' <= expr_size e1)%nat /\ (expr_size e2' <= expr_size e2)%nat /\
    exists m, val e1 = jop type m (val e1') /\ val e2 = jop type m (val e2').

(** An equality test that is right for trees of at most [N] nodes together. *)
Definition eq_sound (N : nat) (eq : expr -> expr -> outcome bool) : Prop :=
  forall a b, (expr_size a + expr_size b <= N)%nat -> exists r, eq a b = Ok r /\ (r = true -> val a = val b).

Lemma eliminated_same type e1 e2 n : eliminated type e1 e2 (Ok (e1, e2, n)).
Proof using Henv.
  exists e1, e2, n. csplit; auto. exists (val (ESymbol (neutral type))). by rewrite !jop_neutral.
Qed.

(** The two recursive calls of either kind, put together. *)
Lemma eliminated_left type a b e2 r1 r2 :
  eliminated type a e2 r1 ->
  (forall a' e2' n, r1 = Ok (a', e2', n) -> eliminated type b e2' (r2 e2' n)) ->
  eliminated type (join type a b) e2
    ('(a, e2, n) ← r1; '(b, e2, n) ← r2 e2 n; Ok (join type a b, e2, n)).
Proof using Type.
  intros (a' & e2' & n & -> & _ & Ho2 & Ha & He2 & m1 & Ea & E2) H2.
  destruct (H2 _ _ _ eq_refl) as (b' & e2'' & n' & Hr & _ & Ho2' & Hb & He2' & m2 & Eb & E2').
  rewrite bind_Ok. cbn beta iota. rewrite Hr, bind_Ok. cbn beta iota.
  exists (join type a' b'), e2'', n'. rewrite !join_size, !operands_of_join, !calc_join. csplit; auto; try lia.
  exists (jop type m1 m2). rewrite Ea, Eb, E2, E2'. destruct type; cbn [jop]; lia.
Qed.

Lemma eliminated_right type e1 a b r1 r2 :
  eliminated type e1 a r1 ->
  (forall e1' a' n, r1 = Ok (e1', a', n) -> eliminated type e1' b (r2 e1' n)) ->
  eliminated type e1 (join type a b)
    ('(e1, a, n) ← r1; '(e1, b, n) ← r2 e1 n; Ok (e1, join type a b, n)).
Proof using Type.
  intros (e1' & a' & n & -> & Ho1 & _ & He1 & Ha & m1 & E1 & Ea) H2.
  destruct (H2 _ _ _ eq_refl) as (e1'' & b' & n' & Hr & Ho1' & _ & He1' & Hb & m2 & E1' & Eb).
  rewrite bind_Ok. cbn beta iota. rewrite Hr, bind_Ok. cbn beta iota.
  exists e1'', (join type a' b'), n'. rewrite !join_size, !operands_of_join, !calc_join. csplit; auto; try lia.
  exists (jop type m1 m2). rewrite Ea, Eb, E1, E1'. destruct type; cbn [jop]; lia.
Qed.

Lemma eliminate_leaves eq type e1 e2 n :
  eq_sound (expr_size e1 + expr_size e2) eq -> operands type e1 = None -> operands type e2 = None ->
  eliminated type e1 e2
    (same ← eq e1 e2; if same : bool then Ok (ESymbol (neutral type), ESymbol (neutral type), n + 1) else Ok (e1, e2, n)).
Proof using Henv.
  intros Heq Ho1 Ho2. destruct (Heq e1 e2) as ([] & -> & He); [lia| |]; rewrite bind_Ok; [|apply eliminated_same].
  exists (ESymbol (neutral type)), (ESymbol (neutral type)), (n + 1).
  pose proof (size_pos e1). pose proof (size_pos e2). csplit; try done.
  exists (val e1). rewrite He by done. rewrite calc_neutral. pose proof (calc_range env Henv e2).
  destruct type; cbn [jop]; unfold no, yes in *; lia.
Qed.

Lemma eq_sound_le N M eq : eq_sound N eq -> (M <= N)%nat -> eq_sound M eq.
Proof using Type. intros H HM a b Hab. apply H. lia. Qed.

Lemma eliminate_spec eq type fuel : forall e1 e2 n,
  (expr_size e1 + expr_size e2 <= fuel)%nat -> eq_sound (expr_size e1 + expr_size e2) eq ->
  eliminated type e1 e2 (__expr_eliminate_eq eq fuel type e1 e2 n).
Proof using Henv.
  induction fuel as [|fuel IH]; intros e1 e2 n Hf Heq; [pose proof (size_pos e1); lia|]. cbn [__expr_eliminate_eq].
  destruct (operands type e1) as [[a b]|] eqn:Ho1.
  { apply operands_join in Ho1 as ->. rewrite join_size in *. pose proof (IH a e2 n ltac:(lia)) as Ha.
    specialize (Ha ltac:(apply (eq_sound_le _ _ _ Heq); lia)).
    apply (eliminated_left _ _ _ _ _ _ Ha). intros a' e2' n' Hr. destruct Ha as (? & ? & ? & E & _ & _ & _ & Hs & _).
    rewrite E in Hr. simplify_eq. apply IH; [lia|]. apply (eq_sound_le _ _ _ Heq). lia. }
  destruct (operands type e2) as [[a b]|] eqn:Ho2.
  { apply operands_join in Ho2 as ->. rewrite join_size in *. pose proof (IH e1 a n ltac:(lia)) as Ha.
    specialize (Ha ltac:(apply (eq_sound_le _ _ _ Heq); lia)).
    apply (eliminated_right _ _ _ _ _ _ Ha). intros e1' a' n' Hr. destruct Ha as (? & ? & ? & E & _ & _ & Hs & _).
    rewrite E in Hr. simplify_eq. apply IH; [lia|]. apply (eq_sound_le _ _ _ Heq). lia. }
  destruct (decide _); [apply eliminated_same|]. by apply eliminate_leaves.
Qed.

(** A call on a junction only compares smaller trees. *)
Lemma eliminate_junction eq type fuel e1 e2 n :
  operands type e1 <> None -> (expr_size e1 + expr_size e2 <= fuel)%nat ->
  eq_sound (expr_size e1 + expr_size e2 - 1) eq ->
  eliminated type e1 e2 (__expr_eliminate_eq eq fuel type e1 e2 n).
Proof using Henv.
  intros Ho Hf Heq. destruct fuel as [|fuel]; [pose proof (size_pos e1); lia|]. cbn [__expr_eliminate_eq].
  destruct (operands type e1) as [[a b]|] eqn:Ho1; [|done].
  apply operands_join in Ho1 as ->. rewrite join_size in *.
  pose proof (eliminate_spec eq type fuel a e2 n ltac:(lia)) as Ha.
  specialize (Ha ltac:(apply (eq_sound_le _ _ _ Heq); lia)).
  apply (eliminated_left _ _ _ _ _ _ Ha). intros a' e2' n' Hr. destruct Ha as (? & ? & ? & E & _ & _ & _ & Hs & _).
  rewrite E in Hr. simplify_eq. apply eliminate_spec; [lia|]. apply (eq_sound_le _ _ _ Heq). lia.
Qed.

(** ** expr_eq *)

Lemma expr_eq_junctions fuel type e1 e2 :
  operands type e1 <> None -> operands type e2 <> None -> eq_sound fuel (expr_eq fuel) ->
  (expr_size e1 + expr_size e2 <= S fuel)%nat ->
  exists e1' e2' n, eliminate_eq (expr_eq fuel) e1 e2 0 = Ok (e1', e2', n) /\
    (val e1' = val e2' -> val e1 = val e2).
Proof using Henv.
  intros Ho1 Ho2 Heq Hf. unfold eliminate_eq. rewrite (proj2 (junction_operands type e1)) by done.
  destruct (eliminate_junction (expr_eq fuel) type (expr_size e1 + expr_size e2) e1 e2 0) as
    (e1' & e2' & n & -> & Ho1' & Ho2' & _ & _ & m & E1 & E2); [done|lia|apply (eq_sound_le _ _ _ Heq); lia|].
  rewrite bind_Ok. cbn beta iota.
  rewrite decide_True by by rewrite !(proj2 (junction_operands type _)) by auto.
  rewrite bind_Ok. cbn beta iota. do 3 eexists. split; [reflexivity|]. rewrite !calc_yn. congruence.
Qed.

Lemma expr_eq_sound fuel : eq_sound fuel (expr_eq fuel).
Proof using Henv.
  induction fuel as [|fuel IH]; intros a b Hs; [pose proof (size_pos a); lia|]. cbn [expr_eq].
  destruct a as [s|a|op s1 s2|a1 a2|a1 a2], b as [s'|b|op' s1' s2'|b1 b2|b1 b2]; try (by exists false).
  - eexists. split; [reflexivity|]. intros ->%bool_decide_eq_true. done.
  - cbn [expr_size] in Hs. destruct (IH a b) as (r & -> & Hr); [lia|]. exists r. split; [done|].
    intros Ht. cbn [calc_value]. by rewrite Hr.
  - eexists. split; [reflexivity|]. intros (-> & -> & ->)%bool_decide_eq_true. done.
  - destruct (expr_eq_junctions fuel E_AND (EAnd a1 a2) (EAnd b1 b2)) as (e1' & e2' & n & -> & Hv); auto.
    rewrite bind_Ok. eexists. split; [reflexivity|]. destruct e1', e2'; try done.
    intros ->%bool_decide_eq_true. auto.
  - destruct (expr_eq_junctions fuel E_OR (EOr a1 a2) (EOr b1 b2)) as (e1' & e2' & n & -> & Hv); auto.
    rewrite bind_Ok. eexists. split; [reflexivity|]. destruct e1', e2'; try done.
    intros ->%bool_decide_eq_true. auto.
Qed.
(** ** expr_eliminate_eq *)

(** One of the two optional passes. *)
Lemma eliminate_pass N (type : option junction) e1 e2 n :
  (expr_size e1 + expr_size e2 <= N)%nat ->
  exists e1' e2' n',
    match type with
    | Some type => __expr_eliminate_eq (expr_eq N) (expr_size e1 + expr_size e2) type e1 e2 n
    | None => Ok (e1, e2, n)
    end = Ok (e1', e2', n') /\
    (expr_size e1' + expr_size e2' <= N)%nat /\
    exists type' m, val e1 = jop type' m (val e1') /\ val e2 = jop type' m (val e2').
Proof using Henv.
  intros HN. destruct type as [type|].
  - destruct (eliminate_spec (expr_eq N) type (expr_size e1 + expr_size e2) e1 e2 n) as
      (e1' & e2' & n' & Hr & _ & _ & H1 & H2 & m & Hm);
      [lia|apply (eq_sound_le _ _ _ (expr_eq_sound N)); lia|].
    exists e1', e2', n'. csplit; [done|lia|eauto].
  - destruct (eliminated_same E_OR e1 e2 n) as (e1' & e2' & n' & [= <- <- <-] & _ & _ & _ & _ & m & Hm).
    exists e1, e2, n. csplit; [done|lia|eauto].
Qed.

Lemma eliminate_eq_spec e1 e2 n :
  exists e1' e2' n', eliminate_eq (expr_eq (eq_fuel e1 e2)) e1 e2 n = Ok (e1', e2', n') /\
    (val e1' <= val e2' -> val e1 <= val e2) /\ (val e2' <= val e1' -> val e2 <= val e1).
Proof using Henv.
  unfold eliminate_eq, eq_fuel. set (N := (expr_size e1 + expr_size e2)%nat).
  destruct (eliminate_pass N (junction_of e1) e1 e2 n) as (a & b & n1 & Hr & Hs & t1 & m1 & E1 & E2); [lia|].
  subst N. rewrite Hr, bind_Ok. cbn beta iota.
  set (t := if decide (junction_of a = junction_of b) then None else junction_of b).
  destruct (eliminate_pass (expr_size e1 + expr_size e2) t a b n1) as
    (a' & b' & n2 & Hr' & _ & t2 & m2 & E1' & E2'); [lia|].
  replace (if decide (junction_of a = junction_of b) then _ else _) with (Ok (a', b', n2) : outcome (expr * expr * Z))
    by (rewrite <- Hr'; subst t; by destruct (decide _)).
  rewrite bind_Ok. cbn beta iota. do 3 eexists. split; [reflexivity|]. rewrite !calc_yn, E1, E2, E1', E2'.
  destruct t1, t2; cbn [jop]; lia.
Qed.
End value.

(** C37. [expr_eq] and [expr_eliminate_eq] return, with fuel for the sum of the
    sizes. Expressions that [expr_eq] finds equal have the same value. When
    [expr_eliminate_eq] leaves [y] of its second argument, the first implies
    the second, which is how the menu code decides that an entry depends on
    the one above it. *)
Theorem expr_eq_spec env (e1 e2 : option expr) (trans_count : Z) :
  env_ok env ->
  (exists r, expr_eq_ptr e1 e2 = Ok r /\ (r = true -> expr_calc_value env e1 = expr_calc_value env e2)) /\
  (exists e1' e2' n, expr_eliminate_eq e1 e2 trans_count = Ok (e1', e2', n) /\
    (expr_is_yes e2' = true -> expr_calc_value env e1 <= expr_calc_value env e2)).
Proof.
  intros Henv.
  assert (forall e, expr_is_yes e = true -> expr_calc_value env e = yes) as Hyes.
  { intros [[s| | | |]|]; cbn; try done. intros ->%bool_decide_eq_true. by apply tri_yes. }
  assert (forall e, no <= expr_calc_value env e <= yes) as Hr.
  { intros [e|]; [by apply calc_range|]. unfold no, yes. cbn. unfold yes. lia. }
  split.
  - destruct e1 as [a|], e2 as [b|]; cbn [expr_eq_ptr]; [by apply expr_eq_sound| | |];
      (eexists; split; [reflexivity|]; intros [H1 H2]%andb_true_iff; by rewrite !Hyes).
  - destruct e1 as [a|], e2 as [b|]; cbn [expr_eliminate_eq];
      try (do 3 eexists; split; [reflexivity|]; intros Hy%Hyes; first [rewrite Hy; apply Hr|reflexivity]).
    destruct (eliminate_eq_spec env Henv a b trans_count) as (a' & b' & n & -> & Hle & _). rewrite bind_Ok. cbn beta iota.
    do 3 eexists. split; [reflexivity|]. intros Hy%Hyes. apply Hle. cbn in Hy. rewrite Hy. by apply calc_range.
Qed.

Lemma expr_eq_spec_witness :
  let a := EAnd (ESymbol (Sym 0)) (EOr (ESymbol (Sym 1)) (ENot (ESymbol (Sym 0)))) in
  let b := EAnd (EOr (ENot (ESymbol (Sym 0))) (ESymbol (Sym 1))) (ESymbol (Sym 0)) in
  env_ok sample_env /\ expr_eq_ptr (Some a) (Some b) = Ok true /\
  (exists r, expr_eq_ptr (Some a) (Some b) = Ok r /\
    (r = true -> expr_calc_value sample_env (Some a) = expr_calc_value sample_env (Some b))) /\
  (exists e1' e2' n, expr_eliminate_eq (Some a) (Some b) 0 = Ok (e1', e2', n) /\
    (expr_is_yes e2' = true -> expr_calc_value sample_env (Some a) <= expr_calc_value sample_env (Some b))).
Proof.
  intros a b. split; [exact sample_env_ok|]. split; [vm_compute; reflexivity|].
  apply (expr_eq_spec sample_env (Some a) (Some b) 0). exact sample_env_ok.
Defined.
