(* ===== verification/KconfigDups.v ===== *)
(** * scripts/kconfig/expr.c: duplicate elimination

    [expr_eliminate_dups] joins pairs of operands of a junction until nothing
    changes. The theorems: joining two operands gives an expression with the
    value of the junction; a pass over all pairs keeps the value, does not
    make the tree larger and, when it joined something, leaves a constant that
    [expr_eliminate_yn] then removes, so that the loop ends; and the
    dependencies that the menu code builds from these parts have the value of
    the conjunction they stand for. *)

From S2P Require Import Prelude Kstrtox KconfigExpr KconfigValue KconfigTransform KconfigEq.

Local Open Scope Z_scope.

(** ** Properties of leaves *)

(** Every operand below the junctions. *)
Fixpoint leaves (Q : expr -> Prop) (e : expr) : Prop :=
  match e with
  | EAnd a b | EOr a b => leaves Q a /\ leaves Q b
  | _ => Q e
  end.

(** A constant that is not a number. *)
Definition word (env : environment) (c : symbol) : Prop :=
  fst (expr_parse_string (curr_val env c) S_UNKNOWN) = k_string.

(** [tristate] symbols are not tested against numbers: [A = 2] is true when
    [A] is [y], which [expr_join_and] does not expect. *)
Fixpoint plain (env : environment) (e : expr) : Prop :=
  match e with
  | ESymbol _ => True
  | EComp E_EQUAL s1 s2 | EComp E_UNEQUAL s1 s2 =>
      sym_type env s1 = S_TRISTATE -> sym_const env s2 = true -> word env s2
  | EComp _ _ _ => True
  | ENot a => plain env a
  | EAnd a b | EOr a b => plain env a /\ plain env b
  end.

(** A property of leaves that the joined expressions have. *)
Record leaf_closed (env : environment) (Q : expr -> Prop) : Prop := LeafClosed {
  closed_plain e : Q e -> plain env e;
  closed_symbol s : Q (ESymbol s);
  closed_comp op s c : (op = E_EQUAL \/ op = E_UNEQUAL) -> tristate_of c <> None -> Q (EComp op s c)
}.

(** ** Joining *)

Lemma compares_first op r e s : compares op r e = true -> first_symbol e = Some s -> e = EComp op s r.
Proof. destruct e as [|t|op' s1 s2| |]; try done. cbn. intros [-> ->]%bool_decide_eq_true. destruct op; naive_solver. Qed.

Lemma compares_second op r e s : compares op r e = true -> second_symbol e = Some s -> e = EComp op s r.
Proof. destruct e as [|t|op' s1 s2| |]; try done. cbn. intros [-> ->]%bool_decide_eq_true. destruct op; naive_solver. Qed.

Lemma right_first op r e s : right_of op e = Some r -> first_symbol e = Some s -> e = EComp op s r.
Proof. destruct e as [|t|op' s1 s2| |]; try done. cbn. destruct (decide _) as [-> |]; [|done]. destruct op; naive_solver. Qed.

Lemma right_second op r e s : right_of op e = Some r -> second_symbol e = Some s -> e = EComp op s r.
Proof. destruct e as [|t|op' s1 s2| |]; try done. cbn. destruct (decide _) as [-> |]; [|done]. destruct op; naive_solver. Qed.

Lemma is_symbol_first e s : is_symbol e = true -> first_symbol e = Some s -> e = ESymbol s.
Proof. destruct e; naive_solver. Qed.

Lemma is_symbol_second e s : is_symbol e = true -> second_symbol e = Some s -> e = ESymbol s.
Proof. destruct e; naive_solver. Qed.

Lemma is_not_symbol_first e s : is_not_symbol e = true -> first_symbol e = Some s -> e = ENot (ESymbol s).
Proof. destruct e as [|[]| | |]; naive_solver. Qed.

Lemma is_not_symbol_second e s : is_not_symbol e = true -> second_symbol e = Some s -> e = ENot (ESymbol s).
Proof. destruct e as [|[]| | |]; naive_solver. Qed.

(** Turns the tests of the joins into equations for the two operands. *)
Ltac operand_shapes :=
  repeat match goal with
  | H : either _ _ _ _ = true |- _ => unfold either in H
  | H : _ || _ = true |- _ => apply orb_true_iff in H as [H|H]
  | H : _ && _ = true |- _ => apply andb_true_iff in H as [? ?]
  | H : compares _ _ ?e = true, F : first_symbol ?e = _ |- _ => apply (compares_first _ _ _ _ H) in F; clear H
  | H : compares _ _ ?e = true, F : second_symbol ?e = _ |- _ => apply (compares_second _ _ _ _ H) in F; clear H
  | H : right_of _ ?e = _, F : first_symbol ?e = _ |- _ => apply (right_first _ _ _ _ H) in F; clear H
  | H : right_of _ ?e = _, F : second_symbol ?e = _ |- _ => apply (right_second _ _ _ _ H) in F; clear H
  | H : is_symbol ?e = true, F : first_symbol ?e = _ |- _ => apply (is_symbol_first _ _ H) in F; clear H
  | H : is_symbol ?e = true, F : second_symbol ?e = _ |- _ => apply (is_symbol_second _ _ H) in F; clear H
  | H : is_not_symbol ?e = true, F : first_symbol ?e = _ |- _ => apply (is_not_symbol_first _ _ H) in F; clear H
  | H : is_not_symbol ?e = true, F : second_symbol ?e = _ |- _ => apply (is_not_symbol_second _ _ H) in F; clear H
  end.

Section joins.
Context (env : environment) (Henv : env_ok env) (Q : expr -> Prop) (HQ : leaf_closed env Q).
Abbreviation val := (calc_value env).

(** What a successful join of [e1] and [e2] is. *)
Definition joined (type : junction) (e1 e2 x : expr) : Prop :=
  val x = jop type (val e1) (val e2) /\ (S (expr_size x) <= expr_size e1 + expr_size e2)%nat /\
  operands type x = None /\ leaves Q x.

(** Decides the value of a join from the value of the symbol. *)
Ltac join_values s :=
  split; [|split; [cbn; lia|split; [by destruct s|]]];
  [ repeat first [erewrite calc_equal by (eassumption || reflexivity || done)
                 |erewrite calc_unequal by (eassumption || reflexivity || done)];
    cbn [calc_value jop]; rewrite ?tri_yes, ?tri_mod, ?tri_no by done; unfold EXPR_NOT, no, mod_, yes in *; repeat case_cmp; lia
  | cbn [leaves]; first [by apply (closed_symbol env Q HQ) | by apply (closed_comp env Q HQ); auto | done] ].

Lemma join_or_symbol_joined s e1 e2 x :
  first_symbol e1 = Some s -> second_symbol e2 = Some s ->
  join_or_symbol (sym_type env) s e1 e2 = Some x -> joined E_OR e1 e2 x.
Proof using Henv HQ.
  intros F1 F2 H. unfold join_or_symbol in H. pose proof (tri_range _ Henv s).
  destruct (decide (sym_type env s = S_TRISTATE)) as [Ht|_].
  - assert (logical env s) by by right. repeat case_cmp_in H; simplify_eq; operand_shapes; subst e1 e2; join_values s.
  - destruct (decide (sym_type env s = S_BOOLEAN)) as [Ht|_]; [|done].
    pose proof (bool_tri _ Henv _ Ht). case_cmp_in H; simplify_eq; operand_shapes; subst e1 e2; join_values s.
Qed.

(** A [tristate] symbol tested against a word. *)
Lemma calc_word s b :
  sym_type env s = S_TRISTATE -> sym_const env b = true -> Q (EComp E_EQUAL s b) \/ Q (EComp E_UNEQUAL s b) ->
  (compare_symbols env s b =? 0) = bool_decide (text_of (curr_tri env s) = curr_val env b).
Proof using Henv HQ.
  intros Ht Hb Hq. apply compare_word; [done|by right|by apply (const_type _ Henv)|].
  destruct Hq as [Hq|Hq]; by apply (closed_plain env Q HQ) in Hq; apply Hq.
Qed.

Lemma join_consts_joined s b c x :
  sym_type env s = S_TRISTATE -> Q (EComp E_EQUAL s b) -> Q (EComp E_UNEQUAL s c) ->
  join_consts (sym_const env) s b c = Some x ->
  joined E_AND (EComp E_EQUAL s b) (EComp E_UNEQUAL s c) x.
Proof using Henv HQ.
  intros Ht Qb Qc H. unfold join_consts in H. case_cmp_in H; [|done]. simplify_eq.
  apply andb_true_iff in Heqb0 as [Hc Hb]. unfold joined. cbn [calc_value relation jop].
  rewrite (calc_word s b), (calc_word s c) by auto.
  destruct (decide (b <> c)) as [Hne|Heq].
  - cbn [calc_value relation]. rewrite (calc_word s b) by auto. csplit; [|cbn; lia|done|done].
    destruct (bool_decide_reflect (text_of (curr_tri env s) = curr_val env b)) as [E|E]; [|by destruct (negb _)].
    rewrite bool_decide_eq_false_2; [done|]. intros E'. apply Hne, (const_name _ Henv); congruence.
  - assert (b = c) as -> by (destruct (decide (b = c)); tauto). cbn [calc_value]. rewrite tri_no by done.
    csplit; [by destruct (bool_decide _)|cbn; lia|done|apply (closed_symbol env Q HQ)].
Qed.

Lemma joined_comm type e1 e2 x : joined type e1 e2 x -> joined type e2 e1 x.
Proof using Type. intros (Hv & Hs & H). split; [rewrite Hv; destruct type; cbn [jop]; lia|split; [lia|done]]. Qed.

Lemma join_and_tristate_joined s e1 e2 x :
  sym_type env s = S_TRISTATE -> leaves Q e1 -> leaves Q e2 ->
  first_symbol e1 = Some s -> second_symbol e2 = Some s ->
  join_and_tristate (sym_const env) s e1 e2 = Some x -> joined E_AND e1 e2 x.
Proof using Henv HQ.
  intros Ht Q1 Q2 F1 F2 H. unfold join_and_tristate in H. pose proof (tri_range _ Henv s).
  assert (logical env s) by by right.
  destruct (right_of E_EQUAL e1) as [b|] eqn:R1, (right_of E_UNEQUAL e2) as [c|] eqn:R2;
    [operand_shapes; subst e1 e2; by apply join_consts_joined| | |].
  all: destruct (right_of E_UNEQUAL e1) as [c'|] eqn:R3, (right_of E_EQUAL e2) as [b'|] eqn:R4;
    [operand_shapes; subst e1 e2; try discriminate; by apply joined_comm, join_consts_joined| | |].
  all: repeat case_cmp_in H; simplify_eq; operand_shapes; subst e1 e2; join_values s.
Qed.

Lemma join_and_symbol_joined s e1 e2 x :
  leaves Q e1 -> leaves Q e2 -> first_symbol e1 = Some s -> second_symbol e2 = Some s ->
  join_and_symbol (sym_type env) (sym_const env) s e1 e2 = Some x -> joined E_AND e1 e2 x.
Proof using Henv HQ.
  intros Q1 Q2 F1 F2 H. unfold join_and_symbol in H. pose proof (tri_range _ Henv s).
  destruct (decide _) as [|Hl]; [done|].
  assert (logical env s) by (unfold logical; destruct (sym_type env s); naive_solver).
  assert (sym_type env s = S_TRISTATE \/ curr_tri env s <> mod_) as Hm.
  { destruct H1 as [Hb|Ht]; [right; by apply (bool_tri _ Henv)|by left]. }
  case_cmp_in H; [simplify_eq; operand_shapes; subst e1 e2; join_values s|].
  case_cmp_in H; [simplify_eq; operand_shapes; subst e1 e2; join_values s|].
  case_cmp_in H; [simplify_eq; operand_shapes; subst e1 e2; join_values s|].
  destruct (decide _); [|done]. by apply (join_and_tristate_joined s).
Qed.

(** The two join functions return, and what they return is a join. *)
Lemma expr_join_spec type e1 e2 :
  leaves Q e1 -> leaves Q e2 -> operands type e1 = None ->
  exists r, match type with
            | E_OR => expr_join_or (sym_type env) e1 e2
            | E_AND => expr_join_and (sym_type env) (sym_const env) e1 e2
            end = Ok r /\ match r with Some x => joined type e1 e2 x | None => True end.
Proof using Henv HQ.
  intros Q1 Q2 Ho. unfold expr_join_or, expr_join_and.
  destruct (expr_eq_sound env Henv (eq_fuel e1 e2) e1 e2) as ([] & -> & He); [done| |]; rewrite bind_Ok.
  - exists (Some e1). split; [by destruct type|]. pose proof (size_pos e2). unfold joined. rewrite <- He by done.
    csplit; [destruct type; cbn [jop]; lia|lia|done|done].
  - destruct (first_symbol e1) as [s|] eqn:F1; [|exists None; by destruct type].
    destruct (second_symbol e2) as [s'|] eqn:F2; [|exists None; by destruct type].
    destruct (decide (s = s')) as [<- |]; [|exists None; by destruct type].
    destruct type; eexists; (split; [reflexivity|]).
    + destruct (join_or_symbol _ s e1 e2) eqn:H; [by eapply join_or_symbol_joined|done].
    + destruct (join_and_symbol _ _ s e1 e2) eqn:H; [by eapply join_and_symbol_joined|done].
Qed.
End joins.

(** ** Positions under the junctions of one type *)

Fixpoint spine (type : junction) (t : expr) (p : position) : option expr :=
  match p with
  | [] => Some t
  | d :: p => match operands type t with Some (a, b) => spine type (if d : bool then b else a) p | None => None end
  end.

Lemma get_join type a b d p : get (join type a b) (d :: p) = get (if d : bool then b else a) p.
Proof. by destruct type. Qed.

Lemma set_join type a b d p x :
  set (join type a b) (d :: p) x = if d : bool then join type a (set b p x) else join type (set a p x) b.
Proof. destruct type; by destruct d. Qed.

(** The tree above a position that is not empty is a junction. *)
Ltac into_join :=
  match goal with
  | H : match operands ?type ?t with _ => _ end = _ |- _ =>
      let Ho := fresh in
      destruct (operands type t) as [[a b]|] eqn:Ho; [|done]; apply operands_join in Ho as ->
  end.

Lemma spine_get type t p x : spine type t p = Some x -> get t p = Some x.
Proof.
  revert t. induction p as [|d p IH]; intros t H; cbn [spine] in H; [by simplify_eq|].
  into_join.
  rewrite get_join. auto.
Qed.

Lemma spine_snoc type t p x a b d :
  spine type t p = Some x -> operands type x = Some (a, b) -> spine type t (p ++ [d]) = Some (if d : bool then b else a).
Proof.
  revert t. induction p as [|d' p IH]; intros t H Ho; cbn [spine app] in *; [by simplify_eq; rewrite Ho|].
  destruct (operands type t) as [[a' b']|]; [|done]. auto.
Qed.

Lemma set_same type t p x : spine type t p = Some x -> set t p x = t.
Proof.
  revert t. induction p as [|d p IH]; intros t H; cbn [spine] in H; [by simplify_eq|].
  into_join.
  rewrite set_join. destruct d; by rewrite IH.
Qed.

Lemma set_set type t p x y z : spine type t p = Some x -> set (set t p y) p z = set t p z.
Proof.
  revert t. induction p as [|d p IH]; intros t H; cbn [spine] in H; [done|].
  into_join.
  rewrite !set_join. destruct d; rewrite set_join; f_equal; eauto.
Qed.

Lemma spine_set_other type t p q x y z :
  spine type t p = Some x -> spine type t q = Some y -> operands type x = None -> operands type y = None -> p <> q ->
  spine type (set t p z) q = Some y.
Proof.
  revert t q. induction p as [|d p IH]; intros t q Hp Hq Hx Hy Hne; cbn [spine] in Hp.
  { simplify_eq. destruct q as [|d q]; [done|]. cbn [spine] in Hq. by rewrite Hx in Hq. }
  destruct (operands type t) as [[a b]|] eqn:Ho; [|done]. destruct q as [|d' q]; cbn [spine] in Hq.
  { simplify_eq. }
  rewrite Ho in Hq. apply operands_join in Ho as ->. rewrite set_join.
  destruct d, d'; cbn [spine]; rewrite ?operands_of_join; try done; apply IH; congruence.
Qed.

Lemma spine_set_same type t p x y : spine type t p = Some x -> spine type (set t p y) p = Some y.
Proof.
  revert t. induction p as [|d p IH]; intros t H; cbn [spine] in H; [done|]. into_join.
  rewrite set_join. destruct d; cbn [spine]; rewrite operands_of_join; auto.
Qed.

Lemma spine_size type t p x : spine type t p = Some x -> (expr_size x + 2 * length p <= expr_size t)%nat.
Proof.
  revert t. induction p as [|d p IH]; intros t H; cbn [spine length] in *; [simplify_eq; lia|].
  into_join. rewrite join_size.
  specialize (IH _ H). pose proof (size_pos a). pose proof (size_pos b). destruct d; lia.
Qed.

Lemma set_size type t p x y :
  spine type t p = Some x -> (expr_size (set t p y) + expr_size x = expr_size t + expr_size y)%nat.
Proof.
  revert t. induction p as [|d p IH]; intros t H; cbn [spine] in *; [simplify_eq; cbn; lia|].
  into_join. rewrite set_join.
  specialize (IH _ H). destruct d; rewrite !join_size; lia.
Qed.

Lemma leaves_join Q type a b : leaves Q (join type a b) <-> leaves Q a /\ leaves Q b.
Proof. by destruct type. Qed.

Lemma leaves_spine Q type t p x : spine type t p = Some x -> leaves Q t -> leaves Q x.
Proof.
  revert t. induction p as [|d p IH]; intros t H HQ; cbn [spine] in *; [by simplify_eq|].
  into_join.
  apply leaves_join in HQ as [Ha Hb]. destruct d; eauto.
Qed.

Lemma leaves_set Q type t p x y : spine type t p = Some x -> leaves Q t -> leaves Q y -> leaves Q (set t p y).
Proof.
  revert t. induction p as [|d p IH]; intros t H HQ Hy; cbn [spine] in *; [done|].
  into_join. rewrite set_join.
  apply leaves_join in HQ as [Ha Hb]. destruct d; apply leaves_join; eauto.
Qed.

(** ** The shape under the junctions of one type *)

Inductive skeleton (type : junction) : expr -> expr -> Prop :=
| skeleton_leaf t t' : operands type t = None -> operands type t' = None -> skeleton type t t'
| skeleton_node a b a' b' :
    skeleton type a a' -> skeleton type b b' -> skeleton type (join type a b) (join type a' b').

Lemma skeleton_refl type t : skeleton type t t.
Proof.
  induction t as [s|t IH|op s1 s2|a IHa b IHb|a IHa b IHb].
  1-3: constructor; by destruct type.
  - destruct type; [by constructor|by apply (skeleton_node E_AND)].
  - destruct type; [by apply (skeleton_node E_OR)|by constructor].
Qed.

Lemma skeleton_trans type t1 t2 t3 : skeleton type t1 t2 -> skeleton type t2 t3 -> skeleton type t1 t3.
Proof.
  intros H. revert t3. induction H as [t t' Ht Ht'|a b a' b' _ IHa _ IHb]; intros t3 H3; inversion H3 as [x y Hx Hy|x1 x2 y1 y2 S1 S2 E]; subst.
  - by constructor.
  - by rewrite operands_of_join in Ht'.
  - by rewrite operands_of_join in Hx.
  - apply (f_equal (operands type)) in E. rewrite !operands_of_join in E. simplify_eq. apply skeleton_node; auto.
Qed.

Lemma skeleton_spine type t t' p : skeleton type t t' -> spine type t p <> None -> spine type t' p <> None.
Proof.
  intros H. revert p. induction H as [t t' Ht Ht'|a b a' b' _ IHa _ IHb]; intros [|d p]; cbn [spine]; try done.
  - by rewrite Ht.
  - rewrite !operands_of_join. destruct d; auto.
Qed.

Lemma skeleton_operands type t t' : skeleton type t t' -> operands type t <> None -> operands type t' <> None.
Proof. intros [x y Hx Hy|]; [done|]. by rewrite !operands_of_join. Qed.

Lemma skeleton_set type t p x y :
  spine type t p = Some x -> operands type x = None -> operands type y = None -> skeleton type t (set t p y).
Proof.
  revert t. induction p as [|d p IH]; intros t H Hx Hy; cbn [spine] in *; [simplify_eq; by constructor|].
  into_join. rewrite set_join.
  destruct d; apply skeleton_node; auto using skeleton_refl.
Qed.

(** ** Values with the operand at a position changed *)

Section holes.
Context (env : environment) (Henv : env_ok env).
Abbreviation val := (calc_value env).

Lemma calc_hole type t p x :
  spine type t p = Some x -> exists r, forall y, val (set t p y) = jop type (val y) r.
Proof using Henv.
  revert t. induction p as [|d p IH]; intros t H; cbn [spine] in H.
  - exists (val (ESymbol (neutral type))). intros y. cbn [set]. rewrite <- (jop_neutral env Henv type y) at 1.
    destruct type; cbn [jop]; lia.
  - into_join. destruct (IH _ H) as [r Hr].
    exists (jop type r (val (if d then a else b))). intros y. rewrite set_join.
    destruct d; rewrite calc_join, Hr; destruct type; cbn [jop]; lia.
Qed.

Lemma calc_two_holes type t p q x y :
  spine type t p = Some x -> spine type t q = Some y -> operands type x = None -> operands type y = None -> p <> q ->
  exists r, forall x' y', val (set (set t p x') q y') = jop type (jop type (val x') (val y')) r.
Proof using Henv.
  revert t q. induction p as [|d p IH]; intros t q Hp Hq Hx Hy Hne; cbn [spine] in Hp.
  { simplify_eq. destruct q as [|d q]; [done|]. cbn [spine] in Hq. by rewrite Hx in Hq. }
  destruct q as [|d' q]; cbn [spine] in Hq; [simplify_eq; by rewrite Hy in Hp|].
  destruct (operands type t) as [[a b]|] eqn:Ho; [|done]. apply operands_join in Ho as ->.
  destruct (decide (d = d')) as [<- |Hd].
  - destruct (IH _ q Hp Hq Hx Hy) as [r Hr]; [congruence|]. exists (jop type r (val (if d then a else b))). intros x' y'.
    rewrite set_join. destruct d; rewrite set_join, calc_join, Hr; destruct type; cbn [jop]; lia.
  - destruct (calc_hole _ _ _ _ Hp) as [r1 H1], (calc_hole _ _ _ _ Hq) as [r2 H2]. exists (jop type r1 r2). intros x' y'.
    rewrite set_join. destruct d, d'; try done; rewrite set_join, calc_join, H1, H2; destruct type; cbn [jop]; lia.
Qed.
End holes.

(** ** Constants left for expr_eliminate_yn *)

Fixpoint reducible (e : expr) : bool :=
  match e with
  | EAnd a b => bool_decide (a = ESymbol symbol_yes \/ b = ESymbol symbol_yes) || reducible a || reducible b
  | EOr a b => bool_decide (a = ESymbol symbol_no \/ b = ESymbol symbol_no) || reducible a || reducible b
  | _ => false
  end.

Lemma reducible_join type a b :
  reducible (join type a b) = true <->
  a = ESymbol (neutral type) \/ b = ESymbol (neutral type) \/ reducible a = true \/ reducible b = true.
Proof. destruct type; cbn; rewrite !orb_true_iff, bool_decide_eq_true; tauto. Qed.

Lemma reducible_shrinks e : reducible e = true -> (expr_size (expr_eliminate_yn e) < expr_size e)%nat.
Proof.
  induction e as [s|e IH|op s1 s2|a IHa b IHb|a IHa b IHb]; cbn [reducible expr_eliminate_yn expr_size]; try done.
  all: rewrite !orb_true_iff, bool_decide_eq_true; intros H; pose proof (size_yn a); pose proof (size_yn b);
    pose proof (size_pos a); pose proof (size_pos b).
  all: unfold yn_and, yn_or; repeat (destruct (decide _) as [?|?]); cbn [expr_size]; try lia.
  all: destruct H as [[[-> | ->]|Ha]|Hb]; try done; try specialize (IHa Ha); try specialize (IHb Hb); lia.
Qed.

Lemma reducible_spine type t p :
  spine type t p = Some (ESymbol (neutral type)) -> p <> [] -> reducible t = true.
Proof.
  revert t. induction p as [|d p IH]; intros t H Hne; [done|]. cbn [spine] in H. into_join. apply reducible_join.
  destruct (decide (p = [])) as [-> |Hp].
  - destruct d; cbn [spine] in H; simplify_eq; auto.
  - specialize (IH _ H Hp). destruct d; auto.
Qed.

Lemma reducible_at type t p x : spine type t p = Some x -> reducible x = true -> reducible t = true.
Proof.
  revert t. induction p as [|d p IH]; intros t H Hr; cbn [spine] in H; [by simplify_eq|]. into_join.
  apply reducible_join. specialize (IH _ H Hr). destruct d; auto.
Qed.

(** Changing an operand without losing a constant. *)
Lemma reducible_set type t p x y :
  spine type t p = Some x -> (reducible x = true -> reducible y = true) -> (is_symbol x = true -> y = x) ->
  reducible t = true -> reducible (set t p y) = true.
Proof.
  revert t. induction p as [|d p IH]; intros t H Hr Hs Ht; cbn [spine] in H; [simplify_eq; auto|]. into_join.
  rewrite set_join. specialize (IH _ H Hr Hs). apply reducible_join in Ht.
  assert (forall c, spine type c p = Some x -> c = ESymbol (neutral type) -> set c p y = c) as Hc.
  { intros c Hc ->. destruct p; cbn [spine set] in *; [simplify_eq; by rewrite Hs|by destruct type]. }
  destruct d; apply reducible_join; destruct Ht as [Ht|[Ht|[Ht|Ht]]]; auto; by rewrite (Hc _ H); auto.
Qed.

(** ** expr_eliminate_dups1 *)

Section dups.
Context (env : environment) (Henv : env_ok env) (Q : expr -> Prop) (HQ : leaf_closed env Q).
Abbreviation val := (calc_value env).

(** What a call on the tree [t] returns when it is done right. *)
Definition pass_ok (type : junction) (t : expr) (n : Z) (r : outcome (expr * Z)) : Prop :=
  exists t' n', r = Ok (t', n') /\ skeleton type t t' /\ (expr_size t' <= expr_size t)%nat /\
    val t' = val t /\ leaves Q t' /\ n <= n' /\ (n' = n -> t' = t) /\
    (n < n' \/ reducible t = true -> reducible t' = true).

Lemma pass_same type t n : leaves Q t -> pass_ok type t n (Ok (t, n)).
Proof using Type. intros Hq. exists t, n. csplit; auto using skeleton_refl; [lia|]. intros [?|?]; [lia|done]. Qed.

Lemma pass_seq type t n r k :
  pass_ok type t n r ->
  (forall t' n', skeleton type t t' -> (expr_size t' <= expr_size t)%nat -> leaves Q t' -> pass_ok type t' n' (k t' n')) ->
  pass_ok type t n ('(t, n) ← r; k t n).
Proof using Type.
  intros (t1 & n1 & -> & Hk1 & Hs1 & Hv1 & Hq1 & Hn1 & He1 & Hr1) Hk. rewrite bind_Ok. cbn beta iota.
  destruct (Hk t1 n1 Hk1 Hs1 Hq1) as (t2 & n2 & -> & Hk2 & Hs2 & Hv2 & Hq2 & Hn2 & He2 & Hr2).
  exists t2, n2. csplit; try done; [by eapply skeleton_trans|lia|congruence|lia|intros ?; rewrite He2, He1 by lia; done|].
  intros [Hn|Hr]; apply Hr2; [|by auto]. destruct (decide (n1 < n2)); [by left|right; apply Hr1; left; lia].
Qed.

(** The elimination inside the first operand. *)
Definition nested_ok (type : junction) (e : expr) (n : Z) (r : outcome (expr * Z)) : Prop :=
  exists e' n', r = Ok (e', n') /\ operands type e' = None /\ (expr_size e' <= expr_size e)%nat /\
    val e' = val e /\ leaves Q e' /\ n <= n' /\ (n' = n -> e' = e) /\ (is_symbol e = true -> e' = e) /\
    (n < n' \/ reducible e = true -> reducible e' = true).

Lemma pass_nested type type' e n r :
  operands type e = None -> junction_of e = Some type' -> pass_ok type' e n r -> nested_ok type e n r.
Proof using Type.
  intros Ho Hj (e' & n' & Hr & Hk & Hs & Hv & Hq & Hn & He & Hred). exists e', n'. csplit; try done.
  - assert (operands type' e' <> None) as Ho'
      by (eapply skeleton_operands; [exact Hk|by apply junction_operands]).
    destruct e', type, type'; try done; destruct e; done.
  - by destruct e.
Qed.

(** Two operands at different positions. *)
Lemma pass_leaves type t p1 p2 e1 e2 n nested :
  leaves Q t -> spine type t p1 = Some e1 -> spine type t p2 = Some e2 ->
  operands type e1 = None -> operands type e2 = None -> p1 <> p2 -> nested_ok type e1 n nested ->
  pass_ok type t n
    ('(e1, n) ← nested;
     let t := set t p1 e1 in
     tmp ← match type with
           | E_OR => expr_join_or (sym_type env) e1 e2
           | E_AND => expr_join_and (sym_type env) (sym_const env) e1 e2
           end;
     match tmp with
     | Some tmp => Ok (set (set t p1 (ESymbol (neutral type))) p2 tmp, n + 1)
     | None => Ok (t, n)
     end).
Proof using Henv HQ.
  intros Hq H1 H2 Ho1 Ho2 Hne (e1' & n1 & -> & Ho1' & Hs1 & Hv1 & Hq1 & Hn1 & He1 & Hy1 & Hr1). rewrite bind_Ok. cbn beta iota zeta.
  destruct (expr_join_spec env Henv Q HQ type e1' e2 Hq1 (leaves_spine Q _ _ _ _ H2 Hq) Ho1') as (tmp & -> & Hj).
  rewrite bind_Ok. destruct (calc_two_holes env Henv type t p1 p2 e1 e2 H1 H2 Ho1 Ho2 Hne) as [r Hr].
  destruct tmp as [x|].
  - destruct Hj as (Hv & Hs & Ho & Hqx). rewrite (set_set _ _ _ _ _ _ H1).
    set (t1 := set t p1 (ESymbol (neutral type))).
    assert (spine type t1 p2 = Some e2) as H2' by (eapply spine_set_other; eauto).
    assert (spine type t1 p1 = Some (ESymbol (neutral type))) as H1' by (eapply spine_set_same; eauto).
    assert (operands type (ESymbol (neutral type)) = None) as Hon by by destruct type.
    assert (leaves Q (ESymbol (neutral type))) as Hqn by apply (closed_symbol env Q HQ).
    assert (spine type (set t1 p2 x) p1 = Some (ESymbol (neutral type))) as H1'' by (eapply spine_set_other; eauto).
    exists (set t1 p2 x), (n1 + 1). csplit; [done| | | | |lia|lia|].
    + eapply skeleton_trans; eapply skeleton_set; eauto.
    + pose proof (set_size _ _ _ _ x H2'). pose proof (set_size _ _ _ _ (ESymbol (neutral type)) H1) as Hz. fold t1 in Hz.
      cbn [expr_size] in Hz. lia.
    + subst t1. rewrite Hr, jop_neutral, Hv, Hv1, <- Hr by done. by rewrite (set_same _ _ _ _ H1), (set_same _ _ _ _ H2).
    + eapply leaves_set; eauto. eapply leaves_set; eauto.
    + intros _. eapply reducible_spine; [exact H1''|]. intros ->. cbn in H1. simplify_eq.
      destruct p2; [done|]. cbn [spine] in H2. by rewrite Ho1 in H2.
  - exists (set t p1 e1'), n1. csplit; [done| | | | |lia|intros ->; rewrite He1 by done; by apply (set_same type)|].
    + eapply skeleton_set; eauto.
    + pose proof (set_size _ _ _ _ e1' H1). lia.
    + destruct (calc_hole env Henv type t p1 e1 H1) as [r' Hr']. rewrite Hr', Hv1, <- Hr'. by rewrite (set_same _ _ _ _ H1).
    + eapply leaves_set; eauto.
    + intros [Hn|Ht]; [|by apply (reducible_set type t p1 e1 e1'); auto].
      eapply reducible_at; [by eapply spine_set_same|auto].
Qed.

Lemma get_ok_spine type t p x : spine type t p = Some x -> get_ok t p = Ok x.
Proof using Type. intros H. unfold get_ok. by rewrite (spine_get _ _ _ _ H). Qed.

(** The fuel left after reaching two positions is enough for a smaller tree. *)
Lemma dups1_fuel_spine type t p1 p2 e1 e2 S0 fuel :
  spine type t p1 = Some e1 -> spine type t p2 = Some e2 -> operands type t <> None -> operands type e1 = None ->
  (expr_size t <= S0)%nat -> (S (S0 * S0) <= S fuel + length p1 + length p2)%nat ->
  (S (expr_size e1 * expr_size e1) <= fuel)%nat.
Proof using Type.
  intros H1 H2 Ht Ho Hs Hf. pose proof (spine_size _ _ _ _ H1). pose proof (spine_size _ _ _ _ H2).
  pose proof (size_pos e2). pose proof (size_pos e1).
  assert (1 <= length p1)%nat by (destruct p1; cbn in *; [simplify_eq|lia]).
  assert (expr_size e1 + 2 <= S0)%nat by lia. assert (length p1 + length p2 <= S0)%nat by lia. nia.
Qed.

Lemma dups1_spec fuel : forall type t p1 p2 n S0,
  spine type t p1 <> None -> spine type t p2 <> None -> operands type t <> None -> leaves Q t ->
  (expr_size t <= S0)%nat -> (S (S0 * S0) <= fuel + length p1 + length p2)%nat ->
  pass_ok type t n (expr_eliminate_dups1 (sym_type env) (sym_const env) fuel type t p1 p2 n).
Proof using Henv HQ.
  induction fuel as [|fuel IH]; intros type t p1 p2 n S0 H1 H2 Ht Hq Hs Hf;
    destruct (spine type t p1) as [e1|] eqn:E1, (spine type t p2) as [e2|] eqn:E2; try done.
  { pose proof (spine_size _ _ _ _ E1). pose proof (spine_size _ _ _ _ E2).
    pose proof (size_pos e1). pose proof (size_pos e2). nia. }
  cbn [expr_eliminate_dups1]. rewrite (get_ok_spine _ _ _ _ E1), bind_Ok. cbn beta.
  destruct (operands type e1) as [[a b]|] eqn:Ho1.
  { pose proof (spine_snoc _ _ _ _ _ _ false E1 Ho1) as Ea. pose proof (spine_snoc _ _ _ _ _ _ true E1 Ho1) as Eb.
    apply (pass_seq _ _ _ _ (fun t n => _)).
    - apply (IH _ _ _ _ _ S0); rewrite ?Ea, ?E2, ?length_app; cbn [length]; try done; lia.
    - intros t' n' Hk Hs' Hq'. apply (IH _ _ _ _ _ S0); rewrite ?length_app; cbn [length]; try lia; try done.
      + apply (skeleton_spine _ _ _ _ Hk). by rewrite Eb.
      + apply (skeleton_spine _ _ _ _ Hk). by rewrite E2.
      + by apply (skeleton_operands _ _ _ Hk). }
  rewrite (get_ok_spine _ _ _ _ E2), bind_Ok. cbn beta.
  destruct (operands type e2) as [[a b]|] eqn:Ho2.
  { pose proof (spine_snoc _ _ _ _ _ _ false E2 Ho2) as Ea. pose proof (spine_snoc _ _ _ _ _ _ true E2 Ho2) as Eb.
    apply (pass_seq _ _ _ _ (fun t n => _)).
    - apply (IH _ _ _ _ _ S0); rewrite ?Ea, ?E1, ?length_app; cbn [length]; try done; lia.
    - intros t' n' Hk Hs' Hq'. apply (IH _ _ _ _ _ S0); rewrite ?length_app; cbn [length]; try lia; try done.
      + apply (skeleton_spine _ _ _ _ Hk). by rewrite E1.
      + apply (skeleton_spine _ _ _ _ Hk). by rewrite Eb.
      + by apply (skeleton_operands _ _ _ Hk). }
  destruct (decide (p1 = p2)) as [|Hne]; [by apply pass_same|].
  apply (pass_leaves _ _ _ _ e1 e2); try done.
  destruct (junction_of e1) as [type'|] eqn:Hj.
  - apply (pass_nested _ type'); try done. apply (IH _ _ _ _ _ (expr_size e1)); try done.
    + by apply junction_operands.
    + by eapply leaves_spine.
    + pose proof (dups1_fuel_spine _ _ _ _ _ _ _ _ E1 E2 Ht Ho1 Hs Hf). cbn [length]. lia.
  - exists e1, n. csplit; try done; [by eapply leaves_spine|]. intros [?|Hr]; [lia|]. by destruct e1.
Qed.

(** ** expr_eliminate_dups *)

Lemma leaves_yn e : leaves Q e -> leaves Q (expr_eliminate_yn e).
Proof using HQ.
  pose proof (closed_symbol env Q HQ).
  induction e as [s|e IH|op s1 s2|a IHa b IHb|a IHa b IHb]; cbn [leaves expr_eliminate_yn]; try done.
  all: intros [Ha Hb]; unfold yn_and, yn_or; repeat (destruct (decide _) as [?|?]); cbn [leaves]; auto.
Qed.

(** One round of the loop. *)
Lemma dups_round e :
  leaves Q e ->
  exists e' n,
    match junction_of e with
    | Some type => expr_eliminate_dups1 (sym_type env) (sym_const env) (dups1_fuel e) type e [] [] 0
    | None => Ok (e, 0)
    end = Ok (e', n) /\ (expr_size e' <= expr_size e)%nat /\ val e' = val e /\ leaves Q e' /\
    (n = 0 -> e' = e) /\ (n <> 0 -> reducible e' = true).
Proof using Henv HQ.
  intros Hq. destruct (junction_of e) as [type|] eqn:Hj; [|by exists e, 0; csplit].
  destruct (dups1_spec (dups1_fuel e) type e [] [] 0 (expr_size e)) as (e' & n & Hr & _ & Hs & Hv & Hq' & Hn & He & Hred);
    try done; [by apply junction_operands|unfold dups1_fuel; cbn; lia|].
  exists e', n. csplit; try done. intros. apply Hred. left. lia.
Qed.

Lemma eliminate_dups_loop_spec fuel : forall e,
  leaves Q e -> (expr_size e < fuel)%nat ->
  exists e', eliminate_dups_loop (sym_type env) (sym_const env) fuel e = Ok e' /\
    (expr_size e' <= expr_size e)%nat /\ val e' = val e /\ leaves Q e' /\
    forall fuel', eliminate_dups_loop (sym_type env) (sym_const env) (S fuel') e' = Ok e'.
Proof using Henv HQ.
  induction fuel as [|fuel IH]; intros e Hq Hf; [lia|]. cbn [eliminate_dups_loop].
  destruct (dups_round e Hq) as (e' & n & Hr & Hs & Hv & Hq' & He & Hred). rewrite Hr, bind_Ok. cbn beta iota.
  destruct (n =? 0) eqn:Hn.
  - rewrite He in * by lia. exists e. csplit; try done. intros fuel'. by rewrite Hr, bind_Ok, Hn.
  - pose proof (reducible_shrinks e' ltac:(apply Hred; lia)).
    destruct (IH (expr_eliminate_yn e')) as (e'' & Hr' & Hs' & Hv' & Hq'' & Hi); [by apply leaves_yn|lia|].
    exists e''. csplit; try done; [lia|]. rewrite Hv', calc_yn by done. done.
Qed.
End dups.

(** ** Expressions *)

Lemma leaves_impl (P Q : expr -> Prop) e : (forall x, P x -> Q x) -> leaves P e -> leaves Q e.
Proof. intros HPQ. induction e; cbn [leaves]; naive_solver. Qed.

Lemma leaves_plain env e : leaves (plain env) e <-> plain env e.
Proof. induction e; cbn [leaves plain]; tauto. Qed.

Lemma plain_closed env : env_ok env -> leaf_closed env (plain env).
Proof.
  intros Henv. split; [done|done|]. intros op s c [-> | ->] Hc; cbn; intros _ _.
  all: destruct (tristate_of c) as [v|] eqn:Hv; [|done]; by apply (const_word env Henv c v).
Qed.

(** Negations over symbols only. *)
Fixpoint literal (e : expr) : Prop :=
  match e with
  | ENot (ESymbol _) => True
  | ENot _ => False
  | EAnd a b | EOr a b => literal a /\ literal b
  | _ => True
  end.

Definition tidy (env : environment) (e : option expr) : Prop :=
  match e with Some e => plain env e /\ literal e | None => True end.

Lemma leaves_tidy env e : leaves (fun e => plain env e /\ literal e) e <-> plain env e /\ literal e.
Proof. induction e; cbn [leaves plain literal]; tauto. Qed.

Lemma tidy_closed env : env_ok env -> leaf_closed env (fun e => plain env e /\ literal e).
Proof.
  intros Henv. destruct (plain_closed env Henv) as [_ Hs Hc].
  split; [tauto|done|]. intros op s c Hop Ht. split; [by apply Hc|done].
Qed.

Section expressions.
Context (env : environment) (Henv : env_ok env).

Lemma normal_literal e : normal (sym_type env) e = true -> literal e.
Proof using Type.
  induction e as [s|e IH|op s1 s2|a IHa b IHb|a IHa b IHb]; cbn [normal literal]; try done.
  - by destruct e as [[]| | | |].
  - intros [??]%andb_true_iff. auto.
  - intros [??]%andb_true_iff. auto.
Qed.

Lemma plain_neg e : plain env e -> plain env (neg e).
Proof using Type.
  induction e as [s|e IH|op s1 s2|a IHa b IHb|a IHa b IHb]; cbn [plain neg]; try tauto; [by destruct s|].
  by destruct op.
Qed.

Lemma plain_nnf e : plain env e -> plain env (nnf (sym_type env) e).
Proof using Type.
  induction e as [s|e IH|op s1 s2|a IHa b IHb|a IHa b IHb]; cbn [plain nnf]; try tauto.
  - intros. by apply plain_neg, IH.
  - destruct op; cbn [transform_comp]; repeat (destruct (decide _)); done.
Qed.

Lemma plain_rewrite_m m e : plain env e -> plain env (rewrite_m m e).
Proof using Type. induction e as [[]|e IH|op s1 s2|a IHa b IHb|a IHa b IHb]; cbn [plain rewrite_m]; tauto. Qed.

(** [expr_trans_bool] keeps whether the value is [n]. *)
Lemma calc_trans_bool e :
  literal e -> (calc_value env (trans_bool (sym_type env) e) = no <-> calc_value env e = no).
Proof using Henv.
  pose proof (calc_range env Henv) as Hr. unfold no, yes in Hr. unfold no.
  induction e as [s|e IH|op s1 s2|a IHa b IHb|a IHa b IHb]; cbn [literal trans_bool]; intros Hl.
  - done.
  - by destruct e.
  - destruct op; try done. destruct (decide _) as [[Ht ->]|]; [|done].
    rewrite (calc_unequal env Henv s1 symbol_no no) by (done || by right). cbn [calc_value].
    unfold no, yes. case_cmp; lia.
  - destruct Hl as [La Lb]. specialize (IHa La). specialize (IHb Lb). cbn [calc_value]. rewrite !EXPR_AND_min.
    pose proof (Hr a). pose proof (Hr b). pose proof (Hr (trans_bool (sym_type env) a)).
    pose proof (Hr (trans_bool (sym_type env) b)). lia.
  - destruct Hl as [La Lb]. specialize (IHa La). specialize (IHb Lb). cbn [calc_value]. rewrite !EXPR_OR_max.
    pose proof (Hr a). pose proof (Hr b). pose proof (Hr (trans_bool (sym_type env) a)).
    pose proof (Hr (trans_bool (sym_type env) b)). lia.
Qed.
End expressions.

Lemma expr_eliminate_dups_ok env Q e :
  env_ok env -> leaf_closed env Q -> leaves Q e ->
  exists e', expr_eliminate_dups (sym_type env) (sym_const env) (Some e) = Ok (Some e') /\
    (expr_size e' <= expr_size e)%nat /\ calc_value env e' = calc_value env e /\ leaves Q e' /\
    expr_eliminate_dups (sym_type env) (sym_const env) (Some e') = Ok (Some e').
Proof.
  intros Henv HQ Hq. unfold expr_eliminate_dups.
  destruct (eliminate_dups_loop_spec env Henv Q HQ (S (expr_size e)) e Hq) as (e' & Hr & Hs & Hv & Hq' & Hi); [lia|].
  exists e'. rewrite Hr, bind_Ok. csplit; try done. by rewrite Hi.
Qed.

(** C38. On an expression that is [plain], that is, in which no [tristate] symbol
    is tested with [=] or [!=] against a constant whose text is a number,
    [expr_eliminate_dups] returns: the passes over all pairs of operands end,
    with fuel for the square of the size, and so does the loop, since a pass
    that joined something is followed by a smaller tree. The result is no
    larger than the expression, has its value, and is left alone by another
    call. The values of the symbols are as [sym_calc_value] leaves them
    ([env_ok]): a [bool] symbol is not [m], none is [m] without modules, and
    each constant stands for its own word. *)
Theorem expr_eliminate_dups_spec env e :
  env_ok env -> plain env e ->
  exists e', expr_eliminate_dups (sym_type env) (sym_const env) (Some e) = Ok (Some e') /\
    (expr_size e' <= expr_size e)%nat /\ calc_value env e' = calc_value env e /\
    expr_eliminate_dups (sym_type env) (sym_const env) (Some e') = Ok (Some e').
Proof.
  intros Henv Hp. apply leaves_plain in Hp.
  destruct (expr_eliminate_dups_ok env (plain env) e Henv (plain_closed env Henv) Hp) as (e' & Hr & Hs & Hv & _ & Hi).
  eauto 6.
Qed.

Lemma expr_eliminate_dups_spec_witness :
  let A := Sym 0 in
  let B := ESymbol (Sym 1) in
  let e := EAnd (EAnd (ESymbol A) (EOr (EOr B (EComp E_EQUAL A symbol_yes)) (EComp E_EQUAL A symbol_mod)))
                (EComp E_UNEQUAL A symbol_no) in
  env_ok sample_env /\ plain sample_env e /\
  expr_eliminate_dups (sym_type sample_env) (sym_const sample_env) (Some e) =
    Ok (Some (EAnd (EOr B (EComp E_UNEQUAL A symbol_no)) (ESymbol A))) /\
  exists e', expr_eliminate_dups (sym_type sample_env) (sym_const sample_env) (Some e) = Ok (Some e') /\
    (expr_size e' <= expr_size e)%nat /\ calc_value sample_env e' = calc_value sample_env e /\
    expr_eliminate_dups (sym_type sample_env) (sym_const sample_env) (Some e') = Ok (Some e').
Proof.
  intros A B e. assert (plain sample_env e) as Hp by (subst e A B; cbn [plain]; csplit; auto; intros _ _; vm_compute; reflexivity).
  split; [exact sample_env_ok|]. split; [exact Hp|]. split; [vm_compute; reflexivity|].
  apply (expr_eliminate_dups_spec sample_env e sample_env_ok Hp).
Defined.

(** A [tristate] symbol 0 that is [y], and the constant 3, written [2]. *)
Definition number_env : environment := {|
  sym_type s := match s with Sym 0 => S_TRISTATE | Sym 2 => S_BOOLEAN | _ => S_UNKNOWN end;
  curr_tri s := match s with symbol_yes | Sym 0 | Sym 2 => yes | symbol_mod => mod_ | _ => no end;
  curr_val s := match s with symbol_yes => txt_y | symbol_mod => txt_m | symbol_no => txt_n | Sym 3 => [50] | Sym _ => [65] end;
  sym_const s := match s with Sym 3 => true | Sym _ => false | _ => true end;
  modules_sym := Sym 2
|}.

(** C40. Without the condition on numbers the value is not kept: [A = y] holds
    and [A != 2] does not when [A] is [y], since the texts are compared as
    numbers, but [expr_join_and] takes the two constants for different values
    and joins the conditions into [A = y]. *)
Theorem expr_eliminate_dups_number :
  let e := EAnd (EComp E_EQUAL (Sym 0) symbol_yes) (EComp E_UNEQUAL (Sym 0) (Sym 3)) in
  env_ok number_env /\ calc_value number_env e = no /\
  exists e', expr_eliminate_dups (sym_type number_env) (sym_const number_env) (Some e) = Ok (Some e') /\
    calc_value number_env e' = yes.
Proof.
  intros e. split; [|split; [vm_compute; reflexivity|exists (EComp E_EQUAL (Sym 0) symbol_yes); split; vm_compute; reflexivity]].
  split; cbn.
  - intros [| | |[|[|[|[|n]]]]]; cbv; split; congruence.
  - intros [| | |n] v; cbn; intros; simplify_eq; done.
  - by intros [| | |[|[|[|[|n]]]]].
  - by intros [| | |[|[|[|[|n]]]]] [| | |[|[|[|[|n']]]]].
  - by intros [| | |[|[|[|[|n]]]]].
  - by intros [| | |[|[|[|[|n]]]]].
Qed.
