(* ===== verification/KconfigMenu.v ===== *)
(** * scripts/kconfig/menu.c: the dependencies of a menu entry

    [menu_finalize] rewrites the condition of every entry and of its
    properties and joins it with the condition of the entry above. The
    theorem composes those of the rewriting functions. *)

From S2P Require Import Prelude Kstrtox KconfigExpr KconfigValue KconfigTransform KconfigEq KconfigDups.

Local Open Scope Z_scope.

(** In a condition, [m] stands for [m && MODULES]. *)
Definition m_env (env : environment) : environment := {|
  sym_type := sym_type env;
  curr_tri s := if decide (s = symbol_mod) then EXPR_AND mod_ (curr_tri env (modules_sym env)) else curr_tri env s;
  curr_val := curr_val env;
  sym_const := sym_const env;
  modules_sym := modules_sym env
|}.

Section menu.
Context (env : environment) (Henv : env_ok env).

Lemma m_env_string s : sym_get_string_value (m_env env) s = sym_get_string_value env s.
Proof using Henv.
  assert (curr_tri (m_env env) (modules_sym env) = curr_tri env (modules_sym env)) as Hm.
  { cbn. destruct (decide _) as [E|]; [|done]. rewrite E, tri_mod by done. reflexivity. }
  unfold sym_get_string_value. cbn [sym_type modules_sym curr_val m_env] in *. rewrite Hm.
  destruct (decide (s = symbol_mod)) as [-> |Hs].
  - destruct (const_tri _ Henv symbol_mod mod_ eq_refl) as (_ & _ & Hc). by rewrite (const_type _ Henv _ Hc).
  - replace (curr_tri (m_env env) s) with (curr_tri env s) by (cbn; by rewrite decide_False). done.
Qed.

Lemma calc_rewrite_m e : calc_value env (rewrite_m (modules_sym env) e) = calc_value (m_env env) e.
Proof using Henv.
  induction e as [[]|e IH|op s1 s2|a IHa b IHb|a IHa b IHb]; cbn [rewrite_m calc_value]; try congruence; try done.
  - rewrite tri_mod by done. reflexivity.
  - unfold compare_symbols. by rewrite !m_env_string.
Qed.

Lemma calc_alloc_and a b :
  expr_calc_value env (expr_alloc_and a b) = EXPR_AND (expr_calc_value env a) (expr_calc_value env b).
Proof using Henv.
  pose proof (calc_range env Henv) as Hr. unfold no, yes in *. rewrite EXPR_AND_min.
  destruct a as [a|], b as [b|]; cbn [expr_alloc_and expr_calc_value calc_value]; rewrite ?EXPR_AND_min; unfold yes;
    try pose proof (Hr a); try pose proof (Hr b); lia.
Qed.

Lemma tidy_alloc_and a b : tidy env a -> tidy env b -> tidy env (expr_alloc_and a b).
Proof using Type. destruct a, b; cbn; tauto. Qed.

Lemma dups_tidy e :
  tidy env e ->
  exists e', expr_eliminate_dups (sym_type env) (sym_const env) e = Ok e' /\ tidy env e' /\
    expr_calc_value env e' = expr_calc_value env e.
Proof using Henv.
  destruct e as [e|]; intros Ht; [|by exists None]. apply leaves_tidy in Ht.
  destruct (expr_eliminate_dups_ok env _ e Henv (tidy_closed env Henv) Ht) as (e' & Hr & _ & Hv & Hl & _).
  exists (Some e'). csplit; try done. by apply leaves_tidy.
Qed.

(** A condition after the first two steps. *)
Lemma transform_condition dep :
  match dep with Some e => plain env e | None => True end ->
  exists d, expr_transform (sym_type env) (rewrite_m (modules_sym env) <$> dep) = Ok d /\ tidy env d /\
    expr_calc_value env d = expr_calc_value (m_env env) dep.
Proof using Henv.
  intros Hp. rewrite expr_transform_nnf by done. eexists. split; [reflexivity|]. destruct dep as [e|]; [|done]. cbn. csplit.
  - by apply plain_nnf, plain_rewrite_m.
  - by eapply normal_literal, nnf_normal, const_not_bool.
  - by rewrite calc_nnf, calc_rewrite_m.
Qed.

Lemma entry_dep_ok parentdep dep :
  tidy env parentdep -> match dep with Some e => plain env e | None => True end ->
  exists d, entry_dep env parentdep dep = Ok d /\ tidy env d /\
    expr_calc_value env d = EXPR_AND (expr_calc_value env parentdep) (expr_calc_value (m_env env) dep).
Proof using Henv.
  intros Ht Hp. unfold entry_dep. destruct (transform_condition dep Hp) as (d & -> & Htd & Hv). rewrite bind_Ok.
  destruct (dups_tidy _ (tidy_alloc_and _ _ Ht Htd)) as (d' & Hr & Htd' & Hv').
  exists d'. csplit; [exact Hr|done|]. by rewrite Hv', calc_alloc_and, Hv.
Qed.
End menu.

(** C39. The conditions that [menu_finalize] computes, when the conditions of the
    entry and of its property are [plain] (no [tristate] symbol is tested with
    [=] or [!=] against a constant whose text is a number) and the condition
    above them is [tidy] (so is it, and it has negations over symbols only):
    that of the entry has the value of the condition above it and its own, with
    [m] for [m && MODULES]; it is again [tidy], as the entries below it expect.
    The condition of the property has the value of the entry's condition and
    its own for a [tristate] entry, and for another entry it is [n] in the same
    cases. The values of the symbols are as [sym_calc_value] leaves them
    ([env_ok]). *)
Theorem menu_dependencies_spec env parentdep menudep sym propdep :
  env_ok env -> tidy env parentdep ->
  match menudep with Some e => plain env e | None => True end ->
  match propdep with Some e => plain env e | None => True end ->
  exists basedep dep,
    entry_dep env parentdep menudep = Ok basedep /\ tidy env basedep /\
    expr_calc_value env basedep = EXPR_AND (expr_calc_value env parentdep) (expr_calc_value (m_env env) menudep) /\
    visible_dep env sym basedep propdep = Ok dep /\
    let both := EXPR_AND (expr_calc_value env basedep) (expr_calc_value (m_env env) propdep) in
    (match sym with Some s => sym_type env s = S_TRISTATE | None => True end -> expr_calc_value env dep = both) /\
    (expr_calc_value env dep = no <-> both = no).
Proof.
  intros Henv Ht Hm Hp. destruct (entry_dep_ok env Henv parentdep menudep Ht Hm) as (basedep & Hb & Htb & Hvb).
  destruct (entry_dep_ok env Henv basedep propdep Htb Hp) as (d & Hd & Htd & Hvd).
  unfold entry_dep in Hd. apply bind_Ok_inv in Hd as (p & Hp' & Hd). exists basedep.
  unfold visible_dep. rewrite Hp', bind_Ok, Hd, bind_Ok.
  destruct sym as [s|]; [|exists d; csplit; try done; by rewrite Hvd].
  destruct (decide (sym_type env s <> S_TRISTATE)) as [Hs|Hs].
  - exists (expr_trans_bool (sym_type env) d). csplit; try done. rewrite <- Hvd.
    destruct d as [d|]; [|done]. cbn. by apply calc_trans_bool; [|apply Htd].
  - exists d. csplit; try done. by rewrite Hvd.
Qed.

Lemma menu_dependencies_spec_witness :
  let parentdep := Some (EOr (ESymbol (Sym 0)) (ENot (ESymbol (Sym 2)))) in
  let menudep := Some (ENot (EAnd (ESymbol symbol_mod) (EComp E_EQUAL (Sym 0) symbol_no))) in
  let propdep := Some (EComp E_UNEQUAL (Sym 0) symbol_no) in
  env_ok sample_env /\ tidy sample_env parentdep /\
  exists basedep dep,
    entry_dep sample_env parentdep menudep = Ok basedep /\ tidy sample_env basedep /\
    expr_calc_value sample_env basedep =
      EXPR_AND (expr_calc_value sample_env parentdep) (expr_calc_value (m_env sample_env) menudep) /\
    visible_dep sample_env (Some (Sym 1)) basedep propdep = Ok dep /\
    let both := EXPR_AND (expr_calc_value sample_env basedep) (expr_calc_value (m_env sample_env) propdep) in
    (sym_type sample_env (Sym 1) = S_TRISTATE -> expr_calc_value sample_env dep = both) /\
    (expr_calc_value sample_env dep = no <-> both = no).
Proof.
  intros parentdep menudep propdep. assert (tidy sample_env parentdep) as Ht by (cbn; tauto).
  split; [exact sample_env_ok|]. split; [exact Ht|].
  apply (menu_dependencies_spec sample_env parentdep menudep (Some (Sym 1)) propdep sample_env_ok Ht).
  - subst menudep. cbn [plain]. split; [done|]. intros _ _. vm_compute. reflexivity.
  - subst propdep. cbn [plain]. intros _ _. vm_compute. reflexivity.
Defined.
