(* ===== verification/Vsprintf.v ===== *)
(** * lib/vsprintf.c: formatted output

    The destination buffer is in the byte memory of StringMem; [buf] and [end]
    are addresses, and a character is stored only below [end]. The format is
    the list of its characters before the terminating zero. An argument of
    [va_list] is an integer or a pointer with what it points to. The format
    and the strings are not in the buffer. *)

From Stdlib Require Import String Ascii.
From S2P Require Import Prelude Ctype Kstrtox StringMem Memmove LibString.

Local Open Scope Z_scope.

(** A string literal. *)
Fixpoint chars (s : string) : list Z :=
  match s with
  | EmptyString => []
  | String a s => Z.of_nat (nat_of_ascii a) :: chars s
  end.

Definition hex_asc_upper : list Z := Eval vm_compute in chars "0123456789ABCDEF".

(** ** Decimal digits *)

(** [buf] is the bytes produced so far, least significant digit first; storing
    a 16-bit entry of [decpair] adds two. *)
Definition decpair (i : Z) : Z := Z.lor (i mod 10) (Z.shiftl (i / 10) 8) + 0x3030.

(** The size of [tmp] in [number], which [buf] is the start of. *)
Definition TMP_SIZE : Z := 24.

Definition put_pair (buf : list Z) (i : Z) : outcome (list Z) :=
  if (i <? 100) && (Z.of_nat (length buf) + 2 <=? TMP_SIZE)
  then Ok (buf ++ [u8 (decpair i); u8 (Z.shiftr (decpair i) 8)]) else Bug.

(** Label [out_r]: the last pair, of which one or two digits count. *)
Definition put_last (buf : list Z) (r : Z) : outcome (list Z) :=
  b ← put_pair buf r; Ok (take (length buf + (if r <? 10 then 1 else 2)) b).

Definition put_dec_trunc8 (buf : list Z) (r : Z) : outcome (list Z) :=
  if r <? 100 then put_last buf r
  else
    let q := u32 (Z.shiftr (u64 (r * 0x28f5c29)) 32) in
    buf ← put_pair buf (u32 (r - 100 * q));
    if q <? 100 then put_last buf q
    else
      let r := u32 (Z.shiftr (u64 (q * 0x28f5c29)) 32) in
      buf ← put_pair buf (u32 (q - 100 * r));
      if r <? 100 then put_last buf r
      else
        let q := Z.shiftr (u32 (r * 0x147b)) 19 in
        buf ← put_pair buf (u32 (r - 100 * q));
        put_last buf q.

Definition put_dec_full4 (buf : list Z) (r : Z) : outcome (list Z) :=
  let q := Z.shiftr (u32 (r * 0x147b)) 19 in
  buf ← put_pair buf (u32 (r - 100 * q));
  put_pair buf q.

Definition put_dec_helper4 (buf : list Z) (x : Z) : outcome (list Z * Z) :=
  let q := u32 (Z.shiftr (u64 (x * 0x346DC5D7)) 43) in
  buf ← put_dec_full4 buf (u32 (x - q * 10000));
  Ok (buf, q).

(** [while (buf[-1] == '0') --buf]. *)
Fixpoint strip_zeros (fuel : nat) (buf : list Z) : outcome (list Z) :=
  match fuel with
  | O => NoFuel
  | S fuel =>
      match last buf with
      | None => Bug
      | Some c => if c =? 48 then strip_zeros fuel (take (length buf - 1) buf) else Ok buf
      end
  end.

Definition put_dec (buf : list Z) (n : Z) : outcome (list Z) :=
  if n <? 100 * 1000 * 1000 then put_dec_trunc8 buf (u32 n)
  else
    let d1 := Z.shiftr (u32 n) 16 in
    let h := u32 (Z.shiftr n 32) in
    let d2 := Z.land h 0xffff in
    let d3 := Z.shiftr h 16 in
    let q := u32 (656 * d3 + 7296 * d2 + 5536 * d1 + Z.land (u32 n) 0xffff) in
    '(buf, q) ← put_dec_helper4 buf q;
    let q := u32 (q + 7671 * d3 + 9496 * d2 + 6 * d1) in
    '(buf, q) ← put_dec_helper4 buf q;
    let q := u32 (q + 4749 * d3 + 42 * d2) in
    '(buf, q) ← put_dec_helper4 buf q;
    let q := u32 (q + 281 * d3) in
    if negb (q =? 0) then put_dec_trunc8 buf q else strip_zeros (S (length buf)) buf.

(** ** printf_spec *)

Definition SIGN : Z := 1.
Definition LEFT : Z := 2.
Definition PLUS : Z := 4.
Definition SPACE : Z := 8.
Definition ZEROPAD : Z := 16.
Definition SMALL : Z := 32.
Definition SPECIAL : Z := 64.

Definition flag (flags f : Z) : bool := negb (Z.land flags f =? 0).

Inductive format_type : Set :=
| FORMAT_TYPE_NONE | FORMAT_TYPE_WIDTH | FORMAT_TYPE_PRECISION | FORMAT_TYPE_CHAR | FORMAT_TYPE_STR
| FORMAT_TYPE_PTR | FORMAT_TYPE_PERCENT_CHAR | FORMAT_TYPE_INVALID | FORMAT_TYPE_LONG_LONG | FORMAT_TYPE_ULONG
| FORMAT_TYPE_LONG | FORMAT_TYPE_UBYTE | FORMAT_TYPE_BYTE | FORMAT_TYPE_USHORT | FORMAT_TYPE_SHORT
| FORMAT_TYPE_UINT | FORMAT_TYPE_INT | FORMAT_TYPE_SIZE_T | FORMAT_TYPE_PTRDIFF.

(** [field_width] has 24 bits, [precision] 16, [flags] and [base] 8. *)
Record printf_spec : Set := PrintfSpec {
  type : format_type;
  field_width : Z;
  flags : Z;
  base : Z;
  precision : Z
}.

Definition s24 (x : Z) : Z := (x + 2 ^ 23) mod 2 ^ 24 - 2 ^ 23.

Definition set_type (t : format_type) (s : printf_spec) : printf_spec :=
  PrintfSpec t (field_width s) (flags s) (base s) (precision s).
Definition set_width (w : Z) (s : printf_spec) : printf_spec :=
  PrintfSpec (type s) (s24 w) (flags s) (base s) (precision s).
Definition set_flags (f : Z) (s : printf_spec) : printf_spec :=
  PrintfSpec (type s) (field_width s) (u8 f) (base s) (precision s).
Definition set_base (b : Z) (s : printf_spec) : printf_spec :=
  PrintfSpec (type s) (field_width s) (flags s) (u8 b) (precision s).
Definition set_prec (p : Z) (s : printf_spec) : printf_spec :=
  PrintfSpec (type s) (field_width s) (flags s) (base s) (s16 p).

Definition FIELD_WIDTH_MAX : Z := 2 ^ 23 - 1.
Definition PRECISION_MAX : Z := 2 ^ 15 - 1.
Definition clamp (v lo hi : Z) : Z := Z.min (Z.max v lo) hi.

(** ** The buffer *)

Section output.
Context (end_ : Z).

(** [if (buf < end) *buf = c; ++buf]. *)
Definition put (m : mem) (buf c : Z) : outcome (mem * Z) :=
  m ← (if buf <? end_ then store m buf c else Ok m); Ok (m, u32 (buf + 1)).

(** [while (--n >= 0)] one character; what is left of [n]. *)
Fixpoint pad (fuel : nat) (c : Z) (m : mem) (buf n : Z) : outcome (mem * Z * Z) :=
  match fuel with
  | O => NoFuel
  | S fuel =>
      let n := n - 1 in
      if n >=? 0 then '(m, buf) ← put m buf c; pad fuel c m buf n
      else Ok (m, buf, n)
  end.

Definition pad_all (c : Z) (m : mem) (buf n : Z) : outcome (mem * Z * Z) := pad (S (Z.to_nat n)) c m buf n.

Fixpoint put_list (m : mem) (buf : Z) (l : list Z) : outcome (mem * Z) :=
  match l with
  | [] => Ok (m, buf)
  | c :: l => '(m, buf) ← put m buf c; put_list m buf l
  end.

(** ** number *)

(** [do ... while (num)] for a base that is a power of two. *)
Fixpoint put_bits (fuel : nat) (tmp : list Z) (num mask shift locase : Z) : outcome (list Z) :=
  match fuel with
  | O => NoFuel
  | S fuel =>
      _ ← BUG_ON (TMP_SIZE <=? Z.of_nat (length tmp));
      let tmp := tmp ++ [Z.lor (nth (Z.to_nat (Z.land (u8 num) mask)) hex_asc_upper 0) locase] in
      let num := Z.shiftr num shift in
      if num =? 0 then Ok tmp else put_bits fuel tmp num mask shift locase
  end.

(** The digits in [tmp], least significant first. *)
Definition number_digits (num base locase : Z) : outcome (list Z) :=
  if num <? base then Ok [Z.lor (nth (Z.to_nat num) hex_asc_upper 0) locase]
  else if negb (base =? 10) then
    put_bits 65 [] num (base - 1) (if base =? 16 then 4 else 3) locase
  else put_dec [] num.

(** The sign character (0 for none) and the number without its sign. *)
Definition number_sign (flags num : Z) : Z * Z :=
  if flag flags SIGN then
    if s64 num <? 0 then (45, u64 (- s64 num))
    else if flag flags PLUS then (43, num)
    else if flag flags SPACE then (32, num)
    else (0, num)
  else (0, num).

Definition number (m : mem) (buf num : Z) (spec : printf_spec) : outcome (mem * Z) :=
  let need_pfx := flag (flags spec) SPECIAL && negb (base spec =? 10) in
  let is_zero := num =? 0 in
  let locase := Z.land (flags spec) SMALL in
  let flags := if flag (flags spec) LEFT then Z.land (flags spec) (255 - ZEROPAD) else flags spec in
  let '(sign, num) := number_sign flags num in
  let width := if sign =? 0 then field_width spec else field_width spec - 1 in
  let width :=
    if need_pfx then
      if base spec =? 16 then width - 2 else if negb is_zero then width - 1 else width
    else width in
  tmp ← number_digits num (base spec) locase;
  let i := Z.of_nat (length tmp) in
  let precision := if i >? precision spec then i else precision spec in
  let width := width - precision in
  '(m, buf, width) ← (if negb (flag flags (Z.lor ZEROPAD LEFT)) then pad_all 32 m buf width else Ok (m, buf, width));
  '(m, buf) ← (if negb (sign =? 0) then put m buf sign else Ok (m, buf));
  '(m, buf) ← (if need_pfx then
                 '(m, buf) ← (if (base spec =? 16) || negb is_zero then put m buf 48 else Ok (m, buf));
                 if base spec =? 16 then put m buf (Z.lor 88 locase) else Ok (m, buf)
               else Ok (m, buf));
  '(m, buf, width) ← (if negb (flag flags LEFT) then pad_all (32 + Z.land flags ZEROPAD) m buf width
                      else Ok (m, buf, width));
  '(m, buf, _) ← pad_all 48 m buf (precision - i);
  '(m, buf) ← put_list m buf (rev tmp);
  '(m, buf, _) ← pad_all 32 m buf width;
  Ok (m, buf).

Definition special_hex_number (m : mem) (buf num size : Z) : outcome (mem * Z) :=
  number m buf num
    (PrintfSpec FORMAT_TYPE_PTR (s24 (2 + 2 * size)) (Z.lor SPECIAL (Z.lor SMALL ZEROPAD)) 16 (-1)).

(** ** Strings *)

Definition move_right (m : mem) (buf len spaces : Z) : outcome mem :=
  if buf >=? end_ then Ok m
  else
    let size := end_ - buf in
    if size <=? spaces then memset m buf 32 size
    else
      m ← (if negb (len =? 0) then
             let len := if len >? size - spaces then size - spaces else len in
             memmove m (buf + spaces) buf len
           else Ok m);
      memset m buf 32 spaces.

Definition widen_string (m : mem) (buf n : Z) (spec : printf_spec) : outcome (mem * Z) :=
  if n >=? field_width spec then Ok (m, buf)
  else
    let spaces := u32 (field_width spec - n) in
    if negb (flag (flags spec) LEFT) then
      m ← move_right m (u32 (buf - n)) n spaces;
      Ok (m, u32 (buf + spaces))
    else
      '(m, buf, _) ← pad_all 32 m buf spaces;
      Ok (m, buf).

(** The loop of [string_nocheck]; a negative limit is never reached. *)
Fixpoint string_loop (m : mem) (buf : Z) (s : list Z) (len lim : Z) : outcome (mem * Z * Z) :=
  if lim =? 0 then Ok (m, buf, len)
  else
    match s with
    | [] => Ok (m, buf, len)
    | c :: s => '(m, buf) ← put m buf c; string_loop m buf s (len + 1) (lim - 1)
    end.

Definition string_nocheck (m : mem) (buf : Z) (s : list Z) (spec : printf_spec) : outcome (mem * Z) :=
  '(m, buf, len) ← string_loop m buf s 0 (precision spec);
  widen_string m buf len spec.

Definition error_string (m : mem) (buf : Z) (s : string) (spec : printf_spec) : outcome (mem * Z) :=
  string_nocheck m buf (chars s) (if precision spec =? -1 then set_prec (2 * 4) spec else spec).

(** The error text of [check_pointer_msg], when the pointer is not usable. *)
Definition MAX_ERRNO : Z := 4095.
Definition IS_ERR_VALUE (x : Z) : bool := x >=? 2 ^ 32 - MAX_ERRNO.

Definition check_pointer_msg (ptr : Z) : option string :=
  if ptr =? 0 then Some "(null)"%string
  else if (ptr <? PAGE_SIZE) || IS_ERR_VALUE ptr then Some "(efault)"%string
  else None.

(** [check_pointer], with the rest of the caller after it. *)
Definition check_pointer (m : mem) (buf ptr : Z) (spec : printf_spec) (rest : outcome (mem * Z)) : outcome (mem * Z) :=
  match check_pointer_msg ptr with
  | Some err_msg => error_string m buf err_msg spec
  | None => rest
  end.

(** ** Pointers *)

Definition pointer_string (m : mem) (buf ptr : Z) (spec : printf_spec) : outcome (mem * Z) :=
  let spec := set_flags (Z.lor (flags spec) SMALL) (set_base 16 spec) in
  let spec := if field_width spec =? -1
              then set_flags (Z.lor (flags spec) ZEROPAD) (set_width (2 * 4) spec) else spec in
  number m buf ptr spec.

Definition err_ptr (m : mem) (buf ptr : Z) (spec : printf_spec) : outcome (mem * Z) :=
  number m buf (u64 (s32 ptr)) (set_base 10 (set_flags (Z.lor (flags spec) SIGN) spec)).

(** [ptr_to_hashval] hashes with a random key, which is not there early on. *)
Context (ptr_to_hashval : Z -> option Z) (no_hash_pointers debug_boot_weak_hash : bool).

Definition hash_32 (val bits : Z) : Z := Z.shiftr (u32 (val * 0x61C88647)) (32 - bits).

Definition ptr_to_id (m : mem) (buf ptr : Z) (spec : printf_spec) : outcome (mem * Z) :=
  if (ptr =? 0) || IS_ERR_VALUE ptr then pointer_string m buf ptr spec
  else if debug_boot_weak_hash then pointer_string m buf (hash_32 ptr 32) spec
  else
    match ptr_to_hashval ptr with
    | None => error_string m buf "(ptrval)" (set_width (2 * 4) spec)
    | Some hashval => pointer_string m buf (u32 hashval) spec
    end.

Definition default_pointer (m : mem) (buf ptr : Z) (spec : printf_spec) : outcome (mem * Z) :=
  if no_hash_pointers then pointer_string m buf ptr spec else ptr_to_id m buf ptr spec.

(** Arguments: what a pointer points to matters for [%s] and [%pV]. *)
Inductive arg : Type :=
| ArgInt (v : Z)
| ArgPtr (ptr : Z)
| ArgStr (ptr : Z) (s : list Z)
| ArgVa (ptr : Z) (fmt : list Z) (args : list arg).

Definition arg_ptr (a : arg) : Z := match a with ArgInt v => u32 v | ArgPtr p | ArgStr p _ | ArgVa p _ _ => p end.

(** [string]. *)
Definition string_ (m : mem) (buf : Z) (a : arg) (spec : printf_spec) : outcome (mem * Z) :=
  check_pointer m buf (arg_ptr a) spec
    match a with ArgStr _ s => string_nocheck m buf s spec | _ => Bug end.

(** [vsnprintf] as [va_format] calls it: memory, buffer, size, format and
    arguments to memory and length. *)
Context (vsnprintf : mem -> Z -> Z -> list Z -> list arg -> outcome (mem * Z)).

Definition va_format (m : mem) (buf : Z) (a : arg) (spec : printf_spec) : outcome (mem * Z) :=
  check_pointer m buf (arg_ptr a) spec
    match a with
    | ArgVa _ fmt args =>
        '(m, n) ← vsnprintf m buf (if end_ >? buf then end_ - buf else 0) fmt args;
        Ok (m, u32 (buf + n))
    | _ => Bug
    end.

(** The conversions after [%p] that are stubs, by the character of [pointer]:
    what they print. First those of names, *)
Definition name_stub (c : Z) : option string :=
  if c =? 100 then Some "(dentry)"%string
  else if c =? 68 then Some "(file)"%string
  else None.

(** from [resource_string] to [escaped_string], *)
Definition data_stub (c c1 : Z) : option string :=
  if (c =? 82) || (c =? 114) then Some "(rsrc)"%string
  else if c =? 104 then Some "(hex)"%string
  else if c =? 98 then if c1 =? 108 then Some "(blist)"%string else Some "(bitmap)"%string
  else if (c =? 77) || (c =? 109) then Some "(mac)"%string
  else if (c =? 73) || (c =? 105) then Some "(ip)"%string
  else if c =? 69 then Some "(esc)"%string
  else None.

(** and from [uuid_string] to [fwnode_string]. *)
Definition object_stub (c : Z) : option string :=
  if c =? 85 then Some "(uuid)"%string
  else if c =? 78 then Some "(netdev)"%string
  else if c =? 52 then Some "(fourcc)"%string
  else if c =? 97 then Some "(addr)"%string
  else if c =? 116 then Some "(time)"%string
  else if c =? 67 then Some "(clock)"%string
  else if c =? 71 then Some "(flags)"%string
  else if c =? 79 then Some "(devnode)"%string
  else if c =? 102 then Some "(fwnode)"%string
  else None.

Definition pointer_stub (c c1 : Z) : option string :=
  match data_stub c c1 with
  | Some s => Some s
  | None => match name_stub c with Some s => Some s | None => object_stub c end
  end.

Definition pointer (fmt : list Z) (m : mem) (buf : Z) (a : arg) (spec : printf_spec) : outcome (mem * Z) :=
  let c := ch fmt 0 in
  let ptr := arg_ptr a in
  match pointer_stub c (ch fmt 1) with
  | Some s => error_string m buf s spec
  | None =>
      if (c =? 83) || (c =? 115) || (c =? 66) then special_hex_number m buf ptr 4
      else if c =? 86 then va_format m buf a spec
      else if (c =? 75) || (c =? 120) then pointer_string m buf ptr spec
      else if c =? 101 then
        if negb (IS_ERR_VALUE ptr) then default_pointer m buf ptr spec else err_ptr m buf ptr spec
      else if (c =? 117) || (c =? 107) then
        if ch fmt 1 =? 115 then string_ m buf a spec
        else error_string m buf "(einval)" spec
      else default_pointer m buf ptr spec
  end.
End output.

(** ** format_decode *)

(** [skip_atoi]: the number and the rest of the format. *)
Fixpoint skip_atoi (i : Z) (s : list Z) : Z * list Z :=
  match s with
  | c :: s' => if isdigit c then skip_atoi (s32 (i * 10 + c - 48)) s' else (i, s)
  | [] => (i, [])
  end.

(** The text before the next [%]. *)
Fixpoint skip_text (fmt : list Z) : list Z :=
  match fmt with c :: fmt' => if c =? 37 then fmt else skip_text fmt' | [] => [] end.

Fixpoint decode_flags (fmt : list Z) (f : Z) : list Z * Z :=
  match fmt with
  | [] => ([], f)
  | c :: fmt' =>
      if c =? 45 then decode_flags fmt' (Z.lor f LEFT)
      else if c =? 43 then decode_flags fmt' (Z.lor f PLUS)
      else if c =? 32 then decode_flags fmt' (Z.lor f SPACE)
      else if c =? 35 then decode_flags fmt' (Z.lor f SPECIAL)
      else if c =? 48 then decode_flags fmt' (Z.lor f ZEROPAD)
      else (fmt, f)
  end.

(** The type of an integer conversion. *)
Definition integer_type (qualifier : Z) (signed : bool) : format_type :=
  if qualifier =? 76 then FORMAT_TYPE_LONG_LONG
  else if qualifier =? 108 then if signed then FORMAT_TYPE_LONG else FORMAT_TYPE_ULONG
  else if qualifier =? 122 then FORMAT_TYPE_SIZE_T
  else if qualifier =? 116 then FORMAT_TYPE_PTRDIFF
  else if qualifier =? 72 then if signed then FORMAT_TYPE_BYTE else FORMAT_TYPE_UBYTE
  else if qualifier =? 104 then if signed then FORMAT_TYPE_SHORT else FORMAT_TYPE_USHORT
  else if signed then FORMAT_TYPE_INT else FORMAT_TYPE_UINT.

(** The qualifier character, doubled ones as capitals. *)
Definition decode_qualifier (fmt : list Z) : Z * list Z :=
  let c := ch fmt 0 in
  if (c =? 104) || (tolower_ c =? 108) || (c =? 122) || (c =? 116) then
    let fmt := drop 1 fmt in
    if c =? ch fmt 0 then
      if c =? 108 then (76, drop 1 fmt) else if c =? 104 then (72, drop 1 fmt) else (c, fmt)
    else (c, fmt)
  else (0, fmt).

(** From label [qualifier] on: the rest of the format and the spec. *)
Definition decode_conversion (fmt : list Z) (spec : printf_spec) : list Z * printf_spec :=
  let '(qualifier, fmt) := decode_qualifier fmt in
  let spec := set_base 10 spec in
  let c := ch fmt 0 in
  let integer spec := (drop 1 fmt, set_type (integer_type qualifier (flag (flags spec) SIGN)) spec) in
  if c =? 99 then (drop 1 fmt, set_type FORMAT_TYPE_CHAR spec)
  else if c =? 115 then (drop 1 fmt, set_type FORMAT_TYPE_STR spec)
  else if c =? 112 then (drop 1 fmt, set_type FORMAT_TYPE_PTR spec)
  else if c =? 37 then (drop 1 fmt, set_type FORMAT_TYPE_PERCENT_CHAR spec)
  else if c =? 111 then integer (set_base 8 spec)
  else if c =? 120 then integer (set_base 16 (set_flags (Z.lor (flags spec) SMALL) spec))
  else if c =? 88 then integer (set_base 16 spec)
  else if (c =? 100) || (c =? 105) then integer (set_flags (Z.lor (flags spec) SIGN) spec)
  else if c =? 117 then integer spec
  else (fmt, set_type FORMAT_TYPE_INVALID spec).

(** From label [precision] on. *)
Definition decode_precision (fmt : list Z) (spec : printf_spec) : list Z * printf_spec :=
  let spec := set_prec (-1) spec in
  if ch fmt 0 =? 46 then
    let fmt := drop 1 fmt in
    if isdigit (ch fmt 0) then
      let '(p, fmt) := skip_atoi 0 fmt in
      let spec := set_prec p spec in
      decode_conversion fmt (if precision spec <? 0 then set_prec 0 spec else spec)
    else if ch fmt 0 =? 42 then (drop 1 fmt, set_type FORMAT_TYPE_PRECISION spec)
    else decode_conversion fmt spec
  else decode_conversion fmt spec.

Definition format_decode (fmt : list Z) (spec : printf_spec) : list Z * printf_spec :=
  match type spec with
  | FORMAT_TYPE_WIDTH =>
      let spec := if field_width spec <? 0
                  then set_flags (Z.lor (flags spec) LEFT) (set_width (- field_width spec) spec) else spec in
      decode_precision fmt (set_type FORMAT_TYPE_NONE spec)
  | FORMAT_TYPE_PRECISION =>
      let spec := if precision spec <? 0 then set_prec 0 spec else spec in
      decode_conversion fmt (set_type FORMAT_TYPE_NONE spec)
  | _ =>
      let spec := set_type FORMAT_TYPE_NONE spec in
      let rest := skip_text fmt in
      if negb (length rest =? length fmt)%nat || (ch rest 0 =? 0) then (rest, spec)
      else
        let '(fmt, f) := decode_flags (drop 1 rest) 0 in
        let spec := set_width (-1) (set_flags f spec) in
        if isdigit (ch fmt 0) then
          let '(w, fmt) := skip_atoi 0 fmt in decode_precision fmt (set_width w spec)
        else if ch fmt 0 =? 42 then (drop 1 fmt, set_type FORMAT_TYPE_WIDTH spec)
        else decode_precision fmt spec
  end.

Definition set_field_width (spec : printf_spec) (width : Z) : printf_spec :=
  let spec := set_width width spec in
  if negb (field_width spec =? width) then set_width (clamp width (- FIELD_WIDTH_MAX) FIELD_WIDTH_MAX) spec else spec.

Definition set_precision (spec : printf_spec) (prec : Z) : printf_spec :=
  let spec := set_prec prec spec in
  if negb (precision spec =? prec) then set_prec (clamp prec 0 PRECISION_MAX) spec else spec.

(** ** vsnprintf *)

Definition va_arg (args : list arg) : outcome (arg * list arg) :=
  match args with a :: args => Ok (a, args) | [] => Bug end.

Definition va_int (args : list arg) : outcome (Z * list arg) :=
  match args with ArgInt v :: args => Ok (v, args) | _ => Bug end.

Definition s8 (x : Z) : Z := (x + 2 ^ 7) mod 2 ^ 8 - 2 ^ 7.

(** The argument converted to [unsigned long long]. *)
Definition integer_arg (spec : printf_spec) (v : Z) : Z :=
  match type spec with
  | FORMAT_TYPE_LONG_LONG => u64 v
  | FORMAT_TYPE_ULONG => u32 v
  | FORMAT_TYPE_LONG => u64 (s32 v)
  | FORMAT_TYPE_SIZE_T => if flag (flags spec) SIGN then u64 (s32 v) else u32 v
  | FORMAT_TYPE_PTRDIFF => u64 (s32 v)
  | FORMAT_TYPE_UBYTE => u8 v
  | FORMAT_TYPE_BYTE => u64 (s8 v)
  | FORMAT_TYPE_USHORT => u16 v
  | FORMAT_TYPE_SHORT => u64 (s16 v)
  | FORMAT_TYPE_INT => u64 (s32 v)
  | _ => u32 v
  end.

(** [while (isalnum( *fmt)) fmt++]. *)
Fixpoint skip_alnum (fmt : list Z) : list Z :=
  match fmt with c :: fmt' => if isalnum c then skip_alnum fmt' else fmt | [] => [] end.

(** [memcpy] of characters of the format. *)
Fixpoint copy_in (m : mem) (a : Z) (l : list Z) : outcome mem :=
  match l with [] => Ok m | c :: l => m ← store m a c; copy_in m (a + 1) l end.

(** The literal text of a format. *)
Definition put_literal (end_ : Z) (m : mem) (str : Z) (l : list Z) : outcome (mem * Z) :=
  let read := Z.of_nat (length l) in
  m ← (if str <? end_ then
         copy_in m str (take (Z.to_nat (if read >? end_ - str then end_ - str else read)) l)
       else Ok m);
  Ok (m, u32 (str + read)).

(** [FORMAT_TYPE_CHAR]; [while (--spec.field_width > 0)] is [pad] of one less. *)
Definition put_char (end_ : Z) (m : mem) (str v : Z) (spec : printf_spec) : outcome (mem * Z) :=
  '(m, str, w) ← (if negb (flag (flags spec) LEFT) then pad_all end_ 32 m str (field_width spec - 1)
                  else Ok (m, str, field_width spec - 1));
  '(m, str) ← put end_ m str (u8 v);
  '(m, str, _) ← pad_all end_ 32 m str w;
  Ok (m, str).

(** Around the loop: the end of the buffer, and the terminating zero. *)
Definition vsnprintf_around (loop : Z -> mem -> Z -> list Z -> list arg -> printf_spec -> outcome (mem * Z))
    (m : mem) (buf size : Z) (fmt : list Z) (args : list arg) : outcome (mem * Z) :=
  if size >? INT_MAX then Ok (m, 0)
  else
    let end_ := u32 (buf + size) in
    let '(end_, size) := if end_ <? buf then (2 ^ 32 - 1, 2 ^ 32 - 1 - buf) else (end_, size) in
    '(m, str) ← loop end_ m buf fmt args (PrintfSpec FORMAT_TYPE_NONE 0 0 0 0);
    m ← (if size >? 0 then store m (if str <? end_ then str else end_ - 1) 0 else Ok m);
    Ok (m, s32 (str - buf)).

Section vsnprintf.
Context (ptr_to_hashval : Z -> option Z) (no_hash_pointers debug_boot_weak_hash : bool).

Fixpoint vsnprintf_loop (fuel : nat) (end_ : Z) (m : mem) (str : Z) (fmt : list Z) (args : list arg)
    (spec : printf_spec) : outcome (mem * Z) :=
  match fuel with
  | O => NoFuel
  | S fuel =>
      match fmt with
      | [] => Ok (m, str)
      | _ =>
          let '(rest, spec) := format_decode fmt spec in
          match type spec with
          | FORMAT_TYPE_NONE =>
              '(m, str) ← put_literal end_ m str (take (length fmt - length rest) fmt);
              vsnprintf_loop fuel end_ m str rest args spec
          | FORMAT_TYPE_WIDTH =>
              '(v, args) ← va_int args;
              vsnprintf_loop fuel end_ m str rest args (set_field_width spec (s32 v))
          | FORMAT_TYPE_PRECISION =>
              '(v, args) ← va_int args;
              vsnprintf_loop fuel end_ m str rest args (set_precision spec (s32 v))
          | FORMAT_TYPE_CHAR =>
              '(v, args) ← va_int args;
              '(m, str) ← put_char end_ m str v spec;
              vsnprintf_loop fuel end_ m str rest args spec
          | FORMAT_TYPE_STR =>
              '(a, args) ← va_arg args;
              '(m, str) ← string_ end_ m str a spec;
              vsnprintf_loop fuel end_ m str rest args spec
          | FORMAT_TYPE_PTR =>
              '(a, args) ← va_arg args;
              '(m, str) ← pointer end_ ptr_to_hashval no_hash_pointers debug_boot_weak_hash
                            (vsnprintf_around (vsnprintf_loop fuel)) rest m str a spec;
              vsnprintf_loop fuel end_ m str (skip_alnum rest) args spec
          | FORMAT_TYPE_PERCENT_CHAR =>
              '(m, str) ← put end_ m str 37;
              vsnprintf_loop fuel end_ m str rest args spec
          | FORMAT_TYPE_INVALID => Ok (m, str)
          | _ =>
              '(v, args) ← va_int args;
              '(m, str) ← number end_ m str (integer_arg spec v) spec;
              vsnprintf_loop fuel end_ m str rest args spec
          end
      end
  end.

(** Enough turns for a format and the formats among its arguments. *)
Fixpoint arg_size (a : arg) : nat :=
  match a with
  | ArgVa _ fmt args => S (length fmt + list_sum (map arg_size args))
  | _ => 0
  end.

Definition format_fuel (fmt : list Z) (args : list arg) : nat := S (length fmt + list_sum (map arg_size args)).

(** The memory and the length of the text. *)
Definition vsnprintf (m : mem) (buf size : Z) (fmt : list Z) (args : list arg) : outcome (mem * Z) :=
  vsnprintf_around (vsnprintf_loop (format_fuel fmt args)) m buf size fmt args.

Definition vscnprintf (m : mem) (buf size : Z) (fmt : list Z) (args : list arg) : outcome (mem * Z) :=
  if size =? 0 then Ok (m, 0)
  else
    '(m, i) ← vsnprintf m buf size fmt args;
    Ok (m, if u32 i <? size then i else size - 1).

Definition vsprintf (m : mem) (buf : Z) (fmt : list Z) (args : list arg) : outcome (mem * Z) :=
  vsnprintf m buf INT_MAX fmt args.
End vsnprintf.
