(* ===== verification/VsprintfNumber.v ===== *)
(** * lib/vsprintf.c: the digits of numbers

    [put_dec] converts with multiplications and a table of pairs of digits,
    and [number] with shifts for the other bases. Both give the digits of
    positional notation. *)

From S2P Require Import Prelude Ctype Kstrtox StringMem Memmove LibString Vsprintf.

Local Open Scope Z_scope.

(** ** Division by multiplication *)

(** [M] is a little more than [2 ^ k / d]. *)
Lemma mul_shift_div x M k d e :
  0 < d -> 0 <= k -> 0 <= x -> M * d = 2 ^ k + e -> 0 <= e -> x * e < 2 ^ k -> Z.shiftr (x * M) k = x / d.
Proof.
  intros Hd Hk Hx HM He Hxe. rewrite Z.shiftr_div_pow2 by done.
  assert (0 < 2 ^ k) by (apply Z.pow_pos_nonneg; lia).
  pose proof (Z.div_mod x d ltac:(lia)) as Hdiv. pose proof (Z.mod_pos_bound x d Hd) as Hmod.
  set (q := x / d) in *. set (r := x mod d) in *. symmetry.
  apply (Z.div_unique_pos _ _ _ (q * e + r * M)); [|nia].
  split; [assert (0 <= q) by (apply Z.div_pos; lia); nia|].
  apply (Z.mul_lt_mono_pos_l d); [done|]. nia.
Qed.

Lemma div100 x : 0 <= x < 10 ^ 8 -> u32 (Z.shiftr (u64 (x * 0x28f5c29)) 32) = x / 100.
Proof.
  intros Hx. rewrite u64_small by lia. rewrite (mul_shift_div x _ 32 100 4) by lia.
  apply u32_small. pose proof (Z.div_pos x 100). pose proof (Z.div_le_upper_bound x 100 x). lia.
Qed.

Lemma div100_small x : 0 <= x < 10000 -> Z.shiftr (u32 (x * 0x147b)) 19 = x / 100.
Proof. intros Hx. rewrite u32_small by lia. by rewrite (mul_shift_div x _ 19 100 12) by lia. Qed.

Lemma div10000 x : 0 <= x < 1128 * 10 ^ 6 -> u32 (Z.shiftr (u64 (x * 0x346DC5D7)) 43) = x / 10000.
Proof.
  intros Hx. rewrite u64_small by lia. rewrite (mul_shift_div x _ 43 10000 7792) by lia.
  apply u32_small. pose proof (Z.div_pos x 10000). pose proof (Z.div_le_upper_bound x 10000 x). lia.
Qed.

(** ** Digits *)

Lemma to_digits_fuel base f f' v :
  2 <= base -> 0 <= v < 2 ^ Z.of_nat f -> (0 < f)%nat -> (f <= f')%nat -> to_digits f base v = to_digits f' base v.
Proof.
  intros Hb. revert f' v. induction f as [|f IH]; intros f' v Hv Hf Hle; [lia|]. destruct f' as [|f']; [lia|].
  cbn [to_digits]. destruct (Z.ltb_spec v base) as [|Hge]; [done|]. f_equal.
  rewrite Nat2Z.inj_succ, Z.pow_succ_r in Hv by lia.
  assert (Hq : 1 <= v / base < 2 ^ Z.of_nat f).
  { split; [apply Z.div_le_lower_bound; lia|apply Z.div_lt_upper_bound; nia]. }
  apply IH; [lia| |lia]. destruct f; [change (2 ^ Z.of_nat 0) with 1 in Hq|]; lia.
Qed.

Lemma to_digits_S f base v : base <= v -> to_digits (S f) base v = to_digits f base (v / base) ++ [v mod base].
Proof. intros H. cbn [to_digits]. by rewrite (proj2 (Z.ltb_ge _ _)) by lia. Qed.

(** The characters of a number, least significant digit first. *)
Definition rdigits (f : Z -> Z) (base n : Z) : list Z := rev (map f (to_digits 64 base n)).

Lemma rdigits_small f base n : 0 <= n < base -> rdigits f base n = [f n].
Proof. intros H. unfold rdigits. cbn [to_digits]. by rewrite (proj2 (Z.ltb_lt _ _)) by lia. Qed.

Lemma rdigits_step f base n :
  2 <= base -> base <= n < 2 ^ 64 -> rdigits f base n = f (n mod base) :: rdigits f base (n / base).
Proof.
  intros Hb Hn. unfold rdigits. rewrite (to_digits_S 63) by lia.
  assert (0 <= n / base < 2 ^ 63) by (split; [apply Z.div_pos; lia|apply Z.div_lt_upper_bound; nia]).
  rewrite (to_digits_fuel base 63 64) by lia. by rewrite map_app, rev_app_distr.
Qed.

Definition dec_char (d : Z) : Z := 48 + d.

Fixpoint low_digits (k : nat) (n : Z) : list Z :=
  match k with O => [] | S k => dec_char (n mod 10) :: low_digits k (n / 10) end.

Lemma low_digits_app j k n : low_digits (j + k) n = low_digits j n ++ low_digits k (n / 10 ^ Z.of_nat j).
Proof.
  revert n. induction j as [|j IH]; intros n; cbn [Nat.add low_digits app].
  - by rewrite Z.div_1_r.
  - rewrite IH, Z.div_div by lia. by rewrite Nat2Z.inj_succ, Z.pow_succ_r by lia.
Qed.

Lemma low_digits_add k n m : low_digits k (n + 10 ^ Z.of_nat k * m) = low_digits k n.
Proof.
  revert n m. induction k as [|k IH]; intros n m; [done|]. cbn [low_digits].
  rewrite Nat2Z.inj_succ, Z.pow_succ_r by lia.
  replace (n + 10 * 10 ^ Z.of_nat k * m) with (n + (10 ^ Z.of_nat k * m) * 10) by lia.
  by rewrite Z.mod_add, Z.div_add, IH by lia.
Qed.

Lemma rdigits_low k n :
  10 ^ Z.of_nat k <= n < 2 ^ 64 -> rdigits dec_char 10 n = low_digits k n ++ rdigits dec_char 10 (n / 10 ^ Z.of_nat k).
Proof.
  revert n. induction k as [|k IH]; intros n Hn; cbn [low_digits app].
  - by rewrite Z.div_1_r.
  - rewrite Nat2Z.inj_succ, Z.pow_succ_r in * by lia. assert (0 < 10 ^ Z.of_nat k) by lia.
    rewrite rdigits_step by lia. f_equal. rewrite IH.
    + by rewrite Z.div_div by lia.
    + split; [apply Z.div_le_lower_bound; lia|apply Z.div_lt_upper_bound; lia].
Qed.

(** ** put_dec *)

Lemma forall_below (P : Z -> bool) n i : forallb P (seqZ 0 n) = true -> 0 <= i < n -> P i = true.
Proof. intros H Hi. rewrite forallb_forall in H. apply H. apply list_elem_of_In, elem_of_seqZ. lia. Qed.

(** There is room for [n] more digits in [tmp]. *)
Definition room (buf : list Z) (n : nat) : Prop := (length buf + n <= 24)%nat.

Lemma low_digits_length k n : length (low_digits k n) = k.
Proof. revert n. induction k as [|k IH]; intros n; cbn; [done|by rewrite IH]. Qed.

Lemma room_more buf k n j : room buf (k + j) -> room (buf ++ low_digits k n) j.
Proof. unfold room. rewrite length_app, low_digits_length. lia. Qed.

Lemma room_less buf k j : room buf k -> (j <= k)%nat -> room buf j.
Proof. unfold room. lia. Qed.

Lemma put_pair_ok buf i : room buf 2 -> 0 <= i < 100 -> put_pair buf i = Ok (buf ++ low_digits 2 i).
Proof.
  intros Hr Hi. unfold room in Hr. unfold put_pair, TMP_SIZE. rewrite (proj2 (Z.ltb_lt _ _)), (proj2 (Z.leb_le _ _)) by lia. do 2 f_equal.
  pose proof (forall_below (fun i => bool_decide ([u8 (decpair i); u8 (Z.shiftr (decpair i) 8)] = low_digits 2 i)) 100 i
    ltac:(by vm_compute) Hi) as E. by apply bool_decide_eq_true in E.
Qed.

Lemma put_last_ok buf r : room buf 2 -> 0 <= r < 100 -> put_last buf r = Ok (buf ++ rdigits dec_char 10 r).
Proof.
  intros Hroom Hr. unfold put_last. rewrite put_pair_ok, bind_Ok by done. f_equal. rewrite take_app_add. f_equal.
  destruct (Z.ltb_spec r 10).
  - rewrite rdigits_small by lia. cbn. by rewrite Z.mod_small by lia.
  - assert (0 <= r / 10 < 10) by (split; [apply Z.div_pos|apply Z.div_lt_upper_bound]; lia).
    rewrite rdigits_step, rdigits_small by lia. cbn [low_digits take]. by rewrite (Z.mod_small (r / 10)) by lia.
Qed.

(** One pair of digits taken off. *)
Lemma put_pair_mod buf r : room buf 2 -> 0 <= r < 2 ^ 32 -> put_pair buf (u32 (r - 100 * (r / 100))) = Ok (buf ++ low_digits 2 r).
Proof.
  intros Hroom Hr. replace (r - 100 * (r / 100)) with (r mod 100) by (rewrite Z.mod_eq by lia; lia).
  pose proof (Z.mod_pos_bound r 100 ltac:(lia)). rewrite u32_small, put_pair_ok by (done || lia). do 2 f_equal.
  pose proof (low_digits_add 2 (r mod 100) (r / 100)) as E. change (10 ^ Z.of_nat 2) with 100 in E. rewrite <- E.
  f_equal. pose proof (Z.div_mod r 100). lia.
Qed.

Lemma quotient100 r : 0 <= r -> 0 <= r / 100 <= r.
Proof. intros. split; [apply Z.div_pos; lia|apply Z.div_le_upper_bound; lia]. Qed.

Lemma rdigits_pair r : 100 <= r < 2 ^ 64 -> rdigits dec_char 10 r = low_digits 2 r ++ rdigits dec_char 10 (r / 100).
Proof. intros. apply (rdigits_low 2). cbn. lia. Qed.

Lemma put_dec_trunc8_ok buf r : room buf 8 -> 0 <= r < 10 ^ 8 -> put_dec_trunc8 buf r = Ok (buf ++ rdigits dec_char 10 r).
Proof.
  intros Hroom Hr. pose proof (room_less buf 8 2 Hroom ltac:(lia)).
  unfold put_dec_trunc8. destruct (Z.ltb_spec r 100); [apply put_last_ok; [done|lia]|]. cbn zeta.
  rewrite div100, put_pair_mod, bind_Ok, (rdigits_pair r) by (done || lia).
  pose proof (room_more buf 2 r 6 Hroom) as Hroom1. pose proof (room_less _ 6 2 Hroom1 ltac:(lia)). pose proof (quotient100 r).
  assert (r / 100 < 10 ^ 6) by (apply Z.div_lt_upper_bound; lia). set (q := r / 100) in *.
  destruct (Z.ltb_spec q 100); [by rewrite put_last_ok, app_assoc by (done || lia)|].
  rewrite div100, put_pair_mod, bind_Ok, (rdigits_pair q) by (done || lia).
  pose proof (room_more _ 2 q 4 Hroom1) as Hroom2. pose proof (room_less _ 4 2 Hroom2 ltac:(lia)). pose proof (quotient100 q).
  assert (q / 100 < 10 ^ 4) by (apply Z.div_lt_upper_bound; lia). set (s := q / 100) in *.
  destruct (Z.ltb_spec s 100); [by rewrite put_last_ok, !app_assoc by (done || lia)|].
  rewrite div100_small, put_pair_mod, bind_Ok, (rdigits_pair s) by (done || lia).
  pose proof (room_more _ 2 s 2 Hroom2) as Hroom3. pose proof (quotient100 s).
  assert (s / 100 < 100) by (apply Z.div_lt_upper_bound; lia).
  by rewrite put_last_ok, !app_assoc by (done || lia).
Qed.

Lemma put_dec_helper4_ok buf x :
  room buf 4 -> 0 <= x < 1128 * 10 ^ 6 -> put_dec_helper4 buf x = Ok (buf ++ low_digits 4 x, x / 10000).
Proof.
  intros Hroom Hx. pose proof (room_less buf 4 2 Hroom ltac:(lia)). unfold put_dec_helper4, put_dec_full4. cbn zeta. rewrite div10000 by done.
  replace (x - x / 10000 * 10000) with (x mod 10000) by (rewrite Z.mod_eq by lia; lia).
  pose proof (Z.mod_pos_bound x 10000 ltac:(lia)) as Hm. rewrite (u32_small (x mod 10000)) by lia.
  rewrite div100_small, put_pair_mod, bind_Ok by (done || lia).
  rewrite put_pair_ok; [|by apply (room_more buf 2)|split; [apply Z.div_pos|apply Z.div_lt_upper_bound]; lia]. rewrite bind_Ok. do 2 f_equal.
  rewrite <- app_assoc. f_equal.
  pose proof (low_digits_add 4 (x mod 10000) (x / 10000)) as E. change (10 ^ Z.of_nat 4) with 10000 in E.
  replace (x mod 10000 + 10000 * (x / 10000)) with x in E by (pose proof (Z.div_mod x 10000); lia).
  rewrite E. symmetry. apply (low_digits_app 2 2).
Qed.

(** *** Numbers of more than eight digits *)

Lemma low_digits_zero k : low_digits k 0 = replicate k 48.
Proof. induction k as [|k IH]; [done|]. cbn [low_digits replicate]. rewrite Z.mod_0_l, Z.div_0_l, IH by lia. done. Qed.

Lemma low_digits_pad k n :
  0 < n < 10 ^ Z.of_nat k -> n < 2 ^ 64 -> exists j, low_digits k n = rdigits dec_char 10 n ++ replicate j 48 /\ (j <= k)%nat.
Proof.
  revert n. induction k as [|k IH]; intros n Hn H64; [change (10 ^ Z.of_nat 0) with 1 in Hn; lia|]. cbn [low_digits].
  rewrite Nat2Z.inj_succ, Z.pow_succ_r in Hn by lia. destruct (Z.lt_ge_cases n 10).
  - rewrite rdigits_small, (Z.mod_small n 10), (Z.div_small n 10), low_digits_zero by lia. exists k. split; [done|lia].
  - assert (0 < n / 10 < 10 ^ Z.of_nat k) by (split; [apply Z.div_str_pos|apply Z.div_lt_upper_bound]; lia).
    destruct (IH (n / 10)) as (j & -> & Hj); [done|apply Z.div_lt_upper_bound; lia|].
    rewrite (rdigits_step dec_char 10 n) by lia. exists j. split; [done|lia].
Qed.

(** The leading digit is not zero. *)
Lemma rdigits_last n : 0 < n < 2 ^ 64 -> exists l c, rdigits dec_char 10 n = l ++ [c] /\ c <> 48.
Proof.
  intros [H0 H64]. revert H64. pattern n. apply (Zlt_lower_bound_ind _ 1); [|lia]. clear n H0. intros n IH Hn H64.
  destruct (Z.lt_ge_cases n 10).
  - rewrite rdigits_small by lia. exists [], (dec_char n). split; [done|unfold dec_char; lia].
  - rewrite rdigits_step by lia. destruct (IH (n / 10)) as (l & c & -> & Hc).
    + split; [apply Z.div_le_lower_bound|apply Z.div_lt_upper_bound]; lia.
    + apply Z.div_lt_upper_bound; lia.
    + by exists (dec_char (n mod 10) :: l), c.
Qed.

Lemma strip_zeros_ok l c j fuel :
  c <> 48 -> (j < fuel)%nat -> strip_zeros fuel ((l ++ [c]) ++ replicate j 48) = Ok (l ++ [c]).
Proof.
  intros Hc. revert fuel. induction j as [|j IH]; intros fuel Hf; (destruct fuel as [|fuel]; [lia|]); cbn [strip_zeros].
  - rewrite app_nil_r, last_snoc. by rewrite (proj2 (Z.eqb_neq c 48)).
  - rewrite replicate_S_end, app_assoc, last_snoc, Z.eqb_refl.
    rewrite (length_app _ [48]). replace (_ + length [48] - 1)%nat with (length ((l ++ [c]) ++ replicate j 48)) by (cbn; lia).
    rewrite take_app_length. apply IH. lia.
Qed.

(** The four digits groups of a number from its 16-bit parts. *)
Lemma parts n :
  0 <= n < 2 ^ 64 ->
  let d1 := Z.shiftr (u32 n) 16 in let h := u32 (Z.shiftr n 32) in
  let d2 := Z.land h 0xffff in let d3 := Z.shiftr h 16 in let d0 := Z.land (u32 n) 0xffff in
  n = d0 + 2 ^ 16 * d1 + 2 ^ 32 * d2 + 2 ^ 48 * d3 /\
  0 <= d0 < 2 ^ 16 /\ 0 <= d1 < 2 ^ 16 /\ 0 <= d2 < 2 ^ 16 /\ 0 <= d3 < 2 ^ 16.
Proof.
  intros Hn. cbn zeta. change 0xffff with (Z.ones 16). rewrite !Z.land_ones, !Z.shiftr_div_pow2 by lia.
  assert (0 <= n / 2 ^ 32 < 2 ^ 32) by (split; [apply Z.div_pos|apply Z.div_lt_upper_bound]; lia).
  rewrite (u32_small (n / 2 ^ 32)) by done. unfold u32.
  pose proof (Z.mod_pos_bound n (2 ^ 32)). pose proof (Z.div_mod n (2 ^ 32)).
  generalize dependent (n mod 2 ^ 32). generalize dependent (n / 2 ^ 32). intros h Hh l Hl El.
  pose proof (Z.div_mod l (2 ^ 16)). pose proof (Z.div_mod h (2 ^ 16)).
  pose proof (Z.mod_pos_bound l (2 ^ 16)). pose proof (Z.mod_pos_bound h (2 ^ 16)).
  pose proof (Z.div_pos l (2 ^ 16)). pose proof (Z.div_pos h (2 ^ 16)).
  pose proof (Z.div_lt_upper_bound l (2 ^ 16) (2 ^ 16)). pose proof (Z.div_lt_upper_bound h (2 ^ 16) (2 ^ 16)). lia.
Qed.

(** A group of four digits, with the carry to the rest. *)
Lemma low_digits_group x y k : 0 <= x -> low_digits (4 + k) (x + 10000 * y) = low_digits 4 x ++ low_digits k (x / 10000 + y).
Proof.
  intros Hx. rewrite low_digits_app. change (10 ^ Z.of_nat 4) with 10000. f_equal.
  - pose proof (low_digits_add 4 x y) as E. by change (10 ^ Z.of_nat 4) with 10000 in E.
  - f_equal. rewrite (Z.mul_comm 10000), Z.div_add by lia. done.
Qed.

Lemma put_dec_ok n : 0 <= n < 2 ^ 64 -> put_dec [] n = Ok (rdigits dec_char 10 n).
Proof.
  intros Hn. unfold put_dec. destruct (Z.ltb_spec n (100 * 1000 * 1000)).
  { rewrite u32_small, put_dec_trunc8_ok by (done || unfold room; cbn; lia). done. }
  cbn zeta. destruct (parts n Hn) as (Eq & H0 & H1 & H2 & H3). cbn zeta in *.
  set (d1 := Z.shiftr (u32 n) 16) in *. set (d0 := Z.land (u32 n) 0xffff) in *.
  set (d2 := Z.land (u32 (Z.shiftr n 32)) 0xffff) in *. set (d3 := Z.shiftr (u32 (Z.shiftr n 32)) 16) in *.
  set (q0 := 656 * d3 + 7296 * d2 + 5536 * d1 + d0).
  assert (0 <= q0 < 10 ^ 9) by lia. rewrite (u32_small q0), put_dec_helper4_ok, bind_Ok by (lia || by unfold room; cbn; lia). cbn beta iota.
  assert (0 <= q0 / 10000 < 10 ^ 5) by (split; [apply Z.div_pos|apply Z.div_lt_upper_bound]; lia).
  set (q1 := q0 / 10000 + 7671 * d3 + 9496 * d2 + 6 * d1).
  assert (0 <= q1 < 1126 * 10 ^ 6) by lia. rewrite (u32_small q1), put_dec_helper4_ok, bind_Ok by (lia || by unfold room; cbn; lia). cbn beta iota.
  assert (0 <= q1 / 10000 < 10 ^ 6) by (split; [apply Z.div_pos|apply Z.div_lt_upper_bound]; lia).
  set (q2 := q1 / 10000 + 4749 * d3 + 42 * d2).
  assert (0 <= q2 < 10 ^ 9) by lia. rewrite (u32_small q2), put_dec_helper4_ok, bind_Ok by (lia || by unfold room; cbn; lia). cbn beta iota.
  assert (0 <= q2 / 10000 < 10 ^ 5) by (split; [apply Z.div_pos|apply Z.div_lt_upper_bound]; lia).
  set (q3 := q2 / 10000 + 281 * d3). assert (0 <= q3 < 10 ^ 8) by lia. rewrite (u32_small q3) by lia.
  assert (El : low_digits 12 n = (([] ++ low_digits 4 q0) ++ low_digits 4 q1) ++ low_digits 4 q2).
  { replace n with (q0 + 10000 * (7671 * d3 + 9496 * d2 + 6 * d1 + 10000 * (4749 * d3 + 42 * d2 + 10000 * (281 * d3)))) by lia.
    rewrite (low_digits_group q0 _ 8) by lia.
    replace (q0 / 10000 + _) with (q1 + 10000 * (4749 * d3 + 42 * d2 + 10000 * (281 * d3))) by lia.
    rewrite (low_digits_group q1 _ 4) by lia.
    replace (q1 / 10000 + _) with (q2 + 10000 * (281 * d3)) by lia.
    rewrite (low_digits_group q2 _ 0) by lia. cbn [low_digits]. by rewrite app_nil_r, <- app_assoc. }
  assert (Ed : n / 10 ^ 12 = q3).
  { symmetry. apply (Z.div_unique_pos _ _ _ (q0 mod 10000 + 10000 * (q1 mod 10000) + 10 ^ 8 * (q2 mod 10000)));
    pose proof (Z.div_mod q0 10000); pose proof (Z.div_mod q1 10000); pose proof (Z.div_mod q2 10000);
    pose proof (Z.mod_pos_bound q0 10000); pose proof (Z.mod_pos_bound q1 10000); pose proof (Z.mod_pos_bound q2 10000); lia. }
  rewrite <- El. destruct (Z.eqb_spec q3 0) as [E3|E3]; cbn [negb].
  - assert (n < 10 ^ 12) by (rewrite E3 in Ed; apply (proj1 (Z.div_small_iff n (10 ^ 12) ltac:(lia))) in Ed; lia).
    destruct (low_digits_pad 12 n) as (j & -> & Hj); [cbn; lia|lia|].
    destruct (rdigits_last n) as (l & c & -> & Hc); [lia|]. apply strip_zeros_ok; [done|].
    rewrite length_app, length_replicate. lia.
  - rewrite put_dec_trunc8_ok by (lia || by unfold room; rewrite low_digits_length; lia). f_equal. rewrite <- Ed. symmetry. apply (rdigits_low 12).
    split; [|lia]. change (10 ^ Z.of_nat 12) with (10 ^ 12). apply Z.nlt_ge. intros Hlt. apply E3. rewrite <- Ed.
    apply Z.div_small. lia.
Qed.

(** ** The digits in every base *)

Definition digit_of_case (locase d : Z) : Z := Z.lor (nth (Z.to_nat d) hex_asc_upper 0) locase.

Lemma put_bits_ok s locase : 0 < s <= 8 -> forall fuel tmp num k,
  0 <= num < 2 ^ 64 -> num < 2 ^ Z.of_nat fuel -> (0 < fuel)%nat -> num < 2 ^ (s * Z.of_nat k) -> room tmp k -> (0 < k)%nat ->
  put_bits fuel tmp num (2 ^ s - 1) s locase = Ok (tmp ++ rdigits (digit_of_case locase) (2 ^ s) num).
Proof.
  intros Hs. induction fuel as [|fuel IH]; intros tmp num k Hn Hf H0 Hk Hroom Hk0; [lia|]. cbn [put_bits].
  unfold room, TMP_SIZE in *. rewrite (proj2 (Z.leb_gt _ _)) by lia. cbn [BUG_ON]. rewrite bind_Ok.
  assert (Hb : 2 <= 2 ^ s) by (change 2 with (2 ^ 1) at 1; apply Z.pow_le_mono_r; lia).
  assert (Ed : Z.land (u8 num) (2 ^ s - 1) = num mod 2 ^ s).
  { replace (2 ^ s - 1) with (Z.ones s) by (rewrite Z.ones_equiv; lia). rewrite Z.land_ones by lia. unfold u8.
    replace (2 ^ 8) with (2 ^ s * 2 ^ (8 - s)) by (rewrite <- Z.pow_add_r by lia; f_equal; lia).
    rewrite Z.rem_mul_r by lia. rewrite (Z.mul_comm (2 ^ s)), Z.mod_add by lia. apply Z.mod_mod. lia. }
  rewrite Ed. rewrite Z.shiftr_div_pow2 by lia. fold (digit_of_case locase (num mod 2 ^ s)).
  destruct (Z.lt_ge_cases num (2 ^ s)).
  - rewrite Z.div_small, Z.eqb_refl, rdigits_small, Z.mod_small by lia. done.
  - rewrite Nat2Z.inj_succ, Z.pow_succ_r in Hf by lia.
    assert (Hq : 1 <= num / 2 ^ s < 2 ^ Z.of_nat fuel).
    { split; [apply Z.div_le_lower_bound; lia|apply Z.div_lt_upper_bound; nia]. }
    destruct k as [|[|k]]; [lia|rewrite Z.mul_1_r in Hk; lia|].
    replace (s * Z.of_nat (S (S k))) with (s + s * Z.of_nat (S k)) in Hk by lia. rewrite Z.pow_add_r in Hk by lia.
    rewrite (proj2 (Z.eqb_neq _ 0)) by lia. rewrite (rdigits_step _ _ num) by lia. rewrite (IH _ _ (S k)), <- app_assoc; [done| |lia| | | |lia].
    + split; [lia|]. apply Z.div_lt_upper_bound; nia.
    + destruct fuel; [change (2 ^ Z.of_nat 0) with 1 in Hq|]; lia.
    + apply Z.div_lt_upper_bound; lia.
    + rewrite length_app. cbn [length]. lia.
Qed.

Lemma digit_of_case_dec locase d : 0 <= d < 10 -> (locase = 0 \/ locase = 32) -> digit_of_case locase d = dec_char d.
Proof.
  intros Hd Hl. pose proof (forall_below (fun d => (digit_of_case 0 d =? dec_char d) && (digit_of_case 32 d =? dec_char d)) 10 d
    ltac:(by vm_compute) Hd) as E. cbn beta in E. destruct Hl as [-> | ->]; lia.
Qed.

Lemma number_digits_ok num b locase :
  0 <= num < 2 ^ 64 -> b = 8 \/ b = 10 \/ b = 16 -> locase = 0 \/ locase = 32 ->
  number_digits num b locase = Ok (rdigits (digit_of_case locase) b num).
Proof.
  intros Hn Hb Hl. unfold number_digits. destruct (Z.ltb_spec num b) as [Hlt|Hge].
  { rewrite rdigits_small by lia. done. }
  destruct Hb as [-> | [-> | ->]]; cbn [Z.eqb Pos.eqb negb].
  - apply (put_bits_ok 3 locase ltac:(lia) 65 [] num 22%nat); unfold room; cbn; lia.
  - rewrite put_dec_ok by done. f_equal. unfold rdigits. f_equal. apply map_ext_in. intros d Hd.
    destruct (to_digits_ok 64 10 num) as (_ & _ & Hds & _); [lia|done|lia|]. symmetry. apply digit_of_case_dec; [|done].
    rewrite Forall_forall in Hds. apply Hds. by apply list_elem_of_In.
  - apply (put_bits_ok 4 locase ltac:(lia) 65 [] num 16%nat); unfold room; cbn; lia.
Qed.

(** The digits fit in the 24 bytes of [tmp]. *)
Lemma to_digits_length base f v k :
  2 <= base -> 0 <= v < base ^ Z.of_nat k -> (0 < k)%nat -> (length (to_digits f base v) <= k)%nat.
Proof.
  intros Hb. revert v k. induction f as [|f IH]; intros v k Hv Hk; cbn [to_digits]; [cbn; lia|].
  destruct (Z.ltb_spec v base); [cbn; lia|]. rewrite length_app. cbn [length]. destruct k as [|k]; [lia|].
  rewrite Nat2Z.inj_succ, Z.pow_succ_r in Hv by lia.
  assert (0 <= v / base < base ^ Z.of_nat k) by (split; [apply Z.div_pos; lia|apply Z.div_lt_upper_bound; lia]).
  destruct k as [|k]; [change (base ^ Z.of_nat 0) with 1 in *; nia|].
  specialize (IH (v / base) (S k)). lia.
Qed.

Lemma rdigits_length f b num :
  0 <= num < 2 ^ 64 -> b = 8 \/ b = 10 \/ b = 16 -> (1 <= length (rdigits f b num) <= 22)%nat.
Proof.
  intros Hn Hb. unfold rdigits. rewrite length_rev, length_map. split.
  - destruct (to_digits_ok 64 b num) as (_ & Hne & _); [lia|done|lia|]. destruct (to_digits 64 b num); [done|cbn; lia].
  - apply to_digits_length; [lia| |lia]. destruct Hb as [-> | [-> | ->]]; cbn; lia.
Qed.
