(* ===== verification/VsprintfText.v ===== *)
(** * lib/vsprintf.c: the text of a format

    What a format and its arguments stand for, as a list of characters
    without a buffer: the reference that [vsnprintf] is compared with. *)

From Stdlib Require Import String.
From S2P Require Import Prelude Ctype Kstrtox StringMem Memmove LibString Vsprintf VsprintfNumber.

Local Open Scope Z_scope.

Definition fill (n c : Z) : list Z := replicate (Z.to_nat n) c.

(** A number: its digits, with zeros up to the precision, the prefix of the
    base and the sign before them, in a field. *)
Definition number_text (num : Z) (spec : printf_spec) : list Z :=
  let left := flag (flags spec) LEFT in
  let zeropad := flag (flags spec) ZEROPAD && negb left in
  let pfx := flag (flags spec) SPECIAL && negb (base spec =? 10) in
  let locase := Z.land (flags spec) SMALL in
  let '(sign, n) := number_sign (flags spec) num in
  let digits := rev (rdigits (digit_of_case locase) (base spec) n) in
  let prefix := if pfx then
                  if base spec =? 16 then [48; Z.lor 88 locase] else if num =? 0 then [] else [48]
                else [] in
  let sign := if sign =? 0 then [] else [sign] in
  let zeros := fill (precision spec - Z.of_nat (length digits)) 48 in
  let width := field_width spec - Z.of_nat (length sign + length prefix + length zeros + length digits) in
  fill (if left || zeropad then 0 else width) 32 ++ sign ++ prefix ++
  fill (if zeropad then width else 0) 48 ++ zeros ++ digits ++ fill (if left then width else 0) 32.

(** A string, cut to the precision when there is one, in a field. *)
Definition cut (lim : Z) (s : list Z) : list Z := if lim <? 0 then s else take (Z.to_nat lim) s.

Definition string_text (s : list Z) (spec : printf_spec) : list Z :=
  let s := cut (precision spec) s in
  let spaces := fill (field_width spec - Z.of_nat (length s)) 32 in
  if flag (flags spec) LEFT then s ++ spaces else spaces ++ s.

Definition error_text (s : string) (spec : printf_spec) : list Z :=
  string_text (chars s) (if precision spec =? -1 then set_prec (2 * 4) spec else spec).

Definition char_text (v : Z) (spec : printf_spec) : list Z :=
  let spaces := fill (field_width spec - 1) 32 in
  if flag (flags spec) LEFT then u8 v :: spaces else spaces ++ [u8 v].

(** A pointer that may not be usable. *)
Definition checked_text (ptr : Z) (spec : printf_spec) (rest : outcome (list Z)) : outcome (list Z) :=
  match check_pointer_msg ptr with Some msg => Ok (error_text msg spec) | None => rest end.

Definition str_text (a : arg) (spec : printf_spec) : outcome (list Z) :=
  checked_text (arg_ptr a) spec match a with ArgStr _ s => Ok (string_text s spec) | _ => Bug end.

Definition hex_text (ptr : Z) (spec : printf_spec) : list Z :=
  let spec := set_flags (Z.lor (flags spec) SMALL) (set_base 16 spec) in
  number_text ptr (if field_width spec =? -1
                   then set_flags (Z.lor (flags spec) ZEROPAD) (set_width (2 * 4) spec) else spec).

Section text.
Context (ptr_to_hashval : Z -> option Z) (no_hash_pointers debug_boot_weak_hash : bool).

Definition pointer_text (ptr : Z) (spec : printf_spec) : list Z :=
  if no_hash_pointers || (ptr =? 0) || IS_ERR_VALUE ptr then hex_text ptr spec
  else if debug_boot_weak_hash then hex_text (hash_32 ptr 32) spec
  else match ptr_to_hashval ptr with
       | None => error_text "(ptrval)" (set_width (2 * 4) spec)
       | Some hashval => hex_text (u32 hashval) spec
       end.

(** The text of [%p] and the characters after it. *)
Definition percent_p_text (format_text : list Z -> list arg -> outcome (list Z)) (fmt : list Z) (a : arg)
    (spec : printf_spec) : outcome (list Z) :=
  let c := ch fmt 0 in
  let ptr := arg_ptr a in
  match pointer_stub c (ch fmt 1) with
  | Some s => Ok (error_text s spec)
  | None =>
      if (c =? 83) || (c =? 115) || (c =? 66) then
        Ok (number_text ptr (PrintfSpec FORMAT_TYPE_PTR 10 (Z.lor SPECIAL (Z.lor SMALL ZEROPAD)) 16 (-1)))
      else if c =? 86 then
        checked_text ptr spec match a with ArgVa _ f args => format_text f args | _ => Bug end
      else if (c =? 75) || (c =? 120) then Ok (hex_text ptr spec)
      else if c =? 101 then
        Ok (if IS_ERR_VALUE ptr
            then number_text (u64 (s32 ptr)) (set_base 10 (set_flags (Z.lor (flags spec) SIGN) spec))
            else pointer_text ptr spec)
      else if (c =? 117) || (c =? 107) then
        if ch fmt 1 =? 115 then str_text a spec else Ok (error_text "(einval)" spec)
      else Ok (pointer_text ptr spec)
  end.

Fixpoint format_text (fuel : nat) (fmt : list Z) (args : list arg) (spec : printf_spec) : outcome (list Z) :=
  match fuel with
  | O => NoFuel
  | S fuel =>
      match fmt with
      | [] => Ok []
      | _ =>
          let '(rest, spec) := format_decode fmt spec in
          let andthen t rest args := t' ← format_text fuel rest args spec; Ok (t ++ t') in
          match type spec with
          | FORMAT_TYPE_NONE => andthen (take (length fmt - length rest) fmt) rest args
          | FORMAT_TYPE_WIDTH =>
              '(v, args) ← va_int args; format_text fuel rest args (set_field_width spec (s32 v))
          | FORMAT_TYPE_PRECISION =>
              '(v, args) ← va_int args; format_text fuel rest args (set_precision spec (s32 v))
          | FORMAT_TYPE_CHAR => '(v, args) ← va_int args; andthen (char_text v spec) rest args
          | FORMAT_TYPE_STR => '(a, args) ← va_arg args; t ← str_text a spec; andthen t rest args
          | FORMAT_TYPE_PTR =>
              '(a, args) ← va_arg args;
              t ← percent_p_text (fun f args => format_text fuel f args (PrintfSpec FORMAT_TYPE_NONE 0 0 0 0)) rest a spec;
              andthen t (skip_alnum rest) args
          | FORMAT_TYPE_PERCENT_CHAR => andthen [37] rest args
          | FORMAT_TYPE_INVALID => Ok []
          | _ => '(v, args) ← va_int args; andthen (number_text (integer_arg spec v) spec) rest args
          end
      end
  end.

(** The text of a format; [Bug] when the arguments do not fit it. *)
Definition text_of_format (fmt : list Z) (args : list arg) : outcome (list Z) :=
  format_text (format_fuel fmt args) fmt args (PrintfSpec FORMAT_TYPE_NONE 0 0 0 0).
End text.
