(* ===== verification/VsprintfSpec.v ===== *)
(** * lib/vsprintf.c: the buffer holds the text

    Every output function appends its text to what the buffer holds, cut at
    the end of the buffer. [vsnprintf] stores as much of the text of the
    format as fits before a terminating zero, changes nothing else, and
    returns the length of the whole text. *)

From Stdlib Require Import String.
From S2P Require Import Prelude Ctype Kstrtox StringMem Memmove LibString Vsprintf VsprintfNumber VsprintfText.

Local Open Scope Z_scope.

Abbreviation len l := (Z.of_nat (length l)).

(** ** A buffer with a text in it *)

Section buffer.
Context (m0 : mem) (buf end_ : Z).

(** The text [T] was written at [buf]: what is below the last byte of the
    buffer is the text, and only the text, one more byte and never anything
    from [end_] on has changed. *)
Record written (T : list Z) (m : mem) : Prop := Written {
  written_bytes i x : T !! i = Some x -> buf + Z.of_nat i < end_ - 1 -> m !! (buf + Z.of_nat i) = Some x;
  written_outside a : ~ buf <= a < Z.min end_ (buf + len T + 1) -> m !! a = m0 !! a;
  written_mapped a : is_Some (m0 !! a) -> is_Some (m !! a);
  written_ok : mem_ok m
}.

(** There is room for the text, as far as it is stored. *)
Record room (T : list Z) : Prop := Room {
  room_mapped a : buf <= a < Z.min end_ (buf + len T + 1) -> is_Some (m0 !! a);
  room_wrap : buf + len T < 2 ^ 32;
  room_int : len T < 2 ^ 31
}.

Definition emits (op : mem -> Z -> outcome (mem * Z)) (T : list Z) : Prop :=
  forall T0 m, written T0 m -> room (T0 ++ T) ->
    exists m', op m (buf + len T0) = Ok (m', buf + len (T0 ++ T)) /\ written (T0 ++ T) m'.

(** The same for functions that also return a number. *)
Definition emits_num (op : mem -> Z -> outcome (mem * Z * Z)) (T : list Z) (w : Z) : Prop :=
  forall T0 m, written T0 m -> room (T0 ++ T) ->
    exists m', op m (buf + len T0) = Ok (m', buf + len (T0 ++ T), w) /\ written (T0 ++ T) m'.

Context (Hbuf : 0 <= buf) (Hend : buf <= end_ < 2 ^ 32).

Lemma room_prefix T T' : room (T ++ T') -> room T.
Proof using Type.
  intros [Hm Hw Hi]. rewrite length_app in *. split; [|lia|lia]. intros a Ha. apply Hm. lia.
Qed.

(** Appending as much of a text as fits. *)
Lemma written_append T0 l m :
  written T0 m -> Forall byte l ->
  written (T0 ++ l) (write m (buf + len T0) (take (Z.to_nat (end_ - (buf + len T0))) l)).
Proof using Hbuf Hend.
  intros [Hb Ho Hm Hk] Hl. set (k := Z.to_nat (end_ - (buf + len T0))).
  assert (Hlen : (length (take k l) <= k)%nat) by (rewrite length_take; lia). split.
  - intros i x Hi Hlt. destruct (decide (i < length T0)%nat) as [Hi0|Hi0].
    + rewrite write_outside by lia. apply Hb; [|done]. by rewrite lookup_app_l in Hi by lia.
    + rewrite lookup_app_r in Hi by lia. assert (i - length T0 < k)%nat by lia.
      assert (take k l !! (i - length T0)%nat = Some x) as Ht by by rewrite lookup_take_lt.
      pose proof (lookup_lt_Some _ _ _ Ht). rewrite write_inside by lia. rewrite <- Ht. f_equal. lia.
  - intros a Ha. rewrite length_app in Ha. rewrite write_outside; [apply Ho; lia|]. rewrite length_take. lia.
  - intros a Ha. by apply write_is_Some, Hm.
  - apply mem_ok_write; [done|]. by apply Forall_take.
Qed.

Lemma written_nil m : mem_ok m -> m = m0 -> written [] m.
Proof using Type. intros Hk ->. split; try done; naive_solver. Qed.

(** A text that begins beyond the end changes nothing. *)
Lemma written_beyond T0 l m : written T0 m -> end_ <= buf + len T0 -> written (T0 ++ l) m.
Proof using Type.
  intros [Hb Ho Hm Hk] Hge. split; try done.
  - intros i x Hi Hlt. apply Hb; [|done]. rewrite lookup_app_l in Hi by lia. done.
  - intros a Ha. rewrite length_app in Ha. apply Ho. lia.
Qed.

(** ** Composing *)

Lemma emits_ret : emits (fun m b => Ok (m, b)) [].
Proof using Type. intros T0 m Hw Hr. exists m. rewrite app_nil_r in *. done. Qed.

Lemma emits_num_ret w : emits_num (fun m b => Ok (m, b, w)) [] w.
Proof using Type. intros T0 m Hw Hr. exists m. rewrite app_nil_r in *. done. Qed.

Lemma emits_bind op1 op2 T1 T2 :
  emits op1 T1 -> emits op2 T2 -> emits (fun m b => '(m, b) ← op1 m b; op2 m b) (T1 ++ T2).
Proof using Type.
  intros H1 H2 T0 m Hw Hr. rewrite app_assoc in *. destruct (H1 T0 m Hw (room_prefix _ _ Hr)) as (m1 & -> & Hw1).
  rewrite bind_Ok. cbn beta iota. by apply H2.
Qed.

Lemma emits_num_bind op1 op2 T1 T2 w :
  emits_num op1 T1 w -> emits (fun m b => op2 m b w) T2 -> emits (fun m b => '(m, b, w) ← op1 m b; op2 m b w) (T1 ++ T2).
Proof using Type.
  intros H1 H2 T0 m Hw Hr. rewrite app_assoc in *. destruct (H1 T0 m Hw (room_prefix _ _ Hr)) as (m1 & -> & Hw1).
  rewrite bind_Ok. cbn beta iota. by apply H2.
Qed.

Lemma emits_if (c : bool) op1 op2 T1 T2 :
  emits op1 T1 -> emits op2 T2 -> emits (fun m b => if c then op1 m b else op2 m b) (if c then T1 else T2).
Proof using Type. by destruct c. Qed.

Lemma emits_num_if (c : bool) op1 op2 T1 T2 w1 w2 :
  emits_num op1 T1 w1 -> emits_num op2 T2 w2 ->
  emits_num (fun m b => if c then op1 m b else op2 m b) (if c then T1 else T2) (if c then w1 else w2).
Proof using Type. by destruct c. Qed.

(** ** Characters *)

Lemma put_emits c : emits (fun m b => put end_ m b c) [u8 c].
Proof using Hbuf Hend.
  intros T0 m Hw Hr. unfold put. pose proof (room_wrap _ Hr) as Hwrap. rewrite length_app in *. cbn [length] in *.
  assert (byte (u8 c)) as Hc by (unfold byte, u8; apply Z.mod_pos_bound; lia).
  rewrite u32_small by lia. destruct (Z.ltb_spec (buf + len T0) end_) as [Hlt|Hge].
  - rewrite store_u8. 2: { apply (written_mapped _ _ Hw), (room_mapped _ Hr). rewrite length_app. cbn. lia. }
    rewrite !bind_Ok. eexists. split; [do 2 f_equal; lia|].
    pose proof (written_append T0 [u8 c] m Hw ltac:(by apply Forall_singleton)) as H.
    rewrite take_ge in H by (cbn; lia). done.
  - rewrite bind_Ok. eexists. split; [do 2 f_equal; lia|]. by apply written_beyond.
Qed.

Lemma put_list_emits l : emits (fun m b => put_list end_ m b l) (map u8 l).
Proof using Hbuf Hend.
  induction l as [|c l IH]; cbn [put_list map]; [apply emits_ret|].
  apply (emits_bind _ _ [u8 c] (map u8 l)); [apply put_emits|apply IH].
Qed.

(** What is left of the count after [while (--n >= 0)]. *)
Definition spent (n : Z) : Z := if 0 <? n then -1 else n - 1.

Lemma pad_emits c fuel : forall n,
  (Z.to_nat n < fuel)%nat -> emits_num (fun m b => pad end_ fuel c m b n) (fill n (u8 c)) (spent n).
Proof using Hbuf Hend.
  induction fuel as [|fuel IH]; intros n Hf; [lia|]. unfold fill, spent. cbn [pad].
  destruct (Z.ltb_spec 0 n) as [Hp|Hn].
  - intros T0 m Hw Hr. rewrite Z.geb_leb, (proj2 (Z.leb_le _ _)) by lia.
    replace (Z.to_nat n) with (S (Z.to_nat (n - 1))) in * by lia. cbn [replicate] in *.
    change (u8 c :: replicate (Z.to_nat (n - 1)) (u8 c)) with ([u8 c] ++ fill (n - 1) (u8 c)) in *. rewrite app_assoc in *.
    destruct (put_emits c T0 m Hw (room_prefix _ _ Hr)) as (m1 & -> & Hw1). rewrite bind_Ok. cbn beta iota.
    destruct (IH (n - 1) ltac:(lia) _ m1 Hw1 Hr) as (m2 & -> & Hw2). exists m2. split; [|done].
    do 2 f_equal. unfold spent. case_cmp; lia.
  - rewrite Z.geb_leb, (proj2 (Z.leb_gt _ _)) by lia. replace (Z.to_nat n) with 0%nat by lia. apply emits_num_ret.
Qed.

Lemma pad_all_emits c n : emits_num (fun m b => pad_all end_ c m b n) (fill n (u8 c)) (spent n).
Proof using Hbuf Hend. apply pad_emits. lia. Qed.

Lemma fill_spent n c : fill (spent n) c = [].
Proof using Type. unfold fill, spent. case_cmp; [done|]. by replace (Z.to_nat (n - 1)) with 0%nat by lia. Qed.
Lemma emits_ext op op' T : (forall m b, op m b = op' m b) -> emits op' T -> emits op T.
Proof using Type. intros He H T0 m Hw Hr. rewrite He. by apply H. Qed.

Lemma emits_text op T T' : T = T' -> emits op T -> emits op T'.
Proof using Type. by intros ->. Qed.

(** ** Numbers *)

(** A specification that [number] can work with. *)
Definition spec_ok (spec : printf_spec) : Prop :=
  0 <= flags spec < 256 /\ (base spec = 8 \/ base spec = 10 \/ base spec = 16).

(** The flags after [LEFT] has cleared [ZEROPAD]. *)
Lemma flags_facts f :
  0 <= f < 256 ->
  let f' := if flag f LEFT then Z.land f (255 - ZEROPAD) else f in
  (forall num, number_sign f' num = number_sign f num) /\
  flag f' (Z.lor ZEROPAD LEFT) = flag f LEFT || (flag f ZEROPAD && negb (flag f LEFT)) /\
  flag f' LEFT = flag f LEFT /\
  Z.land f' ZEROPAD = (if flag f ZEROPAD && negb (flag f LEFT) then 16 else 0) /\
  (Z.land f SMALL = 0 \/ Z.land f SMALL = 32).
Proof using Type.
  intros Hf f'.
  pose proof (forall_below (fun f => let f' := if flag f LEFT then Z.land f (255 - ZEROPAD) else f in
    eqb (flag f' SIGN) (flag f SIGN) && eqb (flag f' PLUS) (flag f PLUS) && eqb (flag f' SPACE) (flag f SPACE) &&
    eqb (flag f' (Z.lor ZEROPAD LEFT)) (flag f LEFT || (flag f ZEROPAD && negb (flag f LEFT))) &&
    eqb (flag f' LEFT) (flag f LEFT) &&
    (Z.land f' ZEROPAD =? (if flag f ZEROPAD && negb (flag f LEFT) then 16 else 0)) &&
    ((Z.land f SMALL =? 0) || (Z.land f SMALL =? 32))) 256 f ltac:(by vm_compute) Hf) as E.
  cbn zeta in E. rewrite !andb_true_iff, !eqb_true_iff, orb_true_iff, !Z.eqb_eq in E.
  destruct E as [[[[[[E1 E2] E3] E4] E5] E6] E7]. csplit; try done.
  intros num. unfold number_sign. subst f'. by rewrite E1, E2, E3.
Qed.

Lemma number_sign_range f num sign n :
  0 <= num < 2 ^ 64 -> number_sign f num = (sign, n) ->
  0 <= n < 2 ^ 64 /\ (sign = 0 \/ sign = 45 \/ sign = 43 \/ sign = 32).
Proof using Type.
  intros Hn. unfold number_sign, u64. repeat case_cmp; intros [= <- <-]; split; auto; apply Z.mod_pos_bound; lia.
Qed.

Lemma digit_of_case_byte locase d : 0 <= d < 16 -> locase = 0 \/ locase = 32 -> byte (digit_of_case locase d).
Proof using Type.
  intros Hd Hl.
  pose proof (forall_below (fun d => (digit_of_case 0 d <? 256) && (0 <=? digit_of_case 0 d) &&
    (digit_of_case 32 d <? 256) && (0 <=? digit_of_case 32 d)) 16 d ltac:(by vm_compute) Hd) as E. cbn beta in E.
  unfold byte. destruct Hl as [-> | ->]; lia.
Qed.

Lemma map_u8 l : Forall byte l -> map u8 l = l.
Proof using Type.
  induction 1 as [|c l Hc Hl IH]; [done|]. cbn [map]. rewrite IH. f_equal. unfold u8. by apply Z.mod_small.
Qed.

Lemma rdigits_bytes locase b n :
  0 <= n < 2 ^ 64 -> b = 8 \/ b = 10 \/ b = 16 -> locase = 0 \/ locase = 32 -> Forall byte (rdigits (digit_of_case locase) b n).
Proof using Type.
  intros Hn Hb Hl. unfold rdigits. apply Forall_rev, Forall_map.
  destruct (to_digits_ok 64 b n) as (_ & _ & Hd & _); [lia|done|lia|].
  eapply Forall_impl; [exact Hd|]. intros d Hr. cbn in Hr. apply digit_of_case_byte; [lia|done].
Qed.

Lemma number_emits num spec :
  spec_ok spec -> 0 <= num < 2 ^ 64 -> emits (fun m b => number end_ m b num spec) (number_text num spec).
Proof using Hbuf Hend.
  intros [Hf Hb] Hn. unfold number, number_text.
  destruct (flags_facts (flags spec) Hf) as (-> & Hzl & Hl & Hz & Hlo). cbn zeta in *.
  set (f' := if flag (flags spec) LEFT then _ else _) in *. set (locase := Z.land (flags spec) SMALL) in *.
  set (left := flag (flags spec) LEFT) in *. set (zp := flag (flags spec) ZEROPAD && negb left) in *.
  destruct (number_sign (flags spec) num) as [sign n] eqn:Hs. apply number_sign_range in Hs as [Hn' Hsign]; [|done].
  eapply emits_ext; [intros m b; rewrite (number_digits_ok n (base spec) locase) by done; rewrite bind_Ok; reflexivity|].
  rewrite Hzl, Hl, Hz.
  set (ds := rdigits (digit_of_case locase) (base spec) n).
  pose proof (rdigits_bytes locase (base spec) n Hn' Hb Hlo) as Hds. fold ds in Hds.
  set (need_pfx := flag (flags spec) SPECIAL && negb (base spec =? 10)).
  eapply emits_text; cycle 1.
  - eapply emits_num_bind; [apply emits_num_if; [apply pad_all_emits|apply emits_num_ret]|].
    eapply emits_bind; [apply emits_if; [apply put_emits|apply emits_ret]|].
    eapply emits_bind.
    { apply emits_if; [|apply emits_ret]. eapply emits_bind; [apply emits_if; [apply put_emits|apply emits_ret]|].
      apply emits_if; [apply put_emits|apply emits_ret]. }
    eapply emits_num_bind; [apply emits_num_if; [apply pad_all_emits|apply emits_num_ret]|].
    eapply emits_num_bind; [apply pad_all_emits|].
    eapply emits_bind; [apply put_list_emits|].
    eapply emits_num_bind; [apply pad_all_emits|]. apply emits_ret.
  - match goal with |- (if _ then fill ?x _ else _) ++ _ = _ => set (w := x) end.
    set (SG := if sign =? 0 then [] else [sign]).
    set (P := if need_pfx then if base spec =? 16 then _ else _ else []).
    set (Zs := fill (precision spec - len (rev ds)) 48).
    replace (if negb (sign =? 0) then [u8 sign] else []) with SG by (subst SG; by destruct Hsign as [-> |[-> |[-> | ->]]]).
    replace (if need_pfx then (if (base spec =? 16) || negb (num =? 0) then [u8 48] else []) ++ _ else []) with P
      by (subst P; destruct need_pfx, (base spec =? 16), (num =? 0); try done; by destruct Hlo as [-> | ->]).
    replace (fill ((if len ds >? precision spec then _ else _) - len ds) (u8 48)) with Zs
      by (subst Zs; rewrite length_rev; unfold fill; f_equal; case_cmp; lia).
    rewrite map_u8 by by apply Forall_rev.
    replace (field_width spec - _) with w.
    2: { subst w SG P Zs. unfold fill. rewrite length_replicate, length_rev.
         destruct need_pfx, (base spec =? 16), (num =? 0), (sign =? 0); cbn [length negb]; case_cmp; lia. }
    clearbody w. rewrite app_nil_r. change (u8 32) with 32.
    destruct left, zp eqn:Ez; cbn [orb negb]; rewrite ?fill_spent, ?app_nil_r; try done; by destruct (flag (flags spec) ZEROPAD).
Qed.
(** ** Strings *)

Lemma string_loop_emits s : Forall byte s -> forall n lim,
  emits_num (fun m b => string_loop end_ m b s n lim) (cut lim s) (n + len (cut lim s)).
Proof using Hbuf Hend.
  induction 1 as [|c s Hc Hs IH]; intros n lim.
  - assert (cut lim [] = []) as -> by (unfold cut; case_cmp; [done|apply take_nil]). rewrite Z.add_0_r.
    cbn [string_loop]. destruct (lim =? 0); apply emits_num_ret.
  - cbn [string_loop]. destruct (Z.eqb_spec lim 0) as [-> |Hl].
    + cbn. rewrite Z.add_0_r. apply emits_num_ret.
    + assert (cut lim (c :: s) = [u8 c] ++ cut (lim - 1) s) as ->.
      { unfold cut. replace (u8 c) with c by (unfold u8; symmetry; by apply Z.mod_small).
        destruct (Z.ltb_spec lim 0), (Z.ltb_spec (lim - 1) 0); try lia; [done|].
        by replace (Z.to_nat lim) with (S (Z.to_nat (lim - 1))) by lia. }
      intros T0 m Hw Hr. rewrite app_assoc in *.
      destruct (put_emits c T0 m Hw (room_prefix _ _ Hr)) as (m1 & -> & Hw1). rewrite bind_Ok. cbn beta iota.
      destruct (IH (n + 1) (lim - 1) _ m1 Hw1 Hr) as (m2 & -> & Hw2). exists m2. split; [|done]. do 2 f_equal.
      rewrite length_app. cbn [length]. lia.
Qed.

(** Memory after [move_right]: the string moved, spaces before it. *)
Definition moved (m : mem) (p k spaces : Z) : mem :=
  write (write m (p + spaces) (read m p k)) p (fill spaces 32).

Lemma moved_text_lookup m p k spaces a :
  0 <= k -> 0 <= spaces -> mapped m p k ->
  moved m p k spaces !! a =
    if (p <=? a) && (a <? p + spaces) then Some 32
    else if (p + spaces <=? a) && (a <? p + spaces + k) then m !! (a - spaces) else m !! a.
Proof using Type.
  intros Hk Hs Hm. unfold moved. rewrite write_lookup. unfold fill at 1. rewrite length_replicate, Z2Nat.id by done.
  destruct ((p <=? a) && (a <? p + spaces)) eqn:E1.
  - unfold fill. rewrite lookup_replicate_2; [done|lia].
  - rewrite write_lookup, read_length by done. destruct ((p + spaces <=? a) && (a <? p + spaces + k)) eqn:E2; [|done].
    rewrite read_lookup by lia. replace (p + Z.of_nat (Z.to_nat (a - (p + spaces)))) with (a - spaces) by lia.
    destruct (Hm (a - spaces)) as [x Hx]; [lia|]. by rewrite Hx.
Qed.

Lemma move_right_moved m p n spaces :
  mem_ok m -> 0 <= n < 2 ^ 32 -> 0 < spaces -> p < end_ -> end_ - p < 2 ^ 32 ->
  mapped m p (Z.min (n + spaces) (end_ - p)) ->
  move_right end_ m p n spaces = Ok (moved m p (Z.max 0 (Z.min n (end_ - p - spaces))) (Z.min spaces (end_ - p))).
Proof using Type.
  intros Hk Hn Hs Hp Hsz Hm. unfold move_right. rewrite Z.geb_leb, (proj2 (Z.leb_gt _ _)) by lia. cbn zeta.
  destruct (Z.leb_spec (end_ - p) spaces) as [Hle|Hgt].
  - rewrite memset_ok by (lia || (apply (mapped_sub _ _ _ _ _ Hm); lia)). unfold moved.
    rewrite Z.max_l, Z.min_r by lia. done.
  - rewrite Z.max_r, (Z.min_l spaces) by lia.
    assert (E : (if negb (n =? 0) then
        memmove m (p + spaces) p (if n >? end_ - p - spaces then end_ - p - spaces else n) else Ok m) =
        Ok (write m (p + spaces) (read m p (Z.min n (end_ - p - spaces))))).
    { destruct (Z.eqb_spec n 0) as [-> |Hn0]; cbn [negb]; [by rewrite Z.min_l by lia|].
      replace (if n >? end_ - p - spaces then _ else n) with (Z.min n (end_ - p - spaces)) by (case_cmp; lia).
      apply memmove_ok; [done|lia|..]; apply (mapped_sub _ _ _ _ _ Hm); lia. }
    rewrite E, bind_Ok. rewrite memset_ok; [done|lia|]. apply mapped_write, (mapped_sub _ _ _ _ _ Hm); lia.
Qed.

Lemma move_right_written T0 s spaces m :
  written (T0 ++ s) m -> room (T0 ++ fill spaces 32 ++ s) -> 0 < spaces ->
  exists m', move_right end_ m (buf + len T0) (len s) spaces = Ok m' /\ written (T0 ++ fill spaces 32 ++ s) m'.
Proof using Hbuf Hend.
  intros [Hb Ho Hm Hk] [Hrm Hrw Hri] Hs. unfold fill in *. rewrite !length_app, length_replicate in *.
  destruct (Z.le_gt_cases end_ (buf + len T0)) as [Hge|Hlt].
  { exists m. split; [unfold move_right; by rewrite Z.geb_leb, (proj2 (Z.leb_le _ _))|].
    split; [|intros a Ha; apply Ho; rewrite !length_app in *; lia|done..].
    intros i x Hi Hlt. apply Hb; [|done]. rewrite lookup_app_l in Hi by lia. by rewrite lookup_app_l by lia. }
  set (p := buf + len T0) in *.
  assert (Hmap : mapped m p (Z.min (len s + spaces) (end_ - p))) by (intros a Ha; apply Hm, Hrm; lia).
  eexists. split; [apply move_right_moved; auto; lia|].
  set (k := Z.max 0 (Z.min (len s) (end_ - p - spaces))). set (sp := Z.min spaces (end_ - p)).
  assert (Hmk : mapped m p k) by (apply (mapped_sub _ _ _ _ _ Hmap); lia).
  pose proof (fun a => moved_text_lookup m p k sp a ltac:(lia) ltac:(lia) Hmk) as Hl. split.
  - intros i x Hi Hlt'. rewrite Hl. destruct (decide (i < length T0)%nat) as [Hi0|Hi0].
    + replace (_ && _) with false by lia. replace (_ && _) with false by lia. apply Hb; [|done].
      rewrite lookup_app_l in * by lia. done.
    + rewrite lookup_app_r in Hi by lia. destruct (decide (i - length T0 < Z.to_nat spaces)%nat) as [Hi1|Hi1].
      * replace (_ && _) with true by lia. rewrite lookup_app_l, lookup_replicate in Hi by (rewrite ?length_replicate; lia).
        by destruct Hi as [-> _].
      * rewrite lookup_app_r, length_replicate in Hi by (rewrite length_replicate; lia).
        pose proof (lookup_lt_Some _ _ _ Hi). replace (_ && _) with false by lia. replace (_ && _) with true by lia.
        replace (buf + Z.of_nat i - sp) with (buf + Z.of_nat (i - Z.to_nat spaces)) by lia. apply Hb; [|lia].
        rewrite lookup_app_r by lia. rewrite <- Hi. f_equal. lia.
  - intros a Ha. rewrite !length_app, length_replicate in Ha. rewrite Hl.
    replace (_ && _) with false by lia. replace (_ && _) with false by lia. apply Ho. lia.
  - intros a Ha. apply Hm in Ha. unfold moved. by apply write_is_Some, write_is_Some.
  - unfold moved. apply mem_ok_write, Forall_replicate; [|unfold byte; lia]. apply mem_ok_write; [done|by apply read_byte].
Qed.

Lemma string_nocheck_emits s spec :
  Forall byte s -> emits (fun m b => string_nocheck end_ m b s spec) (string_text s spec).
Proof using Hbuf Hend.
  intros Hs T0 m Hw Hr. unfold string_nocheck, string_text in *. set (t := cut (precision spec) s) in *.
  assert (Hr' : room (T0 ++ t)).
  { destruct Hr as [Hm Hx Hi]. destruct (flag (flags spec) LEFT); rewrite !length_app in *;
      (split; rewrite ?length_app; [intros a Ha; apply Hm; lia|lia|lia]). }
  destruct (string_loop_emits s Hs 0 (precision spec) T0 m Hw Hr') as (m1 & -> & Hw1). fold t in Hw1 |- *.
  rewrite bind_Ok. cbn beta iota. unfold widen_string. rewrite Z.geb_leb, Z.add_0_l. cbn zeta.
  destruct (Z.leb_spec (field_width spec) (len t)) as [Hle|Hgt].
  { unfold fill in *. replace (Z.to_nat (field_width spec - len t)) with 0%nat in * by lia. cbn [replicate] in *.
    exists m1. rewrite app_nil_r in *. by destruct (flag (flags spec) LEFT). }
  assert (Hwid : len (T0 ++ t) + (field_width spec - len t) < 2 ^ 31 /\ buf + len (T0 ++ t) + (field_width spec - len t) < 2 ^ 32).
  { destruct Hr as [_ Hx Hi]. unfold fill in *. destruct (flag (flags spec) LEFT); rewrite !length_app, length_replicate in *; lia. }
  rewrite (u32_small (field_width spec - len t)) by lia. destruct (flag (flags spec) LEFT); cbn [negb].
  - rewrite app_assoc in *. destruct (pad_all_emits 32 (field_width spec - len t) (T0 ++ t) m1 Hw1 Hr) as (m2 & -> & Hw2).
    rewrite bind_Ok. exists m2. done.
  - rewrite length_app in *. replace (u32 (buf + _ - len t)) with (buf + len T0) by (rewrite u32_small; lia).
    destruct (move_right_written T0 t (field_width spec - len t) m1 Hw1 Hr) as (m2 & -> & Hw2); [lia|].
    rewrite bind_Ok. exists m2. split; [|done]. do 2 f_equal. rewrite u32_small by lia.
    rewrite !length_app. unfold fill. rewrite length_replicate. lia.
Qed.
End buffer.
