(* ===== verification/VsprintfDecode.v ===== *)
(** * lib/vsprintf.c: reading a format

    [format_decode] returns a tail of the format that is shorter unless the
    conversion is invalid, and specifications that the output functions can
    work with. It follows that going through a format ends. *)

From Stdlib Require Import String.
From S2P Require Import Prelude Ctype Kstrtox StringMem Memmove LibString Vsprintf VsprintfNumber VsprintfText VsprintfSpec.

Local Open Scope Z_scope.

(** ** Tails of a format *)

Definition tail_of (rest fmt : list Z) : Prop := exists k, rest = drop k fmt.

Lemma tail_refl l : tail_of l l.
Proof. exists 0%nat. by rewrite drop_0. Qed.

Lemma tail_drop k l l' : tail_of l l' -> tail_of (drop k l) l'.
Proof. intros [j ->]. exists (j + k)%nat. by rewrite drop_drop. Qed.

Lemma tail_trans l1 l2 l3 : tail_of l1 l2 -> tail_of l2 l3 -> tail_of l1 l3.
Proof. intros [j ->]. apply tail_drop. Qed.

Lemma tail_cons c l l' : tail_of l l' -> tail_of l (c :: l').
Proof. intros [j ->]. by exists (S j). Qed.

Lemma tail_length l l' : tail_of l l' -> (length l <= length l')%nat.
Proof. intros [j ->]. rewrite length_drop. lia. Qed.

Lemma tail_Forall (P : Z -> Prop) l l' : tail_of l l' -> Forall P l' -> Forall P l.
Proof. intros [j ->]. apply Forall_drop. Qed.

#[local] Hint Resolve tail_refl tail_drop tail_cons : core.

Lemma skip_atoi_tail i s : tail_of (snd (skip_atoi i s)) s.
Proof. revert i. induction s as [|c s IH]; intros i; cbn [skip_atoi]; [done|]. destruct (isdigit c); [|done]. auto. Qed.

Lemma skip_text_tail fmt : tail_of (skip_text fmt) fmt.
Proof. induction fmt as [|c fmt IH]; cbn [skip_text]; [done|]. destruct (c =? 37); auto. Qed.

Lemma skip_alnum_tail fmt : tail_of (skip_alnum fmt) fmt.
Proof. induction fmt as [|c fmt IH]; cbn [skip_alnum]; [done|]. destruct (isalnum c); auto. Qed.

Lemma decode_flags_tail fmt f : tail_of (fst (decode_flags fmt f)) fmt.
Proof.
  revert f. induction fmt as [|c fmt IH]; intros f; cbn [decode_flags]; [done|].
  repeat (case_cmp; [by apply tail_cons|]). done.
Qed.

Lemma decode_qualifier_tail fmt : tail_of (snd (decode_qualifier fmt)) fmt.
Proof. unfold decode_qualifier. repeat case_cmp; cbn [snd]; auto. Qed.

(** ** Specifications *)

Definition flags_ok (spec : printf_spec) : Prop := 0 <= flags spec < 256.

(** The types that [number] is called for. *)
Definition is_integer (t : format_type) : bool :=
  match t with
  | FORMAT_TYPE_LONG_LONG | FORMAT_TYPE_ULONG | FORMAT_TYPE_LONG | FORMAT_TYPE_UBYTE | FORMAT_TYPE_BYTE
  | FORMAT_TYPE_USHORT | FORMAT_TYPE_SHORT | FORMAT_TYPE_UINT | FORMAT_TYPE_INT | FORMAT_TYPE_SIZE_T
  | FORMAT_TYPE_PTRDIFF => true
  | _ => false
  end.

Lemma set_flags_ok f spec : flags_ok (set_flags f spec).
Proof. unfold flags_ok. cbn. unfold u8. apply Z.mod_pos_bound. lia. Qed.

(** What a step of decoding returns for a format of at most [n] characters. *)
Definition decoded (fmt : list Z) (n : nat) (r : list Z * printf_spec) : Prop :=
  tail_of (fst r) fmt /\ flags_ok (snd r) /\ (is_integer (type (snd r)) = true -> spec_ok (snd r)) /\
  (type (snd r) = FORMAT_TYPE_INVALID \/ (length (fst r) < n)%nat).

Lemma drop_shorter fmt : ch fmt 0 <> 0 -> (length (drop 1 fmt) < length fmt)%nat.
Proof. destruct fmt; cbn; [done|]. rewrite drop_0. lia. Qed.

Lemma decoded_weaken fmt fmt' n n' r : decoded fmt n r -> tail_of fmt fmt' -> (n <= n')%nat -> decoded fmt' n' r.
Proof.
  intros (Ht & Hf & Hs & Hl) Ht' Hn. split; [by eapply tail_trans|]. split; [done|]. split; [done|].
  destruct Hl; [by left|right; lia].
Qed.

Lemma decode_conversion_ok fmt spec : flags_ok spec -> decoded fmt (length fmt) (decode_conversion fmt spec).
Proof.
  intros Hf. unfold decode_conversion. pose proof (decode_qualifier_tail fmt) as Ht.
  destruct (decode_qualifier fmt) as [q fmt']. cbn [snd] in Ht. cbn zeta. pose proof (tail_length _ _ Ht) as Hle.
  assert (Hd : forall spec', ch fmt' 0 <> 0 -> flags_ok spec' -> (is_integer (type spec') = true -> spec_ok spec') ->
            decoded fmt (length fmt) (drop 1 fmt', spec')).
  { intros spec' Hc Hf' Hs. split; [by apply tail_drop|]. csplit; [done|done|]. right. cbn [fst].
    pose proof (drop_shorter fmt' Hc). lia. }
  repeat (case_cmp; [apply Hd; [lia| |]; try done; try (intros _; split; [|cbn; tauto]); try done; apply set_flags_ok|]).
  split; [done|]. csplit; [done|done|by left].
Qed.

Lemma decode_precision_ok fmt spec : flags_ok spec -> decoded fmt (length fmt) (decode_precision fmt spec).
Proof.
  intros Hf. unfold decode_precision. cbn zeta. case_cmp; [|by apply decode_conversion_ok].
  assert (Hlt : (length (drop 1 fmt) < length fmt)%nat) by (apply drop_shorter; lia).
  case_cmp.
  - pose proof (skip_atoi_tail 0 (drop 1 fmt)) as Ht. destruct (skip_atoi 0 (drop 1 fmt)) as [p fmt']. cbn [snd] in Ht.
    eapply decoded_weaken; [apply decode_conversion_ok; by case_cmp|eapply tail_trans; [exact Ht|auto]|].
    apply tail_length in Ht. lia.
  - case_cmp.
    + split; [by repeat apply tail_drop|]. csplit; [done|done|]. right. cbn [fst]. rewrite length_drop. lia.
    + eapply decoded_weaken; [by apply decode_conversion_ok|auto|lia].
Qed.

Lemma format_decode_ok fmt spec :
  Forall (fun c => 0 < c < 256) fmt -> fmt <> [] -> flags_ok spec -> decoded fmt (length fmt) (format_decode fmt spec).
Proof.
  intros Hc Hne Hf. unfold format_decode.
  assert (Hmain : decoded fmt (length fmt)
    (let rest := skip_text fmt in
     if negb (length rest =? length fmt)%nat || (ch rest 0 =? 0) then (rest, set_type FORMAT_TYPE_NONE spec)
     else let '(fmt, f) := decode_flags (drop 1 rest) 0 in
       let spec := set_width (-1) (set_flags f (set_type FORMAT_TYPE_NONE spec)) in
       if isdigit (ch fmt 0) then let '(w, fmt) := skip_atoi 0 fmt in decode_precision fmt (set_width w spec)
       else if ch fmt 0 =? 42 then (drop 1 fmt, set_type FORMAT_TYPE_WIDTH spec) else decode_precision fmt spec)).
  { cbn zeta. pose proof (skip_text_tail fmt) as Ht. pose proof (tail_length _ _ Ht) as Hle.
    assert (Hz : ch (skip_text fmt) 0 = 0 -> skip_text fmt = []).
    { intros H0. destruct (skip_text fmt) as [|c l]; [done|]. cbn in H0. subst c.
      apply (tail_Forall _ _ _ Ht), Forall_cons in Hc as [? _]. lia. }
    destruct (negb _ || _) eqn:E.
    - split; [done|]. csplit; [done|done|]. right. cbn [fst]. apply orb_true_iff in E as [E|E].
      + apply negb_true_iff, Nat.eqb_neq in E. lia.
      + rewrite Hz by lia. destruct fmt; [done|cbn; lia].
    - apply orb_false_iff in E as [_ E]. pose proof (drop_shorter (skip_text fmt) ltac:(lia)) as Hlt.
      pose proof (decode_flags_tail (drop 1 (skip_text fmt)) 0) as Htf.
      destruct (decode_flags (drop 1 (skip_text fmt)) 0) as [fmt' f]. cbn [fst] in Htf. pose proof (tail_length _ _ Htf).
      assert (Ht' : tail_of fmt' fmt) by (eapply tail_trans; [exact Htf|by apply tail_drop]).
      pose proof (set_flags_ok f (set_type FORMAT_TYPE_NONE spec)) as Hf'. case_cmp.
      + pose proof (skip_atoi_tail 0 fmt') as Hta. destruct (skip_atoi 0 fmt') as [w fmt'']. cbn [snd] in Hta.
        eapply decoded_weaken; [by apply decode_precision_ok|by eapply tail_trans|]. apply tail_length in Hta. lia.
      + case_cmp.
        * split; [by apply tail_drop|]. csplit; [done|done|]. right. cbn [fst]. rewrite length_drop. lia.
        * eapply decoded_weaken; [by apply decode_precision_ok|done|lia]. }
  destruct (type spec); try exact Hmain.
  - apply decode_precision_ok. case_cmp; [apply set_flags_ok|done].
  - apply decode_conversion_ok. by case_cmp.
Qed.
