(* ===== verification/VsprintfTop.v ===== *)
(** * lib/vsprintf.c: vsnprintf

    The loop over a format writes the text of the format; [vsnprintf] leaves
    as much of it in the buffer as fits, with a terminating zero. *)

From Stdlib Require Import String Ascii.
From S2P Require Import Prelude LibMath Ctype Kstrtox StringMem Memmove LibString.
From S2P Require Import Vsprintf VsprintfNumber VsprintfText VsprintfSpec VsprintfDecode.

Local Open Scope Z_scope.

(** ** Arguments *)

Definition cchar (c : Z) : Prop := 0 < c < 256.

#[export] Instance cchar_dec c : Decision (cchar c).
Proof. unfold cchar. apply _. Defined.

(** Pointers have 32 bits, and strings are made of characters. *)
Fixpoint arg_ok (a : arg) : Prop :=
  0 <= arg_ptr a < 2 ^ 32 /\
  match a with
  | ArgInt _ | ArgPtr _ => True
  | ArgStr _ s => Forall cchar s
  | ArgVa _ fmt args => Forall cchar fmt /\ fold_right (fun a P => arg_ok a /\ P) True args
  end.

Definition args_ok (args : list arg) : Prop := fold_right (fun a P => arg_ok a /\ P) True args.

Lemma cchar_byte l : Forall cchar l -> Forall byte l.
Proof. intros H. eapply Forall_impl; [exact H|]. unfold cchar, byte. lia. Qed.

Lemma chars_byte s : Forall byte (chars s).
Proof.
  induction s as [|a s IH]; cbn [chars]; constructor; [|done].
  pose proof (nat_ascii_bounded a). unfold byte. lia.
Qed.

Lemma va_int_inv args r : va_int args = Ok r -> exists v args', args = ArgInt v :: args' /\ r = (v, args').
Proof. destruct args as [|[] ?]; cbn; naive_solver. Qed.

Lemma va_arg_inv args r : va_arg args = Ok r -> exists a args', args = a :: args' /\ r = (a, args').
Proof. destruct args; cbn; naive_solver. Qed.

Lemma integer_arg_range spec v : 0 <= integer_arg spec v < 2 ^ 64.
Proof.
  unfold integer_arg, u64, u32, u16, u8.
  assert (forall w, 0 < w <= 2 ^ 64 -> forall x, 0 <= x mod w < 2 ^ 64) as H.
  { intros w Hw x. pose proof (Z.mod_pos_bound x w). lia. }
  destruct (type spec); try case_cmp; apply H; lia.
Qed.

(** ** Pointers *)

Section buffer.
Context (m0 : mem) (buf end_ : Z) (Hbuf : 0 <= buf) (Hend : buf <= end_ < 2 ^ 32).
Abbreviation emits := (emits m0 buf end_).

Lemma error_emits s spec : emits (fun m b => error_string end_ m b s spec) (error_text s spec).
Proof using Hbuf Hend. apply string_nocheck_emits; [done..|apply chars_byte]. Qed.

Lemma checked_emits ptr spec op r T :
  checked_text ptr spec r = Ok T -> (r = Ok T -> emits op T) ->
  emits (fun m b => check_pointer end_ m b ptr spec (op m b)) T.
Proof using Hbuf Hend.
  unfold checked_text, check_pointer. destruct (check_pointer_msg ptr) as [msg|]; [|by auto].
  intros [= <-] _. apply error_emits.
Qed.

Lemma string_emits a spec T :
  arg_ok a -> str_text a spec = Ok T -> emits (fun m b => string_ end_ m b a spec) T.
Proof using Hbuf Hend.
  intros Ha Ht. eapply checked_emits; [exact Ht|]. clear Ht. destruct a as [|p|p s|]; try done.
  intros [= <-]. apply string_nocheck_emits; [done..|]. apply cchar_byte, Ha.
Qed.

Lemma hex_emits ptr spec :
  0 <= ptr < 2 ^ 32 -> emits (fun m b => pointer_string end_ m b ptr spec) (hex_text ptr spec).
Proof using Hbuf Hend.
  intros Hp. unfold pointer_string, hex_text. cbn zeta. apply number_emits; [done..| |lia].
  case_cmp; (split; [apply set_flags_ok|right; right; done]).
Qed.

Context (ptr_to_hashval : Z -> option Z) (no_hash_pointers debug_boot_weak_hash : bool).

Lemma default_pointer_emits ptr spec :
  0 <= ptr < 2 ^ 32 ->
  emits (fun m b => default_pointer end_ ptr_to_hashval no_hash_pointers debug_boot_weak_hash m b ptr spec)
    (pointer_text ptr_to_hashval no_hash_pointers debug_boot_weak_hash ptr spec).
Proof using Hbuf Hend.
  intros Hp. unfold default_pointer, pointer_text, ptr_to_id. destruct no_hash_pointers; [by apply hex_emits|].
  cbn [orb]. destruct (_ || _); [by apply hex_emits|].
  assert (forall x, 0 <= u32 x < 2 ^ 32) as Hu by (intros x; apply Z.mod_pos_bound; lia).
  destruct debug_boot_weak_hash; [apply hex_emits; unfold hash_32; rewrite Z.shiftr_0_r; apply Hu|].
  destruct (ptr_to_hashval ptr); [apply hex_emits, Hu|apply error_emits].
Qed.

(** [va_format] for a nested call that appends its text. *)
Context (vsn : mem -> Z -> Z -> list Z -> list arg -> outcome (mem * Z)) (ft : list Z -> list arg -> outcome (list Z)).
Context (Hvsn : forall fmt args T, Forall cchar fmt -> args_ok args -> ft fmt args = Ok T ->
  emits (fun m b => '(m, n) ← vsn m b (if end_ >? b then end_ - b else 0) fmt args; Ok (m, u32 (b + n))) T).

Lemma pointer_emits fmt a spec T :
  arg_ok a -> flags_ok spec ->
  percent_p_text ptr_to_hashval no_hash_pointers debug_boot_weak_hash ft fmt a spec = Ok T ->
  emits (fun m b => pointer end_ ptr_to_hashval no_hash_pointers debug_boot_weak_hash vsn fmt m b a spec) T.
Proof using Hbuf Hend Hvsn.
  intros Ha Hf. assert (Hp : 0 <= arg_ptr a < 2 ^ 32) by (destruct a; apply Ha).
  unfold percent_p_text, pointer. cbn zeta. destruct (pointer_stub _ _); [intros [= <-]; apply error_emits|].
  case_cmp; [intros [= <-]; apply number_emits; [done..|split; [done|tauto]|lia]|].
  case_cmp.
  { intros Ht. eapply checked_emits; [exact Ht|]. clear Ht. destruct a as [| | |p f args]; try done. intros Ht.
    apply Hvsn; [apply Ha|apply Ha|done]. }
  case_cmp; [intros [= <-]; by apply hex_emits|].
  case_cmp.
  { intros [= <-]. destruct (IS_ERR_VALUE (arg_ptr a)); cbn [negb]; [|by apply default_pointer_emits].
    apply number_emits; [done..|split; [apply set_flags_ok|right; left; done]|]. apply Z.mod_pos_bound. lia. }
  case_cmp; [|intros [= <-]; by apply default_pointer_emits].
  case_cmp; [by apply string_emits|intros [= <-]; apply error_emits].
Qed.

(** ** Literal text and characters *)

Lemma copy_in_ok l : Forall byte l -> forall m a, mapped m a (len l) -> copy_in m a l = Ok (write m a l).
Proof using Type.
  induction 1 as [|c l Hc Hl IH]; intros m a Hm; [done|]. cbn [copy_in write length] in *.
  rewrite store_ok by (done || (apply Hm; lia)). rewrite bind_Ok. apply IH.
  apply (mapped_write m a [c]). apply (mapped_sub _ _ _ _ _ Hm); lia.
Qed.

Lemma literal_emits l : Forall byte l -> emits (fun m b => put_literal end_ m b l) l.
Proof using Hbuf Hend.
  intros Hl T0 m Hw Hr. unfold put_literal. cbn zeta. pose proof (room_wrap _ _ _ _ Hr) as Hwrap.
  pose proof (written_append m0 buf end_ Hbuf Hend T0 l m Hw Hl) as Ha. rewrite length_app in *.
  rewrite u32_small by lia. destruct (Z.ltb_spec (buf + len T0) end_) as [Hlt|Hge].
  - replace (take (Z.to_nat (if _ >? _ then _ else _)) l) with (take (Z.to_nat (end_ - (buf + len T0))) l).
    2: { case_cmp; [done|]. rewrite !take_ge by lia. done. }
    rewrite copy_in_ok; [|by apply Forall_take|].
    + rewrite !bind_Ok. eexists. split; [do 2 f_equal; lia|exact Ha].
    + intros a Hx. rewrite length_take in Hx.
      apply (written_mapped _ _ _ _ _ Hw), (room_mapped _ _ _ _ Hr). rewrite length_app. lia.
  - rewrite bind_Ok. eexists. split; [do 2 f_equal; lia|]. by apply written_beyond.
Qed.

Lemma char_emits v spec : emits (fun m b => put_char end_ m b v spec) (char_text v spec).
Proof using Hbuf Hend.
  unfold put_char, char_text. eapply emits_text; cycle 1.
  - eapply emits_num_bind; [apply emits_num_if; [by apply pad_all_emits|apply emits_num_ret]|].
    eapply emits_bind; [by apply put_emits|].
    eapply emits_num_bind; [by apply pad_all_emits|]. apply emits_ret.
  - assert (u8 (u8 v) = u8 v) as -> by (unfold u8; apply Z.mod_mod; lia). change (u8 32) with 32. rewrite app_nil_r.
    destruct (flag (flags spec) LEFT); cbn [negb app]; [done|]. by rewrite fill_spent.
Qed.
End buffer.

(** ** Around the loop *)

(** The buffer as far as the address space goes. *)
Definition usable (buf size : Z) : Z := Z.min size (2 ^ 32 - 1 - buf).

(** What is left in a buffer of [n] bytes. *)
Definition stored_text (n : Z) (T : list Z) : list Z := if n <=? 0 then [] else take (Z.to_nat (n - 1)) T ++ [0].

Lemma stored_lookup m b n T m1 m2 :
  0 <= b -> 0 < n -> written m b (b + n) T m1 ->
  m2 = write m1 (if b + len T <? b + n then b + len T else b + n - 1) [0] -> m2 = write m b (stored_text n T).
Proof.
  intros Hb Hn [Hby Ho _ _] ->. unfold stored_text. rewrite (proj2 (Z.leb_gt _ _)) by lia.
  apply map_eq. intros a. rewrite !write_lookup, length_app, length_take. cbn [length].
  set (e := if b + len T <? b + n then b + len T else b + n - 1).
  assert (He : e = b + Z.min (len T) (n - 1)) by (subst e; case_cmp; lia). rewrite He.
  destruct ((b + Z.min (len T) (n - 1) <=? a) && (a <? b + Z.min (len T) (n - 1) + Z.of_nat 1)) eqn:E1.
  - replace (_ && _) with true by lia. rewrite lookup_app_r by (rewrite length_take; lia). rewrite length_take.
    replace (Z.to_nat (a - b) - _)%nat with 0%nat by lia. by replace (Z.to_nat (a - _)) with 0%nat by lia.
  - destruct ((b <=? a) && (a <? b + Z.of_nat (Z.to_nat (n - 1) `min` length T + 1))) eqn:E2.
    + rewrite lookup_app_l by (rewrite length_take; lia). rewrite lookup_take_lt by lia.
      destruct (lookup_lt_is_Some_2 T (Z.to_nat (a - b))) as [x Hx]; [lia|]. rewrite Hx.
      replace a with (b + Z.of_nat (Z.to_nat (a - b))) at 1 by lia. apply Hby; [done|lia].
    + apply Ho. lia.
Qed.

Lemma stored_nothing m b T m1 : written m b b T m1 -> m1 = m.
Proof. intros [_ Ho _ _]. apply map_eq. intros a. apply Ho. lia. Qed.

(** The loop, given room for what it stores, and what is around it. *)
Lemma around_ok loop m b size fmt args T :
  let n := usable b size in
  emits m b (b + n) (fun m b' => loop (b + n) m b' fmt args (PrintfSpec FORMAT_TYPE_NONE 0 0 0 0)) T ->
  mem_ok m -> 0 <= b < 2 ^ 32 -> 0 <= size <= INT_MAX -> room m b (b + n) T ->
  vsnprintf_around loop m b size fmt args = Ok (write m b (stored_text n T), len T) /\ mem_ok (write m b (stored_text n T)).
Proof.
  intros n He Hk Hb Hsz Hr. unfold vsnprintf_around, INT_MAX in *. rewrite Z.gtb_ltb, (proj2 (Z.ltb_ge _ _)) by lia. cbn zeta.
  assert (E : (if u32 (b + size) <? b then (2 ^ 32 - 1, 2 ^ 32 - 1 - b) else (u32 (b + size), size)) = (b + n, n)).
  { subst n. unfold usable. destruct (Z.lt_ge_cases (b + size) (2 ^ 32)).
    - rewrite u32_small, (proj2 (Z.ltb_ge _ _)) by lia. rewrite Z.min_l by lia. done.
    - assert (u32 (b + size) = b + size - 2 ^ 32) as ->.
      { unfold u32. symmetry. apply (Z.mod_unique_pos _ _ 1); lia. }
      rewrite (proj2 (Z.ltb_lt _ _)), Z.min_r by lia. f_equal; lia. }
  rewrite E. assert (0 <= n) by (subst n; unfold usable; lia).
  destruct (He [] m (written_nil _ _ _ m Hk eq_refl) Hr) as (m1 & Hl & Hw). cbn [app length] in *. rewrite Z.add_0_r in Hl.
  rewrite Hl, bind_Ok. cbn beta iota. pose proof (room_int _ _ _ _ Hr). rewrite (s32_small (b + len T - b)) by lia.
  replace (b + len T - b) with (len T) by lia. destruct (Z.ltb_spec 0 n) as [Hn|Hn]; rewrite Z.gtb_ltb.
  - rewrite (proj2 (Z.ltb_lt _ _)) by lia. rewrite store_u8.
    2: { apply (written_mapped _ _ _ _ _ Hw), (room_mapped _ _ _ _ Hr). case_cmp; lia. }
    rewrite !bind_Ok. change (u8 0) with 0.
    pose proof (stored_lookup m b n T m1 _ ltac:(lia) Hn Hw eq_refl) as Es. rewrite <- Es. split; [done|].
    apply mem_ok_write; [apply (written_ok _ _ _ _ _ Hw)|]. apply Forall_singleton. unfold byte. lia.
  - rewrite (proj2 (Z.ltb_ge _ _)) by lia. rewrite bind_Ok. unfold stored_text. rewrite (proj2 (Z.leb_le _ _)) by lia. cbn [write].
    replace (b + n) with b in Hw by lia. by rewrite (stored_nothing _ _ _ _ Hw).
Qed.

(** A nested call appends its text. *)
Lemma nested_emits loop m0 buf end_ fmt args T :
  0 <= buf -> buf <= end_ < 2 ^ 32 -> end_ - buf <= INT_MAX ->
  (forall m b e, 0 <= b -> b <= e < 2 ^ 32 -> e - b <= INT_MAX ->
     emits m b e (fun m b' => loop e m b' fmt args (PrintfSpec FORMAT_TYPE_NONE 0 0 0 0)) T) ->
  emits m0 buf end_
    (fun m b => '(m, n) ← vsnprintf_around loop m b (if end_ >? b then end_ - b else 0) fmt args; Ok (m, u32 (b + n))) T.
Proof.
  intros Hb He Hi Hl T0 m Hw Hr. pose proof (room_wrap _ _ _ _ Hr) as Hwr. pose proof (room_int _ _ _ _ Hr) as Hri.
  rewrite length_app in *. set (b := buf + len T0) in *. set (size := if end_ >? b then end_ - b else 0).
  assert (Hs : size = Z.max 0 (end_ - b)) by (subst size; case_cmp; lia).
  assert (Hu : usable b size = size) by (unfold usable; lia). unfold INT_MAX in *.
  destruct (around_ok loop m b size fmt args T) as [-> Hk']; rewrite ?Hu.
  - apply Hl; unfold INT_MAX; lia.
  - apply (written_ok _ _ _ _ _ Hw).
  - lia.
  - unfold INT_MAX. lia.
  - split; [|lia|lia]. intros a Ha. apply (written_mapped _ _ _ _ _ Hw), (room_mapped _ _ _ _ Hr). rewrite length_app. lia.
  - rewrite bind_Ok, Hu in *. cbn beta iota. eexists. split; [do 2 f_equal; rewrite u32_small; lia|].
    destruct Hw as [Hby Ho Hm _]. split.
    + intros i x Hx Hlt. rewrite write_lookup. unfold stored_text.
      destruct (decide (i < length T0)%nat) as [Hi0|Hi0].
      * replace (_ && _) with false by lia. apply Hby; [|done]. by rewrite lookup_app_l in Hx by lia.
      * rewrite lookup_app_r in Hx by lia. pose proof (lookup_lt_Some _ _ _ Hx).
        rewrite (proj2 (Z.leb_gt size 0)) by lia. rewrite length_app, length_take. cbn [length].
        replace (_ && _) with true by lia. rewrite lookup_app_l by (rewrite length_take; lia).
        rewrite lookup_take_lt by lia. rewrite <- Hx. f_equal. lia.
    + intros a Ha. rewrite length_app in Ha. rewrite write_outside; [apply Ho; lia|]. unfold stored_text.
      case_cmp; [cbn; lia|]. rewrite length_app, length_take. cbn [length]. lia.
    + intros a Ha. by apply write_is_Some, Hm.
    + done.
Qed.

(** ** The loop *)

Section loop.
Context (ptr_to_hashval : Z -> option Z) (no_hash_pointers debug_boot_weak_hash : bool).
Abbreviation text := (format_text ptr_to_hashval no_hash_pointers debug_boot_weak_hash).
Abbreviation the_loop := (vsnprintf_loop ptr_to_hashval no_hash_pointers debug_boot_weak_hash).

(** An output function and then the rest of the format. *)
Lemma andthen_emits m0 buf end_ op rest t fuel args spec T :
  emits m0 buf end_ op t ->
  (t' ← text fuel rest args spec; Ok (t ++ t')) = Ok T ->
  (forall T', text fuel rest args spec = Ok T' ->
     emits m0 buf end_ (fun m b => the_loop fuel end_ m b rest args spec) T') ->
  emits m0 buf end_ (fun m b => '(m, b) ← op m b; the_loop fuel end_ m b rest args spec) T.
Proof using Type.
  intros Hop Ht Hrest. apply bind_Ok_inv in Ht as (T' & Ht & [= <-]). apply (emits_bind _ _ _ _ _ _ _ Hop), Hrest, Ht.
Qed.

Ltac head_bound := eapply emits_ext; [intros; cbn [va_int va_arg]; rewrite bind_Ok; cbn beta iota; reflexivity|].

Lemma loop_emits fuel : forall fmt args spec T,
  Forall cchar fmt -> args_ok args -> flags_ok spec -> text fuel fmt args spec = Ok T ->
  forall m0 buf end_, 0 <= buf -> buf <= end_ < 2 ^ 32 -> end_ - buf <= INT_MAX ->
  emits m0 buf end_ (fun m b => the_loop fuel end_ m b fmt args spec) T.
Proof using Type.
  induction fuel as [|fuel IH]; intros fmt args spec T Hc Ha Hf Ht m0 buf end_ Hb He Hi; [done|].
  destruct (decide (fmt = [])) as [-> |Hne]; [cbn in Ht; simplify_eq; apply emits_ret|].
  destruct (format_decode_ok fmt spec Hc Hne Hf) as (Htail & Hf' & Hs & _).
  destruct fmt as [|c0 fmt0]; [done|]. cbn [vsnprintf_loop format_text] in *. remember (c0 :: fmt0) as fmt eqn:Efmt.
  destruct (format_decode fmt spec) as [rest spec']. cbn [fst snd] in *. pose proof (tail_Forall _ _ _ Htail Hc) as Hcr.
  assert (Hgo : forall args' T', args_ok args' -> text fuel rest args' spec' = Ok T' ->
    emits m0 buf end_ (fun m b => the_loop fuel end_ m b rest args' spec') T') by (intros; by apply IH).
  assert (Hnum : is_integer (type spec') = true ->
    ('(v, args) ← va_int args; t' ← text fuel rest args spec'; Ok (number_text (integer_arg spec' v) spec' ++ t')) = Ok T ->
    emits m0 buf end_ (fun m b => '(v, args) ← va_int args; '(m, b) ← number end_ m b (integer_arg spec' v) spec';
      the_loop fuel end_ m b rest args spec') T).
  { clear Ht. intros Hty Ht. apply bind_Ok_inv in Ht as ([v args'] & Hv & Ht).
    apply va_int_inv in Hv as (v' & args'' & -> & [= <- <-]). head_bound.
    eapply andthen_emits; [by apply number_emits; [done..|apply Hs|apply integer_arg_range]|exact Ht|].
    intros; apply Hgo; [apply Ha|done]. }
  destruct (type spec') eqn:Ety; try exact (Hnum eq_refl Ht); clear Hnum.
  - eapply andthen_emits; [apply literal_emits; [done..|by apply Forall_take, cchar_byte]|exact Ht|by auto].
  - apply bind_Ok_inv in Ht as ([v args'] & Hv & Ht). apply va_int_inv in Hv as (v' & args'' & -> & [= <- <-]). head_bound.
    apply IH; try done; [apply Ha|]. unfold set_field_width. by case_cmp.
  - apply bind_Ok_inv in Ht as ([v args'] & Hv & Ht). apply va_int_inv in Hv as (v' & args'' & -> & [= <- <-]). head_bound.
    apply IH; try done; [apply Ha|]. unfold set_precision. by case_cmp.
  - apply bind_Ok_inv in Ht as ([v args'] & Hv & Ht). apply va_int_inv in Hv as (v' & args'' & -> & [= <- <-]). head_bound.
    eapply andthen_emits; [by apply char_emits|exact Ht|]. intros. apply Hgo; [apply Ha|done].
  - apply bind_Ok_inv in Ht as ([a args'] & Hv & Ht). apply va_arg_inv in Hv as (a' & args'' & -> & [= <- <-]). head_bound.
    apply bind_Ok_inv in Ht as (t & Ht1 & Ht).
    eapply andthen_emits; [by apply string_emits; [..|apply Ha|exact Ht1]|exact Ht|]. intros. apply Hgo; [apply Ha|done].
  - apply bind_Ok_inv in Ht as ([a args'] & Hv & Ht). apply va_arg_inv in Hv as (a' & args'' & -> & [= <- <-]). head_bound.
    apply bind_Ok_inv in Ht as (t & Ht1 & Ht).
    eapply andthen_emits; [eapply pointer_emits; [done|done| |apply Ha|done|exact Ht1]|exact Ht|].
    + intros f args T' Hcf Haf Htf. apply nested_emits; [done..|]. intros m b e ? ? ?. apply IH; try done.
    + intros T' HT'. apply IH; try done; [|apply Ha]. by apply (tail_Forall _ _ rest); [apply skip_alnum_tail|].
  - eapply andthen_emits; [by apply put_emits|exact Ht|by auto].
  - simplify_eq. apply emits_ret.
Qed.

(** ** Termination *)

Lemma bind_terminates {A B} (x : outcome A) (f : A -> outcome B) :
  x <> NoFuel -> (forall a, x = Ok a -> f a <> NoFuel) -> (x ≫= f) <> NoFuel.
Proof using Type. destruct x; cbn; naive_solver. Qed.

Lemma str_text_terminates a spec : str_text a spec <> NoFuel.
Proof using Type. unfold str_text, checked_text. destruct (check_pointer_msg _); [done|]. by destruct a. Qed.

Lemma percent_p_terminates ft fmt a spec :
  (forall p f args, a = ArgVa p f args -> ft f args <> NoFuel) ->
  percent_p_text ptr_to_hashval no_hash_pointers debug_boot_weak_hash ft fmt a spec <> NoFuel.
Proof using Type.
  intros Hft. unfold percent_p_text. cbn zeta. destruct (pointer_stub _ _); [done|].
  case_cmp; [done|]. case_cmp.
  { unfold checked_text. destruct (check_pointer_msg _); [done|]. destruct a; try done. by eapply Hft. }
  case_cmp; [done|]. case_cmp; [done|]. case_cmp; [|done]. case_cmp; [apply str_text_terminates|done].
Qed.

Lemma args_size_cons a args : list_sum (map arg_size (a :: args)) = (arg_size a + list_sum (map arg_size args))%nat.
Proof using Type. done. Qed.

Lemma text_terminates fuel : forall fmt args spec,
  Forall cchar fmt -> args_ok args -> flags_ok spec -> (length fmt + list_sum (map arg_size args) < fuel)%nat ->
  text fuel fmt args spec <> NoFuel.
Proof using Type.
  induction fuel as [|fuel IH]; intros fmt args spec Hc Ha Hf Hlt; [lia|].
  destruct (decide (fmt = [])) as [-> |Hne]; [done|].
  destruct (format_decode_ok fmt spec Hc Hne Hf) as (Htail & Hf' & _ & Hshort).
  destruct fmt as [|c0 fmt0]; [done|]. cbn [format_text]. remember (c0 :: fmt0) as fmt eqn:Efmt.
  destruct (format_decode fmt spec) as [rest spec']. cbn [fst snd] in *. pose proof (tail_Forall _ _ _ Htail Hc) as Hcr.
  destruct Hshort as [Ei|Hshort]; [by rewrite Ei|].
  assert (Hgo : forall rest' args' spec'', tail_of rest' rest -> flags_ok spec'' -> args_ok args' ->
    (list_sum (map arg_size args') <= list_sum (map arg_size args))%nat -> text fuel rest' args' spec'' <> NoFuel).
  { intros rest' args' spec'' Htl Hf'' Ha' Hle. pose proof (tail_length _ _ Htl). apply IH; try done; [|lia].
    by eapply tail_Forall. }
  assert (Hthen : forall t rest' args', tail_of rest' rest -> args_ok args' ->
    (list_sum (map arg_size args') <= list_sum (map arg_size args))%nat ->
    (t' ← text fuel rest' args' spec'; Ok (t ++ t')) <> NoFuel) by (intros; by apply bind_terminates; [apply Hgo|]).
  pose proof (tail_refl rest) as Hrefl.
  assert (Hva : forall k, (forall v args', args_ok args' -> (list_sum (map arg_size args') <= list_sum (map arg_size args))%nat ->
    k v args' <> NoFuel) -> ('(v, args) ← va_int args; k v args : outcome (list Z)) <> NoFuel).
  { intros k Hk. apply bind_terminates; [by destruct args as [|[] ?]|]. intros [v args'] Hv.
    apply va_int_inv in Hv as (v' & args'' & -> & [= <- <-]). apply Hk; [apply Ha|rewrite args_size_cons; lia]. }
  destruct (type spec') eqn:Ety; try done; try (by apply Hva; intros; apply Hthen).
  - by apply Hthen.
  - apply Hva. intros. apply Hgo; try done. unfold set_field_width. by case_cmp.
  - apply Hva. intros. apply Hgo; try done. unfold set_precision. by case_cmp.
  - destruct args as [|a args]; [done|]. cbn [va_arg]. rewrite bind_Ok. cbn beta iota. destruct Ha as [Haa Ha].
    apply bind_terminates; [apply str_text_terminates|]. intros t _. apply Hthen; try done. rewrite args_size_cons. lia.
  - destruct args as [|a args]; [done|]. cbn [va_arg]. rewrite bind_Ok. cbn beta iota. destruct Ha as [Haa Ha].
    apply bind_terminates; [|intros t _; apply Hthen; try done; [apply skip_alnum_tail|rewrite args_size_cons; lia]].
    apply percent_p_terminates. intros p f fargs ->. destruct Haa as (_ & Hcf & Haf). apply IH; try done.
    rewrite args_size_cons in Hlt. cbn [arg_size] in Hlt. lia.
  - by apply Hthen.
Qed.
End loop.

Lemma vsnprintf_ok hash nohash weak m buf size fmt args T :
  mem_ok m -> 0 <= buf < 2 ^ 32 -> 0 <= size <= INT_MAX -> Forall cchar fmt -> args_ok args ->
  text_of_format hash nohash weak fmt args = Ok T ->
  mapped m buf (Z.min (usable buf size) (len T + 1)) -> buf + len T < 2 ^ 32 -> len T < 2 ^ 31 ->
  vsnprintf hash nohash weak m buf size fmt args = Ok (write m buf (stored_text (usable buf size) T), len T).
Proof.
  intros Hk Hb Hs Hc Ha Ht Hm Hw Hi. set (n := usable buf size) in *.
  assert (Hn : 0 <= n <= size) by (subst n; unfold usable; lia). unfold vsnprintf.
  destruct (around_ok (vsnprintf_loop hash nohash weak (format_fuel fmt args)) m buf size fmt args T) as [E _]; try done.
  - apply loop_emits; try done; [lia|unfold usable; lia|unfold INT_MAX in *; lia].
  - split; [|done|done]. intros a Hx. apply Hm. fold n in Hx. lia.
Qed.



(** ** Round trip with the conversions from strings *)

Lemma digit_of_case_char d : 0 <= d < 16 -> digit_of_case 32 d = digit_char d /\ (d < 10 -> digit_of_case 0 d = digit_char d).
Proof.
  intros Hd. pose proof (forall_below (fun d => (digit_of_case 32 d =? digit_char d) &&
    ((10 <=? d) || (digit_of_case 0 d =? digit_char d))) 16 d ltac:(by vm_compute) Hd) as E. cbn beta in E. lia.
Qed.

(** The digits of [number] are those of [print]. *)
Lemma rdigits_print locase b n :
  0 <= n < 2 ^ 64 -> (b = 8 \/ b = 10) /\ locase = 0 \/ b = 16 /\ locase = 32 ->
  rev (rdigits (digit_of_case locase) b n) = print b n.
Proof.
  intros Hn Hb. unfold rdigits, print. rewrite rev_involutive, (proj2 (Z.ltb_ge _ _)) by lia.
  destruct (to_digits_ok 64 b n) as (_ & _ & Hd & _); [lia|done|lia|]. apply map_ext_in. intros d Hin.
  rewrite Forall_forall in Hd. specialize (Hd d (proj2 (list_elem_of_In _ _) Hin)). cbn in Hd.
  destruct Hb as [[Hb ->]|[-> ->]]; apply digit_of_case_char; lia.
Qed.

(** A number without a field. *)
Lemma number_text_plain num f b sign n :
  0 <= n < 2 ^ 64 -> number_sign f num = (sign, n) -> flag f SPECIAL = false ->
  (b = 8 \/ b = 10) /\ Z.land f SMALL = 0 \/ b = 16 /\ Z.land f SMALL = 32 ->
  number_text num (PrintfSpec FORMAT_TYPE_LONG_LONG (-1) f b (-1)) = (if sign =? 0 then [] else [sign]) ++ print b n.
Proof.
  intros Hn Hs Hsp Hb. unfold number_text. cbn [flags base precision field_width]. rewrite Hs, Hsp.
  rewrite (rdigits_print (Z.land f SMALL) b n Hn Hb). cbn [andb app length].
  assert (forall k, 0 <= k -> fill (-1 - k) 48 = [] /\ fill (-1 - k) 32 = []) as Hfill.
  { intros k Hk. unfold fill. by replace (Z.to_nat (-1 - k)) with 0%nat by lia. }
  rewrite !(proj1 (Hfill (len (print b n)) ltac:(lia))).
  set (w := -1 - _). assert (Hw : fill w 48 = [] /\ fill w 32 = []) by (apply Hfill; lia). destruct Hw as [W1 W2]. clearbody w.
  destruct (flag f LEFT), (flag f ZEROPAD); cbn [orb andb negb]; rewrite ?W1, ?W2; cbn [fill Z.to_nat replicate app];
    by rewrite ?app_nil_r.
Qed.

Definition format_of_base (base : Z) : list Z :=
  if base =? 8 then chars "%llo" else if base =? 10 then chars "%llu" else chars "%llx".

Lemma print_length b v k :
  2 <= b -> 0 <= v < 2 ^ 64 -> 2 ^ 64 <= b ^ Z.of_nat k -> (0 < k)%nat -> (length (print b v) <= k)%nat.
Proof.
  intros Hb Hv Hk H0. unfold print. rewrite (proj2 (Z.ltb_ge _ _)), length_map by lia. apply to_digits_length; lia.
Qed.

Lemma print_neg v : v < 0 -> print 10 v = 45 :: print 10 (- v).
Proof. intros Hv. unfold print. by rewrite (proj2 (Z.ltb_lt v 0)), (proj2 (Z.ltb_ge (- v) 0)) by lia. Qed.

(** A format with a single conversion. *)
Lemma single_text hash nohash weak k fmt spec0 spec v :
  fmt <> [] -> format_decode fmt spec0 = ([], spec) -> type spec = FORMAT_TYPE_LONG_LONG ->
  format_text hash nohash weak (S (S k)) fmt [ArgInt v] spec0 = Ok (number_text (u64 v) spec).
Proof.
  intros Hne Hd Ht.
  assert (E : format_text hash nohash weak (S k) [] [] spec = Ok []) by reflexivity.
  generalize dependent (S k). intros n E.
  destruct fmt as [|c fmt]; [done|]. cbn [format_text]. rewrite Hd, Ht. cbn [va_int]. rewrite bind_Ok. cbn beta iota.
  rewrite E, bind_Ok, app_nil_r. unfold integer_arg. by rewrite Ht.
Qed.

Lemma single_conversion hash nohash weak fmt spec v :
  length fmt = 4%nat -> format_decode fmt (PrintfSpec FORMAT_TYPE_NONE 0 0 0 0) = ([], spec) ->
  type spec = FORMAT_TYPE_LONG_LONG -> text_of_format hash nohash weak fmt [ArgInt v] = Ok (number_text (u64 v) spec).
Proof.
  intros Hl Hd Ht. unfold text_of_format.
  assert (format_fuel fmt [ArgInt v] = 5%nat) as -> by (unfold format_fuel; rewrite Hl; reflexivity).
  apply single_text; [by intros -> |done..].
Qed.

(** C35. Numbers written with [vsnprintf] are read back by the conversions from
    strings: [%lld] gives the decimal digits of a signed 64-bit number, with a
    minus sign when it is negative, and [kstrtoll] returns the number; [%llo],
    [%llu] and [%llx] do so for unsigned numbers in base 8, 10 and 16 with
    [kstrtoull]. The text and its terminating zero fit in 24 bytes. *)
Theorem printf_kstrto_roundtrip hash nohash weak m buf size v base :
  mem_ok m -> 0 <= buf -> buf + 24 < 2 ^ 32 -> 24 <= size <= INT_MAX -> buf + size < 2 ^ 32 -> mapped m buf 24 ->
  base = 8 \/ base = 10 \/ base = 16 ->
  (- 2 ^ 63 <= v < 2 ^ 63 ->
   vsnprintf hash nohash weak m buf size (chars "%lld") [ArgInt v] =
     Ok (write m buf (print 10 v ++ [0]), len (print 10 v)) /\
   kstrtoll (print 10 v) 10 = Ok (Val v)) /\
  (0 <= v < 2 ^ 64 ->
   vsnprintf hash nohash weak m buf size (format_of_base base) [ArgInt v] =
     Ok (write m buf (print base v ++ [0]), len (print base v)) /\
   kstrtoull (print base v) base = Ok (Val v)).
Proof.
  intros Hk Hb Hw Hs Hbs Hm Hbase.
  assert (Hgo : forall fmt T, Forall cchar fmt -> text_of_format hash nohash weak fmt [ArgInt v] = Ok T -> len T <= 23 ->
    vsnprintf hash nohash weak m buf size fmt [ArgInt v] = Ok (write m buf (T ++ [0]), len T)).
  { intros fmt T Hc Ht Hl. unfold INT_MAX in *. rewrite (vsnprintf_ok hash nohash weak m buf size fmt [ArgInt v] T); try done; try lia.
    - unfold usable, stored_text. rewrite Z.min_l, (proj2 (Z.leb_gt _ _)), take_ge by lia. done.
    - unfold INT_MAX. lia.
    - split; [|done]. split; [|done]. cbn. apply Z.mod_pos_bound. lia.
    - apply (mapped_sub _ _ _ _ _ Hm); lia. }
  split; intros Hv.
  - split; [|by apply kstrtoll_print; [lia|]]. apply Hgo.
    + apply (bool_decide_unpack (Forall cchar (chars "%lld"))). vm_compute. done.
    + rewrite (single_conversion _ _ _ _ (PrintfSpec FORMAT_TYPE_LONG_LONG (-1) SIGN 10 (-1))) by done. f_equal.
      assert (Hsg : number_sign SIGN (u64 v) = if v <? 0 then (45, - v) else (0, v)).
      { unfold number_sign. rewrite s64_u64, s64_small by lia. change (flag SIGN SIGN) with true. cbn iota.
        case_cmp; [by rewrite u64_small by lia|]. change (flag SIGN PLUS) with false. change (flag SIGN SPACE) with false.
        cbn iota. by rewrite u64_small by lia. }
      revert Hsg. destruct (Z.ltb_spec v 0) as [Hneg|Hpos]; intros Hsg.
      * rewrite (number_text_plain _ _ _ 45 (- v)); [|lia|done|done|left; vm_compute; tauto]. by rewrite (print_neg v).
      * rewrite (number_text_plain _ _ _ 0 v); [done|lia|done|done|left; vm_compute; tauto].
    + destruct (Z.lt_ge_cases v 0).
      * rewrite print_neg by done. pose proof (print_length 10 (- v) 20 ltac:(lia) ltac:(lia)). cbn in *. lia.
      * pose proof (print_length 10 v 20 ltac:(lia) ltac:(lia)). cbn in *. lia.
  - destruct (print_nonneg base v) as (Htx & H43 & H45 & Em); [lia|done|].
    assert (Ep : map digit_char (to_digits 64 base v) = print base v)
      by (unfold print; by rewrite (proj2 (Z.ltb_ge _ _)) by lia). rewrite Ep in *. split.
    + apply Hgo.
      * apply (bool_decide_unpack (Forall cchar (format_of_base base))). destruct Hbase as [-> | [-> | ->]]; vm_compute; done.
      * set (f := if base =? 16 then SMALL else 0).
        rewrite (single_conversion _ _ _ _ (PrintfSpec FORMAT_TYPE_LONG_LONG (-1) f base (-1)))
          by (subst f; destruct Hbase as [-> | [-> | ->]]; reflexivity). f_equal. rewrite u64_small by lia.
        rewrite (number_text_plain v f base 0 v); [done|done|..]; subst f;
          destruct Hbase as [-> | [-> | ->]]; vm_compute; tauto.
      * pose proof (print_length base v 22 ltac:(lia) ltac:(lia)) as Hl. destruct Hbase as [-> | [-> | ->]]; cbn in *; lia.
    + unfold kstrtoull. rewrite (proj2 (Z.eqb_neq _ _) H43). rewrite kstrtoull_ok by (done || (right; lia)). by rewrite Em.
Qed.

Lemma printf_kstrto_roundtrip_witness :
  let m := counting 4096 64 in
  let hash := fun p : Z => None in
  (vsnprintf hash false false m 4096 32 (chars "%lld") [ArgInt (-300)] = Ok (write m 4096 (print 10 (-300) ++ [0]), len (print 10 (-300))) /\
   kstrtoll (print 10 (-300)) 10 = Ok (Val (-300))) /\ print 10 (-300) = chars "-300".
Proof.
  intros m hash. split; [|vm_compute; reflexivity].
  apply (printf_kstrto_roundtrip hash false false m 4096 32 (-300) 10).
  - apply counting_ok.
  - lia.
  - lia.
  - unfold INT_MAX. lia.
  - lia.
  - apply counting_mapped; lia.
  - lia.
  - lia.
Defined.
